(* ===== verification/_CoqProject ===== *)
-Q . S2P
Prelude.v
Effects.v
Text.v
Framing.v
Plist.v
PlistLimits.v
Transport.v
Hello.v
Policy.v
Biometric.v
Mesa.v
Calibration.v
Commands.v
Rpc.v
Control.v
Session.v
Xart.v
MatchWorkflow.v
EnrollWorkflow.v
UserWorkflow.v
PolicyWorkflow.v
Packet.v
FrameState.v
ClientState.v
Digitizer.v
Wire.v
AuthProtocol.v
StandardProtocol.v
StandardAuthority.v
AuthSession.v
Scheduler.v
IdentityCatalog.v
FileSystem.v
CatacombStore.v
CatacombSafety.v
CatacombAtomic.v
CatacombSession.v
CatacombBackup.v
IdentityRemoval.v
CatacombRecovery.v
CatacombRestore.v
AuthOperation.v
Enrollment.v
EnrollmentSafety.v
OverlayRecord.v
Gesture.v
XartStore.v
XartService.v
TouchBarService.v
TouchBarContract.v
StandardConnection.v
KeybagRelay.v
