(* ===== verification/Prelude.v ===== *)
(** * T1Bridge verification

    T1Bridge drives the T1 coprocessor of a laptop from Linux: the Touch Bar
    display and digitizer, and the fingerprint reader behind the Secure Enclave.
    Its Rust workspace ([src/crates/]) has these parts.

    - [t1-bridge] speaks BridgeXPC to the coprocessor: frames, property lists,
      RPC, and the biometric workflows on top of them.
    - [t1-touchbar-hw] is the service that owns the Touch Bar device. One
      rendering client at a time leases it over datagrams, registers buffers,
      submits frames and receives input frames.
    - [t1-daemons] holds the authentication broker. Clients (the PAM module, the
      fingerprint service) send requests over sockets; the broker authorizes
      them, runs at most one hardware operation at a time on a worker thread,
      delivers cancellations to it, and answers.
    - [t1-touchbar] draws, [t1-import] recovers factory data, [t1-platform] is
      the boundary to the operating system.

    ** Files, and the code they model

    - [Prelude]: results with panics as a third outcome and the [let!] notation
      for [?], machine-width integers with checked and saturating operations,
      durations in nanoseconds, byte strings, slices and endianness, and the
      tactics, hints and lemmas the other files share.
    - [Text]: UTF-8 validity, as [std::str::from_utf8] tests it, the characters
      of a text and its UTF-16 form.
    - [Effects]: code that takes [&mut] state and returns a [Result], as a function
      from the state to the result and the new state, with the notation [do!].
    - [Framing]: [t1-bridge/src/framing.rs], BridgeXPC frames.
    - [Plist]: [t1-bridge/src/bplist.rs], the bounded codec of binary property
      lists; [PlistLimits]: which values its encoder accepts.
    - [Transport]: [transport.rs], frames over a byte stream. A [Stream] is the list of
      the results its reads and writes will have, so that every way of cutting,
      interrupting and ending a stream is one of its values.
    - [Hello]: [hello.rs], the HELLO body and the bounded JSON parser; [Rpc]: [rpc.rs],
      identifiers, envelopes and payloads; [Session]: [session.rs] and the session
      transport of [control.rs]; [Xart]: [xart.rs].
    - [Policy], [Biometric], [Mesa], [Calibration], [Commands]: the records, messages
      and command packets of the sensor ([policy.rs], [biometric.rs] and
      [catacomb.rs], [mesa.rs], [calibration.rs], [commands.rs]).
    - [Control]: [control.rs]. The trait [BiometricTransport] is a type class; the
      workflows are written against it, and [runs] says of one which commands it
      sends. [Session] implements the class.
    - [MatchWorkflow], [EnrollWorkflow], [UserWorkflow], [PolicyWorkflow]: the
      workflows of [match_workflow.rs], [enroll_workflow.rs], [user_workflow.rs] with
      [prime_workflow.rs], and [policy_workflow.rs]. Event sources and the retry
      runtime are type classes too.
    - [Packet], [Wire]: [t1-touchbar-hw/src/packet.rs] and [wire.rs], the
      datagrams of the Touch Bar service and their typed messages. A message is
      an inductive value with the source's constructors; [decode_client],
      [encode_client], [decode_service] and [encode_service] are the entry points.
    - [FrameState]: [frame_state.rs], layouts, damage rectangles and the registry
      of buffers, a list of entries like the source's vector.
    - [ClientState]: [client_state.rs], the lease of the rendering client with the
      pending cleanup of a revoked one. The borrowed guard [RevokedClient] is
      state passing.
    - [Digitizer]: [digitizer.rs] and [input_state.rs], the report parser, the
      coordinate scaling in binary64 (primitive floats) and the input frames.
    - [AuthProtocol]: [t1-daemons/src/auth_protocol.rs], the fixed packets, the
      access policy and the broker state. A cancellation callback is a function
      that passes the state of its caller.
    - [StandardProtocol]: [standard_fingerprint_protocol.rs], the variable-size
      packets of the fingerprint service, read with a cursor.
    - [StandardAuthority]: [standard_operation_authority.rs], the authorization of
      fingerprint operations against the recorded owner, on the same broker
      state.
    - [AuthSession]: [auth_session.rs], the [CancellationSlot] of [overlay.rs] and
      [auth_feedback.rs]. The events and the slot that the coordinator and its
      workers share through [Arc] live in a modelled memory ([Memory]), so that
      pointer equality and writes seen through several handles are as in the
      source, and the slot's lock can be poisoned.
    - [Scheduler]: [auth_scheduler.rs], worker leases, deadlines and poisoning, and
      the service that composes them with the coordinator. [service_step] is one
      call of any of the broker's threads, and [service_run] a history of calls.
    - [StandardConnection]: [standard_connection.rs] and [nss_account.rs], the
      connections of the fingerprint service on that scheduler, with the contract of
      a connection; the account database is a parameter.
    - [TouchBarService]: [service.rs] and [touchid_cancel.rs] of [t1-touchbar-hw], the
      loop that joins the Touch Bar files above. The platform layer is a class; what the
      outside can see is noted in a log. [TouchBarContract]: the step relation that the
      log keeps.
    - [Gesture]: [t1-touchbar/src/gesture.rs], contacts, taps, drags and holds.
    - [OverlayRecord]: the record that a session publishes for the display
      ([overlay.rs]) and its reader ([overlay_state.rs]).
    - [IdentityCatalog]: [identity_metadata.rs], [standard_identity_catalog.rs] and
      [standard_query_policy.rs], labels of identities and who may see them.
    - [FileSystem]: what the stores use of [std::fs]: names, modes, staged and durable
      contents, with calls that may fail and a machine that may stop at any of them.
    - [CatacombStore]: [catacomb_store.rs] with [legacy_recovery.rs], the generations of
      a template pair; [CatacombSafety] and [CatacombAtomic]: what its operations keep,
      call by call; [CatacombRecovery]: the recovery at start.
    - [CatacombSession]: [catacomb_session.rs], [identity_lifecycle.rs] and
      [deletion.rs], the export of templates and the removal of an identity, proved in
      [CatacombBackup] and [IdentityRemoval]; [CatacombRestore]: [catacomb_restore.rs].
    - [AuthOperation]: [auth_operation.rs], one authentication; [Enrollment]:
      [enrollment_transaction.rs], [standard_enrollment.rs] and the types of
      [enrollment_lifecycle.rs], proved in [EnrollmentSafety].
    - [KeybagRelay]: [keybag_relay.rs], and in the module [Handoff] the relay handoffs of
      [auth_lifecycle.rs] and [enrollment_lifecycle.rs].
    - [XartStore]: [xart_store.rs]; [XartService]: [xart_service.rs], [xart_protocol.rs]
      and [xart_session.rs], the service that keeps the coprocessor's record.

    ** What the theorems show

    Codecs. Each decoder accepts a byte string exactly when it is the encoding of
    a well-formed message, and returns that message ([decode_client_iff],
    [decode_service_iff], [decode_prefix_iff], [std_decode_client_iff],
    [std_decode_server_iff], [auth_packets_exact], [parse_digitizer_payload_iff]).
    A property list is read back as the value that was written
    ([plist_roundtrip]), a factory calibration record is accepted exactly when it is
    the DER encoding of its envelopes ([fdr_record_iff]), a recovery directory when it
    packs its entries ([xart_directory_iff]). Nothing makes a decoder panic ([wire_no_panic],
    [decode_exact_no_panic], [std_decode_no_panic], [plist_decode_no_panic]). The
    encoder of the fingerprint service succeeds on all well-formed messages
    ([std_encode_total]); that of property lists exactly on the well-formed values
    within the limits of the code, and the size of its output is computed
    ([plist_encode_limits]); accepted messages stay within
    their bounds ([accepted_submission_damage], [accepted_input_contacts],
    [plist_decoded_bounded]).

    The connection to the coprocessor. Receiving a frame is decoding the bytes that
    can be read, however they arrive ([receive_frame_refines], [frames_roundtrip]); a
    connection starts with the peer's valid HELLO and one of ours, which is always
    accepted ([connect_handshake], [hello_accepted], [validate_peer_hello_total]). What a
    stream offers is the frames that can be read from it and the error it then ends
    with, and every stream offers something ([offers], [offers_total] of [Transport]). A
    call does what reading the offered frames one by one says, over any stream and with
    any failing writes ([call_refines]); a biometric command over a session that carries
    it is that call ([command_over_session]).

    Workflows over any transport. A match always ends the sensor's operation and names
    an enrolled identity of the user ([match_always_cancels],
    [matched_means_enrolled]); an enrollment is complete only when the list that
    its last command asks for holds it ([completed_is_listed], [enrollment_commands]);
    both return once their event source decides ([match_returns], [enrollment_returns]); calibration is loaded from a
    validated record at most once ([calibration_load_exact]); a user is removed only
    when it has no identities ([rebind_guarded]); a policy is written at most four times
    and returned as the sensor's last answer reads it back ([user_policy_enabled],
    [system_policy_enabled], [user_policy_terminates]).

    The Touch Bar service. Whatever the devices and clients do it never panics, and its
    log is a run of the contract: who is let in, one answer per request, hardware touched
    only as asked, frames shown once and given back ([service_keeps_protocol]). Each
    contact of the digitizer lives one life ([contact_lifecycle], [frame_exact]); a
    published record is read back ([overlay_published_read]).

    State machines by refinement. The buffer registry implements a finite map
    ([registry_refines_map]), the client lease a four-phase life cycle
    ([lease_refines_lifecycle]), and the broker a contract over the operation in
    progress ([broker_keeps_contract]), also when fixed requests and standard
    operations are mixed ([operations_share_one_token]).

    Authority. An operation starts only for a peer that may start it
    ([standard_start_iff], [broker_keeps_contract]); the answer [OKAY] means an
    uncancelled match ([okay_means_uncancelled_match], [finish_okay_iff]); a client
    accepts nothing but those four bytes ([only_okay_authenticates]).

    The composed service. In every history of calls from any thread, the worker,
    the broker and the event the worker polls agree on the one operation in
    progress, and no lease, token or event is given out twice
    ([service_keeps_one_worker]); an acknowledged cancellation, root's [CANCEL]
    included, is final ([cancellation_sticks]); a worker that closed its registration
    can no longer be cancelled by anyone ([close_commits]); a poisoned service grants nothing
    ([poisoned_is_final]); a deadline cancels once ([deadline_cancels_once]); and
    feedback to the user changes no answer ([feedback_is_cosmetic]). Any number of
    connections on it keep theirs ([connections_keep_contract]), and the keybag relay is
    stopped only if it was seen active and handed back after every operation
    ([relay_handed_back], [process_run_returns]).

    Durable state, with any calls failing and the machine stopping anywhere, in a
    store whose directory is durable itself (predicate [settled]; the code does not
    synchronize the parent of a directory it creates, so that the first commit or save
    can be lost after it was reported: [first_commit_may_be_lost],
    [first_save_may_be_lost]). A commit leaves the old pair or the new one
    ([commit_atomic]); an export is durable before it
    is selected ([backup_durable_order]); an identity is removed only when the manifest
    without it is durable ([labeled_deletion_exact]); an enrollment changes the selected
    generation last ([standard_enrollment_exact]); recovery selects only what was
    validated ([recovery_selects_validated]); a full restore loads the master first
    ([restore_master_first]); an authentication is guarded by policy and credential
    ([authentication_guarded]); the catalogue is a map that survives a restart
    ([catalog_refines_map], [catalog_survives_restart], [metadata_decode_iff]). A record
    saved by the coprocessor is fetched or the save is reported as failed
    ([saved_is_fetched], [xart_save_atomic]), over connections served to its own endpoint
    only, which end with the stream and answer each request once
    ([xart_connection_served], [lifecycle_keeps_contract]).

    ** Method

    Definitions are executable and keep the source's names; a method [m] of a type
    [T] is called [m] in the module of its file, with a prefix where two types of
    one file share a method name. Integers are [Z] with their width's wrap-around,
    overflow and truncation written out. Every [unwrap], [expect], index and
    [unreachable!] of the modelled code that could fail is a [Panic]. Recursion is
    structural where it can be. The property list decoder and the JSON parser recurse
    on the levels left below the source's own depth limit. A loop over input has the
    length of the input as fuel, the loop over a stream the number of read results,
    the loop of a call the number of bytes, the policy retries the number of delays
    plus one; running out of it is a [Panic], which the theorems exclude. The loops
    that wait for events end with the events: their fuel is the caller's, [None] says
    that they still wait, and the liveness theorems give the fuel that is enough; the
    rounds of the Touch Bar service, which never ends, are any number. Traits are type
    classes, and what is not modelled (transports, clocks, devices, the command runner) is
    a class whose every instance is meant. A lock makes each method of the cancellation
    slot atomic, so a concurrent execution of the broker is a sequence of calls; its
    mutable state is owned by one thread in the source.

    ** Not modelled

    Sockets, threads, clocks and devices, other than as the classes above; the [Display]
    and [Debug] texts of errors; the wiping of local buffers; drawing; the drivers and the
    C programs beside the workspace. Of the Rust code: the daemons that wire the modelled
    parts to sockets and threads ([auth_daemon.rs], [live_operation.rs] and the other
    [live_] files), the owner record and the catalogue file ([enrollment_owner.rs],
    [standard_catalog_store.rs]), the SEP lease of an enrollment, the platform layer, and
    the import tool. *)

From stdpp Require Export base numbers list option gmap.
From Stdlib Require Export ZArith Lia ZifyBool.

Declare Scope t1_scope.
Delimit Scope t1_scope with t1.
Open Scope t1_scope.
Open Scope Z_scope.

(** ** Results: Rust's [Result], with panics as a third outcome *)

Inductive res (E A : Type) : Type :=
| Ok (a : A)
| Err (e : E)
| Panic.
Arguments Ok {E A} a.
Arguments Err {E A} e.
Arguments Panic {E A}.

(** [let! x := e in k] is the [?] operator: the error (or the panic) of [e]
    leaves the enclosing function. *)
Notation "'let!' x := e 'in' k" :=
  (match e with Ok x => k | Err err => Err err | Panic => Panic end)
  (at level 10, x pattern, e at level 100, k at level 200,
   format "'[v' 'let!'  x  :=  e  'in' '/' k ']'") : t1_scope.

Definition map_err {E F A} (f : E -> F) (r : res E A) : res F A :=
  match r with Ok a => Ok a | Err e => Err (f e) | Panic => Panic end.

(** [Option::ok_or]. *)
Definition ok_or {E A} (o : option A) (e : E) : res E A :=
  match o with Some a => Ok a | None => Err e end.

(** The value did not panic. *)
Definition no_panic {E A} (r : res E A) : Prop := r <> Panic.

Definition is_ok {E A} (r : res E A) : bool :=
  match r with Ok _ => true | _ => false end.

(** ** Machine integers, as [Z] with their width *)

Definition umax (w : Z) : Z := 2 ^ w - 1.

(** [x] is a value of the [w]-bit unsigned type. *)
Definition is_u (w x : Z) : Prop := 0 <= x < 2 ^ w.

Definition is_ub (w x : Z) : bool := (0 <=? x) && (x <? 2 ^ w).

(** [a.checked_add(b)] and [a.checked_mul(b)] at width [w]. *)
Definition checked_add (w a b : Z) : option Z :=
  if a + b <=? umax w then Some (a + b) else None.
Definition checked_mul (w a b : Z) : option Z :=
  if a * b <=? umax w then Some (a * b) else None.

(** [a.saturating_sub(b)]. *)
Definition saturating_sub (a b : Z) : Z := Z.max 0 (a - b).

(** [uN::try_from(v)]. *)
Definition try_from_u (w v : Z) : option Z := if is_ub w v then Some v else None.

(** ** [std::time::Duration], in nanoseconds *)

Definition Duration : Type := Z.
Definition NANOS_PER_SEC : Z := 1000000000.
Definition duration_max : Duration := umax 64 * NANOS_PER_SEC + 999999999.
Definition from_secs (s : Z) : Duration := s * NANOS_PER_SEC.
Definition from_millis (ms : Z) : Duration := ms * 1000000.
Definition duration_checked_add (a b : Duration) : option Duration :=
  if a + b <=? duration_max then Some (a + b) else None.

(** ** Bytes and slices *)

Abbreviation bytes := (list Z).

Abbreviation len l := (Z.of_nat (length l)).

Definition bytes_ok (l : bytes) : Prop := Forall (is_u 8) l.

(** [l[i]]: out of range is a panic. *)
Definition byte_at {E} (l : bytes) (i : nat) : res E Z :=
  match l !! i with Some b => Ok b | None => Panic end.

(** [&l[a..b]]: a reversed or out-of-range slice is a panic. *)
Definition slice {E A} (l : list A) (a b : nat) : res E (list A) :=
  if (a <=? b)%nat && (b <=? length l)%nat
  then Ok (take (b - a)%nat (drop a l)) else Panic.

(** [&l[a..]]. *)
Definition slice_from {E A} (l : list A) (a : nat) : res E (list A) :=
  if (a <=? length l)%nat then Ok (drop a l) else Panic.

(** ** Little- and big-endian integers *)

Fixpoint le_val (l : bytes) : Z :=
  match l with
  | [] => 0
  | b :: t => b + 256 * le_val t
  end.

Fixpoint le_bytes (n : nat) (v : Z) : bytes :=
  match n with
  | O => []
  | S n' => v mod 256 :: le_bytes n' (v / 256)
  end.

Definition be_val (l : bytes) : Z := le_val (rev l).
Definition be_bytes (n : nat) (v : Z) : bytes := rev (le_bytes n v).

(** [uN::from_le_bytes(l[off..off + n])]. *)
Definition read_le {E} (l : bytes) (off n : nat) : res E Z :=
  let! s := slice l off (off + n) in Ok (le_val s).

(** [uN::from_be_bytes(l[off..off + n])]. *)
Definition read_be {E} (l : bytes) (off n : nat) : res E Z :=
  let! s := slice l off (off + n) in Ok (be_val s).

Arguments le_val : simpl never.
Arguments le_bytes : simpl never.
Arguments be_val : simpl never.
Arguments be_bytes : simpl never.
Arguments read_le : simpl never.
Arguments read_be : simpl never.
Arguments slice : simpl never.
Arguments slice_from : simpl never.
Arguments byte_at : simpl never.
Arguments Z.mul : simpl never.
Arguments Z.add : simpl never.
Arguments Z.pow : simpl never.
Arguments Z.testbit : simpl never.
Arguments Z.land : simpl never.
Arguments Z.lor : simpl never.
Arguments Z.shiftl : simpl never.
Arguments Z.modulo : simpl never.
Arguments Z.div : simpl never.

(** ** Automation *)

Create HintDb t1.
Create Rewrite HintDb t1len.

(** Splits the successful run of a function into the runs of its calls. *)
Ltac step_ok H :=
  match type of H with
  | context [match ?e with Ok _ => _ | Err _ => _ | Panic => _ end] =>
      let Hx := fresh "Hr" in
      destruct e eqn:Hx; try discriminate H
  | context [if ?b then _ else _] =>
      let Hx := fresh "Hb" in
      destruct b eqn:Hx; try discriminate H
  end.

Ltac inv_ok H := cbn beta iota zeta in H; repeat (step_ok H; cbn beta iota zeta in H); simplify_eq.

(** Boolean tests of the code as propositions. *)
Ltac b2p :=
  repeat match goal with
  | H : (_ && _)%bool = true |- _ => apply andb_true_iff in H; destruct H
  | H : (_ && _)%bool = false |- _ => apply andb_false_iff in H
  | H : (_ || _)%bool = false |- _ => apply orb_false_iff in H; destruct H
  | H : (_ || _)%bool = true |- _ => apply orb_true_iff in H
  | H : negb _ = true |- _ => apply negb_true_iff in H
  | H : negb _ = false |- _ => apply negb_false_iff in H
  | H : (_ =? _)%Z = true |- _ => apply Z.eqb_eq in H
  | H : (_ =? _)%Z = false |- _ => apply Z.eqb_neq in H
  | H : (_ <? _)%Z = true |- _ => apply Z.ltb_lt in H
  | H : (_ <? _)%Z = false |- _ => apply Z.ltb_ge in H
  | H : (_ <=? _)%Z = true |- _ => apply Z.leb_le in H
  | H : (_ <=? _)%Z = false |- _ => apply Z.leb_gt in H
  | H : (_ =? _)%nat = true |- _ => apply Nat.eqb_eq in H
  | H : (_ =? _)%nat = false |- _ => apply Nat.eqb_neq in H
  | H : (_ <? _)%nat = true |- _ => apply Nat.ltb_lt in H
  | H : (_ <? _)%nat = false |- _ => apply Nat.ltb_ge in H
  | H : (_ <=? _)%nat = true |- _ => apply Nat.leb_le in H
  | H : (_ <=? _)%nat = false |- _ => apply Nat.leb_gt in H
  | H : bool_decide _ = true |- _ => apply bool_decide_eq_true in H
  | H : bool_decide _ = false |- _ => apply bool_decide_eq_false in H
  end.

(** ** Lemmas on lengths *)

Lemma le_bytes_S n v : le_bytes (S n) v = v mod 256 :: le_bytes n (v / 256).
Proof. reflexivity. Qed.

Lemma le_val_cons b l : le_val (b :: l) = b + 256 * le_val l.
Proof. reflexivity. Qed.

Lemma le_val_2 a b : le_val [a; b] = a + 256 * b.
Proof. rewrite !le_val_cons. change (le_val []) with 0. lia. Qed.

Lemma length_le_bytes n v : length (le_bytes n v) = n.
Proof.
  revert v. induction n as [|n IH]; intros v; [done|].
  rewrite le_bytes_S. cbn. by rewrite IH.
Qed.

Lemma length_be_bytes n v : length (be_bytes n v) = n.
Proof. unfold be_bytes. by rewrite length_rev, length_le_bytes. Qed.

#[export] Hint Rewrite length_le_bytes length_be_bytes @length_app @length_cons
  @length_nil @length_rev @length_take @length_drop @length_replicate @length_fmap : t1len.

Ltac lens := autorewrite with t1len in *; lia.

(** ** Lemmas on endianness *)

Lemma le_bytes_ok n v : bytes_ok (le_bytes n v).
Proof.
  revert v. induction n as [|n IH]; intros v; [constructor|].
  rewrite le_bytes_S. constructor; [|apply IH].
  unfold is_u. change (2 ^ 8) with 256. apply Z.mod_pos_bound. lia.
Qed.

Lemma be_bytes_ok n v : bytes_ok (be_bytes n v).
Proof. unfold bytes_ok, be_bytes. apply Forall_rev, le_bytes_ok. Qed.

Lemma pow256_succ (n : nat) : 2 ^ (8 * Z.of_nat (S n)) = 256 * 2 ^ (8 * Z.of_nat n).
Proof.
  replace (8 * Z.of_nat (S n)) with (8 + 8 * Z.of_nat n) by lia.
  by rewrite Z.pow_add_r by lia.
Qed.

Lemma pow256_pos (n : nat) : 0 < 2 ^ (8 * Z.of_nat n).
Proof. apply Z.pow_pos_nonneg; lia. Qed.

Lemma le_val_bytes n v : is_u (8 * Z.of_nat n) v -> le_val (le_bytes n v) = v.
Proof.
  revert v. induction n as [|n IH]; intros v Hv; unfold is_u in *.
  - change (2 ^ (8 * Z.of_nat 0)) with 1 in Hv. change (le_val _) with 0. lia.
  - rewrite pow256_succ in Hv. rewrite le_bytes_S, le_val_cons, IH.
    + pose proof (Z.div_mod v 256). lia.
    + split; [apply Z.div_pos; lia | apply Z.div_lt_upper_bound; lia].
Qed.

Lemma le_val_bound l : bytes_ok l -> is_u (8 * len l) (le_val l).
Proof.
  induction 1 as [|b l Hb Hl IH]; unfold is_u in *.
  - change (2 ^ (8 * Z.of_nat _)) with 1. change (le_val []) with 0. lia.
  - rewrite length_cons, pow256_succ, le_val_cons. change (2 ^ 8) with 256 in Hb. lia.
Qed.

Lemma le_bytes_val l : bytes_ok l -> le_bytes (length l) (le_val l) = l.
Proof.
  induction 1 as [|b l Hb Hl IH]; [done|]. unfold is_u in Hb. change (2 ^ 8) with 256 in Hb.
  rewrite length_cons, le_bytes_S, le_val_cons. f_equal.
  - rewrite Z.mul_comm, Z_mod_plus_full. apply Z.mod_small. lia.
  - rewrite Z.mul_comm, Z.div_add by lia. rewrite (Z.div_small b) by lia. apply IH.
Qed.

Lemma le_bytes_val_n n l : length l = n -> bytes_ok l -> le_bytes n (le_val l) = l.
Proof. intros <-. apply le_bytes_val. Qed.

Lemma be_val_bytes n v : is_u (8 * Z.of_nat n) v -> be_val (be_bytes n v) = v.
Proof. intros. unfold be_val, be_bytes. rewrite rev_involutive. by apply le_val_bytes. Qed.

Lemma be_val_bound l : bytes_ok l -> is_u (8 * len l) (be_val l).
Proof.
  intros Hl. unfold be_val. rewrite <- length_rev. apply le_val_bound. by apply Forall_rev.
Qed.

Lemma be_bytes_val l : bytes_ok l -> be_bytes (length l) (be_val l) = l.
Proof.
  intros Hl. unfold be_val, be_bytes. rewrite <- length_rev, le_bytes_val.
  - apply rev_involutive.
  - by apply Forall_rev.
Qed.

Lemma be_bytes_val_n n l : length l = n -> bytes_ok l -> be_bytes n (be_val l) = l.
Proof. intros <-. apply be_bytes_val. Qed.

#[export] Hint Resolve le_bytes_ok be_bytes_ok : t1.

(** ** Lemmas on slices *)

Section Slices.
Context {E A : Type}.
Implicit Types l m r : list A.

Lemma slice_ok l (a b : nat) :
  (a <= b <= length l)%nat -> slice (E := E) l a b = Ok (take (b - a)%nat (drop a l)).
Proof.
  intros [H1 H2]. unfold slice.
  by rewrite (proj2 (Nat.leb_le a b) H1), (proj2 (Nat.leb_le b (length l)) H2).
Qed.

Lemma slice_inv l (a b : nat) s :
  slice (E := E) l a b = Ok s ->
  (a <= b <= length l)%nat /\ s = take (b - a)%nat (drop a l).
Proof.
  unfold slice. intros H. destruct (_ && _) eqn:Hc; [|done].
  simplify_eq H. intros <-. b2p. done.
Qed.

Lemma slice_not_err l (a b : nat) e : slice (E := E) l a b <> Err e.
Proof. unfold slice. by destruct (_ && _). Qed.

Lemma slice_from_ok l (a : nat) :
  (a <= length l)%nat -> slice_from (E := E) l a = Ok (drop a l).
Proof. intros H. unfold slice_from. by rewrite (proj2 (Nat.leb_le a (length l)) H). Qed.

Lemma slice_from_app l r (a : nat) :
  length l = a -> slice_from (E := E) (l ++ r) a = Ok r.
Proof. intros <-. rewrite slice_from_ok by lens. by rewrite drop_app_length. Qed.

Lemma slice_from_skip l r (a : nat) :
  (length l <= a)%nat -> slice_from (E := E) (l ++ r) a = slice_from r (a - length l)%nat.
Proof.
  intros H. unfold slice_from. rewrite drop_app_ge by done.
  by replace (a - length l <=? length r)%nat with (a <=? length (l ++ r))%nat by lens.
Qed.

Lemma slice_from_cons x r (a : nat) : slice_from (E := E) (x :: r) (S a) = slice_from r a.
Proof. reflexivity. Qed.

Lemma slice_from_0 l : slice_from (E := E) l 0 = Ok l.
Proof. reflexivity. Qed.

Lemma slice_cons x r (a b : nat) : slice (E := E) (x :: r) (S a) (S b) = slice r a b.
Proof. reflexivity. Qed.

Lemma slice_app_here l r (n : nat) :
  length l = n -> slice (E := E) (l ++ r) 0 n = Ok l.
Proof.
  intros <-. rewrite slice_ok by lens. rewrite Nat.sub_0_r, drop_0.
  by rewrite take_app_length.
Qed.

Lemma slice_all l (n : nat) : length l = n -> slice (E := E) l 0 n = Ok l.
Proof. intros H. rewrite <- (app_nil_r l) at 1. by apply slice_app_here. Qed.

Lemma slice_app_mid l m r (a b : nat) :
  length l = a -> (a + length m)%nat = b -> slice (E := E) (l ++ m ++ r) a b = Ok m.
Proof.
  intros <- <-. rewrite slice_ok by lens. rewrite drop_app_length.
  replace (_ - _)%nat with (length m) by lia. by rewrite take_app_length.
Qed.

Lemma slice_app_skip l r (a b : nat) :
  (length l <= a)%nat ->
  slice (E := E) (l ++ r) a b =
    if (a <=? b)%nat then slice r (a - length l)%nat (b - length l)%nat else Panic.
Proof.
  intros Hl. unfold slice. destruct (a <=? b)%nat eqn:Hab; [|done]. b2p. cbn.
  replace (a - length l <=? b - length l)%nat with true by (symmetry; apply Nat.leb_le; lia).
  replace (b - length l <=? length r)%nat with (b <=? length (l ++ r))%nat.
  2: { rewrite length_app. apply eq_true_iff_eq. rewrite !Nat.leb_le. lia. }
  cbn. destruct (b <=? length (l ++ r))%nat; [|done].
  rewrite drop_app_ge by done. f_equal. f_equal. lia.
Qed.
End Slices.

(** ** Reading fields of a packet *)

Lemma bytes_ok_take n l : bytes_ok l -> bytes_ok (take n l).
Proof. apply Forall_take. Qed.

Lemma bytes_ok_drop n l : bytes_ok l -> bytes_ok (drop n l).
Proof. apply Forall_drop. Qed.

Lemma bytes_ok_app l1 l2 : bytes_ok (l1 ++ l2) <-> bytes_ok l1 /\ bytes_ok l2.
Proof. apply Forall_app. Qed.

Lemma bytes_ok_cons b l : bytes_ok (b :: l) <-> is_u 8 b /\ bytes_ok l.
Proof. apply Forall_cons. Qed.

Lemma bytes_ok_nil : bytes_ok [].
Proof. constructor. Qed.

#[export] Hint Resolve bytes_ok_take bytes_ok_drop bytes_ok_nil : t1.

Section Fields.
Context {E : Type}.
Implicit Types l r : bytes.

Lemma read_le_ok l (off n : nat) :
  (off + n <= length l)%nat -> read_le (E := E) l off n = Ok (le_val (take n (drop off l))).
Proof.
  intros H. unfold read_le. rewrite slice_ok by lia.
  by replace (off + n - off)%nat with n by lia.
Qed.

Lemma read_le_inv l (off n : nat) v :
  read_le (E := E) l off n = Ok v ->
  (off + n <= length l)%nat /\ v = le_val (take n (drop off l)).
Proof.
  unfold read_le. intros H. destruct (slice _ _ _) eqn:Hs; try discriminate.
  apply slice_inv in Hs as [? ->]. simplify_eq H. intros <-.
  split; [lia|]. by replace (off + n - off)%nat with n by lia.
Qed.

Lemma read_le_here r (n : nat) v :
  is_u (8 * Z.of_nat n) v -> read_le (E := E) (le_bytes n v ++ r) 0 n = Ok v.
Proof.
  intros Hv. unfold read_le. rewrite slice_app_here by apply length_le_bytes.
  by rewrite le_val_bytes.
Qed.

Lemma read_le_last (n : nat) v :
  is_u (8 * Z.of_nat n) v -> read_le (E := E) (le_bytes n v) 0 n = Ok v.
Proof. intros Hv. rewrite <- (app_nil_r (le_bytes n v)). by apply read_le_here. Qed.

Lemma read_le_skip l r (off n : nat) :
  (length l <= off)%nat ->
  read_le (E := E) (l ++ r) off n = read_le r (off - length l)%nat n.
Proof.
  intros Hl. unfold read_le. rewrite slice_app_skip by done.
  rewrite (proj2 (Nat.leb_le off (off + n))) by lia.
  by replace (off + n - length l)%nat with (off - length l + n)%nat by lia.
Qed.

Lemma read_le_cons x r (off n : nat) :
  read_le (E := E) (x :: r) (S off) n = read_le r off n.
Proof.
  change (x :: r) with ([x] ++ r). rewrite read_le_skip by (cbn; lia).
  cbn. by rewrite Nat.sub_0_r.
Qed.

Lemma read_le_bound l (off n : nat) v :
  bytes_ok l -> read_le (E := E) l off n = Ok v -> is_u (8 * Z.of_nat n) v.
Proof.
  intros Hl [Hn ->]%read_le_inv.
  replace (Z.of_nat n) with (len (take n (drop off l))) by lens.
  apply le_val_bound. auto with t1.
Qed.

Lemma drop_read_le l (off n : nat) v :
  bytes_ok l -> read_le (E := E) l off n = Ok v ->
  drop off l = le_bytes n v ++ drop (off + n) l.
Proof.
  intros Hl [Hn ->]%read_le_inv.
  rewrite le_bytes_val_n; [|lens|auto with t1].
  rewrite <- (take_drop n (drop off l)) at 1. by rewrite drop_drop.
Qed.

Lemma byte_at_inv l i b : byte_at (E := E) l i = Ok b -> l !! i = Some b.
Proof. unfold byte_at. by destruct (l !! i) eqn:?; intros; simplify_eq. Qed.

Lemma byte_at_0 b r : byte_at (E := E) (b :: r) 0 = Ok b.
Proof. reflexivity. Qed.

Lemma byte_at_cons b r i : byte_at (E := E) (b :: r) (S i) = byte_at r i.
Proof. reflexivity. Qed.

Lemma byte_at_skip l r i :
  (length l <= i)%nat -> byte_at (E := E) (l ++ r) i = byte_at r (i - length l)%nat.
Proof. intros H. unfold byte_at. by rewrite lookup_app_r. Qed.

Lemma byte_at_ok l i : (i < length l)%nat -> exists b, byte_at (E := E) l i = Ok b.
Proof.
  intros [b Hb]%lookup_lt_is_Some_2. exists b. unfold byte_at. by rewrite Hb.
Qed.

Lemma byte_at_bound l i b : bytes_ok l -> byte_at (E := E) l i = Ok b -> is_u 8 b.
Proof. intros Hl Hb%byte_at_inv. by eapply Forall_lookup_1 in Hl. Qed.

Lemma drop_byte_at l i b : byte_at (E := E) l i = Ok b -> drop i l = b :: drop (S i) l.
Proof. intros Hb%byte_at_inv. by apply drop_S. Qed.

Lemma drop_slice l (a b : nat) s :
  slice (E := E) l a b = Ok s -> drop a l = s ++ drop b l.
Proof.
  intros [Hab ->]%slice_inv. rewrite <- (take_drop (b - a)%nat (drop a l)) at 1.
  rewrite drop_drop. f_equal. f_equal. lia.
Qed.

Lemma drop_slice_from l (a : nat) s : slice_from (E := E) l a = Ok s -> drop a l = s.
Proof. unfold slice_from. destruct (_ <=? _)%nat; intros; by simplify_eq. Qed.

Lemma slice_length {A} (l : list A) (a b : nat) s :
  slice (E := E) l a b = Ok s -> length s = (b - a)%nat.
Proof. intros [? ->]%slice_inv. lens. Qed.

Lemma slice_bytes_ok l (a b : nat) s :
  bytes_ok l -> slice (E := E) l a b = Ok s -> bytes_ok s.
Proof. intros Hl [? ->]%slice_inv. auto with t1. Qed.

Lemma slice_from_bytes_ok l (a : nat) s :
  bytes_ok l -> slice_from (E := E) l a = Ok s -> bytes_ok s.
Proof. intros Hl <-%drop_slice_from. auto with t1. Qed.

(** A guarded read is never a panic. *)
Lemma read_le_no_panic l (off n : nat) :
  (off + n <= length l)%nat -> exists v, read_le (E := E) l off n = Ok v.
Proof. intros H. eexists. by apply read_le_ok. Qed.

Lemma slice_no_panic {A} (l : list A) (a b : nat) :
  (a <= b <= length l)%nat -> exists s, slice (E := E) l a b = Ok s.
Proof. intros H. eexists. by apply slice_ok. Qed.

Lemma slice_from_no_panic {A} (l : list A) (a : nat) :
  (a <= length l)%nat -> exists s, slice_from (E := E) l a = Ok s.
Proof. intros H. eexists. by apply slice_from_ok. Qed.
End Fields.

(** Takes the branch of the next test that [lia] can decide. *)
Ltac decide_if :=
  match goal with
  | |- context [if ?b then _ else _] =>
      first [ replace b with true by (symmetry; lens)
            | replace b with false by (symmetry; lens) ]; cbn beta iota
  end.

(** [is_u w x] for a literal width and a value [lia] can bound. *)
Ltac u_range :=
  unfold is_u, umax in *;
  repeat match goal with
  | |- context [2 ^ ?w] => let v := eval vm_compute in (2 ^ w) in change (2 ^ w) with v
  | H : context [2 ^ ?w] |- _ => let v := eval vm_compute in (2 ^ w) in change (2 ^ w) with v in H
  end; try done; lia.

(** Evaluates the field reads of a packet written as a concatenation. *)
Ltac fields :=
  repeat first
    [ rewrite read_le_here by u_range
    | rewrite read_le_last by u_range
    | rewrite read_le_cons
    | rewrite byte_at_0
    | rewrite byte_at_cons
    | rewrite slice_from_0
    | rewrite slice_from_cons
    | rewrite slice_cons
    | rewrite read_le_skip by (rewrite length_le_bytes; lia);
      rewrite length_le_bytes; cbn [Nat.sub]
    | rewrite byte_at_skip by (rewrite length_le_bytes; lia);
      rewrite length_le_bytes; cbn [Nat.sub]
    | rewrite slice_from_skip by (rewrite length_le_bytes; lia);
      rewrite length_le_bytes; cbn [Nat.sub]
    | rewrite slice_app_skip by (rewrite length_le_bytes; lia);
      rewrite length_le_bytes; cbn [Nat.sub Nat.leb] ].

(** Rebuilds a packet [l] from the fields that were read from it: rewrites
    [drop 0 l] with the successive reads. *)
Ltac unread l :=
  rewrite <- (drop_0 l);
  repeat match goal with
  | H : read_le l ?o ?n = Ok ?v |- context [drop ?o l] =>
      rewrite (drop_read_le l o n v ltac:(assumption) H); cbn [Nat.add]
  | H : byte_at l ?o = Ok ?v |- context [drop ?o l] =>
      rewrite (drop_byte_at l o v H)
  | H : slice l ?o ?n = Ok ?v |- context [drop ?o l] =>
      rewrite (drop_slice l o n v H)
  | H : slice_from l ?o = Ok ?v |- context [drop ?o l] =>
      rewrite (drop_slice_from l o v H)
  end;
  try rewrite (drop_ge l) by lens; rewrite ?app_nil_r.

(** The ranges of the fields that were read. *)
Ltac read_bounds :=
  repeat match goal with
  | Hl : bytes_ok ?l, H : read_le ?l ?o ?n = Ok ?v |- _ =>
      lazymatch goal with
      | _ : is_u (8 * Z.of_nat n) v |- _ => fail
      | _ => pose proof (read_le_bound l o n v Hl H)
      end
  | Hl : bytes_ok ?l, H : byte_at ?l ?o = Ok ?v |- _ =>
      lazymatch goal with
      | _ : is_u 8 v |- _ => fail
      | _ => pose proof (byte_at_bound l o v Hl H)
      end
  end.

Lemma no_panic_Ok {E A} (a : A) : no_panic (E := E) (Ok a).
Proof. discriminate. Qed.

Lemma no_panic_Err {E A} (e : E) : no_panic (A := A) (Err e).
Proof. discriminate. Qed.

Lemma no_panic_bind {E A B} (r : res E A) (k : A -> res E B) :
  no_panic r -> (forall a, r = Ok a -> no_panic (k a)) ->
  no_panic (let! a := r in k a).
Proof. unfold no_panic. intros Hr Hk. destruct r; [by apply Hk|done|done]. Qed.

Lemma no_panic_map_err {E F A} (f : E -> F) (r : res E A) :
  no_panic r -> no_panic (map_err f r).
Proof. unfold no_panic. by destruct r. Qed.

Lemma no_panic_ok_or {E A} (o : option A) (e : E) : no_panic (ok_or o e).
Proof. unfold no_panic. by destruct o. Qed.

#[export] Hint Resolve @no_panic_Ok @no_panic_Err @no_panic_map_err @no_panic_ok_or : t1.

(** Goes on in a goal [no_panic (...)] past the next test or call. Reads whose
    bounds [lia] knows are replaced by their value; other calls are resolved by
    the lemmas of the hint database. *)
Ltac no_panic_step :=
  lazymatch goal with
  | |- no_panic (Ok _) => apply no_panic_Ok
  | |- no_panic (Err _) => apply no_panic_Err
  | |- no_panic (match @byte_at ?E ?l ?i with Ok _ => _ | Err _ => _ | Panic => _ end) =>
      let H := fresh "H" in
      destruct (@byte_at_ok E l i ltac:(lens)) as [? H]; rewrite H
  | |- no_panic (match @read_le ?E ?l ?i ?n with Ok _ => _ | Err _ => _ | Panic => _ end) =>
      let H := fresh "H" in
      destruct (@read_le_no_panic E l i n ltac:(lens)) as [? H]; rewrite H
  | |- no_panic (match @slice_from ?E ?A ?l ?i with Ok _ => _ | Err _ => _ | Panic => _ end) =>
      rewrite (@slice_from_ok E A l i) by lens
  | |- no_panic (match @slice ?E ?A ?l ?i ?n with Ok _ => _ | Err _ => _ | Panic => _ end) =>
      rewrite (@slice_ok E A l i n) by lens
  | |- no_panic (match (if ?b then _ else _) with Ok _ => _ | Err _ => _ | Panic => _ end) =>
      destruct b eqn:?; b2p
  | |- no_panic (match ?r with Ok _ => _ | Err _ => _ | Panic => _ end) =>
      apply no_panic_bind; [solve [auto with t1] | intros ? ?]
  | |- no_panic (if ?b then _ else _) => destruct b eqn:?; b2p
  | |- no_panic (match ?o with Some _ => _ | None => _ end) => destruct o eqn:?
  | |- no_panic (match ?o with (_, _) => _ end) => destruct o eqn:?
  | |- no_panic _ => solve [auto with t1]
  end.

Lemma map_err_Ok {E F A} (f : E -> F) (r : res E A) a : map_err f r = Ok a <-> r = Ok a.
Proof. split; [|by intros ->]. destruct r; cbn; intros; congruence. Qed.

Lemma checked_add_Some w a b c : checked_add w a b = Some c <-> c = a + b /\ a + b <= umax w.
Proof.
  unfold checked_add. destruct (_ <=? _) eqn:H; b2p; split; intros; simplify_eq; try done.
  - destruct_and!. by simplify_eq.
  - lia.
Qed.

Lemma is_u_weaken (w w' x : Z) : 0 <= w <= w' -> is_u w x -> is_u w' x.
Proof.
  unfold is_u. intros Hw Hx. pose proof (Z.pow_le_mono_r 2 w w' ltac:(lia) ltac:(lia)). lia.
Qed.

Lemma is_ub_spec w x : is_ub w x = true <-> is_u w x.
Proof. unfold is_ub, is_u. rewrite andb_true_iff, Z.leb_le, Z.ltb_lt. done. Qed.

Lemma try_from_u_Some w v c : try_from_u w v = Some c <-> is_u w v /\ c = v.
Proof.
  unfold try_from_u. rewrite <- is_ub_spec. destruct (is_ub w v); split.
  - intros; by simplify_eq.
  - by intros [_ ->].
  - done.
  - by intros [].
Qed.

Lemma checked_mul_Some w a b c : checked_mul w a b = Some c <-> c = a * b /\ a * b <= umax w.
Proof.
  unfold checked_mul. destruct (_ <=? _) eqn:H; b2p; split; intros; simplify_eq; try done.
  - by destruct_and!; subst.
  - lia.
Qed.

Lemma ok_or_Some {E A} (o : option A) (e : E) a : ok_or o e = Ok a <-> o = Some a.
Proof. destruct o; cbn; split; intros; congruence. Qed.

Lemma try_from_ok {E} w v (e : E) : is_u w v -> ok_or (try_from_u w v) e = Ok v.
Proof. intros Hv. apply ok_or_Some, try_from_u_Some. done. Qed.

Lemma checked_mul_ok {E} w a b (e : E) :
  a * b <= umax w -> ok_or (checked_mul w a b) e = Ok (a * b).
Proof. intros Hv. apply ok_or_Some, checked_mul_Some. done. Qed.

Lemma checked_add_ok {E} w a b (e : E) :
  a + b <= umax w -> ok_or (checked_add w a b) e = Ok (a + b).
Proof. intros Hv. apply ok_or_Some, checked_add_Some. done. Qed.

(** ** Sets of small numbers kept as bits of a word *)

(** Bit [i] of [m] is set exactly for the members [i] of [ids]. *)
Definition mask_is (m : Z) (ids : list Z) : Prop :=
  forall i, 0 <= i -> Z.testbit m i = bool_decide (i ∈ ids).

Lemma mask_is_nil : mask_is 0 [].
Proof. intros i Hi. by rewrite Z.bits_0. Qed.

Lemma testbit_shiftl_1 i j : 0 <= i -> 0 <= j -> Z.testbit (Z.shiftl 1 i) j = (i =? j).
Proof.
  intros Hi Hj. rewrite Z.shiftl_spec by done. destruct (i =? j) eqn:H; b2p.
  - subst. by rewrite Z.sub_diag.
  - destruct (decide (j < i)).
    + by rewrite Z.testbit_neg_r by lia.
    + rewrite Z.bits_above_log2; [done|lia|]. cbn. lia.
Qed.

Lemma mask_test m ids i :
  mask_is m ids -> 0 <= i ->
  (Z.land m (Z.shiftl 1 i) =? 0) = negb (bool_decide (i ∈ ids)).
Proof.
  intros Hm Hi. rewrite <- (Hm i Hi). destruct (Z.testbit m i) eqn:Hb; cbn.
  - apply Z.eqb_neq. intros H0. apply (f_equal (fun z => Z.testbit z i)) in H0.
    rewrite Z.land_spec, Hb, testbit_shiftl_1, Z.eqb_refl, Z.bits_0 in H0 by done. done.
  - apply Z.eqb_eq. apply Z.bits_inj'. intros j Hj.
    rewrite Z.land_spec, testbit_shiftl_1, Z.bits_0 by done.
    destruct (i =? j) eqn:Hij; b2p; subst; [by rewrite Hb|apply andb_false_r].
Qed.

Lemma mask_add m ids i :
  mask_is m ids -> 0 <= i -> mask_is (Z.lor m (Z.shiftl 1 i)) (i :: ids).
Proof.
  intros Hm Hi j Hj. rewrite Z.lor_spec, Hm, testbit_shiftl_1 by done.
  destruct (i =? j) eqn:H; b2p; subst.
  - rewrite orb_true_r. symmetry. apply bool_decide_eq_true_2. constructor.
  - rewrite orb_false_r. apply bool_decide_ext. rewrite elem_of_cons. intuition congruence.
Qed.

Lemma existsb_false {A} (f : A -> bool) l : existsb f l = false <-> Forall (fun x => f x = false) l.
Proof. induction l; cbn; [by repeat constructor|]. rewrite orb_false_iff, Forall_cons. tauto. Qed.

(** None of the selected elements clashes with [a] or with [ids] exactly when
    [a]'s key is not among theirs and none clashes with [ids]. *)
Lemma fresh_split {A} (key : A -> Z) (P : A -> Prop) `{forall x, Decision (P x)} a ids l :
  Forall (fun c => P c -> key c ∉ key a :: ids) l <->
  (key a ∉ key <$> filter P l) /\ Forall (fun c => P c -> key c ∉ ids) l.
Proof.
  induction l as [|c l IH].
  { split; [intros _|intros _; constructor]. split; [apply not_elem_of_nil|constructor]. }
  rewrite !Forall_cons, IH. rewrite filter_cons, not_elem_of_cons. destruct (decide (P c)).
  - rewrite fmap_cons, not_elem_of_cons. intuition congruence.
  - tauto.
Qed.

(** ** Fixed-size chunks *)

Fixpoint chunks_k {A} (k n : nat) (l : list A) : list (list A) :=
  match k with
  | O => []
  | S k' => take n l :: chunks_k k' n (drop n l)
  end.

(** [l.as_chunks::<n>().0]: the complete chunks of [l]. *)
Definition chunks {A} (n : nat) (l : list A) : list (list A) :=
  chunks_k (length l / n) n l.

Arguments chunks : simpl never.

Lemma chunks_k_app {A} (n : nat) (ls : list (list A)) :
  Forall (fun c => length c = n) ls -> chunks_k (length ls) n (concat ls) = ls.
Proof.
  induction 1 as [|c ls Hc _ IH]; [done|]. cbn. by rewrite take_app_length', drop_app_length', IH.
Qed.

Lemma length_concat_fixed {A} (n : nat) (ls : list (list A)) :
  Forall (fun c => length c = n) ls -> length (concat ls) = (length ls * n)%nat.
Proof. induction 1 as [|c ls Hc _ IH]; [done|]. cbn. rewrite length_app, IH. lia. Qed.

(** Chunking undoes concatenation. *)
Lemma chunks_concat {A} (n : nat) (ls : list (list A)) :
  (0 < n)%nat -> Forall (fun c => length c = n) ls -> chunks n (concat ls) = ls.
Proof.
  intros Hn Hls. unfold chunks. rewrite (length_concat_fixed n), Nat.div_mul by (done || lia).
  by apply chunks_k_app.
Qed.

Lemma length_chunks_k {A} (k n : nat) (l : list A) : length (chunks_k k n l) = k.
Proof. revert l. induction k as [|k IH]; intros l; cbn; [done|]. by rewrite IH. Qed.

Lemma chunks_k_lengths {A} (k n : nat) (l : list A) :
  (k * n <= length l)%nat -> Forall (fun c => length c = n) (chunks_k k n l).
Proof.
  revert l. induction k as [|k IH]; intros l Hl; cbn; constructor.
  - rewrite length_take. lia.
  - apply IH. rewrite length_drop. lia.
Qed.

Lemma chunks_lengths {A} (n : nat) (l : list A) :
  (0 < n)%nat -> Forall (fun c => length c = n) (chunks n l).
Proof. intros Hn. apply chunks_k_lengths. pose proof (Nat.Div0.mul_div_le (length l) n). lia. Qed.

Lemma concat_chunks_k {A} (k n : nat) (l : list A) :
  length l = (k * n)%nat -> concat (chunks_k k n l) = l.
Proof.
  revert l. induction k as [|k IH]; intros l Hl; cbn.
  - by destruct l.
  - rewrite IH by (rewrite length_drop; lia). apply take_drop.
Qed.

Lemma chunks_bytes_ok k n l : bytes_ok l -> Forall bytes_ok (chunks_k k n l).
Proof.
  revert l. induction k as [|k IH]; intros l Hl; cbn; constructor; [auto with t1|].
  apply IH. auto with t1.
Qed.

Lemma concat_bytes_ok {A} (enc : A -> bytes) (xs : list A) :
  (forall x, x ∈ xs -> bytes_ok (enc x)) -> bytes_ok (concat (enc <$> xs)).
Proof.
  induction xs as [|x xs IH]; intros H; cbn; [auto with t1|].
  apply bytes_ok_app. split; [apply H; by left|]. apply IH. intros y Hy. apply H. by right.
Qed.

(** A decidable fact on bytes holds if it holds for the 256 of them. *)
Lemma byte_forall (P : Z -> bool) :
  forallb P (Z.of_nat <$> seq 0 256) = true -> forall b, is_u 8 b -> P b = true.
Proof.
  intros HP b Hb. rewrite forallb_forall in HP. apply HP.
  apply list_elem_of_In, list_elem_of_fmap. exists (Z.to_nat b). unfold is_u in Hb.
  change (2 ^ 8) with 256 in Hb. rewrite elem_of_seq. lia.
Qed.

(** ** Loops and indexing *)

(** A [for] loop whose body may fail. *)
Fixpoint foldM {E A S} (f : S -> A -> res E S) (s : S) (l : list A) : res E S :=
  match l with
  | [] => Ok s
  | x :: l => let! s := f s x in foldM f s l
  end.

(** [v[i]], which panics out of range. *)
Definition index {E A} (l : list A) (i : Z) : res E A :=
  match l !! Z.to_nat i with Some x => Ok x | None => Panic end.

Lemma foldM_app {E A S} (f : S -> A -> res E S) s l1 l2 :
  foldM f s (l1 ++ l2) = let! s := foldM f s l1 in foldM f s l2.
Proof. revert s. induction l1 as [|x l1 IH]; intros s; [done|]. cbn. destruct (f s x); [apply IH|done..]. Qed.

(** An invariant of the state is kept, and a loop whose body keeps it and does
    not panic does not panic. *)
Lemma foldM_inv {E A S} (P : S -> Prop) (f : S -> A -> res E S) l s s' :
  (forall s x s', x ∈ l -> P s -> f s x = Ok s' -> P s') -> P s -> foldM f s l = Ok s' -> P s'.
Proof.
  revert s. induction l as [|x l IH]; cbn; intros s Hf Hs H; [by simplify_eq|].
  destruct (f s x) as [s1| |] eqn:Hx; [|done..].
  eapply IH; [|eapply Hf; [|exact Hs|exact Hx]; set_solver|exact H]. intros; eapply Hf; eauto; set_solver.
Qed.

Lemma foldM_no_panic {E A S} (P : S -> Prop) (f : S -> A -> res E S) l s :
  (forall s x, x ∈ l -> P s -> no_panic (f s x)) ->
  (forall s x s', x ∈ l -> P s -> f s x = Ok s' -> P s') -> P s -> no_panic (foldM f s l).
Proof.
  revert s. induction l as [|x l IH]; cbn; intros s Hn Hf Hs; [done|].
  pose proof (Hn s x ltac:(set_solver) Hs) as Hx. destruct (f s x) as [s1| |] eqn:Hfx; [|done|done].
  apply IH; [intros; apply Hn; [set_solver|done]|intros; eapply Hf; eauto; set_solver|].
  eapply Hf; eauto; set_solver.
Qed.

Lemma index_Ok {E A} (l : list A) i x : index (E := E) l i = Ok x <-> l !! Z.to_nat i = Some x.
Proof. unfold index. destruct (l !! _); split; intros; simplify_eq; done. Qed.

Lemma index_no_panic {E A} (l : list A) i : 0 <= i < len l -> no_panic (index (E := E) l i).
Proof.
  intros Hi. unfold index. destruct (l !! Z.to_nat i) eqn:H; [done|].
  apply lookup_ge_None in H. lia.
Qed.

(** ** Signed integers *)

(** [u.cast_signed()] at width [w], and [i32::to_le_bytes]. *)
Definition cast_signed (w u : Z) : Z := if u <? 2 ^ (w - 1) then u else u - 2 ^ w.
Definition i32_bytes (v : Z) : bytes := le_bytes 4 (v mod 2 ^ 32).

Lemma cast_signed_mod w v :
  0 < w -> - 2 ^ (w - 1) <= v < 2 ^ (w - 1) -> cast_signed w (v mod 2 ^ w) = v.
Proof.
  intros Hw Hv. unfold cast_signed.
  assert (2 ^ w = 2 * 2 ^ (w - 1)) as Hp by (rewrite <- Z.pow_succ_r by lia; f_equal; lia).
  destruct (decide (0 <= v)) as [H0|H0].
  - rewrite Z.mod_small by lia. by replace (_ <? _) with true by lia.
  - replace (v mod 2 ^ w) with (v + 2 ^ w); [replace (_ <? _) with false by lia; lia|].
    apply (Z.mod_unique_pos _ _ (-1)); lia.
Qed.

(** [l.chunks(n)]: the last chunk may be short. *)
Definition chunks_all {A} (n : nat) (l : list A) : list (list A) :=
  chunks n l ++
  match drop (n * (length l / n))%nat l with [] => [] | rest => [rest] end.

Lemma chunks_all_exact {A} (n : nat) (l : list A) :
  n <> 0%nat -> (length l mod n = 0)%nat -> chunks_all n l = chunks n l.
Proof.
  intros Hn Hm. unfold chunks_all. rewrite drop_ge; [apply app_nil_r|].
  apply Nat.Div0.div_exact in Hm. lia.
Qed.

#[export] Instance is_u_dec w x : Decision (is_u w x).
Proof. unfold is_u. apply _. Defined.

#[export] Instance bytes_ok_dec l : Decision (bytes_ok l).
Proof. unfold bytes_ok. apply _. Defined.
