(* ===== verification/Effects.v ===== *)
(** * Effectful code

    A function that takes [&mut s] and returns a [Result] is a function from
    the state to the result and the new state. [do! x := m in k] is [m?]
    followed by [k]. *)

From S2P Require Import Prelude.

Definition M (S E A : Type) : Type := S -> res E A * S.

Definition ret {S E A} (a : A) : M S E A := fun s => (Ok a, s).

(** The result of a pure function. *)
Definition lift {S E A} (r : res E A) : M S E A := fun s => (r, s).

Definition bind {S E A B} (m : M S E A) (k : A -> M S E B) : M S E B :=
  fun s =>
    match m s with
    | (Ok a, s) => k a s
    | (Err e, s) => (Err e, s)
    | (Panic, s) => (Panic, s)
    end.

Notation "'do!' x := e 'in' k" := (bind e (fun x => k))
  (at level 10, x pattern, e at level 100, k at level 200,
   format "'[v' 'do!'  x  :=  e  'in' '/' k ']'") : t1_scope.

(** [m.map_err(f)]. *)
Definition mapM_err {S E F A} (f : E -> F) (m : M S E A) : M S F A :=
  fun s => let (r, s) := m s in (map_err f r, s).

(** Unfolds one step of a run of effectful code. *)
Lemma bind_Ok {S E A B} (m : M S E A) (k : A -> M S E B) s b s' :
  bind m k s = (Ok b, s') -> exists a s1, m s = (Ok a, s1) /\ k a s1 = (Ok b, s').
Proof. unfold bind. destruct (m s) as [[a| |] s1]; intros H; simplify_eq. eauto. Qed.

Lemma mapM_err_Ok {S E F A} (f : E -> F) (m : M S E A) s a s' :
  mapM_err f m s = (Ok a, s') <-> m s = (Ok a, s').
Proof.
  unfold mapM_err. destruct (m s) as [[x| |] s1]; cbn; split; intros H; by simplify_eq.
Qed.

Lemma lift_Ok {S E A} (r : res E A) (s : S) a s' :
  lift r s = (Ok a, s') <-> r = Ok a /\ s' = s.
Proof. unfold lift. split; [intros H; by simplify_eq|by intros [-> ->]]. Qed.

(** Splits a successful run [H] into the successful runs of its steps. *)
Ltac inv_run H :=
  lazymatch type of H with
  | bind _ _ _ = (Ok _, _) =>
      let a := fresh "a" in let s := fresh "s" in let H1 := fresh "Hm" in
      apply bind_Ok in H; destruct H as (a & s & H1 & H); inv_run H1; inv_run H
  | mapM_err _ _ _ = (Ok _, _) => apply mapM_err_Ok in H; inv_run H
  | lift _ _ = (Ok _, _) => apply lift_Ok in H; destruct H as [H ->]
  | ret _ _ = (Ok _, _) => unfold ret in H; simplify_eq
  | (let (_, _) := ?p in _) _ = (Ok _, _) => destruct p; inv_run H
  | (if ?b then _ else _) _ = (Ok _, _) =>
      let Hb := fresh "Hb" in destruct b eqn:Hb; inv_run H
  | _ => idtac
  end.

(** ** Code that waits

    A function that asks a source of events may still be waiting: [None]. *)

Definition MW (S E A : Type) : Type := S -> option (res E A * S).

Definition now {S E A} (m : M S E A) : MW S E A := fun s => Some (m s).

Definition bindW {S E A B} (m : MW S E A) (k : A -> MW S E B) : MW S E B :=
  fun s =>
    match m s with
    | None => None
    | Some (Ok a, s) => k a s
    | Some (Err e, s) => Some (Err e, s)
    | Some (Panic, s) => Some (Panic, s)
    end.

Notation "'wait!' x := e 'in' k" := (bindW e (fun x => k))
  (at level 10, x pattern, e at level 100, k at level 200,
   format "'[v' 'wait!'  x  :=  e  'in' '/' k ']'") : t1_scope.

Definition mapW_err {S E F A} (f : E -> F) (m : MW S E A) : MW S F A :=
  fun s => match m s with None => None | Some (r, s) => Some (map_err f r, s) end.
