(* ===== verification/Text.v ===== *)
(** * UTF-8 text

    Rust's [str] is a byte string that is valid UTF-8. Strings are modelled by
    their bytes, with the validity test that [std::str::from_utf8] makes. *)

From S2P Require Import Prelude.
From Stdlib Require Strings.String Strings.Ascii.

Module Text.

(** The bytes of a literal. *)
Definition str (s : String.string) : bytes :=
  (fun a => Z.of_nat (Ascii.nat_of_ascii a)) <$> String.list_ascii_of_string s.

(** ** Decimal numbers *)

(** [Display] of an unsigned integer with at most [k] digits. *)
Fixpoint decimal_k (k : nat) (v : Z) : bytes :=
  match k with
  | O => []
  | S k => if v <? 10 then [48 + v] else decimal_k k (v / 10) ++ [48 + v mod 10]
  end.

(** Twenty digits are enough for 64 bits. *)
Definition to_string (v : Z) : bytes := decimal_k 20 v.

Definition in_range (lo hi b : Z) : bool := (lo <=? b) && (b <=? hi).

(** A continuation byte. *)
Definition continuation (b : Z) : bool := in_range 0x80 0xBF b.

(** The well-formed sequences: no overlong form, no surrogate, nothing above
    U+10FFFF. *)
Fixpoint utf8_valid (l : bytes) : bool :=
  match l with
  | [] => true
  | b0 :: l1 =>
      if in_range 0 0x7F b0 then utf8_valid l1
      else match l1 with
      | [] => false
      | b1 :: l2 =>
          if in_range 0xC2 0xDF b0 then continuation b1 && utf8_valid l2
          else match l2 with
          | [] => false
          | b2 :: l3 =>
              if b0 =? 0xE0 then in_range 0xA0 0xBF b1 && continuation b2 && utf8_valid l3
              else if b0 =? 0xED then in_range 0x80 0x9F b1 && continuation b2 && utf8_valid l3
              else if in_range 0xE1 0xEF b0
              then continuation b1 && continuation b2 && utf8_valid l3
              else match l3 with
              | [] => false
              | b3 :: l4 =>
                  if b0 =? 0xF0
                  then in_range 0x90 0xBF b1 && continuation b2 && continuation b3 && utf8_valid l4
                  else if in_range 0xF1 0xF3 b0
                  then continuation b1 && continuation b2 && continuation b3 && utf8_valid l4
                  else if b0 =? 0xF4
                  then in_range 0x80 0x8F b1 && continuation b2 && continuation b3 && utf8_valid l4
                  else false
              end
          end
      end
  end.

(** [std::str::from_utf8]. *)
Definition from_utf8 (l : bytes) : option bytes := if utf8_valid l then Some l else None.

(** [str::len] and [str::as_bytes] are the length of the bytes and the bytes. *)

Lemma from_utf8_Some l s : from_utf8 l = Some s <-> utf8_valid l = true /\ s = l.
Proof. unfold from_utf8. destruct (utf8_valid l); split; intros; naive_solver. Qed.

(** ASCII text is valid. *)
Lemma ascii_valid l : Forall (fun b => 0 <= b <= 127) l -> utf8_valid l = true.
Proof.
  induction 1 as [|b l Hb _ IH]; [done|]. cbn.
  replace (in_range 0 127 b) with true; [done|]. unfold in_range. lia.
Qed.

(** ** Characters, UTF-8 and UTF-16 *)

(** A Unicode scalar value, Rust's [char]. *)
Definition scalar (c : Z) : bool := in_range 0 0xD7FF c || in_range 0xE000 0x10FFFF c.

(** [char::encode_utf8]. *)
Definition utf8_char (c : Z) : bytes :=
  if c <? 0x80 then [c]
  else if c <? 0x800 then [0xC0 + c / 64; 0x80 + c mod 64]
  else if c <? 0x10000 then [0xE0 + c / 4096; 0x80 + c / 64 mod 64; 0x80 + c mod 64]
  else [0xF0 + c / 262144; 0x80 + c / 4096 mod 64; 0x80 + c / 64 mod 64; 0x80 + c mod 64].

(** The bytes of a sequence of characters. *)
Definition utf8_encode (cs : list Z) : bytes := concat (utf8_char <$> cs).

(** [str::chars]; the text is valid. *)
Fixpoint chars (l : bytes) : list Z :=
  match l with
  | [] => []
  | b0 :: l1 =>
      if b0 <? 0x80 then b0 :: chars l1
      else match l1 with
      | [] => []
      | b1 :: l2 =>
          if b0 <? 0xE0 then ((b0 - 0xC0) * 64 + (b1 - 0x80)) :: chars l2
          else match l2 with
          | [] => []
          | b2 :: l3 =>
              if b0 <? 0xF0
              then ((b0 - 0xE0) * 4096 + (b1 - 0x80) * 64 + (b2 - 0x80)) :: chars l3
              else match l3 with
              | [] => []
              | b3 :: l4 =>
                  ((b0 - 0xF0) * 262144 + (b1 - 0x80) * 4096 + (b2 - 0x80) * 64 + (b3 - 0x80))
                    :: chars l4
              end
          end
      end
  end.

(** [char::encode_utf16]. *)
Definition utf16_char (c : Z) : list Z :=
  if c <? 0x10000 then [c]
  else [0xD800 + (c - 0x10000) / 1024; 0xDC00 + (c - 0x10000) mod 1024].

(** [str::encode_utf16]. *)
Definition encode_utf16 (s : bytes) : list Z := concat (utf16_char <$> chars s).

(** [char::decode_utf16], which fails on an unpaired surrogate. *)
Fixpoint decode_utf16 (us : list Z) : option (list Z) :=
  match us with
  | [] => Some []
  | u :: us1 =>
      if negb (in_range 0xD800 0xDFFF u) then cons u <$> decode_utf16 us1
      else if in_range 0xDC00 0xDFFF u then None
      else match us1 with
      | [] => None
      | v :: us2 =>
          if in_range 0xDC00 0xDFFF v
          then cons (0x10000 + (u - 0xD800) * 1024 + (v - 0xDC00)) <$> decode_utf16 us2
          else None
      end
  end.

(** [String::from_utf16]. *)
Definition from_utf16 (us : list Z) : option bytes := utf8_encode <$> decode_utf16 us.

(** [str::is_ascii]. *)
Definition is_ascii (s : bytes) : bool := forallb (fun b => b <? 0x80) s.

#[local] Ltac zc := Z.to_euclidean_division_equations; lia.

(** The text is made of the encodings of its characters. *)
Lemma utf8_ind (P : bytes -> Prop) :
  P [] -> (forall c l, scalar c = true -> utf8_valid l = true -> P l -> P (utf8_char c ++ l)) ->
  forall l, bytes_ok l -> utf8_valid l = true -> P l.
Proof.
  intros H0 HS l. induction l as [l IH] using (induction_ltof1 _ (@length Z)). unfold ltof in IH.
  intros Hok Hv.
  assert (forall c l', scalar c = true -> utf8_valid l' = true -> l = utf8_char c ++ l' -> P l) as Hgo.
  { intros c l' Hc Hl' ->. apply HS; [done|done|]. apply IH; [|by apply bytes_ok_app in Hok as [_ ?]|done].
    rewrite length_app. unfold utf8_char. repeat destruct (_ <? _); cbn; lia. }
  destruct l as [|b0 l1]; [done|]. cbn [utf8_valid] in Hv. unfold continuation, in_range in Hv.
  destruct ((0 <=? b0) && (b0 <=? 127)) eqn:E1.
  { apply (Hgo b0 l1); [unfold scalar, in_range; lia|done|]. unfold utf8_char.
    by replace (b0 <? 128) with true by lia. }
  destruct l1 as [|b1 l2]; [done|].
  destruct ((194 <=? b0) && (b0 <=? 223)) eqn:E2.
  { b2p. apply (Hgo ((b0 - 192) * 64 + (b1 - 128)) l2); [unfold scalar, in_range; lia|done|].
    unfold utf8_char. repeat (destruct (_ <? _) eqn:?; b2p; try lia). cbn. repeat f_equal; zc. }
  destruct l2 as [|b2 l3]; [done|].
  assert (forall lo hi, 224 <= b0 <= 239 -> 128 <= lo -> hi <= 191 -> lo <= b1 <= hi ->
    128 <= b2 <= 191 -> utf8_valid l3 = true ->
    (b0 = 224 -> 160 <= b1) -> (b0 = 237 -> b1 <= 159) -> P (b0 :: b1 :: b2 :: l3)) as H3.
  { intros lo hi ? ? ? ? ? ? ? ?.
    apply (Hgo ((b0 - 224) * 4096 + (b1 - 128) * 64 + (b2 - 128)) l3); [unfold scalar, in_range; lia|done|].
    unfold utf8_char. repeat (destruct (_ <? _) eqn:?; b2p; try lia). cbn. repeat f_equal; zc. }
  destruct (b0 =? 224) eqn:E3; [b2p; apply (H3 160 191); done || lia|].
  destruct (b0 =? 237) eqn:E4; [b2p; apply (H3 128 159); done || lia|].
  destruct ((225 <=? b0) && (b0 <=? 239)) eqn:E5; [b2p; apply (H3 128 191); done || lia|].
  destruct l3 as [|b3 l4]; [done|].
  assert (240 <= b0 <= 244 -> 128 <= b1 <= 191 -> 128 <= b2 <= 191 -> 128 <= b3 <= 191 ->
    utf8_valid l4 = true -> (b0 = 240 -> 144 <= b1) -> (b0 = 244 -> b1 <= 143) ->
    P (b0 :: b1 :: b2 :: b3 :: l4)) as H4.
  { intros. apply (Hgo ((b0 - 240) * 262144 + (b1 - 128) * 4096 + (b2 - 128) * 64 + (b3 - 128)) l4);
      [unfold scalar, in_range; lia|done|].
    unfold utf8_char. repeat (destruct (_ <? _) eqn:?; b2p; try lia). cbn. repeat f_equal; zc. }
  destruct (b0 =? 240) eqn:E6; [b2p; apply H4; done || lia|].
  destruct ((241 <=? b0) && (b0 <=? 243)) eqn:E7; [b2p; apply H4; done || lia|].
  destruct (b0 =? 244) eqn:E8; [b2p; apply H4; done || lia|done].
Qed.

Lemma utf8_char_valid c l : scalar c = true -> utf8_valid (utf8_char c ++ l) = utf8_valid l.
Proof.
  unfold scalar, in_range, utf8_char. intros Hc.
  destruct (c <? 128) eqn:E1; [|destruct (c <? 2048) eqn:E2; [|destruct (c <? 65536) eqn:E3]]; b2p;
    cbn [app utf8_valid]; unfold continuation, in_range;
    repeat (match goal with |- context [if ?b then _ else _] => destruct b eqn:?; b2p end);
    try reflexivity; try (exfalso; zc);
    repeat match goal with |- context [?x <=? ?y] => replace (x <=? y) with true by (symmetry; zc) end;
    reflexivity.
Qed.

Lemma utf8_char_bytes c : scalar c = true -> bytes_ok (utf8_char c).
Proof.
  unfold scalar, in_range, utf8_char. intros Hc.
  destruct (c <? 128) eqn:E1; [|destruct (c <? 2048) eqn:E2; [|destruct (c <? 65536) eqn:E3]]; b2p;
    repeat apply Forall_cons_2; try apply Forall_nil_2; unfold is_u; change (2 ^ 8) with 256; zc.
Qed.

Lemma chars_utf8_char c l : scalar c = true -> chars (utf8_char c ++ l) = c :: chars l.
Proof.
  unfold scalar, in_range, utf8_char. intros Hc.
  destruct (c <? 128) eqn:E1; [|destruct (c <? 2048) eqn:E2; [|destruct (c <? 65536) eqn:E3]];
    cbn [app chars]; rewrite ?E1; b2p;
    repeat (match goal with |- context [if ?b then _ else _] => destruct b eqn:?; b2p end);
    try (exfalso; zc); try reflexivity; (f_equal; zc).
Qed.

Lemma utf8_encode_chars s : bytes_ok s -> utf8_valid s = true -> utf8_encode (chars s) = s.
Proof.
  revert s. apply utf8_ind; [done|]. intros c l Hc _ IH. rewrite chars_utf8_char by done.
  change (utf8_char c ++ utf8_encode (chars l) = utf8_char c ++ l). by rewrite IH.
Qed.

Lemma chars_scalar s : bytes_ok s -> utf8_valid s = true -> Forall (fun c => scalar c = true) (chars s).
Proof. revert s. apply utf8_ind; [constructor|]. intros c l Hc _ IH. rewrite chars_utf8_char by done. by constructor. Qed.

Lemma utf8_encode_valid cs :
  Forall (fun c => scalar c = true) cs -> utf8_valid (utf8_encode cs) = true /\ bytes_ok (utf8_encode cs).
Proof.
  induction 1 as [|c cs Hc _ [IH1 IH2]]; [split; [done|apply bytes_ok_nil]|]. change (utf8_encode (c :: cs)) with (utf8_char c ++ utf8_encode cs).
  rewrite utf8_char_valid by done. split; [done|]. apply bytes_ok_app. split; [by apply utf8_char_bytes|done].
Qed.

Lemma utf16_char_units c : scalar c = true -> Forall (is_u 16) (utf16_char c).
Proof.
  unfold scalar, in_range, utf16_char. intros Hc. destruct (c <? 65536) eqn:E; b2p;
    repeat apply Forall_cons_2; try apply Forall_nil_2; unfold is_u; change (2 ^ 16) with 65536; zc.
Qed.

Lemma decode_utf16_char c us :
  scalar c = true -> decode_utf16 (utf16_char c ++ us) = cons c <$> decode_utf16 us.
Proof.
  unfold scalar, in_range, utf16_char. intros Hc. destruct (c <? 65536) eqn:E; b2p; cbn [app decode_utf16];
    unfold in_range.
  - by replace (negb ((55296 <=? c) && (c <=? 57343))) with true by lia.
  - repeat (match goal with |- context [if ?b then _ else _] => destruct b eqn:?; b2p end);
      try (exfalso; zc). replace (65536 + _ * 1024 + _) with c by zc. done.
Qed.

Lemma decode_utf16_scalar us cs :
  Forall (is_u 16) us -> decode_utf16 us = Some cs -> Forall (fun c => scalar c = true) cs.
Proof.
  revert cs. induction us as [us IH] using (induction_ltof1 _ (@length Z)). unfold ltof in IH.
  intros cs Hus H. destruct us as [|u us1]; cbn [decode_utf16] in H; [by simplify_eq|].
  apply Forall_cons in Hus as [Hu Hus]. unfold is_u in Hu. change (2 ^ 16) with 65536 in Hu.
  unfold in_range in H. destruct (negb _) eqn:E1.
  { destruct (decode_utf16 us1) as [cs1|] eqn:Hd; [|done]. cbn in H. simplify_eq.
    constructor; [unfold scalar, in_range; lia|]. apply (IH us1); [cbn; lia|done|done]. }
  destruct (_ && _) eqn:E2 in H; [done|]. destruct us1 as [|v us2]; [done|].
  apply Forall_cons in Hus as [Hv Hus]. destruct (_ && _) eqn:E3 in H; [|done].
  destruct (decode_utf16 us2) as [cs1|] eqn:Hd; [|done]. cbn in H. simplify_eq.
  constructor; [unfold scalar, in_range; lia|]. apply (IH us2); [cbn; lia|done|done].
Qed.

Lemma encode_utf16_units s : bytes_ok s -> utf8_valid s = true -> Forall (is_u 16) (encode_utf16 s).
Proof.
  intros Hok Hv. unfold encode_utf16. pose proof (chars_scalar s Hok Hv) as Hc.
  induction Hc as [|c cs Hc _ IH]; [constructor|]. cbn. apply Forall_app. split; [by apply utf16_char_units|done].
Qed.

Lemma decode_encode_utf16 s : bytes_ok s -> utf8_valid s = true -> decode_utf16 (encode_utf16 s) = Some (chars s).
Proof.
  intros Hok Hv. unfold encode_utf16. pose proof (chars_scalar s Hok Hv) as Hc.
  induction Hc as [|c cs Hc _ IH]; [done|].
  change (decode_utf16 (utf16_char c ++ concat (utf16_char <$> cs)) = Some (c :: cs)).
  rewrite decode_utf16_char by done. by rewrite IH.
Qed.

Lemma from_utf16_encode s : bytes_ok s -> utf8_valid s = true -> from_utf16 (encode_utf16 s) = Some s.
Proof.
  intros Hok Hv. unfold from_utf16. rewrite decode_encode_utf16 by done. cbn. by rewrite utf8_encode_chars.
Qed.

Lemma from_utf16_valid us s :
  Forall (is_u 16) us -> from_utf16 us = Some s -> utf8_valid s = true /\ bytes_ok s.
Proof.
  unfold from_utf16. intros Hus H. destruct (decode_utf16 us) as [cs|] eqn:Hd; [|done]. cbn in H. simplify_eq.
  apply utf8_encode_valid. by eapply decode_utf16_scalar.
Qed.

(** A text has no more UTF-16 units than UTF-8 bytes. *)
Lemma length_encode_utf16 s :
  bytes_ok s -> utf8_valid s = true -> (length (encode_utf16 s) <= length s)%nat.
Proof.
  revert s. apply utf8_ind; [done|]. intros c l Hc _ IH. unfold encode_utf16 in *.
  rewrite chars_utf8_char by done. cbn [fmap list_fmap concat]. rewrite !length_app.
  enough (length (utf16_char c) <= length (utf8_char c))%nat by (cbn in *; lia).
  unfold utf16_char, utf8_char. repeat (destruct (_ <? _) eqn:?; b2p; cbn; try lia).
Qed.

End Text.
