(* ===== verification/Framing.v ===== *)
(** * BridgeXPC wire frames ([crates/t1-bridge/src/framing.rs])

    A frame is a 16-byte little-endian header (magic, version, message type,
    64-bit body length) followed by an opaque body. The module models the header
    and the frame codecs and shows that they are inverse to each other, that a
    stream of frames is cut at exactly one place, and that no input panics. *)

From S2P Require Import Prelude.

Module Framing.

Definition BRIDGEXPC_MAGIC : Z := 0xb892.
Definition BRIDGEXPC_VERSION : Z := 1.
Definition FRAME_HELLO : Z := 1.
Definition FRAME_BINARY_PLIST : Z := 2.
Definition FRAME_HEADER_LEN : nat := 16.
Definition MAX_FRAME_BODY_LEN : Z := 16 * 1024 * 1024.

Inductive FrameError : Type :=
| IncompleteHeader (available : Z)
| InvalidMagic (actual : Z)
| UnsupportedVersion (actual : Z)
| BodyTooLarge (declared maximum : Z)
| IncompleteBody (declared available : Z)
| TrailingBytes (count : Z).

Record FrameHeader : Type := mkFrameHeader {
  fh_message_type : Z;
  fh_body_len : Z;
}.

Record Frame : Type := mkFrame {
  message_type : Z;
  body : bytes;
}.

Definition validate_body_len (body_len : Z) : res FrameError unit :=
  if MAX_FRAME_BODY_LEN <? body_len
  then Err (BodyTooLarge body_len MAX_FRAME_BODY_LEN)
  else Ok tt.

(** [FrameHeader::new]. *)
Definition header_new (message_type body_len : Z) : res FrameError FrameHeader :=
  let! _ := validate_body_len body_len in
  Ok (mkFrameHeader message_type body_len).

(** [FrameHeader::decode_exact]. *)
Definition header_decode_exact (bs : bytes) : res FrameError FrameHeader :=
  if len bs <? Z.of_nat FRAME_HEADER_LEN
  then Err (IncompleteHeader (len bs))
  else if Z.of_nat FRAME_HEADER_LEN <? len bs
  then Err (TrailingBytes (len bs - Z.of_nat FRAME_HEADER_LEN))
  else
    let! magic := read_le bs 0 2 in
    if negb (magic =? BRIDGEXPC_MAGIC) then Err (InvalidMagic magic)
    else
      let! version := read_le bs 2 2 in
      if negb (version =? BRIDGEXPC_VERSION) then Err (UnsupportedVersion version)
      else
        let! message_type := read_le bs 4 4 in
        let! declared_body_len := read_le bs 8 8 in
        let! _ := validate_body_len declared_body_len in
        let! body_len := ok_or (try_from_u 64 declared_body_len)
                               (BodyTooLarge declared_body_len MAX_FRAME_BODY_LEN) in
        Ok (mkFrameHeader message_type body_len).

(** [FrameHeader::encode]. *)
Definition header_encode (h : FrameHeader) : bytes :=
  le_bytes 2 BRIDGEXPC_MAGIC ++ le_bytes 2 BRIDGEXPC_VERSION ++
  le_bytes 4 (fh_message_type h) ++ le_bytes 8 (fh_body_len h).

(** [Frame::new]. *)
Definition frame_new (message_type : Z) (body : bytes) : res FrameError Frame :=
  let! _ := header_new message_type (len body) in
  Ok (mkFrame message_type body).

(** [Frame::decode_prefix]. *)
Definition decode_prefix (bs : bytes) : res FrameError (Frame * bytes) :=
  if len bs <? Z.of_nat FRAME_HEADER_LEN
  then Err (IncompleteHeader (len bs))
  else
    let! head := slice bs 0 FRAME_HEADER_LEN in
    let! header := header_decode_exact head in
    let available := len bs - Z.of_nat FRAME_HEADER_LEN in
    if available <? fh_body_len header
    then Err (IncompleteBody (fh_body_len header) available)
    else
      let body_end := (FRAME_HEADER_LEN + Z.to_nat (fh_body_len header))%nat in
      let! b := slice bs FRAME_HEADER_LEN body_end in
      let! remainder := slice_from bs body_end in
      Ok (mkFrame (fh_message_type header) b, remainder).

(** [Frame::decode_exact]. *)
Definition decode_exact (bs : bytes) : res FrameError Frame :=
  let! (frame, remainder) := decode_prefix bs in
  if negb (len remainder =? 0) then Err (TrailingBytes (len remainder)) else Ok frame.

(** [Frame::encode]. *)
Definition encode (f : Frame) : res FrameError bytes :=
  let! header := header_new (message_type f) (len (body f)) in
  Ok (header_encode header ++ body f).

(** The value fits its Rust type. *)
Definition frame_wf (f : Frame) : Prop := is_u 32 (message_type f) /\ bytes_ok (body f).

(** ** Headers *)

Lemma validate_body_len_Ok n u :
  validate_body_len n = Ok u <-> n <= MAX_FRAME_BODY_LEN.
Proof.
  unfold validate_body_len. destruct u.
  destruct (_ <? _) eqn:H; b2p; split; intros; try done; lia.
Qed.

Lemma length_header_encode h : length (header_encode h) = 16%nat.
Proof. unfold header_encode. lens. Qed.

#[local] Hint Rewrite length_header_encode : t1len.

Definition header_wf (h : FrameHeader) : Prop :=
  is_u 32 (fh_message_type h) /\ 0 <= fh_body_len h <= MAX_FRAME_BODY_LEN.

Lemma header_decode_encode h : header_wf h -> header_decode_exact (header_encode h) = Ok h.
Proof.
  destruct h as [mt bl]. intros [Hmt Hbl]; cbn [fh_message_type fh_body_len] in *.
  unfold MAX_FRAME_BODY_LEN in *. unfold header_decode_exact.
  rewrite length_header_encode. cbn [FRAME_HEADER_LEN]. rewrite Z.ltb_irrefl. 
  unfold header_encode. cbn [fh_message_type fh_body_len].
  fields. cbn. fields. cbn. fields.
  rewrite (proj2 (validate_body_len_Ok bl tt)) by (unfold MAX_FRAME_BODY_LEN; lia).
  unfold try_from_u. rewrite (proj2 (is_ub_spec 64 bl)) by u_range. done.
Qed.

Lemma header_encode_decode bs h :
  bytes_ok bs -> header_decode_exact bs = Ok h -> bs = header_encode h /\ header_wf h.
Proof.
  intros Hbs H. unfold header_decode_exact in H. unfold FRAME_HEADER_LEN in *.
  inv_ok H. b2p. read_bounds. unfold try_from_u in *.
  destruct (is_ub 64 _) eqn:Hub; simplify_eq/=. apply validate_body_len_Ok in Hr3.
  split; [|split; cbn; u_range].
  unfold header_encode; cbn. by unread bs.
Qed.

Lemma header_no_panic bs : no_panic (header_decode_exact bs).
Proof.
  unfold header_decode_exact, FRAME_HEADER_LEN, validate_body_len.
  repeat no_panic_step.
Qed.

(** ** Frames *)

Lemma frame_encode_Ok f bs :
  encode f = Ok bs <->
  len (body f) <= MAX_FRAME_BODY_LEN /\
  bs = header_encode (mkFrameHeader (message_type f) (len (body f))) ++ body f.
Proof.
  unfold encode, header_new, validate_body_len.
  destruct (_ <? _) eqn:H; b2p; split; intros; destruct_and?; simplify_eq; auto; lia.
Qed.

Lemma decode_prefix_exact bs f rest :
  bytes_ok bs ->
  decode_prefix bs = Ok (f, rest) <->
  frame_wf f /\ exists pre, encode f = Ok pre /\ bs = pre ++ rest.
Proof.
  intros Hbs. split.
  - intros H. unfold decode_prefix in H. inv_ok H. b2p.
    apply header_encode_decode in Hr0 as [-> [Hw1 Hw2]]; [|by eapply slice_bytes_ok].
    pose proof (slice_length _ _ _ _ Hr1) as Hl.
    assert (len a1 = fh_body_len a0) as Hlen by (unfold FRAME_HEADER_LEN in *; lia).
    split; [split; [done | by eapply slice_bytes_ok]|].
    eexists. rewrite frame_encode_Ok; cbn [message_type body]. rewrite Hlen.
    split; [split; [lia|done]|]. destruct a0. rewrite <- app_assoc. by unread bs.
  - intros [[Hmt Hbody] (pre & [Hlen ->]%frame_encode_Ok & ->)].
    set (h := mkFrameHeader (message_type f) (len (body f))).
    assert (header_wf h) as Hh by (split; cbn; [done|lia]).
    unfold decode_prefix. rewrite <- app_assoc.
    rewrite slice_app_here by apply length_header_encode.
    rewrite header_decode_encode by done. cbn [h fh_body_len fh_message_type].
    rewrite Nat2Z.id. unfold FRAME_HEADER_LEN in *. do 2 decide_if.
    rewrite slice_app_mid by lens.
    rewrite app_assoc, slice_from_app by lens. by destruct f.
Qed.

(** Decoding is exact: a byte string starts with a frame [f] followed by
    [rest] iff it is the encoding of [f] followed by [rest]. Hence the encoding
    of a frame decodes to that frame, whatever follows it on the stream, and a
    frame has one encoding only. *)
Theorem decode_prefix_iff bs f rest :
  bytes_ok bs ->
  decode_prefix bs = Ok (f, rest) <->
  frame_wf f /\ exists pre, encode f = Ok pre /\ bs = pre ++ rest.
Proof. apply decode_prefix_exact. Qed.

Lemma decode_prefix_iff_witness :
  bytes_ok [0x92; 0xb8; 1; 0; 2; 0; 0; 0; 1; 0; 0; 0; 0; 0; 0; 0; 77; 5] /\
  (decode_prefix [0x92; 0xb8; 1; 0; 2; 0; 0; 0; 1; 0; 0; 0; 0; 0; 0; 0; 77; 5]
     = Ok (mkFrame 2 [77], [5]) <->
   frame_wf (mkFrame 2 [77]) /\
   exists pre, encode (mkFrame 2 [77]) = Ok pre /\
     [0x92; 0xb8; 1; 0; 2; 0; 0; 0; 1; 0; 0; 0; 0; 0; 0; 0; 77; 5] = pre ++ [5]).
Proof.
  assert (bytes_ok [0x92; 0xb8; 1; 0; 2; 0; 0; 0; 1; 0; 0; 0; 0; 0; 0; 0; 77; 5]) as H
    by (repeat constructor; done).
  split; [exact H|].
  exact (decode_prefix_iff _ (mkFrame 2 [77]) [5] H).
Defined.

(** ** Truncated streams *)

Lemma decode_prefix_no_panic bs : no_panic (decode_prefix bs).
Proof.
  unfold decode_prefix. pose proof header_no_panic. unfold FRAME_HEADER_LEN in *.
  repeat no_panic_step.
Qed.

(** Decoding arbitrary bytes never panics: every slice and index of the
    decoder is inside the input, so hostile input can only yield an error value. *)
Theorem decode_exact_no_panic bs : no_panic (decode_exact bs).
Proof.
  unfold decode_exact. apply no_panic_bind; [apply decode_prefix_no_panic|].
  intros [f rest] _. repeat no_panic_step.
Qed.

(** A strict prefix of an encoded frame is never taken for a frame: the
    decoder reports what is missing, the header or the declared body, with the
    number of bytes it has. *)
Theorem truncated_frame_incomplete f bs p :
  frame_wf f -> encode f = Ok bs -> p `prefix_of` bs -> p <> bs ->
  decode_prefix p =
    Err (if len p <? 16 then IncompleteHeader (len p)
         else IncompleteBody (len (body f)) (len p - 16)).
Proof.
  intros [Hmt Hbody] [Hlen ->]%frame_encode_Ok [k Hk] Hne.
  set (h := mkFrameHeader (message_type f) (len (body f))) in *.
  unfold decode_prefix, FRAME_HEADER_LEN. change (Z.of_nat 16) with 16.
  destruct (len p <? 16) eqn:Hp; [done|]. b2p.
  assert (k <> []) as Hk0 by (intros ->; apply Hne; by rewrite Hk, app_nil_r).
  assert (slice (E := FrameError) p 0 16 = Ok (header_encode h)) as ->.
  { rewrite slice_ok by lia. rewrite drop_0. cbn [Nat.sub]. f_equal.
    rewrite <- (take_app_le p k) by lia. rewrite <- Hk.
    by rewrite <- (length_header_encode h), take_app_length. }
  rewrite header_decode_encode by (split; cbn; [done|lia]).
  cbn [h fh_body_len fh_message_type].
  destruct k as [|x k]; [done|].
  apply (f_equal length) in Hk. decide_if. done.
Qed.

Lemma truncated_frame_incomplete_witness :
  decode_prefix [0x92; 0xb8; 1; 0; 2; 0; 0; 0; 2; 0; 0; 0; 0; 0; 0; 0; 77]
  = Err (IncompleteBody 2 1).
Proof.
  apply (truncated_frame_incomplete (mkFrame 2 [77; 78])
    [0x92; 0xb8; 1; 0; 2; 0; 0; 0; 2; 0; 0; 0; 0; 0; 0; 0; 77; 78]).
  - split; [done|]. repeat constructor; done.
  - reflexivity.
  - exists [78]. reflexivity.
  - discriminate.
Defined.

End Framing.
