(* ===== verification/Plist.v ===== *)
(** * Binary property lists ([crates/t1-bridge/src/bplist.rs])

    The bounded codec for the [bplist00] subset that BridgeXPC messages use: a
    header, the objects, the table of their offsets and a trailer. A decoder
    must survive any input: the objects refer to each other by index, so that a
    hostile document may hold cycles, share objects, nest without end or point
    outside itself. The depth of the source's recursive functions is bounded by
    [MAX_DEPTH], and their depth argument is the fuel of the definitions here. A
    [BTreeMap] is its list of entries in the order of the keys. *)

From stdpp Require Import sorting.
From S2P Require Import Prelude Text.

#[local] Set Warnings "-register-all".

Module Plist.

Definition HEADER : bytes := [98; 112; 108; 105; 115; 116; 48; 48].
Definition TRAILER_SIZE : Z := 32.
Definition MAX_PLIST_SIZE : Z := 16 * 1024 * 1024.
Definition MAX_OBJECTS : Z := 262144.
Definition MAX_REFERENCES : Z := 1048576.
Definition MAX_DEPTH : nat := 64.
Definition MAX_DECODED_NODES : Z := 1048576.
Definition MAX_VALUE_BYTES : Z := MAX_PLIST_SIZE.

Module Value.
Inductive t : Type :=
| Null
| Boolean (b : bool)
| Integer (i : Z)
| Data (d : bytes)
| String (s : bytes)
| Array (vs : list t)
| Dictionary (kvs : list (bytes * t)).
End Value.

Inductive Error : Type :=
| InputTooLarge | OutputTooLarge | InvalidHeader | InvalidTrailer | LimitExceeded | Malformed
| Unsupported | IntegerOutOfRange.

Module ObjectKind.
Inductive t : Type := Null | Boolean | Integer | Data | String | Array | Dictionary.
#[global] Instance eq_dec : EqDecision t.
Proof. solve_decision. Defined.
End ObjectKind.

Record ScannedObject : Type := mkScanned {
  kind : ObjectKind.t;
  children : list Z;
  dictionary_key_count : Z;
}.

(** ** Reading *)

(** [read_byte]: the byte and the cursor after it. *)
Definition read_byte (input : bytes) (cursor end_ : Z) : res Error (Z * Z) :=
  match input !! Z.to_nat cursor with
  | Some byte => if cursor <? end_ then Ok (byte, cursor + 1) else Err Malformed
  | None => Err Malformed
  end.

(** [take]. *)
Definition take_bytes (input : bytes) (cursor end_ length : Z) : res Error (bytes * Z) :=
  let! next := ok_or (checked_add 64 cursor length) LimitExceeded in
  if end_ <? next then Err Malformed
  else if (cursor <=? next) && (next <=? len input)
  then Ok (take (Z.to_nat (next - cursor)) (drop (Z.to_nat cursor) input), next)
  else Err Malformed.

(** [read_be_u64]. *)
Definition read_be_u64 (bs : bytes) : res Error Z :=
  if bool_decide (bs = []) || (8 <? len bs) then Err Malformed
  else Ok (fold_left (fun value byte => Z.lor (Z.shiftl value 8 mod 2 ^ 64) byte) bs 0).

(** [usize_from_u64], with a 64-bit [usize]. *)
Definition usize_from_u64 (value : Z) : res Error Z := ok_or (try_from_u 64 value) LimitExceeded.

Definition integer_width (low : Z) : res Error Z :=
  if (0 <=? low) && (low <=? 4) then Ok (Z.shiftl 1 low) else Err Unsupported.

(** The signed reading of a [w]-bit pattern. *)
Definition signed (w v : Z) : Z := if v <? 2 ^ (w - 1) then v else v - 2 ^ w.

Definition I64_MIN : Z := - 2 ^ 63.

Definition decode_integer (bs : bytes) : res Error Z :=
  match length bs with
  | 1%nat | 2%nat | 4%nat => read_be_u64 bs
  | 8%nat => Ok (signed 64 (be_val bs))
  | 16%nat =>
      let value := signed 128 (be_val bs) in
      if (value <? I64_MIN) || (umax 64 <? value) then Err IntegerOutOfRange else Ok value
  | _ => Err Unsupported
  end.

(** The big-endian 16-bit units of a byte string. *)
Definition utf16_units (bs : bytes) : list Z := be_val <$> chunks 2 bs.

Definition validate_utf16 (bs : bytes) : res Error () :=
  match Text.decode_utf16 (utf16_units bs) with Some _ => Ok () | None => Err Malformed end.

(** [read_length]: the length and the cursor after it. *)
Definition read_length (input : bytes) (cursor end_ low : Z) : res Error (Z * Z) :=
  if low <? 15 then Ok (low, cursor)
  else
    let! (marker, cursor) := read_byte input cursor end_ in
    if negb (Z.land marker 0xf0 =? 0x10) then Err Malformed
    else
      let! width := integer_width (Z.land marker 0x0f) in
      if 8 <? width then Err LimitExceeded
      else
        let! (bs, cursor) := take_bytes input cursor end_ width in
        let! value := read_be_u64 bs in
        let! length := usize_from_u64 value in
        if Z.max MAX_REFERENCES MAX_PLIST_SIZE <? length then Err LimitExceeded
        else Ok (length, cursor).

(** [read_references]. *)
Definition read_references (input : bytes) (cursor end_ count reference_size object_count : Z)
    : res Error (list Z * Z) :=
  if MAX_REFERENCES <? count then Err LimitExceeded
  else
    let! byte_count := ok_or (checked_mul 64 count reference_size) LimitExceeded in
    let! (bs, cursor) := take_bytes input cursor end_ byte_count in
    let! references :=
      foldM (fun references raw =>
        let! value := read_be_u64 raw in
        let! reference := usize_from_u64 value in
        if object_count <=? reference then Err Malformed else Ok (references ++ [reference]))
        [] (chunks (Z.to_nat reference_size) bs) in
    Ok (references, cursor).

(** [scan_object]. *)
Definition scan_object (input : bytes) (start end_ reference_size object_count : Z)
    : res Error ScannedObject :=
  let! (marker, cursor) := read_byte input start end_ in
  let high := Z.land marker 0xf0 in
  let low := Z.land marker 0x0f in
  let! (object, cursor) :=
    if marker =? 0 then Ok (mkScanned ObjectKind.Null [] 0, cursor)
    else if (marker =? 8) || (marker =? 9) then Ok (mkScanned ObjectKind.Boolean [] 0, cursor)
    else if high =? 0x10 then
      let! width := integer_width low in
      let! (bs, cursor) := take_bytes input cursor end_ width in
      let! _ := decode_integer bs in
      Ok (mkScanned ObjectKind.Integer [] 0, cursor)
    else if high =? 0x40 then
      let! (length, cursor) := read_length input cursor end_ low in
      let! (_, cursor) := take_bytes input cursor end_ length in
      Ok (mkScanned ObjectKind.Data [] 0, cursor)
    else if high =? 0x50 then
      let! (length, cursor) := read_length input cursor end_ low in
      let! (bs, cursor) := take_bytes input cursor end_ length in
      if negb (Text.is_ascii bs) then Err Malformed
      else Ok (mkScanned ObjectKind.String [] 0, cursor)
    else if high =? 0x60 then
      let! (units, cursor) := read_length input cursor end_ low in
      let! length := ok_or (checked_mul 64 units 2) LimitExceeded in
      let! (bs, cursor) := take_bytes input cursor end_ length in
      let! _ := validate_utf16 bs in
      Ok (mkScanned ObjectKind.String [] 0, cursor)
    else if high =? 0xa0 then
      let! (count, cursor) := read_length input cursor end_ low in
      let! (children, cursor) :=
        read_references input cursor end_ count reference_size object_count in
      Ok (mkScanned ObjectKind.Array children 0, cursor)
    else if high =? 0xd0 then
      let! (count, cursor) := read_length input cursor end_ low in
      let! reference_count := ok_or (checked_mul 64 count 2) LimitExceeded in
      let! (children, cursor) :=
        read_references input cursor end_ reference_count reference_size object_count in
      Ok (mkScanned ObjectKind.Dictionary children count, cursor)
    else Err Unsupported in
  if negb (cursor =? end_) then Err Malformed else Ok object.

(** [validate_acyclic]; the fuel is [MAX_DEPTH + 1 - depth]. *)
Fixpoint validate_acyclic (fuel : nat) (i : Z) (objects : list ScannedObject) (colors : list Z)
    : res Error (list Z) :=
  match fuel with
  | O => Err LimitExceeded
  | S fuel =>
      let! color := index colors i in
      if color =? 1 then Err Malformed
      else if color =? 2 then Ok colors
      else
        let colors := <[Z.to_nat i := 1]> colors in
        let! object := index objects i in
        let! colors :=
          foldM (fun colors child => validate_acyclic fuel child objects colors) colors
            (children object) in
        Ok (<[Z.to_nat i := 2]> colors)
  end.

Record DecodeBudget : Type := mkBudget { nodes : Z; value_bytes : Z }.

(** [charge_bytes]. *)
Definition charge_bytes (b : DecodeBudget) (amount : Z) : res Error DecodeBudget :=
  let! v := ok_or (checked_add 64 (value_bytes b) amount) LimitExceeded in
  if MAX_VALUE_BYTES <? v then Err LimitExceeded else Ok (mkBudget (nodes b) v).

(** The order of [String], which is that of the bytes. *)
Fixpoint bytes_compare (a b : bytes) : comparison :=
  match a, b with
  | [], [] => Eq
  | [], _ => Lt
  | _, [] => Gt
  | x :: a, y :: b => match Z.compare x y with Eq => bytes_compare a b | c => c end
  end.

(** [BTreeMap::insert]: the map, and whether the key was there. *)
Fixpoint btree_insert {V} (k : bytes) (v : V) (m : list (bytes * V)) : list (bytes * V) * bool :=
  match m with
  | [] => ([(k, v)], false)
  | (k', v') :: m' =>
      match bytes_compare k k' with
      | Lt => ((k, v) :: m, false)
      | Eq => ((k', v) :: m', true)
      | Gt => let (m', b) := btree_insert k v m' in ((k', v') :: m', b)
      end
  end.

(** [split_at], which panics out of range. *)
Definition split_at {E A} (l : list A) (n : Z) : res E (list A * list A) :=
  if (0 <=? n) && (n <=? len l) then Ok (take (Z.to_nat n) l, drop (Z.to_nat n) l) else Panic.

(** [decode_object]; the fuel is [MAX_DEPTH + 1 - depth]. *)
Fixpoint decode_object (fuel : nat) (input : bytes) (offsets : list Z) (ends : gmap Z Z)
    (scanned : list ScannedObject) (i : Z) (budget : DecodeBudget)
    : res Error (Value.t * DecodeBudget) :=
  match fuel with
  | O => Err LimitExceeded
  | S fuel =>
      let! n := ok_or (checked_add 64 (nodes budget) 1) LimitExceeded in
      let budget := mkBudget n (value_bytes budget) in
      if MAX_DECODED_NODES <? n then Err LimitExceeded
      else
        let! start := index offsets i in
        let! end_ := ok_or (ends !! start) Malformed in
        let! (marker, cursor) := read_byte input start end_ in
        let high := Z.land marker 0xf0 in
        let low := Z.land marker 0x0f in
        let! object := index scanned i in
        match kind object with
        | ObjectKind.Null => Ok (Value.Null, budget)
        | ObjectKind.Boolean => Ok (Value.Boolean (marker =? 9), budget)
        | ObjectKind.Integer =>
            let! width := integer_width low in
            let! (bs, _) := take_bytes input cursor end_ width in
            let! value := decode_integer bs in
            Ok (Value.Integer value, budget)
        | ObjectKind.Data =>
            let! (length, cursor) := read_length input cursor end_ low in
            let! budget := charge_bytes budget length in
            let! (bs, _) := take_bytes input cursor end_ length in
            Ok (Value.Data bs, budget)
        | ObjectKind.String =>
            if high =? 0x50 then
              let! (length, cursor) := read_length input cursor end_ low in
              let! budget := charge_bytes budget length in
              let! (bs, _) := take_bytes input cursor end_ length in
              let! text := ok_or (Text.from_utf8 bs) Malformed in
              Ok (Value.String text, budget)
            else
              let! (units, cursor) := read_length input cursor end_ low in
              let! length := ok_or (checked_mul 64 units 2) LimitExceeded in
              let! budget := charge_bytes budget length in
              let! (bs, _) := take_bytes input cursor end_ length in
              let! text := ok_or (Text.from_utf16 (utf16_units bs)) Malformed in
              Ok (Value.String text, budget)
        | ObjectKind.Array =>
            let! (values, budget) :=
              foldM (fun '(values, budget) child =>
                let! (v, budget) := decode_object fuel input offsets ends scanned child budget in
                Ok (values ++ [v], budget)) ([], budget) (children object) in
            Ok (Value.Array values, budget)
        | ObjectKind.Dictionary =>
            let! (keys, values) := split_at (children object) (dictionary_key_count object) in
            let! (dictionary, budget) :=
              foldM (fun '(dictionary, budget) '(key, value) =>
                let! (k, budget) := decode_object fuel input offsets ends scanned key budget in
                match k with
                | Value.String k =>
                    let! (v, budget) :=
                      decode_object fuel input offsets ends scanned value budget in
                    let (dictionary, present) := btree_insert k v dictionary in
                    if (present : bool) then Err Malformed else Ok (dictionary, budget)
                | _ => Err Malformed
                end) ([], budget) (zip keys values) in
            Ok (Value.Dictionary dictionary, budget)
        end
  end.

(** [windows(2).any(|pair| pair[0] == pair[1])]. *)
Fixpoint adjacent_equal (l : list Z) : bool :=
  match l with
  | x :: (y :: _) as l' => (x =? y) || adjacent_equal l'
  | _ => false
  end.

(** The loop that fills [ends_by_offset]. *)
Definition ends_by_offset (ordered : list Z) (offset_table_start : Z) : gmap Z Z :=
  fold_left (fun m '(offset, end_) => <[offset := end_]> m)
    (zip ordered (drop 1 ordered ++ [offset_table_start])) ∅.

(** The loop that reads the offset table. *)
Definition read_offsets (input : bytes) (offset_table_start offset_size object_count : Z)
    : res Error (list Z) :=
  foldM (fun offsets i =>
    let start := offset_table_start + i * offset_size in
    let! raw := slice input (Z.to_nat start) (Z.to_nat (start + offset_size)) in
    let! value := read_be_u64 raw in
    let! offset := usize_from_u64 value in
    if negb ((len HEADER <=? offset) && (offset <? offset_table_start)) then Err Malformed
    else Ok (offsets ++ [offset]))
    [] (Z.of_nat <$> seq 0 (Z.to_nat object_count)).

(** The loop that scans the objects. *)
Definition scan_objects (input : bytes) (ends : gmap Z Z) (reference_size object_count : Z)
    (offsets : list Z) : res Error (list ScannedObject) :=
  let! (scanned, _) :=
    foldM (fun '(scanned, total_references) offset =>
      let! end_ := ok_or (ends !! offset) Malformed in
      let! object := scan_object input offset end_ reference_size object_count in
      let! total := ok_or (checked_add 64 total_references (len (children object))) LimitExceeded in
      if MAX_REFERENCES <? total then Err LimitExceeded
      else Ok (scanned ++ [object], total)) ([], 0) offsets in
  Ok scanned.

(** The loop that checks that the keys of dictionaries are strings. *)
Definition check_keys (scanned : list ScannedObject) : res Error () :=
  foldM (fun _ object =>
    let! keys := slice (children object) 0 (Z.to_nat (dictionary_key_count object)) in
    foldM (fun _ key_reference =>
      let! key := index scanned key_reference in
      if negb (bool_decide (kind key = ObjectKind.String)) then Err Malformed else Ok ())
      () keys) () scanned.

(** [decode]. *)
Definition decode (input : bytes) : res Error Value.t :=
  if MAX_PLIST_SIZE <? len input then Err InputTooLarge
  else if len input <? len HEADER + TRAILER_SIZE then Err Malformed
  else if negb (bool_decide (take (length HEADER) input = HEADER)) then Err InvalidHeader
  else
    let trailer_start := len input - TRAILER_SIZE in
    let! trailer := slice_from input (Z.to_nat trailer_start) in
    let! unused := slice trailer 0 6 in
    if negb (bool_decide (unused = replicate 6 0)) then Err InvalidTrailer
    else
      let! offset_size := byte_at trailer 6 in
      let! reference_size := byte_at trailer 7 in
      if negb ((1 <=? offset_size) && (offset_size <=? 8))
         || negb ((1 <=? reference_size) && (reference_size <=? 8)) then Err InvalidTrailer
      else
        let! raw := slice trailer 8 16 in
        let! v := read_be_u64 raw in
        let! object_count := usize_from_u64 v in
        let! raw := slice trailer 16 24 in
        let! v := read_be_u64 raw in
        let! top_object := usize_from_u64 v in
        let! raw := slice trailer 24 32 in
        let! v := read_be_u64 raw in
        let! offset_table_start := usize_from_u64 v in
        if (object_count =? 0) || (MAX_OBJECTS <? object_count) || (object_count <=? top_object)
        then Err InvalidTrailer
        else if (offset_table_start <? len HEADER) || (trailer_start <? offset_table_start)
        then Err InvalidTrailer
        else
          let! offset_table_size := ok_or (checked_mul 64 object_count offset_size) LimitExceeded in
          let! table_end := ok_or (checked_add 64 offset_table_start offset_table_size)
                                  LimitExceeded in
          if negb (table_end =? trailer_start) then Err InvalidTrailer
          else
            let! offsets := read_offsets input offset_table_start offset_size object_count in
            let ordered := merge_sort Z.le offsets in
            if negb (bool_decide (head ordered = Some (len HEADER))) || adjacent_equal ordered
            then Err Malformed
            else
              let ends := ends_by_offset ordered offset_table_start in
              let! scanned := scan_objects input ends reference_size object_count offsets in
              let! _ := check_keys scanned in
              let! _ :=
                foldM (fun colors i => validate_acyclic (S MAX_DEPTH) i scanned colors)
                  (replicate (Z.to_nat object_count) 0) (Z.of_nat <$> seq 0 (Z.to_nat object_count)) in
              let! (value, _) :=
                decode_object (S MAX_DEPTH) input offsets ends scanned top_object (mkBudget 0 0) in
              Ok value.

(** ** Writing *)

Module EncodedObject.
Inductive t : Type :=
| Null
| Boolean (b : bool)
| Integer (i : Z)
| Data (d : bytes)
| String (s : bytes)
| Array (references : list Z)
| Dictionary (keys values : list Z).
End EncodedObject.

Record Encoder : Type := mkEncoder {
  objects : list EncodedObject.t;
  enc_references : Z;
  enc_value_bytes : Z;
}.

(** [Encoder::charge_references] and [charge_bytes]. *)
Definition charge_references (e : Encoder) (count : Z) : res Error Encoder :=
  let! r := ok_or (checked_add 64 (enc_references e) count) LimitExceeded in
  if MAX_REFERENCES <? r then Err LimitExceeded
  else Ok (mkEncoder (objects e) r (enc_value_bytes e)).
Definition encoder_charge_bytes (e : Encoder) (count : Z) : res Error Encoder :=
  let! v := ok_or (checked_add 64 (enc_value_bytes e) count) LimitExceeded in
  if MAX_VALUE_BYTES <? v then Err LimitExceeded
  else Ok (mkEncoder (objects e) (enc_references e) v).

(** [self.objects.push(o)] and [self.objects[index] = o]. *)
Definition push_object (e : Encoder) (o : EncodedObject.t) : Encoder :=
  mkEncoder (objects e ++ [o]) (enc_references e) (enc_value_bytes e).
Definition set_object (e : Encoder) (i : Z) (o : EncodedObject.t) : res Error Encoder :=
  if i <? len (objects e)
  then Ok (mkEncoder (<[Z.to_nat i := o]> (objects e)) (enc_references e) (enc_value_bytes e))
  else Panic.

(** The loops of [Encoder::add] over the entries of an array and a dictionary. *)
Section Loops.
Context (add : Encoder -> Value.t -> res Error (Z * Encoder)).

Fixpoint add_values (vs : list Value.t) (cs : list Z) (e : Encoder)
    : res Error (list Z * Encoder) :=
  match vs with
  | [] => Ok (cs, e)
  | v :: vs => let! (c, e) := add e v in add_values vs (cs ++ [c]) e
  end.

Fixpoint add_entries (kvs : list (bytes * Value.t)) (keys cs : list Z) (e : Encoder)
    : res Error (list Z * list Z * Encoder) :=
  match kvs with
  | [] => Ok (keys, cs, e)
  | (key, v) :: kvs =>
      let! e := encoder_charge_bytes e (len key) in
      let key_index := len (objects e) in
      if MAX_OBJECTS <=? key_index then Err LimitExceeded
      else
        let e := push_object e (EncodedObject.String key) in
        let! (c, e) := add e v in
        add_entries kvs (keys ++ [key_index]) (cs ++ [c]) e
  end.

End Loops.

(** [Encoder::add]: the index of the object, and the encoder. *)
Fixpoint add (depth : Z) (e : Encoder) (value : Value.t) : res Error (Z * Encoder) :=
  if (Z.of_nat MAX_DEPTH <? depth) || (MAX_OBJECTS <=? len (objects e)) then Err LimitExceeded
  else
    let i := len (objects e) in
    let e := push_object e EncodedObject.Null in
    let! (object, e) :=
      match value with
      | Value.Null => Ok (EncodedObject.Null, e)
      | Value.Boolean b => Ok (EncodedObject.Boolean b, e)
      | Value.Integer v =>
          if (v <? I64_MIN) || (umax 64 <? v) then Err IntegerOutOfRange
          else Ok (EncodedObject.Integer v, e)
      | Value.Data d =>
          let! e := encoder_charge_bytes e (len d) in Ok (EncodedObject.Data d, e)
      | Value.String s =>
          let! e := encoder_charge_bytes e (len s) in Ok (EncodedObject.String s, e)
      | Value.Array vs =>
          let! e := charge_references e (len vs) in
          let! (cs, e) := add_values (add (depth + 1)) vs [] e in
          Ok (EncodedObject.Array cs, e)
      | Value.Dictionary kvs =>
          let! count := ok_or (checked_mul 64 (len kvs) 2) LimitExceeded in
          let! e := charge_references e count in
          let! (keys, cs, e) := add_entries (add (depth + 1)) kvs [] [] e in
          Ok (EncodedObject.Dictionary keys cs, e)
      end in
    let! e := set_object e i object in
    Ok (i, e).

Definition push (output : bytes) (byte : Z) : res Error bytes :=
  if MAX_PLIST_SIZE <=? len output then Err OutputTooLarge else Ok (output ++ [byte]).

Definition append (output bs : bytes) : res Error bytes :=
  let! next := ok_or (checked_add 64 (len output) (len bs)) OutputTooLarge in
  if MAX_PLIST_SIZE <? next then Err OutputTooLarge else Ok (output ++ bs).

(** [append_be]; the low [width] bytes of [value.to_be_bytes()]. *)
Definition append_be (output : bytes) (value width : Z) : res Error bytes :=
  if negb ((width =? 1) || (width =? 2) || (width =? 4) || (width =? 8)) then Err OutputTooLarge
  else append output (drop (Z.to_nat (8 - width)) (be_bytes 8 value)).

Definition integer_storage_width (value : Z) : Z :=
  if is_ub 8 value then 1 else if is_ub 16 value then 2 else if is_ub 32 value then 4 else 8.

(** [width.trailing_zeros()] for the widths in use. *)
Definition trailing_zeros (width : Z) : Z := Z.log2 width.

Definition encode_length (marker length : Z) (output : bytes) : res Error bytes :=
  if length <? 15 then push output (Z.lor marker length)
  else
    let! output := push output (Z.lor marker 0x0f) in
    let! wire_length := ok_or (try_from_u 64 length) OutputTooLarge in
    let width := integer_storage_width wire_length in
    let! exponent := ok_or (try_from_u 8 (trailing_zeros width)) Malformed in
    let! output := push output (Z.lor 0x10 exponent) in
    append_be output wire_length width.

Definition encode_integer (value : Z) (output : bytes) : res Error bytes :=
  if value <? 0 then
    let! output := push output 0x13 in
    let! value := if value <? I64_MIN then Err IntegerOutOfRange else Ok value in
    append output (be_bytes 8 (value mod 2 ^ 64))
  else
    let! value := ok_or (try_from_u 64 value) IntegerOutOfRange in
    let width := integer_storage_width value in
    if (width =? 1) || (width =? 2) || (width =? 4) then
      let! exponent := ok_or (try_from_u 8 (trailing_zeros width)) Malformed in
      let! output := push output (Z.lor 0x10 exponent) in
      append_be output value width
    else if (width =? 8) && (value <? 2 ^ 63) then
      let! output := push output 0x13 in
      append_be output value 8
    else if width =? 8 then
      let! output := push output 0x14 in
      let! output := append output (replicate 8 0) in
      append_be output value 8
    else Err IntegerOutOfRange.

(** The loops that append references. *)
Definition append_references (output : bytes) (references : list Z) (reference_size : Z)
    : res Error bytes :=
  foldM (fun output reference =>
    let! v := ok_or (try_from_u 64 reference) OutputTooLarge in
    append_be output v reference_size) output references.

(** [encode_object]. *)
Definition encode_object (object : EncodedObject.t) (reference_size : Z) (output : bytes)
    : res Error bytes :=
  match object with
  | EncodedObject.Null => push output 0x00
  | EncodedObject.Boolean false => push output 0x08
  | EncodedObject.Boolean true => push output 0x09
  | EncodedObject.Integer value => encode_integer value output
  | EncodedObject.Data value =>
      let! output := encode_length 0x40 (len value) output in
      append output value
  | EncodedObject.String value =>
      if Text.is_ascii value then
        let! output := encode_length 0x50 (len value) output in
        append output value
      else
        let units := Text.encode_utf16 value in
        let! output := encode_length 0x60 (len units) output in
        foldM (fun output unit => append output (be_bytes 2 unit)) output units
  | EncodedObject.Array references =>
      let! output := encode_length 0xa0 (len references) output in
      append_references output references reference_size
  | EncodedObject.Dictionary keys values =>
      let! output := encode_length 0xd0 (len keys) output in
      append_references output (keys ++ values) reference_size
  end.

(** The loop that writes the objects: their offsets and the output. *)
Definition encode_objects (os : list EncodedObject.t) (reference_size : Z) (output : bytes)
    : res Error (list Z * bytes) :=
  foldM (fun '(offsets, output) object =>
    let offsets := offsets ++ [len output] in
    let! output := encode_object object reference_size output in
    Ok (offsets, output)) ([], output) os.

(** [encode]. *)
Definition encode (value : Value.t) : res Error bytes :=
  let! (top_object, encoder) := add 0 (mkEncoder [] 0 0) value in
  let! largest_reference :=
    ok_or (try_from_u 64 (saturating_sub (len (objects encoder)) 1)) OutputTooLarge in
  let reference_size := integer_storage_width largest_reference in
  let! output := append [] HEADER in
  let! (offsets, output) := encode_objects (objects encoder) reference_size output in
  let offset_table_start := len output in
  let! v := ok_or (try_from_u 64 offset_table_start) OutputTooLarge in
  let offset_size := integer_storage_width v in
  let! output :=
    foldM (fun output offset =>
      let! v := ok_or (try_from_u 64 offset) OutputTooLarge in
      append_be output v offset_size) output offsets in
  let! output := append output (replicate 6 0) in
  let! b := ok_or (try_from_u 8 offset_size) OutputTooLarge in
  let! output := push output b in
  let! b := ok_or (try_from_u 8 reference_size) OutputTooLarge in
  let! output := push output b in
  let! v := ok_or (try_from_u 64 (len (objects encoder))) OutputTooLarge in
  let! output := append_be output v 8 in
  let! v := ok_or (try_from_u 64 top_object) OutputTooLarge in
  let! output := append_be output v 8 in
  let! v := ok_or (try_from_u 64 offset_table_start) OutputTooLarge in
  append_be output v 8.

(** ** What the encoder writes *)

Lemma le_bytes_split (n m : nat) v :
  le_bytes (n + m) v = le_bytes n v ++ le_bytes m (v / 256 ^ Z.of_nat n).
Proof.
  revert v. induction n as [|n IH]; intros v; [by rewrite Z.div_1_r|].
  cbn [Nat.add]. rewrite !le_bytes_S, IH. cbn [app]. do 2 f_equal.
  rewrite Z.div_div by lia. f_equal. rewrite Nat2Z.inj_succ, Z.pow_succ_r; lia.
Qed.

(** The low bytes of a wider pattern. *)
Lemma be_bytes_low (n m : nat) v : (n <= m)%nat -> drop (m - n) (be_bytes m v) = be_bytes n v.
Proof.
  intros H. replace m with (n + (m - n))%nat at 2 by lia. unfold be_bytes.
  rewrite le_bytes_split, rev_app_distr. rewrite drop_app_length'; [done|].
  rewrite length_rev, length_le_bytes. done.
Qed.

(** The written form of a length, of a value and of an object. *)
Definition width_of (v : Z) : nat := Z.to_nat (integer_storage_width v).

Definition length_bytes (marker n : Z) : bytes :=
  if n <? 15 then [Z.lor marker n]
  else Z.lor marker 15 :: Z.lor 16 (Z.log2 (integer_storage_width n)) :: be_bytes (width_of n) n.

Definition integer_bytes (v : Z) : bytes :=
  if v <? 0 then 0x13 :: be_bytes 8 (v mod 2 ^ 64)
  else if integer_storage_width v =? 8 then
    if v <? 2 ^ 63 then 0x13 :: be_bytes 8 v else 0x14 :: replicate 8 0 ++ be_bytes 8 v
  else Z.lor 16 (Z.log2 (integer_storage_width v)) :: be_bytes (width_of v) v.

Definition reference_bytes (n : nat) (rs : list Z) : bytes := concat (be_bytes n <$> rs).
Definition unit_bytes (us : list Z) : bytes := concat (be_bytes 2 <$> us).

Definition object_bytes (n : nat) (o : EncodedObject.t) : bytes :=
  match o with
  | EncodedObject.Null => [0]
  | EncodedObject.Boolean b => [if b then 9 else 8]
  | EncodedObject.Integer v => integer_bytes v
  | EncodedObject.Data d => length_bytes 0x40 (len d) ++ d
  | EncodedObject.String s =>
      if Text.is_ascii s then length_bytes 0x50 (len s) ++ s
      else length_bytes 0x60 (len (Text.encode_utf16 s)) ++ unit_bytes (Text.encode_utf16 s)
  | EncodedObject.Array rs => length_bytes 0xa0 (len rs) ++ reference_bytes n rs
  | EncodedObject.Dictionary ks vs => length_bytes 0xd0 (len ks) ++ reference_bytes n (ks ++ vs)
  end.

Lemma storage_width_cases v :
  0 <= v -> (integer_storage_width v = 1 /\ is_u 8 v) \/ (integer_storage_width v = 2 /\ is_u 16 v) \/
  (integer_storage_width v = 4 /\ is_u 32 v) \/ (integer_storage_width v = 8 /\ 2 ^ 32 <= v).
Proof.
  intros Hv. unfold integer_storage_width.
  destruct (is_ub 8 v) eqn:E1; [apply is_ub_spec in E1; auto|].
  destruct (is_ub 16 v) eqn:E2; [apply is_ub_spec in E2; auto|].
  destruct (is_ub 32 v) eqn:E3; [apply is_ub_spec in E3; auto|].
  unfold is_ub in E3. right; right; right. split; [done|]. lia.
Qed.

Lemma width_fits v : is_u 64 v -> is_u (8 * Z.of_nat (width_of v)) v.
Proof.
  intros Hv. unfold width_of.
  destruct (storage_width_cases v ltac:(apply Hv)) as [[-> H]|[[-> H]|[[-> H]|[-> H]]]]; exact H || exact Hv.
Qed.

Lemma push_Ok output b o : push output b = Ok o -> o = output ++ [b] /\ len o <= MAX_PLIST_SIZE.
Proof. unfold push. intros H. destruct (_ <=? _) eqn:E; b2p; simplify_eq. split; [done|lens]. Qed.

Lemma append_Ok output bs o : append output bs = Ok o -> o = output ++ bs /\ len o <= MAX_PLIST_SIZE.
Proof.
  unfold append. intros H. inv_ok H. b2p. apply ok_or_Some, checked_add_Some in Hr as [-> _]. split; [done|lens].
Qed.

Lemma append_be_Ok output v (n : nat) o :
  append_be output v (Z.of_nat n) = Ok o ->
  (n = 1 \/ n = 2 \/ n = 4 \/ n = 8)%nat /\ o = output ++ be_bytes n v /\ len o <= MAX_PLIST_SIZE.
Proof.
  unfold append_be. intros H. destruct (negb _) eqn:E; [done|]. apply append_Ok in H as [-> Hl].
  split; [lia|]. replace (Z.to_nat (8 - Z.of_nat n)) with (8 - n)%nat in * by lia.
  rewrite be_bytes_low in * by lia. done.
Qed.

(** A loop of writes. *)
Lemma foldM_write {A} (f : bytes -> A -> res Error bytes) (g : A -> bytes) l :
  (forall out x o, f out x = Ok o -> o = out ++ g x /\ len o <= MAX_PLIST_SIZE) ->
  forall out o, len out <= MAX_PLIST_SIZE -> foldM f out l = Ok o ->
  o = out ++ concat (g <$> l) /\ len o <= MAX_PLIST_SIZE.
Proof.
  intros Hf. induction l as [|x l IH]; cbn [foldM]; intros out o Hlen H.
  { simplify_eq. by rewrite app_nil_r. }
  destruct (f out x) as [o1| |] eqn:Hx; [|done..]. apply Hf in Hx as [-> Hl].
  apply IH in H as [-> Hl']; [|done]. split; [by rewrite <- app_assoc|done].
Qed.

Lemma encode_length_Ok marker n output o :
  0 <= n -> encode_length marker n output = Ok o ->
  o = output ++ length_bytes marker n /\ len o <= MAX_PLIST_SIZE.
Proof.
  intros Hn H. unfold encode_length in H. unfold length_bytes. destruct (n <? 15).
  { by apply push_Ok in H. }
  inv_ok H. apply ok_or_Some, try_from_u_Some in Hr0 as [Hu ->].
  apply ok_or_Some, try_from_u_Some in Hr1 as [_ ->].
  apply push_Ok in Hr as [-> _]. apply push_Ok in Hr2 as [-> _].
  assert (integer_storage_width n = Z.of_nat (width_of n)) as Hw.
  { unfold width_of. destruct (storage_width_cases n Hn) as [[-> _]|[[-> _]|[[-> _]|[-> _]]]]; done. }
  rewrite Hw in H at 2. apply append_be_Ok in H as (_ & -> & Hl).
  split; [|done]. rewrite <- !app_assoc. done.
Qed.

Lemma storage_width_nat v : 0 <= v -> integer_storage_width v = Z.of_nat (width_of v).
Proof.
  intros Hv. unfold width_of.
  destruct (storage_width_cases v Hv) as [[-> _]|[[-> _]|[[-> _]|[-> _]]]]; done.
Qed.

Lemma encode_integer_Ok v output o :
  encode_integer v output = Ok o -> o = output ++ integer_bytes v /\ len o <= MAX_PLIST_SIZE.
Proof.
  intros H. unfold encode_integer in H. unfold integer_bytes. destruct (v <? 0) eqn:Hneg.
  { destruct (push output 19) as [o1| |] eqn:Hp; [|done..]. apply push_Ok in Hp as [-> _].
    destruct (v <? I64_MIN); [done|]. apply append_Ok in H as [-> Hl]. by rewrite <- app_assoc in *. }
  b2p. destruct (try_from_u 64 v) as [v'|] eqn:Hu; [|done]. apply try_from_u_Some in Hu as [Hu ->].
  cbn [ok_or] in H. rewrite (storage_width_nat v) in * by lia.
  destruct (storage_width_cases v ltac:(lia)) as [[Hw _]|[[Hw _]|[[Hw _]|[Hw _]]]];
    rewrite (storage_width_nat v) in Hw by lia; rewrite Hw in *.
  4:{ cbn in H |- *. destruct (v <? 2 ^ 63) eqn:H63; cbn [andb] in H.
      - replace (v <? 9223372036854775808) with true in H by (symmetry; exact H63).
        destruct (push output 19) as [o1| |] eqn:Hp; [|done..]. apply push_Ok in Hp as [-> _].
        apply (append_be_Ok _ _ 8) in H as (_ & -> & Hl). by rewrite <- app_assoc in *.
      - replace (v <? 9223372036854775808) with false in H by (symmetry; exact H63).
        destruct (push output 20) as [o1| |] eqn:Hp; [|done..]. apply push_Ok in Hp as [-> _].
        destruct (append _ _) as [o2| |] eqn:Ha in H; [|done..]. apply append_Ok in Ha as [-> _].
        apply (append_be_Ok _ _ 8) in H as (_ & -> & Hl). by rewrite <- !app_assoc in *. }
  all: cbn [Z.eqb Pos.eqb orb] in H |- *;
    match type of H with context [ok_or (try_from_u 8 ?x) ?e] =>
      let r := eval vm_compute in (ok_or (try_from_u 8 x) e) in
      change (ok_or (try_from_u 8 x) e) with r in H end; cbn beta iota in H;
    match type of H with context [push ?a ?b] => destruct (push a b) as [o1| |] eqn:Hp; [|done..] end;
    apply push_Ok in Hp as [-> _];
    rewrite <- Hw in H; apply append_be_Ok in H as (_ & -> & Hl); by rewrite <- app_assoc in *.
Qed.

Lemma append_references_Ok output rs (n : nat) o :
  len output <= MAX_PLIST_SIZE -> append_references output rs (Z.of_nat n) = Ok o ->
  o = output ++ reference_bytes n rs /\ len o <= MAX_PLIST_SIZE.
Proof.
  intros Hlen H. unfold append_references, reference_bytes in *.
  apply (foldM_write _ (be_bytes n)) in H; [done| |done]. intros out x o' Hx. inv_ok Hx.
  apply ok_or_Some, try_from_u_Some in Hr as [_ ->]. by apply append_be_Ok in Hx as (_ & Hx).
Qed.

Lemma encode_object_Ok ob (n : nat) output o :
  encode_object ob (Z.of_nat n) output = Ok o ->
  o = output ++ object_bytes n ob /\ len o <= MAX_PLIST_SIZE.
Proof.
  intros H. destruct ob as [|[]|v|d|s|rs|ks vs]; cbn [encode_object object_bytes] in *.
  1-3: by apply push_Ok in H.
  - by apply encode_integer_Ok in H.
  - inv_ok H. apply encode_length_Ok in Hr as [-> _]; [|lia]. apply append_Ok in H as [-> Hl].
    by rewrite <- app_assoc in *.
  - destruct (Text.is_ascii s).
    + inv_ok H. apply encode_length_Ok in Hr as [-> _]; [|lia]. apply append_Ok in H as [-> Hl].
      by rewrite <- app_assoc in *.
    + inv_ok H. apply encode_length_Ok in Hr as [-> Hl0]; [|lia].
      apply (foldM_write _ (be_bytes 2)) in H as [-> Hl]; [|intros; by apply append_Ok|done].
      by rewrite <- app_assoc in *.
  - inv_ok H. apply encode_length_Ok in Hr as [-> Hl0]; [|lia].
    apply append_references_Ok in H as [-> Hl]; [|done]. by rewrite <- app_assoc in *.
  - inv_ok H. apply encode_length_Ok in Hr as [-> Hl0]; [|lia].
    apply append_references_Ok in H as [-> Hl]; [|done]. by rewrite <- app_assoc in *.
Qed.

(** Where consecutive pieces start. *)
Fixpoint offsets_from (c : Z) (pieces : list bytes) : list Z :=
  match pieces with
  | [] => []
  | p :: pieces => c :: offsets_from (c + len p) pieces
  end.

Lemma encode_objects_Ok os (n : nat) output offs o :
  len output <= MAX_PLIST_SIZE ->
  encode_objects os (Z.of_nat n) output = Ok (offs, o) ->
  o = output ++ concat (object_bytes n <$> os) /\
  offs = offsets_from (len output) (object_bytes n <$> os) /\ len o <= MAX_PLIST_SIZE.
Proof.
  unfold encode_objects. intros Hlen H.
  enough (forall os offs0 output, len output <= MAX_PLIST_SIZE ->
    foldM (fun '(offsets, output) object =>
      let offsets := offsets ++ [len output] in
      let! output := encode_object object (Z.of_nat n) output in
      Ok (offsets, output)) (offs0, output) os = Ok (offs, o) ->
    o = output ++ concat (object_bytes n <$> os) /\
    offs = offs0 ++ offsets_from (len output) (object_bytes n <$> os) /\ len o <= MAX_PLIST_SIZE)
    as Hgen by (apply (Hgen os []); done).
  clear. intros os. induction os as [|ob os IH]; intros offs0 output Hlen H.
  { cbn in H. simplify_eq. cbn. by rewrite !app_nil_r. }
  cbn [foldM] in H. destruct (encode_object ob (Z.of_nat n) output) as [o1| |] eqn:Hr; [|done..].
  apply encode_object_Ok in Hr as [-> Hl].
  apply IH in H as (-> & -> & Hl'); [|done]. cbn. rewrite <- !app_assoc in *. split_and!; try done.
  by rewrite length_app, Nat2Z.inj_add.
Qed.

(** ** How the encoder lays a value out *)

Lemma value_ind' (P : Value.t -> Prop) :
  P Value.Null -> (forall b, P (Value.Boolean b)) -> (forall i, P (Value.Integer i)) ->
  (forall d, P (Value.Data d)) -> (forall s, P (Value.String s)) ->
  (forall vs, Forall P vs -> P (Value.Array vs)) ->
  (forall kvs, Forall (fun kv => P (snd kv)) kvs -> P (Value.Dictionary kvs)) ->
  forall v, P v.
Proof.
  intros H1 H2 H3 H4 H5 H6 H7. fix IH 1. intros [|b|i|d|s|vs|kvs]; [done|auto..| |].
  - apply H6. induction vs as [|v vs IHvs]; constructor; [apply IH|exact IHvs].
  - apply H7. induction kvs as [|[k v] kvs IHkvs]; constructor; [apply IH|exact IHkvs].
Qed.

(** [repr os v i]: the object [i] of [os] and what it refers to, all behind it,
    are the value [v]. *)
Inductive repr (os : list EncodedObject.t) : Value.t -> Z -> Prop :=
| repr_null i : 0 <= i -> os !! Z.to_nat i = Some EncodedObject.Null -> repr os Value.Null i
| repr_boolean b i :
    0 <= i -> os !! Z.to_nat i = Some (EncodedObject.Boolean b) -> repr os (Value.Boolean b) i
| repr_integer v i :
    0 <= i -> os !! Z.to_nat i = Some (EncodedObject.Integer v) -> repr os (Value.Integer v) i
| repr_data d i : 0 <= i -> os !! Z.to_nat i = Some (EncodedObject.Data d) -> repr os (Value.Data d) i
| repr_string s i :
    0 <= i -> os !! Z.to_nat i = Some (EncodedObject.String s) -> repr os (Value.String s) i
| repr_array vs cs i :
    0 <= i -> os !! Z.to_nat i = Some (EncodedObject.Array cs) ->
    Forall2 (fun v c => i < c /\ repr os v c) vs cs -> repr os (Value.Array vs) i
| repr_dictionary kvs ks cs i :
    0 <= i -> os !! Z.to_nat i = Some (EncodedObject.Dictionary ks cs) ->
    Forall2 (fun kv k => i < k /\ repr os (Value.String (fst kv)) k) kvs ks ->
    Forall2 (fun kv c => i < c /\ repr os (snd kv) c) kvs cs -> repr os (Value.Dictionary kvs) i.

(** The nesting and the number of objects of a value. *)
Fixpoint height (v : Value.t) : nat :=
  match v with
  | Value.Array vs => fold_right (fun v n => Nat.max (S (height v)) n) 0%nat vs
  | Value.Dictionary kvs => fold_right (fun kv n => Nat.max (S (height (snd kv))) n) 0%nat kvs
  | _ => 0%nat
  end.

Fixpoint size (v : Value.t) : nat :=
  match v with
  | Value.Array vs => S (fold_right (fun v n => (size v + n)%nat) 0%nat vs)
  | Value.Dictionary kvs => S (fold_right (fun kv n => (S (size (snd kv)) + n)%nat) 0%nat kvs)
  | _ => 1%nat
  end.

(** What a string is written as, and the bytes of text and data of an object and
    of a value. *)
Definition text_bytes (s : bytes) : bytes :=
  if Text.is_ascii s then s else unit_bytes (Text.encode_utf16 s).

Definition payload (o : EncodedObject.t) : bytes :=
  match o with
  | EncodedObject.Data d => d
  | EncodedObject.String s => text_bytes s
  | _ => []
  end.

Fixpoint vbytes (v : Value.t) : nat :=
  match v with
  | Value.Data d => length d
  | Value.String s => length (text_bytes s)
  | Value.Array vs => fold_right (fun v n => (vbytes v + n)%nat) 0%nat vs
  | Value.Dictionary kvs =>
      fold_right (fun kv n => (length (text_bytes (fst kv)) + vbytes (snd kv) + n)%nat) 0%nat kvs
  | Value.Null | Value.Boolean _ | Value.Integer _ => 0%nat
  end.

(** What an object refers to. *)
Definition refs (o : EncodedObject.t) : list Z :=
  match o with
  | EncodedObject.Array cs => cs
  | EncodedObject.Dictionary ks cs => ks ++ cs
  | _ => []
  end.

(** [P] holds of every list that has [news] at the position [base]. *)
Definition placed (base : Z) (news : list EncodedObject.t) (P : list EncodedObject.t -> Prop) : Prop :=
  forall pre post, len pre = base -> P (pre ++ news ++ post).

Lemma placed_left base n1 n2 P : placed base n1 P -> placed base (n1 ++ n2) P.
Proof. intros H pre post Hl. rewrite <- app_assoc. by apply H. Qed.

Lemma placed_right base n1 n2 P : placed (base + len n1) n2 P -> placed base (n1 ++ n2) P.
Proof.
  intros H pre post Hl. rewrite <- app_assoc, app_assoc. apply H. rewrite length_app. lia.
Qed.

(** A value that Rust's types allow: bytes, valid text, and keys in order. *)
Definition text_wf (s : bytes) : Prop := bytes_ok s /\ Text.utf8_valid s = true.

Definition keys_sorted {V} : list (bytes * V) -> Prop :=
  StronglySorted (fun a b => bytes_compare (fst a) (fst b) = Lt).

Fixpoint value_wf (v : Value.t) : Prop :=
  match v with
  | Value.Data d => bytes_ok d
  | Value.String s => text_wf s
  | Value.Array vs => fold_right (fun v P => value_wf v /\ P) True vs
  | Value.Dictionary kvs =>
      keys_sorted kvs /\ fold_right (fun kv P => text_wf (fst kv) /\ value_wf (snd kv) /\ P) True kvs
  | Value.Null | Value.Boolean _ | Value.Integer _ => True
  end.

Definition object_wf (o : EncodedObject.t) : Prop :=
  match o with
  | EncodedObject.Integer v => I64_MIN <= v <= umax 64
  | EncodedObject.Data d => bytes_ok d
  | EncodedObject.String s => text_wf s
  | EncodedObject.Dictionary ks cs => length ks = length cs
  | _ => True
  end.

(** What adding objects does, whatever they stand for. *)
Record grown (e e' : Encoder) (news : list EncodedObject.t) : Prop := mkGrown {
  grown_objects : objects e' = objects e ++ news;
  grown_all : forall j, len (objects e) <= j < len (objects e') ->
    exists v', (height v' <= MAX_DEPTH)%nat /\
      placed (len (objects e)) news (fun os => repr os v' j);
  grown_limit : len (objects e) <= MAX_OBJECTS -> len (objects e') <= MAX_OBJECTS;
  grown_refs : enc_references e <= MAX_REFERENCES -> enc_references e' <= MAX_REFERENCES;
  grown_bound : Forall (fun o => Forall (fun r => 0 <= r < len (objects e')) (refs o)) news;
}.

(** What [add] does for one value, at depth [d]. *)
Record added (d : Z) (e : Encoder) (v : Value.t) (e' : Encoder) (news : list EncodedObject.t)
    : Prop := mkAdded {
  added_grown : grown e e' news;
  added_size : length news = size v;
  added_repr : placed (len (objects e)) news (fun os => repr os v (len (objects e)));
  added_depth : d + Z.of_nat (height v) <= Z.of_nat MAX_DEPTH;
  added_bytes : len (concat (payload <$> news)) = Z.of_nat (vbytes v);
  added_charge : enc_references e' = enc_references e + len (concat (refs <$> news));
  added_wf : value_wf v -> Forall object_wf news;
}.

Lemma set_object_last e news o i o' :
  objects e = i ++ o' :: news -> set_object e (len i) o =
  Ok (mkEncoder (i ++ o :: news) (enc_references e) (enc_value_bytes e)).
Proof.
  intros H. unfold set_object. rewrite H, length_app. cbn [length].
  replace (len i <? _) with true by lia. rewrite Nat2Z.id. f_equal.
  by rewrite insert_app_r_alt, Nat.sub_diag by lia.
Qed.

Lemma placed_here base o news :
  0 <= base -> placed base (o :: news) (fun os => os !! Z.to_nat base = Some o).
Proof.
  intros Hb pre post Hl. replace (Z.to_nat base) with (length pre) by lia. cbn.
  by rewrite list_lookup_middle.
Qed.

Lemma grown_refl e : grown e e [].
Proof. split; [by rewrite app_nil_r|lia|done|done|constructor]. Qed.

Lemma grown_trans e1 e2 e3 n1 n2 : grown e1 e2 n1 -> grown e2 e3 n2 -> grown e1 e3 (n1 ++ n2).
Proof.
  intros [O1 A1 L1 R1 B1] [O2 A2 L2 R2 B2]. split; [by rewrite O2, O1, app_assoc| |auto|auto|].
  - intros j Hj. destruct (decide (j < len (objects e2))) as [Hlt|Hge].
    + destruct (A1 j) as (v' & Hh & Hp); [lia|]. exists v'. split; [done|by apply placed_left].
    + destruct (A2 j) as (v' & Hh & Hp); [lia|]. exists v'. split; [done|]. apply placed_right.
      by rewrite O1, length_app, Nat2Z.inj_add in Hp.
  - apply Forall_app. split; [|done]. eapply Forall_impl; [exact B1|]. cbn. intros o Ho.
    eapply Forall_impl; [exact Ho|]. cbn. intros r Hr. rewrite O2, length_app. lia.
Qed.

(** The charges do not touch the objects. *)
Lemma charge_references_Ok e n e' :
  charge_references e n = Ok e' ->
  objects e' = objects e /\ enc_references e' = enc_references e + n /\ enc_references e' <= MAX_REFERENCES.
Proof.
  unfold charge_references. intros H. inv_ok H. b2p. by apply ok_or_Some, checked_add_Some in Hr as [-> _].
Qed.

Lemma encoder_charge_bytes_Ok e n e' :
  encoder_charge_bytes e n = Ok e' -> objects e' = objects e /\ enc_references e' = enc_references e.
Proof. unfold encoder_charge_bytes. intros H. by inv_ok H. Qed.

Lemma grown_push e o :
  len (objects e) < MAX_OBJECTS -> refs o = [] ->
  (exists v, height v = 0%nat /\ placed (len (objects e)) [o] (fun os => repr os v (len (objects e)))) ->
  grown e (push_object e o) [o].
Proof.
  intros Hl Hr (v & Hh & Hp). split; cbn; [done| |rewrite length_app; cbn; lia|done|].
  - intros j Hj. rewrite length_app in Hj. cbn in Hj. replace j with (len (objects e)) by lia.
    exists v. split; [lia|done].
  - constructor; [by rewrite Hr|done].
Qed.

(** The end of [add]: the object takes the place that was kept for it. *)
Lemma added_wrap d e e0 e1 v o news :
  d <= Z.of_nat MAX_DEPTH -> len (objects e) < MAX_OBJECTS ->
  objects e0 = objects e ++ [EncodedObject.Null] -> grown e0 e1 news ->
  placed (len (objects e)) (o :: news) (fun os => repr os v (len (objects e))) ->
  Forall (fun r => 0 <= r < len (objects e1)) (refs o) ->
  S (length news) = size v -> 0 <= d -> d + Z.of_nat (height v) <= Z.of_nat MAX_DEPTH ->
  len (payload o) + len (concat (payload <$> news)) = Z.of_nat (vbytes v) ->
  enc_references e1 = enc_references e + len (refs o) + len (concat (refs <$> news)) ->
  (enc_references e <= MAX_REFERENCES -> enc_references e0 <= MAX_REFERENCES) ->
  (value_wf v -> object_wf o /\ Forall object_wf news) ->
  exists e', set_object e1 (len (objects e)) o = Ok e' /\ added d e v e' (o :: news).
Proof.
  intros Hd Hlim He0 [Go Ga Gl Gr Gb] Hrepr Href Hsize Hd0 Hheight Hbytes Hchg Hchg0 Hwf.
  assert (objects e1 = objects e ++ EncodedObject.Null :: news) as He1
    by (by rewrite Go, He0, <- app_assoc).
  exists (mkEncoder (objects e ++ o :: news) (enc_references e1) (enc_value_bytes e1)).
  split; [by eapply set_object_last|].
  assert (length (objects e ++ o :: news) = length (objects e1)) as Hlen
    by (by rewrite He1, !length_app).
  split; cbn; try done.
  - split; cbn; [done| | |auto|].
    + intros j Hj. destruct (decide (j = len (objects e))) as [->|Hne].
      { exists v. split; [lia|done]. }
      destruct (Ga j) as (v' & Hh & Hp); [rewrite He0, length_app; cbn; lia|].
      exists v'. split; [done|]. apply (placed_right _ [o]). cbn.
      rewrite He0, length_app in Hp. cbn in Hp. by rewrite Nat2Z.inj_add in Hp.
    + intros _. rewrite Hlen. apply Gl. rewrite He0, length_app. cbn. lia.
    + rewrite Hlen. by constructor.
  - by rewrite length_app, Nat2Z.inj_add.
  - rewrite length_app, Nat2Z.inj_add. lia.
  - intros Hv. destruct (Hwf Hv). by constructor.
Qed.

Definition add_ok (v : Value.t) : Prop :=
  forall d e c e', 0 <= d -> add d e v = Ok (c, e') ->
  c = len (objects e) /\ exists news, added d e v e' news.

Lemma placed_and base news P Q :
  placed base news P -> placed base news Q -> placed base news (fun os => P os /\ Q os).
Proof. intros H1 H2 pre post Hl. split; auto. Qed.

Lemma placed_impl base news (P Q : list EncodedObject.t -> Prop) :
  (forall os, P os -> Q os) -> placed base news P -> placed base news Q.
Proof. intros HPQ H pre post Hl. auto. Qed.

Lemma len_concat_app {A B} (f : A -> list B) l1 l2 :
  len (concat (f <$> l1 ++ l2)) = len (concat (f <$> l1)) + len (concat (f <$> l2)).
Proof. rewrite fmap_app, concat_app, length_app. lia. Qed.

Lemma added_grows d e v e' news : added d e v e' news -> len (objects e') = len (objects e) + len news.
Proof. intros [[Ho _ _ _ _] _ _ _ _ _ _]. rewrite Ho, length_app. lia. Qed.

Lemma size_pos v : (1 <= size v)%nat.
Proof. destruct v; cbn; lia. Qed.

Lemma add_values_ok d vs : 0 <= d -> Forall add_ok vs ->
  forall cs e cs' e', add_values (add d) vs cs e = Ok (cs', e') ->
  exists ids news, cs' = cs ++ ids /\ grown e e' news /\
    length news = fold_right (fun v n => (size v + n)%nat) 0%nat vs /\
    len (concat (payload <$> news)) = Z.of_nat (fold_right (fun v n => (vbytes v + n)%nat) 0%nat vs) /\
    placed (len (objects e)) news
      (fun os => Forall2 (fun v c => len (objects e) <= c /\ repr os v c) vs ids) /\
    Forall (fun c => 0 <= c < len (objects e')) ids /\
    Forall (fun v => d + Z.of_nat (height v) <= Z.of_nat MAX_DEPTH) vs /\
    enc_references e' = enc_references e + len (concat (refs <$> news)) /\
    (Forall value_wf vs -> Forall object_wf news).
Proof.
  intros Hd Hvs. induction Hvs as [|v vs Hv _ IH]; intros cs e cs' e' H.
  { cbn in H. simplify_eq. exists [], []. split_and!; rewrite ?app_nil_r; try done;
      [apply grown_refl|intros ? ? _; constructor|cbn; lia]. }
  cbn [add_values] in H. destruct (add d e v) as [[c e1]| |] eqn:Ha; [|done..].
  destruct (Hv _ _ _ _ Hd Ha) as [-> [n1 A]]. pose proof (added_grows _ _ _ _ _ A) as Hlen1.
  destruct A as [G1 Sz1 R1 D1 Y1 C1 W1].
  destruct (IH _ _ _ _ H) as (ids & n2 & -> & G2 & Sz2 & Y2 & P2 & B2 & D2 & C2 & W2).
  exists (len (objects e) :: ids), (n1 ++ n2). split_and!.
  - by rewrite <- app_assoc.
  - by eapply grown_trans.
  - cbn. rewrite length_app. lia.
  - rewrite len_concat_app. cbn [fold_right]. lia.
  - intros pre post Hl. constructor.
    + split; [lia|]. by apply (placed_left _ _ _ _ R1).
    + assert (placed (len (objects e)) (n1 ++ n2)
        (fun os => Forall2 (fun v c => len (objects e1) <= c /\ repr os v c) vs ids)) as Hp
        by (apply placed_right; by rewrite <- Hlen1).
      eapply Forall2_impl; [by apply Hp|]. cbn. intros v' c [? ?]. split; [lia|done].
  - constructor; [|done]. destruct G2 as [-> _ _ _ _]. rewrite length_app.
    pose proof (size_pos v). lia.
  - by constructor.
  - rewrite len_concat_app. lia.
  - intros Hw. apply Forall_cons in Hw as [Hw1 Hw2]. apply Forall_app. auto.
Qed.

Lemma add_entries_ok d kvs : 0 <= d -> Forall (fun kv => add_ok (snd kv)) kvs ->
  forall keys cs e keys' cs' e', add_entries (add d) kvs keys cs e = Ok (keys', cs', e') ->
  exists kids ids news, keys' = keys ++ kids /\ cs' = cs ++ ids /\ grown e e' news /\
    length news = fold_right (fun kv n => (S (size (snd kv)) + n)%nat) 0%nat kvs /\
    len (concat (payload <$> news)) =
      Z.of_nat (fold_right (fun kv n => (length (text_bytes (fst kv)) + vbytes (snd kv) + n)%nat) 0%nat kvs) /\
    placed (len (objects e)) news
      (fun os => Forall2 (fun kv k => len (objects e) <= k /\ repr os (Value.String (fst kv)) k) kvs kids /\
         Forall2 (fun kv c => len (objects e) <= c /\ repr os (snd kv) c) kvs ids) /\
    Forall (fun c => 0 <= c < len (objects e')) (kids ++ ids) /\
    Forall (fun kv => d + Z.of_nat (height (snd kv)) <= Z.of_nat MAX_DEPTH) kvs /\
    enc_references e' = enc_references e + len (concat (refs <$> news)) /\
    (Forall (fun kv => text_wf (fst kv) /\ value_wf (snd kv)) kvs -> Forall object_wf news).
Proof.
  intros Hd Hvs. induction Hvs as [|[k v] kvs Hv _ IH]; intros keys cs e keys' cs' e' H.
  { cbn in H. simplify_eq. exists [], [], []. split_and!; rewrite ?app_nil_r; try done;
      first [apply grown_refl|constructor|by intros ? ? _; split; constructor|cbn; lia]. }
  cbn [add_entries] in H. destruct (encoder_charge_bytes e (len k)) as [e0| |] eqn:Hc; [|done..].
  apply encoder_charge_bytes_Ok in Hc as [Ho0 Hr0]. destruct (_ <=? _) eqn:Hlim; [done|]. b2p.
  assert (placed (len (objects e)) [EncodedObject.String k]
            (fun os => repr os (Value.String k) (len (objects e)))) as Hkp.
  { intros pre post Hl. constructor; [lia|]. apply (placed_here _ _ []); [lia|done]. }
  assert (grown e0 (push_object e0 (EncodedObject.String k)) [EncodedObject.String k]) as Gk.
  { apply grown_push; [done|done|]. exists (Value.String k). split; [done|]. by rewrite Ho0. }
  set (ek := push_object e0 (EncodedObject.String k)) in *.
  assert (len (objects ek) = len (objects e) + 1) as Hlenk
    by (cbn; rewrite length_app, Ho0; cbn; lia).
  destruct (add d ek v) as [[c e1]| |] eqn:Ha; [|done..].
  destruct (Hv _ _ _ _ Hd Ha) as [-> [n1 A]]. pose proof (added_grows _ _ _ _ _ A) as Hlen1.
  destruct A as [G1 Sz1 R1 D1 Y1 C1 W1]. cbn [snd] in *.
  destruct (IH _ _ _ _ _ _ H) as (kids & ids & n2 & -> & -> & G2 & Sz2 & Y2 & P2 & B2 & D2 & C2 & W2).
  assert (grown e e0 []) as G0.
  { split; [by rewrite Ho0, app_nil_r|rewrite Ho0; lia|by rewrite Ho0|by rewrite Hr0|constructor]. }
  pose proof (grown_trans _ _ _ _ _ G0 (grown_trans _ _ _ _ _ Gk (grown_trans _ _ _ _ _ G1 G2))) as G.
  exists (len (objects e0) :: kids), (len (objects ek) :: ids), (EncodedObject.String k :: n1 ++ n2).
  assert (len (objects e') = len (objects e1) + len n2) as Hlen2
    by (destruct G2 as [-> _ _ _ _]; rewrite length_app; lia).
  assert (placed (len (objects e)) (EncodedObject.String k :: n1 ++ n2)
    (fun os => Forall2 (fun kv k => len (objects e1) <= k /\ repr os (Value.String (fst kv)) k) kvs kids /\
         Forall2 (fun kv c => len (objects e1) <= c /\ repr os (snd kv) c) kvs ids)) as Hp.
  { apply (placed_right _ (EncodedObject.String k :: n1) n2). cbn [length].
    replace (len (objects e) + Z.of_nat (S (length n1))) with (len (objects e1)) by lia. done. }
  assert (placed (len (objects e)) (EncodedObject.String k :: n1 ++ n2)
    (fun os => repr os v (len (objects ek)))) as Hpv.
  { apply (placed_right _ [EncodedObject.String k]). cbn [length]. apply placed_left.
    replace (len (objects e) + Z.of_nat 1) with (len (objects ek)) by lia. done. }
  split_and!; try (by rewrite <- app_assoc).
  - done.
  - cbn in Sz1, Sz2 |- *. rewrite length_app, Sz1, Sz2. done.
  - change (payload <$> EncodedObject.String k :: n1 ++ n2) with (text_bytes k :: (payload <$> n1 ++ n2)).
    cbn [concat]. rewrite length_app, Nat2Z.inj_add, len_concat_app. cbn [fold_right fst snd]. lia.
  - intros pre post Hl. destruct (Hp pre post Hl) as [Hp1 Hp2]. split; constructor.
    + rewrite Ho0. split; [lia|]. apply (placed_left _ [EncodedObject.String k] (n1 ++ n2) _ Hkp); done.
    + eapply Forall2_impl; [exact Hp1|]. cbn. intros ? ? [? ?]. split; [lia|done].
    + split; [lia|]. by apply Hpv.
    + eapply Forall2_impl; [exact Hp2|]. cbn. intros ? ? [? ?]. split; [lia|done].
  - pose proof (size_pos v). rewrite <- app_comm_cons. apply Forall_app in B2 as [B2k B2c]. constructor; [rewrite Ho0; lia|].
    apply Forall_app. split; [done|]. constructor; [lia|done].
  - by constructor.
  - cbn [fmap list_fmap concat refs app]. change (list_fmap _ _ refs (n1 ++ n2)) with (refs <$> n1 ++ n2).
    rewrite len_concat_app. cbn in C1. lia.
  - intros Hw. apply Forall_cons in Hw as [[Hw0 Hw1] Hw2]. constructor; [done|]. apply Forall_app. auto.
Qed.

(** Adding a value that has no parts. *)
Lemma added_leaf d e e1 v o :
  0 <= d <= Z.of_nat MAX_DEPTH -> len (objects e) < MAX_OBJECTS ->
  objects e1 = objects e ++ [EncodedObject.Null] -> enc_references e1 = enc_references e ->
  (forall os i, 0 <= i -> os !! Z.to_nat i = Some o -> repr os v i) ->
  refs o = [] -> size v = 1%nat -> height v = 0%nat -> length (payload o) = vbytes v ->
  (value_wf v -> object_wf o) ->
  exists e', set_object e1 (len (objects e)) o = Ok e' /\ added d e v e' [o].
Proof.
  intros Hd Hlim He1 Hr1 Hrepr Hrefs Hsize Hheight Hbytes Hwf.
  apply (added_wrap d e e1 e1 v o []); try done; try lia.
  - apply grown_refl.
  - intros pre post Hl. apply Hrepr; [lia|]. apply (placed_here _ _ []); [lia|done].
  - by rewrite Hrefs.
  - cbn. lia.
  - rewrite Hrefs. cbn. lia.
  - intros Hv. split; [auto|done].
Qed.

Lemma fold_wf_values vs : fold_right (fun v P => value_wf v /\ P) True vs -> Forall value_wf vs.
Proof. induction vs as [|v vs IH]; cbn; [done|]. intros [? ?]. auto. Qed.

Lemma fold_wf_entries (kvs : list (bytes * Value.t)) :
  fold_right (fun kv P => text_wf (fst kv) /\ value_wf (snd kv) /\ P) True kvs ->
  Forall (fun kv => text_wf (fst kv) /\ value_wf (snd kv)) kvs.
Proof. induction kvs as [|v vs IH]; cbn; [done|]. intros (? & ? & ?). auto. Qed.

Lemma height_bound {A} (f : A -> nat) (l : list A) d :
  0 <= d <= Z.of_nat MAX_DEPTH ->
  Forall (fun x => d + 1 + Z.of_nat (f x) <= Z.of_nat MAX_DEPTH) l ->
  d + Z.of_nat (fold_right (fun x n => Nat.max (S (f x)) n) 0%nat l) <= Z.of_nat MAX_DEPTH.
Proof. intros Hd. induction 1 as [|x l Hx _ IH]; cbn [fold_right]; lia. Qed.

Lemma add_added_array vs : Forall add_ok vs -> add_ok (Value.Array vs).
Proof.
  intros IH d e c e' Hd H. cbn [add] in H.
  destruct (_ || _) eqn:Hg; [done|]. apply orb_false_iff in Hg as [Hg1 Hg2].
  apply Z.ltb_ge in Hg1. apply Z.leb_gt in Hg2. cbn beta zeta in H.
  destruct (charge_references _ _) as [e0| |] eqn:Hc; [|done..].
  apply charge_references_Ok in Hc as (Ho & Hr & Hm).
  destruct (add_values _ _ _ _) as [[cs e1]| |] eqn:Hl; [|done..].
  destruct (add_values_ok (d + 1) vs ltac:(lia) IH _ _ _ _ Hl)
    as (ids & news & -> & G & Sz & Y & P & B & D & C & W).
  assert (len (objects e0) = len (objects e) + 1) as Hlen0
    by (rewrite Ho; cbn; rewrite length_app; cbn; lia).
  assert (length ids = length vs) as Hids.
  { destruct (P (objects e0) [] eq_refl) as [|]; [done|]. cbn. f_equal. symmetry. by eapply Forall2_length. }
  edestruct (added_wrap d e e0 e1 (Value.Array vs) (EncodedObject.Array ids) news)
    as (e2 & Hs & Ha); try done.
  - intros pre post Hl'. apply (repr_array _ _ ids); [lia|by apply placed_here; [lia|]|].
    assert (placed (len (objects e)) (EncodedObject.Array ids :: news)
      (fun os => Forall2 (fun v c => len (objects e0) <= c /\ repr os v c) vs ids)) as Hp
      by (apply (placed_right _ [_]); change (len [_]) with 1; by rewrite <- Hlen0).
    eapply Forall2_impl; [by apply Hp|]. cbn. intros ? ? [? ?]. split; [lia|done].
  - cbn. lia.
  - cbn [height]. by apply height_bound.
  - rewrite C, Hr. cbn. rewrite Hids. lia.
  - intros Hv. split; [done|]. apply W. by apply fold_wf_values.
  - cbn [app] in H. rewrite Hs in H. simplify_eq. eauto.
Qed.

Lemma add_added_dictionary kvs :
  Forall (fun kv => add_ok (snd kv)) kvs -> add_ok (Value.Dictionary kvs).
Proof.
  intros IH d e c e' Hd H. cbn [add] in H.
  destruct (_ || _) eqn:Hg; [done|]. apply orb_false_iff in Hg as [Hg1 Hg2].
  apply Z.ltb_ge in Hg1. apply Z.leb_gt in Hg2. cbn beta zeta in H.
  destruct (checked_mul 64 (len kvs) 2) as [n|] eqn:Hmul; [|done]. apply checked_mul_Some in Hmul as [-> _].
  cbn [ok_or] in H. destruct (charge_references _ _) as [e0| |] eqn:Hc; [|done..].
  apply charge_references_Ok in Hc as (Ho & Hr & Hm).
  destruct (add_entries _ _ _ _ _) as [[[ks cs] e1]| |] eqn:Hl; [|done..].
  destruct (add_entries_ok (d + 1) kvs ltac:(lia) IH _ _ _ _ _ _ Hl)
    as (kids & ids & news & -> & -> & G & Sz & Y & P & B & D & C & W).
  assert (len (objects e0) = len (objects e) + 1) as Hlen0
    by (rewrite Ho; cbn; rewrite length_app; cbn; lia).
  destruct (P (objects e0) [] eq_refl) as [P1 P2].
  apply Forall2_length in P1, P2.
  edestruct (added_wrap d e e0 e1 (Value.Dictionary kvs) (EncodedObject.Dictionary kids ids) news)
    as (e2 & Hs & Ha); try done.
  - intros pre post Hl'.
    assert (placed (len (objects e)) (EncodedObject.Dictionary kids ids :: news)
      (fun os => Forall2 (fun kv k => len (objects e0) <= k /\ repr os (Value.String (fst kv)) k) kvs kids /\
         Forall2 (fun kv c => len (objects e0) <= c /\ repr os (snd kv) c) kvs ids)) as Hp
      by (apply (placed_right _ [_]); change (len [_]) with 1; by rewrite <- Hlen0).
    destruct (Hp pre post Hl') as [Q1 Q2].
    apply (repr_dictionary _ _ kids ids); [lia|by apply placed_here; [lia|]| |].
    + eapply Forall2_impl; [exact Q1|]. cbn. intros ? ? [? ?]. split; [lia|done].
    + eapply Forall2_impl; [exact Q2|]. cbn. intros ? ? [? ?]. split; [lia|done].
  - by rewrite Sz.
  - cbn [height]. by apply height_bound.
  - rewrite C, Hr. cbn. rewrite length_app. lia.
  - intros Hv. split; [cbn; congruence|]. apply W. apply fold_wf_entries, Hv.
  - cbn [app] in H. rewrite Hs in H. simplify_eq. eauto.
Qed.

Lemma add_added v : add_ok v.
Proof.
  induction v as [|b|i|dt|st|vs IH|kvs IH] using value_ind';
    [intros d e c e' Hd H; cbn [add] in H..|by apply add_added_array|by apply add_added_dictionary];
    (destruct (_ || _) eqn:Hg; [done|]); apply orb_false_iff in Hg as [Hg1 Hg2];
    apply Z.ltb_ge in Hg1; apply Z.leb_gt in Hg2; cbn beta zeta in H.
  - edestruct (added_leaf d e (push_object e EncodedObject.Null) Value.Null EncodedObject.Null)
      as (e2 & Hs & Ha); try done; [by constructor|]. rewrite Hs in H. simplify_eq. eauto.
  - edestruct (added_leaf d e (push_object e EncodedObject.Null) (Value.Boolean b)
      (EncodedObject.Boolean b)) as (e2 & Hs & Ha); try done; [by constructor|].
    rewrite Hs in H. simplify_eq. eauto.
  - destruct (_ || _) eqn:Hi in H; [done|]. b2p.
    edestruct (added_leaf d e (push_object e EncodedObject.Null) (Value.Integer i)
      (EncodedObject.Integer i)) as (e2 & Hs & Ha); try done; [by constructor|].
    rewrite Hs in H. simplify_eq. eauto.
  - destruct (encoder_charge_bytes _ _) as [e1| |] eqn:Hc; [|done..].
    apply encoder_charge_bytes_Ok in Hc as [Ho Hr].
    edestruct (added_leaf d e e1 (Value.Data dt) (EncodedObject.Data dt)) as (e2 & Hs & Ha);
      try done; [by constructor|]. rewrite Hs in H. simplify_eq. eauto.
  - destruct (encoder_charge_bytes _ _) as [e1| |] eqn:Hc; [|done..].
    apply encoder_charge_bytes_Ok in Hc as [Ho Hr].
    edestruct (added_leaf d e e1 (Value.String st) (EncodedObject.String st)) as (e2 & Hs & Ha);
      try done; [by constructor|]. rewrite Hs in H. simplify_eq. eauto.
Qed.

Lemma add_nonempty v top e : add 0 (mkEncoder [] 0 0) v = Ok (top, e) -> objects e <> [].
Proof.
  intros H. destruct (add_added v 0 _ _ _ ltac:(lia) H) as [_ [news A]].
  pose proof (size_pos v) as Hs. destruct A as [[Ho _ _ _ _] Hsz _ _ _ _ _]. rewrite Ho. cbn.
  destruct news; [cbn in *; lia|done].
Qed.

(** The whole document. *)
Definition table_start (n : nat) (os : list EncodedObject.t) : Z :=
  8 + len (concat (object_bytes n <$> os)).

Definition document (os : list EncodedObject.t) (top : Z) : bytes :=
  let n := width_of (len os - 1) in
  let start := table_start n os in
  let w := width_of start in
  HEADER ++ concat (object_bytes n <$> os) ++
  reference_bytes w (offsets_from 8 (object_bytes n <$> os)) ++
  replicate 6 0 ++ [Z.of_nat w; Z.of_nat n] ++
  be_bytes 8 (len os) ++ be_bytes 8 top ++ be_bytes 8 start.

Lemma encode_layout v bs :
  encode v = Ok bs ->
  exists top e, add 0 (mkEncoder [] 0 0) v = Ok (top, e) /\ objects e <> [] /\
    bs = document (objects e) top /\ len bs <= MAX_PLIST_SIZE.
Proof.
  intros H. unfold encode in H.
  destruct (add 0 (mkEncoder [] 0 0) v) as [[top e]| |] eqn:Hadd; [|done..].
  exists top, e. split; [done|].
  assert (objects e <> []) as Hne by by eapply add_nonempty.
  assert (1 <= len (objects e)) as Hlen1 by (destruct (objects e); [done|cbn; lia]).
  split; [done|]. unfold saturating_sub in H. rewrite Z.max_r in H by lia.
  destruct (try_from_u 64 (len (objects e) - 1)) as [lr|] eqn:Hlr; [|done].
  apply try_from_u_Some in Hlr as [_ ->]. cbn [ok_or] in H.
  destruct (append [] HEADER) as [o0| |] eqn:Ho0; [|done..]. apply append_Ok in Ho0 as [-> Hl0].
  change ([] ++ HEADER) with HEADER in *.
  rewrite (storage_width_nat (len (objects e) - 1)) in H by lia.
  set (n := width_of (len (objects e) - 1)) in *.
  destruct (encode_objects _ _ _) as [[offs o1]| |] eqn:Ho1; [|done..].
  apply encode_objects_Ok in Ho1 as (-> & -> & Hl1); [|done]. cbn beta iota zeta in H.
  set (body := HEADER ++ concat (object_bytes n <$> objects e)) in *.
  destruct (try_from_u 64 (len body)) as [tb|] eqn:Htb; [|done].
  apply try_from_u_Some in Htb as [_ ->]. cbn [ok_or] in H.
  rewrite (storage_width_nat (len body)) in H by lia. set (w := width_of (len body)) in *.
  destruct (foldM _ body _) as [o2| |] eqn:Ho2; [|done..].
  apply (foldM_write _ (be_bytes w)) in Ho2 as [-> Hl2]; [| |done].
  2:{ intros out x o' Hx. inv_ok Hx. apply ok_or_Some, try_from_u_Some in Hr as [_ ->].
      by apply append_be_Ok in Hx as (_ & Hx). }
  inv_ok H.
  repeat match goal with
  | Hx : ok_or (try_from_u _ _) _ = Ok _ |- _ => apply ok_or_Some, try_from_u_Some in Hx as [_ ->]
  | Hx : push _ _ = Ok _ |- _ => apply push_Ok in Hx as [-> _]
  | Hx : append_be _ _ 8 = Ok _ |- _ => apply (append_be_Ok _ _ 8) in Hx as (_ & -> & ?)
  | Hx : append _ _ = Ok _ |- _ => apply append_Ok in Hx as [-> _]
  end.
  split; [|done]. unfold document, table_start. fold n.
  assert (8 + len (concat (object_bytes n <$> objects e)) = len body) as ->
    by (unfold body; rewrite length_app; cbn [HEADER length]; lia).
  fold w. unfold body, reference_bytes. by rewrite <- !app_assoc.
Qed.

(** ** Reading back *)

(** The input has the bytes [l] at the position [c]. *)
Definition holds (input : bytes) (c : Z) (l : bytes) : Prop :=
  0 <= c <= len input /\ exists post, drop (Z.to_nat c) input = l ++ post.

Lemma holds_here pre l post : holds (pre ++ l ++ post) (len pre) l.
Proof.
  split; [rewrite length_app; lia|]. exists post. by rewrite Nat2Z.id, drop_app_length.
Qed.

Lemma holds_len input c l : holds input c l -> c + len l <= len input.
Proof.
  intros [Hc [post H]]. apply (f_equal length) in H. rewrite length_drop, length_app in H. lia.
Qed.

Lemma holds_behind input c l1 l2 : holds input c (l1 ++ l2) -> holds input (c + len l1) l2.
Proof.
  intros Hh. pose proof (holds_len _ _ _ Hh) as Hlen. rewrite length_app in Hlen.
  destruct Hh as [Hc [post H]]. split; [lia|]. exists post.
  replace (Z.to_nat (c + len l1)) with (Z.to_nat c + length l1)%nat by lia.
  by rewrite <- drop_drop, H, <- app_assoc, drop_app_length.
Qed.

Lemma holds_prefix input c l1 l2 : holds input c (l1 ++ l2) -> holds input c l1.
Proof. intros [Hc [post H]]. split; [done|]. exists (l2 ++ post). by rewrite app_assoc. Qed.

Lemma read_byte_at input c end_ b l :
  holds input c (b :: l) -> c < end_ -> read_byte input c end_ = Ok (b, c + 1).
Proof.
  intros [Hc [post H]] He. unfold read_byte.
  assert (input !! Z.to_nat c = Some b) as ->.
  { rewrite <- (Nat.add_0_r (Z.to_nat c)), <- lookup_drop, H. done. }
  by replace (c <? end_) with true by lia.
Qed.

Lemma take_at input c end_ l1 l2 n :
  holds input c (l1 ++ l2) -> n = len l1 -> c + n <= end_ -> len input <= MAX_PLIST_SIZE ->
  take_bytes input c end_ n = Ok (l1, c + n).
Proof.
  intros Hh -> He Hm. pose proof (holds_len _ _ _ Hh) as Hlen. rewrite length_app in Hlen.
  destruct Hh as [Hc [post H]]. unfold take_bytes.
  rewrite checked_add_ok by (unfold MAX_PLIST_SIZE, umax in *; lia).
  replace (end_ <? _) with false by lia. replace (_ && _) with true by lia.
  by rewrite H, <- app_assoc, take_app_length' by lia.
Qed.

Lemma le_val_snoc l b : le_val (l ++ [b]) = le_val l + 256 ^ len l * b.
Proof.
  induction l as [|x l IH]; cbn [app]; rewrite !le_val_cons; [change (le_val []) with 0; cbn; lia|].
  rewrite IH. cbn [length]. rewrite Nat2Z.inj_succ, Z.pow_succ_r by lia. lia.
Qed.

Lemma be_val_cons b l : be_val (b :: l) = b * 256 ^ len l + be_val l.
Proof. unfold be_val. cbn [rev]. rewrite le_val_snoc, length_rev. lia. Qed.

Lemma lor_low v b : 0 <= b < 256 -> Z.lor (v * 256) b = v * 256 + b.
Proof.
  intros Hb. replace (v * 256) with (Z.shiftl v 8) by (rewrite Z.shiftl_mul_pow2; lia).
  assert (Z.land (Z.shiftl v 8) b = 0) as H0.
  { apply Z.bits_inj'. intros n Hn. rewrite Z.land_spec, Z.bits_0.
    destruct (Z.lt_ge_cases n 8); [by rewrite Z.shiftl_spec_low|].
    rewrite <- (Z.mod_small b (2 ^ 8)) by (change (2 ^ 8) with 256; lia).
    rewrite Z.mod_pow2_bits_high by lia. apply andb_false_r. }
  rewrite Z.add_nocarry_lxor by done. by rewrite Z.lxor_lor.
Qed.

Lemma fold_be (bs : bytes) : bytes_ok bs -> forall (k : nat) v, (k + length bs <= 8)%nat -> is_u (8 * Z.of_nat k) v ->
  fold_left (fun value byte => Z.lor (Z.shiftl value 8 mod 2 ^ 64) byte) bs v = v * 256 ^ len bs + be_val bs.
Proof.
  induction 1 as [|b bs Hb _ IH]; intros k v Hk Hv; cbn [fold_left length].
  { change (be_val []) with 0. cbn. lia. }
  assert (is_u (8 * Z.of_nat (S k)) (v * 256 + b)) as Hv'.
  { unfold is_u in *. change (2 ^ 8) with 256 in Hb. rewrite pow256_succ. lia. }
  assert (v * 256 < 2 ^ 64) as Hlt.
  { unfold is_u in Hv'. change (2 ^ 8) with 256 in Hb. cbn [length] in Hk.
    assert (2 ^ (8 * Z.of_nat (S k)) <= 2 ^ 64) by (apply Z.pow_le_mono_r; lia). unfold is_u in Hb. lia. }
  rewrite Z.shiftl_mul_pow2 by lia. change (2 ^ 8) with 256. unfold is_u in Hb, Hv.
  rewrite Z.mod_small by lia. rewrite lor_low by done.
  rewrite (IH (S k)) by (done || (cbn [length] in Hk; lia)). rewrite be_val_cons.
  rewrite Nat2Z.inj_succ, Z.pow_succ_r by lia. lia.
Qed.

Lemma read_be_u64_ok bs : bytes_ok bs -> (1 <= length bs <= 8)%nat -> read_be_u64 bs = Ok (be_val bs).
Proof.
  intros Hok Hl. unfold read_be_u64. destruct bs as [|b bs]; [cbn in Hl; lia|].
  rewrite bool_decide_eq_false_2 by done. replace (8 <? _) with false by lia. cbn [orb].
  rewrite (fold_be _ Hok 0 0); [f_equal; lia|lia|]. unfold is_u. cbn. lia.
Qed.

(** The width that the marker of a stored integer gives. *)
Lemma width_marker v :
  0 <= v -> let m := Z.lor 16 (Z.log2 (integer_storage_width v)) in
  Z.land m 240 = 16 /\ (m =? 0) = false /\ (m =? 8) || (m =? 9) = false /\
  integer_width (Z.land m 15) = Ok (Z.of_nat (width_of v)) /\
  (width_of v = 1 \/ width_of v = 2 \/ width_of v = 4 \/ width_of v = 8)%nat.
Proof.
  intros Hv m. unfold m, width_of.
  destruct (storage_width_cases v Hv) as [[-> _]|[[-> _]|[[-> _]|[-> _]]]]; cbn; split_and!; auto.
Qed.

Lemma be_val_width v : is_u 64 v -> be_val (be_bytes (width_of v) v) = v.
Proof. intros Hv. apply be_val_bytes. by apply width_fits. Qed.

(** An integer reads back. *)
Lemma integer_bytes_read v :
  I64_MIN <= v <= umax 64 ->
  exists m body, integer_bytes v = m :: body /\ Z.land m 240 = 16 /\ (m =? 0) = false /\
    (m =? 8) || (m =? 9) = false /\
    integer_width (Z.land m 15) = Ok (len body) /\ decode_integer body = Ok v.
Proof.
  unfold I64_MIN, umax. intros Hv. unfold integer_bytes. destruct (v <? 0) eqn:Hneg; b2p.
  { eexists _, _. split_and!; [done..| |].
    - by rewrite length_be_bytes.
    - unfold decode_integer. rewrite length_be_bytes. rewrite be_val_bytes.
      + unfold signed. change (64 - 1) with 63.
        rewrite <- (Z.mod_add v 1 (2 ^ 64)), Z.mod_small by lia.
        replace (_ <? 2 ^ 63) with false by lia. f_equal. lia.
      + apply Z.mod_pos_bound. lia. }
  assert (is_u 64 v) as Hu by (unfold is_u; lia).
  destruct (integer_storage_width v =? 8) eqn:Hw; b2p.
  - destruct (v <? 2 ^ 63) eqn:H63.
    + eexists _, _. split_and!; [done..| |].
      * by rewrite length_be_bytes.
      * unfold decode_integer. rewrite length_be_bytes, be_val_bytes by done. unfold signed.
        change (64 - 1) with 63. by rewrite H63.
    + eexists _, _. split_and!; [done..| |].
      * by rewrite length_app, length_be_bytes.
      * unfold decode_integer. rewrite length_app, length_be_bytes.
        change (length (replicate 8 0) + 8)%nat with 16%nat.
        assert (be_val (replicate 8 0 ++ be_bytes 8 v) = v) as ->.
        { cbn [replicate app]. rewrite !be_val_cons, be_val_bytes by done. lia. }
        unfold signed. replace (v <? 2 ^ (128 - 1)) with true by (symmetry; apply Z.ltb_lt; cbn; lia).
        unfold I64_MIN, umax. replace (_ || _) with false by lia. done.
  - destruct (width_marker v ltac:(lia)) as (H1 & H2 & H3 & H4 & H5). eexists _, _. split_and!; [done..| |].
    + by rewrite length_be_bytes.
    + unfold decode_integer. rewrite length_be_bytes.
      assert (width_of v <> 8%nat) as H8.
      { unfold width_of. destruct (storage_width_cases v ltac:(lia)) as [[E _]|[[E _]|[[E _]|[E _]]]];
          rewrite E in *; cbn; lia. }
      assert (read_be_u64 (be_bytes (width_of v) v) = Ok v) as Hr.
      { rewrite read_be_u64_ok; [by rewrite be_val_width|apply be_bytes_ok|rewrite length_be_bytes; lia]. }
      destruct H5 as [E|[E|[E|E]]]; rewrite E in *; done.
Qed.

(** The markers of lengths. *)
Definition length_marker (marker : Z) : Prop := marker ∈ [0x40; 0x50; 0x60; 0xa0; 0xd0].

Lemma length_marker_low marker n :
  length_marker marker -> 0 <= n <= 15 ->
  Z.land (Z.lor marker n) 240 = marker /\ Z.land (Z.lor marker n) 15 = n /\
  (Z.lor marker n =? 0) = false /\ (Z.lor marker n =? 8) || (Z.lor marker n =? 9) = false.
Proof.
  intros Hm Hn.
  assert (forallb (fun m => forallb (fun n =>
      (Z.land (Z.lor m n) 240 =? m) && (Z.land (Z.lor m n) 15 =? n) && negb (Z.lor m n =? 0) &&
      negb ((Z.lor m n =? 8) || (Z.lor m n =? 9))) (Z.of_nat <$> seq 0 16))
    [0x40; 0x50; 0x60; 0xa0; 0xd0] = true) as H by (vm_compute; done).
  rewrite forallb_forall in H. specialize (H marker ltac:(by apply list_elem_of_In)).
  rewrite forallb_forall in H. specialize (H n). rewrite !andb_true_iff, !negb_true_iff, !Z.eqb_eq in H.
  destruct H as [[[H1 H2] H3] H4]; [|done].
  apply list_elem_of_In, list_elem_of_fmap. exists (Z.to_nat n). split; [lia|]. apply elem_of_seq. lia.
Qed.

(** A length reads back. *)
Lemma length_bytes_read marker n input c end_ l :
  length_marker marker -> 0 <= n <= MAX_PLIST_SIZE -> len input <= MAX_PLIST_SIZE ->
  holds input c (length_bytes marker n ++ l) -> c + len (length_bytes marker n) <= end_ ->
  exists m, read_byte input c end_ = Ok (m, c + 1) /\ Z.land m 240 = marker /\ (m =? 0) = false /\
    (m =? 8) || (m =? 9) = false /\
    read_length input (c + 1) end_ (Z.land m 15) = Ok (n, c + len (length_bytes marker n)).
Proof.
  intros Hmk Hn Hin Hh He. unfold length_bytes in *. destruct (n <? 15) eqn:H15; b2p.
  - destruct (length_marker_low marker n Hmk ltac:(lia)) as (H1 & H2 & H3 & H4).
    exists (Z.lor marker n). split_and!; try done.
    + eapply read_byte_at; [exact Hh|cbn in He; lia].
    + rewrite H2. unfold read_length. replace (n <? 15) with true by lia. done.
  - destruct (length_marker_low marker 15 Hmk ltac:(lia)) as (H1 & H2 & H3 & H4).
    destruct (width_marker n ltac:(lia)) as (W1 & _ & _ & W4 & W5).
    set (m2 := Z.lor 16 _) in *.
    assert (is_u 64 n) as Hu by (unfold is_u, MAX_PLIST_SIZE in *; lia).
    cbn [length] in He. rewrite length_be_bytes in He.
    exists (Z.lor marker 15). split_and!; try done.
    + eapply read_byte_at; [exact Hh|lia].
    + rewrite H2. unfold read_length. change (15 <? 15) with false.
      pose proof (holds_behind _ _ [_] _ Hh) as Hh1. change (len [_]) with 1 in Hh1.
      rewrite (read_byte_at _ _ _ _ _ Hh1) by lia. rewrite W1. cbn [Z.eqb Pos.eqb negb]. rewrite W4.
      replace (8 <? _) with false by lia.
      pose proof (holds_behind _ _ [_] _ Hh1) as Hh2. change (len [_]) with 1 in Hh2.
      rewrite (take_at _ _ _ _ _ _ Hh2); [|by rewrite length_be_bytes|lia|done].
      rewrite read_be_u64_ok, be_val_width; [|done|apply be_bytes_ok|rewrite length_be_bytes; lia].
      unfold usize_from_u64. rewrite try_from_ok by done.
      replace (_ <? n) with false by (unfold MAX_REFERENCES, MAX_PLIST_SIZE in *; lia).
      f_equal. f_equal. cbn [length]. rewrite length_be_bytes. lia.
Qed.

Lemma chunks_be (n : nat) vs :
  (0 < n)%nat -> chunks n (concat (be_bytes n <$> vs)) = be_bytes n <$> vs.
Proof.
  intros Hn. apply chunks_concat; [done|]. apply Forall_forall. intros x (v & -> & _)%list_elem_of_fmap.
  apply length_be_bytes.
Qed.

Lemma len_be_concat (n : nat) vs : len (concat (be_bytes n <$> vs)) = len vs * Z.of_nat n.
Proof.
  induction vs as [|v vs IH]; [done|]. cbn [fmap list_fmap concat].
  rewrite length_app, length_be_bytes. change (list_fmap _ _ (be_bytes n) vs) with (be_bytes n <$> vs).
  cbn [length]. lia.
Qed.

Lemma read_references_at input c end_ rs (n : nat) count l :
  (1 <= n <= 8)%nat -> len rs <= MAX_REFERENCES -> len input <= MAX_PLIST_SIZE ->
  Forall (fun r => 0 <= r < count /\ is_u (8 * Z.of_nat n) r) rs ->
  holds input c (reference_bytes n rs ++ l) -> c + len (reference_bytes n rs) <= end_ ->
  read_references input c end_ (len rs) (Z.of_nat n) count = Ok (rs, c + len (reference_bytes n rs)).
Proof.
  intros Hn Hlen Hin Hrs Hh He. unfold read_references, reference_bytes in *.
  replace (_ <? len rs) with false by lia.
  rewrite checked_mul_ok by (unfold MAX_REFERENCES, umax in *; nia).
  rewrite (take_at _ _ _ _ _ _ Hh); [|by rewrite len_be_concat|by rewrite len_be_concat in He|done].
  rewrite Nat2Z.id, chunks_be by lia. rewrite len_be_concat.
  assert (forall acc, foldM (fun references raw =>
      let! value := read_be_u64 raw in
      let! reference := usize_from_u64 value in
      if count <=? reference then Err Malformed else Ok (references ++ [reference]))
      acc (be_bytes n <$> rs) = Ok (acc ++ rs)) as ->; [|done].
  clear -Hrs Hn. induction Hrs as [|r rs [Hr Hu] _ IH]; intros acc; [by rewrite app_nil_r|].
  change (be_bytes n <$> r :: rs) with (be_bytes n r :: (be_bytes n <$> rs)). cbn [foldM].
  rewrite read_be_u64_ok; [|apply be_bytes_ok|by rewrite length_be_bytes].
  rewrite be_val_bytes by done. unfold usize_from_u64.
  rewrite try_from_ok by (eapply is_u_weaken; [|exact Hu]; lia).
  replace (count <=? r) with false by lia. by rewrite IH, <- app_assoc.
Qed.

Lemma utf16_units_bytes us : Forall (is_u 16) us -> utf16_units (unit_bytes us) = us.
Proof.
  intros Hus. unfold utf16_units, unit_bytes. rewrite chunks_be by lia.
  induction Hus as [|u us Hu _ IH]; [done|]. cbn. f_equal; [by apply be_val_bytes|exact IH].
Qed.

(** What scanning an object finds. *)
Definition scanned_of (o : EncodedObject.t) : ScannedObject :=
  match o with
  | EncodedObject.Null => mkScanned ObjectKind.Null [] 0
  | EncodedObject.Boolean _ => mkScanned ObjectKind.Boolean [] 0
  | EncodedObject.Integer _ => mkScanned ObjectKind.Integer [] 0
  | EncodedObject.Data _ => mkScanned ObjectKind.Data [] 0
  | EncodedObject.String _ => mkScanned ObjectKind.String [] 0
  | EncodedObject.Array rs => mkScanned ObjectKind.Array rs 0
  | EncodedObject.Dictionary ks vs => mkScanned ObjectKind.Dictionary (ks ++ vs) (len ks)
  end.

Lemma length_bytes_after marker n input c end_ l :
  holds input c (length_bytes marker n ++ l) -> end_ = c + len (length_bytes marker n ++ l) ->
  len input <= MAX_PLIST_SIZE ->
  holds input (c + len (length_bytes marker n)) (l ++ []) /\
  c + len (length_bytes marker n) <= end_ /\ end_ = c + len (length_bytes marker n) + len l /\
  len l <= MAX_PLIST_SIZE.
Proof.
  intros Hh -> Hin. pose proof (holds_len _ _ _ Hh) as Hl. pose proof (holds_behind _ _ _ _ Hh) as Hh1.
  rewrite app_nil_r. destruct Hh as [Hc _]. rewrite length_app in *. split_and!; try lia. done.
Qed.

Lemma scan_object_at input c end_ (n : nat) count o :
  (1 <= n <= 8)%nat -> len input <= MAX_PLIST_SIZE -> object_wf o -> len (refs o) <= MAX_REFERENCES ->
  Forall (fun r => 0 <= r < count /\ is_u (8 * Z.of_nat n) r) (refs o) ->
  holds input c (object_bytes n o) -> end_ = c + len (object_bytes n o) ->
  scan_object input c end_ (Z.of_nat n) count = Ok (scanned_of o).
Proof.
  intros Hn Hin Hwf Hlim Hrefs Hh Hend. unfold scan_object.
  destruct o as [|b|v|d|s|rs|ks vs]; cbn [object_bytes object_wf refs scanned_of] in *.
  - subst end_. rewrite (read_byte_at _ _ _ _ _ Hh) by (cbn; lia). cbn. by rewrite Z.eqb_refl.
  - subst end_. rewrite (read_byte_at _ _ _ _ _ Hh) by (cbn; lia). destruct b; cbn; by rewrite Z.eqb_refl.
  - destruct (integer_bytes_read v Hwf) as (m & body & Hb & H1 & H2 & H3 & H4 & H5).
    rewrite Hb in *. cbn [length] in *.
    rewrite (read_byte_at _ _ _ _ _ Hh) by lia. rewrite H1, H2, H3, H4. cbn [Z.eqb Pos.eqb].
    pose proof (holds_behind _ _ [_] _ Hh) as Hh1. change (len [_]) with 1 in Hh1.
    rewrite <- (app_nil_r body) in Hh1. rewrite (take_at _ _ _ _ _ _ Hh1) by (done || lia). rewrite H5.
    by replace (negb _) with false by lia.
  - destruct (length_bytes_after _ _ _ _ _ _ Hh Hend Hin) as (Hh1 & E1 & E2 & E3).
    destruct (length_bytes_read 64 (len d) input c end_ d) as (m & R & H1 & H2 & H3 & RL);
      [by left|lia|done|done|done|]. rewrite R, H1, H2, H3. cbn [Z.eqb Pos.eqb]. rewrite RL.
    rewrite (take_at _ _ _ _ _ _ Hh1) by (done || lia). by replace (negb _) with false by lia.
  - destruct (Text.is_ascii s) eqn:Hasc.
    + destruct (length_bytes_after _ _ _ _ _ _ Hh Hend Hin) as (Hh1 & E1 & E2 & E3).
      destruct (length_bytes_read 80 (len s) input c end_ s) as (m & R & H1 & H2 & H3 & RL);
        [by right; left|lia|done|done|done|]. rewrite R, H1, H2, H3. cbn [Z.eqb Pos.eqb]. rewrite RL.
      rewrite (take_at _ _ _ _ _ _ Hh1) by (done || lia). rewrite Hasc. cbn [negb].
      by replace (negb _) with false by lia.
    + destruct (length_bytes_after _ _ _ _ _ _ Hh Hend Hin) as (Hh1 & E1 & E2 & E3).
      set (us := Text.encode_utf16 s) in *. unfold unit_bytes in E2, E3. rewrite len_be_concat in E2, E3.
      destruct (length_bytes_read 96 (len us) input c end_ (unit_bytes us)) as (m & R & H1 & H2 & H3 & RL);
        [by right; right; left|lia|done|done|done|]. rewrite R, H1, H2, H3. cbn [Z.eqb Pos.eqb]. rewrite RL.
      rewrite checked_mul_ok by (unfold MAX_PLIST_SIZE, umax in *; lia).
      rewrite (take_at _ _ _ _ _ _ Hh1); [|unfold unit_bytes; rewrite len_be_concat; lia|lia|done].
      unfold validate_utf16. destruct Hwf as [Hok Hv].
      rewrite utf16_units_bytes by (by apply Text.encode_utf16_units).
      assert (Text.decode_utf16 us = Some (Text.chars s)) as -> by (by apply Text.decode_encode_utf16).
      by replace (negb _) with false by lia.
  - destruct (length_bytes_after _ _ _ _ _ _ Hh Hend Hin) as (Hh1 & E1 & E2 & E3).
    destruct (length_bytes_read 160 (len rs) input c end_ (reference_bytes n rs)) as (m & R & H1 & H2 & H3 & RL);
      [by do 3 right; left|unfold MAX_PLIST_SIZE, MAX_REFERENCES in *; lia|done|done|done|].
    rewrite R, H1, H2, H3. cbn [Z.eqb Pos.eqb]. rewrite RL.
    rewrite (read_references_at _ _ _ _ _ _ [] Hn Hlim Hin Hrefs Hh1) by lia.
    by replace (negb _) with false by lia.
  - destruct (length_bytes_after _ _ _ _ _ _ Hh Hend Hin) as (Hh1 & E1 & E2 & E3).
    rewrite length_app in Hlim.
    destruct (length_bytes_read 208 (len ks) input c end_ (reference_bytes n (ks ++ vs)))
      as (m & R & H1 & H2 & H3 & RL);
      [by do 4 right; left|unfold MAX_PLIST_SIZE, MAX_REFERENCES in *; lia|done|done|done|].
    rewrite R, H1, H2, H3. cbn [Z.eqb Pos.eqb]. rewrite RL.
    rewrite checked_mul_ok by (unfold MAX_REFERENCES, umax in *; lia).
    replace (len ks * 2) with (len (ks ++ vs)) by (rewrite length_app; lia).
    rewrite (read_references_at _ _ _ _ _ _ [] Hn) by (done || (rewrite ?length_app; lia)).
    by replace (negb _) with false by lia.
Qed.

(** ** The offset table *)

Fixpoint spans (c : Z) (pieces : list bytes) : list (Z * Z) :=
  match pieces with
  | [] => []
  | p :: pieces => (c, c + len p) :: spans (c + len p) pieces
  end.

Lemma zip_spans c ps :
  zip (offsets_from c ps) (drop 1 (offsets_from c ps) ++ [c + len (concat ps)]) = spans c ps.
Proof.
  revert c. induction ps as [|p ps IH]; intros c; [done|]. cbn [offsets_from drop spans concat].
  rewrite length_app, Nat2Z.inj_add, Z.add_assoc. specialize (IH (c + len p)).
  destruct ps as [|q ps]; [cbn; by rewrite Z.add_0_r|]. cbn [offsets_from drop] in *. cbn. by f_equal.
Qed.

Lemma fst_spans c ps : fst <$> spans c ps = offsets_from c ps.
Proof. revert c. induction ps as [|p ps IH]; intros c; [done|]. cbn. f_equal. apply IH. Qed.

Lemma offsets_range c ps :
  Forall (fun p => p <> []) ps -> Forall (fun o => c <= o < c + len (concat ps)) (offsets_from c ps).
Proof.
  intros Hps. revert c. induction Hps as [|p ps Hp _ IH]; intros c; cbn [offsets_from concat]; constructor.
  - rewrite length_app. destruct p; [done|]. cbn [length]. lia.
  - eapply Forall_impl; [apply IH|]. cbn. intros o Ho. rewrite length_app. lia.
Qed.

Lemma offsets_sorted c ps : Forall (fun p => p <> []) ps -> StronglySorted Z.lt (offsets_from c ps).
Proof.
  intros Hps. revert c. induction Hps as [|p ps Hp Hps IH]; intros c; cbn [offsets_from]; constructor; [apply IH|].
  eapply Forall_impl; [by apply offsets_range|]. cbn. intros o Ho. destruct p; [done|]. cbn [length] in Ho. lia.
Qed.

Lemma sorted_lt_le l : StronglySorted Z.lt l -> StronglySorted Z.le l.
Proof.
  induction 1 as [|x l Hl IH Hx]; constructor; [done|]. eapply Forall_impl; [exact Hx|]. cbn. lia.
Qed.

Lemma sorted_not_adjacent l : StronglySorted Z.lt l -> adjacent_equal l = false.
Proof.
  induction 1 as [|x l Hl IH Hx]; [done|]. destruct l as [|y l]; [done|].
  change (adjacent_equal (x :: y :: l)) with ((x =? y) || adjacent_equal (y :: l)).
  apply Forall_cons in Hx as [Hxy _]. rewrite IH. replace (x =? y) with false by lia. done.
Qed.

Lemma sorted_nodup l : StronglySorted Z.lt l -> NoDup l.
Proof.
  induction 1 as [|x l Hl IH Hx]; constructor; [|done]. intros Hin.
  eapply Forall_forall in Hx; [|exact Hin]. cbn in Hx. lia.
Qed.

Lemma fold_insert_lookup (l : list (Z * Z)) (m : gmap Z Z) k v :
  NoDup (fst <$> l) -> (k, v) ∈ l ->
  fold_left (fun m '(o, e) => <[o := e]> m) l m !! k = Some v.
Proof.
  revert m. induction l as [|[o e] l IH]; intros m Hnd Hin; [by apply elem_of_nil in Hin|]. cbn [fold_left].
  cbn in Hnd. apply NoDup_cons in Hnd as [Hno Hnd]. apply elem_of_cons in Hin as [Heq|Hin]; [|by apply IH].
  simplify_eq. assert (forall (l : list (Z * Z)) (m : gmap Z Z), ~ o ∈ (fst <$> l) ->
    fold_left (fun m '(o, e) => <[o := e]> m) l m !! o = m !! o) as Hkeep.
  { clear. intros l. induction l as [|[o' e'] l IH]; intros m Hno; [done|]. cbn [fold_left].
    rewrite IH by (cbn in Hno; set_solver). apply lookup_insert_ne. cbn in Hno. set_solver. }
  rewrite Hkeep by done. by rewrite lookup_insert_eq.
Qed.

Lemma read_offsets_at input start (w : nat) offs :
  (1 <= w <= 8)%nat -> Forall (fun o => len HEADER <= o < start /\ is_u (8 * Z.of_nat w) o) offs ->
  holds input start (reference_bytes w offs) ->
  read_offsets input start (Z.of_nat w) (len offs) = Ok offs.
Proof.
  intros Hw Hoffs Hh. unfold read_offsets. rewrite Nat2Z.id.
  assert (forall rest acc, Forall (fun o => len HEADER <= o < start /\ is_u (8 * Z.of_nat w) o) rest ->
    holds input (start + len acc * Z.of_nat w) (reference_bytes w rest) ->
    foldM (fun offsets i =>
      let st := start + i * Z.of_nat w in
      let! raw := slice input (Z.to_nat st) (Z.to_nat (st + Z.of_nat w)) in
      let! value := read_be_u64 raw in
      let! offset := usize_from_u64 value in
      if negb ((len HEADER <=? offset) && (offset <? start)) then Err Malformed
      else Ok (offsets ++ [offset])) acc (Z.of_nat <$> seq (length acc) (length rest)) = Ok (acc ++ rest)) as Hgen.
  { clear offs Hoffs Hh. intros rest. induction rest as [|o rest IH]; intros acc Hrest Hh; [by rewrite app_nil_r|].
    cbn [seq length fmap list_fmap foldM]. cbv zeta. change (list_fmap nat Z Z.of_nat) with (fmap Z.of_nat (M := list)).
    apply Forall_cons in Hrest as [[Ho Hu] Hrest].
    change (reference_bytes w (o :: rest)) with (be_bytes w o ++ reference_bytes w rest) in Hh.
    pose proof (holds_len _ _ _ Hh) as Hl. rewrite length_app, length_be_bytes in Hl.
    set (st := start + len acc * Z.of_nat w) in *.
    assert (slice (E := Error) input (Z.to_nat st) (Z.to_nat (st + Z.of_nat w)) = Ok (be_bytes w o)) as ->.
    { destruct Hh as [Hst [post Hd]]. unfold slice.
      replace (_ && _) with true by lia. rewrite Hd, <- app_assoc, take_app_length'; [done|].
      rewrite length_be_bytes. lia. }
    rewrite read_be_u64_ok; [|apply be_bytes_ok|by rewrite length_be_bytes].
    rewrite be_val_bytes by done. unfold usize_from_u64.
    rewrite try_from_ok by (eapply is_u_weaken; [|exact Hu]; lia).
    replace (negb _) with false by lia. replace (S (length acc)) with (length (acc ++ [o])) by (rewrite length_app; cbn; lia).
    rewrite IH; [by rewrite <- app_assoc|done|]. apply holds_behind in Hh. rewrite length_be_bytes in Hh.
    replace (start + len (acc ++ [o]) * Z.of_nat w) with (st + Z.of_nat w)
      by (unfold st; rewrite length_app; cbn [length]; lia). done. }
  apply (Hgen offs []); [done|]. cbn [length]. by rewrite Z.add_0_r.
Qed.

(** ** Scanning and walking a written document *)

Lemma scan_objects_at input (n : nat) count (ends : gmap Z Z) os :
  (1 <= n <= 8)%nat -> len input <= MAX_PLIST_SIZE -> Forall object_wf os ->
  Forall (fun o => Forall (fun r => 0 <= r < count /\ is_u (8 * Z.of_nat n) r) (refs o)) os ->
  forall c acc total, 0 <= total -> total + len (concat (refs <$> os)) <= MAX_REFERENCES ->
  holds input c (concat (object_bytes n <$> os)) ->
  Forall (fun '(o, e) => ends !! o = Some e) (spans c (object_bytes n <$> os)) ->
  foldM (fun '(scanned, total_references) offset =>
      let! end_ := ok_or (ends !! offset) Malformed in
      let! object := scan_object input offset end_ (Z.of_nat n) count in
      let! total := ok_or (checked_add 64 total_references (len (children object))) LimitExceeded in
      if MAX_REFERENCES <? total then Err LimitExceeded
      else Ok (scanned ++ [object], total)) (acc, total) (offsets_from c (object_bytes n <$> os))
  = Ok (acc ++ (scanned_of <$> os), total + len (concat (refs <$> os))).
Proof.
  intros Hn Hin Hwf. induction Hwf as [|o os Ho _ IH]; intros Hrefs c acc total Ht Hlim Hh Hends.
  { cbn. by rewrite app_nil_r, Z.add_0_r. }
  change (object_bytes n <$> o :: os) with (object_bytes n o :: (object_bytes n <$> os)) in *.
  change (refs <$> o :: os) with (refs o :: (refs <$> os)) in *. cbn [concat spans offsets_from foldM] in *.
  apply Forall_cons in Hrefs as [Hr Hrefs]. apply Forall_cons in Hends as [He Hends].
  rewrite length_app in Hlim.
  assert (len (children (scanned_of o)) = len (refs o)) as Hch by (by destruct o).
  rewrite He. cbn [ok_or].
  rewrite (scan_object_at input c _ n count o) by (done || lia || by eapply holds_prefix).
  rewrite Hch, checked_add_ok by (unfold MAX_REFERENCES, umax in *; lia).
  replace (_ <? _) with false by lia.
  rewrite IH; [|done|lia|lia|by eapply holds_behind|done].
  rewrite length_app. f_equal. f_equal; [by rewrite <- app_assoc|lia].
Qed.

(** The objects a value refers to stand for values that are less deep. *)
Lemma repr_children os v i :
  repr os v i ->
  0 <= i /\ exists o, os !! Z.to_nat i = Some o /\
  Forall (fun c => i < c /\ exists v', repr os v' c /\ (height v' < height v)%nat) (refs o).
Proof.
  assert (forall i A (f : A -> Value.t) l cs (h : nat),
    Forall2 (fun x c => i < c /\ repr os (f x) c) l cs ->
    Forall (fun x => (height (f x) < h)%nat) l ->
    Forall (fun c => i < c /\ exists v', repr os v' c /\ (height v' < h)%nat) cs) as Hgen.
  { clear. intros i A f l cs h HF. induction HF as [|x c l cs [Hc Hx] _ IH]; intros Hl; constructor.
    - apply Forall_cons in Hl as [Hl _]. eauto.
    - apply Forall_cons in Hl as [_ Hl]. auto. }
  assert (forall A (f : A -> nat) (l : list A),
    Forall (fun x => (f x < fold_right (fun x n => Nat.max (S (f x)) n) 0%nat l)%nat) l) as Hmax.
  { intros A f l. induction l as [|x l IH]; cbn; constructor; [lia|].
    eapply Forall_impl; [exact IH|]. cbn. intros; lia. }
  destruct 1 as [i Hi H|b i Hi H|z i Hi H|d i Hi H|st i Hi H|vs cs i Hi H HF|kvs ks cs i Hi H HK HF];
    (split; [done|]); (eexists; split; [exact H|]); cbn [refs]; try constructor.
  - apply (Hgen i _ (fun v => v) vs); [done|]. apply (Hmax _ height).
  - apply Forall_app. split.
    + apply (Hgen i _ (fun kv => Value.String (fst kv)) kvs); [done|].
      eapply Forall_impl; [apply (Hmax _ (fun kv => height (snd kv)))|]. cbn. intros kv Hkv. lia.
    + apply (Hgen i _ snd kvs); [done|]. apply (Hmax _ (fun kv => height (snd kv))).
Qed.

Lemma children_scanned o : children (scanned_of o) = refs o.
Proof. by destruct o. Qed.

(** Walking the references ends, and finds no cycle. *)
Lemma validate_acyclic_at os : forall fuel v i colors,
  repr os v i -> (height v < fuel)%nat -> length colors = length os ->
  (forall j, (Z.to_nat i <= j)%nat -> colors !! j <> Some 1) ->
  exists colors', validate_acyclic fuel i (scanned_of <$> os) colors = Ok colors' /\
    length colors' = length os /\
    (forall j, (j < Z.to_nat i)%nat -> colors' !! j = colors !! j) /\
    (forall j, (Z.to_nat i <= j)%nat -> colors' !! j <> Some 1).
Proof.
  intros fuel. induction fuel as [|fuel IH]; intros v i colors Hr Hh Hlen Hcol; [lia|].
  destruct (repr_children _ _ _ Hr) as (Hi & o & Ho & Hch). cbn [validate_acyclic].
  assert (Z.to_nat i < length colors)%nat as Hlt by (rewrite Hlen; by eapply lookup_lt_Some).
  destruct (lookup_lt_is_Some_2 colors (Z.to_nat i) Hlt) as [color Hc].
  unfold index at 1. rewrite Hc. destruct (color =? 1) eqn:E1; b2p; [subst; by destruct (Hcol (Z.to_nat i))|].
  destruct (color =? 2); [by exists colors|].
  unfold index. rewrite list_lookup_fmap, Ho. cbn [fmap option_fmap option_map]. rewrite children_scanned.
  assert (forall cl cs0, Forall (fun c => i < c /\ exists v', repr os v' c /\ (height v' < height v)%nat) cl ->
    length cs0 = length os -> (forall j, (Z.to_nat i < j)%nat -> cs0 !! j <> Some 1) ->
    exists cs1, foldM (fun colors child => validate_acyclic fuel child (scanned_of <$> os) colors) cs0 cl
        = Ok cs1 /\ length cs1 = length os /\
      (forall j, (j <= Z.to_nat i)%nat -> cs1 !! j = cs0 !! j) /\
      (forall j, (Z.to_nat i < j)%nat -> cs1 !! j <> Some 1)) as Hloop.
  { intros cl. induction cl as [|c cl IHcl]; intros cs0 Hcl Hl0 H0; [by exists cs0|].
    apply Forall_cons in Hcl as [(Hic & v' & Hv' & Hhv) Hcl]. cbn [foldM].
    destruct (IH v' c cs0) as (cs1 & -> & Hl1 & Hb1 & Ha1); [done|lia|done|intros j Hj; apply H0; lia|].
    destruct (IHcl cs1 Hcl Hl1) as (cs2 & -> & Hl2 & Hb2 & Ha2).
    { intros j Hj. destruct (decide (j < Z.to_nat c)%nat); [rewrite Hb1 by done; by apply H0|apply Ha1; lia]. }
    exists cs2. split_and!; try done. intros j Hj. rewrite Hb2 by done. apply Hb1. lia. }
  destruct (Hloop (refs o) (<[Z.to_nat i := 1]> colors)) as (cs1 & -> & Hl1 & Hb1 & Ha1);
    [done|by rewrite length_insert|intros j Hj; rewrite list_lookup_insert_ne by lia; apply Hcol; lia|].
  eexists. split; [done|]. split_and!.
  - by rewrite length_insert.
  - intros j Hj. rewrite list_lookup_insert_ne by lia. rewrite Hb1 by lia. by rewrite list_lookup_insert_ne by lia.
  - intros j Hj. destruct (decide (j = Z.to_nat i)) as [->|].
    + rewrite list_lookup_insert_eq by lia. done.
    + rewrite list_lookup_insert_ne by lia. apply Ha1. lia.
Qed.

Lemma acyclic_all os : forall k colors,
  (forall j, (j < length os)%nat -> exists v, repr os v (Z.of_nat j) /\ (height v <= MAX_DEPTH)%nat) ->
  (k <= length os)%nat -> length colors = length os -> (forall j, colors !! j <> Some 1) ->
  exists colors', foldM (fun colors i => validate_acyclic (S MAX_DEPTH) i (scanned_of <$> os) colors) colors
    (Z.of_nat <$> seq (length os - k) k) = Ok colors'.
Proof.
  intros k. induction k as [|k IH]; intros colors Hall Hk Hlen Hcol; [by eexists|].
  cbn [seq]. change (Z.of_nat <$> ?x :: ?l) with (Z.of_nat x :: (Z.of_nat <$> l)). cbn [foldM].
  destruct (Hall (length os - S k)%nat ltac:(lia)) as (v & Hv & Hh).
  destruct (validate_acyclic_at os (S MAX_DEPTH) v _ colors Hv ltac:(lia) Hlen ltac:(auto))
    as (c1 & -> & Hl1 & Hb & Ha).
  replace (S (length os - S k)) with (length os - k)%nat by lia. apply IH; [done|lia|done|].
  intros j. destruct (decide (j < Z.to_nat (Z.of_nat (length os - S k)))%nat); [by rewrite Hb|apply Ha; lia].
Qed.

(** ** Decoding a written document *)

(** Every object can be found where the table says. *)
Definition readable (input : bytes) (offsets : list Z) (ends : gmap Z Z) (n : nat)
    (os : list EncodedObject.t) : Prop :=
  forall k o, os !! k = Some o ->
  exists st, offsets !! k = Some st /\ ends !! st = Some (st + len (object_bytes n o)) /\
    holds input st (object_bytes n o).

Lemma charge_bytes_ok b n :
  0 <= value_bytes b -> 0 <= n -> value_bytes b + n <= MAX_VALUE_BYTES ->
  charge_bytes b n = Ok (mkBudget (nodes b) (value_bytes b + n)).
Proof.
  intros H0 Hn H. unfold charge_bytes.
  rewrite checked_add_ok by (unfold MAX_VALUE_BYTES, MAX_PLIST_SIZE, umax in *; lia).
  by replace (_ <? _) with false by lia.
Qed.

Lemma bytes_compare_flip a b : bytes_compare a b = Lt -> bytes_compare b a = Gt.
Proof.
  revert b. induction a as [|x a IH]; intros [|y b]; cbn; try done.
  rewrite (Z.compare_antisym y x). destruct (y ?= x) eqn:E; cbn; try done. apply IH.
Qed.

(** Entries that come in order are appended. *)
Lemma btree_insert_last {V} k (v : V) m :
  Forall (fun kv => bytes_compare (fst kv) k = Lt) m -> btree_insert k v m = (m ++ [(k, v)], false).
Proof.
  induction 1 as [|[k' v'] m Hk _ IH]; [done|]. cbn in *. by rewrite (bytes_compare_flip _ _ Hk), IH.
Qed.

Lemma split_at_app {E A} (l1 l2 : list A) : split_at (E := E) (l1 ++ l2) (len l1) = Ok (l1, l2).
Proof.
  unfold split_at. rewrite length_app. replace (_ && _) with true by lia.
  by rewrite Nat2Z.id, take_app_length, drop_app_length.
Qed.

Section Decode.
Context (input : bytes) (offsets : list Z) (ends : gmap Z Z) (n : nat) (os : list EncodedObject.t).
Context (Hread : readable input offsets ends n os).
Context (Hin : len input <= MAX_PLIST_SIZE) (Hwf : Forall object_wf os).

(** The decoder gives [v] back, and charges its size. *)
Definition decodes (fuel : nat) (v : Value.t) (i : Z) : Prop :=
  forall b, 0 <= nodes b -> nodes b + Z.of_nat (size v) <= MAX_DECODED_NODES ->
  0 <= value_bytes b -> value_bytes b + Z.of_nat (vbytes v) <= MAX_VALUE_BYTES ->
  decode_object fuel input offsets ends (scanned_of <$> os) i b =
  Ok (v, mkBudget (nodes b + Z.of_nat (size v)) (value_bytes b + Z.of_nat (vbytes v))).

Lemma decode_values fuel vs cs :
  Forall2 (fun v c => decodes fuel v c) vs cs ->
  forall acc b, 0 <= nodes b -> 0 <= value_bytes b ->
  nodes b + Z.of_nat (fold_right (fun v n => (size v + n)%nat) 0%nat vs) <= MAX_DECODED_NODES ->
  value_bytes b + Z.of_nat (fold_right (fun v n => (vbytes v + n)%nat) 0%nat vs) <= MAX_VALUE_BYTES ->
  foldM (fun '(values, budget) child =>
    let! (v, budget) := decode_object fuel input offsets ends (scanned_of <$> os) child budget in
    Ok (values ++ [v], budget)) (acc, b) cs =
  Ok (acc ++ vs, mkBudget (nodes b + Z.of_nat (fold_right (fun v n => (size v + n)%nat) 0%nat vs))
       (value_bytes b + Z.of_nat (fold_right (fun v n => (vbytes v + n)%nat) 0%nat vs))).
Proof.
  induction 1 as [|v c vs cs Hv _ IH]; intros acc b Hn Hb Hnl Hbl.
  { cbn. rewrite app_nil_r, !Z.add_0_r. by destruct b. }
  cbn [fold_right foldM] in *. rewrite Hv by lia. rewrite IH by (cbn; lia). cbn [nodes value_bytes].
  rewrite <- app_assoc. do 2 f_equal. f_equal; lia.
Qed.

Lemma decode_entries fuel (kvs : list (bytes * Value.t)) ks cs :
  Forall2 (fun kv k => decodes fuel (Value.String (fst kv)) k) kvs ks ->
  Forall2 (fun kv c => decodes fuel (snd kv) c) kvs cs ->
  forall acc b, 0 <= nodes b -> 0 <= value_bytes b -> keys_sorted (acc ++ kvs) ->
  nodes b + Z.of_nat (fold_right (fun kv n => (S (size (snd kv)) + n)%nat) 0%nat kvs) <= MAX_DECODED_NODES ->
  value_bytes b + Z.of_nat (fold_right (fun kv n => (length (text_bytes (fst kv)) + vbytes (snd kv) + n)%nat) 0%nat kvs)
    <= MAX_VALUE_BYTES ->
  foldM (fun '(dictionary, budget) '(key, value) =>
    let! (k, budget) := decode_object fuel input offsets ends (scanned_of <$> os) key budget in
    match k with
    | Value.String k =>
        let! (v, budget) := decode_object fuel input offsets ends (scanned_of <$> os) value budget in
        let (dictionary, present) := btree_insert k v dictionary in
        if (present : bool) then Err Malformed else Ok (dictionary, budget)
    | _ => Err Malformed
    end) (acc, b) (zip ks cs) =
  Ok (acc ++ kvs,
      mkBudget (nodes b + Z.of_nat (fold_right (fun kv n => (S (size (snd kv)) + n)%nat) 0%nat kvs))
        (value_bytes b + Z.of_nat (fold_right (fun kv n => (length (text_bytes (fst kv)) + vbytes (snd kv) + n)%nat) 0%nat kvs))).
Proof.
  intros HK. revert cs. induction HK as [|[k v] ki kvs ks Hk _ IH]; intros cs HC; inversion HC as [|? c ? cs' Hv HC'];
    subst; intros acc b Hn Hb Hs Hnl Hbl.
  { cbn. rewrite app_nil_r, !Z.add_0_r. by destruct b. }
  cbn [zip zip_with fst snd fold_right foldM] in *.
  rewrite Hk by (cbn [size vbytes]; lia). rewrite Hv by (cbn [size vbytes nodes value_bytes]; lia).
  rewrite btree_insert_last.
  2:{ unfold keys_sorted in Hs. clear -Hs. induction acc as [|kv acc IHa]; [constructor|].
      cbn in Hs. apply StronglySorted_inv in Hs as [Hs Hall]. constructor; [|auto].
      apply Forall_app in Hall as [_ Hall]. by apply Forall_cons in Hall as [Hall _]. }
  rewrite IH; [|done|cbn; lia|cbn; lia|by rewrite <- app_assoc|cbn [size vbytes nodes value_bytes]; lia..].
  cbn [size vbytes nodes value_bytes]. rewrite <- app_assoc. do 2 f_equal. f_equal; lia.
Qed.

(** The start of [decode_object]: the object is found and its marker read. *)
Lemma decode_object_start fuel i o b r :
  0 <= i -> os !! Z.to_nat i = Some o -> 0 <= nodes b -> nodes b + 1 <= MAX_DECODED_NODES ->
  (forall st m, holds input st (object_bytes n o) ->
     read_byte input st (st + len (object_bytes n o)) = Ok (m, st + 1) ->
     let cursor := st + 1 in
     let end_ := st + len (object_bytes n o) in
     let high := Z.land m 0xf0 in
     let low := Z.land m 0x0f in
     let budget := mkBudget (nodes b + 1) (value_bytes b) in
     let object := scanned_of o in
     match kind object with
     | ObjectKind.Null => Ok (Value.Null, budget)
     | ObjectKind.Boolean => Ok (Value.Boolean (m =? 9), budget)
     | ObjectKind.Integer =>
         let! width := integer_width low in
         let! (bs, _) := take_bytes input cursor end_ width in
         let! value := decode_integer bs in
         Ok (Value.Integer value, budget)
     | ObjectKind.Data =>
         let! (length, cursor) := read_length input cursor end_ low in
         let! budget := charge_bytes budget length in
         let! (bs, _) := take_bytes input cursor end_ length in
         Ok (Value.Data bs, budget)
     | ObjectKind.String =>
         if high =? 0x50 then
           let! (length, cursor) := read_length input cursor end_ low in
           let! budget := charge_bytes budget length in
           let! (bs, _) := take_bytes input cursor end_ length in
           let! text := ok_or (Text.from_utf8 bs) Malformed in
           Ok (Value.String text, budget)
         else
           let! (units, cursor) := read_length input cursor end_ low in
           let! length := ok_or (checked_mul 64 units 2) LimitExceeded in
           let! budget := charge_bytes budget length in
           let! (bs, _) := take_bytes input cursor end_ length in
           let! text := ok_or (Text.from_utf16 (utf16_units bs)) Malformed in
           Ok (Value.String text, budget)
     | ObjectKind.Array =>
         let! (values, budget) :=
           foldM (fun '(values, budget) child =>
             let! (v, budget) :=
               decode_object fuel input offsets ends (scanned_of <$> os) child budget in
             Ok (values ++ [v], budget)) ([], budget) (children object) in
         Ok (Value.Array values, budget)
     | ObjectKind.Dictionary =>
         let! (keys, values) := split_at (children object) (dictionary_key_count object) in
         let! (dictionary, budget) :=
           foldM (fun '(dictionary, budget) '(key, value) =>
             let! (k, budget) :=
               decode_object fuel input offsets ends (scanned_of <$> os) key budget in
             match k with
             | Value.String k =>
                 let! (v, budget) :=
                   decode_object fuel input offsets ends (scanned_of <$> os) value budget in
                 let (dictionary, present) := btree_insert k v dictionary in
                 if (present : bool) then Err Malformed else Ok (dictionary, budget)
             | _ => Err Malformed
             end) ([], budget) (zip keys values) in
         Ok (Value.Dictionary dictionary, budget)
     end = r) ->
  decode_object (S fuel) input offsets ends (scanned_of <$> os) i b = r.
Proof.
  intros Hi Ho Hn Hnl Hrest. cbn [decode_object].
  rewrite checked_add_ok by (unfold MAX_DECODED_NODES, umax in *; lia).
  replace (_ <? _) with false by lia.
  destruct (Hread _ _ Ho) as (st & Hst & Hend & Hh). unfold index. rewrite Hst, Hend. cbn [ok_or].
  rewrite list_lookup_fmap, Ho. cbn [fmap option_fmap option_map].
  assert (exists m l, object_bytes n o = m :: l) as (m & l & Hm).
  { destruct o as [|bb|v|d|s|rs|ks vs]; cbn [object_bytes]; [eauto..|]; unfold integer_bytes, length_bytes;
      repeat destruct (_ <? _); repeat destruct (_ =? _); try destruct (Text.is_ascii s); cbn; eauto;
      repeat destruct (_ <? _); cbn; eauto. }
  assert (read_byte input st (st + len (object_bytes n o)) = Ok (m, st + 1)) as Hr.
  { rewrite Hm. eapply read_byte_at; [rewrite Hm in Hh; exact Hh|cbn [length]; lia]. }
  rewrite Hr. by apply (Hrest st m).
Qed.

Lemma decode_object_at : forall fuel v i,
  repr os v i -> (height v < fuel)%nat -> value_wf v -> decodes fuel v i.
Proof.
  intros fuel. induction fuel as [|fuel IH]; intros v i Hr Hh Hv b Hn Hnl Hb Hbl; [lia|].
  pose proof (size_pos v) as Hsz.
  destruct Hr as [i Hi Ho|bb i Hi Ho|z i Hi Ho|d i Hi Ho|st i Hi Ho|vs cs i Hi Ho HF|kvs ks cs i Hi Ho HK HF];
    (eapply decode_object_start; [done|exact Ho|done|lia|]); intros s0 m Hm Hrb; cbn zeta;
    cbn [object_bytes scanned_of kind children dictionary_key_count size vbytes] in *.
  - by rewrite Z.add_0_r.
  - rewrite (read_byte_at _ _ _ _ _ Hm) in Hrb by (cbn; lia). simplify_eq. destruct bb; cbn; by rewrite Z.add_0_r.
  - eapply Forall_lookup_1 in Hwf; [|exact Ho]. cbn in Hwf.
    destruct (integer_bytes_read z Hwf) as (m' & body & Hbd & H1 & H2 & H3 & H4 & H5).
    rewrite Hbd in *. rewrite (read_byte_at _ _ _ _ _ Hm) in Hrb by (cbn [length]; lia). simplify_eq.
    rewrite H4. pose proof (holds_behind _ _ [_] _ Hm) as Hh1. change (len [_]) with 1 in Hh1.
    rewrite <- (app_nil_r body) in Hh1. rewrite (take_at _ _ _ _ _ _ Hh1) by (done || (cbn [length]; lia)).
    rewrite H5. by rewrite Z.add_0_r.
  - destruct (length_bytes_after _ _ _ _ _ _ Hm eq_refl Hin) as (Hh1 & E1 & E2 & E3).
    destruct (length_bytes_read 64 (len d) input s0
      (s0 + len (length_bytes 64 (len d) ++ d)) d) as (m' & R & H1 & H2 & H3 & RL);
      [by left|lia|done|done|exact E1|]. rewrite R in Hrb. simplify_eq. rewrite RL.
    rewrite charge_bytes_ok by (cbn [nodes value_bytes]; lia). cbn [nodes value_bytes].
    by rewrite (take_at _ _ _ _ _ _ Hh1) by (done || lia).
  - destruct Hv as [Hok Hval]. unfold text_bytes in *. destruct (Text.is_ascii st) eqn:Hasc.
    + destruct (length_bytes_after _ _ _ _ _ _ Hm eq_refl Hin) as (Hh1 & E1 & E2 & E3).
      destruct (length_bytes_read 80 (len st) input s0
      (s0 + len (length_bytes 80 (len st) ++ st)) st) as (m' & R & H1 & H2 & H3 & RL);
        [by right; left|lia|done|done|exact E1|]. rewrite R in Hrb. simplify_eq. rewrite H1, RL.
      cbn [Z.eqb Pos.eqb]. rewrite charge_bytes_ok by (cbn [nodes value_bytes]; lia). cbn [nodes value_bytes].
      rewrite (take_at _ _ _ _ _ _ Hh1) by (done || lia). unfold Text.from_utf8. by rewrite Hval.
    + destruct (length_bytes_after _ _ _ _ _ _ Hm eq_refl Hin) as (Hh1 & E1 & E2 & E3).
      set (us := Text.encode_utf16 st) in *.
      assert (len (unit_bytes us) = len us * 2) as Hus by (unfold unit_bytes; by rewrite len_be_concat).
      destruct (length_bytes_read 96 (len us) input s0
      (s0 + len (length_bytes 96 (len us) ++ unit_bytes us)) (unit_bytes us)) as (m' & R & H1 & H2 & H3 & RL);
        [by right; right; left|lia|done|done|exact E1|]. rewrite R in Hrb. simplify_eq. rewrite H1, RL.
      cbn [Z.eqb Pos.eqb]. rewrite checked_mul_ok by (unfold MAX_PLIST_SIZE, umax in *; lia).
      rewrite charge_bytes_ok by (cbn [nodes value_bytes]; lia). cbn [nodes value_bytes].
      rewrite (take_at _ _ _ _ _ _ Hh1) by (done || lia).
      rewrite utf16_units_bytes by (by apply Text.encode_utf16_units).
      assert (Text.from_utf16 us = Some st) as -> by (by apply Text.from_utf16_encode). cbn [ok_or].
      by rewrite Hus.
  - cbn [height] in Hh. rewrite (decode_values fuel vs cs); cbn [nodes value_bytes]; try lia.
    + do 2 f_equal. f_equal. lia.
    + apply fold_wf_values in Hv. clear -HF Hv Hh IH. induction HF as [|v c vs cs [_ Hvc] _ IHF]; constructor.
      * apply Forall_cons in Hv as [Hv _]. apply IH; [done|cbn in Hh; lia|done].
      * apply Forall_cons in Hv as [_ Hv]. apply IHF; solve [done|cbn in Hh; lia].
  - cbn [height] in Hh. rewrite split_at_app.
    destruct Hv as [Hsorted Hv]. apply fold_wf_entries in Hv.
    rewrite (decode_entries fuel kvs ks cs); cbn [nodes value_bytes]; try lia; try done.
    + do 2 f_equal. f_equal. lia.
    + clear -HK Hv Hh IH. induction HK as [|kv k kvs ks [_ Hk] _ IHF]; constructor.
      * apply Forall_cons in Hv as [[Hv _] _]. apply IH; [done|cbn in Hh |- *; lia|done].
      * apply Forall_cons in Hv as [_ Hv]. apply IHF; solve [done|cbn in Hh; lia].
    + clear -HF Hv Hh IH. induction HF as [|kv c kvs cs [_ Hk] _ IHF]; constructor.
      * apply Forall_cons in Hv as [[_ Hv] _]. apply IH; [done|cbn in Hh; lia|done].
      * apply Forall_cons in Hv as [_ Hv]. apply IHF; solve [done|cbn in Hh; lia].
Qed.

End Decode.

(** ** A written document is read back *)

Lemma length_offsets_from c ps : length (offsets_from c ps) = length ps.
Proof. revert c. induction ps as [|p ps IH]; intros c; [done|]. cbn. by rewrite IH. Qed.

Lemma readable_spans (n : nat) os input (ends : gmap Z Z) c :
  holds input c (concat (object_bytes n <$> os)) ->
  Forall (fun '(o, e) => ends !! o = Some e) (spans c (object_bytes n <$> os)) ->
  readable input (offsets_from c (object_bytes n <$> os)) ends n os.
Proof.
  revert c. induction os as [|o l IH]; intros c Hh He k ob Hk; [done|].
  change (object_bytes n <$> o :: l) with (object_bytes n o :: (object_bytes n <$> l)) in *.
  cbn [concat spans offsets_from] in *. apply Forall_cons in He as [He1 He].
  destruct k as [|k]; cbn in Hk; simplify_eq.
  - exists c. split_and!; [done|done|by eapply holds_prefix].
  - change (?x :: ?l) with ([x] ++ l). eapply IH; [by apply holds_behind|done|done].
Qed.

Lemma payload_bytes (n : nat) o : len (payload o) <= len (object_bytes n o).
Proof.
  destruct o as [|bb|z|d|st|rs|ks vs]; cbn [payload object_bytes]; try (cbn [length]; lia).
  - rewrite length_app. lia.
  - unfold text_bytes. destruct (Text.is_ascii st); rewrite length_app; lia.
Qed.

Lemma payload_total (n : nat) os :
  len (concat (payload <$> os)) <= len (concat (object_bytes n <$> os)).
Proof.
  induction os as [|o l IH]; [done|].
  change (len (payload o ++ concat (payload <$> l)) <= len (object_bytes n o ++ concat (object_bytes n <$> l))).
  rewrite !length_app. pose proof (payload_bytes n o). lia.
Qed.

Section Document.
Context (os : list EncodedObject.t) (v : Value.t).
Context (Hcount : 1 <= len os <= MAX_OBJECTS) (Hwf : Forall object_wf os) (Hv : value_wf v).
Context (Hbound : Forall (fun o => Forall (fun r => 0 <= r < len os) (refs o)) os).
Context (Htotal : len (concat (refs <$> os)) <= MAX_REFERENCES).
Context (Hall : forall j, (j < length os)%nat ->
  exists v, repr os v (Z.of_nat j) /\ (height v <= MAX_DEPTH)%nat).
Context (Hrepr : repr os v 0) (Hheight : (height v <= MAX_DEPTH)%nat).
Context (Hsize : len os = Z.of_nat (size v))
  (Hbytes : len (concat (payload <$> os)) = Z.of_nat (vbytes v)).

Let n : nat := width_of (len os - 1).
Let pieces : list bytes := object_bytes n <$> os.
Let start : Z := table_start n os.
Let w : nat := width_of start.
Let input : bytes := document os 0.
Let offs : list Z := offsets_from 8 pieces.
Let ends : gmap Z Z := ends_by_offset offs start.

Context (Hlen : len input <= MAX_PLIST_SIZE).

Lemma width_cases u : 0 <= u -> (1 <= width_of u <= 8)%nat.
Proof.
  intros Hu. unfold width_of.
  destruct (storage_width_cases u Hu) as [[-> _]|[[-> _]|[[-> _]|[-> _]]]]; lia.
Qed.

Lemma pieces_nonempty : Forall (fun p => p <> []) pieces.
Proof.
  apply Forall_forall. intros p (o & -> & _)%list_elem_of_fmap.
  destruct o as [|bb|z|d|s|rs|ks vs]; cbn [object_bytes]; try done;
    unfold integer_bytes, length_bytes; repeat destruct (_ <? _); repeat destruct (_ =? _);
    try destruct (Text.is_ascii s); try done; repeat destruct (_ <? _); done.
Qed.

(** The parts of the document. *)
Definition trailer_bytes : bytes :=
  replicate 6 0 ++ [Z.of_nat w; Z.of_nat n] ++ be_bytes 8 (len os) ++ be_bytes 8 0 ++ be_bytes 8 start.

Lemma input_parts : input = HEADER ++ concat pieces ++ reference_bytes w offs ++ trailer_bytes.
Proof. done. Qed.

Lemma trailer_length : length trailer_bytes = 32%nat.
Proof. unfold trailer_bytes. by rewrite !length_app, !length_be_bytes. Qed.

Lemma length_offs : length offs = length os.
Proof. unfold offs, pieces. by rewrite length_offsets_from, length_fmap. Qed.

Lemma start_eq : start = 8 + len (concat pieces).
Proof. done. Qed.

Lemma input_length : len input = start + len os * Z.of_nat w + 32.
Proof.
  rewrite input_parts, !length_app, trailer_length. cbn [HEADER length].
  pose proof (len_be_concat w offs) as Hr. unfold reference_bytes. rewrite length_offs in Hr.
  rewrite !Nat2Z.inj_add, Hr, start_eq. lia.
Qed.

Lemma start_small : 8 <= start <= MAX_PLIST_SIZE.
Proof. pose proof input_length. rewrite start_eq in *. lia. Qed.

Lemma holds_pieces : holds input 8 (concat pieces).
Proof. rewrite input_parts. apply (holds_here HEADER). Qed.

Lemma holds_table : holds input start (reference_bytes w offs).
Proof.
  rewrite input_parts, app_assoc.
  replace start with (len (HEADER ++ concat pieces)); [apply holds_here|].
  rewrite length_app, start_eq. cbn [HEADER length]. lia.
Qed.

Lemma offs_ok : Forall (fun o => len HEADER <= o < start /\ is_u (8 * Z.of_nat w) o) offs.
Proof.
  eapply Forall_impl; [apply (offsets_range 8), pieces_nonempty|]. cbn beta. intros o Ho.
  rewrite <- start_eq in Ho. split; [exact Ho|].
  pose proof (width_fits start) as Hw. pose proof start_small. unfold is_u in *. unfold MAX_PLIST_SIZE in *.
  fold w in Hw. lia.
Qed.

Lemma ends_spans : Forall (fun '(o, e) => ends !! o = Some e) (spans 8 pieces).
Proof.
  apply Forall_forall. intros [o e] Hin. unfold ends, ends_by_offset. unfold offs.
  rewrite start_eq, zip_spans. apply fold_insert_lookup; [|done].
  rewrite fst_spans. apply sorted_nodup, offsets_sorted, pieces_nonempty.
Qed.

Lemma refs_fit : Forall (fun o => Forall (fun r => 0 <= r < len os /\ is_u (8 * Z.of_nat n) r) (refs o)) os.
Proof.
  eapply Forall_impl; [exact Hbound|]. cbn beta. intros o Ho. eapply Forall_impl; [exact Ho|]. cbn beta.
  intros r Hr. split; [done|]. pose proof (width_fits (len os - 1)) as Hw. fold n in Hw.
  unfold is_u, MAX_OBJECTS in *. lia.
Qed.

Lemma document_readable : readable input offs ends n os.
Proof. apply readable_spans; [apply holds_pieces|apply ends_spans]. Qed.

Lemma keys_checked : check_keys (scanned_of <$> os) = Ok ().
Proof.
  unfold check_keys.
  assert (forall l, Forall (fun o => o ∈ os) l ->
    foldM (fun _ object =>
      let! keys := slice (children object) 0 (Z.to_nat (dictionary_key_count object)) in
      foldM (fun _ key_reference =>
        let! key := index (scanned_of <$> os) key_reference in
        if negb (bool_decide (kind key = ObjectKind.String)) then Err Malformed else Ok ())
        () keys) () (scanned_of <$> l) = Ok ()) as Hgen.
  { induction 1 as [|o l Ho _ IH]; [done|].
    change (scanned_of <$> o :: l) with (scanned_of o :: (scanned_of <$> l)). cbn [foldM].
    assert (forall ks, Forall (fun k => exists t, repr os (Value.String t) k) ks ->
      foldM (fun (_ : ()) key_reference =>
        let! key := index (scanned_of <$> os) key_reference in
        if negb (bool_decide (kind key = ObjectKind.String)) then Err Malformed else Ok ()) () ks
      = Ok ()) as Hks.
    { induction 1 as [|k ks [t Ht] _ IHk]; [done|]. cbn [foldM]. inversion Ht as [| | | |? ? Hk0 Hk| |]; subst.
      unfold index. rewrite list_lookup_fmap, Hk. done. }
    destruct o as [|bb|z|d|st|rs|ks vs]; cbn [scanned_of children dictionary_key_count]; try exact IH.
    rewrite Nat2Z.id, slice_app_here by done. rewrite Hks; [exact IH|].
    apply list_elem_of_lookup in Ho as [j Hj].
    destruct (Hall j) as (v' & Hv' & _); [by eapply lookup_lt_Some|].
    inversion Hv' as [? ? H|? ? ? H|? ? ? H|? ? ? H|? ? ? H|? ? ? ? H|kvs ks' cs ? ? H HK HF]; subst;
      rewrite Nat2Z.id, Hj in H; simplify_eq.
    clear -HK. induction HK as [|kv k kvs ks [_ Hk] _ IHk]; constructor; eauto. }
  apply Hgen. apply Forall_forall. auto.
Qed.

Lemma value_bytes_fit : Z.of_nat (vbytes v) <= MAX_VALUE_BYTES.
Proof.
  rewrite <- Hbytes. pose proof input_length. pose proof start_eq. unfold MAX_VALUE_BYTES.
  pose proof (payload_total n os) as Hp. fold pieces in Hp. lia.
Qed.

Lemma sort_offs : merge_sort Z.le offs = offs.
Proof.
  apply (StronglySorted_unique Z.le).
  - apply StronglySorted_merge_sort; apply _.
  - apply sorted_lt_le, offsets_sorted, pieces_nonempty.
  - apply merge_sort_Permutation.
Qed.

Lemma document_decodes : decode input = Ok v.
Proof.
  pose proof input_length as Hil. pose proof start_small as Hss.
  pose proof (width_cases (len os - 1) ltac:(lia)) as Hn. fold n in Hn.
  pose proof (width_cases start ltac:(lia)) as Hw. fold w in Hw.
  assert (is_u 64 (len os)) as Hu1 by (unfold is_u, MAX_OBJECTS in *; lia).
  assert (is_u 64 start) as Hu2 by (unfold is_u, MAX_PLIST_SIZE in *; lia).
  unfold decode. change (len HEADER) with 8. unfold TRAILER_SIZE.
  replace (_ <? len input) with false by lia. replace (len input <? _) with false by lia.
  rewrite bool_decide_eq_true_2 by done. cbn [negb].
  assert (slice_from (E := Error) input (Z.to_nat (len input - 32)) = Ok trailer_bytes) as ->.
  { rewrite input_parts, !app_assoc. apply slice_from_app.
    rewrite !length_app, trailer_length. lia. }
  assert (slice (E := Error) trailer_bytes 0 6 = Ok (replicate 6 0)) as -> by (by apply slice_app_here).
  rewrite bool_decide_eq_true_2 by done. cbn [negb].
  change (byte_at (E := Error) trailer_bytes 6) with (Ok (E := Error) (Z.of_nat w)).
  change (byte_at (E := Error) trailer_bytes 7) with (Ok (E := Error) (Z.of_nat n)). cbn beta iota.
  replace (negb _ || negb _) with false by lia.
  assert (forall k m u l r, trailer_bytes = l ++ be_bytes 8 u ++ r -> length l = k -> m = (k + 8)%nat ->
    slice (E := Error) trailer_bytes k m = Ok (be_bytes 8 u)) as Hsl.
  { intros k m u l r -> Hk ->. apply slice_app_mid; [done|]. by rewrite length_be_bytes. }
  assert (forall u, is_u 64 u -> read_be_u64 (be_bytes 8 u) = Ok u) as Hrd.
  { intros u Hu. rewrite read_be_u64_ok; [by rewrite be_val_bytes|apply be_bytes_ok|rewrite length_be_bytes; lia]. }
  rewrite (Hsl 8%nat 16%nat (len os) (replicate 6 0 ++ [Z.of_nat w; Z.of_nat n]) (be_bytes 8 0 ++ be_bytes 8 start)); [|done..].
  rewrite Hrd by done. unfold usize_from_u64. rewrite try_from_ok by done.
  rewrite (Hsl 16%nat 24%nat 0 (replicate 6 0 ++ [Z.of_nat w; Z.of_nat n] ++ be_bytes 8 (len os)) (be_bytes 8 start));
    [|unfold trailer_bytes; by rewrite <- !app_assoc|by rewrite !length_app, length_be_bytes|done].
  rewrite Hrd by done. rewrite try_from_ok by done.
  rewrite (Hsl 24%nat 32%nat start (replicate 6 0 ++ [Z.of_nat w; Z.of_nat n] ++ be_bytes 8 (len os) ++ be_bytes 8 0) []);
    [|unfold trailer_bytes; by rewrite <- !app_assoc, app_nil_r|by rewrite !length_app, !length_be_bytes|done].
  rewrite Hrd by done. rewrite try_from_ok by done.
  replace (_ || _ || _) with false by lia. replace (_ || _) with false by lia.
  rewrite checked_mul_ok by (unfold MAX_OBJECTS, umax in *; nia).
  rewrite checked_add_ok by (unfold MAX_PLIST_SIZE, umax in *; lia).
  replace (negb _) with false by lia.
  rewrite <- length_offs at 1. rewrite (read_offsets_at input start w offs Hw offs_ok holds_table).
  rewrite sort_offs. assert (head offs = Some 8) as ->.
  { pose proof length_offs as Hlo. unfold offs in *. destruct pieces; [cbn in Hlo; lia|done]. }
  rewrite bool_decide_eq_true_2 by done.
  rewrite (sorted_not_adjacent offs) by (apply offsets_sorted, pieces_nonempty). cbn [negb orb].
  fold ends. unfold scan_objects.
  pose proof (scan_objects_at input n (len os) ends os Hn Hlen Hwf refs_fit 8 [] 0 ltac:(lia) Htotal
    holds_pieces ends_spans) as Hscan. unfold offs, pieces in *. rewrite Hscan. cbn [app].
  rewrite keys_checked. rewrite Nat2Z.id.
  destruct (acyclic_all os (length os) (replicate (length os) 0) Hall) as [colors Hc];
    [lia|apply length_replicate|intros j Hj; apply lookup_replicate_1 in Hj as [? _]; done|].
  rewrite Nat.sub_diag in Hc. rewrite Hc.
  pose proof (decode_object_at input offs ends n os document_readable Hlen Hwf (S MAX_DEPTH) v 0 Hrepr
    ltac:(lia) Hv (mkBudget 0 0)) as Hd. unfold offs, pieces in Hd. rewrite Hd; [done|..]; cbn [nodes value_bytes];
    pose proof value_bytes_fit; unfold MAX_OBJECTS, MAX_DECODED_NODES in *; lia.
Qed.

End Document.

Lemma encode_decode v bs : value_wf v -> encode v = Ok bs -> decode bs = Ok v.
Proof.
  intros Hv He. destruct (encode_layout v bs He) as (top & e & Ha & _ & -> & Hlen).
  destruct (add_added v 0 _ _ _ ltac:(lia) Ha) as [-> [news [[Go Ga Gl Gr Gb] Hs Hr Hd Hy Hc Hw]]].
  cbn in *. subst news. pose proof (size_pos v).
  apply document_decodes; try done.
  - unfold MAX_OBJECTS in *. lia.
  - by apply Hw.
  - unfold MAX_REFERENCES in *. lia.
  - intros j Hj. destruct (Ga (Z.of_nat j)) as (v' & Hh & Hp); [lia|]. exists v'. split; [|done].
    specialize (Hp [] [] eq_refl). by rewrite app_nil_r in Hp.
  - specialize (Hr [] [] eq_refl). by rewrite app_nil_r in Hr.
  - unfold MAX_DEPTH in *. lia.
  - lia.
Qed.

(** C30. Whatever the encoder writes for a value, the decoder reads back as that
    value. *)
Theorem plist_roundtrip v bs : value_wf v -> encode v = Ok bs -> decode bs = Ok v.
Proof. apply encode_decode. Qed.

Definition ex_value : Value.t :=
  Value.Dictionary [([97], Value.Array [Value.Integer 300; Value.Boolean true]);
                    ([98], Value.String [195; 169; 97])].

Lemma ex_value_wf : value_wf ex_value.
Proof.
  assert (forall l, forallb (is_ub 8) l && Text.utf8_valid l = true -> text_wf l) as Ht.
  { intros l [H1 H2]%andb_true_iff. split; [|exact H2]. apply Forall_forall. intros b Hb.
    rewrite forallb_forall in H1. apply is_ub_spec, H1. by apply list_elem_of_In. }
  cbn. split_and!; try exact I; try (apply Ht; vm_compute; reflexivity).
  unfold keys_sorted. repeat constructor.
Qed.

Lemma plist_roundtrip_witness :
  match encode ex_value with Ok bs => decode bs = Ok ex_value | _ => False end.
Proof.
  destruct (encode ex_value) as [bs| |] eqn:He; [|exfalso; vm_compute in He; discriminate He..].
  apply (plist_roundtrip ex_value bs); [exact ex_value_wf|exact He].
Defined.

(** ** Any input *)

Lemma read_byte_inv input c e b c' :
  bytes_ok input -> read_byte input c e = Ok (b, c') -> is_u 8 b /\ c' = c + 1.
Proof.
  intros Hok H. unfold read_byte in H. destruct (input !! _) eqn:Hl; [|done]. destruct (_ <? _); simplify_eq.
  split; [|done]. by eapply Forall_lookup_1.
Qed.

Lemma take_bytes_inv input c e n bs c' :
  bytes_ok input -> 0 <= c -> 0 <= n -> take_bytes input c e n = Ok (bs, c') ->
  bytes_ok bs /\ c' = c + n /\ len bs = n.
Proof.
  intros Hok Hc Hn H. unfold take_bytes in H. destruct (checked_add 64 c n) as [nx|] eqn:Ha; [|done].
  apply checked_add_Some in Ha as [-> _]. cbn [ok_or] in H. destruct (_ <? _); [done|].
  destruct (_ && _) eqn:Hb; [|done]. b2p. simplify_eq. split_and!; [|done|].
  - by apply bytes_ok_take, bytes_ok_drop.
  - rewrite length_take, length_drop. lia.
Qed.

Lemma read_be_u64_inv bs v : bytes_ok bs -> read_be_u64 bs = Ok v -> v = be_val bs /\ is_u 64 v.
Proof.
  intros Hok H. destruct (decide (1 <= length bs <= 8)%nat) as [Hl|Hl].
  - rewrite read_be_u64_ok in H by done. simplify_eq. split; [done|].
    eapply is_u_weaken; [|by apply be_val_bound]. lia.
  - unfold read_be_u64 in H. destruct bs as [|b bs]; [done|]. rewrite bool_decide_eq_false_2 in H by done.
    cbn [orb] in H. destruct (8 <? _) eqn:E; [done|]. b2p. cbn in *. lia.
Qed.

Lemma integer_width_inv low wd : integer_width low = Ok wd -> 1 <= wd <= 16.
Proof.
  unfold integer_width. intros H. destruct (_ && _) eqn:Hb; [|done]. b2p. simplify_eq.
  rewrite Z.shiftl_mul_pow2 by lia.
  assert (low = 0 \/ low = 1 \/ low = 2 \/ low = 3 \/ low = 4) as [->|[->|[->|[->| ->]]]] by lia; lia.
Qed.

Lemma read_length_inv input c e low n c' :
  bytes_ok input -> 0 <= c -> 0 <= low -> read_length input c e low = Ok (n, c') -> 0 <= n /\ 0 <= c'.
Proof.
  intros Hok Hc Hlow H. unfold read_length in H. destruct (low <? 15); [simplify_eq; lia|].
  destruct (read_byte _ _ _) as [[m c1]| |] eqn:Hr; [|done..]. apply read_byte_inv in Hr as [_ ->]; [|done].
  destruct (negb _); [done|]. destruct (integer_width _) as [wd| |] eqn:Hw; [|done..].
  apply integer_width_inv in Hw. destruct (8 <? wd); [done|].
  destruct (take_bytes _ _ _ _) as [[bs c2]| |] eqn:Ht; [|done..].
  apply take_bytes_inv in Ht as (Hb & -> & _); [|done|lia|lia].
  destruct (read_be_u64 bs) as [v| |] eqn:Hv; [|done..]. apply read_be_u64_inv in Hv as [_ Hv]; [|done].
  unfold usize_from_u64 in H. rewrite try_from_ok in H by done. destruct (_ <? v); [done|]. simplify_eq.
  unfold is_u in Hv. lia.
Qed.

Lemma read_references_inv input c e count (n : nat) oc rs c' :
  bytes_ok input -> 0 <= c -> 0 <= count -> (1 <= n)%nat ->
  read_references input c e count (Z.of_nat n) oc = Ok (rs, c') ->
  len rs = count /\ Forall (fun r => 0 <= r < oc) rs.
Proof.
  intros Hok Hc Hcount Hn H. unfold read_references in H. destruct (_ <? count); [done|].
  destruct (checked_mul 64 count _) as [bc|] eqn:Hm; [|done]. apply checked_mul_Some in Hm as [-> _].
  cbn [ok_or] in H. destruct (take_bytes _ _ _ _) as [[bs c2]| |] eqn:Ht; [|done..].
  apply take_bytes_inv in Ht as (Hb & -> & Hlen); [|done|lia|lia]. rewrite Nat2Z.id in H.
  assert (length (chunks n bs) = Z.to_nat count) as Hch.
  { unfold chunks. rewrite length_chunks_k. replace (length bs) with (Z.to_nat count * n)%nat by lia.
    by rewrite Nat.div_mul by lia. }
  destruct (foldM _ _ _) as [rs'| |] eqn:Hf; [|done..]. simplify_eq.
  assert (forall l acc, foldM (fun references raw =>
        let! value := read_be_u64 raw in
        let! reference := usize_from_u64 value in
        if oc <=? reference then Err Malformed else Ok (references ++ [reference])) acc l = Ok rs ->
    Forall bytes_ok l -> Forall (fun r => 0 <= r < oc) acc ->
    length rs = (length acc + length l)%nat /\ Forall (fun r => 0 <= r < oc) rs) as Hgen.
  { clear. intros l. induction l as [|raw l IH]; intros acc H Hl Hacc; cbn [foldM] in H.
    { simplify_eq. split; [cbn; lia|done]. }
    apply Forall_cons in Hl as [Hraw Hl].
    destruct (read_be_u64 raw) as [v| |] eqn:Hv; [|done..]. apply read_be_u64_inv in Hv as [_ Hv]; [|done].
    unfold usize_from_u64 in H. rewrite try_from_ok in H by done. destruct (oc <=? v) eqn:Ho; [done|]. b2p.
    apply IH in H as [H1 H2]; [|done|].
    - split; [|done]. rewrite H1, length_app. cbn. lia.
    - apply Forall_app. split; [done|]. constructor; [unfold is_u in Hv; lia|done]. }
  apply Hgen in Hf as [H1 H2]; [|by apply chunks_bytes_ok|done]. split; [|done]. rewrite H1, Hch. cbn. lia.
Qed.

(** A scanned object refers to objects of the document, and its keys are among
    its references. *)
Definition scanned_ok (count : Z) (o : ScannedObject) : Prop :=
  Forall (fun r => 0 <= r < count) (children o) /\
  0 <= dictionary_key_count o <= len (children o).

Lemma scan_object_inv input st e (n : nat) count o :
  bytes_ok input -> 0 <= st -> (1 <= n)%nat ->
  scan_object input st e (Z.of_nat n) count = Ok o -> scanned_ok count o.
Proof.
  intros Hok Hst Hn H. unfold scan_object in H.
  destruct (read_byte _ _ _) as [[m c]| |] eqn:Hr; [|done..]. apply read_byte_inv in Hr as [Hm ->]; [|done].
  assert (0 <= Z.land m 15) as Hlow by (apply Z.land_nonneg; lia).
  assert (forall k, scanned_ok count (mkScanned k [] 0)) as Hleaf by (intros k; split; [constructor|cbn; lia]).
  cbv zeta in H.
  match type of H with (match ?X with Ok _ => _ | Err _ => _ | Panic => _ end) = _ =>
    destruct X as [[ob cu]| |] eqn:HX; [|discriminate H..] end.
  destruct (negb _); [done|]. simplify_eq.
  repeat match type of HX with (if ?c then _ else _) = _ => destruct c end; try done; try by simplify_eq.
  - destruct (integer_width _); [|done..]. destruct (take_bytes _ _ _ _) as [[? ?]| |]; [|done..].
    destruct (decode_integer _); [|done..]. by simplify_eq.
  - destruct (read_length _ _ _ _) as [[l1 c1]| |]; [|done..]. destruct (take_bytes _ _ _ _) as [[? ?]| |]; [|done..].
    by simplify_eq.
  - destruct (read_length _ _ _ _) as [[l1 c1]| |]; [|done..]. destruct (take_bytes _ _ _ _) as [[? ?]| |]; [|done..].
    destruct (negb _); [done|]. by simplify_eq.
  - destruct (read_length _ _ _ _) as [[l1 c1]| |]; [|done..]. destruct (ok_or _ _); [|done..].
    destruct (take_bytes _ _ _ _) as [[? ?]| |]; [|done..]. destruct (validate_utf16 _); [|done..]. by simplify_eq.
  - destruct (read_length _ _ _ _) as [[l1 c1]| |] eqn:Hl; [|done..].
    apply read_length_inv in Hl as [Hl1 Hc1]; [|done|lia|done].
    destruct (read_references _ _ _ _ _ _) as [[rs c2]| |] eqn:Hrr; [|done..]. simplify_eq.
    apply read_references_inv in Hrr as [Hlen Hall]; [|done..]. split; [done|]. cbn. lia.
  - destruct (read_length _ _ _ _) as [[l1 c1]| |] eqn:Hl; [|done..].
    apply read_length_inv in Hl as [Hl1 Hc1]; [|done|lia|done].
    destruct (checked_mul 64 l1 2) as [rc|] eqn:Hmul; [|done]. apply checked_mul_Some in Hmul as [-> _].
    cbn [ok_or] in HX. destruct (read_references _ _ _ _ _ _) as [[rs c2]| |] eqn:Hrr; [|done..]. simplify_eq.
    apply read_references_inv in Hrr as [Hlen Hall]; [|done|done|lia|done]. split; [done|]. cbn. lia.
Qed.


(** The readers refuse, and never panic. *)
Lemma read_byte_np input c e : no_panic (read_byte input c e).
Proof. unfold read_byte. repeat case_match; done. Qed.

Lemma take_bytes_np input c e n : no_panic (take_bytes input c e n).
Proof. unfold take_bytes. destruct (checked_add _ _ _); cbn; [|done]. repeat case_match; done. Qed.

Lemma read_be_u64_np bs : no_panic (read_be_u64 bs).
Proof. unfold read_be_u64. by case_match. Qed.

Lemma usize_np v : no_panic (usize_from_u64 v).
Proof. unfold usize_from_u64. by destruct (try_from_u _ _). Qed.

Lemma integer_width_np l : no_panic (integer_width l).
Proof. unfold integer_width. by case_match. Qed.

Lemma decode_integer_np bs : no_panic (decode_integer bs).
Proof. unfold decode_integer. repeat case_match; try done; apply read_be_u64_np. Qed.

Lemma validate_utf16_np bs : no_panic (validate_utf16 bs).
Proof. unfold validate_utf16. by case_match. Qed.

Lemma charge_bytes_np b n : no_panic (charge_bytes b n).
Proof. unfold charge_bytes. destruct (checked_add _ _ _); cbn; [|done]. by case_match. Qed.

#[local] Hint Resolve read_byte_np take_bytes_np read_be_u64_np usize_np integer_width_np
  decode_integer_np validate_utf16_np charge_bytes_np no_panic_ok_or : t1.

Lemma read_length_np input c e low : no_panic (read_length input c e low).
Proof. unfold read_length. repeat no_panic_step. Qed.

Lemma read_references_np input c e n rs oc : no_panic (read_references input c e n rs oc).
Proof.
  unfold read_references. repeat no_panic_step.
  apply no_panic_bind; [|intros ? ?; apply no_panic_Ok].
  apply (foldM_no_panic (fun _ => True)); try done. intros st x _ _. repeat no_panic_step.
Qed.

#[local] Hint Resolve read_length_np read_references_np : t1.

Lemma scan_object_np input st e rs oc : no_panic (scan_object input st e rs oc).
Proof.
  unfold scan_object. repeat no_panic_step.
  all: apply no_panic_bind; [|intros [? ?] _; by case_match]; repeat no_panic_step.
Qed.

(** Walking references that stay inside the document does not panic. *)
Lemma validate_acyclic_np objects count : forall fuel i colors,
  Forall (scanned_ok count) objects -> len objects = count -> len colors = count -> 0 <= i < count ->
  no_panic (validate_acyclic fuel i objects colors) /\
  (forall colors', validate_acyclic fuel i objects colors = Ok colors' -> len colors' = count).
Proof.
  intros fuel. induction fuel as [|fuel IH]; intros i colors Ho Hlo Hlc Hi; [done|]. cbn [validate_acyclic].
  pose proof (index_no_panic (E := Error) colors i ltac:(lia)) as Hx.
  destruct (index colors i) as [color| |]; [|done|done]. destruct (color =? 1); [done|].
  destruct (color =? 2); [split; [done|by intros ? [= <-]]|].
  pose proof (index_no_panic (E := Error) objects i ltac:(lia)) as Hy.
  destruct (index objects i) as [o| |] eqn:Hoi; [|done|done].
  apply index_Ok in Hoi. destruct (Forall_lookup_1 _ _ _ _ Ho Hoi) as [Hch _].
  set (c0 := <[Z.to_nat i := 1]> colors).
  assert (len c0 = count) as Hc0 by (unfold c0; by rewrite length_insert).
  assert (forall s x, x ∈ children o -> len s = count -> no_panic (validate_acyclic fuel x objects s)) as Hn.
  { intros s x Hx' Hs. apply IH; try done. eapply Forall_forall in Hch; [exact Hch|done]. }
  assert (forall s x s', x ∈ children o -> len s = count -> validate_acyclic fuel x objects s = Ok s' -> len s' = count)
    as Hk.
  { intros s x s' Hx' Hs. apply IH; try done. eapply Forall_forall in Hch; [exact Hch|done]. }
  pose proof (foldM_no_panic (fun s => len s = count) _ (children o) c0 Hn Hk Hc0) as Hp.
  destruct (foldM _ _ _) as [c1| |] eqn:Hf; [|done|done]. split; [done|]. intros ? [= <-].
  rewrite length_insert. exact (foldM_inv (fun s => len s = count) _ _ _ _ Hk Hc0 Hf).
Qed.

(** Insertion keeps the keys in order. *)
Lemma bytes_compare_eq a b : bytes_compare a b = Eq -> a = b.
Proof.
  revert b. induction a as [|x a IH]; intros [|y b]; cbn; try done. destruct (x ?= y) eqn:E; try done.
  apply Z.compare_eq in E as ->. intros H. f_equal. by apply IH.
Qed.

Lemma bytes_compare_gt a b : bytes_compare a b = Gt -> bytes_compare b a = Lt.
Proof.
  revert b. induction a as [|x a IH]; intros [|y b]; cbn; try done.
  rewrite (Z.compare_antisym y x). destruct (y ?= x) eqn:E; cbn; try done. apply IH.
Qed.

Lemma bytes_compare_trans a b c : bytes_compare a b = Lt -> bytes_compare b c = Lt -> bytes_compare a c = Lt.
Proof.
  revert b c. induction a as [|x a IH]; intros [|y b] [|z c]; cbn; try done.
  destruct (x ?= y) eqn:E1; try done; destruct (y ?= z) eqn:E2; try done; intros H1 H2;
    rewrite ?Z.compare_eq_iff, ?Z.compare_lt_iff in *; subst;
    try (rewrite (proj2 (Z.compare_lt_iff _ _)) by lia; done).
  rewrite Z.compare_refl. by eapply IH.
Qed.

Lemma btree_insert_spec {V} (P : bytes * V -> Prop) k v m m' b :
  keys_sorted m -> Forall P m -> P (k, v) -> btree_insert k v m = (m', b) -> b = false ->
  keys_sorted m' /\ Forall P m' /\ m' ≡ₚ (k, v) :: m.
Proof.
  unfold keys_sorted. intros Hs Hm Hkv. revert m' b. induction Hs as [|[k0 v0] m Hs IH Hall]; intros m' b H Hb.
  { cbn in H. simplify_eq. split_and!; [by repeat constructor|by constructor|done]. }
  cbn in H. apply Forall_cons in Hm as [Hm0 Hm]. destruct (bytes_compare k k0) eqn:Hc.
  - simplify_eq.
  - simplify_eq. split_and!; [|by repeat constructor|done]. constructor; [by constructor|].
    constructor; [done|]. eapply Forall_impl; [exact Hall|]. cbn. intros kv Hkv'. by eapply bytes_compare_trans.
  - destruct (btree_insert k v m) as [m1 b1] eqn:Hi. simplify_eq.
    destruct (IH Hm m1 false eq_refl eq_refl) as (H1 & H2 & H3). split_and!.
    + constructor; [done|]. rewrite H3. constructor; [|done]. cbn. by apply bytes_compare_gt.
    + by constructor.
    + rewrite H3. apply Permutation_swap.
Qed.

Lemma utf16_units_ok bs : bytes_ok bs -> Forall (is_u 16) (utf16_units bs).
Proof.
  intros Hok. unfold utf16_units. apply Forall_fmap, Forall_forall. intros c Hc. cbn.
  pose proof (chunks_bytes_ok (length bs / 2) 2 bs Hok) as Hb. pose proof (chunks_lengths 2 bs ltac:(lia)) as Hl.
  eapply Forall_forall in Hb; [|exact Hc]. eapply Forall_forall in Hl; [|exact Hc]. cbn in Hl.
  pose proof (be_val_bound c Hb) as Hv. by rewrite Hl in Hv.
Qed.

Lemma sum_permutation {A} (f : A -> nat) l1 l2 :
  l1 ≡ₚ l2 -> fold_right (fun x n => (f x + n)%nat) 0%nat l1 = fold_right (fun x n => (f x + n)%nat) 0%nat l2.
Proof. induction 1; cbn; lia. Qed.

Lemma sum_snoc {A} (f : A -> nat) l x :
  fold_right (fun x n => (f x + n)%nat) 0%nat (l ++ [x]) =
  (fold_right (fun x n => (f x + n)%nat) 0%nat l + f x)%nat.
Proof. induction l as [|y l IH]; cbn; [lia|]. rewrite IH. lia. Qed.

Lemma wf_values_fold vs : Forall value_wf vs -> fold_right (fun v P => value_wf v /\ P) True vs.
Proof. induction 1; cbn; auto. Qed.

Lemma wf_entries_fold (kvs : list (bytes * Value.t)) :
  Forall (fun kv => text_wf (fst kv) /\ value_wf (snd kv)) kvs ->
  fold_right (fun kv P => text_wf (fst kv) /\ value_wf (snd kv) /\ P) True kvs.
Proof. induction 1 as [|kv kvs [? ?] _ IH]; cbn; auto. Qed.

Lemma max_height {A} (f : A -> nat) l (h : nat) :
  Forall (fun x => (f x < h)%nat) l -> (fold_right (fun x n => Nat.max (S (f x)) n) 0%nat l <= h)%nat.
Proof. induction 1; cbn; lia. Qed.

Section Any.
Context (input : bytes) (offsets : list Z) (ends : gmap Z Z) (scanned : list ScannedObject).

(** The decoder does not panic; a value it gives is well-formed, at most as deep
    as the fuel, and its nodes are counted. *)
Definition decode_good (fuel : nat) (b : DecodeBudget) (r : res Error (Value.t * DecodeBudget)) : Prop :=
  no_panic r /\ forall v b', r = Ok (v, b') ->
  value_wf v /\ (height v < fuel)%nat /\ nodes b' = nodes b + Z.of_nat (size v) /\
  nodes b' <= MAX_DECODED_NODES.

Lemma good_err fuel b e : decode_good fuel b (Err e).
Proof. by split. Qed.

Lemma good_ok fuel b v b' :
  value_wf v -> (height v < fuel)%nat -> nodes b' = nodes b + Z.of_nat (size v) ->
  nodes b' <= MAX_DECODED_NODES -> decode_good fuel b (Ok (v, b')).
Proof. intros. split; [done|]. intros ? ? [= <- <-]. done. Qed.

Lemma charge_bytes_nodes b n b' : charge_bytes b n = Ok b' -> nodes b' = nodes b.
Proof. unfold charge_bytes. destruct (checked_add _ _ _); cbn; [|done]. case_match; [done|]. by intros [= <-]. Qed.

(** The loops over the parts of an array and of a dictionary. *)
Lemma good_values fuel (cs : list Z) b0 :
  (forall c b, c ∈ cs -> decode_good fuel b (decode_object fuel input offsets ends scanned c b)) ->
  nodes b0 <= MAX_DECODED_NODES ->
  let r := foldM (fun '(values, budget) child =>
    let! (v, budget) := decode_object fuel input offsets ends scanned child budget in
    Ok (values ++ [v], budget)) ([], b0) cs in
  no_panic r /\ forall vs b', r = Ok (vs, b') ->
  Forall value_wf vs /\ Forall (fun v => (height v < fuel)%nat) vs /\
  nodes b' = nodes b0 + Z.of_nat (fold_right (fun v n => (size v + n)%nat) 0%nat vs) /\
  nodes b' <= MAX_DECODED_NODES.
Proof.
  intros Hcs Hb0 r.
  set (P := fun s : list Value.t * DecodeBudget =>
    Forall value_wf (fst s) /\ Forall (fun v => (height v < fuel)%nat) (fst s) /\
    nodes (snd s) = nodes b0 + Z.of_nat (fold_right (fun v n => (size v + n)%nat) 0%nat (fst s)) /\
    nodes (snd s) <= MAX_DECODED_NODES).
  assert (P ([], b0)) as HP0 by (split_and!; cbn; try constructor; lia).
  assert (forall s x s', x ∈ cs -> P s ->
    (fun '(values, budget) child =>
       let! (v, budget) := decode_object fuel input offsets ends scanned child budget in
       Ok (values ++ [v], budget)) s x = Ok s' -> P s') as Hstep.
  { intros [vs b] x s' Hx (H1 & H2 & H3 & H4) H. cbn [fst snd] in *.
    destruct (Hcs x b Hx) as [_ Hg]. destruct (decode_object _ _ _ _ _ _ _) as [[v b1]| |]; [|done..].
    simplify_eq. destruct (Hg _ _ eq_refl) as (G1 & G2 & G3 & G4). split_and!; cbn [fst snd].
    - apply Forall_app. auto.
    - apply Forall_app. auto.
    - rewrite (sum_snoc size). lia.
    - done. }
  split.
  - apply (foldM_no_panic P); [|exact Hstep|done]. intros [vs b] x Hx _.
    destruct (Hcs x b Hx) as [Hnp _]. destruct (decode_object _ _ _ _ _ _ _) as [[v b1]| |]; done.
  - intros vs b' H. apply (foldM_inv P) with (2 := HP0) in H; [exact H|exact Hstep].
Qed.

Lemma good_entries fuel (kcs : list (Z * Z)) b0 :
  (forall k c b, (k, c) ∈ kcs -> decode_good fuel b (decode_object fuel input offsets ends scanned k b) /\
     decode_good fuel b (decode_object fuel input offsets ends scanned c b)) ->
  nodes b0 <= MAX_DECODED_NODES ->
  let r := foldM (fun '(dictionary, budget) '(key, value) =>
    let! (k, budget) := decode_object fuel input offsets ends scanned key budget in
    match k with
    | Value.String k =>
        let! (v, budget) := decode_object fuel input offsets ends scanned value budget in
        let (dictionary, present) := btree_insert k v dictionary in
        if (present : bool) then Err Malformed else Ok (dictionary, budget)
    | _ => Err Malformed
    end) ([], b0) kcs in
  no_panic r /\ forall kvs b', r = Ok (kvs, b') ->
  keys_sorted kvs /\ Forall (fun kv => text_wf (fst kv) /\ value_wf (snd kv)) kvs /\
  Forall (fun kv => (height (snd kv) < fuel)%nat) kvs /\
  nodes b' = nodes b0 + Z.of_nat (fold_right (fun kv n => (S (size (snd kv)) + n)%nat) 0%nat kvs) /\
  nodes b' <= MAX_DECODED_NODES.
Proof.
  intros Hcs Hb0 r.
  set (P := fun s : list (bytes * Value.t) * DecodeBudget =>
    keys_sorted (fst s) /\ Forall (fun kv => text_wf (fst kv) /\ value_wf (snd kv)) (fst s) /\
    Forall (fun kv => (height (snd kv) < fuel)%nat) (fst s) /\
    nodes (snd s) = nodes b0 + Z.of_nat (fold_right (fun kv n => (S (size (snd kv)) + n)%nat) 0%nat (fst s)) /\
    nodes (snd s) <= MAX_DECODED_NODES).
  assert (P ([], b0)) as HP0 by (split_and!; cbn; try constructor; lia).
  split.
  - apply (foldM_no_panic (fun _ => True)); try done. intros [kvs b] [k c] Hx _.
    destruct (Hcs k c b Hx) as [[Hnp _] _].
    destruct (decode_object fuel input offsets ends scanned k b) as [[kv b1]| |]; [|done|done].
    destruct kv; try done. destruct (Hcs k c b1 Hx) as [_ [Hnp2 _]].
    destruct (decode_object _ _ _ _ _ _ _) as [[v b2]| |]; [|done|done].
    destruct (btree_insert _ _ _) as [m []]; done.
  - intros kvs b' H. apply (foldM_inv P) with (2 := HP0) in H; [exact H|]. clear H kvs b'.
    intros [kvs b] [k c] s' Hx (H1 & H2 & H2' & H3 & H4) H. cbn [fst snd] in *.
    destruct (Hcs k c b Hx) as [[_ Hg] _].
    destruct (decode_object fuel input offsets ends scanned k b) as [[kv b1]| |]; [|done..].
    destruct (Hg _ _ eq_refl) as (K1 & K2 & K3 & K4). destruct kv; try done.
    destruct (Hcs k c b1 Hx) as [_ [_ Hg2]].
    destruct (decode_object _ _ _ _ _ _ _) as [[v b2]| |]; [|done..].
    destruct (Hg2 _ _ eq_refl) as (G1 & G2 & G3 & G4).
    destruct (btree_insert _ _ _) as [m []] eqn:Hi; [done|]. simplify_eq.
    destruct (btree_insert_spec (fun kv => (text_wf (fst kv) /\ value_wf (snd kv)) /\ (height (snd kv) < fuel)%nat)
      _ _ _ _ _ H1 ltac:(apply Forall_and; done) ltac:(done) Hi eq_refl) as (I1 & I2 & I3).
    apply Forall_and in I2 as [I2 I2']. split_and!; cbn [fst snd]; try done.
    rewrite (sum_permutation (fun kv => S (size (snd kv))) _ _ I3). cbn [fold_right snd]. cbn [size] in K3. lia.
Qed.

Lemma good_bind {A} fuel b (r : res Error A) k :
  no_panic r -> (forall a, r = Ok a -> decode_good fuel b (k a)) ->
  decode_good fuel b (match r with Ok a => k a | Err e => Err e | Panic => Panic end).
Proof. intros Hn Hk. destruct r as [a|e|]; [by apply Hk|apply good_err|done]. Qed.

Context (count : Z).
Context (Hok : bytes_ok input) (Hoffs : Forall (fun o => 0 <= o) offsets) (Hlo : len offsets = count)
  (Hls : len scanned = count) (Hsc : Forall (scanned_ok count) scanned).

Lemma decode_object_good : forall fuel i b,
  0 <= i < count -> decode_good fuel b (decode_object fuel input offsets ends scanned i b).
Proof.
  intros fuel. induction fuel as [|fuel IH]; intros i b Hi; [apply good_err|]. cbn [decode_object].
  apply good_bind; [apply no_panic_ok_or|]. intros n Hn. apply ok_or_Some, checked_add_Some in Hn as [-> _].
  destruct (_ <? _) eqn:Hlim; [apply good_err|]. b2p.
  apply good_bind; [apply index_no_panic; lia|]. intros st Hst. apply index_Ok in Hst.
  pose proof (Forall_lookup_1 _ _ _ _ Hoffs Hst) as Hst0. cbn in Hst0.
  apply good_bind; [apply no_panic_ok_or|]. intros e He.
  apply good_bind; [apply read_byte_np|]. intros [m c] Hm. apply read_byte_inv in Hm as [Hm ->]; [|done].
  assert (0 <= Z.land m 15) as Hlow by (apply Z.land_nonneg; lia).
  apply good_bind; [apply index_no_panic; lia|]. intros o Ho. apply index_Ok in Ho.
  destruct (Forall_lookup_1 _ _ _ _ Hsc Ho) as [Hch Hkc].
  destruct (kind o).
  - apply good_ok; cbn; try done; lia.
  - apply good_ok; cbn; try done; lia.
  - apply good_bind; [apply integer_width_np|]. intros wd _. apply good_bind; [apply take_bytes_np|].
    intros [bs c2] _. apply good_bind; [apply decode_integer_np|]. intros z _. apply good_ok; cbn; try done; lia.
  - apply good_bind; [apply read_length_np|]. intros [l c2] Hl.
    apply read_length_inv in Hl as [Hl0 Hc2]; [|done|lia|done].
    apply good_bind; [apply charge_bytes_np|]. intros b2 Hb2. apply charge_bytes_nodes in Hb2. cbn in Hb2.
    apply good_bind; [apply take_bytes_np|]. intros [bs c3] Ht.
    apply take_bytes_inv in Ht as (Hbs & _); [|done..]. apply good_ok; cbn; try done; lia.
  - destruct (_ =? 80).
    + apply good_bind; [apply read_length_np|]. intros [l c2] Hl.
      apply read_length_inv in Hl as [Hl0 Hc2]; [|done|lia|done].
      apply good_bind; [apply charge_bytes_np|]. intros b2 Hb2. apply charge_bytes_nodes in Hb2. cbn in Hb2.
      apply good_bind; [apply take_bytes_np|]. intros [bs c3] Ht.
      apply take_bytes_inv in Ht as (Hbs & _); [|done..].
      apply good_bind; [apply no_panic_ok_or|]. intros t Htx. apply ok_or_Some, Text.from_utf8_Some in Htx as [Hu ->].
      apply good_ok; cbn; try done; lia.
    + apply good_bind; [apply read_length_np|]. intros [l c2] Hl.
      apply read_length_inv in Hl as [Hl0 Hc2]; [|done|lia|done].
      apply good_bind; [apply no_panic_ok_or|]. intros l2 Hl2. apply ok_or_Some, checked_mul_Some in Hl2 as [-> _].
      apply good_bind; [apply charge_bytes_np|]. intros b2 Hb2. apply charge_bytes_nodes in Hb2. cbn in Hb2.
      apply good_bind; [apply take_bytes_np|]. intros [bs c3] Ht.
      apply take_bytes_inv in Ht as (Hbs & _); [|done|done|lia].
      apply good_bind; [apply no_panic_ok_or|]. intros t Htx. apply ok_or_Some, Text.from_utf16_valid in Htx as [Hu Hb3];
        [|by apply utf16_units_ok].
      apply good_ok; cbn; try done; lia.
  - destruct (good_values fuel (children o) (mkBudget (nodes b + 1) (value_bytes b))) as [Hnp Hgv]; [|done|].
    { intros c b' Hc. apply IH. by eapply Forall_forall in Hch. }
    apply good_bind; [exact Hnp|]. intros [vs b2] Hf. destruct (Hgv _ _ Hf) as (V1 & V2 & V3 & V4).
    apply good_ok; cbn [value_wf height size]; [by apply wf_values_fold| |cbn in V3; lia|done].
    pose proof (max_height height vs fuel V2). lia.
  - apply good_bind.
    { unfold split_at. replace (_ && _) with true by lia. done. }
    intros [ks vs] Hsp. unfold split_at in Hsp. replace (_ && _) with true in Hsp by lia. simplify_eq.
    destruct (good_entries fuel (zip (take (Z.to_nat (dictionary_key_count o)) (children o))
      (drop (Z.to_nat (dictionary_key_count o)) (children o))) (mkBudget (nodes b + 1) (value_bytes b)))
      as [Hnp Hge]; [|done|].
    { intros k c b' Hkc'. apply elem_of_zip_l in Hkc' as Hk1. apply elem_of_zip_r in Hkc' as Hc1.
      apply elem_of_take in Hk1 as (j & Hj & _). apply list_elem_of_lookup_2 in Hj.
      apply list_elem_of_lookup in Hc1 as [j' Hj']. rewrite lookup_drop in Hj'. apply list_elem_of_lookup_2 in Hj'.
      split; apply IH; rewrite Forall_forall in Hch; auto. }
    apply good_bind; [exact Hnp|]. intros [kvs b2] Hf. destruct (Hge _ _ Hf) as (V0 & V1 & V2 & V3 & V4).
    apply good_ok; cbn [value_wf height size]; [split; [done|by apply wf_entries_fold]| |cbn in V3 |- *; lia|done].
    pose proof (max_height (fun kv => height (snd kv)) kvs fuel V2). lia.
Qed.

End Any.

(** A loop that collects one item per step. *)
Lemma foldM_collect {E A B S} (get : S -> list B) (P : B -> Prop) (f : S -> A -> res E S) l :
  (forall s x s', x ∈ l -> f s x = Ok s' -> exists y, get s' = get s ++ [y] /\ P y) ->
  forall s s', foldM f s l = Ok s' ->
  exists t, get s' = get s ++ t /\ length t = length l /\ Forall P t.
Proof.
  induction l as [|x l IH]; intros Hf s s' H; cbn [foldM] in H.
  { simplify_eq. exists []. by rewrite app_nil_r. }
  destruct (f s x) as [s1| |] eqn:Hx; [|done..]. destruct (Hf s x s1) as (y & Hy & HP); [set_solver|done|].
  destruct (IH ltac:(intros s2 x2 s3 Hin2 Hf2; apply (Hf s2 x2 s3); [apply elem_of_cons; by right|done]) s1 s' H)
    as (t & Ht & Hl & HF).
  exists (y :: t). split_and!; [by rewrite Ht, Hy, <- app_assoc|cbn; lia|by constructor].
Qed.

Lemma read_offsets_any input start (w : nat) count :
  bytes_ok input -> 0 <= start -> 0 <= count -> start + count * Z.of_nat w <= len input ->
  no_panic (read_offsets input start (Z.of_nat w) count) /\
  forall offs, read_offsets input start (Z.of_nat w) count = Ok offs ->
  len offs = count /\ Forall (fun o => 0 <= o) offs.
Proof.
  intros Hok Hst Hc Hlen. unfold read_offsets.
  assert (forall x, x ∈ Z.of_nat <$> seq 0 (Z.to_nat count) -> 0 <= x < count) as Hx.
  { intros x (k & -> & Hk)%list_elem_of_fmap. apply elem_of_seq in Hk. lia. }
  assert (forall x, x ∈ Z.of_nat <$> seq 0 (Z.to_nat count) ->
    slice (E := Error) input (Z.to_nat (start + x * Z.of_nat w)) (Z.to_nat (start + x * Z.of_nat w + Z.of_nat w))
    = Ok (take w (drop (Z.to_nat (start + x * Z.of_nat w)) input))) as Hsl.
  { intros x Hin. apply Hx in Hin. rewrite slice_ok by nia. do 2 f_equal. nia. }
  split.
  - apply (foldM_no_panic (fun _ => True)); try done. intros s x Hin _. cbv zeta. rewrite (Hsl x Hin).
    repeat no_panic_step.
  - intros offs H. apply (foldM_collect (fun l => l) (fun o => 0 <= o)) in H as (t & -> & Hl & HF).
    + rewrite length_fmap, length_seq in Hl. split; [cbn; lia|done].
    + intros s x s' Hin H'. cbv zeta in H'. rewrite (Hsl x Hin) in H'.
      destruct (read_be_u64 _) as [v| |] eqn:Hv; [|done..].
      apply read_be_u64_inv in Hv as [_ Hv]; [|by apply bytes_ok_take, bytes_ok_drop].
      unfold usize_from_u64 in H'. rewrite try_from_ok in H' by done. destruct (negb _); [done|]. simplify_eq.
      exists v. split; [done|]. apply Hv.
Qed.

Lemma scan_objects_any input ends (n : nat) count offs :
  bytes_ok input -> (1 <= n)%nat -> Forall (fun o => 0 <= o) offs ->
  no_panic (scan_objects input ends (Z.of_nat n) count offs) /\
  forall sc, scan_objects input ends (Z.of_nat n) count offs = Ok sc ->
  len sc = len offs /\ Forall (scanned_ok count) sc.
Proof.
  intros Hok Hn Hoffs. unfold scan_objects. split.
  - apply no_panic_bind; [|by intros [? ?] _]. apply (foldM_no_panic (fun _ => True)); try done.
    intros [s t] x _ _. repeat no_panic_step. apply no_panic_bind; [apply scan_object_np|]. intros; repeat no_panic_step.
  - intros sc H. destruct (foldM _ _ _) as [[sc' t]| |] eqn:Hf; [|done..]. simplify_eq.
    apply (foldM_collect fst (scanned_ok count)) in Hf as (t' & Hs & Hl & HF).
    + cbn in Hs. subst. split; [lia|done].
    + intros [s tt] x s' Hin H'. destruct (ok_or (ends !! x) Malformed) as [e| |]; [|done..].
      destruct (scan_object _ _ _ _ _) as [o| |] eqn:Ho; [|done..].
      destruct (ok_or _ _) as [tot| |]; [|done..]. destruct (_ <? tot); [done|]. simplify_eq. cbn.
      exists o. split; [done|]. eapply scan_object_inv; [done| |done|exact Ho]. by eapply Forall_forall in Hoffs.
Qed.

Lemma scanned_keys_np count sc : Forall (scanned_ok count) sc -> len sc = count -> no_panic (check_keys sc).
Proof.
  intros Hsc Hlen. unfold check_keys. apply (foldM_no_panic (fun _ => True)); try done. intros _ o Ho _.
  eapply Forall_forall in Hsc as [Hch Hk]; [|exact Ho]. rewrite slice_ok by lia.
  apply (foldM_no_panic (fun _ => True)); try done. intros _ k Hin _. rewrite drop_0 in Hin.
  apply elem_of_take in Hin as (j & Hj & _). apply list_elem_of_lookup_2 in Hj.
  eapply Forall_forall in Hch; [|exact Hj]. cbn in Hch.
  apply no_panic_bind; [apply index_no_panic; lia|]. intros ? _. repeat no_panic_step.
Qed.

(** What the decoder does with any input. *)
Lemma decode_any input :
  bytes_ok input -> no_panic (decode input) /\
  forall v, decode input = Ok v ->
  value_wf v /\ (height v <= MAX_DEPTH)%nat /\ Z.of_nat (size v) <= MAX_DECODED_NODES.
Proof.
  intros Hok.
  set (Q := fun r : res Error Value.t => no_panic r /\ forall v, r = Ok v ->
    value_wf v /\ (height v <= MAX_DEPTH)%nat /\ Z.of_nat (size v) <= MAX_DECODED_NODES).
  change (Q (decode input)).
  assert (forall e, Q (Err e)) as Qerr by (by split).
  assert (forall A (r : res Error A) k, no_panic r -> (forall a, r = Ok a -> Q (k a)) ->
    Q (match r with Ok a => k a | Err e => Err e | Panic => Panic end)) as Qbind.
  { intros A [a|e|] k Hn Hk; [by apply Hk|apply Qerr|done]. }
  unfold decode. change (len HEADER) with 8. unfold TRAILER_SIZE.
  destruct (_ <? len input); [apply Qerr|]. destruct (len input <? _) eqn:Hlen; [apply Qerr|]. b2p.
  destruct (negb _); [apply Qerr|]. cbv zeta.
  rewrite slice_from_ok by lia. set (trailer := drop _ input).
  assert (length trailer = 32%nat) as Htl by (unfold trailer; rewrite length_drop; lia).
  assert (bytes_ok trailer) as Htok by (by apply bytes_ok_drop).
  rewrite slice_ok by lia. destruct (negb _); [apply Qerr|].
  destruct (byte_at_ok (E := Error) trailer 6 ltac:(lia)) as [osz Hosz]. rewrite Hosz.
  destruct (byte_at_ok (E := Error) trailer 7 ltac:(lia)) as [rsz Hrsz]. rewrite Hrsz.
  destruct (_ || _) eqn:Hsz; [apply Qerr|]. b2p.
  assert (forall a (k : Z -> res Error Value.t), (a + 8 <= 32)%nat ->
    (forall u, is_u 64 u -> Q (k u)) ->
    Q (let! raw := slice trailer a (a + 8) in let! v := read_be_u64 raw in
       let! u := usize_from_u64 v in k u)) as Qfield.
  { intros a k Ha Hk. rewrite slice_ok by lia. apply Qbind; [apply read_be_u64_np|]. intros v Hv.
    apply read_be_u64_inv in Hv as [_ Hv]; [|by apply bytes_ok_take, bytes_ok_drop].
    unfold usize_from_u64. rewrite try_from_ok by done. by apply Hk. }
  apply (Qfield 8%nat); [lia|]. intros count Hcount. apply (Qfield 16%nat); [lia|]. intros top Htop.
  apply (Qfield 24%nat); [lia|]. intros start Hstart. unfold is_u in Hcount, Htop, Hstart.
  destruct (_ || _) eqn:Hc in |- *; [apply Qerr|]. destruct (_ || _) eqn:Hs in |- *; [apply Qerr|]. b2p.
  apply Qbind; [apply no_panic_ok_or|]. intros tsz Htsz. apply ok_or_Some, checked_mul_Some in Htsz as [-> _].
  apply Qbind; [apply no_panic_ok_or|]. intros tend Htend. apply ok_or_Some, checked_add_Some in Htend as [-> _].
  destruct (negb _) eqn:Hend in |- *; [apply Qerr|]. b2p.
  rewrite <- (Z2Nat.id osz) in * by lia. rewrite <- (Z2Nat.id rsz) in * by lia.
  destruct (read_offsets_any input start (Z.to_nat osz) count Hok ltac:(lia) ltac:(lia) ltac:(lia)) as [Hn1 Hro].
  apply Qbind; [exact Hn1|]. intros offs Hoffs. destruct (Hro _ Hoffs) as [Hlo Hof].
  destruct (_ || _) in |- *; [apply Qerr|].
  destruct (scan_objects_any input (ends_by_offset (merge_sort Z.le offs) start) (Z.to_nat rsz) count offs Hok
    ltac:(lia) Hof) as [Hn2 Hso].
  apply Qbind; [exact Hn2|]. intros sc Hsc. destruct (Hso _ Hsc) as [Hls Hscok].
  apply Qbind; [apply (scanned_keys_np count); [done|lia]|]. intros _ _.
  apply Qbind.
  { apply (foldM_no_panic (fun colors => len colors = count)).
    - intros cs x (k & -> & Hk)%list_elem_of_fmap Hcs. apply elem_of_seq in Hk.
      by apply (validate_acyclic_np sc count); [|lia|lia|lia].
    - intros cs x cs' (k & -> & Hk)%list_elem_of_fmap Hcs Hv. apply elem_of_seq in Hk.
      apply (validate_acyclic_np sc count (S MAX_DEPTH) (Z.of_nat k) cs) in Hv; [done|done|lia|lia|lia].
    - rewrite length_replicate. lia. }
  intros _ _.
  destruct (decode_object_good input offs (ends_by_offset (merge_sort Z.le offs) start) sc count Hok Hof Hlo
    ltac:(lia) Hscok (S MAX_DEPTH) top (mkBudget 0 0) ltac:(lia)) as [Hn3 Hdo].
  apply Qbind; [exact Hn3|]. intros [v b'] Hv. destruct (Hdo _ _ Hv) as (V1 & V2 & V3 & V4).
  split; [done|]. intros ? [= <-]. cbn in V3. split_and!; [done|lia|lia].
Qed.

(** No byte string makes the property list decoder panic. *)
Theorem plist_decode_no_panic input : bytes_ok input -> no_panic (decode input).
Proof. intros Hok. apply decode_any, Hok. Qed.

(** A decoded property list is a well-formed value: its text is valid, the
    keys of its dictionaries are distinct and in order, it nests at most
    [MAX_DEPTH] deep and, although a document may share its objects, it has at
    most [MAX_DECODED_NODES] nodes. *)
Theorem plist_decoded_bounded input v :
  bytes_ok input -> decode input = Ok v ->
  value_wf v /\ (height v <= MAX_DEPTH)%nat /\ Z.of_nat (size v) <= MAX_DECODED_NODES.
Proof. intros Hok. apply decode_any, Hok. Qed.

(** The written form of the example, and a truncated one. *)
Definition ex_plist : bytes := match encode ex_value with Ok bs => bs | _ => [] end.

Lemma ex_plist_ok : bytes_ok ex_plist.
Proof.
  assert (forallb (is_ub 8) ex_plist = true) as H by (vm_compute; reflexivity).
  apply Forall_forall. intros b Hb. rewrite forallb_forall in H. apply is_ub_spec, H. by apply list_elem_of_In.
Qed.

Lemma plist_decode_no_panic_witness : no_panic (decode (take 60 ex_plist)).
Proof. apply (plist_decode_no_panic (take 60 ex_plist)). apply bytes_ok_take, ex_plist_ok. Defined.

Lemma plist_decoded_bounded_witness :
  decode ex_plist = Ok ex_value /\ (height ex_value <= MAX_DEPTH)%nat.
Proof.
  assert (decode ex_plist = Ok ex_value) as H by (vm_compute; reflexivity).
  split; [exact H|]. destruct (plist_decoded_bounded ex_plist ex_value ex_plist_ok H) as (_ & Hh & _). exact Hh.
Defined.

End Plist.
