(* ===== verification/PlistLimits.v ===== *)
(** * What the property list encoder accepts ([crates/t1-bridge/src/bplist.rs])

    The round trip of the file [Plist] speaks of the values the encoder
    writes. Here are the values it does write: exactly those within the limits on
    nesting, integers, objects, references, bytes of values and bytes of output, which
    are computed from the value ([plist_len]); none of its steps panics. *)

From S2P Require Import Prelude Text Plist.

Module PlistLimits.
Import Plist.

(** ** Writing succeeds while there is room *)

(** The step [f] appends [l] to any output that has room for it. *)
Definition writes (f : bytes -> res Error bytes) (l : bytes) : Prop :=
  forall output, len output + len l <= MAX_PLIST_SIZE -> f output = Ok (output ++ l).

Lemma push_writes b : writes (fun o => push o b) [b].
Proof. intros o H. cbn in H. unfold push. by replace (_ <=? _) with false by lia. Qed.

Lemma append_writes l : writes (fun o => append o l) l.
Proof.
  intros o H. unfold append. rewrite checked_add_ok by (unfold MAX_PLIST_SIZE, umax in *; lia).
  by replace (_ <? _) with false by lia.
Qed.

Lemma append_be_writes v (n : nat) :
  (n = 1 \/ n = 2 \/ n = 4 \/ n = 8)%nat -> writes (fun o => append_be o v (Z.of_nat n)) (be_bytes n v).
Proof.
  intros Hn o H. unfold append_be. replace (negb _) with false by lia.
  replace (Z.to_nat (8 - Z.of_nat n)) with (8 - n)%nat by lia. rewrite be_bytes_low by lia.
  by apply append_writes.
Qed.

Lemma writes_bind f g l1 l2 :
  writes f l1 -> writes g l2 -> writes (fun o => let! o := f o in g o) (l1 ++ l2).
Proof.
  intros Hf Hg o H. rewrite length_app in H. rewrite Hf by lia. rewrite Hg by (rewrite length_app; lia).
  by rewrite app_assoc.
Qed.

Lemma writes_foldM {A} (f : bytes -> A -> res Error bytes) (g : A -> bytes) xs :
  Forall (fun x => writes (fun o => f o x) (g x)) xs -> writes (fun o => foldM f o xs) (concat (g <$> xs)).
Proof.
  induction 1 as [|x xs Hx _ IH]; intros o H; [cbn; by rewrite app_nil_r|].
  apply (writes_bind (fun o => f o x) (fun o => foldM f o xs) (g x) (concat (g <$> xs)) Hx IH o H).
Qed.

Lemma width_of_cases v : (width_of v = 1 \/ width_of v = 2 \/ width_of v = 4 \/ width_of v = 8)%nat.
Proof. unfold width_of, integer_storage_width. repeat destruct (is_ub _ v); cbn; lia. Qed.

Lemma append_width_writes v :
  0 <= v -> writes (fun o => append_be o v (integer_storage_width v)) (be_bytes (width_of v) v).
Proof. intros Hv. rewrite storage_width_nat by done. apply append_be_writes, width_of_cases. Qed.

Lemma exponent_ok v e :
  ok_or (try_from_u 8 (trailing_zeros (integer_storage_width v))) e =
  Ok (E := Error) (Z.log2 (integer_storage_width v)).
Proof. unfold integer_storage_width. by repeat destruct (is_ub _ v). Qed.

Lemma encode_length_writes marker n :
  is_u 64 n -> writes (fun o => encode_length marker n o) (length_bytes marker n).
Proof.
  intros Hn. unfold encode_length, length_bytes. destruct (n <? 15); [apply push_writes|].
  apply (writes_bind (fun o => push o _) _ [_]); [apply push_writes|]. intros o H.
  rewrite try_from_ok by done. rewrite exponent_ok.
  apply (writes_bind (fun o => push o _) (fun o => append_be o n (integer_storage_width n)) [_]);
    [apply push_writes|apply append_width_writes, Hn|done].
Qed.

Lemma encode_integer_writes v :
  I64_MIN <= v <= umax 64 -> writes (fun o => encode_integer v o) (integer_bytes v).
Proof.
  intros Hv. unfold encode_integer, integer_bytes. destruct (v <? 0) eqn:Hneg; b2p.
  { apply (writes_bind (fun o => push o _) _ [_]); [apply push_writes|]. intros o H.
    replace (v <? I64_MIN) with false by lia. by apply append_writes. }
  assert (is_u 64 v) as Hu by (unfold umax, is_u in *; lia).
  intros o. rewrite try_from_ok by done. cbn beta iota zeta. rewrite exponent_ok. revert o.
  destruct (storage_width_cases v ltac:(lia)) as [[Hw _]|[[Hw _]|[[Hw _]|[Hw _]]]].
  4:{ rewrite Hw. change (8 =? 1) with false. change (8 =? 2) with false. change (8 =? 4) with false.
      change (8 =? 8) with true. cbn [orb andb]. destruct (v <? 2 ^ 63).
      - apply (writes_bind (fun o => push o _) (fun o => append_be o v (Z.of_nat 8)) [_]);
          [apply push_writes|apply append_be_writes; lia].
      - apply (writes_bind (fun o => push o _) _ [_]); [apply push_writes|].
        apply (writes_bind (fun o => append o _) (fun o => append_be o v (Z.of_nat 8)));
          [apply append_writes|apply append_be_writes; lia]. }
  all: replace ((_ =? 1) || _ || _) with true by (rewrite Hw; reflexivity);
    replace (_ =? 8) with false by (rewrite Hw; reflexivity);
    apply (writes_bind (fun o => push o _) (fun o => append_be o v (integer_storage_width v)) [_]);
    [apply push_writes|by apply append_width_writes].
Qed.

Lemma append_references_writes rs (n : nat) :
  (n = 1 \/ n = 2 \/ n = 4 \/ n = 8)%nat -> Forall (is_u 64) rs ->
  writes (fun o => append_references o rs (Z.of_nat n)) (reference_bytes n rs).
Proof.
  intros Hn Hrs. apply (writes_foldM _ (be_bytes n)). eapply Forall_impl; [exact Hrs|]. cbn.
  intros r Hr o H. rewrite try_from_ok by done. by apply append_be_writes.
Qed.

(** An object whose lengths and references fit the machine's width. *)
Definition object_fits (o : EncodedObject.t) : Prop :=
  object_wf o /\ is_u 64 (len (payload o)) /\ is_u 64 (len (refs o)) /\ Forall (is_u 64) (refs o).

Lemma length_unit_bytes us : length (unit_bytes us) = (2 * length us)%nat.
Proof.
  unfold unit_bytes. induction us as [|u us IH]; [done|]. cbn. rewrite length_app, IH, length_be_bytes. lia.
Qed.

Lemma encode_object_writes ob (n : nat) :
  (n = 1 \/ n = 2 \/ n = 4 \/ n = 8)%nat -> object_fits ob ->
  writes (fun o => encode_object ob (Z.of_nat n) o) (object_bytes n ob).
Proof.
  intros Hn (Hwf & Hp & Hl & Hr).
  destruct ob as [|[]|v|d|s|rs|ks vs]; cbn [encode_object object_bytes payload refs object_wf] in *.
  1-3: apply push_writes.
  - by apply encode_integer_writes.
  - apply (writes_bind (fun o => encode_length _ _ o) (fun o => append o d));
      [by apply encode_length_writes|apply append_writes].
  - unfold text_bytes in Hp. destruct (Text.is_ascii s).
    + apply (writes_bind (fun o => encode_length _ _ o) (fun o => append o s));
        [by apply encode_length_writes|apply append_writes].
    + rewrite length_unit_bytes in Hp.
      apply (writes_bind (fun o => encode_length _ _ o)
        (fun o => foldM (fun o u => append o (be_bytes 2 u)) o (Text.encode_utf16 s)));
        [apply encode_length_writes; unfold is_u in *; lia|].
      apply writes_foldM, Forall_true. intros u. apply append_writes.
  - apply (writes_bind (fun o => encode_length _ _ o) (fun o => append_references o rs (Z.of_nat n)));
      [by apply encode_length_writes|by apply append_references_writes].
  - rewrite length_app in Hl.
    apply (writes_bind (fun o => encode_length _ _ o)
      (fun o => append_references o (ks ++ vs) (Z.of_nat n)));
      [apply encode_length_writes; unfold is_u in *; lia|by apply append_references_writes].
Qed.

Lemma encode_objects_writes os (n : nat) output :
  (n = 1 \/ n = 2 \/ n = 4 \/ n = 8)%nat -> Forall object_fits os ->
  len output + len (concat (object_bytes n <$> os)) <= MAX_PLIST_SIZE ->
  encode_objects os (Z.of_nat n) output =
  Ok (offsets_from (len output) (object_bytes n <$> os), output ++ concat (object_bytes n <$> os)).
Proof.
  intros Hn Hos. unfold encode_objects.
  enough (forall offs0 output, len output + len (concat (object_bytes n <$> os)) <= MAX_PLIST_SIZE ->
    foldM (fun '(offsets, output) object =>
      let offsets := offsets ++ [len output] in
      let! output := encode_object object (Z.of_nat n) output in
      Ok (offsets, output)) (offs0, output) os =
    Ok (offs0 ++ offsets_from (len output) (object_bytes n <$> os),
        output ++ concat (object_bytes n <$> os))) as Hgen by apply (Hgen []).
  clear output. induction Hos as [|ob os Ho _ IH]; intros offs0 output H; [cbn; by rewrite !app_nil_r|].
  cbn [fmap list_fmap concat] in H. rewrite length_app in H. cbn [foldM].
  rewrite (encode_object_writes ob n Hn Ho) by lia. cbn beta iota zeta.
  change (list_fmap _ _ (object_bytes n) os) with (object_bytes n <$> os) in H.
  rewrite IH by (rewrite length_app; lia). cbn. rewrite <- !app_assoc, length_app, Nat2Z.inj_add. done.
Qed.

(** ** Values within the limits *)

(** The bytes of text and data of a value, in UTF-8, and the range of its
    integers. *)
Fixpoint raw_bytes (v : Value.t) : nat :=
  match v with
  | Value.Data d => length d
  | Value.String s => length s
  | Value.Array vs => fold_right (fun v n => (raw_bytes v + n)%nat) 0%nat vs
  | Value.Dictionary kvs =>
      fold_right (fun kv n => (length (fst kv) + raw_bytes (snd kv) + n)%nat) 0%nat kvs
  | Value.Null | Value.Boolean _ | Value.Integer _ => 0%nat
  end.

Fixpoint integers_ok (v : Value.t) : bool :=
  match v with
  | Value.Integer i => (I64_MIN <=? i) && (i <=? umax 64)
  | Value.Array vs => forallb integers_ok vs
  | Value.Dictionary kvs => forallb (fun kv => integers_ok (snd kv)) kvs
  | _ => true
  end.

(** A simple condition under which a value fits all the limits: an object takes at most 17
    bytes besides its text and its references, and there is at most one reference and one
    offset per object, of 4 bytes each. The exact condition is [encodable], below. *)
Definition surely_fits (v : Value.t) : bool :=
  integers_ok v && (height v <=? MAX_DEPTH)%nat && (Z.of_nat (size v) <=? MAX_OBJECTS) &&
  (25 * Z.of_nat (size v) + 2 * Z.of_nat (raw_bytes v) + 40 <=? MAX_PLIST_SIZE).

Lemma charge_references_fits e n :
  0 <= n -> enc_references e + n <= MAX_REFERENCES ->
  charge_references e n = Ok (mkEncoder (objects e) (enc_references e + n) (enc_value_bytes e)).
Proof.
  intros Hn H. unfold charge_references.
  rewrite checked_add_ok by (unfold MAX_REFERENCES, umax in *; lia). by replace (_ <? _) with false by lia.
Qed.

Lemma charge_bytes_fits e n :
  0 <= n -> enc_value_bytes e + n <= MAX_VALUE_BYTES ->
  encoder_charge_bytes e n = Ok (mkEncoder (objects e) (enc_references e) (enc_value_bytes e + n)).
Proof.
  intros Hn H. unfold encoder_charge_bytes.
  rewrite checked_add_ok by (unfold MAX_VALUE_BYTES, MAX_PLIST_SIZE, umax in *; lia).
  by replace (_ <? _) with false by lia.
Qed.

(** [e] has room for [n] objects, [r] references and [b] bytes, and [e'] has
    used it up. *)
Definition room (e : Encoder) (n r b : Z) : Prop :=
  len (objects e) + n <= MAX_OBJECTS /\ enc_references e + r <= MAX_REFERENCES /\
  enc_value_bytes e + b <= MAX_VALUE_BYTES.

Definition used (e e' : Encoder) (n r b : Z) : Prop :=
  len (objects e') = len (objects e) + n /\ enc_references e' = enc_references e + r /\
  enc_value_bytes e' = enc_value_bytes e + b.

(** [add] succeeds for [v] wherever there is room for it. *)
Definition add_fits (v : Value.t) : Prop :=
  forall d e, d + Z.of_nat (height v) <= Z.of_nat MAX_DEPTH -> integers_ok v = true ->
  room e (Z.of_nat (size v)) (Z.of_nat (size v) - 1) (Z.of_nat (raw_bytes v)) ->
  exists e', add d e v = Ok (len (objects e), e') /\
    used e e' (Z.of_nat (size v)) (Z.of_nat (size v) - 1) (Z.of_nat (raw_bytes v)).

#[local] Abbreviation values_size vs := (Z.of_nat (fold_right (fun v n => (size v + n)%nat) 0%nat vs)).
#[local] Abbreviation values_bytes vs := (Z.of_nat (fold_right (fun v n => (raw_bytes v + n)%nat) 0%nat vs)).
#[local] Abbreviation entries_size kvs := (Z.of_nat (fold_right (fun kv n => (S (size (snd kv)) + n)%nat) 0%nat kvs)).
#[local] Abbreviation entries_bytes kvs :=
  (Z.of_nat (fold_right (fun kv n => (length (fst kv) + raw_bytes (snd kv) + n)%nat) 0%nat kvs)).

Lemma values_size_len (vs : list Value.t) : len vs <= values_size vs.
Proof. induction vs as [|v vs IH]; cbn [fold_right length]; [done|]. pose proof (size_pos v). lia. Qed.

Lemma entries_size_len (kvs : list (bytes * Value.t)) : 2 * len kvs <= entries_size kvs.
Proof. induction kvs as [|[k v] kvs IH]; cbn [fold_right length snd]; [done|]. pose proof (size_pos v). lia. Qed.

Lemma add_values_fits d vs : Forall add_fits vs ->
  Forall (fun v => d + Z.of_nat (height v) <= Z.of_nat MAX_DEPTH /\ integers_ok v = true) vs ->
  forall cs e, room e (values_size vs) (values_size vs - len vs) (values_bytes vs) ->
  exists cs' e', add_values (add d) vs cs e = Ok (cs', e') /\
    used e e' (values_size vs) (values_size vs - len vs) (values_bytes vs).
Proof.
  intros Hf. induction Hf as [|v vs Hv _ IH]; intros Hd cs e HR.
  { exists cs, e. split; [done|]. unfold used. cbn. lia. }
  apply Forall_cons in Hd as [[Hd Hi] Hds]. pose proof (values_size_len vs) as Hle. pose proof (size_pos v).
  unfold room in HR. cbn [fold_right length] in HR. cbn [add_values].
  destruct (Hv d e Hd Hi) as (e1 & -> & U1); [unfold room; lia|]. unfold used in U1.
  destruct (IH Hds (cs ++ [len (objects e)]) e1) as (cs' & e' & -> & U2); [unfold room; lia|].
  exists cs', e'. split; [done|]. unfold used in *. cbn [fold_right length]. lia.
Qed.

Lemma add_entries_fits d kvs : Forall (fun kv => add_fits (snd kv)) kvs ->
  Forall (fun kv => d + Z.of_nat (height (snd kv)) <= Z.of_nat MAX_DEPTH /\
                    integers_ok (snd kv) = true) kvs ->
  forall keys cs e, room e (entries_size kvs) (entries_size kvs - 2 * len kvs) (entries_bytes kvs) ->
  exists keys' cs' e', add_entries (add d) kvs keys cs e = Ok (keys', cs', e') /\
    used e e' (entries_size kvs) (entries_size kvs - 2 * len kvs) (entries_bytes kvs).
Proof.
  intros Hf. induction Hf as [|[k v] kvs Hv _ IH]; intros Hd keys cs e HR.
  { exists keys, cs, e. split; [done|]. unfold used. cbn. lia. }
  apply Forall_cons in Hd as [[Hd Hi] Hds]. pose proof (entries_size_len kvs) as Hle. pose proof (size_pos v).
  unfold room in HR. cbn [fold_right length fst snd] in *. cbn [add_entries].
  rewrite charge_bytes_fits by lia. cbn [objects]. replace (_ <=? _) with false by lia.
  set (e0 := push_object _ _).
  assert (len (objects e0) = len (objects e) + 1 /\ enc_references e0 = enc_references e /\
    enc_value_bytes e0 = enc_value_bytes e + len k) as U0 by (cbn; rewrite length_app; cbn; lia).
  destruct (Hv d e0 Hd Hi) as (e1 & -> & U1); [unfold room; lia|]. unfold used in U1.
  edestruct (IH Hds) as (keys' & cs' & e' & -> & U2); [unfold room; lia|].
  exists keys', cs', e'. split; [done|]. unfold used in *. lia.
Qed.

Lemma set_object_fits e i o :
  0 <= i < len (objects e) -> exists e', set_object e i o = Ok e' /\ used e e' 0 0 0.
Proof.
  intros Hi. unfold set_object. replace (_ <? _) with true by lia. eexists. split; [done|].
  unfold used. cbn. rewrite length_insert. lia.
Qed.

Lemma height_parts {A} (f : A -> nat) (l : list A) d :
  d + Z.of_nat (fold_right (fun x n => Nat.max (S (f x)) n) 0%nat l) <= Z.of_nat MAX_DEPTH ->
  Forall (fun x => d + 1 + Z.of_nat (f x) <= Z.of_nat MAX_DEPTH) l.
Proof. induction l as [|x l IH]; cbn [fold_right]; [done|]. intros H. constructor; [lia|]. apply IH. lia. Qed.

Lemma parts_ok {A} (f : A -> Value.t) (l : list A) d :
  d + Z.of_nat (fold_right (fun x n => Nat.max (S (height (f x))) n) 0%nat l) <= Z.of_nat MAX_DEPTH ->
  forallb (fun x => integers_ok (f x)) l = true ->
  Forall (fun x => d + 1 + Z.of_nat (height (f x)) <= Z.of_nat MAX_DEPTH /\ integers_ok (f x) = true) l.
Proof.
  intros Hd Hi. apply Forall_and. split; [by apply (height_parts (fun x => height (f x)))|].
  apply Forall_forall. intros x Hx. rewrite forallb_forall in Hi. apply Hi. by apply list_elem_of_In.
Qed.

(** The end of [add] for a value with parts. *)
Lemma add_close e e0 e1 o n r b :
  objects e0 = objects e ++ [EncodedObject.Null] -> 0 <= n ->
  enc_value_bytes e0 = enc_value_bytes e -> used e0 e1 n r b ->
  exists e', set_object e1 (len (objects e)) o = Ok e' /\
    used e e' (1 + n) (enc_references e0 - enc_references e + r) b.
Proof.
  intros Ho Hn Hv U. unfold used in U. rewrite Ho, length_app in U. cbn [length] in U.
  destruct (set_object_fits e1 (len (objects e)) o) as (e' & -> & U'); [lia|].
  exists e'. split; [done|]. unfold used in *. lia.
Qed.

Lemma add_total v : add_fits v.
Proof.
  induction v as [|b|i|dt|st|vs IH|kvs IH] using value_ind'; intros d e Hd Hi HR; unfold room in HR;
    cbn [height size raw_bytes] in *; cbn [add];
    replace (_ || (MAX_OBJECTS <=? _)) with false by lia; cbn beta zeta iota;
    set (ep := push_object e EncodedObject.Null);
    assert (objects ep = objects e ++ [EncodedObject.Null]) as Hp by done.
  - edestruct (add_close e ep ep EncodedObject.Null 0 0 0) as (e' & -> & U); [done..|unfold used; lia|].
    exists e'. split; [done|]. unfold used in *. cbn in U. lia.
  - edestruct (add_close e ep ep (EncodedObject.Boolean b) 0 0 0) as (e' & -> & U); [done..|unfold used; lia|].
    exists e'. split; [done|]. unfold used in *. cbn in U. lia.
  - cbn [integers_ok] in Hi. replace (_ || _) with false by lia.
    edestruct (add_close e ep ep (EncodedObject.Integer i) 0 0 0) as (e' & -> & U); [done..|unfold used; lia|].
    exists e'. split; [done|]. unfold used in *. cbn in U. lia.
  - rewrite charge_bytes_fits by (cbn; lia).
    edestruct (add_close e ep (mkEncoder (objects ep) (enc_references ep) (enc_value_bytes ep + len dt))
      (EncodedObject.Data dt) 0 0 (len dt)) as (e' & -> & U); [done..|unfold used; cbn; lia|].
    exists e'. split; [done|]. unfold used in *. cbn in U. lia.
  - rewrite charge_bytes_fits by (cbn; lia).
    edestruct (add_close e ep (mkEncoder (objects ep) (enc_references ep) (enc_value_bytes ep + len st))
      (EncodedObject.String st) 0 0 (len st)) as (e' & -> & U); [done..|unfold used; cbn; lia|].
    exists e'. split; [done|]. unfold used in *. cbn in U. lia.
  - pose proof (values_size_len vs) as Hle. cbn [integers_ok] in Hi.
    rewrite charge_references_fits by (cbn [ep enc_references push_object]; lia). set (e0 := mkEncoder _ _ _).
    destruct (add_values_fits (d + 1) vs IH (parts_ok (fun v => v) vs d Hd Hi) [] e0)
      as (cs & e1 & -> & U); [unfold room; cbn [e0 ep objects enc_references enc_value_bytes push_object]; rewrite length_app; cbn [length]; lia|].
    edestruct (add_close e e0 e1 (EncodedObject.Array cs)) as (e' & -> & U'); [done| |done|exact U|]; [lia|].
    exists e'. split; [done|]. unfold used in *. cbn [e0 ep enc_references push_object] in U'. lia.
  - pose proof (entries_size_len kvs) as Hle. cbn [integers_ok] in Hi.
    rewrite checked_mul_ok by (unfold MAX_OBJECTS, umax in *; lia).
    rewrite charge_references_fits by (cbn [ep enc_references push_object]; lia). set (e0 := mkEncoder _ _ _).
    destruct (add_entries_fits (d + 1) kvs IH (parts_ok snd kvs d Hd Hi) [] [] e0)
      as (ks & cs & e1 & -> & U); [unfold room; cbn [e0 ep objects enc_references enc_value_bytes push_object]; rewrite length_app; cbn [length]; lia|].
    edestruct (add_close e e0 e1 (EncodedObject.Dictionary ks cs)) as (e' & -> & U'); [done| |done|exact U|]; [lia|].
    exists e'. split; [done|]. unfold used in *. cbn [e0 ep enc_references push_object] in U'. lia.
Qed.

(** ** How much is written *)

Lemma length_bytes_bound marker n : len (length_bytes marker n) <= 10.
Proof.
  unfold length_bytes. destruct (n <? 15); [done|]. cbn [length]. rewrite length_be_bytes.
  destruct (width_of_cases n) as [->|[->|[->| ->]]]; lia.
Qed.

Lemma integer_bytes_bound v : len (integer_bytes v) <= 17.
Proof.
  unfold integer_bytes. destruct (v <? 0); [|destruct (_ =? 8); [destruct (_ <? 2 ^ 63)|]];
    cbn [length]; rewrite ?length_app, ?length_be_bytes, ?length_replicate; try lia.
  destruct (width_of_cases v) as [->|[->|[->| ->]]]; lia.
Qed.

Lemma reference_bytes_len n rs : len (reference_bytes n rs) = Z.of_nat n * len rs.
Proof.
  unfold reference_bytes. induction rs as [|r rs IH]; [cbn; lia|].
  cbn [fmap list_fmap concat length]. rewrite length_app, length_be_bytes.
  change (list_fmap _ _ (be_bytes n) rs) with (be_bytes n <$> rs). lia.
Qed.

Lemma object_bytes_bound n o :
  len (object_bytes n o) <= 17 + len (payload o) + Z.of_nat n * len (refs o).
Proof.
  destruct o as [|b|v|d|s|rs|ks vs]; cbn [object_bytes payload refs length].
  1-2: lia.
  - pose proof (integer_bytes_bound v). lia.
  - pose proof (length_bytes_bound 0x40 (len d)). rewrite length_app. lia.
  - unfold text_bytes. destruct (Text.is_ascii s); rewrite length_app.
    + pose proof (length_bytes_bound 0x50 (len s)). lia.
    + pose proof (length_bytes_bound 0x60 (len (Text.encode_utf16 s))). lia.
  - pose proof (length_bytes_bound 0xa0 (len rs)). rewrite length_app, Nat2Z.inj_add, reference_bytes_len. lia.
  - pose proof (length_bytes_bound 0xd0 (len ks)).
    rewrite (length_app (length_bytes _ _)), Nat2Z.inj_add, reference_bytes_len. lia.
Qed.

Lemma objects_bytes_bound n os :
  len (concat (object_bytes n <$> os)) <=
  17 * len os + len (concat (payload <$> os)) + Z.of_nat n * len (concat (refs <$> os)).
Proof.
  induction os as [|o os IH]; [cbn; lia|]. rewrite !fmap_cons. cbn [concat length].
  rewrite !length_app. pose proof (object_bytes_bound n o). lia.
Qed.

Lemma text_bytes_bound s : text_wf s -> (length (text_bytes s) <= 2 * length s)%nat.
Proof.
  intros [Hok Hv]. unfold text_bytes. destruct (Text.is_ascii s); [lia|]. rewrite length_unit_bytes.
  pose proof (Text.length_encode_utf16 s Hok Hv). lia.
Qed.

Lemma vbytes_bound v : value_wf v -> (vbytes v <= 2 * raw_bytes v)%nat.
Proof.
  induction v as [|b|i|d|s|vs IH|kvs IH] using value_ind'; cbn [value_wf vbytes raw_bytes]; intros Hw; try lia.
  - by apply text_bytes_bound.
  - induction IH as [|v vs Hv _ IHvs]; cbn [fold_right] in *; [lia|]. destruct Hw as [H1 H2].
    specialize (Hv H1). specialize (IHvs H2). lia.
  - destruct Hw as [_ Hw].
    induction IH as [|[k v] kvs Hv _ IHkvs]; cbn [fold_right fst snd] in *; [lia|]. destruct Hw as (H0 & H1 & H2).
    specialize (Hv H1). specialize (IHkvs H2). pose proof (text_bytes_bound k H0). lia.
Qed.

Lemma width_small v : 0 <= v < 2 ^ 32 -> (width_of v <= 4)%nat.
Proof.
  intros Hv. unfold width_of.
  destruct (storage_width_cases v ltac:(lia)) as [[-> _]|[[-> _]|[[-> _]|[-> H]]]]; lia.
Qed.

Lemma document_len os top :
  len (document os top) =
  table_start (width_of (len os - 1)) os +
  Z.of_nat (width_of (table_start (width_of (len os - 1)) os)) * len os + 32.
Proof.
  unfold document. rewrite !length_app, !length_be_bytes, length_replicate, !Nat2Z.inj_add, reference_bytes_len,
    length_offsets_from, length_fmap. unfold table_start. cbn [length HEADER]. lia.
Qed.

(** ** The encoder *)

(** The offset table and the trailer. *)
Lemma table_writes (w : nat) offs :
  (w = 1 \/ w = 2 \/ w = 4 \/ w = 8)%nat -> Forall (is_u 64) offs ->
  writes (fun output => foldM (fun output offset =>
      let! v := ok_or (try_from_u 64 offset) OutputTooLarge in
      append_be output v (Z.of_nat w)) output offs) (reference_bytes w offs).
Proof. intros Hw Ho. by apply append_references_writes. Qed.

Lemma trailer_writes w n count top start :
  writes (fun output =>
    let! output := append output (replicate 6 0) in
    let! output := push output w in
    let! output := push output n in
    let! output := append_be output count 8 in
    let! output := append_be output top 8 in
    append_be output start 8)
    (replicate 6 0 ++ [w; n] ++ be_bytes 8 count ++ be_bytes 8 top ++ be_bytes 8 start).
Proof.
  assert (forall v, writes (fun o => append_be o v 8) (be_bytes 8 v)) as Hbe
    by (intros v; apply (append_be_writes v 8); lia).
  apply (writes_bind (fun o => append o (replicate 6 0))); [apply append_writes|].
  apply (writes_bind (fun o => push o w) _ [w]); [apply push_writes|].
  apply (writes_bind (fun o => push o n) _ [n]); [apply push_writes|].
  do 2 (apply (writes_bind (fun o => append_be o _ 8)); [apply Hbe|]). apply Hbe.
Qed.

Lemma offsets_fit c ps :
  0 <= c -> c + len (concat ps) <= MAX_PLIST_SIZE -> Forall (is_u 64) (offsets_from c ps).
Proof.
  revert c. induction ps as [|p ps IH]; intros c Hc H; [constructor|]. cbn [concat] in H.
  rewrite length_app in H. constructor; [unfold is_u, MAX_PLIST_SIZE in *; lia|]. apply IH; lia.
Qed.

Lemma encode_writes v top e :
  add 0 (mkEncoder [] 0 0) v = Ok (top, e) -> 1 <= len (objects e) <= MAX_OBJECTS -> is_u 64 top ->
  Forall object_fits (objects e) -> len (document (objects e) top) <= MAX_PLIST_SIZE ->
  encode v = Ok (document (objects e) top).
Proof.
  intros Hadd Hn Htop Hos Hlen. unfold encode. rewrite Hadd. cbn beta iota.
  rewrite document_len in Hlen. unfold document.
  unfold saturating_sub. rewrite Z.max_r by lia.
  rewrite try_from_ok by (unfold is_u, MAX_OBJECTS in *; lia). cbn beta iota zeta.
  rewrite (storage_width_nat (len (objects e) - 1)) by lia.
  set (n := width_of (len (objects e) - 1)) in *. set (os := objects e) in *.
  set (start := table_start n os) in *. assert (8 <= start) as Hs by (unfold start, table_start; lia).
  replace (append [] HEADER) with (Ok (E := Error) HEADER) by reflexivity. cbn beta iota.
  rewrite (encode_objects_writes os n HEADER (width_of_cases _) Hos)
    by (change (len HEADER) with 8; unfold start, table_start in *; lia).
  change (len HEADER) with 8. cbn beta iota zeta.
  assert (len (HEADER ++ concat (object_bytes n <$> os)) = start) as ->
    by (unfold start, table_start; rewrite length_app; cbn [length HEADER]; lia).
  rewrite !(try_from_ok 64 start) by (unfold is_u, MAX_PLIST_SIZE in *; lia). cbn beta iota zeta.
  rewrite (storage_width_nat start) by lia. set (w := width_of start) in *.
  assert (forall v, is_u 8 (Z.of_nat (width_of v))) as Hw8
    by (intros x; unfold is_u; destruct (width_of_cases x) as [->|[->|[->| ->]]]; lia).
  rewrite (try_from_ok 8 (Z.of_nat w)) by apply Hw8. rewrite (try_from_ok 8 (Z.of_nat n)) by apply Hw8.
  rewrite (try_from_ok 64 (len os)) by (unfold is_u, MAX_OBJECTS in *; lia).
  rewrite (try_from_ok 64 top) by done. cbn beta iota.
  rewrite (app_assoc HEADER).
  assert (Forall (is_u 64) (offsets_from 8 (object_bytes n <$> os))) as Hoffs
    by (apply offsets_fit; [lia|unfold start, table_start in *; lia]).
  apply (writes_bind _ _ _ _ (table_writes w (offsets_from 8 (object_bytes n <$> os)) (width_of_cases _) Hoffs)
    (trailer_writes (Z.of_nat w) (Z.of_nat n) (len os) top start)).
  rewrite !length_app, !length_be_bytes, length_replicate, !Nat2Z.inj_add, reference_bytes_len,
    length_offsets_from, length_fmap.
  unfold start, table_start in *. cbn [length HEADER] in *. lia.
Qed.

Lemma in_concat_le {A B} (f : A -> list B) x l :
  x ∈ l -> (length (f x) <= length (concat (f <$> l)))%nat.
Proof.
  induction 1 as [x l|x y l _ IH]; rewrite fmap_cons; cbn [concat]; rewrite length_app; lia.
Qed.

(** The objects the encoder collects can be written. *)
Lemma added_fits v e' news :
  added 0 (mkEncoder [] 0 0) v e' news -> value_wf v -> enc_references e' <= MAX_REFERENCES ->
  Z.of_nat (size v) <= MAX_OBJECTS -> Z.of_nat (vbytes v) <= MAX_PLIST_SIZE ->
  objects e' = news /\ Forall object_fits news.
Proof.
  intros [[Ho _ _ _ Hb] Hs _ _ Hy Hc Hw] Hv Hr Hn Hvb. cbn in Ho, Hc. split; [done|].
  apply Forall_forall. intros o Hin. pose proof (in_concat_le payload o news Hin).
  pose proof (in_concat_le refs o news Hin). unfold MAX_REFERENCES, MAX_PLIST_SIZE, MAX_OBJECTS in *.
  split_and!; [|unfold is_u; lia..|].
  - specialize (Hw Hv). rewrite Forall_forall in Hw. by apply Hw.
  - rewrite Forall_forall in Hb. eapply Forall_impl; [by apply Hb|]. cbn. intros r Hr'.
    unfold is_u. rewrite Ho in Hr'. lia.
Qed.

Lemma encode_total v : value_wf v -> surely_fits v = true -> exists bs, encode v = Ok bs.
Proof.
  intros Hv Hl. unfold surely_fits in Hl. apply andb_true_iff in Hl as [Hl Hsz].
  apply andb_true_iff in Hl as [Hl Hn]. apply andb_true_iff in Hl as [Hi Hh].
  apply Nat.leb_le in Hh. apply Z.leb_le in Hn, Hsz. pose proof (vbytes_bound v Hv) as Hvb.
  pose proof (size_pos v).
  destruct (add_total v 0 (mkEncoder [] 0 0)) as (e & Ha & U); [lia|done| |].
  { unfold room; cbn. unfold MAX_REFERENCES, MAX_VALUE_BYTES, MAX_OBJECTS, MAX_PLIST_SIZE in *. lia. }
  unfold used in U. cbn [objects enc_references enc_value_bytes length] in *.
  destruct (add_added v 0 _ _ _ ltac:(lia) Ha) as [_ [news A]].
  destruct (added_fits v e news A Hv) as [Ho Hf];
    [unfold MAX_REFERENCES, MAX_PLIST_SIZE, MAX_OBJECTS in *; lia..|].
  exists (document (objects e) (Z.of_nat 0)). apply encode_writes; [done|lia|done|by rewrite Ho|].
  rewrite document_len. set (n := width_of _).
  assert (n <= 4)%nat by (apply width_small; unfold MAX_OBJECTS in *; lia).
  destruct A as [_ _ _ _ Hy Hc _]. cbn [enc_references] in Hc. rewrite <- Ho in Hy, Hc.
  pose proof (objects_bytes_bound n (objects e)) as Hbody.
  assert (table_start n (objects e) <= 4 + 21 * Z.of_nat (size v) + 2 * Z.of_nat (raw_bytes v)) as Hst
    by (unfold table_start; nia).
  assert (width_of (table_start n (objects e)) <= 4)%nat.
  { apply width_small. unfold MAX_PLIST_SIZE in *. unfold table_start in *. lia. }
  nia.
Qed.

(** ** No step panics *)

Lemma push_no_panic o b : no_panic (push o b).
Proof. unfold push. by destruct (_ <=? _). Qed.

Lemma append_no_panic o l : no_panic (append o l).
Proof. unfold append. destruct (checked_add _ _ _); [cbn; by destruct (_ <? _)|done]. Qed.

Lemma append_be_no_panic o v n : no_panic (append_be o v n).
Proof. unfold append_be. destruct (negb _); [done|apply append_no_panic]. Qed.

Lemma foldM_each_no_panic {E A S} (f : S -> A -> res E S) l s :
  (forall s x, no_panic (f s x)) -> no_panic (foldM f s l).
Proof. intros H. apply (foldM_no_panic (fun _ => True)); auto. Qed.

Lemma charge_references_no_panic e n : no_panic (charge_references e n).
Proof. unfold charge_references. destruct (checked_add _ _ _); [cbn; by destruct (_ <? _)|done]. Qed.

Lemma encoder_charge_bytes_no_panic e n : no_panic (encoder_charge_bytes e n).
Proof. unfold encoder_charge_bytes. destruct (checked_add _ _ _); [cbn; by destruct (_ <? _)|done]. Qed.

#[local] Hint Resolve push_no_panic append_no_panic append_be_no_panic charge_references_no_panic
  encoder_charge_bytes_no_panic : t1.

Lemma encode_length_no_panic m n o : no_panic (encode_length m n o).
Proof. unfold encode_length. repeat no_panic_step. Qed.

Lemma encode_integer_no_panic v o : no_panic (encode_integer v o).
Proof. unfold encode_integer. repeat no_panic_step. Qed.

#[local] Hint Resolve encode_length_no_panic encode_integer_no_panic : t1.

Lemma encode_object_no_panic ob n o : no_panic (encode_object ob n o).
Proof.
  assert (forall o rs, no_panic (append_references o rs n)) as Hr
    by (intros; apply foldM_each_no_panic; intros; repeat no_panic_step).
  destruct ob as [|[]|v|d|s|rs|ks vs]; cbn [encode_object]; repeat no_panic_step; try apply Hr.
  apply foldM_each_no_panic. auto with t1.
Qed.

#[local] Hint Resolve encode_object_no_panic : t1.

Lemma add_values_no_panic d vs : Forall (fun v => forall d e, 0 <= d -> no_panic (add d e v)) vs ->
  0 <= d -> forall cs e, no_panic (add_values (add d) vs cs e).
Proof.
  intros Hf Hd. induction Hf as [|v vs Hv _ IH]; intros cs e; cbn [add_values]; [done|].
  apply no_panic_bind; [by apply Hv|]. intros [c e'] _. apply IH.
Qed.

Lemma add_entries_no_panic d kvs : Forall (fun kv => forall d e, 0 <= d -> no_panic (add d e (snd kv))) kvs ->
  0 <= d -> forall ks cs e, no_panic (add_entries (add d) kvs ks cs e).
Proof.
  intros Hf Hd. induction Hf as [|[k v] kvs Hv _ IH]; intros ks cs e; cbn [add_entries]; [done|].
  apply no_panic_bind; [auto with t1|]. intros e1 _. destruct (_ <=? _); [done|].
  apply no_panic_bind; [by apply Hv|]. intros [c e'] _. apply IH.
Qed.

Lemma set_object_no_panic e e1 i o k :
  objects e1 = objects e ++ k -> 0 <= i < len (objects e) -> no_panic (set_object e1 i o).
Proof.
  intros He Hi. destruct (set_object_fits e1 i o) as (e' & -> & _); [rewrite He, length_app; lia|done].
Qed.

Lemma add_no_panic v d e : 0 <= d -> no_panic (add d e v).
Proof.
  revert d e. induction v as [|b|i|dt|st|vs IH|kvs IH] using value_ind'; intros d e Hd; cbn [add];
    (destruct (_ || (MAX_OBJECTS <=? _)); [done|]); cbn beta zeta iota;
    set (ep := push_object e EncodedObject.Null);
    assert (0 <= len (objects e) < len (objects ep)) as Hi by (cbn; rewrite length_app; cbn; lia).
  - apply no_panic_bind; [|done]. by apply (set_object_no_panic ep _ _ _ []); [rewrite app_nil_r|].
  - apply no_panic_bind; [|done]. by apply (set_object_no_panic ep _ _ _ []); [rewrite app_nil_r|].
  - destruct (_ || _); [done|].
    apply no_panic_bind; [|done]. by apply (set_object_no_panic ep _ _ _ []); [rewrite app_nil_r|].
  - destruct (encoder_charge_bytes ep _) as [e1| |] eqn:Hc; [|done|by apply encoder_charge_bytes_no_panic in Hc].
    apply encoder_charge_bytes_Ok in Hc as [Ho _].
    apply no_panic_bind; [|done]. by apply (set_object_no_panic ep _ _ _ []); [rewrite app_nil_r|].
  - destruct (encoder_charge_bytes ep _) as [e1| |] eqn:Hc; [|done|by apply encoder_charge_bytes_no_panic in Hc].
    apply encoder_charge_bytes_Ok in Hc as [Ho _].
    apply no_panic_bind; [|done]. by apply (set_object_no_panic ep _ _ _ []); [rewrite app_nil_r|].
  - destruct (charge_references ep _) as [e0| |] eqn:Hc; [|done|by apply charge_references_no_panic in Hc].
    apply charge_references_Ok in Hc as (Ho & _).
    destruct (add_values _ _ _ _) as [[cs e1]| |] eqn:Hl;
      [|done|by apply add_values_no_panic in Hl; [| |lia]].
    destruct (add_values_ok (d + 1) vs ltac:(lia) ltac:(apply Forall_true, add_added) _ _ _ _ Hl)
      as (ids & news & _ & [Hg _ _ _ _] & _).
    apply no_panic_bind; [|done]. apply (set_object_no_panic ep _ _ _ news); [by rewrite Hg, Ho|done].
  - destruct (ok_or _ _) as [count| |] eqn:Hk; [|done|by apply no_panic_ok_or in Hk].
    destruct (charge_references ep _) as [e0| |] eqn:Hc; [|done|by apply charge_references_no_panic in Hc].
    apply charge_references_Ok in Hc as (Ho & _).
    destruct (add_entries _ _ _ _ _) as [[[ks cs] e1]| |] eqn:Hl;
      [|done|by apply add_entries_no_panic in Hl; [| |lia]].
    destruct (add_entries_ok (d + 1) kvs ltac:(lia) ltac:(apply Forall_true; intros; apply add_added) _ _ _ _ _ _ Hl)
      as (kids & ids & news & _ & _ & [Hg _ _ _ _] & _).
    apply no_panic_bind; [|done]. apply (set_object_no_panic ep _ _ _ news); [by rewrite Hg, Ho|done].
Qed.

Lemma encode_objects_no_panic os n o : no_panic (encode_objects os n o).
Proof.
  apply foldM_each_no_panic. intros [offsets output] ob. apply no_panic_bind; [auto with t1|done].
Qed.

Lemma append_offsets_no_panic w offs o :
  no_panic (foldM (fun output offset =>
    let! v := ok_or (try_from_u 64 offset) OutputTooLarge in append_be output v w) o offs).
Proof. apply foldM_each_no_panic. intros. repeat no_panic_step. Qed.

#[local] Hint Resolve encode_objects_no_panic append_offsets_no_panic : t1.

Lemma encode_no_panic v : no_panic (encode v).
Proof.
  unfold encode. apply no_panic_bind; [by apply add_no_panic|]. intros [top e] _.
  repeat no_panic_step.
Qed.

(** ** Exactly what is written *)

(** The bytes of an unsigned integer, of the length of an object, of an integer and of a
    text. *)
Definition uint_len (v : Z) : Z :=
  if v <? 2 ^ 8 then 1 else if v <? 2 ^ 16 then 2 else if v <? 2 ^ 32 then 4 else 8.
Definition length_len (n : Z) : Z := if n <? 15 then 1 else 2 + uint_len n.
Definition integer_len (v : Z) : Z :=
  if v <? 0 then 9 else if 2 ^ 63 <=? v then 17 else 1 + uint_len v.
Definition text_len (s : bytes) : Z :=
  if Text.is_ascii s then length_len (len s) + len s
  else length_len (len (Text.encode_utf16 s)) + 2 * len (Text.encode_utf16 s).

(** The bytes of all the objects of a value, with references of [n] bytes. *)
Fixpoint objects_len (n : Z) (v : Value.t) : Z :=
  match v with
  | Value.Null | Value.Boolean _ => 1
  | Value.Integer i => integer_len i
  | Value.Data d => length_len (len d) + len d
  | Value.String s => text_len s
  | Value.Array vs => length_len (len vs) + n * len vs + fold_right (fun v t => objects_len n v + t) 0 vs
  | Value.Dictionary kvs =>
      length_len (len kvs) + n * (2 * len kvs) +
      fold_right (fun kv t => text_len (fst kv) + objects_len n (snd kv) + t) 0 kvs
  end.

(** The bytes of the document: header and objects, one offset per object, and the trailer. *)
Definition plist_len (v : Value.t) : Z :=
  let start := 8 + objects_len (uint_len (Z.of_nat (size v) - 1)) v in
  start + uint_len start * Z.of_nat (size v) + 32.

(** The limits of the encoder: the range of integers, the nesting, the objects (every value
    and every key is one), the references (to every object but the first), the bytes of text
    and data, and the bytes of the document. *)
Definition encodable (v : Value.t) : bool :=
  integers_ok v && (height v <=? MAX_DEPTH)%nat && (Z.of_nat (size v) <=? MAX_OBJECTS) &&
  (Z.of_nat (size v) - 1 <=? MAX_REFERENCES) && (Z.of_nat (raw_bytes v) <=? MAX_VALUE_BYTES) &&
  (plist_len v <=? MAX_PLIST_SIZE).

Lemma uint_len_width v : 0 <= v -> Z.of_nat (width_of v) = uint_len v.
Proof.
  intros Hv. unfold width_of, uint_len, integer_storage_width, is_ub.
  repeat match goal with |- context [if ?b then _ else _] => destruct b eqn:? end; lia.
Qed.

Lemma length_bytes_len marker n : 0 <= n -> len (length_bytes marker n) = length_len n.
Proof.
  intros Hn. unfold length_bytes, length_len. destruct (n <? 15); [done|]. cbn [length].
  rewrite length_be_bytes, <- uint_len_width by done. lia.
Qed.

Lemma integer_bytes_len v : len (integer_bytes v) = integer_len v.
Proof.
  unfold integer_bytes, integer_len. destruct (v <? 0) eqn:Hn; b2p; [cbn [length]; by rewrite length_be_bytes|].
  destruct (_ =? 8) eqn:Hw; b2p.
  - assert (uint_len v = 8) as Hu by (rewrite <- uint_len_width by done; unfold width_of; rewrite Hw; done).
    destruct (v <? 2 ^ 63) eqn:Hs; b2p.
    + replace (2 ^ 63 <=? v) with false by lia. cbn [length]. rewrite length_be_bytes, Hu. done.
    + replace (2 ^ 63 <=? v) with true by lia. cbn [length]. by rewrite length_app, length_replicate, length_be_bytes.
  - cbn [length]. rewrite length_be_bytes. replace (2 ^ 63 <=? v) with false; [rewrite <- uint_len_width by done; lia|].
    destruct (storage_width_cases v Hn) as [[_ H]|[[_ H]|[[_ H]|[H _]]]]; unfold is_u in *; lia.
Qed.

Lemma string_bytes_len n s : len (object_bytes n (EncodedObject.String s)) = text_len s.
Proof.
  cbn [object_bytes]. unfold text_len. destruct (Text.is_ascii s); rewrite length_app, Nat2Z.inj_add, length_bytes_len by lia;
    [done|]. rewrite length_unit_bytes. lia.
Qed.

(** From [e] to [e'] the encoder took on so many objects, references and bytes, whose written
    form has [body n] bytes, and stayed within its limits. *)
Definition grew (e e' : Encoder) (n r b : Z) (body : nat -> Z) : Prop :=
  (exists news, objects e' = objects e ++ news /\ len news = n /\
     forall w, len (concat (object_bytes w <$> news)) = body w) /\
  enc_references e' = enc_references e + r /\ enc_value_bytes e' = enc_value_bytes e + b /\
  (enc_value_bytes e <= MAX_VALUE_BYTES -> enc_value_bytes e' <= MAX_VALUE_BYTES).

Lemma grew_refl e : grew e e 0 0 0 (fun _ => 0).
Proof. split; [exists []; by rewrite app_nil_r|]. lia. Qed.

Lemma grew_trans e1 e2 e3 n1 n2 r1 r2 b1 b2 B1 B2 :
  grew e1 e2 n1 r1 b1 B1 -> grew e2 e3 n2 r2 b2 B2 ->
  grew e1 e3 (n1 + n2) (r1 + r2) (b1 + b2) (fun w => B1 w + B2 w).
Proof.
  intros ((l1 & O1 & N1 & Y1) & R1 & V1 & L1) ((l2 & O2 & N2 & Y2) & R2 & V2 & L2). split; [|lia].
  exists (l1 ++ l2). rewrite O2, O1, length_app, app_assoc. split_and!; [done|lia|].
  intros w. by rewrite len_concat_app, Y1, Y2.
Qed.

Lemma grew_eq e e' n r b B n' r' b' B' :
  grew e e' n r b B -> n = n' -> r = r' -> b = b' -> (forall w, B w = B' w) -> grew e e' n' r' b' B'.
Proof.
  intros ((l & O & N & Y) & HR) -> -> -> HB. split; [|done]. exists l. split_and!; [done..|]. intros w. by rewrite Y, HB.
Qed.

Lemma grew_push e o : grew e (push_object e o) 1 0 0 (fun w => len (object_bytes w o)).
Proof. split; [|cbn; lia]. exists [o]. split_and!; [done..|]. intros w. cbn [fmap list_fmap concat]. by rewrite app_nil_r. Qed.

Lemma grew_references e n e' : charge_references e n = Ok e' -> grew e e' 0 n 0 (fun _ => 0).
Proof.
  unfold charge_references. intros H. inv_ok H. b2p. apply ok_or_Some, checked_add_Some in Hr as [-> _].
  split; [exists []; by rewrite app_nil_r|cbn; lia].
Qed.

Lemma grew_bytes e n e' : encoder_charge_bytes e n = Ok e' -> grew e e' 0 0 n (fun _ => 0).
Proof.
  unfold encoder_charge_bytes. intros H. inv_ok H. b2p. apply ok_or_Some, checked_add_Some in Hr as [-> _].
  split; [exists []; by rewrite app_nil_r|cbn; lia].
Qed.

(** The end of [add]: the object takes the place that was kept for it. *)
Lemma grew_close e e1 e' o n r b B :
  grew (push_object e EncodedObject.Null) e1 n r b B -> set_object e1 (len (objects e)) o = Ok e' ->
  grew e e' (1 + n) r b (fun w => len (object_bytes w o) + B w).
Proof.
  intros ((l & O & N & Y) & HR) Hs. cbn [push_object objects] in O. rewrite <- app_assoc in O. cbn [app] in O.
  rewrite (set_object_last e1 l o (objects e) EncodedObject.Null O) in Hs. injection Hs as <-. split; [|exact HR].
  exists (o :: l). split_and!; [done|cbn [length]; lia|]. intros w. cbn [fmap list_fmap concat]. rewrite length_app, Nat2Z.inj_add.
  by rewrite <- Y.
Qed.

Definition add_exact (v : Value.t) : Prop :=
  forall d e i e', add d e v = Ok (i, e') -> integers_ok v = true /\
  grew e e' (Z.of_nat (size v)) (Z.of_nat (size v) - 1) (Z.of_nat (raw_bytes v)) (fun w => objects_len (Z.of_nat w) v).

Lemma add_values_exact d vs : Forall add_exact vs ->
  forall cs e cs' e', add_values (add d) vs cs e = Ok (cs', e') ->
  forallb integers_ok vs = true /\ len cs' = len cs + len vs /\
  grew e e' (values_size vs) (values_size vs - len vs) (values_bytes vs)
    (fun w => fold_right (fun v t => objects_len (Z.of_nat w) v + t) 0 vs).
Proof.
  induction 1 as [|v vs Hv _ IH]; intros cs e cs' e' H.
  { cbn in H. simplify_eq. split; [done|]. split; [cbn; lia|]. apply grew_refl. }
  cbn [add_values] in H. destruct (add d e v) as [[c e1]| |] eqn:Ha; [|done..].
  destruct (Hv _ _ _ _ Ha) as [Hi1 G1]. destruct (IH _ _ _ _ H) as (Hi2 & Hl & G2).
  split; [cbn; by rewrite Hi1|]. rewrite length_app in Hl. cbn [length] in *. split; [lia|].
  eapply grew_eq; [exact (grew_trans _ _ _ _ _ _ _ _ _ _ _ G1 G2)|cbn [fold_right length]; lia..|done].
Qed.

Lemma add_entries_exact d kvs : Forall (fun kv => add_exact (snd kv)) kvs ->
  forall keys cs e keys' cs' e', add_entries (add d) kvs keys cs e = Ok (keys', cs', e') ->
  forallb (fun kv => integers_ok (snd kv)) kvs = true /\ len keys' = len keys + len kvs /\ len cs' = len cs + len kvs /\
  grew e e' (entries_size kvs) (entries_size kvs - 2 * len kvs) (entries_bytes kvs)
    (fun w => fold_right (fun kv t => text_len (fst kv) + objects_len (Z.of_nat w) (snd kv) + t) 0 kvs).
Proof.
  induction 1 as [|[k v] kvs Hv _ IH]; intros keys cs e keys' cs' e' H.
  { cbn in H. simplify_eq. split; [done|]. split_and!; [cbn; lia..|]. apply grew_refl. }
  cbn [add_entries] in H. destruct (encoder_charge_bytes e (len k)) as [e0| |] eqn:Hc; [|done..].
  apply grew_bytes in Hc as G0. destruct (_ <=? _); [done|].
  pose proof (grew_trans _ _ _ _ _ _ _ _ _ _ _ G0 (grew_push e0 (EncodedObject.String k))) as Gk.
  destruct (add d _ v) as [[c e1]| |] eqn:Ha; [|done..]. cbn [snd] in Hv. destruct (Hv _ _ _ _ Ha) as [Hi1 G1].
  destruct (IH _ _ _ _ _ _ H) as (Hi2 & Hl1 & Hl2 & G2). split; [cbn; by rewrite Hi1|].
  rewrite length_app in Hl1, Hl2. cbn [length] in *. split_and!; [lia..|].
  eapply grew_eq; [exact (grew_trans _ _ _ _ _ _ _ _ _ _ _ Gk (grew_trans _ _ _ _ _ _ _ _ _ _ _ G1 G2))|
    cbn [fold_right length fst snd]; lia..|].
  intros w. cbv beta. rewrite string_bytes_len. cbn [fold_right fst snd]. lia.
Qed.

(** A value without parts. *)
Lemma add_exact_leaf e e1 e' o b B (v : Value.t) :
  size v = 1%nat -> grew (push_object e EncodedObject.Null) e1 0 0 b (fun _ => 0) ->
  set_object e1 (len (objects e)) o = Ok e' -> Z.of_nat (raw_bytes v) = b -> (forall w, len (object_bytes w o) = B w) ->
  grew e e' (Z.of_nat (size v)) (Z.of_nat (size v) - 1) (Z.of_nat (raw_bytes v)) B.
Proof.
  intros Hs G Hset Hb HB. eapply grew_eq; [exact (grew_close _ _ _ _ _ _ _ _ G Hset)|rewrite Hs; lia..|lia|].
  intros w. cbv beta. rewrite HB. lia.
Qed.

Lemma add_is_exact v : add_exact v.
Proof.
  induction v as [|b|i|dt|st|vs IH|kvs IH] using value_ind'; intros d e c e' H; cbn [add] in H;
    (destruct (_ || _); [done|]); cbn beta zeta in H.
  - destruct (set_object _ _ _) as [e2| |] eqn:Hs; [|done..]. simplify_eq. split; [done|].
    by eapply add_exact_leaf; [| |exact Hs| |]; [done|apply grew_refl|..].
  - destruct (set_object _ _ _) as [e2| |] eqn:Hs; [|done..]. simplify_eq. split; [done|].
    by eapply add_exact_leaf; [| |exact Hs| |]; [done|apply grew_refl|..].
  - destruct (_ || _) eqn:Hi in H; [done|]. destruct (set_object _ _ _) as [e2| |] eqn:Hs; [|done..]. simplify_eq.
    split; [cbn; lia|]. eapply add_exact_leaf; [| |exact Hs| |]; [done|apply grew_refl|done|intros w; apply integer_bytes_len].
  - destruct (encoder_charge_bytes _ _) as [e1| |] eqn:Hc; [|done..]. apply grew_bytes in Hc.
    destruct (set_object _ _ _) as [e2| |] eqn:Hs; [|done..]. simplify_eq. split; [done|].
    eapply add_exact_leaf; [| |exact Hs| |]; [done|exact Hc|done|]. intros w. cbv beta. cbn [object_bytes objects_len].
    rewrite length_app, Nat2Z.inj_add, length_bytes_len; lia.
  - destruct (encoder_charge_bytes _ _) as [e1| |] eqn:Hc; [|done..]. apply grew_bytes in Hc.
    destruct (set_object _ _ _) as [e2| |] eqn:Hs; [|done..]. simplify_eq. split; [done|].
    eapply add_exact_leaf; [| |exact Hs| |]; [done|exact Hc|done|]. intros w. apply string_bytes_len.
  - destruct (charge_references _ _) as [e0| |] eqn:Hc; [|done..]. apply grew_references in Hc.
    destruct (add_values _ _ _ _) as [[cs e1]| |] eqn:Hl; [|done..].
    destruct (add_values_exact _ _ IH _ _ _ _ Hl) as (Hi & Hn & G).
    destruct (set_object _ _ _) as [e2| |] eqn:Hs; [|done..]. simplify_eq. split; [done|].
    eapply grew_eq; [exact (grew_close _ _ _ _ _ _ _ _ (grew_trans _ _ _ _ _ _ _ _ _ _ _ Hc G) Hs)|cbn [size raw_bytes]; lia..|].
    intros w. cbv beta. cbn [object_bytes objects_len]. rewrite length_app, Nat2Z.inj_add, length_bytes_len, reference_bytes_len by lia.
    cbn [length] in Hn. replace (len cs) with (len vs) by lia. lia.
  - destruct (checked_mul 64 (len kvs) 2) as [n|] eqn:Hmul; [|done]. apply checked_mul_Some in Hmul as [-> _].
    cbn [ok_or] in H. destruct (charge_references _ _) as [e0| |] eqn:Hc; [|done..]. apply grew_references in Hc.
    destruct (add_entries _ _ _ _ _) as [[[ks cs] e1]| |] eqn:Hl; [|done..].
    destruct (add_entries_exact _ _ IH _ _ _ _ _ _ Hl) as (Hi & Hn1 & Hn2 & G).
    destruct (set_object _ _ _) as [e2| |] eqn:Hs; [|done..]. simplify_eq. split; [done|].
    eapply grew_eq; [exact (grew_close _ _ _ _ _ _ _ _ (grew_trans _ _ _ _ _ _ _ _ _ _ _ Hc G) Hs)|cbn [size raw_bytes]; lia..|].
    intros w. cbv beta. cbn [object_bytes objects_len]. rewrite length_app, Nat2Z.inj_add, length_bytes_len, reference_bytes_len, length_app by lia.
    cbn [length] in Hn1, Hn2. replace (len ks) with (len kvs) by lia. replace (length cs) with (length kvs) by lia.
    replace (length ks) with (length kvs) by lia. lia.
Qed.

(** The document of a value has exactly [plist_len] bytes. *)
Lemma document_exact v top e :
  add 0 (mkEncoder [] 0 0) v = Ok (top, e) -> len (document (objects e) top) = plist_len v.
Proof.
  intros Ha. destruct (add_is_exact v _ _ _ _ Ha) as [_ ((news & Ho & Hn & Hy) & _)]. cbn [objects app] in Ho.
  pose proof (size_pos v). rewrite document_len. unfold table_start, plist_len. rewrite Ho, Hn, Hy.
  pose proof (Hy (width_of (Z.of_nat (size v) - 1))) as Hy0. rewrite uint_len_width in * by lia.
  rewrite uint_len_width by lia. reflexivity.
Qed.

Lemma payload_written w o : len (payload o) <= len (object_bytes w o).
Proof.
  destruct o as [|b|v|d|s|rs|ks vs]; cbn [payload object_bytes length]; try lia; [rewrite length_app; lia|].
  unfold text_bytes. destruct (Text.is_ascii s); rewrite length_app; lia.
Qed.

Lemma payloads_written w os : len (concat (payload <$> os)) <= len (concat (object_bytes w <$> os)).
Proof.
  induction os as [|o os IH]; [done|]. rewrite !fmap_cons. cbn [concat]. rewrite !length_app.
  pose proof (payload_written w o). lia.
Qed.

Lemma encodable_encodes v : value_wf v -> encodable v = true -> exists bs, encode v = Ok bs.
Proof.
  intros Hv Hl. unfold encodable in Hl. repeat rewrite andb_true_iff in Hl. destruct Hl as (((((Hi & Hh) & Hn) & Hr) & Hb) & Hlen).
  b2p. apply Nat.leb_le in Hh. pose proof (size_pos v).
  destruct (add_total v 0 (mkEncoder [] 0 0)) as (e & Ha & U); [lia|done|unfold room; cbn; lia|].
  unfold used in U. cbn [objects enc_references enc_value_bytes length] in *.
  destruct (add_added v 0 _ _ _ ltac:(lia) Ha) as [_ [news A]]. pose proof (document_exact v _ e Ha) as Hdoc.
  destruct (added_fits v e news A Hv) as [Ho Hf]; [lia|lia| |].
  { destruct A as [[Ho _ _ _ _] _ _ _ Hy _ _]. rewrite <- Hy. cbn [objects app] in Ho. rewrite <- Ho.
    rewrite document_len in Hdoc. unfold table_start in Hdoc.
    pose proof (payloads_written (width_of (len (objects e) - 1)) (objects e)). lia. }
  exists (document (objects e) (Z.of_nat 0)). apply encode_writes; [done|lia|done|by rewrite Ho|].
  change (len (objects (mkEncoder [] 0 0))) with (Z.of_nat 0) in Hdoc. lia.
Qed.

Lemma encode_encodable v bs : encode v = Ok bs -> encodable v = true /\ len bs = plist_len v.
Proof.
  intros He. destruct (encode_layout v bs He) as (top & e & Ha & _ & -> & Hlen).
  rewrite (document_exact v top e Ha) in *. split; [|done].
  destruct (add_added v 0 _ _ _ ltac:(lia) Ha) as [_ [news [[Ho _ Hn Hr _] Hs _ Hd _ _ _]]].
  destruct (add_is_exact v _ _ _ _ Ha) as [Hi (_ & HR & HB & HL)]. cbn [objects length app enc_references enc_value_bytes] in *.
  unfold MAX_OBJECTS, MAX_REFERENCES, MAX_VALUE_BYTES, MAX_PLIST_SIZE in *.
  specialize (Hn ltac:(lia)). specialize (Hr ltac:(lia)). specialize (HL ltac:(lia)). rewrite Ho in Hn.
  unfold encodable, MAX_OBJECTS, MAX_REFERENCES, MAX_VALUE_BYTES, MAX_PLIST_SIZE.
  rewrite Hi, (proj2 (Nat.leb_le (height v) MAX_DEPTH)) by lia. cbn [andb]. lia.
Qed.

(** C38. The encoder never panics, and it writes a well-formed value exactly if the value is
    within its limits: integers between -2^63 and 2^64 - 1, at most [MAX_DEPTH] levels below
    the value, at most [MAX_OBJECTS] objects (values and keys), at most [MAX_REFERENCES]
    references to them, at most [MAX_VALUE_BYTES] bytes of text (in UTF-8) and data, and at
    most [MAX_PLIST_SIZE] bytes of output; and then the output has exactly the number of
    bytes that the value says. *)
Theorem plist_encode_limits v :
  value_wf v ->
  no_panic (encode v) /\
  ((exists bs, encode v = Ok bs) <-> encodable v = true) /\
  (forall bs, encode v = Ok bs -> len bs = plist_len v).
Proof.
  intros Hv. split; [apply encode_no_panic|]. split; [split|].
  - intros [bs He]. by eapply encode_encodable.
  - by apply encodable_encodes.
  - intros bs He. by apply encode_encodable.
Qed.

Lemma plist_encode_limits_witness :
  encodable ex_value = true /\ exists bs, encode ex_value = Ok bs /\ len bs = plist_len ex_value.
Proof.
  destruct (plist_encode_limits ex_value ex_value_wf) as (_ & H & Hl).
  assert (encodable ex_value = true) as He by (vm_compute; reflexivity).
  split; [exact He|]. apply H in He as [bs Hbs]. exists bs. split; [exact Hbs|by apply Hl].
Defined.

End PlistLimits.
