(* ===== verification/Transport.v ===== *)
(** * Frames over a byte stream ([crates/t1-bridge/src/transport.rs])

    A stream is what its peer and the operating system make of it: the results
    that the reads will return, in order, and those of the writes. A read may
    return fewer bytes than it was asked for, be interrupted, fail, or return
    nothing at the end. *)

From S2P Require Import Prelude Effects Framing.

(** [io::ErrorKind], as far as the code distinguishes it. *)
Module IoError.
Inductive t : Type := Interrupted | WriteZero | Other (code : Z).
End IoError.

Inductive ReadEvent : Type :=
| Chunk (bs : bytes)
| ReadFails (error : IoError.t).

(** [write_results]: [None] is a write that completes, [Some (k, e)] one that
    fails with [e] after [k] bytes; all writes after them complete. *)
Record Stream : Type := mkStream {
  incoming : list ReadEvent;
  write_results : list (option (nat * IoError.t));
  outgoing : bytes;
}.

(** [Read::read] with a buffer of [n] bytes. *)
Definition stream_read (n : nat) : M Stream IoError.t bytes := fun s =>
  match incoming s with
  | [] => (Ok [], s)
  | ReadFails e :: rest => (Err e, mkStream rest (write_results s) (outgoing s))
  | Chunk c :: rest =>
      if (length c <=? n)%nat then (Ok c, mkStream rest (write_results s) (outgoing s))
      else (Ok (take n c), mkStream (Chunk (drop n c) :: rest) (write_results s) (outgoing s))
  end.

(** [Write::write_all]. *)
Definition stream_write_all (bs : bytes) : M Stream IoError.t unit := fun s =>
  match write_results s with
  | [] => (Ok tt, mkStream (incoming s) [] (outgoing s ++ bs))
  | None :: rest => (Ok tt, mkStream (incoming s) rest (outgoing s ++ bs))
  | Some (k, e) :: rest => (Err e, mkStream (incoming s) rest (outgoing s ++ take k bs))
  end.

(** Whether memory for a body of that size can be reserved
    ([Vec::try_reserve_exact]). *)
Class Allocator : Type := try_reserve_exact : Z -> bool.

Module Transport.
Import Framing.

Module FramePart.
Inductive t : Type := Header | Body.
End FramePart.

#[global] Instance frame_part_eq_dec : EqDecision FramePart.t.
Proof. solve_decision. Defined.

Inductive TransportError : Type :=
| FrameE (error : FrameError)
| UnexpectedEof (part : FramePart.t)
| ConnectionClosed
| WriteZero (part : FramePart.t)
| AllocationFailed (body_len : Z)
| Io (part : FramePart.t) (source : IoError.t).

(** [BridgeXpcTransport::read_exact]: the loop, with the bytes filled so far. Each
    turn consumes a read result or fills the buffer, so that the number of results
    left is fuel enough. *)
Fixpoint read_exact_loop (fuel : nat) (part : FramePart.t) (n : nat) (filled : bytes)
    : M Stream TransportError bytes := fun s =>
  if (n <=? length filled)%nat then (Ok filled, s)
  else
    match fuel with
    | O => (Panic, s)
    | S fuel =>
        match stream_read (n - length filled) s with
        | (Ok [], s) =>
            if (length filled =? 0)%nat && bool_decide (part = FramePart.Header)
            then (Err ConnectionClosed, s) else (Err (UnexpectedEof part), s)
        | (Ok bs, s) => read_exact_loop fuel part n (filled ++ bs) s
        | (Err IoError.Interrupted, s) => read_exact_loop fuel part n filled s
        | (Err e, s) => (Err (Io part e), s)
        | (Panic, s) => (Panic, s)
        end
    end.

Definition read_exact (part : FramePart.t) (n : nat) : M Stream TransportError bytes := fun s =>
  read_exact_loop (S (length (incoming s))) part n [] s.

(** [BridgeXpcTransport::write_all]. *)
Definition write_all (part : FramePart.t) (bs : bytes) : M Stream TransportError unit :=
  mapM_err (fun e => match e with IoError.WriteZero => WriteZero part | _ => Io part e end)
    (stream_write_all bs).

Section Frames.
Context `{Allocator}.

Definition receive_frame : M Stream TransportError Frame :=
  do! header_bytes := read_exact FramePart.Header FRAME_HEADER_LEN in
  do! header := lift (map_err FrameE (header_decode_exact header_bytes)) in
  if negb (try_reserve_exact (fh_body_len header))
  then lift (Err (AllocationFailed (fh_body_len header)))
  else
    do! body := read_exact FramePart.Body (Z.to_nat (fh_body_len header)) in
    ret (mkFrame (fh_message_type header) body).

Definition send_frame (frame : Frame) : M Stream TransportError unit :=
  do! header := lift (map_err FrameE (header_new (message_type frame) (len (body frame)))) in
  do! _ := write_all FramePart.Header (header_encode header) in
  write_all FramePart.Body (body frame).

End Frames.

(** ** The bytes behind the reads *)

(** How the bytes that can be read end. *)
Module Stop.
Inductive t : Type := Eof | Fails (e : IoError.t).
End Stop.

Fixpoint pending (evs : list ReadEvent) : bytes * Stop.t :=
  match evs with
  | [] => ([], Stop.Eof)
  | Chunk [] :: _ => ([], Stop.Eof)
  | Chunk c :: evs => (c ++ fst (pending evs), snd (pending evs))
  | ReadFails IoError.Interrupted :: evs => pending evs
  | ReadFails e :: _ => ([], Stop.Fails e)
  end.

(** What a stream can deliver. *)
Definition delivers (s : Stream) : bytes * Stop.t := pending (incoming s).

(** The error of a read that gets less than it needs. *)
Definition short (part : FramePart.t) (got : bytes) (stop : Stop.t) : TransportError :=
  match stop with
  | Stop.Fails e => Io part e
  | Stop.Eof =>
      if (length got =? 0)%nat && bool_decide (part = FramePart.Header)
      then ConnectionClosed else UnexpectedEof part
  end.

Definition same_output (s s' : Stream) : Prop :=
  write_results s' = write_results s /\ outgoing s' = outgoing s.

Lemma read_exact_loop_spec fuel part n filled s :
  (length (incoming s) < fuel)%nat -> (length filled <= n)%nat ->
  let r := read_exact_loop fuel part n filled s in
  let data := fst (delivers s) in
  same_output s (snd r) /\
  if (n <=? length filled + length data)%nat
  then fst r = Ok (filled ++ take (n - length filled) data) /\
       delivers (snd r) = (drop (n - length filled) data, snd (delivers s))
  else fst r = Err (short part (filled ++ data) (snd (delivers s))).
Proof.
  revert filled s. induction fuel as [|fuel IH]; intros filled s Hf Hn; [lia|].
  destruct s as [evs ws out]. cbn [read_exact_loop].
  destruct (n <=? length filled)%nat eqn:Hdone; b2p.
  { cbn. replace (n <=? _)%nat with true by lia. replace (n - length filled)%nat with 0%nat by lia.
    rewrite take_0, app_nil_r, drop_0. split; [done|]. split; [done|]. unfold delivers. by destruct (pending _). }
  unfold stream_read, delivers in *. cbn [incoming write_results outgoing] in *.
  destruct evs as [|[c|e] evs]; cbn [pending fst snd length] in *.
  - rewrite app_nil_r, Nat.add_0_r. replace (n <=? _)%nat with false by lia. cbn.
    destruct (_ && _); by cbn.
  - destruct (length c <=? n - length filled)%nat eqn:Hc; b2p.
    + destruct c as [|b c]; cbn [fst snd].
      { rewrite app_nil_r, Nat.add_0_r. replace (n <=? _)%nat with false by lia. cbn. destruct (_ && _); by cbn. }
      specialize (IH (filled ++ b :: c) (mkStream evs ws out)). cbn [incoming fst snd] in IH.
      rewrite length_app in IH. specialize (IH ltac:(lia) ltac:(cbn [length] in *; lia)).
      destruct IH as [[Hw Ho] IH]. split; [done|]. rewrite length_app.
      replace (length filled + length (b :: c) + length (fst (pending evs)))%nat
        with (length filled + (length (b :: c) + length (fst (pending evs))))%nat in IH by lia.
      destruct (n <=? _)%nat; [|by rewrite IH, <- app_assoc].
      replace (n - (length filled + length (b :: c)))%nat with (n - length filled - length (b :: c))%nat in IH by lia.
      destruct IH as [IH1 IH2]. rewrite IH1, IH2, <- app_assoc, take_app_ge, drop_app_ge by lia. done.
    + assert (length (take (n - length filled) c) = n - length filled)%nat as Hl by (rewrite length_take; lia).
      destruct (take (n - length filled) c) as [|b tc] eqn:Htc; [cbn in Hl; lia|]. rewrite <- Htc in *.
      destruct c as [|c0 c']; [cbn in Hc; lia|]. cbn [fst snd]. set (c := c0 :: c') in *. rewrite length_app.
      replace (n <=? _)%nat with true by lia.
      assert (forall s', read_exact_loop fuel part n (filled ++ take (n - length filled) c) s'
        = (Ok (filled ++ take (n - length filled) c), s')) as Hstop.
      { intros s'. destruct fuel; cbn [read_exact_loop]; rewrite length_app; by replace (n <=? _)%nat with true by lia. }
      rewrite Hstop. cbn [fst snd incoming]. split; [done|]. rewrite take_app_le, drop_app_le by lia. split; [done|].
      assert (length (drop (n - length filled) c) <> 0)%nat as Hd by (rewrite length_drop; lia).
      cbn [pending]. by destruct (drop (n - length filled) c).
  - destruct e; cbn [fst snd]; [apply (IH filled (mkStream evs ws out)); cbn; lia| |];
      rewrite app_nil_r, Nat.add_0_r; by replace (n <=? _)%nat with false by lia.
Qed.

Lemma read_exact_spec part n s :
  let r := read_exact part n s in
  let data := fst (delivers s) in
  same_output s (snd r) /\
  if (n <=? length data)%nat
  then fst r = Ok (take n data) /\ delivers (snd r) = (drop n data, snd (delivers s))
  else fst r = Err (short part data (snd (delivers s))).
Proof.
  pose proof (read_exact_loop_spec (S (length (incoming s))) part n [] s ltac:(lia) ltac:(cbn; lia)) as H.
  cbn [length app Nat.add] in H. rewrite Nat.sub_0_r in H. exact H.
Qed.

Lemma header_decode_exact_err bs e :
  length bs = FRAME_HEADER_LEN -> header_decode_exact bs = Err e ->
  match e with IncompleteHeader _ | IncompleteBody _ _ => False | _ => True end.
Proof.
  intros Hl. unfold header_decode_exact. rewrite Hl, Z.ltb_irrefl. unfold validate_body_len, FRAME_HEADER_LEN in *.
  rewrite read_le_ok by lia. destruct (negb _); [by intros [= <-]|].
  rewrite read_le_ok by lia. destruct (negb _); [by intros [= <-]|].
  rewrite !read_le_ok by lia. destruct (_ <? _); [by intros [= <-]|].
  unfold try_from_u. destruct (is_ub _ _); cbn; [done|]. by intros [= <-].
Qed.

Section Theorems.
Context `{Allocator}.

(** What [receive_frame] returns for the bytes that can be read, and what it
    leaves of them. *)
Definition received (data : bytes) (stop : Stop.t) : res TransportError (Frame * bytes) :=
  match decode_prefix data with
  | Ok (f, rest) =>
      if try_reserve_exact (len (body f)) then Ok (f, rest) else Err (AllocationFailed (len (body f)))
  | Err (IncompleteHeader _) => Err (short FramePart.Header data stop)
  | Err (IncompleteBody declared _) =>
      if try_reserve_exact declared then Err (short FramePart.Body (drop FRAME_HEADER_LEN data) stop)
      else Err (AllocationFailed declared)
  | Err e => Err (FrameE e)
  | Panic => Panic
  end.

Definition receives (s : Stream) (r : res TransportError Frame) (s' : Stream) : Prop :=
  same_output s s' /\
  match received (fst (delivers s)) (snd (delivers s)) with
  | Ok (f, rest) => r = Ok f /\ delivers s' = (rest, snd (delivers s))
  | Err e => r = Err e
  | Panic => False
  end.

Lemma receive_frame_receives s :
  bytes_ok (fst (delivers s)) -> receives s (fst (receive_frame s)) (snd (receive_frame s)).
Proof.
  intros Hok. destruct (receive_frame s) as [r s'] eqn:Hrun. unfold receive_frame, bind, lift, ret in Hrun.
  unfold receives, received, decode_prefix. cbn [fst snd].
  pose proof (read_exact_spec FramePart.Header FRAME_HEADER_LEN s) as [Ho Hr].
  set (data := fst (delivers s)) in *.
  destruct (read_exact FramePart.Header FRAME_HEADER_LEN s) as [r1 s1]. cbn [fst snd] in *.
  destruct (FRAME_HEADER_LEN <=? length data)%nat eqn:Hl; b2p.
  2: { replace (_ <? _) with true by lia. subst r1. by simplify_eq. }
  destruct Hr as [-> Hd]. replace (_ <? _) with false by lia. rewrite slice_ok by lia. rewrite drop_0, Nat.sub_0_r.
  set (hd := take FRAME_HEADER_LEN data) in *.
  assert (length hd = FRAME_HEADER_LEN) as Hhd by (unfold hd; rewrite length_take; lia).
  destruct (header_decode_exact hd) as [h|e|] eqn:Hh; cbn [map_err] in Hrun.
  3: { by apply header_no_panic in Hh. }
  2: { simplify_eq. split; [done|]. apply header_decode_exact_err in Hh; [|done]. by destruct e. }
  apply header_encode_decode in Hh as [_ [_ Hbl]]; [|by apply bytes_ok_take].
  set (n := Z.to_nat (fh_body_len h)) in *.
  pose proof (read_exact_spec FramePart.Body n s1) as [Ho2 Hr2]. rewrite Hd in Hr2. cbn [fst snd] in Hr2.
  assert (same_output s (snd (read_exact FramePart.Body n s1))) as Ho3
    by (split; etrans; [apply Ho2|apply Ho|apply Ho2|apply Ho]).
  rewrite length_drop in Hr2. destruct (n <=? _)%nat eqn:Hn; b2p.
  - replace (_ <? fh_body_len h) with false by lia. rewrite slice_ok, slice_from_ok by lia. cbn [body].
    replace (FRAME_HEADER_LEN + n - FRAME_HEADER_LEN)%nat with n by lia. rewrite length_take, length_drop.
    replace (Z.of_nat (n `min` (length data - FRAME_HEADER_LEN))) with (fh_body_len h) by lia.
    destruct (try_reserve_exact _); cbn [negb] in Hrun; [|by simplify_eq].
    destruct (read_exact FramePart.Body n s1) as [r2 s2]. cbn [fst snd] in *. destruct Hr2 as [-> Hd2]. simplify_eq.
    by rewrite Hd2, drop_drop.
  - replace (_ <? fh_body_len h) with true by lia.
    destruct (try_reserve_exact _); cbn [negb] in Hrun; [|by simplify_eq].
    destruct (read_exact FramePart.Body n s1) as [r2 s2]. cbn [fst snd] in *. subst r2. by simplify_eq.
Qed.

(** C32. Receiving a frame does not depend on how the bytes arrive: however a stream
    cuts them into reads, and however often a read is interrupted, the result is that
    of the slice decoder on all the bytes that can be read, and what remains to be
    read is what the decoder leaves. A stream that ends between frames is told from
    one that ends inside a frame or fails. *)
Theorem receive_frame_refines s r s' :
  bytes_ok (fst (delivers s)) -> receive_frame s = (r, s') -> receives s r s'.
Proof. intros Hok Hr. pose proof (receive_frame_receives s Hok) as Hs. by rewrite Hr in Hs. Qed.

(** ** Sending *)

Lemma send_frame_Ok f s s' :
  send_frame f s = (Ok tt, s') ->
  exists bs, encode f = Ok bs /\ outgoing s' = outgoing s ++ bs /\ incoming s' = incoming s.
Proof.
  unfold send_frame, write_all, stream_write_all. intros Hs. apply bind_Ok in Hs as (h & s1 & Hh & Hs).
  apply lift_Ok in Hh as [Hh ->]. apply map_err_Ok in Hh. exists (header_encode h ++ body f).
  unfold encode. rewrite Hh. split; [done|]. apply bind_Ok in Hs as (u & s2 & Hw & Hs).
  apply mapM_err_Ok in Hw, Hs. destruct s as [inc [|[[k e]|] ws] out]; cbn in Hw; simplify_eq; cbn in Hs.
  - simplify_eq. cbn. by rewrite app_assoc.
  - destruct ws as [|[[k e]|] ws]; simplify_eq; cbn; by rewrite app_assoc.
Qed.

(** The bytes of a frame, and the frames that can be sent. *)
Definition frame_bytes (f : Frame) : bytes :=
  header_encode (mkFrameHeader (message_type f) (len (body f))) ++ body f.

Definition sendable (f : Frame) : Prop := frame_wf f /\ len (body f) <= MAX_FRAME_BODY_LEN.

Lemma encode_frame_bytes f : sendable f -> encode f = Ok (frame_bytes f).
Proof. intros [_ Hl]. by apply frame_encode_Ok. Qed.

Lemma send_frame_completes f s :
  len (body f) <= MAX_FRAME_BODY_LEN -> write_results s = [] ->
  send_frame f s = (Ok tt, mkStream (incoming s) [] (outgoing s ++ frame_bytes f)).
Proof.
  intros Hl Hw. unfold send_frame, bind, lift, header_new.
  rewrite (proj2 (validate_body_len_Ok (len (body f)) tt)) by lia. cbn [map_err].
  unfold write_all, mapM_err, stream_write_all. rewrite Hw. cbn. unfold frame_bytes. by rewrite app_assoc.
Qed.

Fixpoint send_all (fs : list Frame) : M Stream TransportError unit :=
  match fs with [] => ret tt | f :: fs => do! _ := send_frame f in send_all fs end.

Fixpoint receive_all (n : nat) : M Stream TransportError (list Frame) :=
  match n with
  | O => ret []
  | S n => do! f := receive_frame in do! fs := receive_all n in ret (f :: fs)
  end.

Lemma send_all_Ok fs s s' :
  send_all fs s = (Ok tt, s') ->
  exists bss, Forall2 (fun f bs => encode f = Ok bs) fs bss /\ outgoing s' = outgoing s ++ concat bss.
Proof.
  revert s. induction fs as [|f fs IH]; intros s Hs; cbn in Hs.
  - injection Hs as <-. exists []. by rewrite app_nil_r.
  - apply bind_Ok in Hs as ([] & s1 & Hf & Hs). apply send_frame_Ok in Hf as (bs & He & Ho & _).
    apply IH in Hs as (bss & Hbs & Hout). exists (bs :: bss). split; [by constructor|].
    cbn. by rewrite Hout, Ho, app_assoc.
Qed.

Lemma encode_bytes_ok f bs : frame_wf f -> encode f = Ok bs -> bytes_ok bs.
Proof.
  intros [_ Hb] [_ ->]%frame_encode_Ok. apply bytes_ok_app. split; [|done]. unfold header_encode.
  repeat (apply bytes_ok_app; split); apply le_bytes_ok.
Qed.

Lemma concat_encode_bytes_ok fs bss :
  Forall frame_wf fs -> Forall2 (fun f bs => encode f = Ok bs) fs bss -> bytes_ok (concat bss).
Proof.
  intros Hwf Hbs. induction Hbs as [|f bs fs bss He _ IH]; [apply bytes_ok_nil|].
  apply Forall_cons in Hwf as [Hf Hwf]. cbn. apply bytes_ok_app. split; [by eapply encode_bytes_ok|auto].
Qed.

Context (Hreserve : forall n, 0 <= n <= MAX_FRAME_BODY_LEN -> try_reserve_exact n = true).

Lemma receive_frame_encoded f bs rest s :
  frame_wf f -> encode f = Ok bs -> bytes_ok rest -> fst (delivers s) = bs ++ rest ->
  exists s', receive_frame s = (Ok f, s') /\ same_output s s' /\ delivers s' = (rest, snd (delivers s)).
Proof.
  intros Hf He Hrest Hd.
  assert (bytes_ok (fst (delivers s))) as Hok by (rewrite Hd; apply bytes_ok_app; split; [by eapply encode_bytes_ok|done]).
  pose proof (receive_frame_receives s Hok) as [Hout Hs]. unfold received in Hs. rewrite Hd in Hs, Hok.
  rewrite (proj2 (decode_prefix_exact (bs ++ rest) f rest Hok)) in Hs by eauto.
  rewrite Hreserve in Hs by (apply frame_encode_Ok in He; lia). destruct (receive_frame s) as [r s']. cbn [fst snd] in Hs.
  destruct Hs as [-> Hs]. eauto.
Qed.

(** Frames that are sent one after the other are received as they were, and in
    order, by a peer that reads the bytes in any pieces; at the end it is told that
    the connection was closed. *)
Theorem frames_roundtrip fs s0 s1 s :
  Forall frame_wf fs -> outgoing s0 = [] -> send_all fs s0 = (Ok tt, s1) ->
  delivers s = (outgoing s1, Stop.Eof) ->
  exists s', receive_all (length fs) s = (Ok fs, s') /\ fst (receive_frame s') = Err ConnectionClosed.
Proof.
  intros Hwf H0 Hsend Hd. apply send_all_Ok in Hsend as (bss & Hbs & Hout). rewrite H0 in Hout. cbn in Hout.
  rewrite Hout in Hd. clear Hout. revert s Hd. induction Hbs as [|f bs fs bss He Hbs IH]; intros s Hd; cbn [length receive_all].
  - exists s. split; [done|]. cbn in Hd.
    pose proof (receive_frame_receives s ltac:(rewrite Hd; apply bytes_ok_nil)) as [_ Hs]. by rewrite Hd in Hs.
  - apply Forall_cons in Hwf as [Hf Hwf]. cbn in Hd.
    destruct (receive_frame_encoded f bs (concat bss) s Hf He) as (s2 & Hr & _ & Hs2);
      [by eapply concat_encode_bytes_ok|by rewrite Hd|].
    rewrite Hd in Hs2. destruct (IH Hwf s2 Hs2) as (s' & Hall & Hend). exists s'. split; [|done].
    unfold bind. rewrite Hr, Hall. done.
Qed.

End Theorems.

(** ** Any stream, frame by frame *)

Section AnyStream.
Context `{Allocator}.

(** The bytes [data] of a stream that ends with [stop] are read as the frames [fs], and
    reading one more frame fails with [e]. *)
Inductive reads (stop : Stop.t) : bytes -> list Frame -> TransportError -> Prop :=
| reads_end data e : received data stop = Err e -> reads stop data [] e
| reads_frame data f rest fs e :
    received data stop = Ok (f, rest) -> reads stop rest fs e -> reads stop data (f :: fs) e.

(** The stream [s], of bytes, offers the frames [fs] and then the error [e]. *)
Definition offers (s : Stream) (fs : list Frame) (e : TransportError) : Prop :=
  bytes_ok (fst (delivers s)) /\ reads (snd (delivers s)) (fst (delivers s)) fs e.

Lemma received_Ok data stop f rest :
  bytes_ok data -> received data stop = Ok (f, rest) ->
  sendable f /\ bytes_ok rest /\ data = frame_bytes f ++ rest.
Proof.
  intros Hok Hr. unfold received in Hr. destruct (decode_prefix data) as [[f' rest']|e|] eqn:Hd; [|by repeat case_match|done].
  destruct (try_reserve_exact _); [|done]. injection Hr as -> ->.
  apply decode_prefix_exact in Hd as (Hwf & pre & [Hl Hpre]%frame_encode_Ok & ->); [|done].
  apply bytes_ok_app in Hok as [_ Hrest]. split_and!; [by split|done|]. by rewrite Hpre.
Qed.

Lemma length_frame_bytes f : (16 <= length (frame_bytes f))%nat.
Proof. unfold frame_bytes. rewrite length_app, length_header_encode. lia. Qed.

(** Every stream of bytes offers some frames and then an error, and only those. *)
Lemma reads_total stop data : bytes_ok data -> exists fs e, reads stop data fs e.
Proof.
  induction data as [data IH] using (induction_ltof1 _ (@length Z)); unfold ltof in IH. intros Hok.
  destruct (received data stop) as [[f rest]|e|] eqn:Hr.
  - destruct (received_Ok _ _ _ _ Hok Hr) as (_ & Hrest & Hd). pose proof (length_frame_bytes f).
    destruct (IH rest) as (fs & e & Hfs); [rewrite Hd, length_app; lia|done|]. exists (f :: fs), e. by econstructor.
  - exists [], e. by constructor.
  - exfalso. unfold received in Hr. pose proof (decode_prefix_no_panic data) as Hn.
    destruct (decode_prefix data) as [[]|[]|]; repeat case_match; done.
Qed.

Lemma offers_total s : bytes_ok (fst (delivers s)) -> exists fs e, offers s fs e.
Proof. intros Hok. destruct (reads_total (snd (delivers s)) _ Hok) as (fs & e & Hr). by exists fs, e. Qed.

Lemma reads_unique stop data fs e fs' e' :
  reads stop data fs e -> reads stop data fs' e' -> fs' = fs /\ e' = e.
Proof.
  intros Hr. revert fs' e'. induction Hr as [data e Hr|data f rest fs e Hr _ IH]; intros fs' e' Hr';
    inversion Hr' as [? ? Hd|? f' rest' ? ? Hd Hrest]; subst; rewrite Hr in Hd; simplify_eq; [done|].
  by destruct (IH _ _ Hrest) as [-> ->].
Qed.

Lemma offers_sendable s fs e : offers s fs e -> Forall sendable fs.
Proof.
  intros [Hok Hr]. revert Hok. generalize (fst (delivers s)) (snd (delivers s)) Hr. clear.
  intros data stop Hr. induction Hr as [|data f rest fs e Hr _ IH]; intros Hok; [constructor|].
  destruct (received_Ok _ _ _ _ Hok Hr) as (Hf & Hrest & _). constructor; auto.
Qed.

(** Receiving takes the first frame offered; when there is none it fails as offered. *)
Lemma receive_offered s f fs e :
  offers s (f :: fs) e ->
  exists s', receive_frame s = (Ok f, s') /\ offers s' fs e /\ same_output s s' /\
    (length (fst (delivers s')) < length (fst (delivers s)))%nat.
Proof.
  intros [Hok Hr]. inversion Hr as [|? ? rest ? ? Hrec Hrest]; subst.
  pose proof (receive_frame_receives s Hok) as [Ho Hs]. rewrite Hrec in Hs.
  destruct (received_Ok _ _ _ _ Hok Hrec) as (_ & Hb & Hd). pose proof (length_frame_bytes f).
  destruct (receive_frame s) as [r s']. cbn [fst snd] in *. destruct Hs as [-> Hd']. exists s'.
  unfold offers. rewrite Hd'. cbn [fst snd]. split_and!; [done..|]. rewrite Hd, length_app. lia.
Qed.

Lemma receive_failed s e :
  offers s [] e -> exists s', receive_frame s = (Err e, s') /\ same_output s s'.
Proof.
  intros [Hok Hr]. inversion Hr as [? ? Hrec|]; subst. pose proof (receive_frame_receives s Hok) as [Ho Hs].
  rewrite Hrec in Hs. destruct (receive_frame s) as [r s']. cbn [fst snd] in *. subst r. eauto.
Qed.

(** What one write comes to: its result, the bytes that went out and the results of the
    writes to come. *)
Definition attempt (part : FramePart.t) (bs : bytes) (ws : list (option (nat * IoError.t)))
    : res TransportError unit * bytes * list (option (nat * IoError.t)) :=
  match ws with
  | [] => (Ok tt, bs, [])
  | None :: ws => (Ok tt, bs, ws)
  | Some (k, e) :: ws =>
      (Err match e with IoError.WriteZero => WriteZero part | _ => Io part e end, take k bs, ws)
  end.

(** The same for a frame: its body is written if its header was. *)
Definition put (f : Frame) (ws : list (option (nat * IoError.t)))
    : res TransportError unit * bytes * list (option (nat * IoError.t)) :=
  match attempt FramePart.Header (header_encode (mkFrameHeader (message_type f) (len (body f)))) ws with
  | (Ok _, out, ws) => let '(r, out', ws) := attempt FramePart.Body (body f) ws in (r, out ++ out', ws)
  | failed => failed
  end.

Lemma send_frame_put f s :
  len (body f) <= MAX_FRAME_BODY_LEN ->
  send_frame f s =
    let '(r, out, ws) := put f (write_results s) in (r, mkStream (incoming s) ws (outgoing s ++ out)).
Proof.
  intros Hl. unfold send_frame, bind, lift, header_new.
  rewrite (proj2 (validate_body_len_Ok (len (body f)) tt)) by lia. cbn [map_err].
  unfold put, attempt, write_all, mapM_err, stream_write_all.
  destruct s as [inc [|[[k e]|] ws] out]; cbn; [by rewrite app_assoc|done|].
  destruct ws as [|[[k e]|] ws]; cbn; by rewrite app_assoc.
Qed.

(** A frame goes out whole, or a part of it does and that is an error. *)
Lemma put_cases f ws :
  (exists ws', put f ws = (Ok tt, frame_bytes f, ws')) \/
  (exists e cut ws', put f ws = (Err e, cut, ws') /\ cut `prefix_of` frame_bytes f).
Proof.
  unfold put, attempt, frame_bytes. set (h := header_encode _). destruct ws as [|[[k e]|] ws]; [left; eauto|right|].
  - do 3 eexists. split; [done|]. eapply (prefix_app_r _ _ (body f)). exists (drop k h). by rewrite take_drop.
  - destruct ws as [|[[k e]|] ws]; [left; eauto|right|left; eauto].
    do 3 eexists. split; [done|]. apply prefix_app. exists (drop k (body f)). by rewrite take_drop.
Qed.

Lemma put_completes f : put f [] = (Ok tt, frame_bytes f, []).
Proof. done. Qed.

(** Sending does not touch what is offered. *)
Lemma offers_written s fs e ws out :
  offers s fs e -> offers (mkStream (incoming s) ws out) fs e.
Proof. done. Qed.
End AnyStream.

(** A reader that gets two frames in pieces, with an interruption in between. *)
#[global] Instance unlimited : Allocator := fun _ => true.

Definition ex_frames : list Frame := [mkFrame 2 [7; 8; 9]; mkFrame 1 []].
Definition ex_sent : Stream := snd (send_all ex_frames (mkStream [] [] [])).
Definition ex_pieces : Stream :=
  mkStream [Chunk (take 5 (outgoing ex_sent)); ReadFails IoError.Interrupted; Chunk (drop 5 (outgoing ex_sent))] [] [].

Lemma frames_roundtrip_witness :
  exists s', receive_all 2 ex_pieces = (Ok ex_frames, s') /\ fst (receive_frame s') = Err ConnectionClosed.
Proof.
  apply (frames_roundtrip ltac:(done) ex_frames (mkStream [] [] []) ex_sent ex_pieces).
  - apply (bool_decide_unpack _). vm_compute. exact I.
  - reflexivity.
  - vm_compute. reflexivity.
  - vm_compute. reflexivity.
Defined.

Lemma receive_frame_refines_witness :
  fst (receive_frame ex_pieces) = Ok (mkFrame 2 [7; 8; 9]) /\
  receives ex_pieces (Ok (mkFrame 2 [7; 8; 9])) (snd (receive_frame ex_pieces)).
Proof.
  split; [vm_compute; reflexivity|]. apply receive_frame_refines.
  - apply (bool_decide_unpack _). vm_compute. exact I.
  - vm_compute. reflexivity.
Defined.

End Transport.
