(* ===== verification/Hello.v ===== *)
(** * The HELLO exchange ([crates/t1-bridge/src/hello.rs])

    The body a client sends, and the bounded JSON parser for the peer's. The
    parser's [input] and [position] are the input that remains; a Rust slice at a
    position inside a character is a panic. *)

From S2P Require Import Prelude Text.

Module Hello.
Import Text.

Definition MAX_HELLO_BODY_LEN : Z := 64 * 1024.
Definition MAX_PROCESS_NAME_LEN : Z := 255.
Definition MAX_JSON_DEPTH : nat := 32.
Definition MAX_JSON_KEY_LEN : Z := 512.
(** "MaxSupportedProtocolVersion". *)
Definition PROTOCOL_VERSION_KEY : bytes :=
  [77; 97; 120; 83; 117; 112; 112; 111; 114; 116; 101; 100; 80; 114; 111; 116; 111; 99; 111; 108; 86;
   101; 114; 115; 105; 111; 110].

Inductive HelloError : Type :=
| InvalidProcessName | BodyTooLarge | MalformedJson | NestingTooDeep | JsonKeyTooLong
| MissingProtocolVersion | DuplicateProtocolVersion | UnsupportedProtocolVersion.

(** ** Encoding *)

(** "0123456789abcdef". *)
Definition HEX : bytes := [48; 49; 50; 51; 52; 53; 54; 55; 56; 57; 97; 98; 99; 100; 101; 102].

Definition hex_digit (value : Z) : res HelloError Z := byte_at HEX (Z.to_nat (Z.land value 0x0f)).

Definition append_unicode_escape (value : Z) : res HelloError bytes :=
  let! d3 := hex_digit (Z.shiftr value 12) in
  let! d2 := hex_digit (Z.shiftr value 8) in
  let! d1 := hex_digit (Z.shiftr value 4) in
  let! d0 := hex_digit value in
  Ok ([92; 117] ++ [d3; d2; d1; d0]).

(** The bytes of one character in [escape_json_string]; the conversions to [u16]
    are in range. *)
Definition escape_char (c : Z) : res HelloError bytes :=
  if c =? 34 then Ok [92; 34]
  else if c =? 92 then Ok [92; 92]
  else if c =? 0x08 then Ok [92; 98]
  else if c =? 0x0c then Ok [92; 102]
  else if c =? 10 then Ok [92; 110]
  else if c =? 13 then Ok [92; 114]
  else if c =? 9 then Ok [92; 116]
  else if in_range 0 0x1f c || in_range 0x80 0xffff c then append_unicode_escape c
  else if 0x10000 <=? c then
    let scalar := c - 0x10000 in
    let! high := append_unicode_escape (0xd800 + Z.shiftr scalar 10) in
    let! low := append_unicode_escape (0xdc00 + Z.land scalar 0x3ff) in
    Ok (high ++ low)
  else Ok (utf8_char c).

Fixpoint escape_json_string (cs : list Z) : res HelloError bytes :=
  match cs with
  | [] => Ok []
  | c :: cs =>
      let! bs := escape_char c in
      let! rest := escape_json_string cs in
      Ok (bs ++ rest)
  end.

(** The members OSBuild ("Linux") and BridgeXPCVersion (1.35), and ProcessName up to
    its opening quote. *)
Definition HELLO_HEAD : bytes :=
  [123; 34; 79; 83; 66; 117; 105; 108; 100; 34; 58; 34; 76; 105; 110; 117; 120; 34; 44; 34; 66; 114;
   105; 100; 103; 101; 88; 80; 67; 86; 101; 114; 115; 105; 111; 110; 34; 58; 49; 46; 51; 53; 44; 34; 80;
   114; 111; 99; 101; 115; 115; 78; 97; 109; 101; 34; 58; 34].
(** The closing quote and the member MaxSupportedProtocolVersion (1). *)
Definition HELLO_TAIL : bytes := [34; 44; 34] ++ PROTOCOL_VERSION_KEY ++ [34; 58; 49; 125].

Definition encode_hello (process_name : bytes) : res HelloError bytes :=
  if (len process_name =? 0) || (MAX_PROCESS_NAME_LEN <? len process_name)
  then Err InvalidProcessName
  else
    let! name := escape_json_string (chars process_name) in
    Ok (HELLO_HEAD ++ name ++ HELLO_TAIL).

(** ** Parsing *)

(** [Parser::peek] and [Parser::next_byte]. *)
Definition peek (r : bytes) : option Z := head r.
Definition next_byte (r : bytes) : option (Z * bytes) :=
  match r with [] => None | b :: r => Some (b, r) end.

(** [Parser::take]; [Parser::expect]. *)
Definition take_ (byte : Z) (r : bytes) : bool * bytes :=
  match r with
  | b :: r' => if b =? byte then (true, r') else (false, r)
  | [] => (false, r)
  end.

Definition expect (byte : Z) (r : bytes) : res HelloError bytes :=
  let (found, r) := take_ byte r in if found then Ok r else Err MalformedJson.

Definition is_whitespace (b : Z) : bool := (b =? 32) || (b =? 10) || (b =? 13) || (b =? 9).

Fixpoint skip_whitespace (r : bytes) : bytes :=
  match r with
  | b :: r' => if is_whitespace b then skip_whitespace r' else r
  | [] => r
  end.

Definition is_digit (b : Z) : bool := (48 <=? b) && (b <=? 57).

Definition peek_digit (r : bytes) : bool := match r with b :: _ => is_digit b | [] => false end.

(** The loops that advance over digits. *)
Fixpoint skip_digits (r : bytes) : bytes :=
  match r with
  | b :: r' => if is_digit b then skip_digits r' else r
  | [] => r
  end.

Definition take_digits (r : bytes) : res HelloError bytes :=
  if negb (peek_digit r) then Err MalformedJson else Ok (skip_digits r).

(** The exponent part of [parse_number]. *)
Definition parse_exponent (r : bytes) : res HelloError bytes :=
  match r with
  | b :: r' =>
      if (b =? 101) || (b =? 69) then
        let r' := match r' with
                  | s :: r'' => if (s =? 43) || (s =? 45) then r'' else r'
                  | [] => r'
                  end in
        take_digits r'
      else Ok r
  | [] => Ok r
  end.

(** Slicing a text needs a boundary between characters. *)
Definition is_char_boundary (r : bytes) : bool :=
  match r with b :: _ => negb (continuation b) | [] => true end.

(** [&self.input[start..end]], where [text] is the input from [start] on and [n] is
    [end - start]: it panics if the end is before the start or beyond the input, or if
    either is not a boundary. *)
Definition slice (text : bytes) (n : Z) : res HelloError bytes :=
  if (n <? 0) || (len text <? n) || negb (is_char_boundary text)
     || negb (is_char_boundary (drop (Z.to_nat n) text)) then Panic
  else Ok (take (Z.to_nat n) text).

(** [Parser::parse_number] up to its last line: what follows the number. *)
Definition skip_number (start : bytes) : res HelloError bytes :=
  let r := snd (take_ 45 start) in
  let! r :=
    match next_byte r with
    | Some (b, r) =>
        if (b =? 48) && peek_digit r then Err MalformedJson
        else if is_digit b then Ok (skip_digits r)
        else Err MalformedJson
    | None => Err MalformedJson
    end in
  let! r := (let (dot, r) := take_ 46 r in if dot then take_digits r else Ok r) in
  parse_exponent r.

(** [Parser::parse_number]: the text of the number, and what follows it. *)
Definition parse_number (start : bytes) : res HelloError (bytes * bytes) :=
  let! r := skip_number start in
  let! number := slice start (len start - len r) in
  Ok (number, r).

(** [Parser::parse_hex_quad]. *)
Definition hex_value (digit : Z) : option Z :=
  if is_digit digit then Some (digit - 48)
  else if in_range 97 102 digit then Some (digit - 97 + 10)
  else if in_range 65 70 digit then Some (digit - 65 + 10)
  else None.

Fixpoint hex_loop (n : nat) (value : Z) (r : bytes) : res HelloError (Z * bytes) :=
  match n with
  | O => Ok (value, r)
  | S n =>
      match next_byte r with
      | None => Err MalformedJson
      | Some (digit, r) =>
          match hex_value digit with
          | None => Err MalformedJson
          | Some digit => hex_loop n (Z.lor (Z.shiftl value 4 mod 2 ^ 16) digit) r
          end
      end
  end.

Definition parse_hex_quad (r : bytes) : res HelloError (Z * bytes) := hex_loop 4 0 r.

(** [self.next_byte() != Some(byte)] is an error. *)
Definition expect_next (byte : Z) (r : bytes) : res HelloError bytes :=
  match next_byte r with
  | Some (b, r) => if b =? byte then Ok r else Err MalformedJson
  | None => Err MalformedJson
  end.

Definition parse_unicode_escape (r : bytes) : res HelloError (Z * bytes) :=
  let! (first, r) := parse_hex_quad r in
  let! (c, r) :=
    if in_range 0xd800 0xdbff first then
      let! r := expect_next 92 r in
      let! r := expect_next 117 r in
      let! (second, r) := parse_hex_quad r in
      if negb (in_range 0xdc00 0xdfff second) then Err MalformedJson
      else Ok (0x10000 + Z.shiftl (first - 0xd800) 10 + (second - 0xdc00), r)
    else if in_range 0xdc00 0xdfff first then Err MalformedJson
    else Ok (first, r) in
  if scalar c then Ok (c, r) else Err MalformedJson.

Definition parse_escape (r : bytes) : res HelloError (Z * bytes) :=
  match next_byte r with
  | None => Err MalformedJson
  | Some (b, r) =>
      if b =? 34 then Ok (34, r)
      else if b =? 92 then Ok (92, r)
      else if b =? 47 then Ok (47, r)
      else if b =? 98 then Ok (0x08, r)
      else if b =? 102 then Ok (0x0c, r)
      else if b =? 110 then Ok (10, r)
      else if b =? 114 then Ok (13, r)
      else if b =? 116 then Ok (9, r)
      else if b =? 117 then parse_unicode_escape r
      else Err MalformedJson
  end.

(** [char::len_utf8]. *)
Definition len_utf8 (c : Z) : nat := length (utf8_char c).

(** [Parser::next_character]. *)
Definition next_character (r : bytes) : res HelloError (option (Z * bytes)) :=
  if negb (is_char_boundary r) then Panic
  else
    match chars r with
    | [] => Ok None
    | c :: _ => Ok (Some (c, drop (len_utf8 c) r))
    end.

(** The loop of [Parser::parse_string]; every turn consumes a byte or more. *)
Fixpoint string_loop (fuel : nat) (output : option bytes) (r : bytes)
    : res HelloError (option bytes * bytes) :=
  match fuel with
  | O => Panic
  | S fuel =>
      let! next := next_character r in
      match next with
      | None => Err MalformedJson
      | Some (c, r) =>
          if c =? 34 then Ok (output, r)
          else
            let! (c, r) :=
              if c =? 92 then parse_escape r
              else if c <=? 0x1f then Err MalformedJson
              else Ok (c, r) in
            match output with
            | None => string_loop fuel None r
            | Some value =>
                if MAX_JSON_KEY_LEN <? len value + Z.of_nat (len_utf8 c) then Err JsonKeyTooLong
                else string_loop fuel (Some (value ++ utf8_char c)) r
            end
      end
  end.

Definition parse_string (output : option bytes) (r : bytes) : res HelloError (option bytes * bytes) :=
  let! r := expect 34 r in
  string_loop (S (length r)) output r.

Definition parse_key (r : bytes) : res HelloError (bytes * bytes) :=
  let! (key, r) := parse_string (Some []) r in
  match key with Some key => Ok (key, r) | None => Panic end.

Definition skip_string (r : bytes) : res HelloError bytes :=
  let! (_, r) := parse_string None r in Ok r.

(** [Parser::parse_literal]. *)
Definition parse_literal (literal : bytes) (r : bytes) : res HelloError bytes :=
  if negb (is_char_boundary r) then Panic
  else if bool_decide (take (length literal) r = literal) then Ok (drop (length literal) r)
  else Err MalformedJson.

Definition TRUE : bytes := [116; 114; 117; 101].
Definition FALSE : bytes := [102; 97; 108; 115; 101].
Definition NULL : bytes := [110; 117; 108; 108].

(** The loops of [parse_object] and [parse_array], for the parser of the values. *)
Section Loops.
Context (parse_value : bytes -> res HelloError bytes).

Fixpoint object_loop (fuel : nat) (r : bytes) : res HelloError bytes :=
  match fuel with
  | O => Panic
  | S fuel =>
      let! r := skip_string r in
      let! r := expect 58 (skip_whitespace r) in
      let! r := parse_value (skip_whitespace r) in
      let (close, r) := take_ 125 (skip_whitespace r) in
      if (close : bool) then Ok r
      else
        let! r := expect 44 r in
        object_loop fuel (skip_whitespace r)
  end.

Fixpoint array_loop (fuel : nat) (r : bytes) : res HelloError bytes :=
  match fuel with
  | O => Panic
  | S fuel =>
      let! r := parse_value r in
      let (close, r) := take_ 93 (skip_whitespace r) in
      if (close : bool) then Ok r
      else
        let! r := expect 44 r in
        array_loop fuel (skip_whitespace r)
  end.

Definition parse_object (r : bytes) : res HelloError bytes :=
  let! r := expect 123 r in
  let (close, r) := take_ 125 (skip_whitespace r) in
  if (close : bool) then Ok r else object_loop (S (length r)) r.

Definition parse_array (r : bytes) : res HelloError bytes :=
  let! r := expect 91 r in
  let (close, r) := take_ 93 (skip_whitespace r) in
  if (close : bool) then Ok r else array_loop (S (length r)) r.

End Loops.

(** [Parser::parse_value]: [levels] is the number of levels still allowed,
    [MAX_JSON_DEPTH + 1 - depth]. *)
Fixpoint parse_value (levels : nat) (r : bytes) : res HelloError bytes :=
  match levels with
  | O => Err NestingTooDeep
  | S levels =>
      match peek r with
      | Some b =>
          if b =? 34 then skip_string r
          else if b =? 123 then parse_object (parse_value levels) r
          else if b =? 91 then parse_array (parse_value levels) r
          else if b =? 116 then parse_literal TRUE r
          else if b =? 102 then parse_literal FALSE r
          else if b =? 110 then parse_literal NULL r
          else if (b =? 45) || is_digit b then let! (_, r) := parse_number r in Ok r
          else Err MalformedJson
      | None => Err MalformedJson
      end
  end.

(** ** The version *)

Fixpoint decimal (acc : Z) (ds : bytes) : Z :=
  match ds with [] => acc | d :: ds => decimal (acc * 10 + (d - 48)) ds end.

Fixpoint digits_of (r : bytes) : bytes :=
  match r with
  | b :: r' => if is_digit b then b :: digits_of r' else []
  | [] => []
  end.

(** [number.parse::<f64>() >= 1.0] for the text of a number: parsing rounds the
    decimal to the nearest double, ties to even, so that the numbers from
    [1 - 2^-54] on give 1 or more. *)
Definition at_least_one (number : bytes) : bool :=
  let (negative, r) := take_ 45 number in
  if negative then false
  else
    let whole := digits_of r in
    let (dot, r) := take_ 46 (skip_digits r) in
    let fraction := if dot then digits_of r else [] in
    let r := if dot then skip_digits r else r in
    let exponent :=
      match r with
      | _ :: s :: r' =>
          if s =? 45 then - decimal 0 r' else if s =? 43 then decimal 0 r' else decimal 0 (s :: r')
      | _ => 0
      end in
    let mantissa := decimal 0 (whole ++ fraction) in
    let scale := exponent - len fraction in
    if 0 <=? scale then 0 <? mantissa
    else (2 ^ 54 - 1) * 10 ^ (- scale) <=? mantissa * 2 ^ 54.

Definition parse_protocol_version (r : bytes) : res HelloError (bool * bytes) :=
  if negb (match peek r with Some b => (b =? 45) || is_digit b | None => false end) then
    let! r := parse_value MAX_JSON_DEPTH r in Ok (false, r)
  else
    let! (number, r) := parse_number r in
    Ok (at_least_one number, r).

(** [Parser::finish]. *)
Definition finish (r : bytes) : res HelloError unit :=
  match skip_whitespace r with [] => Ok tt | _ => Err MalformedJson end.

(** The loop of [Parser::parse_hello]. *)
Fixpoint hello_loop (fuel : nat) (version : option bool) (r : bytes)
    : res HelloError (option bool * bytes) :=
  match fuel with
  | O => Panic
  | S fuel =>
      let! (key, r) := parse_key r in
      let! r := expect 58 (skip_whitespace r) in
      let r := skip_whitespace r in
      let! (version, r) :=
        if bool_decide (key = PROTOCOL_VERSION_KEY) then
          match version with
          | Some _ => Err DuplicateProtocolVersion
          | None => let! (v, r) := parse_protocol_version r in Ok (Some v, r)
          end
        else let! r := parse_value MAX_JSON_DEPTH r in Ok (version, r) in
      let (close, r) := take_ 125 (skip_whitespace r) in
      if (close : bool) then Ok (version, r)
      else
        let! r := expect 44 r in
        hello_loop fuel version (skip_whitespace r)
  end.

Definition parse_hello (input : bytes) : res HelloError unit :=
  let r := skip_whitespace input in
  match r with
  | b :: r =>
      if negb (b =? 123) then Err MalformedJson
      else
        let (close, r) := take_ 125 (skip_whitespace r) in
        if (close : bool) then let! _ := finish r in Err MissingProtocolVersion
        else
          let! (version, r) := hello_loop (S (length r)) None r in
          let! _ := finish r in
          match version with
          | Some true => Ok tt
          | Some false => Err UnsupportedProtocolVersion
          | None => Err MissingProtocolVersion
          end
  | [] => Err MalformedJson
  end.

Definition validate_peer_hello (body : bytes) : res HelloError unit :=
  if MAX_HELLO_BODY_LEN <? len body then Err BodyTooLarge
  else
    let! input := ok_or (from_utf8 body) MalformedJson in
    parse_hello input.

(** ** The parser returns *)

(** What is left to parse is a text. *)
Definition good (r : bytes) : Prop := bytes_ok r /\ utf8_valid r = true.

(** A parser's result is an error, or leaves a text shorter than [n]. *)
Definition fine {A} (rest : A -> bytes) (n : nat) (x : res HelloError A) : Prop :=
  match x with
  | Ok a => good (rest a) /\ (length (rest a) < n)%nat
  | Err _ => True
  | Panic => False
  end.

Lemma fine_bind {A B} (p : A -> bytes) (q : B -> bytes) n m (x : res HelloError A) (k : A -> res HelloError B) :
  fine p n x -> (forall a, good (p a) -> (length (p a) < n)%nat -> fine q m (k a)) ->
  fine q m (let! a := x in k a).
Proof. destruct x as [a|e|]; cbn; [|done..]. intros [Hg Hl] Hk. by apply Hk. Qed.

Lemma fine_mono {A} (p : A -> bytes) n m (x : res HelloError A) : fine p n x -> (n <= m)%nat -> fine p m x.
Proof. destruct x as [a|e|]; cbn; [|done..]. intros [Hg Hl] Hn. split; [done|lia]. Qed.

Lemma good_nil : good [].
Proof. split; [apply bytes_ok_nil|done]. Qed.

Lemma good_cons b r : good (b :: r) -> b < 128 -> good r.
Proof.
  intros [Hok Hv] Hb. apply bytes_ok_cons in Hok as [Hbu Hok]. split; [done|]. cbn in Hv. unfold is_u in Hbu.
  unfold in_range at 1 in Hv. by replace (_ && _) with true in Hv by lia.
Qed.

Lemma good_app l r : Forall (fun b => b < 128) l -> good (l ++ r) -> good r.
Proof. induction 1 as [|b l Hb _ IH]; [done|]. intros Hg. by apply IH, (good_cons b). Qed.

(** A text is empty or starts with a character. *)
Lemma good_cases r :
  good r -> r = [] \/ exists c l, scalar c = true /\ good l /\ r = utf8_char c ++ l.
Proof.
  intros [Hok Hv]. revert Hok. revert r Hv.
  assert (forall r, bytes_ok r -> utf8_valid r = true -> bytes_ok r ->
    r = [] \/ exists c l, scalar c = true /\ good l /\ r = utf8_char c ++ l) as Hx; [|eauto].
  apply (utf8_ind (fun r => bytes_ok r -> r = [] \/ exists c l, scalar c = true /\ good l /\ r = utf8_char c ++ l)).
  - by left.
  - intros c l Hc Hl _ Hok. right. exists c, l. split; [done|]. split; [|done]. split; [|done].
    by apply bytes_ok_app in Hok as [_ ?].
Qed.

Lemma utf8_char_pos c : (1 <= length (utf8_char c))%nat.
Proof. unfold utf8_char. repeat destruct (_ <? _); cbn; lia. Qed.

Lemma boundary_char c l : scalar c = true -> is_char_boundary (utf8_char c ++ l) = true.
Proof.
  intros Hc. unfold scalar, in_range in Hc. unfold is_char_boundary, utf8_char, continuation, in_range.
  destruct (c <? 128) eqn:H1; [|destruct (c <? 2048) eqn:H2; [|destruct (c <? 65536) eqn:H3]]; cbn [app];
    Z.to_euclidean_division_equations; lia.
Qed.

Lemma good_boundary r : good r -> is_char_boundary r = true.
Proof. intros [->|(c & l & Hc & _ & ->)]%good_cases; [done|by apply boundary_char]. Qed.

Lemma next_character_char c l :
  scalar c = true -> next_character (utf8_char c ++ l) = Ok (Some (c, l)).
Proof.
  intros Hc. unfold next_character. rewrite boundary_char, chars_utf8_char by done. cbn [negb].
  unfold len_utf8. by rewrite drop_app_length.
Qed.

Lemma skip_whitespace_good r : good r -> good (skip_whitespace r) /\ (length (skip_whitespace r) <= length r)%nat.
Proof.
  induction r as [|b r IH]; intros Hg; [done|]. cbn. destruct (is_whitespace b) eqn:Hb; [|done].
  unfold is_whitespace in Hb. destruct (IH ltac:(by apply (good_cons b); [|lia])). split; [done|lia].
Qed.

Lemma skip_digits_good r : good r -> good (skip_digits r) /\ (length (skip_digits r) <= length r)%nat.
Proof.
  induction r as [|b r IH]; intros Hg; [done|]. cbn. destruct (is_digit b) eqn:Hb; [|done].
  unfold is_digit in Hb. destruct (IH ltac:(by apply (good_cons b); [|lia])). split; [done|lia].
Qed.

Lemma take_good byte r :
  byte < 128 -> good r -> good (snd (take_ byte r)) /\
  (length (snd (take_ byte r)) + (if fst (take_ byte r) then 1 else 0) = length r)%nat.
Proof.
  intros Hb Hg. destruct r as [|b r]; [done|]. cbn. destruct (b =? byte) eqn:He; cbn; [|split; [done|lia]].
  split; [|lia]. apply (good_cons b); [done|lia].
Qed.

Lemma expect_fine byte r : byte < 128 -> good r -> fine id (length r) (expect byte r).
Proof.
  intros Hb Hg. unfold expect. pose proof (take_good byte r Hb Hg) as [H1 H2].
  destruct (take_ byte r) as [[|] r']; cbn in *; [|done]. split; [done|]. unfold id. lia.
Qed.

Lemma take_digits_fine r : good r -> fine id (length r) (take_digits r).
Proof.
  intros Hg. unfold take_digits. destruct r as [|b r]; [done|]. cbn. destruct (is_digit b) eqn:Hb; cbn; [|done].
  unfold is_digit in Hb. destruct (skip_digits_good r) as [H1 H2]; [by apply (good_cons b); [|lia]|].
  unfold id. split; [done|lia].
Qed.

Lemma parse_exponent_fine r : good r -> fine id (S (length r)) (parse_exponent r).
Proof.
  intros Hg. unfold parse_exponent. destruct r as [|b r]; [cbn; split; [done|unfold id; cbn; lia]|].
  destruct ((b =? 101) || (b =? 69)) eqn:Hb; [|cbn; unfold id; split; [done|cbn; lia]].
  apply good_cons in Hg; [|lia]. destruct r as [|s r]; [done|].
  destruct ((s =? 43) || (s =? 45)) eqn:Hs.
  - eapply fine_mono; [apply take_digits_fine, (good_cons s); [done|lia]|cbn; lia].
  - eapply fine_mono; [by apply take_digits_fine|cbn; lia].
Qed.

Lemma skip_number_fine r : good r -> fine id (length r) (skip_number r).
Proof.
  intros Hg. unfold skip_number. pose proof (take_good 45 r ltac:(lia) Hg) as [H1 H2].
  set (r1 := snd (take_ 45 r)) in *. assert (length r1 <= length r)%nat as Hl by (destruct (fst _); lia).
  eapply (fine_bind id id (length r)).
  - destruct r1 as [|b r2]; cbn [next_byte]; [done|]. destruct (_ && peek_digit r2); [done|].
    destruct (is_digit b) eqn:Hb; [|done]. unfold is_digit in Hb. cbn [length] in Hl.
    destruct (skip_digits_good r2) as [H3 H4]; [by apply (good_cons b); [|lia]|]. cbn. unfold id. split; [done|lia].
  - unfold id. intros r2 Hg2 Hl2. eapply (fine_bind id id (length r)).
    + pose proof (take_good 46 r2 ltac:(lia) Hg2) as [H3 H4]. destruct (take_ 46 r2) as [[|] r3]; cbn in *.
      * eapply fine_mono; [by apply take_digits_fine|lia].
      * unfold id. split; [done|lia].
    + unfold id. intros r3 Hg3 Hl3. eapply fine_mono; [by apply parse_exponent_fine|lia].
Qed.

(** The parser only moves on: what is left is an end of what there was. *)
Lemma suffix_step (b : Z) (r r' : bytes) : r' `suffix_of` r -> r' `suffix_of` b :: r.
Proof. apply suffix_cons_r. Qed.

Lemma skip_digits_suffix r : skip_digits r `suffix_of` r.
Proof. induction r as [|b r IH]; [done|]. cbn. destruct (is_digit b); [by apply suffix_step|done]. Qed.

Lemma take_suffix byte r : snd (take_ byte r) `suffix_of` r.
Proof. destruct r as [|b r]; [done|]. cbn. destruct (_ =? _); [by apply suffix_step|done]. Qed.

Lemma take_digits_suffix r r' : take_digits r = Ok r' -> r' `suffix_of` r.
Proof. unfold take_digits. destruct (negb _); [done|]. intros [= <-]. apply skip_digits_suffix. Qed.

Lemma parse_exponent_suffix r r' : parse_exponent r = Ok r' -> r' `suffix_of` r.
Proof.
  unfold parse_exponent. destruct r as [|b r]; [by intros [= <-]|]. destruct (_ || _); [|by intros [= <-]].
  intros Hd. apply suffix_step. destruct r as [|s r]; [by apply take_digits_suffix in Hd|].
  destruct (_ || _); [apply suffix_step|]; by apply take_digits_suffix in Hd.
Qed.

Lemma skip_number_suffix r r' : skip_number r = Ok r' -> r' `suffix_of` r.
Proof.
  unfold skip_number. pose proof (take_suffix 45 r) as H0. destruct (snd (take_ 45 r)) as [|b r1]; cbn [next_byte]; [done|].
  destruct (_ && peek_digit r1); [done|]. destruct (is_digit b); [|done].
  pose proof (skip_digits_suffix r1) as H1. pose proof (take_suffix 46 (skip_digits r1)) as H2.
  destruct (take_ 46 (skip_digits r1)) as [[] r2]; cbn [snd] in H2.
  - destruct (take_digits r2) as [r3|e|] eqn:H3; [|done..]. apply take_digits_suffix in H3.
    intros H4%parse_exponent_suffix. etransitivity; [|exact H0]. apply suffix_step.
    do 3 (etransitivity; [eassumption|]). done.
  - intros H4%parse_exponent_suffix. etransitivity; [|exact H0]. apply suffix_step.
    do 2 (etransitivity; [eassumption|]). done.
Qed.

(** Slicing between two boundaries of a text. *)
Lemma slice_app number r :
  is_char_boundary (number ++ r) = true -> is_char_boundary r = true ->
  slice (number ++ r) (len (number ++ r) - len r) = Ok number.
Proof.
  intros H1 H2. unfold slice. rewrite H1, length_app.
  replace (Z.to_nat (Z.of_nat (length number + length r) - Z.of_nat (length r))) with (length number) by lia.
  rewrite drop_app_length, take_app_length, H2. cbn [negb]. rewrite !orb_false_r.
  by replace (_ || _) with false by lia.
Qed.

(** A number and the text after it. *)
Lemma parse_number_app number r :
  is_char_boundary (number ++ r) = true -> is_char_boundary r = true ->
  skip_number (number ++ r) = Ok r -> parse_number (number ++ r) = Ok (number, r).
Proof. intros H1 H2 H. unfold parse_number. by rewrite H, slice_app. Qed.

Lemma parse_number_fine r : good r -> fine snd (length r) (parse_number r).
Proof.
  intros Hg. unfold parse_number. pose proof (skip_number_fine r Hg) as Hf.
  destruct (skip_number r) as [r'|e|] eqn:Hr; [|done..]. destruct Hf as [Hg' Hl].
  destruct (skip_number_suffix _ _ Hr) as [number ->].
  by rewrite slice_app by (by apply good_boundary).
Qed.

Lemma hex_loop_fine n v r : good r -> fine snd (S (length r)) (hex_loop n v r).
Proof.
  revert v r. induction n as [|n IH]; intros v r Hg; [cbn; split; [done|lia]|]. cbn.
  destruct r as [|b r]; cbn; [done|]. destruct (hex_value b) as [d|] eqn:Hd; [|done].
  assert (b < 128) as Hb.
  { unfold hex_value, is_digit, in_range in Hd. repeat (case_match; b2p; simplify_eq; try lia). }
  eapply fine_mono; [apply IH; by apply (good_cons b)|lia].
Qed.

Lemma expect_next_fine byte r : byte < 128 -> good r -> fine id (length r) (expect_next byte r).
Proof.
  intros Hb Hg. destruct r as [|b r]; [done|]. unfold expect_next. cbn. destruct (b =? byte) eqn:He; [|done].
  cbn. unfold id. split; [apply (good_cons b); [done|lia]|lia].
Qed.

Lemma parse_unicode_escape_fine r : good r -> fine snd (S (length r)) (parse_unicode_escape r).
Proof.
  intros Hg. unfold parse_unicode_escape. eapply (fine_bind snd snd (S (length r))); [by apply hex_loop_fine|].
  intros [first r1] Hg1 Hl1. cbn [snd] in *. eapply (fine_bind snd snd (S (length r))).
  - destruct (in_range 0xd800 0xdbff first).
    + eapply (fine_bind id snd (length r1)); [by apply expect_next_fine|]. unfold id. intros r2 Hg2 Hl2.
      eapply (fine_bind id snd (length r2)); [by apply expect_next_fine|]. unfold id. intros r3 Hg3 Hl3.
      eapply (fine_bind snd snd (S (length r3))); [by apply hex_loop_fine|]. intros [second r4] Hg4 Hl4. cbn [snd] in *.
      destruct (negb _); cbn; [done|]. split; [done|lia].
    + destruct (in_range 0xdc00 0xdfff first); cbn; [done|]. split; [done|lia].
  - intros [c r2] Hg2 Hl2. destruct (scalar c); cbn; done.
Qed.

Lemma parse_escape_fine r : good r -> fine snd (S (length r)) (parse_escape r).
Proof.
  intros Hg. unfold parse_escape. destruct r as [|b r]; [done|]. cbn [next_byte].
  repeat (match goal with |- context [b =? ?k] => destruct (b =? k) eqn:?; b2p end);
    try (cbn; split; [apply (good_cons b); [done|lia]|lia]); [|done].
  eapply fine_mono; [apply parse_unicode_escape_fine, (good_cons b); [done|lia]|cbn; lia].
Qed.

Lemma string_loop_fine fuel output r :
  (length r < fuel)%nat -> good r -> fine snd (length r) (string_loop fuel output r).
Proof.
  revert output r. induction fuel as [|fuel IH]; intros output r Hf Hg; [lia|]. cbn [string_loop].
  destruct (good_cases r Hg) as [->|(c & l & Hc & Hl & ->)]; [done|].
  rewrite next_character_char by done. pose proof (utf8_char_pos c). rewrite length_app in *.
  destruct (c =? 34); [cbn; split; [done|lia]|].
  eapply (fine_bind snd snd (S (length l))).
  - destruct (c =? 92); [by apply parse_escape_fine|]. destruct (c <=? 31); cbn; [done|]. split; [done|lia].
  - intros [c' r'] Hg' Hl'. cbn [snd] in *. destruct output as [value|].
    + destruct (_ <? _); [done|]. eapply fine_mono; [apply IH; [lia|done]|lia].
    + eapply fine_mono; [apply IH; [lia|done]|lia].
Qed.

Lemma parse_string_fine output r : good r -> fine snd (length r) (parse_string output r).
Proof.
  intros Hg. unfold parse_string. eapply (fine_bind id snd (length r)); [by apply expect_fine|]. unfold id.
  intros r' Hg' Hl'. eapply fine_mono; [apply string_loop_fine; [lia|done]|lia].
Qed.

Lemma skip_string_fine r : good r -> fine id (length r) (skip_string r).
Proof.
  intros Hg. unfold skip_string. eapply (fine_bind snd id (length r)); [by apply parse_string_fine|].
  intros [o r'] Hg' Hl'. cbn in *. done.
Qed.

Lemma string_loop_key fuel value r o r' : string_loop fuel (Some value) r = Ok (o, r') -> is_Some o.
Proof.
  revert value r. induction fuel as [|fuel IH]; intros value r Hs; [done|]. cbn [string_loop] in Hs.
  destruct (next_character r) as [[[c l]|]| |]; [|done..]. destruct (c =? 34); [simplify_eq; eauto|].
  destruct (if c =? 92 then _ else _) as [[c' l']| |]; [|done..]. destruct (_ <? _); [done|]. eauto.
Qed.

Lemma parse_key_fine r : good r -> fine snd (length r) (parse_key r).
Proof.
  intros Hg. unfold parse_key. pose proof (parse_string_fine (Some []) r Hg) as Hf. unfold parse_string in *.
  destruct (expect 34 r) as [r1|e|]; [|done..]. destruct (string_loop _ _ r1) as [[o r']|e|] eqn:Hs; [|done..].
  by apply string_loop_key in Hs as [key ->].
Qed.

Lemma parse_literal_fine literal r :
  Forall (fun b => b < 128) literal -> literal <> [] -> good r -> fine id (length r) (parse_literal literal r).
Proof.
  intros Hlit Hne Hg. unfold parse_literal. rewrite good_boundary by done. cbn [negb].
  destruct (bool_decide _) eqn:He; [|done]. b2p. rewrite <- (take_drop (length literal) r) in Hg. rewrite He in Hg.
  cbn. unfold id. split; [by eapply good_app|]. apply (f_equal length) in He. rewrite length_take in He.
  rewrite length_drop. destruct literal; [done|]. cbn [length] in *. lia.
Qed.

Section LoopLemmas.
Context (pv : bytes -> res HelloError bytes) (Hpv : forall r, good r -> fine id (length r) (pv r)).

Lemma object_loop_fine fuel r : (length r < fuel)%nat -> good r -> fine id (length r) (object_loop pv fuel r).
Proof.
  revert r. induction fuel as [|fuel IH]; intros r Hf Hg; [lia|]. cbn [object_loop].
  eapply (fine_bind id id (length r)); [by apply skip_string_fine|]. unfold id at 1 2. intros r1 Hg1 Hl1.
  destruct (skip_whitespace_good r1 Hg1) as [Hw1 Hwl1].
  eapply (fine_bind id id (length r)); [eapply fine_mono; [by apply expect_fine|lia]|]. unfold id at 1 2. intros r2 Hg2 Hl2.
  destruct (skip_whitespace_good r2 Hg2) as [Hw2 Hwl2].
  eapply (fine_bind id id (length r)); [eapply fine_mono; [by apply Hpv|lia]|]. unfold id at 1 2. intros r3 Hg3 Hl3.
  destruct (skip_whitespace_good r3 Hg3) as [Hw3 Hwl3].
  pose proof (take_good 125 (skip_whitespace r3) ltac:(lia) Hw3) as [H4 H5].
  destruct (take_ 125 (skip_whitespace r3)) as [[|] r4]; cbn [fst snd] in *; [cbn; unfold id; split; [done|lia]|].
  eapply (fine_bind id id (length r4)); [by apply expect_fine|]. unfold id at 1 2. intros r5 Hg5 Hl5.
  destruct (skip_whitespace_good r5 Hg5) as [Hw5 Hwl5]. eapply fine_mono; [apply IH; [lia|done]|lia].
Qed.

Lemma array_loop_fine fuel r : (length r < fuel)%nat -> good r -> fine id (length r) (array_loop pv fuel r).
Proof.
  revert r. induction fuel as [|fuel IH]; intros r Hf Hg; [lia|]. cbn [array_loop].
  eapply (fine_bind id id (length r)); [by apply Hpv|]. unfold id at 1 2. intros r3 Hg3 Hl3.
  destruct (skip_whitespace_good r3 Hg3) as [Hw3 Hwl3].
  pose proof (take_good 93 (skip_whitespace r3) ltac:(lia) Hw3) as [H4 H5].
  destruct (take_ 93 (skip_whitespace r3)) as [[|] r4]; cbn [fst snd] in *; [cbn; unfold id; split; [done|lia]|].
  eapply (fine_bind id id (length r4)); [by apply expect_fine|]. unfold id at 1 2. intros r5 Hg5 Hl5.
  destruct (skip_whitespace_good r5 Hg5) as [Hw5 Hwl5]. eapply fine_mono; [apply IH; [lia|done]|lia].
Qed.

(** The opening of an object or an array. *)
Lemma opened_fine open close (loop : nat -> bytes -> res HelloError bytes) r :
  open < 128 -> close < 128 ->
  (forall fuel r, (length r < fuel)%nat -> good r -> fine id (length r) (loop fuel r)) -> good r ->
  fine id (length r) (
    let! r := expect open r in
    let (closed, r) := take_ close (skip_whitespace r) in
    if (closed : bool) then Ok r else loop (S (length r)) r).
Proof.
  intros Ho Hc Hloop Hg. eapply (fine_bind id id (length r)); [by apply expect_fine|]. unfold id at 1 2. intros r1 Hg1 Hl1.
  destruct (skip_whitespace_good r1 Hg1) as [Hw Hwl]. pose proof (take_good close _ Hc Hw) as [H4 H5].
  destruct (take_ close _) as [[|] r2]; cbn [fst snd] in *; [cbn; unfold id; split; [done|lia]|].
  eapply fine_mono; [apply Hloop; [lia|done]|lia].
Qed.

End LoopLemmas.

Lemma parse_value_fine levels r : good r -> fine id (length r) (parse_value levels r).
Proof.
  revert r. induction levels as [|levels IH]; intros r Hg; [done|]. cbn [parse_value].
  destruct (peek r) as [b|]; [|done]. destruct (b =? 34); [by apply skip_string_fine|].
  destruct (b =? 123); [apply (opened_fine 123 125); [lia|lia|by apply object_loop_fine|done]|].
  destruct (b =? 91); [apply (opened_fine 91 93); [lia|lia|by apply array_loop_fine|done]|].
  destruct (b =? 116); [apply parse_literal_fine; [repeat constructor; lia|done|done]|].
  destruct (b =? 102); [apply parse_literal_fine; [repeat constructor; lia|done|done]|].
  destruct (b =? 110); [apply parse_literal_fine; [repeat constructor; lia|done|done]|].
  destruct (_ || _); [|done]. eapply (fine_bind snd id (length r)); [by apply parse_number_fine|].
  intros [o r'] Hg' Hl'. done.
Qed.

Lemma parse_protocol_version_fine r : good r -> fine snd (length r) (parse_protocol_version r).
Proof.
  intros Hg. unfold parse_protocol_version. destruct (negb _).
  - eapply (fine_bind id snd (length r)); [by apply parse_value_fine|]. done.
  - eapply (fine_bind snd snd (length r)); [by apply parse_number_fine|]. by intros [o r'] Hg' Hl'.
Qed.

Lemma hello_loop_fine fuel version r :
  (length r < fuel)%nat -> good r -> fine snd (length r) (hello_loop fuel version r).
Proof.
  revert version r. induction fuel as [|fuel IH]; intros version r Hf Hg; [lia|]. cbn [hello_loop].
  eapply (fine_bind snd snd (length r)); [by apply parse_key_fine|]. intros [key r1] Hg1 Hl1. cbn [snd] in *.
  destruct (skip_whitespace_good r1 Hg1) as [Hw1 Hwl1].
  eapply (fine_bind id snd (length r)); [eapply fine_mono; [by apply expect_fine|lia]|]. unfold id at 1 2. intros r2 Hg2 Hl2.
  destruct (skip_whitespace_good r2 Hg2) as [Hw2 Hwl2]. cbv zeta.
  eapply (fine_bind snd snd (length r)).
  - destruct (bool_decide _); [destruct version; [done|]|].
    + eapply (fine_bind snd snd (length r)); [eapply fine_mono; [by apply parse_protocol_version_fine|lia]|].
      by intros [v r3] Hg3 Hl3.
    + eapply (fine_bind id snd (length r)); [eapply fine_mono; [by apply parse_value_fine|lia]|]. done.
  - intros [version' r3] Hg3 Hl3. cbn [snd] in *. destruct (skip_whitespace_good r3 Hg3) as [Hw3 Hwl3].
    pose proof (take_good 125 (skip_whitespace r3) ltac:(lia) Hw3) as [H4 H5].
    destruct (take_ 125 (skip_whitespace r3)) as [[|] r4]; cbn [fst snd] in *; [cbn; split; [done|lia]|].
    eapply (fine_bind id snd (length r4)); [by apply expect_fine|]. unfold id at 1 2. intros r5 Hg5 Hl5.
    destruct (skip_whitespace_good r5 Hg5) as [Hw5 Hwl5]. eapply fine_mono; [apply IH; [lia|done]|lia].
Qed.

Lemma finish_no_panic r : finish r <> Panic.
Proof. unfold finish. by destruct (skip_whitespace r). Qed.

Lemma validate_total body : bytes_ok body -> validate_peer_hello body <> Panic.
Proof.
  intros Hok. unfold validate_peer_hello, from_utf8. destruct (_ <? _); [done|].
  destruct (utf8_valid body) eqn:Hv; cbn [ok_or]; [|done]. unfold parse_hello.
  destruct (skip_whitespace_good body ltac:(done)) as [Hg _]. destruct (skip_whitespace body) as [|b r]; [done|].
  destruct (b =? 123) eqn:Hb; cbn [negb]; [|done]. b2p. apply good_cons in Hg; [|lia].
  destruct (skip_whitespace_good r Hg) as [Hw _]. pose proof (take_good 125 _ ltac:(lia) Hw) as [H1 _].
  destruct (take_ 125 (skip_whitespace r)) as [[|] r2]; cbn [fst snd] in *.
  - pose proof (finish_no_panic r2). by destruct (finish r2).
  - pose proof (hello_loop_fine (S (length r2)) None r2 ltac:(lia) H1) as Hf.
    destruct (hello_loop _ None r2) as [[version r3]|e|]; [|done..]. pose proof (finish_no_panic r3).
    destruct (finish r3); [|done..]. by destruct version as [[|]|].
Qed.

(** C37. Validating a peer's HELLO returns for every body and never panics: the parser
    slices its input, for a character, a literal or the text of a number, only between
    boundaries of characters and within it, and each of its loops consumes input. *)
Theorem validate_peer_hello_total body : bytes_ok body -> validate_peer_hello body <> Panic.
Proof. apply validate_total. Qed.

Lemma validate_peer_hello_total_witness :
  validate_peer_hello [123; 34; 195; 169; 34; 58; 91; 93; 125] = Err MissingProtocolVersion /\
  validate_peer_hello [123; 34; 195; 169; 34; 58; 91; 93; 125] <> Panic.
Proof.
  split; [vm_compute; reflexivity|]. apply validate_peer_hello_total. apply (bool_decide_unpack _). vm_compute. exact I.
Defined.

(** ** The client's own HELLO is accepted *)

Lemma land_15 v : Z.land v 0x0f = v mod 16.
Proof. change 0x0f with (Z.ones 4). by rewrite Z.land_ones. Qed.

Lemma hex_nibble n : 0 <= n < 16 -> exists d, byte_at (E := HelloError) HEX (Z.to_nat n) = Ok d /\ hex_value d = Some n.
Proof.
  intros Hn.
  assert (implb (n <? 16) match byte_at (E := HelloError) HEX (Z.to_nat n) with
    | Ok d => bool_decide (hex_value d = Some n) | _ => false end = true) as Hc.
  { assert (is_u 8 n) as Hb by (unfold is_u; lia). clear Hn. revert n Hb. apply byte_forall. vm_compute. reflexivity. }
  replace (n <? 16) with true in Hc by lia. cbn [implb] in Hc.
  destruct (byte_at HEX (Z.to_nat n)) as [d| |]; [|done..]. b2p. eauto.
Qed.

Lemma hex_step v d : 0 <= v < 2 ^ 12 -> 0 <= d < 16 -> Z.lor (Z.shiftl v 4 mod 2 ^ 16) d = v * 16 + d.
Proof.
  intros Hv Hd. rewrite Z.shiftl_mul_pow2 by lia. change (2 ^ 4) with 16. rewrite Z.mod_small by lia.
  assert (Z.land (v * 16) d = 0) as Hl.
  { change 16 with (2 ^ 4). rewrite <- Z.shiftl_mul_pow2 by lia. apply Z.bits_inj'. intros n Hn.
    rewrite Z.land_spec, Z.shiftl_spec, Z.bits_0 by lia. destruct (decide (n < 4)) as [Hlt|Hge].
    - by rewrite Z.testbit_neg_r by lia.
    - replace (Z.testbit d n) with false; [by rewrite andb_false_r|]. symmetry.
      destruct (decide (d = 0)) as [->|]; [apply Z.bits_0|]. apply Z.bits_above_log2; [lia|].
      apply Z.log2_lt_pow2; [lia|]. eapply Z.lt_le_trans; [apply Hd|]. change 16 with (2 ^ 4).
      apply Z.pow_le_mono_r; lia. }
  pose proof (Z.add_lor_land (v * 16) d). lia.
Qed.

Lemma unicode_escape_quad v l :
  0 <= v < 2 ^ 16 ->
  exists q, append_unicode_escape v = Ok ([92; 117] ++ q) /\ parse_hex_quad (q ++ l) = Ok (v, l).
Proof.
  intros Hv. unfold append_unicode_escape, hex_digit. rewrite !land_15, !Z.shiftr_div_pow2 by lia.
  destruct (hex_nibble (v / 2 ^ 12 mod 16)) as (d3 & -> & H3); [apply Z.mod_pos_bound; lia|].
  destruct (hex_nibble (v / 2 ^ 8 mod 16)) as (d2 & -> & H2); [apply Z.mod_pos_bound; lia|].
  destruct (hex_nibble (v / 2 ^ 4 mod 16)) as (d1 & -> & H1); [apply Z.mod_pos_bound; lia|].
  destruct (hex_nibble (v mod 16)) as (d0 & -> & H0); [apply Z.mod_pos_bound; lia|].
  exists [d3; d2; d1; d0]. split; [done|]. unfold parse_hex_quad. cbn [app hex_loop next_byte].
  change (2 ^ 12) with 4096 in *. change (2 ^ 8) with 256 in *. change (2 ^ 4) with 16 in *. change (2 ^ 16) with 65536 in Hv.
  rewrite H3, H2, H1, H0.
  assert (0 <= v / 4096 mod 16 < 16 /\ 0 <= v / 256 mod 16 < 16 /\ 0 <= v / 16 mod 16 < 16 /\ 0 <= v mod 16 < 16)
    as (?&?&?&?) by (split_and!; apply Z.mod_pos_bound; lia).
  rewrite (hex_step 0) by lia. rewrite (hex_step (0 * 16 + _)) by lia. rewrite (hex_step ((0 * 16 + _) * 16 + _)) by lia.
  rewrite hex_step by lia. do 2 f_equal. Z.to_euclidean_division_equations. lia.
Qed.

(** An escaped character is read back. *)
Lemma escape_parsed c l bs :
  scalar c = true -> escape_char c = Ok bs ->
  exists c' r, next_character (bs ++ l) = Ok (Some (c', r)) /\ c' <> 34 /\
    (if c' =? 92 then parse_escape r else if c' <=? 0x1f then Err MalformedJson else Ok (c', r)) = Ok (c, l).
Proof.
  intros Hc He. unfold escape_char in He.
  assert (forall r, next_character (92 :: r) = Ok (Some (92, r))) as H92 by (intros r; by apply (next_character_char 92)).
  assert (forall x, bs = [92; x] -> parse_escape (x :: l) = Ok (c, l) ->
    exists c' r, next_character (bs ++ l) = Ok (Some (c', r)) /\ c' <> 34 /\
      (if c' =? 92 then parse_escape r else if c' <=? 0x1f then Err MalformedJson else Ok (c', r)) = Ok (c, l)) as Hs.
  { intros x -> Hx. exists 92, (x :: l). split; [apply H92|]. split; [done|]. exact Hx. }
  repeat (match type of He with (if c =? ?k then _ else _) = _ =>
    destruct (c =? k) eqn:?; [b2p; simplify_eq; by eapply Hs|] end). clear Hs. b2p.
  destruct (in_range 0 31 c || in_range 128 65535 c) eqn:Hu.
  { unfold scalar, in_range in *. destruct (unicode_escape_quad c l) as (q & Hq & Hp); [lia|].
    rewrite Hq in He. injection He as <-. exists 92, (117 :: q ++ l). split; [apply H92|]. split; [done|].
    cbn -[parse_unicode_escape]. unfold parse_unicode_escape. rewrite Hp. unfold in_range.
    replace ((55296 <=? c) && _) with false by lia. replace ((56320 <=? c) && _) with false by lia.
    unfold scalar, in_range. by rewrite Hc. }
  destruct (65536 <=? c) eqn:Hbig.
  { unfold scalar, in_range in Hc. set (s := c - 65536) in *. change 0x3ff with (Z.ones 10) in He.
    rewrite Z.land_ones, Z.shiftr_div_pow2 in He by lia. change (2 ^ 10) with 1024 in He.
    assert (0 <= s / 1024 < 1024) as Hh by (split; [apply Z.div_pos|apply Z.div_lt_upper_bound]; lia).
    assert (0 <= s mod 1024 < 1024) as Hlo by (apply Z.mod_pos_bound; lia).
    destruct (unicode_escape_quad (56320 + s mod 1024) l) as (q2 & Hq2 & Hp2); [lia|].
    destruct (unicode_escape_quad (55296 + s / 1024) (92 :: 117 :: q2 ++ l)) as (q1 & Hq1 & Hp1); [lia|].
    rewrite Hq1, Hq2 in He. injection He as <-. exists 92, (117 :: q1 ++ 92 :: 117 :: q2 ++ l).
    split; [rewrite <- H92; do 2 f_equal; cbn [app]; by rewrite <- app_assoc|]. split; [done|].
    cbn -[parse_unicode_escape]. unfold parse_unicode_escape. rewrite Hp1. unfold in_range.
    replace ((55296 <=? 55296 + s / 1024) && _) with true by lia. cbn [expect_next next_byte Z.eqb Pos.eqb].
    rewrite Hp2. replace (negb _) with false by lia. rewrite Z.shiftl_mul_pow2 by lia. change (2 ^ 10) with 1024.
    replace (65536 + (55296 + s / 1024 - 55296) * 1024 + (56320 + s mod 1024 - 56320)) with c
      by (unfold s in *; Z.to_euclidean_division_equations; lia).
    unfold scalar, in_range. by replace (_ || _) with true by lia. }
  injection He as <-. exists c, l. split; [by apply next_character_char|]. split; [done|].
  unfold scalar, in_range in *. replace (c =? 92) with false by lia. by replace (c <=? 31) with false by lia.
Qed.

(** What a parsed string adds to its output. *)
Definition pushed (output : option bytes) (cs : list Z) : option bytes :=
  (fun value => value ++ utf8_encode cs) <$> output.

Definition key_fits (output : option bytes) (cs : list Z) : Prop :=
  match output with
  | Some value => len value + len (utf8_encode cs) <= MAX_JSON_KEY_LEN
  | None => True
  end.

Lemma string_loop_escaped fuel cs e output rest :
  Forall (fun c => scalar c = true) cs -> escape_json_string cs = Ok e -> key_fits output cs ->
  (length cs < fuel)%nat -> string_loop fuel output (e ++ 34 :: rest) = Ok (pushed output cs, rest).
Proof.
  intros Hcs. revert fuel e output. induction Hcs as [|c cs Hc Hcs IH]; intros fuel e output He Hfit Hf;
    (destruct fuel as [|fuel]; [cbn in Hf; lia|]); cbn [string_loop].
  - injection He as <-. rewrite (next_character_char 34 rest eq_refl : next_character ([] ++ 34 :: rest) = _). cbn.
    destruct output; cbn; [by rewrite app_nil_r|done].
  - cbn in He. destruct (escape_char c) as [bs| |] eqn:Hbs; [|done..].
    destruct (escape_json_string cs) as [e'| |] eqn:He'; [|done..]. injection He as <-. rewrite <- app_assoc.
    destruct (escape_parsed c (e' ++ 34 :: rest) bs Hc Hbs) as (c' & r & -> & Hne & ->).
    replace (c' =? 34) with false by lia. cbn [length] in Hf.
    change (utf8_encode (c :: cs)) with (utf8_char c ++ utf8_encode cs) in *. destruct output as [value|].
    + unfold key_fits in Hfit. change (utf8_encode (c :: cs)) with (utf8_char c ++ utf8_encode cs) in Hfit.
      rewrite length_app in Hfit. unfold len_utf8. replace (_ <? _) with false by lia.
      rewrite (IH fuel e' (Some (value ++ utf8_char c)) eq_refl); [|unfold key_fits; rewrite length_app; lia|lia].
      unfold pushed. cbn. by rewrite <- app_assoc.
    + apply (IH fuel e' None eq_refl); [done|lia].
Qed.

Lemma escape_length cs e : escape_json_string cs = Ok e -> (length cs <= length e <= 12 * length cs)%nat.
Proof.
  revert e. induction cs as [|c cs IH]; intros e He; cbn in He; [by simplify_eq|].
  destruct (escape_char c) as [bs| |] eqn:Hbs; [|done..]. destruct (escape_json_string cs) as [e'| |]; [|done..].
  injection He as <-. specialize (IH e' eq_refl). rewrite length_app. cbn [length].
  assert (1 <= length bs <= 12)%nat; [|lia]. clear IH.
  assert (forall v q, append_unicode_escape v = Ok q -> length q = 6%nat) as Hq.
  { intros v q Hq. unfold append_unicode_escape in Hq. repeat (destruct (hex_digit _) in Hq; [|done..]). by simplify_eq. }
  unfold escape_char in Hbs. repeat (match type of Hbs with (if ?b then _ else _) = _ => destruct b eqn:? end);
    simplify_eq; cbn [length]; try lia.
  - apply Hq in Hbs. lia.
  - destruct (append_unicode_escape _) as [h| |] eqn:Hh in Hbs; [|done..].
    destruct (append_unicode_escape _) as [l| |] eqn:Hl in Hbs; [|done..]. simplify_eq. apply Hq in Hh, Hl.
    rewrite length_app. lia.
  - unfold utf8_char. repeat destruct (_ <? _); cbn; lia.
Qed.

Lemma parse_string_escaped cs e output rest :
  Forall (fun c => scalar c = true) cs -> escape_json_string cs = Ok e -> key_fits output cs ->
  parse_string output (34 :: e ++ 34 :: rest) = Ok (pushed output cs, rest).
Proof.
  intros Hcs He Hfit. unfold parse_string, expect. cbn [take_ Z.eqb Pos.eqb].
  apply string_loop_escaped; [done..|]. apply escape_length in He. rewrite length_app. lia.
Qed.

(** A key of plain ASCII. *)
Definition plain (k : bytes) : bool :=
  forallb (fun b => (32 <=? b) && (b <? 128) && negb (b =? 34) && negb (b =? 92)) k.

Lemma plain_escape k :
  plain k = true -> escape_json_string k = Ok k /\ Forall (fun c => scalar c = true) k /\ utf8_encode k = k.
Proof.
  induction k as [|b k IH]; intros Hk; [done|]. cbn in Hk. apply andb_true_iff in Hk as [Hb Hk].
  destruct (IH Hk) as (He & Hs & Hu). cbn [escape_json_string]. unfold escape_char, in_range.
  repeat match goal with |- context [b =? ?x] => replace (b =? x) with false by lia end.
  replace (_ || _) with false by lia. replace (65536 <=? b) with false by lia. unfold utf8_char at 1.
  replace (b <? 128) with true by lia. rewrite He. split; [done|]. split.
  - constructor; [|done]. unfold scalar, in_range. lia.
  - change (utf8_encode (b :: k)) with (utf8_char b ++ utf8_encode k). rewrite Hu. unfold utf8_char.
    by replace (b <? 128) with true by lia.
Qed.

Lemma parse_key_plain k rest :
  plain k = true -> len k <= MAX_JSON_KEY_LEN -> parse_key (34 :: k ++ 34 :: rest) = Ok (k, rest).
Proof.
  intros Hk Hl. destruct (plain_escape k Hk) as (He & Hs & Hu).
  pose proof (parse_string_escaped k k (Some []) rest Hs He) as Hp. unfold parse_key. rewrite Hp.
  - unfold pushed. cbn [fmap option_fmap option_map app]. by rewrite Hu.
  - unfold key_fits. rewrite Hu. cbn [length]. lia.
Qed.

(** A member with another key, followed by a member. *)
Lemma hello_loop_member fuel version k v rest :
  plain k = true -> len k <= MAX_JSON_KEY_LEN -> k <> PROTOCOL_VERSION_KEY -> is_whitespace (hd 0 v) = false ->
  parse_value MAX_JSON_DEPTH v = Ok (44 :: 34 :: rest) ->
  hello_loop (S fuel) version (34 :: k ++ 34 :: 58 :: v) = hello_loop fuel version (34 :: rest).
Proof.
  intros Hk Hl Hne Hws Hv.
  assert (skip_whitespace v = v) as Hsv by (clear Hv; destruct v as [|b v]; [done|]; cbn [skip_whitespace]; cbn [hd] in Hws; by rewrite Hws).
  assert (expect 58 (skip_whitespace (58 :: v)) = Ok v) as Hcolon by done.
  assert (take_ 125 (skip_whitespace (44 :: 34 :: rest)) = (false, 44 :: 34 :: rest)) as Hcl by done.
  assert (expect 44 (44 :: 34 :: rest) = Ok (34 :: rest)) as Hcomma by done.
  assert (skip_whitespace (34 :: rest) = 34 :: rest) as Hq by done.
  cbn [hello_loop]. rewrite (parse_key_plain k (58 :: v) Hk Hl), Hcolon, Hsv, bool_decide_false by done.
  by rewrite Hv, Hcl, Hcomma, Hq.
Qed.

Lemma parse_value_string levels cs e rest :
  Forall (fun c => scalar c = true) cs -> escape_json_string cs = Ok e ->
  parse_value (S levels) (34 :: e ++ 34 :: rest) = Ok rest.
Proof.
  intros Hcs He. cbn [parse_value peek head Z.eqb Pos.eqb]. unfold skip_string.
  by rewrite (parse_string_escaped cs e None rest).
Qed.

Lemma encode_hello_Ok name body :
  encode_hello name = Ok body ->
  1 <= len name <= 255 /\ exists e, escape_json_string (chars name) = Ok e /\ body = HELLO_HEAD ++ e ++ HELLO_TAIL.
Proof.
  unfold encode_hello. destruct (_ || _) eqn:Hc; [done|]. b2p. unfold MAX_PROCESS_NAME_LEN in *.
  destruct (escape_json_string (chars name)) as [e| |]; [|done..]. intros [= <-]. split; [lia|eauto].
Qed.

Lemma length_chars s : good s -> (length (chars s) <= length s)%nat.
Proof.
  intros [Hok Hv]. revert s Hok Hv. apply utf8_ind; [done|]. intros c l Hc _ IH.
  rewrite chars_utf8_char by done. rewrite length_app. pose proof (utf8_char_pos c). cbn [length]. lia.
Qed.

Definition ascii_ok (b : Z) : Prop := 0 <= b <= 127.

Lemma hex_digit_ascii v d : hex_digit v = Ok d -> ascii_ok d.
Proof.
  unfold hex_digit. intros Hd. apply byte_at_inv, list_elem_of_lookup_2 in Hd. unfold ascii_ok.
  assert (Forall (fun b => 0 <= b <= 127) HEX) as Hf by (repeat constructor; lia).
  rewrite Forall_forall in Hf. by apply Hf.
Qed.

Lemma append_unicode_escape_ascii v q : append_unicode_escape v = Ok q -> Forall ascii_ok q.
Proof.
  unfold append_unicode_escape. intros Hq.
  repeat (match type of Hq with context [hex_digit ?x] =>
    let Hd := fresh "Hd" in destruct (hex_digit x) eqn:Hd; [|done..]; apply hex_digit_ascii in Hd end).
  injection Hq as <-. unfold ascii_ok in *. repeat constructor; cbn; lia.
Qed.

Lemma escape_ascii cs e :
  Forall (fun c => scalar c = true) cs -> escape_json_string cs = Ok e -> Forall ascii_ok e.
Proof.
  intros Hcs. revert e. induction Hcs as [|c cs Hc _ IH]; intros e He; cbn in He; [simplify_eq; constructor|].
  destruct (escape_char c) as [bs| |] eqn:Hbs; [|done..]. destruct (escape_json_string cs) as [e'| |]; [|done..].
  injection He as <-. apply Forall_app. split; [|by apply IH]. clear IH. unfold escape_char in Hbs.
  repeat (match type of Hbs with (if ?b then _ else _) = _ => destruct b eqn:? end); simplify_eq;
    try (unfold ascii_ok; repeat constructor; lia).
  - by eapply append_unicode_escape_ascii.
  - destruct (append_unicode_escape _) as [h| |] eqn:Hh in Hbs; [|done..].
    destruct (append_unicode_escape _) as [l| |] eqn:Hl in Hbs; [|done..]. simplify_eq.
    apply Forall_app. split; by eapply append_unicode_escape_ascii.
  - unfold scalar, in_range in *. unfold utf8_char. replace (c <? 128) with true by lia. unfold ascii_ok.
    repeat constructor; lia.
Qed.

(** The members before the version. *)
Lemma hello_members fuel cs e :
  Forall (fun c => scalar c = true) cs -> escape_json_string cs = Ok e -> (3 <= fuel)%nat ->
  exists fuel', fuel = S (S (S fuel')) /\
    hello_loop fuel None (drop 1 HELLO_HEAD ++ e ++ HELLO_TAIL) = hello_loop fuel' None (drop 2 HELLO_TAIL).
Proof.
  intros Hcs He Hf. destruct fuel as [|[|[|fuel]]]; [lia..|]. exists fuel. split; [done|].
  set (tail := drop 2 HELLO_TAIL).
  etrans; [apply (hello_loop_member _ None [79; 83; 66; 117; 105; 108; 100]
    (drop 11 HELLO_HEAD ++ e ++ HELLO_TAIL) (drop 20 HELLO_HEAD ++ e ++ HELLO_TAIL)); [reflexivity|done|done|reflexivity|]|].
  { apply (parse_value_string 31 [76; 105; 110; 117; 120] [76; 105; 110; 117; 120]); [repeat constructor|reflexivity]. }
  etrans; [apply (hello_loop_member _ None [66; 114; 105; 100; 103; 101; 88; 80; 67; 86; 101; 114; 115; 105; 111; 110]
    (drop 38 HELLO_HEAD ++ e ++ HELLO_TAIL) (drop 44 HELLO_HEAD ++ e ++ HELLO_TAIL)); [reflexivity|done|done|reflexivity|]|].
  { change (drop 38 HELLO_HEAD ++ e ++ HELLO_TAIL) with ([49; 46; 51; 53] ++ drop 42 HELLO_HEAD ++ e ++ HELLO_TAIL).
    set (rest := drop 42 HELLO_HEAD ++ e ++ HELLO_TAIL).
    assert (parse_number ([49; 46; 51; 53] ++ rest) = Ok ([49; 46; 51; 53], rest)) as Hn
      by (apply parse_number_app; reflexivity).
    change (match parse_number ([49; 46; 51; 53] ++ rest) with
            | Ok (_, r) => Ok r | Err err => Err err | Panic => Panic
            end = Ok (44 :: 34 :: drop 44 HELLO_HEAD ++ e ++ HELLO_TAIL)).
    by rewrite Hn. }
  etrans; [apply (hello_loop_member _ None [80; 114; 111; 99; 101; 115; 115; 78; 97; 109; 101]
    (34 :: e ++ HELLO_TAIL) (drop 3 HELLO_TAIL)); [reflexivity|done|done|reflexivity|]|].
  { apply (parse_value_string 31 cs e); [done|done]. }
  reflexivity.
Qed.

Lemma encode_hello_accepted name body :
  good name -> encode_hello name = Ok body -> validate_peer_hello body = Ok tt.
Proof.
  intros Hg He. apply encode_hello_Ok in He as (Hl & e & He & ->).
  pose proof (chars_scalar name (proj1 Hg) (proj2 Hg)) as Hcs. pose proof (length_chars name Hg) as Hlc.
  pose proof (escape_length _ _ He) as Hle. unfold validate_peer_hello.
  assert (len (HELLO_HEAD ++ e ++ HELLO_TAIL) <= 3200) as Hlen.
  { rewrite !length_app. assert (length HELLO_HEAD = 58%nat) as -> by reflexivity.
    assert (length HELLO_TAIL = 34%nat) as -> by reflexivity. lia. }
  replace (_ <? _) with false by (unfold MAX_HELLO_BODY_LEN; lia).
  assert (Forall ascii_ok (HELLO_HEAD ++ e ++ HELLO_TAIL)) as Ha.
  { apply Forall_app. split; [unfold ascii_ok; repeat constructor; lia|]. apply Forall_app.
    split; [by eapply escape_ascii|unfold ascii_ok; repeat constructor; lia]. }
  unfold from_utf8. rewrite (ascii_valid _ Ha). cbn [ok_or].
  destruct (hello_members (S (length (drop 1 HELLO_HEAD ++ e ++ HELLO_TAIL))) (chars name) e Hcs He) as (fuel & Hf & Hm).
  { rewrite length_app. change (length (drop 1 HELLO_HEAD)) with 57%nat. lia. }
  assert (exists f, fuel = S f) as [f ->].
  { rewrite length_app in Hf. change (length (drop 1 HELLO_HEAD)) with 57%nat in Hf. destruct fuel; [lia|eauto]. }
  change (parse_hello (HELLO_HEAD ++ e ++ HELLO_TAIL)) with
    (let! (version, r) := hello_loop (S (length (drop 1 HELLO_HEAD ++ e ++ HELLO_TAIL))) None
        (drop 1 HELLO_HEAD ++ e ++ HELLO_TAIL) in
     let! _ := finish r in
     match version with
     | Some true => Ok tt
     | Some false => Err UnsupportedProtocolVersion
     | None => Err MissingProtocolVersion
     end).
  rewrite Hm. vm_compute. reflexivity.
Qed.

Lemma encode_hello_bound name body : good name -> encode_hello name = Ok body -> len body <= 3200.
Proof.
  intros Hg He. apply encode_hello_Ok in He as (Hl & e & He & ->).
  pose proof (length_chars name Hg) as Hlc. pose proof (escape_length _ _ He) as Hle. rewrite !length_app.
  assert (length HELLO_HEAD = 58%nat) as -> by reflexivity. assert (length HELLO_TAIL = 34%nat) as -> by reflexivity. lia.
Qed.

Lemma append_unicode_escape_total v : append_unicode_escape v <> Panic.
Proof.
  unfold append_unicode_escape, hex_digit. rewrite !land_15.
  repeat match goal with |- context [byte_at HEX (Z.to_nat (?x mod 16))] =>
    let d := fresh "d" in destruct (hex_nibble (x mod 16)) as (d & -> & _); [apply Z.mod_pos_bound; lia|] end.
  done.
Qed.

Lemma escape_char_total c : escape_char c <> Panic.
Proof.
  unfold escape_char. repeat (match goal with |- context [if ?b then _ else _] => destruct b end; try done).
  - apply append_unicode_escape_total.
  - match goal with |- context [append_unicode_escape ?v] =>
      pose proof (append_unicode_escape_total v); destruct (append_unicode_escape v); [|done..] end.
    match goal with |- context [append_unicode_escape ?v] =>
      pose proof (append_unicode_escape_total v); by destruct (append_unicode_escape v) end.
Qed.

(** Every name of a good length can be sent. *)
Lemma encode_hello_total name : good name -> encode_hello name <> Panic.
Proof.
  intros _. unfold encode_hello. destruct (_ || _); [done|].
  assert (escape_json_string (chars name) <> Panic) as Hn; [|by destruct (escape_json_string _)].
  induction (chars name) as [|c cs IH]; [done|]. cbn. pose proof (escape_char_total c).
  destruct (escape_char c); [|done..]. by destruct (escape_json_string cs).
Qed.

(** What a client sends as its HELLO is accepted by the parser for a peer's, for
    every process name that can be sent: the escapes of its characters are read as
    one string, and the version is found and supported. *)
Theorem hello_accepted name body :
  good name -> encode_hello name = Ok body -> validate_peer_hello body = Ok tt.
Proof. apply encode_hello_accepted. Qed.

(** A name with a quote, a control character and characters outside ASCII. *)
Definition ex_name : bytes := [97; 34; 10; 195; 169; 240; 159; 152; 128].

Lemma hello_accepted_witness :
  exists body, encode_hello ex_name = Ok body /\ validate_peer_hello body = Ok tt.
Proof.
  eexists. split; [vm_compute; reflexivity|]. apply (hello_accepted ex_name).
  - split; [apply (bool_decide_unpack _); vm_compute; exact I|vm_compute; reflexivity].
  - vm_compute. reflexivity.
Defined.

End Hello.
