(* ===== verification/Policy.v ===== *)
(** * Mesa's Touch ID policy records ([crates/t1-bridge/src/policy.rs])

    Fixed-layout system and user policies, the payloads that update them, the
    checks on a read-back policy, and the bounded plan for retrying a busy
    sensor. A Rust array of [i32] is the list of its values. *)

From S2P Require Import Prelude.

Module Policy.

Definition SYSTEM_CONFIGURATION_SIZE : nat := 28.
Definition USER_CONFIGURATION_SIZE : nat := 32.
Definition ACM_CONTEXT_EXTERNAL_FORM_SIZE : Z := 16.
Definition AUTHORIZATION_SIZE : nat := 40.
Definition USER_UPDATE_SIZE : nat := 60.
Definition SYSTEM_UPDATE_SIZE : nat := 68.
Definition EBUSY_STATUS : Z := 16.
Definition KIORETURN_TIMEOUT_STATUS : Z := -536870186.
Definition USER_POLICY_BUSY_RETRY_DELAYS : list Duration :=
  [from_millis 50; from_millis 150; from_millis 300].
Definition POLICY_UNSPECIFIED : Z := -1.
Definition POLICY_DISABLED : Z := 0.
Definition POLICY_ENABLED : Z := 1.

Record SystemProtectedConfiguration : Type := mkSystem {
  unlock_token_max_lifetime : Z;
  reserved_1 : Z;
  reserved_2 : Z;
  touch_id_enabled : Z;
  unlock_enabled : Z;
  identification_enabled : Z;
  login_enabled : Z;
}.

(** [SystemProtectedConfiguration::policy_values]. *)
Definition policy_values (c : SystemProtectedConfiguration) : list Z :=
  [touch_id_enabled c; unlock_enabled c; identification_enabled c; login_enabled c].

Record UserProtectedConfiguration : Type := mkUser {
  u_unlock_enabled : Z;
  u_identification_enabled : Z;
  u_login_enabled : Z;
  u_apple_pay_enabled : Z;
  effective_unlock_enabled : Z;
  effective_identification_enabled : Z;
  effective_login_enabled : Z;
  effective_apple_pay_enabled : Z;
}.

(** [UserProtectedConfiguration::requested_values] and [effective_values]. *)
Definition requested_values (c : UserProtectedConfiguration) : list Z :=
  [u_unlock_enabled c; u_identification_enabled c; u_login_enabled c; u_apple_pay_enabled c].
Definition effective_values (c : UserProtectedConfiguration) : list Z :=
  [effective_unlock_enabled c; effective_identification_enabled c; effective_login_enabled c;
   effective_apple_pay_enabled c].

Inductive ConfigurationKind : Type := SystemKind | UserKind.

Inductive PolicyError : Type :=
| InvalidConfigurationLength (configuration : ConfigurationKind) (expected actual : Z)
| InvalidCredentialLength (actual : Z)
| UserIdOutOfRange
| UnrecognizedPolicyValue
| PolicyReadbackMismatch.

(** [BiometricUserId], the raw 32-bit value. *)
Definition BiometricUserId : Type := Z.

(** [BiometricUserId::new]. *)
Definition user_id_new (value : Z) : res PolicyError BiometricUserId :=
  let! value := ok_or (try_from_u 32 value) UserIdOutOfRange in
  if 2 ^ 31 - 1 <? value then Err UserIdOutOfRange else Ok value.

Inductive SystemPolicyTarget : Type := TouchId | TouchIdFeatures.

Inductive PolicyUpdateObservation : Type :=
| Response (data_len : Z)
| Failure (status : Z).

Inductive PolicyUpdateDecision : Type :=
| RetryAfter (delay : Duration)
| ReadBack
| ReadBackAfterBusy
| RejectUnexpectedData (actual : Z)
| Fail_ (status : Z).

(** [UserPolicyRetry], the number of busy retries used. *)
Record UserPolicyRetry : Type := mkRetry { busy_retries_used : nat }.

Definition retry_default : UserPolicyRetry := mkRetry 0.

(** [UserPolicyRetry::observe]. *)
Definition observe (r : UserPolicyRetry) (observation : PolicyUpdateObservation)
    : PolicyUpdateDecision * UserPolicyRetry :=
  match observation with
  | Response data_len =>
      if data_len =? 0 then (ReadBack, r) else (RejectUnexpectedData data_len, r)
  | Failure status =>
      if status =? KIORETURN_TIMEOUT_STATUS then (ReadBack, r)
      else if status =? EBUSY_STATUS then
        match USER_POLICY_BUSY_RETRY_DELAYS !! busy_retries_used r with
        | None => (ReadBackAfterBusy, r)
        | Some delay => (RetryAfter delay, mkRetry (S (busy_retries_used r)))
        end
      else (Fail_ status, r)
  end.

Definition require_length (response : bytes) (expected : nat) (configuration : ConfigurationKind)
    : res PolicyError unit :=
  if negb (length response =? expected)%nat
  then Err (InvalidConfigurationLength configuration (Z.of_nat expected) (len response))
  else Ok tt.

(** [decode_i32s]: the loop over the [count] values. *)
Fixpoint decode_i32s {E} (count : nat) (bs : bytes) (index : nat) : res E (list Z) :=
  match count with
  | O => Ok []
  | S count =>
      let! v := read_le bs (index * 4) 4 in
      let! vs := decode_i32s count bs (S index) in
      Ok (cast_signed 32 v :: vs)
  end.

Definition parse_system_configuration (response : bytes)
    : res PolicyError SystemProtectedConfiguration :=
  let! _ := require_length response SYSTEM_CONFIGURATION_SIZE SystemKind in
  let! values := decode_i32s 7 response 0 in
  match values with
  | [v0; v1; v2; v3; v4; v5; v6] => Ok (mkSystem v0 v1 v2 v3 v4 v5 v6)
  | _ => Panic
  end.

Definition parse_user_configuration (response : bytes)
    : res PolicyError UserProtectedConfiguration :=
  let! _ := require_length response USER_CONFIGURATION_SIZE UserKind in
  let! values := decode_i32s 8 response 0 in
  match values with
  | [v0; v1; v2; v3; v4; v5; v6; v7] => Ok (mkUser v0 v1 v2 v3 v4 v5 v6 v7)
  | _ => Panic
  end.

(** [encode_authorization]: the 40 bytes are zero but for the fields written. *)
Definition encode_authorization (credential_set : option bytes) : res PolicyError bytes :=
  match credential_set with
  | None => Ok (le_bytes 4 1 ++ replicate 36 0)
  | Some credential_set =>
      if negb (len credential_set =? ACM_CONTEXT_EXTERNAL_FORM_SIZE)
      then Err (InvalidCredentialLength (len credential_set))
      else Ok (le_bytes 4 0 ++ le_bytes 4 16 ++ credential_set ++ replicate 16 0)
  end.

Definition is_policy_value (value : Z) : bool :=
  (value =? POLICY_UNSPECIFIED) || (value =? POLICY_DISABLED) || (value =? POLICY_ENABLED).

Definition validate_policy_values (values : list Z) : res PolicyError unit :=
  if forallb is_policy_value values then Ok tt else Err UnrecognizedPolicyValue.

Definition encode_user_update (user_id : BiometricUserId) (requested : list Z)
    (credential_set : option bytes) : res PolicyError bytes :=
  let! _ := validate_policy_values requested in
  let! authorization := encode_authorization credential_set in
  Ok (le_bytes 4 user_id ++ concat (i32_bytes <$> requested) ++ authorization).

(** The values [encode_system_update] writes. *)
Definition system_update_values (target : SystemPolicyTarget) : list Z :=
  match target with
  | TouchId => [-1; -1; -1; 1; -1; -1; -1]
  | TouchIdFeatures => [-1; -1; -1; 1; 1; 1; 1]
  end.

Definition encode_system_update (target : SystemPolicyTarget) (credential_set : option bytes)
    : res PolicyError bytes :=
  let! authorization := encode_authorization credential_set in
  Ok (concat (i32_bytes <$> system_update_values target) ++ authorization).

Definition validate_system_configuration (c : SystemProtectedConfiguration) : res PolicyError unit :=
  validate_policy_values (policy_values c).

(** [user_touch_id_update]: the update that enables Touch ID, if one is needed. *)
Definition user_touch_id_update (c : UserProtectedConfiguration) : res PolicyError (option (list Z)) :=
  if negb (is_policy_value (u_apple_pay_enabled c)) then Err UnrecognizedPolicyValue
  else if bool_decide (take 3 (requested_values c) = [1; 1; 1]) then Ok None
  else Ok (Some [1; 1; 1; u_apple_pay_enabled c]).

Definition verify_user_readback (requested : list Z) (readback : UserProtectedConfiguration)
    (require_effective_equality : bool) : res PolicyError unit :=
  if negb (bool_decide (requested_values readback = requested))
     || (require_effective_equality && negb (bool_decide (effective_values readback = requested)))
  then Err PolicyReadbackMismatch else Ok tt.

Definition verify_system_readback (target : SystemPolicyTarget)
    (readback : SystemProtectedConfiguration) : res PolicyError unit :=
  let matches :=
    match target with
    | TouchId => touch_id_enabled readback =? POLICY_ENABLED
    | TouchIdFeatures => bool_decide (policy_values readback = replicate 4 POLICY_ENABLED)
    end in
  if negb matches then Err PolicyReadbackMismatch else Ok tt.

End Policy.
