(* ===== verification/Biometric.v ===== *)
(** * Command headers and small responses ([crates/t1-bridge/src/biometric.rs]
    and [catacomb.rs])

    The eight-byte command header, the fixed-size responses of the sensor, and
    the shape of catacomb records, whose contents stay opaque. *)

From S2P Require Import Prelude.

Module Biometric.

Definition BIOMETRIC_MAGIC : Z := 0x4d42.
Definition BIOMETRIC_PROTOCOL_VERSION : Z := 1.
Definition COMMAND_HEADER_SIZE : nat := 8.
Definition DAEMON_INFO_SIZE : nat := 23.
Definition MAX_CATACOMB_COMPONENTS : Z := 64.
Definition MODULE_SERIAL_NUMBER_SIZE : nat := 18.

(** [CommandCode], the 16-bit protocol value. *)
Definition CommandCode : Type := Z.
Definition GET_CALIBRATION_STATUS : CommandCode := 0x1d.
Definition GET_MODULE_SERIAL_NUMBER : CommandCode := 0x22.
Definition GET_DAEMON_INFO : CommandCode := 0x28.
Definition IS_XART_AVAILABLE : CommandCode := 0x4c.

Record CommandHeader : Type := mkCommandHeader {
  ch_command : CommandCode;
  ch_version : Z;
  ch_value : Z;
}.

(** [CommandHeader::new], [with_parameters] and [encode]. *)
Definition command_header_new (command : CommandCode) : CommandHeader :=
  mkCommandHeader command BIOMETRIC_PROTOCOL_VERSION 0.
Definition with_parameters (command : CommandCode) (version value : Z) : CommandHeader :=
  mkCommandHeader command version value.
Definition command_header_encode (h : CommandHeader) : bytes :=
  le_bytes 2 BIOMETRIC_MAGIC ++ le_bytes 2 (ch_command h) ++ le_bytes 2 (ch_version h) ++
  le_bytes 2 (ch_value h).

(** [ModuleSerial], the 18 validated bytes. *)
Definition ModuleSerial : Type := bytes.

Record DaemonInfo : Type := mkDaemonInfo {
  component_count : Z;
  identity_capacity : Z;
  calibration_data_loaded : bool;
}.

Inductive ResponseKind : Type :=
| CalibrationStatus | XartAvailability | ModuleSerialResponse | DaemonInfoResponse.

Inductive ResponseError : Type :=
| InvalidLength (response : ResponseKind) (expected actual : Z)
| InvalidXartAvailability
| InvalidModuleSerial
| ImplausibleComponentCount (actual maximum : Z)
| InvalidCalibrationLoadedFlag.

Definition require_length (response : bytes) (expected : nat) (response_kind : ResponseKind)
    : res ResponseError unit :=
  if negb (length response =? expected)%nat
  then Err (InvalidLength response_kind (Z.of_nat expected) (len response))
  else Ok tt.

Definition parse_calibration_status (response : bytes) : res ResponseError Z :=
  let! _ := require_length response 1 CalibrationStatus in
  byte_at response 0.

Definition parse_xart_available (response : bytes) : res ResponseError bool :=
  let! _ := require_length response 1 XartAvailability in
  let! b := byte_at response 0 in
  if b =? 0 then Ok false else if b =? 1 then Ok true else Err InvalidXartAvailability.

(** [is_ascii_digit] and [is_ascii_uppercase]. *)
Definition is_ascii_digit (b : Z) : bool := (48 <=? b) && (b <=? 57).
Definition is_ascii_uppercase (b : Z) : bool := (65 <=? b) && (b <=? 90).

Definition parse_module_serial (response : bytes) : res ResponseError ModuleSerial :=
  let! _ := require_length response MODULE_SERIAL_NUMBER_SIZE ModuleSerialResponse in
  if negb (forallb (fun byte => is_ascii_digit byte || is_ascii_uppercase byte) response)
  then Err InvalidModuleSerial
  else Ok response.

Definition daemon_info_length_error (response : bytes) : ResponseError :=
  InvalidLength DaemonInfoResponse (Z.of_nat DAEMON_INFO_SIZE) (len response).

(** [read_daemon_u32]; [get(offset..offset + 4)] fails out of range. *)
Definition read_daemon_u32 (response : bytes) (offset : nat) : res ResponseError Z :=
  if (offset + 4 <=? length response)%nat
  then Ok (le_val (take 4 (drop offset response)))
  else Err (daemon_info_length_error response).

Definition parse_daemon_info (response : bytes) : res ResponseError DaemonInfo :=
  let! _ := require_length response DAEMON_INFO_SIZE DaemonInfoResponse in
  let! component_count := read_daemon_u32 response 0 in
  if MAX_CATACOMB_COMPONENTS <? component_count
  then Err (ImplausibleComponentCount component_count MAX_CATACOMB_COMPONENTS)
  else
    let! identity_capacity := read_daemon_u32 response 4 in
    let! calibration_flag := ok_or (response !! 22%nat) (daemon_info_length_error response) in
    let! calibration_data_loaded :=
      if calibration_flag =? 0 then Ok false
      else if calibration_flag =? 1 then Ok true
      else Err InvalidCalibrationLoadedFlag in
    Ok (mkDaemonInfo component_count identity_capacity calibration_data_loaded).

End Biometric.

Module Catacomb.
Import Biometric.

Definition CATACOMB_ID_SIZE : nat := 16.
Definition CATACOMB_HASH_SIZE : nat := 32.
Definition CATACOMB_HASH_RESPONSE_SIZE : nat := 33.
Definition TEMPLATE_LIST_CRC_SIZE : nat := 4.
Definition CATACOMB_STATE_ENTRY_SIZE : nat := 8.
Definition MAX_CATACOMB_STATE_ENTRIES : Z := MAX_CATACOMB_COMPONENTS + 1.
Definition SECURE_CATACOMB_SIZE_RESPONSE_SIZE : nat := 4.
Definition MAX_SECURE_CATACOMB_SIZE : Z := 16 * 1024 * 1024 - 8.

Record CatacombStateEntry : Type := mkStateEntry { cse_user_id : Z; cse_state : Z }.

Inductive CatacombResponseKind : Type := Id | Hash | TemplateListCrc | SecureExportSize.

Inductive CatacombError : Type :=
| InvalidResponseLength (response : CatacombResponseKind) (expected actual : Z)
| ImplausibleComponentCount (actual maximum : Z)
| StateCapacityOverflow (component_count : Z)
| MisalignedStateResponse (actual entry_size : Z)
| StateResponseExceedsCapacity (actual capacity : Z)
| InvalidSecureCatacombSize (actual maximum : Z)
| SecureExportSizeMismatch (expected actual : Z).

Definition invalid_response_length (response : bytes) (expected : nat)
    (response_kind : CatacombResponseKind) : CatacombError :=
  InvalidResponseLength response_kind (Z.of_nat expected) (len response).

Definition parse_catacomb_id (response : bytes) : res CatacombError bytes :=
  if (length response =? CATACOMB_ID_SIZE)%nat then Ok response
  else Err (invalid_response_length response CATACOMB_ID_SIZE Id).

Definition parse_catacomb_hash (response : bytes) : res CatacombError (option bytes) :=
  match response with
  | [] => Err (invalid_response_length response CATACOMB_HASH_RESPONSE_SIZE Hash)
  | present :: hash =>
      if negb (length hash =? CATACOMB_HASH_SIZE)%nat
      then Err (invalid_response_length response CATACOMB_HASH_RESPONSE_SIZE Hash)
      else if present =? 0 then Ok None else Ok (Some hash)
  end.

Definition parse_u32_response (response : bytes) (response_kind : CatacombResponseKind)
    : res CatacombError Z :=
  match response with
  | [byte_0; byte_1; byte_2; byte_3] => Ok (le_val [byte_0; byte_1; byte_2; byte_3])
  | _ => Err (invalid_response_length response 4 response_kind)
  end.

Definition parse_template_list_crc (response : bytes) : res CatacombError Z :=
  parse_u32_response response TemplateListCrc.

Definition catacomb_state_response_capacity (component_count : Z) : res CatacombError Z :=
  if MAX_CATACOMB_COMPONENTS <? component_count
  then Err (ImplausibleComponentCount component_count MAX_CATACOMB_COMPONENTS)
  else
    let! count := ok_or (try_from_u 64 component_count) (StateCapacityOverflow component_count) in
    let! entries := ok_or (checked_add 64 count 1) (StateCapacityOverflow component_count) in
    ok_or (checked_mul 64 entries (Z.of_nat CATACOMB_STATE_ENTRY_SIZE))
          (StateCapacityOverflow component_count).

(** One entry of [parse_catacomb_states]. *)
Definition state_entry (entry : bytes) : CatacombStateEntry :=
  mkStateEntry (le_val (take 4 entry)) (le_val (drop 4 entry)).

(** [parse_catacomb_states]; [as_chunks] cuts whole entries and a remainder. *)
Definition parse_catacomb_states (response : bytes) (component_count : Z)
    : res CatacombError (list CatacombStateEntry) :=
  let! capacity := catacomb_state_response_capacity component_count in
  if negb (len response mod Z.of_nat CATACOMB_STATE_ENTRY_SIZE =? 0)
  then Err (MisalignedStateResponse (len response) (Z.of_nat CATACOMB_STATE_ENTRY_SIZE))
  else if capacity <? len response
  then Err (StateResponseExceedsCapacity (len response) capacity)
  else Ok (state_entry <$> chunks CATACOMB_STATE_ENTRY_SIZE response).

(** [validate_secure_catacomb_size]. *)
Definition validate_secure_catacomb_size (size : Z) : res CatacombError unit :=
  if (size =? 0) || (MAX_SECURE_CATACOMB_SIZE <? size)
  then Err (InvalidSecureCatacombSize size MAX_SECURE_CATACOMB_SIZE)
  else Ok tt.

Definition parse_secure_catacomb_size (response : bytes) : res CatacombError Z :=
  let! declared := parse_u32_response response SecureExportSize in
  let! size := ok_or (try_from_u 64 declared)
                     (InvalidSecureCatacombSize declared MAX_SECURE_CATACOMB_SIZE) in
  let! _ := validate_secure_catacomb_size size in
  Ok size.

(** [validate_secure_catacomb] and [validate_secure_catacomb_export]; an
    [OpaqueCatacomb] is its bytes. *)
Definition validate_secure_catacomb (data : bytes) : res CatacombError bytes :=
  let! _ := validate_secure_catacomb_size (len data) in
  Ok data.

Definition validate_secure_catacomb_export (response : bytes) (expected_size : Z)
    : res CatacombError bytes :=
  let! _ := validate_secure_catacomb_size expected_size in
  if negb (len response =? expected_size)
  then Err (SecureExportSizeMismatch expected_size (len response))
  else Ok response.

End Catacomb.
