(* ===== verification/Mesa.v ===== *)
(** * Mesa service messages ([crates/t1-bridge/src/mesa.rs])

    Identity records and the messages the sensor sends while it enrolls or
    matches: their layout, and what they mean for the requested user. *)

From S2P Require Import Prelude.

Module Mesa.

Definition IDENTITY_V1_SIZE : nat := 20.
Definition MESA_SERVICE_MESSAGE : Z := 0xe3ff8000.
Definition MESA_ENROLLMENT_STATUS : Z := 0xe3ff8001.
Definition MESA_MATCH_RESULT : Z := 0xe3ff8002.
Definition MESA_ENROLLMENT_COMPLETE : Z := 0xe3ff8003.
Definition MESA_MESSAGE_TYPE_V1 : Z := 1.
Definition MESA_MESSAGE_HEADER_SIZE : nat := 40.
Definition MESA_ENROLLMENT_COMPLETE_V1_SIZE : nat := 20.
Definition MESA_ENROLLMENT_CONTINUE_MIN : Z := 0x64.
Definition MESA_ENROLLMENT_CONTINUE_MAX : Z := 0x163.
Definition MESA_MATCH_RESULT_V1_SIZE : Z := 0x0c70.
Definition MESA_MATCH_USER_LIST_COUNT_OFFSET : Z := 0x0c6c.
Definition MESA_MATCH_USER_LIST_ITEM_SIZE : Z := 4.

(** [IdentityIdentifier], 16 opaque bytes. *)
Definition IdentityIdentifier : Type := bytes.

Record ServiceStatusEvent : Type := mkEvent {
  service : Z;
  data : bytes;
  reference_timestamp : Z;
  continuous_time_delta : Z;
}.

Record MesaMessage : Type := mkMesaMessage {
  status : Z;
  message_type : Z;
  timestamp : Z;
  payload : bytes;
  in_value : Z;
}.

Record Identity : Type := mkIdentity {
  id_user_id : Z;
  identifier : IdentityIdentifier;
}.

Inductive MesaError : Type :=
| InvalidIdentitySize (actual expected : Z)
| NegativeIdentityUser
| ZeroIdentityIdentifier
| TruncatedMessageHeader (actual minimum : Z)
| ServiceResultFailed (result : Z)
| PayloadLengthDoesNotFit (declared : Z)
| PayloadLengthMismatch (declared actual : Z)
| UnsupportedEnrollmentCompletionType (actual : Z)
| TruncatedEnrollmentCompletion (actual minimum : Z)
| EnrollmentCompletedForWrongUser
| ZeroEnrollmentIdentifier
| UnsupportedMatchResultType (actual : Z)
| TruncatedMatchResult (actual minimum : Z)
| MatchUserListSizeOverflow (item_count : Z)
| TruncatedMatchUserList (actual required : Z).

(** [read_u32], [read_i32] and [read_u64]; out of range is a panic. *)
Definition read_u32 {E} (d : bytes) (offset : nat) : res E Z := read_le d offset 4.
Definition read_i32 {E} (d : bytes) (offset : nat) : res E Z :=
  let! v := read_le d offset 4 in Ok (cast_signed 32 v).
Definition read_u64 {E} (d : bytes) (offset : nat) : res E Z := read_le d offset 8.

Definition parse_identity (d : bytes) : res MesaError Identity :=
  if negb (length d =? IDENTITY_V1_SIZE)%nat
  then Err (InvalidIdentitySize (len d) (Z.of_nat IDENTITY_V1_SIZE))
  else
    let! user_id := read_i32 d 0 in
    if user_id <? 0 then Err NegativeIdentityUser
    else
      let! identifier := slice d 4 IDENTITY_V1_SIZE in
      if bool_decide (identifier = replicate 16 0) then Err ZeroIdentityIdentifier
      else Ok (mkIdentity user_id identifier).

Definition parse_mesa_message (event : ServiceStatusEvent) : res MesaError (option MesaMessage) :=
  if negb (service event =? MESA_SERVICE_MESSAGE) then Ok None
  else if (length (data event) <? MESA_MESSAGE_HEADER_SIZE)%nat
  then Err (TruncatedMessageHeader (len (data event)) (Z.of_nat MESA_MESSAGE_HEADER_SIZE))
  else
    let! result := read_u64 (data event) 0 in
    if negb (result =? 0) then Err (ServiceResultFailed result)
    else
      let! declared := read_u64 (data event) 32 in
      let! declared_size := ok_or (try_from_u 64 declared) (PayloadLengthDoesNotFit declared) in
      let actual_size := len (data event) - Z.of_nat MESA_MESSAGE_HEADER_SIZE in
      if negb (declared_size =? actual_size) then Err (PayloadLengthMismatch declared actual_size)
      else
        let! status := read_u32 (data event) 8 in
        let! message_type := read_u32 (data event) 12 in
        let! timestamp := read_u64 (data event) 16 in
        let! in_value := read_u64 (data event) 24 in
        let! payload := slice_from (data event) MESA_MESSAGE_HEADER_SIZE in
        Ok (Some (mkMesaMessage status message_type timestamp payload in_value)).

Definition enrollment_needs_continue (message : MesaMessage) : bool :=
  (status message =? MESA_ENROLLMENT_STATUS) &&
  (MESA_ENROLLMENT_CONTINUE_MIN <=? in_value message) &&
  (in_value message <=? MESA_ENROLLMENT_CONTINUE_MAX).

Definition enrollment_completion (message : MesaMessage) (requested_user_id : Z)
    : res MesaError (option IdentityIdentifier) :=
  if negb (status message =? MESA_ENROLLMENT_COMPLETE) then Ok None
  else if negb (message_type message =? MESA_MESSAGE_TYPE_V1)
  then Err (UnsupportedEnrollmentCompletionType (message_type message))
  else if (length (payload message) <? MESA_ENROLLMENT_COMPLETE_V1_SIZE)%nat
  then Err (TruncatedEnrollmentCompletion (len (payload message))
              (Z.of_nat MESA_ENROLLMENT_COMPLETE_V1_SIZE))
  else
    let! user := read_i32 (payload message) 0 in
    if negb (user =? requested_user_id) then Err EnrollmentCompletedForWrongUser
    else
      let! identifier := slice (payload message) 4 MESA_ENROLLMENT_COMPLETE_V1_SIZE in
      if bool_decide (identifier = replicate 16 0) then Err ZeroEnrollmentIdentifier
      else Ok (Some identifier).

(** The identity the closure of [evaluate_matched_identity] looks for. *)
Definition is_matched (matched_user_id requested_user_id : Z) (matched_identifier : bytes)
    (i : Identity) : bool :=
  (matched_user_id =? requested_user_id) && (id_user_id i =? requested_user_id) &&
  bool_decide (identifier i = matched_identifier).

Definition evaluate_matched_identity (message : MesaMessage) (requested_user_id : Z)
    (identities : list Identity) : res MesaError (option (option IdentityIdentifier)) :=
  if negb (status message =? MESA_MATCH_RESULT) then Ok None
  else if negb (message_type message =? MESA_MESSAGE_TYPE_V1)
  then Err (UnsupportedMatchResultType (message_type message))
  else if len (payload message) <? MESA_MATCH_RESULT_V1_SIZE
  then Err (TruncatedMatchResult (len (payload message)) MESA_MATCH_RESULT_V1_SIZE)
  else
    let! item_count := read_u32 (payload message) (Z.to_nat MESA_MATCH_USER_LIST_COUNT_OFFSET) in
    let! item_bytes := ok_or (checked_mul 64 item_count MESA_MATCH_USER_LIST_ITEM_SIZE)
                             (MatchUserListSizeOverflow item_count) in
    let! required := ok_or (checked_add 64 MESA_MATCH_RESULT_V1_SIZE item_bytes)
                           (MatchUserListSizeOverflow item_count) in
    if len (payload message) <? required
    then Err (TruncatedMatchUserList (len (payload message)) required)
    else
      let! matched_user_id := read_i32 (payload message) 0 in
      if matched_user_id =? -1 then Ok (Some None)
      else
        let! matched_identifier := slice (payload message) 4 20 in
        let matched :=
          List.find (is_matched matched_user_id requested_user_id matched_identifier) identities in
        Ok (Some (identifier <$> matched)).

Definition evaluate_match_result (message : MesaMessage) (requested_user_id : Z)
    (identities : list Identity) : res MesaError (option bool) :=
  let! result := evaluate_matched_identity message requested_user_id identities in
  Ok ((fun i => bool_decide (is_Some i)) <$> result).

End Mesa.
