(* ===== verification/Calibration.v ===== *)
(** * Device-bound calibration records ([crates/t1-bridge/src/calibration.rs])

    A signed factory record is four DER sequences inside each other. Only its
    framing, its embedded size and marker and its association with the sensor
    module are checked. *)

From S2P Require Import Prelude Biometric.

Module Calibration.
Import Biometric.

Definition DER_SEQUENCE : Z := 0x30.
Definition DER_OCTET_STRING : Z := 0x04.
Definition DER_IA5_STRING : Z := 0x16.
Definition CALIBRATION_MINIMUM_SIZE : nat := 20.
Definition CALIBRATION_MARKER_OFFSET : nat := 16.
Definition CALIBRATION_MARKER : bytes := [67; 65; 76; 66].

Inductive CalibrationError : Type :=
| TruncatedDerElement | UnsupportedDerLength | TruncatedDerLength | NonMinimalDerLength
| NonMinimalDerLongLength | TruncatedDerContent | IncompleteDerSequence | UnexpectedImg4Envelope
| MissingFdrdContainer | MissingImg4Object | MissingIm4pObject | MissingCalibrationPayload
| TruncatedCalibrationBlob (actual : Z)
| CalibrationSizeMismatch (declared actual : Z)
| MissingCalibrationMarker
| InvalidModuleSerialLength (actual : Z)
| DifferentModule.

Record DerElement : Type := mkElement { tag : Z; content : bytes }.

(** [data.get(a..b)]. *)
Definition get_range (l : bytes) (a b : Z) : option bytes :=
  if (0 <=? a) && (a <=? b) && (b <=? len l)
  then Some (take (Z.to_nat (b - a)) (drop (Z.to_nat a) l)) else None.

(** The length field of [read_der_element]: the length and the header's size. *)
Definition read_der_length (data : bytes) (offset length_octet : Z)
    : res CalibrationError (Z * Z) :=
  if Z.land length_octet 0x80 =? 0 then Ok (length_octet, 2)
  else
    let length_size := Z.land length_octet 0x7f in
    if (length_size =? 0) || (4 <? length_size) then Err UnsupportedDerLength
    else
      let! length_start := ok_or (checked_add 64 offset 2) TruncatedDerLength in
      let! length_end := ok_or (checked_add 64 length_start length_size) TruncatedDerLength in
      let! length_bytes := ok_or (get_range data length_start length_end) TruncatedDerLength in
      let! first := byte_at length_bytes 0 in
      if first =? 0 then Err NonMinimalDerLength
      else
        let length := be_val length_bytes in
        if length <? 0x80 then Err NonMinimalDerLongLength
        else
          let! length := ok_or (try_from_u 64 length) TruncatedDerContent in
          Ok (length, 2 + length_size).

(** [read_der_element]: the element at [offset] and its end. *)
Definition read_der_element (data : bytes) (offset : Z) : res CalibrationError (DerElement * Z) :=
  let! tag := ok_or (data !! Z.to_nat offset) TruncatedDerElement in
  let! length_octet_offset := ok_or (checked_add 64 offset 1) TruncatedDerElement in
  let! length_octet := ok_or (data !! Z.to_nat length_octet_offset) TruncatedDerElement in
  let! (length, header_size) := read_der_length data offset length_octet in
  let! content_start := ok_or (checked_add 64 offset header_size) TruncatedDerContent in
  let! content_end := ok_or (checked_add 64 content_start length) TruncatedDerContent in
  let! content := ok_or (get_range data content_start content_end) TruncatedDerContent in
  Ok (mkElement tag content, content_end).

Record DerSequence : Type := mkSequence { seq_content : bytes; seq_offset : Z }.

(** [DerSequence::from_content], [read_exact] and [next]. *)
Definition from_content (content : bytes) : DerSequence := mkSequence content 0.

Definition der_read_exact (data : bytes) : res CalibrationError DerSequence :=
  let! (element, end_) := read_der_element data 0 in
  if negb (tag element =? DER_SEQUENCE) || negb (end_ =? len data) then Err IncompleteDerSequence
  else Ok (from_content (content element)).

Definition next (s : DerSequence) : res CalibrationError (option DerElement * DerSequence) :=
  if seq_offset s =? len (seq_content s) then Ok (None, s)
  else
    let! (element, end_) := read_der_element (seq_content s) (seq_offset s) in
    Ok (Some element, mkSequence (seq_content s) end_).

(** [DerSequence::validate_remaining]; every element takes two bytes or more, so
    that the length of the content is fuel enough. *)
Fixpoint validate_remaining_loop (fuel : nat) (s : DerSequence) : res CalibrationError unit :=
  match fuel with
  | O => Panic
  | S fuel =>
      let! (element, s) := next s in
      match element with
      | Some _ => validate_remaining_loop fuel s
      | None => Ok tt
      end
  end.

Definition validate_remaining (s : DerSequence) : res CalibrationError unit :=
  validate_remaining_loop (S (length (seq_content s))) s.

(** [slice.windows(n).any(|w| w == needle)]. *)
Fixpoint any_window (n : nat) (needle l : bytes) : bool :=
  if (length l <? n)%nat then false
  else bool_decide (take n l = needle) ||
       match l with
       | [] => false
       | _ :: l => any_window n needle l
       end.

Definition validate_calibration_blob (calibration module_serial : bytes)
    : res CalibrationError unit :=
  if (length calibration <? CALIBRATION_MINIMUM_SIZE)%nat
  then Err (TruncatedCalibrationBlob (len calibration))
  else
    let! declared_size := read_le calibration 4 4 in
    if negb (declared_size =? len calibration)
    then Err (CalibrationSizeMismatch declared_size (len calibration))
    else
      let! marker := slice calibration CALIBRATION_MARKER_OFFSET (CALIBRATION_MARKER_OFFSET + 4) in
      if negb (bool_decide (marker = CALIBRATION_MARKER)) then Err MissingCalibrationMarker
      else if negb (length module_serial =? MODULE_SERIAL_NUMBER_SIZE)%nat
      then Err (InvalidModuleSerialLength (len module_serial))
      else if negb (any_window MODULE_SERIAL_NUMBER_SIZE module_serial calibration)
      then Err DifferentModule
      else Ok tt.

Definition require_der_value (element : option DerElement) (expected_tag : Z)
    (expected_value : bytes) : res CalibrationError unit :=
  match element with
  | Some e =>
      if (tag e =? expected_tag) && bool_decide (content e = expected_value) then Ok tt
      else Err UnexpectedImg4Envelope
  | None => Err UnexpectedImg4Envelope
  end.

Definition require_tag (element : option DerElement) (expected_tag : Z) : option DerElement :=
  match element with
  | Some e => if tag e =? expected_tag then Some e else None
  | None => None
  end.

(** The words of the envelope. *)
Definition COMB : bytes := [99; 111; 109; 98].
Definition FDRD : bytes := [102; 100; 114; 100].
Definition IMG4 : bytes := [73; 77; 71; 52].
Definition IM4P : bytes := [73; 77; 52; 80].
Definition FSCL : bytes := [70; 83; 67; 108].
Definition VERSION_1_0 : bytes := [49; 46; 48].

Definition validate_fdr_calibration_record (record module_serial : bytes)
    : res CalibrationError bytes :=
  let! container := der_read_exact record in
  let! (container_kind, container) := next container in
  let! (fdrd_container, container) := next container in
  let! _ := validate_remaining container in
  let! _ := require_der_value container_kind DER_IA5_STRING COMB in
  let! fdrd_container := ok_or (require_tag fdrd_container DER_SEQUENCE) MissingFdrdContainer in
  let fdrd := from_content (content fdrd_container) in
  let! (fdrd_kind, fdrd) := next fdrd in
  let! (img4_object, fdrd) := next fdrd in
  let! _ := validate_remaining fdrd in
  let! _ := require_der_value fdrd_kind DER_IA5_STRING FDRD in
  let! img4_object := ok_or (require_tag img4_object DER_OCTET_STRING) MissingImg4Object in
  let! img4 := der_read_exact (content img4_object) in
  let! (img4_kind, img4) := next img4 in
  let! (im4p_object, img4) := next img4 in
  let! _ := validate_remaining img4 in
  let! _ := require_der_value img4_kind DER_IA5_STRING IMG4 in
  let! im4p_object := ok_or (require_tag im4p_object DER_SEQUENCE) MissingIm4pObject in
  let im4p := from_content (content im4p_object) in
  let! (im4p_kind, im4p) := next im4p in
  let! (payload_kind, im4p) := next im4p in
  let! (version, im4p) := next im4p in
  let! (calibration, im4p) := next im4p in
  let! _ := validate_remaining im4p in
  let! _ := require_der_value im4p_kind DER_IA5_STRING IM4P in
  let! _ := require_der_value payload_kind DER_IA5_STRING FSCL in
  let! _ := require_der_value version DER_IA5_STRING VERSION_1_0 in
  let! calibration := ok_or (require_tag calibration DER_OCTET_STRING) MissingCalibrationPayload in
  let! _ := validate_calibration_blob (content calibration) module_serial in
  Ok (content calibration).

(** ** DER elements have one encoding *)

(** The minimal length field. *)
Definition length_octets (n : Z) : nat :=
  if n <? 2 ^ 8 then 1 else if n <? 2 ^ 16 then 2 else if n <? 2 ^ 24 then 3 else 4.

Definition der_length (n : Z) : bytes :=
  if n <? 0x80 then [n] else 0x80 + Z.of_nat (length_octets n) :: be_bytes (length_octets n) n.

Definition der (e : DerElement) : bytes := tag e :: der_length (len (content e)) ++ content e.

Definition element_ok (e : DerElement) : Prop :=
  is_u 8 (tag e) /\ bytes_ok (content e) /\ len (content e) < 2 ^ 32.

Lemma get_range_Some l a b s :
  0 <= a -> get_range l a b = Some s <->
  a <= b /\ len s = b - a /\ exists post, drop (Z.to_nat a) l = s ++ post /\ a <= len l.
Proof.
  intros Ha. unfold get_range. destruct (_ && _) eqn:Hc; split.
  - intros [= <-]. b2p. split; [done|]. rewrite length_take, length_drop. split; [lia|].
    exists (drop (Z.to_nat (b - a)) (drop (Z.to_nat a) l)). split; [by rewrite take_drop|lia].
  - intros (Hab & Hs & post & Hd & _). f_equal. rewrite Hd, take_app_length'; [done|lia].
  - done.
  - intros (Hab & Hs & post & Hd & Hl). apply (f_equal length) in Hd. rewrite length_drop, length_app in Hd. lia.
Qed.

Lemma length_octets_cases n :
  0 <= n < 2 ^ 32 ->
  (1 <= length_octets n <= 4)%nat /\ is_u (8 * Z.of_nat (length_octets n)) n /\
  (2 ^ 8 <= n -> 2 ^ (8 * (Z.of_nat (length_octets n) - 1)) <= n).
Proof.
  intros Hn. unfold length_octets, is_u.
  destruct (n <? 2 ^ 8) eqn:?; [|destruct (n <? 2 ^ 16) eqn:?; [|destruct (n <? 2 ^ 24) eqn:?]]; b2p;
    (split; [lia|]); cbn [Z.of_nat Pos.of_succ_nat Pos.succ]; lia.
Qed.

(** The number of octets is the least that fits. *)
Lemma length_octets_unique n (k : nat) :
  (1 <= k <= 4)%nat -> n < 2 ^ (8 * Z.of_nat k) -> 2 ^ (8 * (Z.of_nat k - 1)) <= n -> length_octets n = k.
Proof.
  intros Hk Hn Hm. unfold length_octets.
  assert (k = 1 \/ k = 2 \/ k = 3 \/ k = 4)%nat as [->|[->|[->| ->]]] by lia;
    cbn [Z.of_nat Pos.of_succ_nat Pos.succ] in *;
    repeat (match goal with |- context [n <? ?x] => destruct (n <? x) eqn:?; b2p end); lia || done.
Qed.

Lemma be_val_cons_pow2 b l : be_val (b :: l) = b * 2 ^ (8 * len l) + be_val l.
Proof.
  unfold be_val. cbn [rev]. rewrite <- (length_rev l). generalize (rev l) as r. clear l.
  induction r as [|x r IH]; cbn [app length].
  - rewrite le_val_cons. change (le_val []) with 0. lia.
  - rewrite !le_val_cons, IH, pow256_succ. lia.
Qed.

Lemma high_bit b :
  is_u 8 b -> (Z.land b 0x80 =? 0) = (b <? 0x80) /\ (0x80 <= b -> Z.land b 0x7f = b - 0x80).
Proof.
  intros Hb.
  assert (Bool.eqb (Z.land b 0x80 =? 0) (b <? 0x80) && implb (0x80 <=? b) (Z.land b 0x7f =? b - 0x80) = true)
    as Hc by (revert b Hb; apply byte_forall; vm_compute; reflexivity).
  apply andb_true_iff in Hc as [H1 H2]. split; [by apply eqb_prop|]. intros Hge.
  replace (0x80 <=? b) with true in H2 by lia. cbn in H2. lia.
Qed.

Lemma read_der_length_iff data offset tg lo rest n h :
  bytes_ok data -> len data < 2 ^ 62 -> 0 <= offset ->
  drop (Z.to_nat offset) data = tg :: lo :: rest ->
  read_der_length data offset lo = Ok (n, h) <->
  0 <= n < 2 ^ 32 /\ h = 1 + len (der_length n) /\ exists post, lo :: rest = der_length n ++ post.
Proof.
  intros Hok Hlen Hoff Hd.
  assert (bytes_ok (lo :: rest)) as Hokl.
  { apply (bytes_ok_drop (Z.to_nat offset)) in Hok. rewrite Hd in Hok. by apply bytes_ok_cons in Hok as [_ ?]. }
  apply bytes_ok_cons in Hokl as [Hlo Hrest]. destruct (high_bit lo Hlo) as [Hb1 Hb2].
  assert (drop (Z.to_nat (offset + 2)) data = rest) as Hd2.
  { replace (Z.to_nat (offset + 2)) with (Z.to_nat offset + 2)%nat by lia. by rewrite <- drop_drop, Hd. }
  assert (offset + 2 + len rest = len data) as Hdl.
  { apply (f_equal length) in Hd. rewrite length_drop in Hd. cbn [length] in Hd. lia. }
  unfold read_der_length. rewrite Hb1. destruct (lo <? 0x80) eqn:Hsmall; b2p.
  { split.
    - intros [= <- <-]. unfold is_u in Hlo. unfold der_length. replace (lo <? 128) with true by lia.
      split_and!; [lia..|done|by exists rest].
    - intros (Hn & -> & post & Heq). unfold der_length in *. destruct (n <? 128) eqn:Hn128; cbn in Heq; simplify_eq.
      + done.
      + destruct (length_octets_cases n Hn). lia. }
  rewrite Hb2 by done. unfold is_u in Hlo. split.
  - intros H. destruct (_ || _) eqn:Hk in H; [done|]. b2p.
    rewrite !checked_add_ok in H by (unfold umax; lia). 
    destruct (get_range _ _ _) as [lb|] eqn:Hg; [|done]. cbn [ok_or] in H.
    apply get_range_Some in Hg as (_ & Hlb & post & Hdp & _); [|lia]. rewrite Hd2 in Hdp. rewrite Hdp in Hrest, Hdl |- *.
    apply bytes_ok_app in Hrest as [Hlbok _].
    destruct lb as [|b0 lb]; [cbn in Hlb; lia|]. rewrite byte_at_0 in H.
    destruct (b0 =? 0) eqn:Hb0; [done|]. b2p. destruct (_ <? 128) eqn:Hn in H; [done|]. b2p.
    pose proof (be_val_bound _ Hlbok) as Hbound.
    set (k := (length (b0 :: lb))) in *. assert (Z.of_nat k = lo - 128) as Hkl by lia.
    assert (length_octets (be_val (b0 :: lb)) = k) as Hoct.
    { apply length_octets_unique; [lia|apply Hbound|]. rewrite be_val_cons_pow2.
      apply bytes_ok_cons in Hlbok as [Hb Hlbok']. pose proof (be_val_bound _ Hlbok') as [Hnn _].
      unfold is_u in Hb. replace (Z.of_nat k - 1) with (len lb) by (cbn in k; lia).
      pose proof (Z.pow_pos_nonneg 2 (8 * len lb)). nia. }
    unfold is_u in Hbound.
    assert (be_val (b0 :: lb) < 2 ^ 32) as H32.
    { eapply Z.lt_le_trans; [apply Hbound|]. apply Z.pow_le_mono_r; lia. }
    rewrite try_from_ok in H by (unfold is_u; lia). simplify_eq. split; [lia|].
    unfold der_length. replace (_ <? 128) with false by lia. rewrite Hoct. cbn [length] in Hkl |- *.
    rewrite length_be_bytes. split; [lia|]. exists post. cbn [app]. f_equal; [lia|]. f_equal.
    by rewrite be_bytes_val_n.
  - intros (Hn & -> & post & Heq). unfold der_length in *. destruct (n <? 128) eqn:Hn128; cbn in Heq; injection Heq as -> Heq; b2p; [lia|].
    destruct (length_octets_cases n Hn) as (Hc1 & Hc2 & Hc3). set (k := length_octets n) in *.
    replace (128 + Z.of_nat k - 128) with (Z.of_nat k) by lia. replace (_ || _) with false by lia.
    assert (length rest = k + length post)%nat as Hrl by (by rewrite Heq, length_app, length_be_bytes).
    rewrite !checked_add_ok by (unfold umax; lia).
    assert (get_range data (offset + 2) (offset + 2 + Z.of_nat k) = Some (be_bytes k n)) as ->.
    { apply get_range_Some; [lia|]. rewrite length_be_bytes. split; [lia|]. split; [lia|]. exists post. split; [by rewrite Hd2|lia]. }
    cbn [ok_or]. assert (be_val (be_bytes k n) = n) as Hbv by by apply be_val_bytes.
    destruct (be_bytes k n) as [|b0 lb] eqn:Hbb.
    { apply (f_equal length) in Hbb. rewrite length_be_bytes in Hbb. cbn in Hbb. lia. }
    rewrite byte_at_0. destruct (b0 =? 0) eqn:Hb0.
    { exfalso. b2p. subst b0. rewrite be_val_cons_pow2 in Hbv.
      assert (len lb = Z.of_nat k - 1) as Hll by (apply (f_equal length) in Hbb; rewrite length_be_bytes in Hbb; cbn in Hbb; lia).
      assert (bytes_ok lb) as Hlb.
      { pose proof (be_bytes_ok k n) as Hx. rewrite Hbb in Hx. by apply bytes_ok_cons in Hx as [_ ?]. }
      pose proof (be_val_bound _ Hlb) as Hx. unfold is_u in Hx. rewrite Hll in Hx.
      destruct (decide (2 ^ 8 <= n)) as [Hge|Hlt]; [specialize (Hc3 Hge); lia|].
      assert (k = 1%nat) as Hk1 by (unfold k, length_octets; by replace (n <? 2 ^ 8) with true by lia).
      rewrite Hk1 in Hx. cbn in Hx. lia. }
    rewrite Hbv. replace (n <? 128) with false by lia. rewrite try_from_ok by (unfold is_u; lia).
    do 2 f_equal. cbn [length]. apply (f_equal length) in Hbb. rewrite length_be_bytes in Hbb. cbn in Hbb. lia.
Qed.

(** Reading an element at [offset] cuts it off the rest of the data. *)
Lemma read_der_element_iff data offset e end_ :
  bytes_ok data -> len data < 2 ^ 62 -> 0 <= offset <= len data ->
  read_der_element data offset = Ok (e, end_) <->
  element_ok e /\ end_ = offset + len (der e) /\
  exists post, drop (Z.to_nat offset) data = der e ++ post.
Proof.
  intros Hok Hlen Hoff. unfold read_der_element.
  assert (forall k : nat, data !! (Z.to_nat offset + k)%nat = drop (Z.to_nat offset) data !! k) as Hlk
    by (intros k; by rewrite lookup_drop).
  pose proof (Hlk 0%nat) as Hlk0. rewrite Nat.add_0_r in Hlk0. rewrite Hlk0.
  assert (len (drop (Z.to_nat offset) data) = len data - offset) as Hdl by (rewrite length_drop; lia).
  assert (bytes_ok (drop (Z.to_nat offset) data)) as Hokd by by apply bytes_ok_drop.
  destruct (drop (Z.to_nat offset) data) as [|tg [|lo rest]] eqn:Hd; cbn [lookup list_lookup ok_or].
  { split; [done|]. intros (_ & _ & post & Hp). done. }
  { rewrite checked_add_ok by (unfold umax; lia). replace (Z.to_nat (offset + 1)) with (Z.to_nat offset + 1)%nat by lia.
    rewrite (Hlk 1%nat). split; [done|]. intros (_ & _ & post & Hp). unfold der, der_length in Hp.
    destruct (_ <? 128); done. }
  rewrite checked_add_ok by (unfold umax; lia). replace (Z.to_nat (offset + 1)) with (Z.to_nat offset + 1)%nat by lia.
  rewrite (Hlk 1%nat). cbn [lookup list_lookup ok_or].
  apply bytes_ok_cons in Hokd as [Htg Hokd].
  split.
  - intros H. destruct (read_der_length data offset lo) as [[n h]| |] eqn:Hrl; [|done..].
    apply (read_der_length_iff data offset tg lo rest n h Hok Hlen ltac:(lia) Hd) in Hrl as (Hn & -> & post & Heq).
    assert (1 <= len (der_length n) <= 5) as Hdlen.
    { unfold der_length. destruct (n <? 128); cbn [length]; [lia|]. rewrite length_be_bytes.
      destruct (length_octets_cases n Hn). lia. }
    rewrite !checked_add_ok in H by (unfold umax; lia).
    destruct (get_range _ _ _) as [c|] eqn:Hg; [|done]. cbn [ok_or] in H. simplify_eq.
    apply get_range_Some in Hg as (_ & Hcl & post' & Hdp & _); [|lia].
    replace (Z.to_nat (offset + (1 + len (der_length n)))) with (Z.to_nat offset + (1 + length (der_length n)))%nat in Hdp by lia.
    rewrite <- drop_drop, Hd in Hdp. cbn [drop Nat.add] in Hdp. rewrite Heq, drop_app_length in Hdp. subst post.
    rewrite Heq in Hokd. apply bytes_ok_app in Hokd as [_ Hokd]. apply bytes_ok_app in Hokd as [Hokc _].
    assert (len c = n) as <- by lia.
    split; [split_and!; [done|done|cbn [content]; lia]|]. unfold der. cbn [tag content length].
    rewrite length_app. split; [lia|]. exists post'. cbn [app]. by rewrite Heq, <- app_assoc.
  - intros ((Ht & Hc & Hcl) & -> & post & Heq). unfold der in Heq. cbn [app] in Heq. injection Heq as -> Heq.
    rewrite <- app_assoc in Heq. set (n := len (content e)) in *.
    assert (read_der_length data offset lo = Ok (n, 1 + len (der_length n))) as ->.
    { apply (read_der_length_iff data offset (tag e) lo rest); [done|done|lia|done|]. split; [lia|]. split; [done|].
      by exists (content e ++ post). }
    assert (len (lo :: rest) = len (der_length n) + n + len post) as Hll
      by (rewrite Heq, !length_app; lia). cbn [length] in Hll, Hdl.
    rewrite !checked_add_ok by (unfold umax; lia).
    assert (get_range data (offset + (1 + len (der_length n))) (offset + (1 + len (der_length n)) + n) = Some (content e)) as ->.
    { apply get_range_Some; [lia|]. split; [lia|]. split; [lia|]. exists post. split; [|lia].
      replace (Z.to_nat (offset + (1 + len (der_length n)))) with (Z.to_nat offset + (1 + length (der_length n)))%nat by lia.
      rewrite <- drop_drop, Hd. cbn [drop Nat.add]. by rewrite Heq, drop_app_length. }
    cbn [ok_or]. destruct e as [tg' c]. subst n. cbn [tag content] in *. do 2 f_equal. unfold der.
    cbn [length tag content]. rewrite length_app. lia.
Qed.

Lemma read_der_length_no_panic data offset lo : 0 <= offset -> read_der_length data offset lo <> Panic.
Proof.
  intros Hoff. unfold read_der_length. destruct (_ =? 0); [done|]. cbv zeta.
  pose proof (Z.land_nonneg lo 127). destruct (_ || _) eqn:Hz; [done|]. b2p.
  destruct (checked_add 64 offset 2) as [a|] eqn:Ha; [|done]. apply checked_add_Some in Ha as [-> _]. cbn [ok_or].
  destruct (checked_add 64 _ _) as [b|] eqn:Hb; [|done]. apply checked_add_Some in Hb as [-> _]. cbn [ok_or].
  destruct (get_range _ _ _) as [[|x l]|] eqn:Hg; [| |done]; cbn [ok_or].
  - apply get_range_Some in Hg as (_ & Hl & _); [|lia]. cbn in Hl. lia.
  - rewrite byte_at_0. destruct (x =? 0); [done|]. destruct (_ <? 128); [done|]. by destruct (try_from_u _ _).
Qed.

Lemma read_der_element_no_panic data offset : 0 <= offset -> read_der_element data offset <> Panic.
Proof.
  intros Hoff. unfold read_der_element. destruct (data !! _); [|done]. cbn [ok_or].
  destruct (checked_add _ _ _); [|done]. cbn [ok_or]. destruct (data !! _) as [lo|]; [|done]. cbn [ok_or].
  pose proof (read_der_length_no_panic data offset lo Hoff). destruct (read_der_length _ _ _) as [[n h]| |]; [|done..].
  destruct (checked_add _ offset h); [|done]. cbn [ok_or]. destruct (checked_add _ _ n); [|done]. cbn [ok_or].
  by destruct (get_range _ _ _).
Qed.

(** ** Sequences of elements *)

Definition remaining (s : DerSequence) : bytes := drop (Z.to_nat (seq_offset s)) (seq_content s).

Definition holds (s : DerSequence) : Prop :=
  bytes_ok (seq_content s) /\ len (seq_content s) < 2 ^ 62 /\ 0 <= seq_offset s <= len (seq_content s).

(** What is left of a sequence is the encoding of [es]. *)
Definition encodes (s : DerSequence) (es : list DerElement) : Prop :=
  holds s /\ Forall element_ok es /\ remaining s = concat (der <$> es).

Lemma len_der e : 2 <= len (der e).
Proof.
  unfold der, der_length. cbn [length]. rewrite length_app. destruct (_ <? 128); cbn [length]; lia.
Qed.

Lemma next_Some s e s' :
  holds s -> next s = Ok (Some e, s') ->
  holds s' /\ element_ok e /\ remaining s = der e ++ remaining s'.
Proof.
  intros (Hok & Hlen & Hoff) H. unfold next in H. destruct (_ =? _) eqn:Hend; [done|]. b2p.
  destruct (read_der_element _ _) as [[e' end_]| |] eqn:Hr; [|done..]. simplify_eq.
  apply read_der_element_iff in Hr as (He & -> & post & Heq); [|done..].
  assert (len (seq_content s) - seq_offset s = len (der e) + len post) as Hl.
  { apply (f_equal length) in Heq. rewrite length_drop, length_app in Heq. lia. }
  split; [split_and!; cbn [seq_content seq_offset]; [done|done|lia|lia]|]. split; [done|]. unfold remaining. rewrite Heq. cbn [seq_offset seq_content].
  f_equal. replace (Z.to_nat (_ + _)) with (Z.to_nat (seq_offset s) + length (der e))%nat by lia.
  by rewrite <- drop_drop, Heq, drop_app_length.
Qed.

Lemma next_None s s' : holds s -> next s = Ok (None, s') -> s' = s /\ encodes s [].
Proof.
  intros Hs H. unfold next in H. destruct (_ =? _) eqn:Hend; b2p.
  - simplify_eq. split; [done|]. split; [done|]. split; [done|]. unfold remaining. apply drop_ge. lia.
  - destruct (read_der_element _ _) as [[e' end_]| |]; done.
Qed.

Lemma next_no_panic s : holds s -> next s <> Panic.
Proof.
  intros (_ & _ & Hoff). unfold next. destruct (_ =? _); [done|].
  pose proof (read_der_element_no_panic (seq_content s) (seq_offset s) ltac:(lia)).
  by destruct (read_der_element _ _) as [[]| |].
Qed.

Lemma encodes_cons s e es :
  encodes s (e :: es) -> exists s', next s = Ok (Some e, s') /\ encodes s' es.
Proof.
  intros ((Hok & Hlen & Hoff) & Hes & Heq). apply Forall_cons in Hes as [He Hes].
  change (concat (der <$> e :: es)) with (der e ++ concat (der <$> es)) in Heq.
  assert (len (seq_content s) - seq_offset s = len (der e) + len (concat (der <$> es))) as Hl.
  { apply (f_equal length) in Heq. unfold remaining in Heq. rewrite length_drop, length_app in Heq. lia. }
  pose proof (len_der e). exists (mkSequence (seq_content s) (seq_offset s + len (der e))). unfold next.
  replace (_ =? _) with false by lia.
  assert (read_der_element (seq_content s) (seq_offset s) = Ok (e, seq_offset s + len (der e))) as ->.
  { apply read_der_element_iff; [done..|]. split; [done|]. split; [done|]. by exists (concat (der <$> es)). }
  split; [done|]. split; [split_and!; cbn [seq_content seq_offset]; [done|done|lia|lia]|]. split; [done|].
  unfold remaining in *. cbn [seq_content seq_offset].
  replace (Z.to_nat (_ + _)) with (Z.to_nat (seq_offset s) + length (der e))%nat by lia.
  by rewrite <- drop_drop, Heq, drop_app_length.
Qed.

Lemma encodes_nil s : encodes s [] -> next s = Ok (None, s).
Proof.
  intros ((Hok & Hlen & Hoff) & _ & Heq). unfold next. apply (f_equal length) in Heq. unfold remaining in Heq.
  rewrite length_drop in Heq. cbn in Heq. by replace (_ =? _) with true by lia.
Qed.

Lemma validate_remaining_inv s : holds s -> validate_remaining s = Ok tt -> exists es, encodes s es.
Proof.
  unfold validate_remaining. generalize (S (length (seq_content s))) as fuel. intros fuel. revert s.
  induction fuel as [|fuel IH]; intros s Hs H; [done|]. cbn in H.
  destruct (next s) as [[[e|] s']| |] eqn:Hn; [|clear H|done..].
  - apply next_Some in Hn as (Hs' & He & Heq); [|done]. apply IH in H as (es & _ & Hes & Hr); [|done].
    exists (e :: es). split; [done|]. split; [by constructor|]. by rewrite Heq, Hr.
  - exists []. by apply (next_None s s').
Qed.

Lemma validate_remaining_total s : holds s -> validate_remaining s <> Panic.
Proof.
  intros Hs. unfold validate_remaining.
  assert (length (remaining s) < S (length (seq_content s)))%nat as Hf by (unfold remaining; rewrite length_drop; lia).
  revert Hf. generalize (S (length (seq_content s))) as fuel. intros fuel. revert s Hs.
  induction fuel as [|fuel IH]; intros s Hs Hf; [lia|]. cbn. pose proof (next_no_panic s Hs).
  destruct (next s) as [[[e|] s']| |] eqn:Hn; [|done..].
  apply next_Some in Hn as (Hs' & _ & Heq); [|done]. apply IH; [done|].
  rewrite Heq, length_app in Hf. pose proof (len_der e). lia.
Qed.

Lemma validate_remaining_encodes s es : encodes s es -> validate_remaining s = Ok tt.
Proof.
  intros Hs. pose proof (validate_remaining_total s ltac:(apply Hs)) as Hnp. revert Hnp. unfold validate_remaining.
  generalize (S (length (seq_content s))) as fuel. intros fuel. revert s es Hs.
  induction fuel as [|fuel IH]; intros s es Hs Hnp; [done|]. cbn in *. destruct es as [|e es].
  - by rewrite encodes_nil.
  - apply encodes_cons in Hs as (s' & Hn & Hs'). rewrite Hn in *. by apply (IH s' es).
Qed.

Lemma next_holds s o s' : holds s -> next s = Ok (o, s') -> holds s'.
Proof.
  intros Hs H. destruct o as [e|]; [by apply (next_Some s e)|]. by apply next_None in H as [-> _].
Qed.

Lemma next_encodes s o s' es :
  holds s -> next s = Ok (o, s') -> encodes s' es -> encodes s (option_list o ++ es).
Proof.
  intros Hs H Hes. destruct o as [e|]; cbn [option_list app].
  - apply next_Some in H as (_ & He & Heq); [|done]. destruct Hes as (_ & Hes & Hr).
    split; [done|]. split; [by constructor|]. by rewrite Heq, Hr.
  - apply next_None in H as [-> _]; done.
Qed.

(** ** The envelope *)

Definition seq_of (es : list DerElement) : DerElement := mkElement DER_SEQUENCE (concat (der <$> es)).
Definition ia5 (word : bytes) : DerElement := mkElement DER_IA5_STRING word.
Definition octets (c : bytes) : DerElement := mkElement DER_OCTET_STRING c.

(** A record around [calibration], with any further elements [m1], ..., [m4] at
    the end of its four sequences. *)
Definition fdr_record (calibration : bytes) (m1 m2 m3 m4 : list DerElement) : DerElement :=
  let im4p := seq_of (ia5 IM4P :: ia5 FSCL :: ia5 VERSION_1_0 :: octets calibration :: m4) in
  let img4 := seq_of (ia5 IMG4 :: im4p :: m3) in
  let fdrd := seq_of (ia5 FDRD :: octets (der img4) :: m2) in
  seq_of (ia5 COMB :: fdrd :: m1).

Lemma holds_from_content c : bytes_ok c -> len c < 2 ^ 62 -> holds (from_content c).
Proof. intros Hok Hl. split_and!; cbn [from_content seq_content seq_offset]; [done|done|lia|lia]. Qed.

Lemma der_parts e : bytes_ok (der e) -> bytes_ok (content e) /\ is_u 8 (tag e).
Proof. unfold der. rewrite bytes_ok_cons, bytes_ok_app. tauto. Qed.

Lemma len_content e : len (content e) < len (der e).
Proof. unfold der. cbn [length]. rewrite length_app. lia. Qed.

Lemma seq_of_ok es : element_ok (seq_of es) -> Forall element_ok es.
Proof.
  intros (_ & Hok & Hl). cbn [seq_of content] in *. apply Forall_forall. intros e He.
  apply list_elem_of_split in He as (l1 & l2 & ->). rewrite fmap_app, fmap_cons, concat_app in Hok, Hl.
  cbn [concat] in Hok, Hl. rewrite !bytes_ok_app in Hok. rewrite !length_app in Hl.
  pose proof (len_content e). destruct Hok as (_ & Hok & _). apply der_parts in Hok as [? ?].
  split_and!; [done|done|lia].
Qed.

Lemma seq_of_encodes es : element_ok (seq_of es) -> encodes (from_content (content (seq_of es))) es.
Proof.
  intros He. pose proof (seq_of_ok es He). destruct He as (_ & Hok & Hl). split; [|done].
  apply holds_from_content; [done|lia].
Qed.

Lemma encodes_seq_of c es : encodes (from_content c) es -> mkElement DER_SEQUENCE c = seq_of es.
Proof. intros (_ & _ & Hr). unfold seq_of. by rewrite <- Hr. Qed.

Lemma der_read_exact_inv data s :
  bytes_ok data -> len data < 2 ^ 62 -> der_read_exact data = Ok s ->
  exists c, s = from_content c /\ element_ok (mkElement DER_SEQUENCE c) /\ data = der (mkElement DER_SEQUENCE c).
Proof.
  intros Hok Hl H. unfold der_read_exact in H. destruct (read_der_element data 0) as [[[tg c] end_]| |] eqn:Hr; [|done..].
  destruct (_ || _) eqn:Hc; [done|]. cbn [tag content] in *. b2p. simplify_eq.
  apply read_der_element_iff in Hr as (He & Hend & post & Heq); [|done|done|lia].
  exists c. split; [done|]. split; [done|]. change (drop (Z.to_nat 0) data) with data in Heq. rewrite Heq, length_app in Hend.
  assert (post = []) as -> by (destruct post; [done|cbn [length] in Hend; lia]). by rewrite Heq, app_nil_r.
Qed.

Lemma der_read_exact_der c :
  element_ok (mkElement DER_SEQUENCE c) -> der_read_exact (der (mkElement DER_SEQUENCE c)) = Ok (from_content c).
Proof.
  intros He. set (e := mkElement DER_SEQUENCE c) in *. pose proof He as (Ht & Hok & Hl).
  assert (bytes_ok (der e) /\ len (der e) < 2 ^ 62) as [Hokd Hld].
  { unfold der, der_length. cbn [length]. rewrite bytes_ok_cons, bytes_ok_app, length_app.
    destruct (length_octets_cases (len (content e)) ltac:(lia)) as (Ho & _ & _).
    destruct (_ <? 128) eqn:Hs; b2p; cbn [length].
    - split; [|lia]. split; [done|]. split; [|done]. apply bytes_ok_cons. unfold is_u. split; [lia|]. by constructor.
    - rewrite length_be_bytes. split; [|lia]. split; [done|]. split; [|done]. apply bytes_ok_cons. unfold is_u.
      split; [lia|]. apply be_bytes_ok. }
  unfold der_read_exact.
  assert (read_der_element (der e) 0 = Ok (e, len (der e))) as ->.
  { apply read_der_element_iff; [done|done|lia|]. split; [done|]. split; [lia|]. exists []. by rewrite app_nil_r. }
  cbn [tag content e]. by rewrite !Z.eqb_refl.
Qed.

Lemma require_der_value_Ok o t v : require_der_value o t v = Ok tt -> o = Some (mkElement t v).
Proof.
  destruct o as [[t' v']|]; cbn; [|done]. destruct (_ && _) eqn:Hc; [|done]. b2p. by subst.
Qed.

Lemma require_tag_Some o t e : require_tag o t = Some e -> o = Some e /\ tag e = t.
Proof. destruct o as [e'|]; cbn; [|done]. destruct (_ =? _) eqn:Hc; [|done]. b2p. intros. by simplify_eq. Qed.

Lemma require_der_value_refl v : require_der_value (Some (ia5 v)) DER_IA5_STRING v = Ok tt.
Proof. cbn. by rewrite bool_decide_true. Qed.

Lemma require_tag_refl e : require_tag (Some e) (tag e) = Some e.
Proof. cbn. by rewrite Z.eqb_refl. Qed.

Ltac der_step H :=
  match type of H with
  | context [next ?s] => destruct (next s) as [[? ?]| |] eqn:?; [|done..]
  | context [validate_remaining ?s] => destruct (validate_remaining s) as [[]| |] eqn:?; [|done..]
  | context [require_der_value ?o ?t ?v] =>
      let Hr := fresh "Hr" in
      destruct (require_der_value o t v) as [[]| |] eqn:Hr; [|done..]; apply require_der_value_Ok in Hr as ->
  | context [ok_or (require_tag ?o ?t) _] =>
      let Hr := fresh "Hr" in
      destruct (require_tag o t) eqn:Hr; cbn [ok_or] in H; [|done]; apply require_tag_Some in Hr as [-> ?]
  end.

Lemma element_holds e : element_ok e -> holds (from_content (content e)).
Proof. intros (_ & Hok & Hl). apply holds_from_content; [done|lia]. Qed.

Lemma encoded_element e es :
  tag e = DER_SEQUENCE -> encodes (from_content (content e)) es -> e = seq_of es /\ Forall element_ok es.
Proof.
  destruct e as [tg c]. cbn [tag content]. intros -> Hes. split; [by apply encodes_seq_of|apply Hes].
Qed.

(** A sequence that begins with two elements: the three outer levels. *)
Lemma two_elements e e1 s1 e2 s2 :
  element_ok e -> tag e = DER_SEQUENCE ->
  next (from_content (content e)) = Ok (Some e1, s1) -> next s1 = Ok (Some e2, s2) ->
  validate_remaining s2 = Ok tt ->
  exists m, e = seq_of (e1 :: e2 :: m) /\ element_ok e2.
Proof.
  intros He Ht H1 H2 Hv. pose proof (element_holds e He) as Hs.
  pose proof (next_holds _ _ _ Hs H1) as Hs1. pose proof (next_holds _ _ _ Hs1 H2) as Hs2.
  destruct (validate_remaining_inv s2 Hs2 Hv) as [m Hm]. exists m.
  apply (next_encodes _ _ _ _ Hs1 H2), (next_encodes _ _ _ _ Hs H1) in Hm. cbn [option_list app] in Hm.
  apply encoded_element in Hm as [? Hf]; [|done]. split; [done|]. by apply Forall_cons in Hf as [_ [? _]%Forall_cons].
Qed.

(** The innermost level has four. *)
Lemma four_elements e e1 s1 e2 s2 e3 s3 e4 s4 :
  element_ok e -> tag e = DER_SEQUENCE ->
  next (from_content (content e)) = Ok (Some e1, s1) -> next s1 = Ok (Some e2, s2) ->
  next s2 = Ok (Some e3, s3) -> next s3 = Ok (Some e4, s4) -> validate_remaining s4 = Ok tt ->
  exists m, e = seq_of (e1 :: e2 :: e3 :: e4 :: m).
Proof.
  intros He Ht H1 H2 H3 H4 Hv. pose proof (element_holds e He) as Hs.
  pose proof (next_holds _ _ _ Hs H1) as Hs1. pose proof (next_holds _ _ _ Hs1 H2) as Hs2.
  pose proof (next_holds _ _ _ Hs2 H3) as Hs3. pose proof (next_holds _ _ _ Hs3 H4) as Hs4.
  destruct (validate_remaining_inv s4 Hs4 Hv) as [m Hm]. exists m.
  apply (next_encodes _ _ _ _ Hs3 H4), (next_encodes _ _ _ _ Hs2 H3), (next_encodes _ _ _ _ Hs1 H2),
    (next_encodes _ _ _ _ Hs H1) in Hm. cbn [option_list app] in Hm.
  by apply encoded_element in Hm as [? _].
Qed.

(** An accepted record has the envelope's shape. *)
Lemma accepted_shape record serial calibration :
  bytes_ok record -> len record < 2 ^ 62 ->
  validate_fdr_calibration_record record serial = Ok calibration ->
  validate_calibration_blob calibration serial = Ok tt /\
  exists m1 m2 m3 m4, element_ok (fdr_record calibration m1 m2 m3 m4) /\
    record = der (fdr_record calibration m1 m2 m3 m4).
Proof.
  intros Hok Hl H. unfold validate_fdr_calibration_record in H.
  destruct (der_read_exact record) as [s| |] eqn:Hex; [|done..].
  apply der_read_exact_inv in Hex as (c0 & -> & He0 & ->); [|done..].
  do 5 der_step H.
  edestruct (two_elements (mkElement DER_SEQUENCE c0)) as (m1 & Hm1 & He1); [done|done|eassumption..|].
  do 5 der_step H. edestruct (two_elements d1) as (m2 & Hm2 & He2); [done|done|eassumption..|].
  destruct (der_read_exact (content d4)) as [s| |] eqn:Hex; [|done..].
  pose proof He2 as (_ & Hok2 & Hl2). apply der_read_exact_inv in Hex as (c2 & -> & He2' & Hc2); [|done|lia].
  do 5 der_step H.
  edestruct (two_elements (mkElement DER_SEQUENCE c2)) as (m3 & Hm3 & He3); [done|done|eassumption..|].
  do 9 der_step H. edestruct (four_elements d7) as (m4 & Hm4); [done|done|eassumption..|].
  destruct (validate_calibration_blob _ _) as [[]| |] eqn:Hv; [|done..].
  assert (content d12 = calibration) as Hcal by congruence. subst calibration.
  split; [done|]. exists m1, m2, m3, m4. subst d7.
  assert (mkElement DER_SEQUENCE c0 = fdr_record (content d12) m1 m2 m3 m4) as <-; [|done].
  destruct d4 as [t4 c4], d12 as [t12 c12]. cbn [tag content] in *. subst. unfold fdr_record, octets, ia5.
  by rewrite Hm1, <- Hm3.
Qed.

Lemma der_read_exact_seq es :
  element_ok (seq_of es) -> der_read_exact (der (seq_of es)) = Ok (from_content (content (seq_of es))).
Proof. apply der_read_exact_der. Qed.

(** Reading the elements of an encoded sequence one after the other. *)
Ltac read_next Hs :=
  let s' := fresh "s" in let Hn := fresh "Hn" in let Hs' := fresh "Hs" in
  destruct (encodes_cons _ _ _ Hs) as (s' & Hn & Hs'); rewrite Hn; clear Hn Hs; rename Hs' into Hs.

Lemma shape_accepted serial calibration m1 m2 m3 m4 :
  validate_calibration_blob calibration serial = Ok tt ->
  element_ok (fdr_record calibration m1 m2 m3 m4) ->
  validate_fdr_calibration_record (der (fdr_record calibration m1 m2 m3 m4)) serial = Ok calibration.
Proof.
  intros Hv He1. unfold fdr_record in He1 |- *.
  pose proof (seq_of_ok _ He1) as [_ [He2 _]%Forall_cons]%Forall_cons.
  pose proof (seq_of_ok _ He2) as [_ [He3 _]%Forall_cons]%Forall_cons. destruct He3 as (_ & Hok3 & Hl3).
  cbn [octets content] in Hok3, Hl3. pose proof (der_parts _ Hok3) as [Hok3' Ht3].
  match type of Hok3 with bytes_ok (der ?e) => assert (element_ok e) as He3 end.
  { split_and!; [done|done|]. eapply Z.lt_trans; [apply len_content|done]. }
  pose proof (seq_of_ok _ He3) as [_ [He4 _]%Forall_cons]%Forall_cons.
  unfold validate_fdr_calibration_record. rewrite !der_read_exact_seq by done.
  pose proof (der_read_exact_seq _ He3) as Hexact. apply seq_of_encodes in He1, He2, He3, He4.
  do 2 read_next He1. rewrite (validate_remaining_encodes _ _ He1), require_der_value_refl, (require_tag_refl (seq_of _)).
  cbn [ok_or]. do 2 read_next He2.
  rewrite (validate_remaining_encodes _ _ He2), require_der_value_refl, (require_tag_refl (octets _)).
  cbn [ok_or octets content]. rewrite Hexact. do 2 read_next He3.
  rewrite (validate_remaining_encodes _ _ He3), require_der_value_refl, (require_tag_refl (seq_of _)).
  cbn [ok_or]. do 4 read_next He4.
  rewrite (validate_remaining_encodes _ _ He4), !require_der_value_refl, (require_tag_refl (octets _)).
  cbn [ok_or octets content]. by rewrite Hv.
Qed.

Lemma validate_calibration_blob_no_panic c serial : validate_calibration_blob c serial <> Panic.
Proof.
  unfold validate_calibration_blob. destruct (_ <? _)%nat eqn:Hl; [done|]. b2p. unfold CALIBRATION_MINIMUM_SIZE in Hl.
  unfold read_le. rewrite slice_ok by lia. destruct (negb _); [done|].
  unfold CALIBRATION_MARKER_OFFSET. rewrite slice_ok by lia. by repeat (destruct (negb _); [done|]).
Qed.
Lemma der_read_exact_no_panic data : der_read_exact data <> Panic.
Proof.
  unfold der_read_exact. pose proof (read_der_element_no_panic data 0 ltac:(lia)).
  destruct (read_der_element data 0) as [[e n]| |]; [|done..]. by destruct (_ || _).
Qed.

(** Every read of a held sequence goes on with a held sequence or an error. *)
Ltac next_total Hs :=
  match goal with
  | |- context [next ?s] =>
      let s' := fresh "s" in let Hn := fresh "Hn" in let Hs' := fresh "Hs" in
      let Hp := fresh "Hp" in
      pose proof (next_no_panic s Hs) as Hp; destruct (next s) as [[? s']| |] eqn:Hn; [|done..]; clear Hp;
      pose proof (next_holds _ _ _ Hs Hn) as Hs'
  end.

Lemma require_der_value_no_panic o t v : require_der_value o t v <> Panic.
Proof. destruct o as [e|]; cbn; [|done]. by destruct (_ && _). Qed.

Ltac envelope_total Hs :=
  match goal with
  | |- context [validate_remaining ?s] =>
      pose proof (validate_remaining_total s Hs); destruct (validate_remaining s); [|done..]
  end;
  repeat match goal with
  | |- context [require_der_value ?o ?t ?v] =>
      pose proof (require_der_value_no_panic o t v); destruct (require_der_value o t v); [|done..]
  end;
  match goal with
  | |- context [require_tag ?o ?t] =>
      let Hr := fresh "Hr" in
      destruct (require_tag o t) eqn:Hr; cbn [ok_or]; [|done]; apply require_tag_Some in Hr as [-> _]
  end.

Lemma next_element_holds s e s' : holds s -> next s = Ok (Some e, s') -> holds (from_content (content e)).
Proof. intros Hs H. apply next_Some in H as (_ & He & _); [|done]. by apply element_holds. Qed.

Lemma validate_fdr_calibration_record_no_panic record serial :
  bytes_ok record -> len record < 2 ^ 62 -> validate_fdr_calibration_record record serial <> Panic.
Proof.
  intros Hok Hl. unfold validate_fdr_calibration_record. pose proof (der_read_exact_no_panic record).
  destruct (der_read_exact record) as [s| |] eqn:Hex; [|done..].
  apply der_read_exact_inv in Hex as (c & -> & He & _); [|done..]. apply element_holds in He. cbn [content] in He.
  next_total He. next_total Hs. envelope_total Hs0.
  pose proof (next_element_holds _ _ _ Hs Hn0) as He1. next_total He1. next_total Hs1. envelope_total Hs2.
  pose proof (next_element_holds _ _ _ Hs1 Hn2) as (Hok2 & Hl2 & _).
  pose proof (der_read_exact_no_panic (content d0)).
  destruct (der_read_exact (content d0)) as [t| |] eqn:Hex; [|done..].
  apply der_read_exact_inv in Hex as (c2 & -> & He2 & _); [|done..]. apply element_holds in He2. cbn [content] in He2.
  next_total He2. next_total Hs3. envelope_total Hs4.
  pose proof (next_element_holds _ _ _ Hs3 Hn4) as He4.
  next_total He4. next_total Hs5. next_total Hs6. next_total Hs7. envelope_total Hs8.
  match goal with |- context [validate_calibration_blob ?b ?m] =>
    pose proof (validate_calibration_blob_no_panic b m); by destruct (validate_calibration_blob b m) end.
Qed.

(** C34. Validating a factory calibration record returns (it never panics), and it
    accepts exactly the DER records of the four nested envelopes ("comb", "fdrd",
    "IMG4", "IM4P"/"FSCl"/"1.0") with minimal lengths and nothing after them, any
    further elements at the end of a sequence allowed; what it returns is the
    record's payload, and that payload passed the size, marker and module checks. *)
Theorem fdr_record_iff record serial calibration :
  bytes_ok record -> len record < 2 ^ 62 ->
  validate_fdr_calibration_record record serial <> Panic /\
  (validate_fdr_calibration_record record serial = Ok calibration <->
   validate_calibration_blob calibration serial = Ok tt /\
   exists m1 m2 m3 m4, element_ok (fdr_record calibration m1 m2 m3 m4) /\
     record = der (fdr_record calibration m1 m2 m3 m4)).
Proof.
  intros Hok Hl. split; [by apply validate_fdr_calibration_record_no_panic|]. split.
  - by apply accepted_shape.
  - intros (Hv & m1 & m2 & m3 & m4 & He & ->). by apply shape_accepted.
Qed.

(** A calibration of 200 bytes, whose record needs the long length form. *)
Definition ex_serial : bytes := Z.of_nat <$> seq 65 18.
Definition ex_calibration : bytes :=
  [0; 0; 0; 0] ++ le_bytes 4 200 ++ replicate 8 0 ++ CALIBRATION_MARKER ++ ex_serial ++ replicate 162 7.
Definition ex_record : bytes := der (fdr_record ex_calibration [octets [1; 2]] [] [] [ia5 FSCL]).

Lemma fdr_record_iff_witness :
  validate_fdr_calibration_record ex_record ex_serial = Ok ex_calibration /\
  validate_calibration_blob ex_calibration ex_serial = Ok tt.
Proof.
  assert (validate_fdr_calibration_record ex_record ex_serial = Ok ex_calibration) as H by (vm_compute; reflexivity).
  split; [done|]. apply (fdr_record_iff ex_record ex_serial ex_calibration).
  - apply (bool_decide_unpack _). vm_compute. exact I.
  - vm_compute. reflexivity.
  - exact H.
Defined.

End Calibration.
