(* ===== verification/Commands.v ===== *)
(** * Command packets ([crates/t1-bridge/src/commands.rs])

    Every command the control plane sends: its bytes and the response capacity
    that goes with it. The wiping of secrets is not modelled, but for the flag
    that asks for it. *)

From S2P Require Import Prelude Policy Biometric Mesa.

Module Commands.
Import Biometric Policy.

Definition MAX_IDENTITIES : nat := 5.
Definition IDENTITY_LIST_CAPACITY : nat := MAX_IDENTITIES * Mesa.IDENTITY_V1_SIZE.
Definition MAX_CALIBRATION_DATA_SIZE : Z := 16 * 1024 * 1024 - 8.
Definition EMPTY_RESPONSE_CAPACITY : Z := 0.
Definition BOOLEAN_RESPONSE_CAPACITY : Z := 1.
Definition SKS_LOCK_STATE_RESPONSE_SIZE : nat := 4.
Definition START_ENROLLMENT_DESCRIPTOR_SIZE : nat := 48.
Definition START_MATCH_DESCRIPTOR_SIZE : nat := 0x44.

Definition RESET : CommandCode := 0x02.
Definition START_ENROLLMENT : CommandCode := 0x03.
Definition START_MATCH : CommandCode := 0x04.
Definition CANCEL_OPERATION : CommandCode := 0x0c.
Definition REMOVE_IDENTITY : CommandCode := 0x0d.
Definition CONTINUE_ENROLLMENT : CommandCode := 0x0e.
Definition LOAD_CALIBRATION : CommandCode := 0x20.
Definition GET_SKS_LOCK_STATE : CommandCode := 0x27.
Definition GET_USER_PROTECTED_CONFIGURATION : CommandCode := 0x2e.
Definition SET_USER_PROTECTED_CONFIGURATION : CommandCode := 0x2f.
Definition SET_ACTIVE_USER : CommandCode := 0x31.
Definition GET_CATACOMB_ID : CommandCode := 0x38.
Definition GET_CATACOMB_HASH : CommandCode := 0x3a.
Definition GET_CATACOMB_STATE : CommandCode := 0x3c.
Definition GET_SECURE_CATACOMB_SIZE : CommandCode := 0x3d.
Definition SAVE_SECURE_CATACOMB : CommandCode := 0x3e.
Definition FINISH_SAVE_SECURE_CATACOMB : CommandCode := 0x3f.
Definition LOAD_SECURE_CATACOMB : CommandCode := 0x40.
Definition GET_IDENTITIES : CommandCode := 0x42.
Definition GET_SYSTEM_PROTECTED_CONFIGURATION : CommandCode := 0x43.
Definition SET_SYSTEM_PROTECTED_CONFIGURATION : CommandCode := 0x44.
Definition GET_TEMPLATE_LIST_CRC : CommandCode := 0x47.
Definition REMOVE_USER : CommandCode := 0x48.
Definition FORCE_BIOLOCKOUT : CommandCode := 0x49.

(** [CalibrationSource], and its [u16] value. *)
Inductive CalibrationSource : Type := SystemConfiguration | Eeprom | Fdr.
Definition calibration_source_value (s : CalibrationSource) : Z :=
  match s with SystemConfiguration => 1 | Eeprom => 2 | Fdr => 3 end.

Record CommandPacket : Type := mkPacket {
  request : bytes;
  response_capacity : Z;
  wipe_on_drop : bool;
}.

Inductive CommandResponseKind : Type := SksLockState.

Inductive CommandError : Type :=
| CalibrationDataTooLarge (actual maximum : Z)
| UnexpectedResponseData (actual : Z)
| InvalidResponseLength (response : CommandResponseKind) (expected actual : Z)
| MisalignedIdentityList (actual record_size : Z)
| IdentityListExceedsCapacity (actual capacity : Z)
| PolicyE (error : PolicyError)
| CatacombE (error : Catacomb.CatacombError).

(** ** Packets *)

Definition command_with_sensitive_value_and_payload (code : CommandCode) (value : Z)
    (payload : bytes) (response_capacity : Z) (wipe_on_drop : bool) : CommandPacket :=
  mkPacket (command_header_encode (with_parameters code 1 value) ++ payload)
           response_capacity wipe_on_drop.

Definition command_with_value_and_payload (code : CommandCode) (value : Z) (payload : bytes)
    (response_capacity : Z) : CommandPacket :=
  command_with_sensitive_value_and_payload code value payload response_capacity false.

Definition command_with_sensitive_payload (code : CommandCode) (payload : bytes)
    (response_capacity : Z) (wipe_on_drop : bool) : CommandPacket :=
  command_with_sensitive_value_and_payload code 0 payload response_capacity wipe_on_drop.

Definition secret_command_with_payload (code : CommandCode) (payload : bytes)
    (response_capacity : Z) : CommandPacket :=
  command_with_sensitive_payload code payload response_capacity true.

Definition command_with_payload (code : CommandCode) (payload : bytes) (response_capacity : Z)
    : CommandPacket :=
  command_with_sensitive_payload code payload response_capacity false.

Definition command (code : CommandCode) (response_capacity : Z) : CommandPacket :=
  command_with_payload code [] response_capacity.

Definition user_command (code : CommandCode) (user_id response_capacity : Z) : CommandPacket :=
  command_with_payload code (le_bytes 4 user_id) response_capacity.

Definition active_user_wire_value (user_id : Z) : res CommandError Z :=
  if user_id =? -1 then Ok (umax 32)
  else map_err PolicyE (user_id_new user_id).

Definition catacomb_user_command (code : CommandCode) (user_id response_capacity : Z)
    : res CommandError CommandPacket :=
  let! raw_user := active_user_wire_value user_id in
  Ok (user_command code raw_user response_capacity).

(** ** The commands *)

Definition calibration_status_command : CommandPacket :=
  command GET_CALIBRATION_STATUS BOOLEAN_RESPONSE_CAPACITY.
Definition xart_available_command : CommandPacket :=
  command IS_XART_AVAILABLE BOOLEAN_RESPONSE_CAPACITY.
Definition module_serial_command : CommandPacket :=
  command GET_MODULE_SERIAL_NUMBER (Z.of_nat MODULE_SERIAL_NUMBER_SIZE).
Definition daemon_info_command : CommandPacket :=
  command GET_DAEMON_INFO (Z.of_nat DAEMON_INFO_SIZE).

Definition load_calibration_command (source : CalibrationSource) (calibration : bytes)
    : res CommandError CommandPacket :=
  if MAX_CALIBRATION_DATA_SIZE <? len calibration
  then Err (CalibrationDataTooLarge (len calibration) MAX_CALIBRATION_DATA_SIZE)
  else Ok (command_with_value_and_payload LOAD_CALIBRATION (calibration_source_value source)
             calibration EMPTY_RESPONSE_CAPACITY).

Definition reset_sensor_command : CommandPacket := command RESET EMPTY_RESPONSE_CAPACITY.
Definition sks_lock_state_command (user_id : BiometricUserId) : CommandPacket :=
  user_command GET_SKS_LOCK_STATE user_id (Z.of_nat SKS_LOCK_STATE_RESPONSE_SIZE).
Definition system_configuration_command : CommandPacket :=
  command GET_SYSTEM_PROTECTED_CONFIGURATION (Z.of_nat SYSTEM_CONFIGURATION_SIZE).

Definition set_system_configuration_command (target : SystemPolicyTarget)
    (credential_set : option bytes) : res CommandError CommandPacket :=
  let! update := map_err PolicyE (encode_system_update target credential_set) in
  Ok (command_with_sensitive_payload SET_SYSTEM_PROTECTED_CONFIGURATION update
        EMPTY_RESPONSE_CAPACITY (bool_decide (is_Some credential_set))).

Definition user_configuration_command (user_id : BiometricUserId) : CommandPacket :=
  user_command GET_USER_PROTECTED_CONFIGURATION user_id (Z.of_nat USER_CONFIGURATION_SIZE).

Definition set_user_configuration_command (user_id : BiometricUserId) (requested : list Z)
    (credential_set : option bytes) : res CommandError CommandPacket :=
  let! update := map_err PolicyE (encode_user_update user_id requested credential_set) in
  Ok (command_with_sensitive_payload SET_USER_PROTECTED_CONFIGURATION update
        EMPTY_RESPONSE_CAPACITY (bool_decide (is_Some credential_set))).

Definition identities_command (user_id : BiometricUserId) : CommandPacket :=
  user_command GET_IDENTITIES user_id (Z.of_nat IDENTITY_LIST_CAPACITY).

(** [remove_identity_command]; the descriptor is an identity record. *)
Definition remove_identity_command (identity : Mesa.Identity) : CommandPacket :=
  command_with_payload REMOVE_IDENTITY
    (le_bytes 4 (Mesa.id_user_id identity mod 2 ^ 32) ++ Mesa.identifier identity)
    EMPTY_RESPONSE_CAPACITY.

Definition set_active_user_command (user_id : Z) : res CommandError CommandPacket :=
  let! raw_user := active_user_wire_value user_id in
  Ok (user_command SET_ACTIVE_USER raw_user EMPTY_RESPONSE_CAPACITY).

Definition remove_user_command (user_id : BiometricUserId) : CommandPacket :=
  user_command REMOVE_USER user_id EMPTY_RESPONSE_CAPACITY.
Definition catacomb_id_command (user_id : BiometricUserId) : CommandPacket :=
  user_command GET_CATACOMB_ID user_id (Z.of_nat Catacomb.CATACOMB_ID_SIZE).
Definition catacomb_hash_command (user_id : BiometricUserId) : CommandPacket :=
  user_command GET_CATACOMB_HASH user_id (Z.of_nat Catacomb.CATACOMB_HASH_RESPONSE_SIZE).
Definition template_list_crc_command (user_id : BiometricUserId) : CommandPacket :=
  user_command GET_TEMPLATE_LIST_CRC user_id (Z.of_nat Catacomb.TEMPLATE_LIST_CRC_SIZE).

Definition catacomb_states_command (component_count : Z) : res CommandError CommandPacket :=
  let! capacity := map_err CatacombE (Catacomb.catacomb_state_response_capacity component_count) in
  Ok (command GET_CATACOMB_STATE capacity).

Definition secure_catacomb_size_command (user_id : Z) : res CommandError CommandPacket :=
  catacomb_user_command GET_SECURE_CATACOMB_SIZE user_id
    (Z.of_nat Catacomb.SECURE_CATACOMB_SIZE_RESPONSE_SIZE).

Definition save_secure_catacomb_command (user_id export_size : Z) : res CommandError CommandPacket :=
  let! _ := map_err CatacombE (Catacomb.validate_secure_catacomb_size export_size) in
  catacomb_user_command SAVE_SECURE_CATACOMB user_id export_size.

Definition finish_save_secure_catacomb_command (user_id : Z) : res CommandError CommandPacket :=
  catacomb_user_command FINISH_SAVE_SECURE_CATACOMB user_id EMPTY_RESPONSE_CAPACITY.

Definition load_secure_catacomb_command (data : bytes) : res CommandError CommandPacket :=
  let! catacomb := map_err CatacombE (Catacomb.validate_secure_catacomb data) in
  Ok (secret_command_with_payload LOAD_SECURE_CATACOMB catacomb EMPTY_RESPONSE_CAPACITY).

(** [start_enrollment_command]; the first word of the descriptor is zero. *)
Definition start_enrollment_command (user_id : BiometricUserId) (credential_set : option bytes)
    : res CommandError CommandPacket :=
  let! authorization := map_err PolicyE (encode_authorization credential_set) in
  let descriptor := replicate 4 0 ++ le_bytes 4 user_id ++ authorization in
  Ok (command_with_sensitive_value_and_payload START_ENROLLMENT 1 descriptor
        EMPTY_RESPONSE_CAPACITY (bool_decide (is_Some credential_set))).

Definition continue_enrollment_command : CommandPacket :=
  command CONTINUE_ENROLLMENT EMPTY_RESPONSE_CAPACITY.

(** [start_match_command]; the rest of the descriptor is zero. *)
Definition start_match_command (user_id : BiometricUserId) : CommandPacket :=
  command_with_payload START_MATCH
    (replicate 4 0 ++ le_bytes 4 user_id ++ replicate (START_MATCH_DESCRIPTOR_SIZE - 8) 0)
    EMPTY_RESPONSE_CAPACITY.

Definition cancel_operation_command : CommandPacket :=
  command CANCEL_OPERATION EMPTY_RESPONSE_CAPACITY.
Definition force_biolockout_command (user_id : BiometricUserId) : CommandPacket :=
  user_command FORCE_BIOLOCKOUT user_id EMPTY_RESPONSE_CAPACITY.

(** ** Responses *)

Definition validate_empty_response (response : bytes) : res CommandError unit :=
  match response with
  | [] => Ok tt
  | _ => Err (UnexpectedResponseData (len response))
  end.

Definition parse_sks_lock_state (response : bytes) : res CommandError Z :=
  if negb (length response =? SKS_LOCK_STATE_RESPONSE_SIZE)%nat
  then Err (InvalidResponseLength SksLockState (Z.of_nat SKS_LOCK_STATE_RESPONSE_SIZE) (len response))
  else Ok (le_val response).

Definition validate_identity_list_response (response : bytes) : res CommandError unit :=
  if negb (length response mod Mesa.IDENTITY_V1_SIZE =? 0)%nat
  then Err (MisalignedIdentityList (len response) (Z.of_nat Mesa.IDENTITY_V1_SIZE))
  else if (IDENTITY_LIST_CAPACITY <? length response)%nat
  then Err (IdentityListExceedsCapacity (len response) (Z.of_nat IDENTITY_LIST_CAPACITY))
  else Ok tt.

End Commands.
