(* ===== verification/Rpc.v ===== *)
(** * RPC envelopes and payloads ([crates/t1-bridge/src/rpc.rs])

    Requests and replies are four-element property lists. A text is its UTF-8
    bytes. *)

From S2P Require Import Prelude Text Plist Policy Biometric Mesa Commands.

Module Rpc.
Import Plist Commands.

Definition RPC_PROTOCOL_VERSION : Z := 1.
(** "d4161201-daf5-4bbd-ae4f-9bf319fabbe0". *)
Definition BRIDGEXPC_NIL : bytes :=
  [100; 52; 49; 54; 49; 50; 48; 49; 45; 100; 97; 102; 53; 45; 52; 98; 98; 100; 45; 97; 101; 52; 102;
   45; 57; 98; 102; 51; 49; 57; 102; 97; 98; 98; 101; 48].
Definition PERFORM_BIOMETRIC_COMMAND_ORDINAL : Z := 3.
Definition BIOMETRIC_BRIDGE_COMMAND : Z := 0.
Definition SET_CLIENT_VERSION_ORDINAL : Z := 1.
Definition SERVICE_STATUS_ORDINALS : list Z := [9; 10].
Definition SUCCESS : Z := 0.
Definition UNSUPPORTED_METHOD : Z := 22.
(** "0123456789ABCDEF". *)
Definition UUID_HEX : bytes := [48; 49; 50; 51; 52; 53; 54; 55; 56; 57; 65; 66; 67; 68; 69; 70].

Definition RequestId : Type := bytes.

Module BridgeCalibrationSource.
Inductive t : Type := Eeprom | Fdr.
Definition ordinal (s : t) : Z := match s with Eeprom => 5 | Fdr => 11 end.
End BridgeCalibrationSource.

Inductive RpcError : Type :=
| BinaryPlist (error : Error)
| InvalidRequestId
| InvalidEnvelope
| UnsupportedProtocolVersion
| InvalidRawDictionary
| InvalidBiometricResult
| BiometricStatusOutOfRange
| BiometricCommandFailed (status command : Z)
| InvalidClientVersionResult
| InvalidCalibrationResult (source : BridgeCalibrationSource.t)
| EmptyCalibration (source : BridgeCalibrationSource.t)
| CalibrationTooLarge (source : BridgeCalibrationSource.t) (actual maximum : Z)
| InvalidCallbackService
| InvalidCallbackData
| InvalidCallbackTiming.

(** [RequestId::from_uuid_v4_bytes]: the two digits of one byte, and the loop. *)
Definition uuid_digits (byte : Z) : res RpcError bytes :=
  let! high := byte_at UUID_HEX (Z.to_nat (Z.shiftr byte 4)) in
  let! low := byte_at UUID_HEX (Z.to_nat (Z.land byte 0x0f)) in
  Ok [high; low].

Fixpoint uuid_loop (index : nat) (bs : bytes) : res RpcError bytes :=
  match bs with
  | [] => Ok []
  | byte :: bs =>
      let dash := if bool_decide (index ∈ [4; 6; 8; 10]%nat) then [45] else [] in
      let! digits := uuid_digits byte in
      let! rest := uuid_loop (S index) bs in
      Ok (dash ++ digits ++ rest)
  end.

Definition from_uuid_v4_bytes (bs : bytes) : res RpcError RequestId :=
  let! b6 := byte_at bs 6 in
  let bs := <[6%nat := Z.lor (Z.land b6 0x0f) 0x40]> bs in
  let! b8 := byte_at bs 8 in
  let bs := <[8%nat := Z.lor (Z.land b8 0x3f) 0x80]> bs in
  uuid_loop 0 bs.

Definition is_hex_upper (byte : Z) : bool :=
  Biometric.is_ascii_digit byte || (65 <=? byte) && (byte <=? 70).

Definition is_canonical_byte (index : nat) (byte : Z) : bool :=
  if bool_decide (index ∈ [8; 13; 18; 23]%nat) then byte =? 45
  else is_hex_upper byte.

(** [value.bytes().enumerate().all(...)], from the index [i]. *)
Fixpoint all_canonical (i : nat) (value : bytes) : bool :=
  match value with
  | [] => true
  | b :: value => is_canonical_byte i b && all_canonical (S i) value
  end.

Definition is_canonical_request_id (value : bytes) : bool :=
  (length value =? 36)%nat && all_canonical 0 value.

(** [RequestId::parse]. *)
Definition request_id_parse (value : bytes) : res RpcError RequestId :=
  if negb (is_canonical_request_id value) then Err InvalidRequestId else Ok value.

Module RpcEnvelope.
Inductive t : Type :=
| Request (request_id : RequestId) (payload : list Value.t)
| Reply (request_id : RequestId) (result : list Value.t).
End RpcEnvelope.

(** [RpcEnvelope::matching_reply]. *)
Definition matching_reply (e : RpcEnvelope.t) (expected : RequestId) : option (list Value.t) :=
  match e with
  | RpcEnvelope.Reply request_id result =>
      if bool_decide (request_id = expected) then Some result else None
  | RpcEnvelope.Request _ _ => None
  end.

Definition integer (value : Z) : Value.t := Value.Integer value.

Definition encode_envelope (is_reply : bool) (request_id : RequestId) (payload : list Value.t)
    : res RpcError bytes :=
  map_err BinaryPlist (encode (Value.Array
    [integer RPC_PROTOCOL_VERSION; Value.Boolean is_reply; Value.String request_id; Value.Array payload])).

Definition encode_request (request_id : RequestId) (payload : list Value.t) : res RpcError bytes :=
  if negb (is_canonical_request_id request_id) then Err InvalidRequestId
  else encode_envelope false request_id payload.

Definition encode_reply (request_id : RequestId) (result : list Value.t) : res RpcError bytes :=
  encode_envelope true request_id result.

(** [decode_envelope]: the fields are popped from the last to the first. *)
Definition decode_envelope (d : bytes) : res RpcError RpcEnvelope.t :=
  let! value := map_err BinaryPlist (decode d) in
  match value with
  | Value.Array [version; is_reply; request_id; payload] =>
      match payload with
      | Value.Array payload =>
          match request_id with
          | Value.String request_id =>
              match is_reply with
              | Value.Boolean is_reply =>
                  match version with
                  | Value.Integer 1 =>
                      if is_reply : bool then Ok (RpcEnvelope.Reply request_id payload)
                      else Ok (RpcEnvelope.Request request_id payload)
                  | _ => Err UnsupportedProtocolVersion
                  end
              | _ => Err InvalidEnvelope
              end
          | _ => Err InvalidEnvelope
          end
      | _ => Err InvalidEnvelope
      end
  | _ => Err InvalidEnvelope
  end.

(** A [BTreeMap] is the list of its entries in key order. *)
Definition encode_raw_dictionary (dictionary : list (bytes * Value.t)) : res RpcError bytes :=
  map_err BinaryPlist (encode (Value.Dictionary dictionary)).

Definition decode_raw_dictionary (d : bytes) : res RpcError (list (bytes * Value.t)) :=
  let! value := map_err BinaryPlist (decode d) in
  match value with
  | Value.Dictionary dictionary => Ok dictionary
  | _ => Err InvalidRawDictionary
  end.

Definition perform_biometric_command_request (packet : CommandPacket) : list Value.t :=
  [integer PERFORM_BIOMETRIC_COMMAND_ORDINAL; integer BIOMETRIC_BRIDGE_COMMAND;
   Value.Data (request packet); Value.Integer (response_capacity packet)].

(** [i64::try_from]. *)
Definition try_from_i64 (v : Z) : option Z :=
  if (- 2 ^ 63 <=? v) && (v <? 2 ^ 63) then Some v else None.

(** The code of a packet's header. *)
Definition packet_command (packet : CommandPacket) : Z :=
  if (4 <=? length (request packet))%nat then le_val (take 2 (drop 2 (request packet))) else 0.

Definition parse_biometric_command_result (packet : CommandPacket) (result : list Value.t)
    : res RpcError bytes :=
  match result with
  | [Value.Integer status; output] =>
      let! status := ok_or (try_from_i64 status) BiometricStatusOutOfRange in
      if negb (status =? 0) then Err (BiometricCommandFailed status (packet_command packet))
      else
        match output with
        | Value.String value =>
            if bool_decide (value = BRIDGEXPC_NIL) then Ok [] else Err InvalidBiometricResult
        | Value.Data d => Ok d
        | _ => Err InvalidBiometricResult
        end
  | _ => Err InvalidBiometricResult
  end.

Definition set_client_version_request (version : Z) : list Value.t :=
  [integer SET_CLIENT_VERSION_ORDINAL; integer version].

Definition validate_set_client_version_result (result : list Value.t) : res RpcError unit :=
  match result with
  | [Value.Integer 0; Value.Boolean true] => Ok tt
  | _ => Err InvalidClientVersionResult
  end.

Definition calibration_request (source : BridgeCalibrationSource.t) : list Value.t :=
  [Value.Integer (BridgeCalibrationSource.ordinal source)].

Definition parse_calibration_result (source : BridgeCalibrationSource.t) (result : list Value.t)
    : res RpcError (option bytes) :=
  match result with
  | [Value.String value] =>
      if bool_decide (value = BRIDGEXPC_NIL) then Ok None else Err (InvalidCalibrationResult source)
  | [Value.Data d] =>
      if len d =? 0 then Err (EmptyCalibration source)
      else if MAX_CALIBRATION_DATA_SIZE <? len d
      then Err (CalibrationTooLarge source (len d) MAX_CALIBRATION_DATA_SIZE)
      else Ok (Some d)
  | _ => Err (InvalidCalibrationResult source)
  end.

Record InboundRequestResult : Type := mkInbound {
  reply : list Value.t;
  service_event : option Mesa.ServiceStatusEvent;
}.

Definition unsupported_request : InboundRequestResult :=
  mkInbound [Value.Integer UNSUPPORTED_METHOD] None.

(** The callback of [handle_inbound_request]. *)
Definition service_callback (service data reference_timestamp continuous_time_delta : Value.t)
    : res RpcError InboundRequestResult :=
  let! service :=
    match service with
    | Value.Integer service => ok_or (try_from_u 32 service) InvalidCallbackService
    | _ => Err InvalidCallbackService
    end in
  let! data :=
    match data with
    | Value.String value =>
        if bool_decide (value = BRIDGEXPC_NIL) then Ok [] else Err InvalidCallbackData
    | Value.Data d => Ok d
    | _ => Err InvalidCallbackData
    end in
  match reference_timestamp, continuous_time_delta with
  | Value.Integer reference_timestamp, Value.Integer continuous_time_delta =>
      let! reference_timestamp := ok_or (try_from_u 64 reference_timestamp) InvalidCallbackTiming in
      let! continuous_time_delta := ok_or (try_from_u 64 continuous_time_delta) InvalidCallbackTiming in
      Ok (mkInbound [Value.Integer SUCCESS]
            (Some (Mesa.mkEvent service data reference_timestamp continuous_time_delta)))
  | _, _ => Err InvalidCallbackTiming
  end.

Definition handle_inbound_request (payload : list Value.t) : res RpcError InboundRequestResult :=
  match payload with
  | [Value.Integer ordinal; service; data; reference_timestamp; continuous_time_delta] =>
      match try_from_u 64 ordinal with
      | None => Ok unsupported_request
      | Some ordinal =>
          if negb (bool_decide (ordinal ∈ SERVICE_STATUS_ORDINALS)) then Ok unsupported_request
          else service_callback service data reference_timestamp continuous_time_delta
      end
  | _ => Ok unsupported_request
  end.

(** ** Envelopes *)

(** The value fits its Rust type. *)
Definition envelope_wf (id : RequestId) (payload : list Value.t) : Prop :=
  text_wf id /\ value_wf (Value.Array payload).

Lemma decode_encode_envelope b id payload bs :
  envelope_wf id payload -> encode_envelope b id payload = Ok bs ->
  decode_envelope bs = Ok (if b then RpcEnvelope.Reply id payload else RpcEnvelope.Request id payload).
Proof.
  intros [Hid Hp] He. apply map_err_Ok in He. apply encode_decode in He.
  - unfold decode_envelope. rewrite He. cbn. by destruct b.
  - cbn in *. tauto.
Qed.

(** A request and a reply are read back by the peer as they were made: the same
    kind, the same identifier (whatever text it is, in a reply) and the same values. *)
Theorem envelope_roundtrip id payload bs :
  envelope_wf id payload ->
  (encode_request id payload = Ok bs -> decode_envelope bs = Ok (RpcEnvelope.Request id payload)) /\
  (encode_reply id payload = Ok bs -> decode_envelope bs = Ok (RpcEnvelope.Reply id payload)).
Proof.
  intros Hwf. unfold encode_request, encode_reply. split.
  - destruct (negb _); [done|]. by apply (decode_encode_envelope false).
  - by apply (decode_encode_envelope true).
Qed.

Definition ex_id : bytes := match from_uuid_v4_bytes (replicate 16 0xab) with Ok id => id | _ => [] end.

Lemma envelope_roundtrip_witness :
  exists bs, encode_request ex_id [Value.Integer 9; Value.Data [1; 2]] = Ok bs /\
    decode_envelope bs = Ok (RpcEnvelope.Request ex_id [Value.Integer 9; Value.Data [1; 2]]).
Proof.
  eexists. split; [vm_compute; reflexivity|]. apply envelope_roundtrip; [|vm_compute; reflexivity].
  split; [split; [apply (bool_decide_unpack _); vm_compute; exact I|vm_compute; reflexivity]|].
  cbn. split; [done|]. split; [|done]. apply (bool_decide_unpack _). vm_compute. exact I.
Defined.

(** ** Identifiers *)

Lemma uuid_digits_canonical byte :
  is_u 8 byte -> exists h l, uuid_digits byte = Ok [h; l] /\
    is_hex_upper h = true /\ is_hex_upper l = true.
Proof.
  intros Hb.
  assert (match uuid_digits byte with
          | Ok [h; l] => is_hex_upper h && is_hex_upper l | _ => false end = true) as Hc
    by (revert byte Hb; apply byte_forall; vm_compute; reflexivity).
  destruct (uuid_digits byte) as [[|h [|l [|]]]| |]; try done. exists h, l. by apply andb_true_iff in Hc.
Qed.
Lemma masked_byte b lo hi : is_u 8 b -> is_u 8 lo -> is_u 8 hi -> is_u 8 (Z.lor (Z.land b lo) hi).
Proof.
  intros Hb Hlo Hhi. unfold is_u in *. split; [apply Z.lor_nonneg; split; [apply Z.land_nonneg|]; lia|].
  destruct (decide (Z.lor (Z.land b lo) hi = 0)) as [->|]; [lia|].
  apply Z.log2_lt_pow2; [pose proof (Z.lor_nonneg (Z.land b lo) hi); pose proof (Z.land_nonneg b lo); lia|].
  rewrite Z.log2_lor by (try apply Z.land_nonneg; lia). apply Z.max_lub_lt.
  - eapply Z.le_lt_trans; [apply Z.log2_land; lia|]. apply Z.min_lt_iff. left.
    destruct (decide (b = 0)) as [->|]; [done|]. apply Z.log2_lt_pow2; lia.
  - destruct (decide (hi = 0)) as [->|]; [done|]. apply Z.log2_lt_pow2; lia.
Qed.

Lemma version_digit b : is_u 8 b -> exists l, uuid_digits (Z.lor (Z.land b 0x0f) 0x40) = Ok [52; l].
Proof.
  intros Hb.
  assert (match uuid_digits (Z.lor (Z.land b 0x0f) 0x40) with Ok [h; l] => h =? 52 | _ => false end = true) as Hc
    by (revert b Hb; apply byte_forall; vm_compute; reflexivity).
  destruct (uuid_digits _) as [[|h [|l [|]]]| |]; try done. b2p. subst. by exists l.
Qed.

Lemma variant_digit b :
  is_u 8 b -> exists h l, uuid_digits (Z.lor (Z.land b 0x3f) 0x80) = Ok [h; l] /\ h ∈ [56; 57; 65; 66].
Proof.
  intros Hb.
  assert (match uuid_digits (Z.lor (Z.land b 0x3f) 0x80) with
          | Ok [h; l] => bool_decide (h ∈ [56; 57; 65; 66]) | _ => false end = true) as Hc
    by (revert b Hb; apply byte_forall; vm_compute; reflexivity).
  destruct (uuid_digits _) as [[|h [|l [|]]]| |]; try done. b2p. by exists h, l.
Qed.

(** Sixteen random bytes always give an identifier, one that the strict parser
    takes, with the version digit 4 and a variant digit 8, 9, A or B. *)
Theorem uuid_canonical bs :
  bytes_ok bs -> length bs = 16%nat ->
  exists id, from_uuid_v4_bytes bs = Ok id /\ request_id_parse id = Ok id /\
    id !! 14%nat = Some 52 /\ exists v, id !! 19%nat = Some v /\ v ∈ [56; 57; 65; 66].
Proof.
  intros Hok Hl. do 16 (destruct bs as [|? bs]; [done|]). destruct bs; [|done].
  repeat match goal with H : bytes_ok (_ :: _) |- _ => apply bytes_ok_cons in H as [? H] end.
  unfold from_uuid_v4_bytes, byte_at. cbn -[Z.lor Z.land uuid_loop uuid_digits].

  match goal with |- context [Z.lor (Z.land ?b 0x0f) 0x40] =>
    destruct (version_digit b ltac:(done)) as [l6 V6];
    destruct (uuid_digits_canonical (Z.lor (Z.land b 0x0f) 0x40)) as (h6' & l6' & V6' & ? & ?);
      [by apply masked_byte|] end.
  match goal with |- context [Z.lor (Z.land ?b 0x3f) 0x80] =>
    destruct (variant_digit b ltac:(done)) as (h8 & l8 & V8 & Hv);
    destruct (uuid_digits_canonical (Z.lor (Z.land b 0x3f) 0x80)) as (h8' & l8' & V8' & ? & ?);
      [by apply masked_byte|] end.
  rewrite V6 in V6'. rewrite V8 in V8'. simplify_eq. cbn [uuid_loop]. rewrite V6, V8.
  repeat match goal with |- context [uuid_digits ?b] =>
    let Hd := fresh "Hd" in
    destruct (uuid_digits_canonical b ltac:(done)) as (? & ? & Hd & ? & ?); rewrite Hd; clear Hd end.
  repeat match goal with |- context [bool_decide ?P] => let b := eval vm_compute in (bool_decide P) in
    change (bool_decide P) with b end.
  cbn [app]. eexists. split; [reflexivity|]. split; [|split; [reflexivity|eexists; split; [reflexivity|done]]].
  unfold request_id_parse, is_canonical_request_id. cbn [length Nat.eqb all_canonical andb].
  repeat match goal with
  | |- context [is_canonical_byte ?i 45] => change (is_canonical_byte i 45) with true
  | |- context [is_canonical_byte ?i ?b] => change (is_canonical_byte i b) with (is_hex_upper b)
  | Hh : is_hex_upper ?b = true |- context [is_hex_upper ?b] => rewrite Hh
  end.
  done.
Qed.

Lemma uuid_canonical_witness :
  exists id, from_uuid_v4_bytes (Z.of_nat <$> seq 240 16) = Ok id /\ request_id_parse id = Ok id.
Proof.
  destruct (uuid_canonical (Z.of_nat <$> seq 240 16)) as (id & Hid & Hp & _).
  - apply (bool_decide_unpack _). vm_compute. exact I.
  - reflexivity.
  - exists id. split; [exact Hid|exact Hp].
Defined.

End Rpc.
