(* ===== verification/Control.v ===== *)
(** * The control plane ([crates/t1-bridge/src/control.rs])

    A biometric transport sends one command and returns its response. The
    workflows are written against this interface, whatever implements it; what
    they do to it is the list of the commands they send. *)

From S2P Require Import Prelude Effects Biometric Calibration Commands.

(** The trait [BiometricTransport], for the state [T] and the errors [E]. *)
Class BiometricTransport (T E : Type) : Type :=
  execute : Commands.CommandPacket -> M T E bytes.

(** The transport after the commands [ps], and its response to the last one. *)
Definition after {T E} `{BiometricTransport T E} (t : T) (ps : list Commands.CommandPacket) : T :=
  fold_left (fun t p => snd (execute p t)) ps t.

Definition response {T E} `{BiometricTransport T E} (t : T) (ps : list Commands.CommandPacket)
    (p : Commands.CommandPacket) : res E bytes := fst (execute p (after t ps)).

Section After.
Context {T E : Type} `{BiometricTransport T E}.

Lemma after_snoc t ps p : after t (ps ++ [p]) = snd (execute p (after t ps)).
Proof. unfold after. by rewrite fold_left_app. Qed.

Lemma after_app t ps qs : after t (ps ++ qs) = after (after t ps) qs.
Proof. unfold after. by rewrite fold_left_app. Qed.

Lemma execute_response t ps p : execute p (after t ps) = (response t ps p, after t (ps ++ [p])).
Proof. rewrite after_snoc. unfold response. by destruct (execute p (after t ps)). Qed.

End After.

(** ** Reasoning about the commands a workflow sends *)

(** Run on the transport [t] that got the commands [ps], [m] leaves it with the
    commands [qs] in all, and [Q] holds of its result and of [qs]. *)
Definition runs {T E F A} `{BiometricTransport T E} (t : T) (ps : list Commands.CommandPacket)
    (m : M T F A) (Q : res F A -> list Commands.CommandPacket -> Prop) : Prop :=
  exists qs, snd (m (after t ps)) = after t qs /\ Q (fst (m (after t ps))) qs.

Section Runs.
Context {T E : Type} `{BiometricTransport T E}.

Lemma runs_lift {F A} t ps (r : res F A) Q : Q r ps -> runs t ps (lift r) Q.
Proof. intros HQ. by exists ps. Qed.

Lemma runs_ret {F A} t ps (a : A) Q : Q (Ok (E := F) a) ps -> runs t ps (ret a) Q.
Proof. intros HQ. by exists ps. Qed.

Lemma runs_execute t ps p Q : Q (response t ps p) (ps ++ [p]) -> runs t ps (execute p) Q.
Proof. intros HQ. exists (ps ++ [p]). by rewrite execute_response. Qed.

Lemma runs_map_err {F G A} (f : F -> G) t ps (m : M T F A) Q :
  runs t ps m (fun r qs => Q (map_err f r) qs) -> runs t ps (mapM_err f m) Q.
Proof.
  intros (qs & Hqs & HQ). exists qs. unfold mapM_err. by destruct (m (after t ps)) as [r t'].
Qed.

Lemma runs_bind {F A B} t ps (m : M T F A) (k : A -> M T F B) Q :
  runs t ps m (fun r qs =>
    match r with
    | Ok a => runs t qs (k a) Q
    | Err e => Q (Err e) qs
    | Panic => Q Panic qs
    end) -> runs t ps (bind m k) Q.
Proof.
  intros (qs & Hqs & HQ). unfold runs, bind. destruct (m (after t ps)) as [[a|e|] t']; cbn [fst snd] in *;
    subst t'; [done|by exists qs..].
Qed.

Lemma runs_mono {F A} t ps (m : M T F A) (Q Q' : res F A -> list Commands.CommandPacket -> Prop) :
  runs t ps m Q -> (forall r qs, Q r qs -> Q' r qs) -> runs t ps m Q'.
Proof. intros (qs & Hqs & HQ) Hi. exists qs. auto. Qed.

(** From a run on a fresh transport to its result. *)
Lemma runs_start {F A} t (m : M T F A) Q r t' :
  runs t [] m Q -> m t = (r, t') -> exists qs, t' = after t qs /\ Q r qs.
Proof. intros (qs & Hqs & HQ) Hm. change (after t []) with t in *. rewrite Hm in *. eauto. Qed.

End Runs.

(** One step of a goal [runs]. *)
Ltac run_step :=
  lazymatch goal with
  | |- runs _ _ (bind _ _) _ => apply runs_bind
  | |- runs _ _ (mapM_err _ _) _ => apply runs_map_err
  | |- runs _ _ (lift _) _ => apply runs_lift
  | |- runs _ _ (ret _) _ => apply runs_ret
  | |- runs _ _ (execute _) _ => apply runs_execute
  end.

(** A transport that answers from a script, for concrete runs. *)
#[global] Instance scripted : BiometricTransport (list (res Z bytes)) Z :=
  fun _ script =>
    match script with
    | [] => (Err 0, [])
    | r :: script => (r, script)
    end.

Module Control.
Import Biometric Commands.

Record CalibrationLoad : Type := mkLoad { record_size : Z; already_loaded : bool }.

Inductive ControlError (E : Type) : Type :=
| Transport (error : E)
| CommandE (error : CommandError)
| ResponseE (error : ResponseError)
| CalibrationE (error : Calibration.CalibrationError)
| CalibrationNotLoaded.
Arguments Transport {E} error.
Arguments CommandE {E} error.
Arguments ResponseE {E} error.
Arguments CalibrationE {E} error.
Arguments CalibrationNotLoaded {E}.

Section Operations.
Context {T E : Type} `{BiometricTransport T E}.

Definition control_execute (packet : CommandPacket) : M T (ControlError E) bytes :=
  mapM_err Transport (execute packet).

Definition read_module_serial : M T (ControlError E) ModuleSerial :=
  do! response := control_execute module_serial_command in
  lift (map_err ResponseE (parse_module_serial response)).

Definition read_daemon_info : M T (ControlError E) DaemonInfo :=
  do! response := control_execute daemon_info_command in
  lift (map_err ResponseE (parse_daemon_info response)).

Definition ensure_fdr_calibration_loaded (record : bytes) : M T (ControlError E) CalibrationLoad :=
  do! module_serial := read_module_serial in
  do! _ := lift (map_err CalibrationE
             (Calibration.validate_fdr_calibration_record record module_serial)) in
  do! initial_info := read_daemon_info in
  do! _ :=
    if negb (calibration_data_loaded initial_info) then
      do! load := lift (map_err CommandE (load_calibration_command Fdr record)) in
      do! response := control_execute load in
      lift (map_err CommandE (validate_empty_response response))
    else ret tt in
  do! info := read_daemon_info in
  if negb (calibration_data_loaded info) then lift (Err CalibrationNotLoaded)
  else ret (mkLoad (len record) (calibration_data_loaded initial_info)).

End Operations.

(** ** Loading the calibration *)

Section Theorems.
Context {T E : Type} `{BiometricTransport T E}.

(** The answer to the daemon-info command says whether calibration is loaded. *)
Definition reports_loaded (r : res E bytes) (b : bool) : Prop :=
  exists bs info, r = Ok bs /\ parse_daemon_info bs = Ok info /\ calibration_data_loaded info = b.

Lemma read_module_serial_runs t ps Q :
  (forall serial, (exists bs, response t ps module_serial_command = Ok bs /\
     parse_module_serial bs = Ok serial) -> Q (Ok serial) (ps ++ [module_serial_command])) ->
  (forall e, Q (Err e) (ps ++ [module_serial_command])) -> Q Panic (ps ++ [module_serial_command]) ->
  runs t ps read_module_serial Q.
Proof.
  intros HO HE HP. unfold read_module_serial, control_execute. do 3 run_step.
  destruct (response t ps module_serial_command) as [bs|e|] eqn:Hr; cbn [map_err]; [|done..]. run_step.
  destruct (parse_module_serial bs) as [x|e|] eqn:Hx; cbn [map_err]; [|done..]. apply HO. eauto.
Qed.

Lemma read_daemon_info_runs t ps Q :
  (forall info, (exists bs, response t ps daemon_info_command = Ok bs /\
     parse_daemon_info bs = Ok info) -> Q (Ok info) (ps ++ [daemon_info_command])) ->
  (forall e, Q (Err e) (ps ++ [daemon_info_command])) -> Q Panic (ps ++ [daemon_info_command]) ->
  runs t ps read_daemon_info Q.
Proof.
  intros HO HE HP. unfold read_daemon_info, control_execute. do 3 run_step.
  destruct (response t ps daemon_info_command) as [bs|e|] eqn:Hr; cbn [map_err]; [|done..]. run_step.
  destruct (parse_daemon_info bs) as [x|e|] eqn:Hx; cbn [map_err]; [|done..]. apply HO. eauto.
Qed.

(** What a run of [ensure_fdr_calibration_loaded] sends: nothing but reads, or the
    whole record once, between two reads of the daemon's flag, after the record was
    validated against the serial the module reported. *)
Definition calibration_log (t : T) (record : bytes) (r : res (ControlError E) CalibrationLoad)
    (log : list CommandPacket) : Prop :=
  match r with
  | Ok l =>
      record_size l = len record /\
      exists bs serial blob, response t [] module_serial_command = Ok bs /\
        parse_module_serial bs = Ok serial /\
        Calibration.validate_fdr_calibration_record record serial = Ok blob /\
        reports_loaded (response t [module_serial_command] daemon_info_command) (already_loaded l) /\
        if already_loaded l
        then log = [module_serial_command; daemon_info_command; daemon_info_command] /\
          reports_loaded (response t [module_serial_command; daemon_info_command] daemon_info_command) true
        else exists load, load_calibration_command Fdr record = Ok load /\
          log = [module_serial_command; daemon_info_command; load; daemon_info_command] /\
          response t [module_serial_command; daemon_info_command] load = Ok [] /\
          reports_loaded (response t [module_serial_command; daemon_info_command; load]
            daemon_info_command) true
  | _ =>
      forall load, load ∈ log -> load = module_serial_command \/ load = daemon_info_command \/
        (load_calibration_command Fdr record = Ok load /\
         exists bs serial blob, response t [] module_serial_command = Ok bs /\
           parse_module_serial bs = Ok serial /\
           Calibration.validate_fdr_calibration_record record serial = Ok blob)
  end.

(** The calibration is loaded from a validated record only, at most once and
    only when the daemon reports none, and success means that the daemon then
    reports it loaded. *)
Theorem calibration_load_exact (t : T) record r t' :
  ensure_fdr_calibration_loaded record t = (r, t') ->
  exists log, t' = after t log /\ calibration_log t record r log.
Proof.
  apply runs_start. unfold ensure_fdr_calibration_loaded. run_step.
  apply read_module_serial_runs.
  2-3: cbn; intros; set_solver.
  intros serial (bs & Hbs & Hser). do 2 run_step.
  destruct (Calibration.validate_fdr_calibration_record record serial) as [blob|e|] eqn:Hv; cbn [map_err app];
    [|cbn; intros; set_solver..].
  run_step. apply read_daemon_info_runs.
  2-3: cbn; intros; set_solver.
  intros info (ibs & Hibs & Hinfo). run_step. cbn [app].
  destruct (calibration_data_loaded info) eqn:Hloaded; cbn [negb].
  - run_step. run_step. apply read_daemon_info_runs.
    2-3: cbn; intros; set_solver.
    intros info' (ibs' & Hibs' & Hinfo'). destruct (calibration_data_loaded info') eqn:Hl'; cbn [negb]; run_step.
    + split; [done|]. exists bs, serial, blob. split_and!; try done; cbn [already_loaded].
      * by exists ibs, info.
      * split; [done|]. by exists ibs', info'.
    + cbn. intros. set_solver.
  - do 2 run_step. destruct (load_calibration_command Fdr record) as [load|e|] eqn:Hload; cbn [map_err];
      [|cbn; intros; set_solver..].
    unfold control_execute. do 3 run_step. cbn [app].
    destruct (response t [module_serial_command; daemon_info_command] load) as [lbs|e|] eqn:Hlbs; cbn [map_err];
      [|cbn; intros; set_solver..].
    run_step. destruct (validate_empty_response lbs) as [x|e|] eqn:Hempty; cbn [map_err];
      [|cbn; intros; set_solver..].
    run_step. apply read_daemon_info_runs; [|cbn; intros; set_solver..]. cbn [app].
    intros info' (ibs' & Hibs' & Hinfo'). destruct (calibration_data_loaded info') eqn:Hl'; cbn [negb]; run_step.
    + split; [done|]. exists bs, serial, blob. split_and!; try done; cbn [already_loaded].
      * by exists ibs, info.
      * exists load. destruct lbs; [|done]. split_and!; [done..|]. by exists ibs', info'.
    + cbn. intros. set_solver.
Qed.

End Theorems.

(** A daemon that has no calibration and takes the record. *)
Definition ex_info (flag : Z) : bytes := replicate 22 0 ++ [flag].
Definition ex_daemon : list (res Z bytes) :=
  [Ok Calibration.ex_serial; Ok (ex_info 0); Ok []; Ok (ex_info 1)].

Lemma calibration_load_exact_witness :
  exists log, ensure_fdr_calibration_loaded Calibration.ex_record ex_daemon
    = (Ok (mkLoad (len Calibration.ex_record) false), after (E := Z) ex_daemon log) /\
  calibration_log ex_daemon Calibration.ex_record (Ok (mkLoad (len Calibration.ex_record) false)) log.
Proof.
  assert (ensure_fdr_calibration_loaded (E := Z) Calibration.ex_record ex_daemon
    = (Ok (mkLoad (len Calibration.ex_record) false), [])) as H by (vm_compute; reflexivity).
  destruct (calibration_load_exact (E := Z) ex_daemon Calibration.ex_record _ _ H) as (log & Ht & Hlog).
  exists log. split; [by rewrite <- Ht|exact Hlog].
Defined.

End Control.
