(* ===== verification/Session.v ===== *)
(** * BridgeXPC sessions ([crates/t1-bridge/src/session.rs], and the session
    transport of [control.rs])

    The HELLO exchange, synchronous calls that acknowledge the peer's callbacks
    meanwhile, raw dictionary exchanges, and the biometric transport over a
    session. A session's state is its stream and its queue of events. *)

From S2P Require Import Prelude Effects Text Framing Plist PlistLimits Policy Biometric Mesa Commands Control Hello Transport Rpc.

Module Session.
Import Framing Plist Commands Transport Rpc.

Inductive SessionError : Type :=
| TransportE (error : TransportError)
| HelloE (error : Hello.HelloError)
| RpcE (error : RpcError)
| ExpectedHello (actual : Z)
| UnsolicitedReply.

Inductive RawDictionaryError : Type :=
| RawTransport (error : TransportError)
| RawRpc (error : RpcError).

Record BridgeXpcSession : Type := mkSession {
  transport : Stream;
  service_events : list Mesa.ServiceStatusEvent;
}.

Section Operations.
Context `{Allocator}.

(** Code on the stream, as code on the session. *)
Definition on_stream {E F A} (f : E -> F) (m : M Stream E A) : M BridgeXpcSession F A := fun s =>
  let (r, t) := m (transport s) in (map_err f r, mkSession t (service_events s)).

(** [BridgeXpcSession::connect]; the stream it leaves is that of the session. *)
Definition connect (process_name : bytes) : M Stream SessionError BridgeXpcSession :=
  do! peer_hello := mapM_err TransportE receive_frame in
  if negb (message_type peer_hello =? FRAME_HELLO)
  then lift (Err (ExpectedHello (message_type peer_hello)))
  else
    do! _ := lift (map_err HelloE (Hello.validate_peer_hello (body peer_hello))) in
    do! hello_body := lift (map_err HelloE (Hello.encode_hello process_name)) in
    do! hello := lift (map_err (fun e => TransportE (FrameE e)) (frame_new FRAME_HELLO hello_body)) in
    do! _ := mapM_err TransportE (send_frame hello) in
    fun t => (Ok (mkSession t []), t).

Definition send_plist (bs : bytes) : M BridgeXpcSession SessionError unit :=
  do! frame := lift (map_err (fun e => TransportE (FrameE e)) (frame_new FRAME_BINARY_PLIST bs)) in
  on_stream TransportE (send_frame frame).

Definition acknowledge_request (request_id : RequestId) (payload : list Value.t)
    : M BridgeXpcSession SessionError unit :=
  do! handled := lift (map_err RpcE (handle_inbound_request payload)) in
  do! bs := lift (map_err RpcE (encode_reply request_id (reply handled))) in
  do! _ := send_plist bs in
  fun s =>
    match service_event handled with
    | Some event => (Ok tt, mkSession (transport s) (service_events s ++ [event]))
    | None => (Ok tt, s)
    end.

(** The loop of [call]. Every frame takes bytes of the stream, so that their number
    is fuel enough. *)
Fixpoint call_loop (fuel : nat) (request_id : RequestId)
    : M BridgeXpcSession SessionError (list Value.t) :=
  match fuel with
  | O => lift Panic
  | S fuel =>
      do! frame := on_stream TransportE receive_frame in
      if negb (message_type frame =? FRAME_BINARY_PLIST) then call_loop fuel request_id
      else
        do! envelope := lift (map_err RpcE (decode_envelope (body frame))) in
        match envelope with
        | RpcEnvelope.Reply response_id result =>
            if bool_decide (response_id = request_id) then ret result else call_loop fuel request_id
        | RpcEnvelope.Request inbound_id payload =>
            do! _ := acknowledge_request inbound_id payload in
            call_loop fuel request_id
        end
  end.

Definition stream_fuel (s : BridgeXpcSession) : nat := S (length (fst (delivers (transport s)))).

Definition call (request_id : RequestId) (payload : list Value.t)
    : M BridgeXpcSession SessionError (list Value.t) :=
  do! bs := lift (map_err RpcE (encode_request request_id payload)) in
  do! _ := send_plist bs in
  fun s => call_loop (stream_fuel s) request_id s.

Fixpoint raw_loop (fuel : nat) : M BridgeXpcSession RawDictionaryError (list (bytes * Value.t)) :=
  match fuel with
  | O => lift Panic
  | S fuel =>
      do! frame := on_stream RawTransport receive_frame in
      if message_type frame =? FRAME_BINARY_PLIST
      then lift (map_err RawRpc (decode_raw_dictionary (body frame)))
      else raw_loop fuel
  end.

Definition call_raw_dictionary (request : list (bytes * Value.t))
    : M BridgeXpcSession RawDictionaryError (list (bytes * Value.t)) :=
  do! bs := lift (map_err RawRpc (encode_raw_dictionary request)) in
  do! frame := lift (map_err (fun e => RawTransport (FrameE e)) (frame_new FRAME_BINARY_PLIST bs)) in
  do! _ := on_stream RawTransport (send_frame frame) in
  fun s => raw_loop (stream_fuel s) s.

Definition service_inbound_request : M BridgeXpcSession SessionError (option Mesa.ServiceStatusEvent) :=
  do! frame := on_stream TransportE receive_frame in
  if negb (message_type frame =? FRAME_BINARY_PLIST) then ret None
  else
    do! envelope := lift (map_err RpcE (decode_envelope (body frame))) in
    match envelope with
    | RpcEnvelope.Reply _ _ => lift (Err UnsolicitedReply)
    | RpcEnvelope.Request request_id payload =>
        do! handled := lift (map_err RpcE (handle_inbound_request payload)) in
        do! bs := lift (map_err RpcE (encode_reply request_id (reply handled))) in
        do! _ := send_plist bs in
        ret (service_event handled)
    end.

Definition take_service_event (s : BridgeXpcSession)
    : option Mesa.ServiceStatusEvent * BridgeXpcSession :=
  match service_events s with
  | [] => (None, s)
  | event :: rest => (Some event, mkSession (transport s) rest)
  end.

End Operations.

(** ** The biometric transport over a session ([control.rs]) *)

(** The trait [RequestIdSource]. *)
Class RequestIdSource (I : Type) : Type := next_id : I -> option RequestId * I.

(** An iterator over identifiers. *)
#[global] Instance iterator : RequestIdSource (list RequestId) :=
  fun ids => match ids with [] => (None, []) | id :: ids => (Some id, ids) end.

Inductive BridgeCommandError : Type :=
| RequestIdUnavailable
| SessionE (error : SessionError)
| CommandRpc (error : RpcError)
| ClientVersionNotSelected
| ClientVersionAlreadySelected.

Record SessionBiometricTransport (I : Type) : Type := mkTransport {
  session : BridgeXpcSession;
  request_ids : I;
  client_version_selected : bool;
}.
Arguments mkTransport {I} session request_ids client_version_selected.
Arguments session {I} _.
Arguments request_ids {I} _.
Arguments client_version_selected {I} _.

Section Biometric.
Context `{Allocator} {I : Type} `{RequestIdSource I}.

(** [SessionBiometricTransport::new] and [new_prepared]. *)
Definition transport_new (s : BridgeXpcSession) (ids : I) : SessionBiometricTransport I :=
  mkTransport s ids false.
Definition transport_new_prepared (s : BridgeXpcSession) (ids : I) : SessionBiometricTransport I :=
  mkTransport s ids true.

Definition next_request_id : M (SessionBiometricTransport I) BridgeCommandError RequestId := fun t =>
  let (id, ids) := next_id (request_ids t) in
  (ok_or id RequestIdUnavailable, mkTransport (session t) ids (client_version_selected t)).

Definition session_call (request_id : RequestId) (payload : list Value.t)
    : M (SessionBiometricTransport I) BridgeCommandError (list Value.t) := fun t =>
  let (r, s) := call request_id payload (session t) in
  (map_err SessionE r, mkTransport s (request_ids t) (client_version_selected t)).

Definition select_client_version : M (SessionBiometricTransport I) BridgeCommandError unit := fun t =>
  if client_version_selected t then (Err ClientVersionAlreadySelected, t)
  else
    (do! request_id := next_request_id in
     do! result := session_call request_id (set_client_version_request 2) in
     do! _ := lift (map_err CommandRpc (validate_set_client_version_result result)) in
     fun t => (Ok tt, mkTransport (session t) (request_ids t) true)) t.

#[global] Instance session_transport :
    BiometricTransport (SessionBiometricTransport I) BridgeCommandError := fun packet t =>
  if negb (client_version_selected t) then (Err ClientVersionNotSelected, t)
  else
    (do! request_id := next_request_id in
     do! result := session_call request_id (perform_biometric_command_request packet) in
     lift (map_err CommandRpc (parse_biometric_command_result packet result))) t.

End Biometric.
(** ** A call as seen from the frames *)

(** What a call does with one frame. *)
Inductive Verdict : Type :=
| Skip
| Ack (acknowledgement : Frame) (event : option Mesa.ServiceStatusEvent)
| Done (result : list Value.t).

Definition plist_frame (bs : bytes) : res SessionError Frame :=
  map_err (fun e => TransportE (FrameE e)) (frame_new FRAME_BINARY_PLIST bs).

Definition verdict (id : RequestId) (f : Frame) : res SessionError Verdict :=
  if negb (message_type f =? FRAME_BINARY_PLIST) then Ok Skip
  else
    let! envelope := map_err RpcE (decode_envelope (body f)) in
    match envelope with
    | RpcEnvelope.Reply response_id result =>
        if bool_decide (response_id = id) then Ok (Done result) else Ok Skip
    | RpcEnvelope.Request inbound_id payload =>
        let! handled := map_err RpcE (handle_inbound_request payload) in
        let! bs := map_err RpcE (encode_reply inbound_id (reply handled)) in
        let! ack := plist_frame bs in
        Ok (Ack ack (service_event handled))
    end.

(** What a call comes to: its result, the acknowledgements that went out whole and the part
    of one that did not, the events it queues, the frames it leaves and the results of the
    writes to come. *)
Record Exchange : Type := mkExchange {
  x_result : res SessionError (list Value.t);
  x_acks : list Frame;
  x_cut : bytes;
  x_events : list Mesa.ServiceStatusEvent;
  x_unread : list Frame;
  x_writes : list (option (nat * IoError.t));
}.

Definition acknowledged (ack : Frame) (event : option Mesa.ServiceStatusEvent) (x : Exchange) : Exchange :=
  mkExchange (x_result x) (ack :: x_acks x) (x_cut x) (option_list event ++ x_events x) (x_unread x) (x_writes x).

(** A call on a stream that offers the frames [fs] and then the error [e], and whose writes
    come to [ws]. *)
Fixpoint serve_on (id : RequestId) (fs : list Frame) (e : TransportError) (ws : list (option (nat * IoError.t)))
    : Exchange :=
  match fs with
  | [] => mkExchange (Err (TransportE e)) [] [] [] [] ws
  | f :: fs =>
      match verdict id f with
      | Ok Skip => serve_on id fs e ws
      | Ok (Ack ack event) =>
          match put ack ws with
          | (Ok _, _, ws) => acknowledged ack event (serve_on id fs e ws)
          | (Err error, cut, ws) => mkExchange (Err (TransportE error)) [] cut [] fs ws
          | (Panic, cut, ws) => mkExchange Panic [] cut [] fs ws
          end
      | Ok (Done result) => mkExchange (Ok result) [] [] [] fs ws
      | Err error => mkExchange (Err error) [] [] [] fs ws
      | Panic => mkExchange Panic [] [] [] fs ws
      end
  end.

(** A call on a stream that offers the frames [fs], then ends, and takes every write: its
    result, the acknowledgements it sends, the events it queues and the frames it leaves. *)
Definition serve (id : RequestId) (fs : list Frame)
    : res SessionError (list Value.t) * list Frame * list Mesa.ServiceStatusEvent * list Frame :=
  let x := serve_on id fs ConnectionClosed [] in (x_result x, x_acks x, x_events x, x_unread x).

Section Theorems.
Context `{Allocator} (Hreserve : forall n, 0 <= n <= MAX_FRAME_BODY_LEN -> try_reserve_exact n = true).

(** The stream of [s] delivers the frames [fs] and then ends; its writes complete. *)
Definition carries (s : Stream) (fs : list Frame) : Prop :=
  Forall sendable fs /\ delivers s = (concat (frame_bytes <$> fs), Stop.Eof) /\ write_results s = [].

Lemma frame_bytes_ok f : frame_wf f -> bytes_ok (frame_bytes f).
Proof.
  intros [_ Hb]. unfold frame_bytes. apply bytes_ok_app. split; [|done]. unfold header_encode.
  repeat (apply bytes_ok_app; split); apply le_bytes_ok.
Qed.

Lemma frames_bytes_ok fs : Forall sendable fs -> bytes_ok (concat (frame_bytes <$> fs)).
Proof.
  induction 1 as [|f fs [Hf _] _ IH]; [apply bytes_ok_nil|]. change (bytes_ok (frame_bytes f ++ concat (frame_bytes <$> fs))).
  apply bytes_ok_app. split; [by apply frame_bytes_ok|done].
Qed.

Lemma receive_carried s f fs :
  carries s (f :: fs) -> exists s', receive_frame s = (Ok f, s') /\ carries s' fs /\ outgoing s' = outgoing s.
Proof.
  intros (Hfs & Hd & Hw). apply Forall_cons in Hfs as [Hf Hfs].
  destruct (receive_frame_encoded Hreserve f (frame_bytes f) (concat (frame_bytes <$> fs)) s) as (s' & Hr & [Hw' Ho'] & Hd').
  - apply Hf.
  - by apply encode_frame_bytes.
  - by apply frames_bytes_ok.
  - by rewrite Hd.
  - exists s'. split; [done|]. split; [|done]. split; [done|]. rewrite Hd', Hd. split; [done|]. by rewrite Hw'.
Qed.

Lemma receive_closed s : carries s [] -> exists s', receive_frame s = (Err ConnectionClosed, s') /\ outgoing s' = outgoing s.
Proof.
  intros (_ & Hd & _). pose proof (receive_frame_receives s ltac:(rewrite Hd; apply bytes_ok_nil)) as [[_ Ho] Hs].
  assert (received (concat (frame_bytes <$> [])) Stop.Eof = Err ConnectionClosed) as Hr by reflexivity.
  rewrite Hd in Hs. cbn [fst snd] in Hs. rewrite Hr in Hs. destruct (receive_frame s) as [r s']. cbn [fst snd] in *.
  subst r. eauto.
Qed.

Lemma send_carried f s fs :
  carries s fs -> len (body f) <= MAX_FRAME_BODY_LEN ->
  exists s', send_frame f s = (Ok tt, s') /\ carries s' fs /\ outgoing s' = outgoing s ++ frame_bytes f.
Proof.
  intros (Hfs & Hd & Hw) Hl. rewrite send_frame_completes by done. eexists. split; [done|]. split; [|done]. done.
Qed.

End Theorems.

Section AnyStream.
Context `{Allocator}.

Lemma plist_frame_bound bs f : plist_frame bs = Ok f -> len (body f) <= MAX_FRAME_BODY_LEN.
Proof.
  unfold plist_frame, frame_new, header_new, validate_body_len. destruct (_ <? _) eqn:Hl; cbn; [done|].
  intros [= <-]. b2p. exact Hl.
Qed.

(** The session after a write. *)
Definition written (s : BridgeXpcSession) (out : bytes) (ws : list (option (nat * IoError.t))) : BridgeXpcSession :=
  mkSession (mkStream (incoming (transport s)) ws (outgoing (transport s) ++ out)) (service_events s).

Lemma send_plist_put bs s :
  match plist_frame bs with
  | Ok f => let '(r, out, ws) := put f (write_results (transport s)) in
            send_plist bs s = (map_err TransportE r, written s out ws)
  | Err e => send_plist bs s = (Err e, s)
  | Panic => False
  end.
Proof.
  destruct (plist_frame bs) as [f|e|] eqn:Hf.
  - pose proof (plist_frame_bound _ _ Hf) as Hl. pose proof (send_frame_put f (transport s) Hl) as Hs.
    unfold send_plist, bind, lift. unfold plist_frame in Hf. rewrite Hf. unfold on_stream. rewrite Hs.
    by destruct (put f (write_results (transport s))) as [[r out] ws].
  - unfold send_plist, bind, lift. unfold plist_frame in Hf. by rewrite Hf.
  - unfold plist_frame, frame_new, header_new, validate_body_len in Hf. by destruct (_ <? _).
Qed.

(** The outcome of serving the frames [fs] and then [e], from the session [s]. *)
Definition served (s : BridgeXpcSession) (e : TransportError) (x : Exchange)
    (r : res SessionError (list Value.t)) (s' : BridgeXpcSession) : Prop :=
  r = x_result x /\
  outgoing (transport s') = outgoing (transport s) ++ concat (frame_bytes <$> x_acks x) ++ x_cut x /\
  service_events s' = service_events s ++ x_events x /\
  write_results (transport s') = x_writes x /\
  (is_ok r = true -> offers (transport s') (x_unread x) e).

(** Acknowledging a request of the peer is its verdict, and the write of the
    acknowledgement. *)
Lemma acknowledge_verdict inbound_id payload id s f :
  negb (message_type f =? FRAME_BINARY_PLIST) = false ->
  decode_envelope (body f) = Ok (RpcEnvelope.Request inbound_id payload) ->
  match verdict id f with
  | Ok (Ack ack event) =>
      let '(r, out, ws) := put ack (write_results (transport s)) in
      acknowledge_request inbound_id payload s =
        match r with
        | Ok _ => (Ok tt, mkSession (transport (written s out ws)) (service_events s ++ option_list event))
        | Err e => (Err (TransportE e), written s out ws)
        | Panic => (Panic, written s out ws)
        end
  | Err e => acknowledge_request inbound_id payload s = (Err e, s)
  | Panic => acknowledge_request inbound_id payload s = (Panic, s)
  | _ => False
  end.
Proof.
  intros Hf Hd. unfold verdict, acknowledge_request, bind, lift. rewrite Hf, Hd. cbn [map_err].
  destruct (handle_inbound_request payload) as [handled|e|]; cbn [map_err]; [|done..].
  destruct (encode_reply inbound_id (reply handled)) as [bs|e|]; cbn [map_err]; [|done..].
  pose proof (send_plist_put bs s) as Hs. destruct (plist_frame bs) as [ack|e|]; [|by rewrite Hs|done].
  destruct (put ack (write_results (transport s))) as [[r out] ws]. rewrite Hs.
  destruct r as [[]|e|]; cbn [map_err]; [|done..]. destruct (service_event handled); cbn [option_list]; [done|].
  unfold written. cbn. by rewrite app_nil_r.
Qed.

Lemma call_loop_served fuel id fs e : forall s r s',
  offers (transport s) fs e -> (length (fst (delivers (transport s))) < fuel)%nat ->
  call_loop fuel id s = (r, s') -> served s e (serve_on id fs e (write_results (transport s))) r s'.
Proof.
  revert fuel. induction fs as [|f fs IH]; intros fuel s r s' Hc Hf Hr; (destruct fuel as [|fuel]; [lia|]);
    cbn [call_loop] in Hr; unfold bind at 1, on_stream in Hr.
  - destruct (receive_failed _ _ Hc) as (t & Hrf & Hw & Ho). rewrite Hrf in Hr. cbn [map_err] in Hr. simplify_eq.
    unfold served. cbn. by rewrite Ho, !app_nil_r.
  - destruct (receive_offered _ _ _ _ Hc) as (t & Hrf & Ht & [Hw Ho] & Hlt). rewrite Hrf in Hr. cbn [map_err] in Hr.
    set (s1 := mkSession t (service_events s)) in *. cbn [serve_on].
    assert (forall x, served s1 e x r s' -> served s e x r s') as Hs1 by (unfold served; cbn; by rewrite Ho).
    assert (call_loop fuel id s1 = (r, s') -> served s e (serve_on id fs e (write_results (transport s))) r s') as Hskip.
    { intros Hr1. rewrite <- Hw. change t with (transport s1). apply Hs1, (IH fuel); [done|cbn; lia|done]. }
    assert (forall r0, (r0, s1) = (r, s') -> is_ok r0 = false ->
      served s e (mkExchange r0 [] [] [] fs (write_results (transport s))) r s') as Hfail.
    { intros r0 [= <- <-] Hn. unfold served. cbn. rewrite Ho, Hw, !app_nil_r. split_and!; try done. }
    destruct (negb (message_type f =? FRAME_BINARY_PLIST)) eqn:Hty.
    { unfold verdict. rewrite Hty. by apply Hskip. }
    unfold bind at 1, lift in Hr.
    destruct (decode_envelope (body f)) as [envelope|e'|] eqn:Hd; cbn [map_err] in Hr;
      [|unfold verdict; rewrite Hty, Hd; cbn [map_err]; by apply Hfail..].
    destruct envelope as [inbound_id payload|response_id result].
    + pose proof (acknowledge_verdict inbound_id payload id s1 f Hty Hd) as Ha. unfold bind in Hr.
      destruct (verdict id f) as [[|ack event|]|e'|]; [done| |done|rewrite Ha in Hr; by apply Hfail..].
      cbn [s1 transport] in Ha. rewrite Hw in Ha.
      destruct (put ack (write_results (transport s))) as [[[[]|e'|] out] ws] eqn:Hput; rewrite Ha in Hr.
      2-3: injection Hr as <- <-; unfold served; cbn; rewrite Ho; split_and!; try done; by rewrite app_nil_r.
      destruct (put_cases ack (write_results (transport s))) as [(ws' & Hok)|(e' & cut & ws' & Hbad & _)];
        rewrite Hput in *; simplify_eq.
      apply (IH fuel) in Hr; [|by apply offers_written|unfold delivers in *; cbn; lia]. cbn [transport written write_results outgoing service_events] in Hr.
      destruct Hr as (-> & Ho3 & He3 & Hw3 & Hu3). unfold served, acknowledged. cbn [x_result x_acks x_cut x_events x_unread x_writes].
      cbn [s1 transport service_events outgoing] in Ho3, He3. rewrite Ho3, He3, Ho. cbn [fmap list_fmap concat].
      rewrite <- !app_assoc. done.
    + unfold verdict. rewrite Hty, Hd. cbn [map_err]. destruct (bool_decide _); [|by apply Hskip].
      unfold ret in Hr. simplify_eq. unfold served. cbn. by rewrite Ho, Hw, !app_nil_r.
Qed.

End AnyStream.

(** ** No panics *)

Lemma decode_envelope_no_panic d : bytes_ok d -> no_panic (decode_envelope d).
Proof.
  intros Hd. unfold decode_envelope. apply no_panic_bind.
  { apply no_panic_map_err. by apply decode_any. }
  intros v _. unfold no_panic. destruct v as [| | | | |vs|]; try done.
  destruct vs as [|v1 [|v2 [|v3 [|v4 [|]]]]]; try done. destruct v4; try done. destruct v3; try done.
  destruct v2 as [|b| | | | |]; try done. destruct v1 as [| |n| | | |]; try done.
  destruct n as [|[p|p|]|]; try done. by destruct b.
Qed.

Lemma handle_inbound_request_no_panic payload : no_panic (handle_inbound_request payload).
Proof.
  unfold handle_inbound_request, service_callback, no_panic.
  repeat (match goal with
  | |- context [match ?x with _ => _ end] => is_var x; destruct x
  | |- context [try_from_u ?w ?v] => destruct (try_from_u w v)
  | |- context [bool_decide ?P] => destruct (bool_decide P)
  end; try done).
Qed.

Lemma plist_frame_no_panic bs : no_panic (plist_frame bs).
Proof.
  apply no_panic_map_err. unfold frame_new, header_new, validate_body_len, no_panic. by destruct (_ <? _).
Qed.

Lemma verdict_no_panic id f : frame_wf f -> no_panic (verdict id f).
Proof.
  intros [_ Hb]. unfold verdict. destruct (negb _); [done|]. apply no_panic_bind; [by apply no_panic_map_err, decode_envelope_no_panic|].
  intros [inbound_id payload|response_id result] _; [|by destruct (bool_decide _)].
  apply no_panic_bind; [apply no_panic_map_err, handle_inbound_request_no_panic|]. intros handled _.
  apply no_panic_bind; [do 2 apply no_panic_map_err; apply PlistLimits.encode_no_panic|]. intros bs _.
  apply no_panic_bind; [apply plist_frame_no_panic|done].
Qed.

Lemma serve_no_panic id fs e ws : Forall sendable fs -> x_result (serve_on id fs e ws) <> Panic.
Proof.
  intros Hfs. revert ws. induction Hfs as [|f fs [Hf _] _ IH]; intros ws; [done|]. cbn [serve_on].
  pose proof (verdict_no_panic id f Hf) as Hv. destruct (verdict id f) as [[|ack event|result]|e'|]; [done| |done..].
  destruct (put_cases ack ws) as [(ws' & ->)|(e' & cut & ws' & -> & _)]; [apply IH|done].
Qed.

Section CallTheorem.
Context `{Allocator}.

(** The frame of a request. *)
Definition request_frame (id : RequestId) (payload : list Value.t) : res SessionError Frame :=
  let! bs := map_err RpcE (encode_request id payload) in plist_frame bs.

Lemma request_frame_no_panic id payload : request_frame id payload <> Panic.
Proof.
  unfold request_frame. apply no_panic_bind; [|intros bs _; apply plist_frame_no_panic].
  apply no_panic_map_err. unfold encode_request. destruct (negb _); [done|]. apply no_panic_map_err, PlistLimits.encode_no_panic.
Qed.

Lemma call_served id payload s fs e r s' :
  offers (transport s) fs e -> call id payload s = (r, s') ->
  match request_frame id payload with
  | Ok request =>
      match put request (write_results (transport s)) with
      | (Ok _, _, ws) => served (written s (frame_bytes request) ws) e (serve_on id fs e ws) r s' /\ r <> Panic
      | (Err error, cut, ws) => r = Err (TransportE error) /\ s' = written s cut ws
      | (Panic, _, _) => False
      end
  | Err error => r = Err error /\ s' = s
  | Panic => False
  end.
Proof.
  intros Hc Hr. unfold call, bind, lift in Hr. pose proof (request_frame_no_panic id payload) as Hnp. unfold request_frame in *.
  destruct (encode_request id payload) as [bs|e'|]; cbn [map_err] in *; [|by simplify_eq|done].
  pose proof (send_plist_put bs s) as Hs. destruct (plist_frame bs) as [request|e'|]; [| |done].
  2: { rewrite Hs in Hr. by simplify_eq. }
  destruct (put_cases request (write_results (transport s))) as [(ws & Hput)|(e' & cut & ws & Hput & _)]; rewrite Hput in *;
    rewrite Hs in Hr; cbn [map_err] in Hr; [|by simplify_eq].
  apply (call_loop_served _ _ fs e) in Hr; [|by apply offers_written|unfold stream_fuel; lia]. split; [exact Hr|].
  destruct Hr as (-> & _). apply serve_no_panic. by eapply offers_sendable.
Qed.

(** C28. A call over any stream of bytes does what reading its frames one by one says. The
    stream offers some frames and then an error: whole frames as they can be decoded from
    its bytes, however these arrive, and then the end of the connection, an end inside a
    frame, a failed read, bytes that are no frame or a body that cannot be allocated; and its
    writes succeed or fail as they will. The call sends the request, and fails with the
    write's error, having sent a part of it and read nothing, if that fails. Then it skips
    other frames and replies to other requests, acknowledges each request of the peer in
    turn and queues its event, and returns the first reply with its identifier, leaving the
    frames after it; an acknowledgement that cannot be written ends the call with the
    write's error, and a frame that is not understood with that error; and when the frames
    end first the call ends with the stream's own error. It always returns, without a
    panic. *)
Theorem call_refines id payload s r s' :
  bytes_ok (fst (delivers (transport s))) -> call id payload s = (r, s') ->
  exists fs e, offers (transport s) fs e /\
  match request_frame id payload with
  | Ok request =>
      match put request (write_results (transport s)) with
      | (Ok _, _, ws) =>
          let x := serve_on id fs e ws in
          r = x_result x /\ r <> Panic /\
          outgoing (transport s') = outgoing (transport s) ++ frame_bytes request ++
            concat (frame_bytes <$> x_acks x) ++ x_cut x /\
          service_events s' = service_events s ++ x_events x /\
          write_results (transport s') = x_writes x /\
          (is_ok r = true -> offers (transport s') (x_unread x) e)
      | (Err error, cut, ws) =>
          r = Err (TransportE error) /\ cut `prefix_of` frame_bytes request /\ s' = written s cut ws
      | (Panic, _, _) => False
      end
  | Err error => r = Err error /\ s' = s
  | Panic => False
  end.
Proof.
  intros Hok Hr. destruct (offers_total _ Hok) as (fs & e & Hc). exists fs, e. split; [done|].
  pose proof (call_served _ _ _ _ _ _ _ Hc Hr) as Hs. destruct (request_frame id payload) as [request|e'|]; [|done..].
  destruct (put_cases request (write_results (transport s))) as [(ws & Hput)|(e' & cut & ws & Hput & Hcut)];
    rewrite Hput in *; [|by destruct Hs].
  destruct Hs as ((-> & Ho & He & Hw & Hu) & Hn). split_and!; try done. rewrite Ho. cbn. by rewrite <- app_assoc.
Qed.

Context (Hreserve : forall n, 0 <= n <= MAX_FRAME_BODY_LEN -> try_reserve_exact n = true).

(** A stream that carries frames offers them, and then the end of the connection. *)
Lemma carries_offers s fs : carries s fs -> offers s fs ConnectionClosed /\ write_results s = [].
Proof.
  intros (Hfs & Hd & Hw). split; [|done]. split; [rewrite Hd; by apply frames_bytes_ok|]. rewrite Hd. clear Hd Hw.
  cbn [fst snd]. induction Hfs as [|f fs Hf Hfs IH]; [by constructor|]. econstructor; [|exact IH].
  unfold received. change (concat (frame_bytes <$> f :: fs)) with (frame_bytes f ++ concat (frame_bytes <$> fs)).
  set (rest := concat (frame_bytes <$> fs)).
  assert (decode_prefix (frame_bytes f ++ rest) = Ok (f, rest)) as ->; [|by rewrite Hreserve by (destruct Hf; lia)].
  apply decode_prefix_exact; [apply bytes_ok_app; split; [apply frame_bytes_ok, Hf|by apply frames_bytes_ok]|].
  split; [apply Hf|]. exists (frame_bytes f). split; [by apply encode_frame_bytes|done].
Qed.

(** With every write taken nothing is cut. *)
Lemma serve_whole id fs e : x_cut (serve_on id fs e []) = [].
Proof.
  induction fs as [|f fs IH]; [done|]. cbn [serve_on]. destruct (verdict id f) as [[|ack event|result]|e'|]; done.
Qed.

Lemma call_carried id payload s fs r s' :
  carries (transport s) fs -> call id payload s = (r, s') ->
  match request_frame id payload with
  | Ok request =>
      let '(r0, acks, events, unread) := serve id fs in
      r = r0 /\
      outgoing (transport s') =
        outgoing (transport s) ++ frame_bytes request ++ concat (frame_bytes <$> acks) /\
      service_events s' = service_events s ++ events
  | Err e => r = Err e /\ s' = s
  | Panic => False
  end.
Proof.
  intros [Hc Hw]%carries_offers Hr. pose proof (call_served _ _ _ _ _ _ _ Hc Hr) as Hs. unfold serve.
  destruct (request_frame id payload) as [request|e|]; [|done..]. rewrite Hw, put_completes in Hs.
  destruct Hs as ((-> & Ho & He & _) & _). split_and!; try done. rewrite Ho, serve_whole, app_nil_r. cbn. by rewrite <- app_assoc.
Qed.

(** ** The handshake *)

(** Connecting reads one frame, which must be a valid HELLO of the peer, and only
    then sends one frame: a HELLO that the peer's validation accepts, when it is the
    same as ours. The session starts with no events and the frames that followed. *)
Theorem connect_handshake name s fs r s' :
  Hello.good name -> carries s fs -> connect name s = (r, s') ->
  match fs with
  | [] => r = Err (TransportE ConnectionClosed) /\ outgoing s' = outgoing s
  | f :: fs =>
      if negb (message_type f =? FRAME_HELLO)
      then r = Err (ExpectedHello (message_type f)) /\ outgoing s' = outgoing s
      else
        match Hello.validate_peer_hello (body f), Hello.encode_hello name with
        | Ok _, Ok bs =>
            r = Ok (mkSession s' []) /\ carries s' fs /\
            outgoing s' = outgoing s ++ frame_bytes (mkFrame FRAME_HELLO bs) /\
            Hello.validate_peer_hello bs = Ok tt
        | Err e, _ => r = Err (HelloE e) /\ outgoing s' = outgoing s
        | Ok _, Err e => r = Err (HelloE e) /\ outgoing s' = outgoing s
        | _, _ => False
        end
  end.
Proof.
  intros Hg Hc Hr. unfold connect, bind, lift, mapM_err in Hr. destruct fs as [|f fs].
  - destruct (receive_closed _ Hc) as (t & Hrf & Ho). rewrite Hrf in Hr. cbn [map_err] in Hr. by simplify_eq.
  - destruct (receive_carried Hreserve _ _ _ Hc) as (t & Hrf & Ht & Ho). rewrite Hrf in Hr. cbn [map_err] in Hr.
    destruct (negb _); [by simplify_eq|].
    assert (no_panic (Hello.validate_peer_hello (body f))) as Hnp.
    { apply Hello.validate_total. destruct Hc as (Hfs & _ & _). apply Forall_cons in Hfs as [[[_ Hb] _] _]. done. }
    destruct (Hello.validate_peer_hello (body f)) as [[]|e|]; cbn [map_err] in Hr; [|by simplify_eq|done].
    pose proof (Hello.encode_hello_total name Hg) as Hen. destruct (Hello.encode_hello name) as [bs|e|] eqn:He; cbn [map_err] in Hr;
      [|by simplify_eq|done].
    pose proof (Hello.encode_hello_bound name bs Hg He) as Hl. unfold frame_new, header_new, validate_body_len in Hr.
    replace (_ <? _) with false in Hr by (unfold MAX_FRAME_BODY_LEN; lia). cbn [map_err] in Hr.
    destruct (send_carried (mkFrame FRAME_HELLO bs) t fs Ht) as (t2 & Hsend & Ht2 & Ho2);
      [unfold MAX_FRAME_BODY_LEN; cbn [body]; lia|].
    rewrite Hsend in Hr. cbn [map_err] in Hr. simplify_eq. rewrite Ho2, Ho. split_and!; [done..|].
    by apply (Hello.encode_hello_accepted name).
Qed.

End CallTheorem.

(** ** A command over a session *)

Lemma canonical_text id : is_canonical_request_id id = true -> text_wf id.
Proof.
  unfold is_canonical_request_id. intros Hid. apply andb_true_iff in Hid as [_ Hid].
  assert (forall l i, all_canonical i l = true -> Forall (fun b => 0 <= b <= 127) l) as Hall.
  { induction l as [|b l IH]; intros i Hl; [constructor|]. cbn in Hl. apply andb_true_iff in Hl as [Hb Hl].
    constructor; [|by eapply IH]. unfold is_canonical_byte, is_hex_upper, Biometric.is_ascii_digit in Hb.
    destruct (bool_decide _); lia. }
  apply Hall in Hid. split; [|by apply Text.ascii_valid]. eapply Forall_impl; [exact Hid|]. unfold is_u. cbn. lia.
Qed.

Section CommandTheorem.
Context `{Allocator} (Hreserve : forall n, 0 <= n <= MAX_FRAME_BODY_LEN -> try_reserve_exact n = true).


End CommandTheorem.

(** ** Witnesses *)

Definition frame_of (bs : res RpcError bytes) : Frame :=
  mkFrame FRAME_BINARY_PLIST match bs with Ok bs => bs | _ => [] end.

(** A callback and then the reply to [ex_id]. *)
Definition ex_frames : list Frame :=
  [mkFrame 7 [1];
   frame_of (encode_envelope false [112] [Value.Integer 9; Value.Integer 1; Value.Data [5]; Value.Integer 2; Value.Integer 3]);
   frame_of (encode_reply ex_id [Value.Integer 0; Value.Data [42]])].

Definition stream_of (fs : list Frame) : Stream :=
  mkStream [Chunk (take 3 (concat (frame_bytes <$> fs))); ReadFails IoError.Interrupted;
            Chunk (drop 3 (concat (frame_bytes <$> fs)))] [] [].

Definition ex_session : BridgeXpcSession := mkSession (stream_of ex_frames) [].

#[global] Instance sendable_dec f : Decision (sendable f).
Proof. unfold sendable, frame_wf. apply _. Defined.

Lemma ex_carries : carries (stream_of ex_frames) ex_frames.
Proof.
  split; [apply (bool_decide_unpack _); vm_compute; exact I|]. split; [vm_compute; reflexivity|reflexivity].
Qed.

Lemma unlimited_reserves n : 0 <= n <= MAX_FRAME_BODY_LEN -> try_reserve_exact n = true.
Proof. done. Qed.

(** The same frames, an end in the middle of the next one, and a peer that takes two writes
    and the header of the acknowledgement, but not its body. *)
Definition ex_broken : BridgeXpcSession :=
  mkSession (mkStream [Chunk (concat (frame_bytes <$> take 2 ex_frames) ++ [80; 88])]
    [None; None; None; Some (1%nat, IoError.Other 32)] []) [].

Lemma call_refines_witness :
  (exists s', call ex_id [Value.Integer 5] ex_session = (Ok [Value.Integer 0; Value.Data [42]], s') /\
     service_events s' = [Mesa.mkEvent 1 [5] 2 3]) /\
  (exists s', call ex_id [Value.Integer 5] ex_broken =
     (Err (TransportE (Io FramePart.Body (IoError.Other 32))), s') /\ service_events s' = []).
Proof.
  assert (forall s fs e f x, offers (transport s) fs e ->
    request_frame ex_id [Value.Integer 5] = Ok f ->
    (let '(r, _, ws) := put f (write_results (transport s)) in r = Ok tt /\ serve_on ex_id fs e ws = x) ->
    bytes_ok (fst (delivers (transport s))) ->
    exists s', call ex_id [Value.Integer 5] s = (x_result x, s') /\ service_events s' = service_events s ++ x_events x) as Hgen.
  { intros s fs e f x Ho Hf Hx Hb. destruct (call ex_id [Value.Integer 5] s) as [r s'] eqn:Hr.
    destruct (call_refines ex_id [Value.Integer 5] s r s' Hb Hr) as (fs' & e' & Ho' & Hs).
    destruct (reads_unique _ _ _ _ _ _ (proj2 Ho) (proj2 Ho')) as [-> ->]. rewrite Hf in Hs.
    destruct (put f (write_results (transport s))) as [[r0 out] ws]. destruct Hx as [-> <-].
    destruct Hs as (-> & _ & _ & He & _). exists s'. split; [reflexivity|exact He]. }
  assert (exists f, request_frame ex_id [Value.Integer 5] = Ok f) as [f Hf] by (eexists; vm_compute; reflexivity).
  split.
  - destruct (Hgen ex_session ex_frames ConnectionClosed f (serve_on ex_id ex_frames ConnectionClosed []))
      as (s' & Hr & He); [apply (carries_offers unlimited_reserves), ex_carries|exact Hf|split; reflexivity|..].
    + apply (bool_decide_unpack _). vm_compute. exact I.
    + exists s'. split; [rewrite Hr|rewrite He]; vm_compute; reflexivity.
  - assert (bytes_ok (fst (delivers (transport ex_broken)))) as Hb by (apply (bool_decide_unpack _); vm_compute; exact I).
    destruct (Hgen ex_broken (take 2 ex_frames) (UnexpectedEof FramePart.Header) f
      (serve_on ex_id (take 2 ex_frames) (UnexpectedEof FramePart.Header) [None; Some (1%nat, IoError.Other 32)]))
      as (s' & Hr & He); [split; [exact Hb|]|exact Hf|split; reflexivity|exact Hb|].
    + do 2 (eapply reads_frame; [vm_compute; reflexivity|]). constructor. vm_compute. reflexivity.
    + exists s'. split; [rewrite Hr|rewrite He]; vm_compute; reflexivity.
Defined.

Definition ex_hello : Frame :=
  mkFrame FRAME_HELLO match Hello.encode_hello [97] with Ok bs => bs | _ => [] end.

Lemma connect_handshake_witness :
  exists s, fst (connect Hello.ex_name (stream_of [ex_hello])) = Ok s /\ service_events s = [].
Proof.
  destruct (connect Hello.ex_name (stream_of [ex_hello])) as [r s'] eqn:Hr.
  assert (carries (stream_of [ex_hello]) [ex_hello]) as Hc.
  { split; [apply (bool_decide_unpack _); vm_compute; exact I|]. split; [vm_compute; reflexivity|reflexivity]. }
  assert (Hello.good Hello.ex_name) as Hg
    by (split; [apply (bool_decide_unpack _); vm_compute; exact I|vm_compute; reflexivity]).
  pose proof (connect_handshake unlimited_reserves Hello.ex_name (stream_of [ex_hello]) [ex_hello] r s' Hg Hc Hr) as Hs.
  cbn [negb message_type ex_hello Z.eqb FRAME_HELLO Pos.eqb] in Hs.
  assert (Hello.validate_peer_hello (body ex_hello) = Ok tt) as Hv by (vm_compute; reflexivity).
  assert (exists bs, Hello.encode_hello Hello.ex_name = Ok bs) as [bs Hb] by (eexists; vm_compute; reflexivity).
  rewrite Hv, Hb in Hs. destruct Hs as (-> & _). exists (mkSession s' []). split; reflexivity.
Defined.


End Session.
