(* ===== verification/Xart.v ===== *)
(** * The xART recovery directory ([crates/t1-bridge/src/xart.rs])

    A raw dictionary exchange with one read-only command, and the packed directory
    of its answer. *)

From S2P Require Import Prelude Effects Framing Plist Mesa Commands Transport Rpc Session.

Module Xart.
Import Plist Session.

Definition XART_DIRECTORY_SIZE : nat := 0x334.
Definition XART_DIRECTORY_ENTRY_SIZE : nat := 17.
Definition XART_DIRECTORY_MAX_ENTRIES : Z := 48.
Definition XART_DIRECTORY_COUNT_SIZE : nat := 4.
Definition XART_RECOVERY_VERSION : Z := 1.
Definition XART_FETCH_DIRECTORY_COMMAND : Z := 200.

(** "xart-msg." followed by "version", "command", "success" and "directory". *)
Definition XART_MSG : bytes := [120; 97; 114; 116; 45; 109; 115; 103; 46].
Definition VERSION_KEY : bytes := XART_MSG ++ [118; 101; 114; 115; 105; 111; 110].
Definition COMMAND_KEY : bytes := XART_MSG ++ [99; 111; 109; 109; 97; 110; 100].
Definition SUCCESS_KEY : bytes := XART_MSG ++ [115; 117; 99; 99; 101; 115; 115].
Definition DIRECTORY_KEY : bytes := XART_MSG ++ [100; 105; 114; 101; 99; 116; 111; 114; 121].
(** "__com.apple.BridgeXPC.uint64". *)
Definition UINT64_WRAPPER_KEY : bytes :=
  [95; 95; 99; 111; 109; 46; 97; 112; 112; 108; 101; 46; 66; 114; 105; 100; 103; 101; 88; 80; 67; 46;
   117; 105; 110; 116; 54; 52].

Record XartDirectoryEntry : Type := mkEntry { volume_uuid : bytes; external : bool }.

Inductive XartDirectoryError : Type :=
| InvalidSize (actual expected : Z)
| TooManyEntries (count maximum : Z)
| InvalidLocation (index value : Z).

Inductive XartFetchError : Type :=
| Exchange (error : RawDictionaryError)
| InvalidVersion
| FetchFailed
| MissingDirectory
| Directory (error : XartDirectoryError).

Definition wrapped_u64 (value : Z) : Value.t :=
  Value.Dictionary [(UINT64_WRAPPER_KEY, Value.Integer value)].

(** [directory_request]: a map has its keys in order. *)
Definition directory_request : list (bytes * Value.t) :=
  [(COMMAND_KEY, wrapped_u64 XART_FETCH_DIRECTORY_COMMAND); (VERSION_KEY, wrapped_u64 XART_RECOVERY_VERSION)].

Definition is_wrapped_u64 (value : Value.t) (expected : Z) : bool :=
  match value with
  | Value.Dictionary [(k, Value.Integer v)] => bool_decide (k = UINT64_WRAPPER_KEY) && (v =? expected)
  | _ => false
  end.

(** [BTreeMap::get]. *)
Definition get (key : bytes) (m : list (bytes * Value.t)) : option Value.t :=
  snd <$> List.find (fun kv => bool_decide (fst kv = key)) m.

(** The loop of [parse_xart_directory], from the entry [index] for [n] entries. *)
Fixpoint parse_entries (n : nat) (index : nat) (d : bytes)
    : res XartDirectoryError (list XartDirectoryEntry) :=
  match n with
  | O => Ok []
  | S n =>
      let offset := (XART_DIRECTORY_COUNT_SIZE + index * XART_DIRECTORY_ENTRY_SIZE)%nat in
      let! volume_uuid := slice d offset (offset + 16) in
      let! location := byte_at d (offset + 16) in
      let! external :=
        if location =? 0 then Ok false
        else if location =? 1 then Ok true
        else Err (InvalidLocation (Z.of_nat index) location) in
      let! entries := parse_entries n (S index) d in
      Ok (mkEntry volume_uuid external :: entries)
  end.

Definition parse_xart_directory (d : bytes) : res XartDirectoryError (list XartDirectoryEntry) :=
  if negb (length d =? XART_DIRECTORY_SIZE)%nat
  then Err (InvalidSize (len d) (Z.of_nat XART_DIRECTORY_SIZE))
  else
    let! declared_count := read_le d 0 4 in
    if XART_DIRECTORY_MAX_ENTRIES <? declared_count
    then Err (TooManyEntries declared_count XART_DIRECTORY_MAX_ENTRIES)
    else parse_entries (Z.to_nat declared_count) 0 d.

Definition fetch_xart_directory `{Allocator}
    : M BridgeXpcSession XartFetchError (list XartDirectoryEntry) :=
  do! response := mapM_err Exchange (call_raw_dictionary directory_request) in
  lift (
    if match get VERSION_KEY response with
       | Some value => negb (is_wrapped_u64 value XART_RECOVERY_VERSION)
       | None => false
       end
    then Err InvalidVersion
    else
      match get SUCCESS_KEY response with
      | Some (Value.Boolean true) =>
          match get DIRECTORY_KEY response with
          | Some (Value.Data directory) => map_err Directory (parse_xart_directory directory)
          | _ => Err MissingDirectory
          end
      | _ => Err FetchFailed
      end).

(** ** The packed directory *)

Definition entry_bytes (e : XartDirectoryEntry) : bytes :=
  volume_uuid e ++ [if external e then 1 else 0].

Definition offset_of (index : nat) : nat := (4 + 17 * index)%nat.

Lemma concat_entry_cons e es :
  concat (entry_bytes <$> e :: es) = volume_uuid e ++ (if external e then 1 else 0) :: concat (entry_bytes <$> es).
Proof.
  change (entry_bytes e ++ concat (entry_bytes <$> es) =
    volume_uuid e ++ (if external e then 1 else 0) :: concat (entry_bytes <$> es)).
  unfold entry_bytes at 1. by rewrite <- app_assoc.
Qed.

(** The bytes of the entry [index]. *)
Lemma entry_at d index :
  (offset_of (S index) <= length d)%nat ->
  exists uuid loc, length uuid = 16%nat /\
    slice (E := XartDirectoryError) d (offset_of index) (offset_of index + 16) = Ok uuid /\
    byte_at (E := XartDirectoryError) d (offset_of index + 16) = Ok loc /\
    drop (offset_of index) d = uuid ++ loc :: drop (offset_of (S index)) d.
Proof.
  intros Hl. unfold offset_of in *. set (off := (4 + 17 * index)%nat) in *.
  destruct (byte_at_ok (E := XartDirectoryError) d (off + 16) ltac:(lia)) as [loc Hloc].
  exists (take 16 (drop off d)), loc. split; [rewrite length_take, length_drop; lia|].
  rewrite slice_ok by lia. replace (off + 16 - off)%nat with 16%nat by lia. split; [done|]. split; [done|].
  rewrite <- (take_drop 16 (drop off d)) at 1. f_equal. rewrite drop_drop, (drop_byte_at _ _ _ Hloc).
  do 2 f_equal. lia.
Qed.

Lemma parse_entries_Ok n index d entries :
  (offset_of (index + n) <= length d)%nat -> parse_entries n index d = Ok entries ->
  length entries = n /\ Forall (fun e => length (volume_uuid e) = 16%nat) entries /\
  exists rest, drop (offset_of index) d = concat (entry_bytes <$> entries) ++ rest.
Proof.
  revert index entries. induction n as [|n IH]; intros index entries Hl Hp; cbn [parse_entries] in Hp.
  - injection Hp as <-. split; [done|]. split; [done|]. by eexists.
  - destruct (entry_at d index) as (uuid & loc & Hu & Hs & Hb & Hd); [unfold offset_of in *; lia|].
    unfold XART_DIRECTORY_COUNT_SIZE, XART_DIRECTORY_ENTRY_SIZE in Hp.
    replace (4 + index * 17)%nat with (offset_of index) in Hp by (unfold offset_of; lia). rewrite Hs, Hb in Hp.
    destruct (loc =? 0) eqn:H0; [|destruct (loc =? 1) eqn:H1; [|done]]; b2p; subst loc;
      (destruct (parse_entries n (S index) d) as [es|e|] eqn:He; [|done..]); injection Hp as <-;
      (apply IH in He as (Hn & Hf & rest & Hr); [|unfold offset_of in *; lia]);
      (split; [cbn; lia|]); (split; [by constructor|]); exists rest;
      rewrite Hd, Hr, concat_entry_cons; cbn [volume_uuid external]; by rewrite <- app_assoc.
Qed.

Lemma parse_entries_bytes index d entries rest :
  Forall (fun e => length (volume_uuid e) = 16%nat) entries -> (offset_of index <= length d)%nat ->
  drop (offset_of index) d = concat (entry_bytes <$> entries) ++ rest ->
  parse_entries (length entries) index d = Ok entries.
Proof.
  intros Hf. revert index. induction Hf as [|e entries He Hf IH]; intros index Hl Hd; [done|].
  rewrite concat_entry_cons, <- app_assoc in Hd. cbn [app] in Hd.
  assert (offset_of (S index) <= length d)%nat as Hl'.
  { apply (f_equal length) in Hd. rewrite length_drop, length_app in Hd. cbn [length] in Hd. unfold offset_of in *. lia. }
  destruct (entry_at d index Hl') as (uuid & loc & Hu & Hs & Hb & Hd'). rewrite Hd' in Hd.
  apply app_inj_1 in Hd as [-> Hd]; [|by rewrite Hu, He]. injection Hd as -> Hd. cbn [length parse_entries].
  unfold XART_DIRECTORY_COUNT_SIZE, XART_DIRECTORY_ENTRY_SIZE.
  replace (4 + index * 17)%nat with (offset_of index) by (unfold offset_of; lia). rewrite Hs, Hb.
  rewrite (IH (S index) Hl' Hd). destruct e as [u [|]]; done.
Qed.

(** A recovery directory is read iff it has the fixed size and packs the entries
    it returns: their number, their identifiers and locations, and unused slots with
    any content. *)
Theorem xart_directory_iff d entries :
  bytes_ok d ->
  parse_xart_directory d = Ok entries <->
  length d = XART_DIRECTORY_SIZE /\ len entries <= XART_DIRECTORY_MAX_ENTRIES /\
  Forall (fun e => length (volume_uuid e) = 16%nat) entries /\
  exists unused, d = le_bytes 4 (len entries) ++ concat (entry_bytes <$> entries) ++ unused.
Proof.
  intros Hok. unfold parse_xart_directory. destruct (length d =? _)%nat eqn:Hl; cbn [negb]; b2p.
  2: { split; [done|]. by intros [? _]. }
  assert (length d = 820%nat) as Hl' by done. rewrite read_le_ok by lia. rewrite drop_0. set (n := le_val (take 4 d)).
  assert (is_u 32 n) as Hn.
  { pose proof (le_val_bound (take 4 d) (bytes_ok_take 4 d Hok)) as Hx. rewrite length_take in Hx.
    by replace (Z.of_nat (4 `min` length d)) with 4 in Hx by lia. }
  unfold is_u in Hn. unfold XART_DIRECTORY_MAX_ENTRIES. split.
  - intros Hp. destruct (48 <? n) eqn:Hmax; [done|]. b2p.
    apply parse_entries_Ok in Hp as (Hlen & Hf & rest & Hr); [|unfold offset_of; lia].
    split; [done|]. split; [lia|]. split; [done|]. exists rest. rewrite <- (take_drop 4 d) at 1.
    change (offset_of 0) with 4%nat in Hr. rewrite <- Hr. f_equal. replace (len entries) with n by lia. unfold n.
    symmetry. apply le_bytes_val_n; [rewrite length_take; lia|by apply bytes_ok_take].
  - intros (_ & Hmax & Hf & unused & Hd).
    assert (n = len entries) as Hne.
    { unfold n. rewrite Hd, take_app_length' by (by rewrite length_le_bytes). apply le_val_bytes. unfold is_u. cbn. lia. }
    rewrite Hne. replace (48 <? len entries) with false by lia. rewrite Nat2Z.id.
    apply (parse_entries_bytes 0 d entries unused); [done|unfold offset_of; lia|].
    rewrite Hd. change (offset_of 0) with 4%nat. by rewrite drop_app_length' by (by rewrite length_le_bytes).
Qed.

Definition ex_entries : list XartDirectoryEntry :=
  [mkEntry (replicate 16 7) true; mkEntry (replicate 16 9) false].
Definition ex_directory : bytes :=
  le_bytes 4 2 ++ concat (entry_bytes <$> ex_entries) ++ replicate 782 255.

Lemma xart_directory_iff_witness : parse_xart_directory ex_directory = Ok ex_entries.
Proof.
  apply xart_directory_iff.
  - apply (bool_decide_unpack _). vm_compute. exact I.
  - split; [reflexivity|]. split; [vm_compute; discriminate|].
    split; [apply (bool_decide_unpack _); vm_compute; exact I|]. by exists (replicate 782 255).
Defined.

End Xart.
