(* ===== verification/MatchWorkflow.v ===== *)
(** * The fingerprint match ([crates/t1-bridge/src/match_workflow.rs])

    Checks the enrolled identities, starts a match, waits for its outcome and
    always cancels what it may have started. The wait loop asks a source of
    events until one decides; how long that takes is up to the source, so the
    loop has fuel, and [None] says that it is still waiting. *)

From S2P Require Import Prelude Effects Policy Biometric Mesa Commands Control.

Module MatchWorkflow.
Import Policy Commands Mesa.

Module MatchEvent.
Inductive t : Type :=
| Callback (event : ServiceStatusEvent)
| Cancelled
| TimedOut.
End MatchEvent.

(** The trait [MatchEventSource]. *)
Class MatchEventSource (S E : Type) : Type := next_event : M S E MatchEvent.t.

Module MatchOutcome.
Inductive t : Type := Matched | NoMatch | Cancelled | TimedOut.
End MatchOutcome.

Module IdentityMatchOutcome.
Inductive t : Type :=
| Matched (identifier : IdentityIdentifier)
| NoMatch | Cancelled | TimedOut.
End IdentityMatchOutcome.

Inductive MatchWorkflowError (TE EE : Type) : Type :=
| NoEnrolledIdentities
| IdentityForWrongUser
| CommandE (error : CommandError)
| MesaE (error : MesaError)
| Transport (error : TE)
| Event (error : EE)
| CleanupTransport (error : TE)
| CleanupCommand (error : CommandError).
Arguments NoEnrolledIdentities {TE EE}.
Arguments IdentityForWrongUser {TE EE}.
Arguments CommandE {TE EE} error.
Arguments MesaE {TE EE} error.
Arguments Transport {TE EE} error.
Arguments Event {TE EE} error.
Arguments CleanupTransport {TE EE} error.
Arguments CleanupCommand {TE EE} error.

Module WaitError.
Inductive t (EE : Type) : Type :=
| Event (error : EE)
| MesaE (error : MesaError).
Arguments Event {EE} error.
Arguments MesaE {EE} error.
End WaitError.

Module CleanupError.
Inductive t (TE : Type) : Type :=
| Transport (error : TE)
| CommandE (error : CommandError).
Arguments Transport {TE} error.
Arguments CommandE {TE} error.
End CleanupError.

(** [iter.map(f).collect::<Result<Vec<_>, _>>()]. *)
Fixpoint collect {A B E} (f : A -> res E B) (l : list A) : res E (list B) :=
  match l with
  | [] => Ok []
  | x :: l => let! y := f x in let! ys := collect f l in Ok (y :: ys)
  end.

Section Operations.
Context {T TE : Type} `{BiometricTransport T TE}.
Context {S EE : Type} `{MatchEventSource S EE}.

Definition cancel : M T (CleanupError.t TE) unit :=
  do! response := mapM_err CleanupError.Transport (execute cancel_operation_command) in
  lift (map_err CleanupError.CommandE (validate_empty_response response)).

(** What one callback decides, if anything: the body of the loop. *)
Definition callback_outcome (event : ServiceStatusEvent) (requested_user_id : Z)
    (identities : list Identity) : res (WaitError.t EE) (option IdentityMatchOutcome.t) :=
  let! message := map_err WaitError.MesaE (parse_mesa_message event) in
  match message with
  | None => Ok None
  | Some message =>
      let! identifier := map_err WaitError.MesaE
                           (evaluate_matched_identity message requested_user_id identities) in
      match identifier with
      | None => Ok None
      | Some (Some identifier) => Ok (Some (IdentityMatchOutcome.Matched identifier))
      | Some None => Ok (Some IdentityMatchOutcome.NoMatch)
      end
  end.

Fixpoint wait_for_outcome (fuel : nat) (events : S) (requested_user_id : Z)
    (identities : list Identity) : option (res (WaitError.t EE) IdentityMatchOutcome.t * S) :=
  match fuel with
  | O => None
  | Datatypes.S fuel =>
      match next_event events with
      | (Ok event, events) =>
          match event with
          | MatchEvent.Cancelled => Some (Ok IdentityMatchOutcome.Cancelled, events)
          | MatchEvent.TimedOut => Some (Ok IdentityMatchOutcome.TimedOut, events)
          | MatchEvent.Callback event =>
              match callback_outcome event requested_user_id identities with
              | Ok None => wait_for_outcome fuel events requested_user_id identities
              | Ok (Some outcome) => Some (Ok outcome, events)
              | Err e => Some (Err e, events)
              | Panic => Some (Panic, events)
              end
          end
      | (Err e, events) => Some (Err (WaitError.Event e), events)
      | (Panic, events) => Some (Panic, events)
      end
  end.

(** The checks on the identities before the match starts. *)
Definition checked_identities (user_id : BiometricUserId) (identity_response : bytes)
    : res (MatchWorkflowError TE EE) (list Identity) :=
  let! _ := map_err CommandE (validate_identity_list_response identity_response) in
  match identity_response with
  | [] => Err NoEnrolledIdentities
  | _ =>
      let requested_user_id := cast_signed 32 user_id in
      let! identities := map_err MesaE
          (collect parse_identity (chunks_all IDENTITY_V1_SIZE identity_response)) in
      if existsb (fun identity => negb (id_user_id identity =? requested_user_id)) identities
      then Err IdentityForWrongUser
      else Ok identities
  end.

Definition match_fingerprint_identified (fuel : nat) (transport : T) (events : S)
    (user_id : BiometricUserId) (identity_response : bytes)
    : option (res (MatchWorkflowError TE EE) IdentityMatchOutcome.t * T * S) :=
  match checked_identities user_id identity_response with
  | Err e => Some (Err e, transport, events)
  | Panic => Some (Panic, transport, events)
  | Ok identities =>
      let requested_user_id := cast_signed 32 user_id in
      let '(start_result, transport) :=
        (do! response := mapM_err Transport (execute (start_match_command user_id)) in
         lift (map_err CommandE (validate_empty_response response))) transport in
      match start_result with
      | Err error =>
          match cancel transport with
          | (Panic, transport) => Some (Panic, transport, events)
          | (_, transport) => Some (Err error, transport, events)
          end
      | Panic => Some (Panic, transport, events)
      | Ok _ =>
          match wait_for_outcome fuel events requested_user_id identities with
          | None => None
          | Some (Panic, events) => Some (Panic, transport, events)
          | Some (wait_result, events) =>
              let '(cleanup_result, transport) := cancel transport in
              let result :=
                match wait_result, cleanup_result with
                | Panic, _ => Panic
                | Err (WaitError.Event error), _ => Err (Event error)
                | Err (WaitError.MesaE error), _ => Err (MesaE error)
                | Ok outcome, Ok _ => Ok outcome
                | Ok _, Err (CleanupError.Transport error) => Err (CleanupTransport error)
                | Ok _, Err (CleanupError.CommandE error) => Err (CleanupCommand error)
                | Ok _, Panic => Panic
                end in
              Some (result, transport, events)
          end
      end
  end.

(** What [match_fingerprint] keeps of an identified outcome. *)
Definition forget_identity (o : IdentityMatchOutcome.t) : MatchOutcome.t :=
  match o with
  | IdentityMatchOutcome.Matched _ => MatchOutcome.Matched
  | IdentityMatchOutcome.NoMatch => MatchOutcome.NoMatch
  | IdentityMatchOutcome.Cancelled => MatchOutcome.Cancelled
  | IdentityMatchOutcome.TimedOut => MatchOutcome.TimedOut
  end.

Definition match_fingerprint (fuel : nat) (transport : T) (events : S)
    (user_id : BiometricUserId) (identity_response : bytes)
    : option (res (MatchWorkflowError TE EE) MatchOutcome.t * T * S) :=
  match match_fingerprint_identified fuel transport events user_id identity_response with
  | None => None
  | Some (Ok outcome, transport, events) => Some (Ok (forget_identity outcome), transport, events)
  | Some (Err e, transport, events) => Some (Err e, transport, events)
  | Some (Panic, transport, events) => Some (Panic, transport, events)
  end.

End Operations.

(** ** What the workflow sends and when it answers *)

Section Theorems.
Context {T TE : Type} `{BiometricTransport T TE}.
Context {S EE : Type} `{MatchEventSource S EE}.

(** One turn of the wait loop: [None] goes round again. *)
Definition wait_step (events : S) (user : Z) (ids : list Identity)
    : option (res (WaitError.t EE) IdentityMatchOutcome.t) * S :=
  match next_event events with
  | (Ok (MatchEvent.Callback event), events) =>
      (match callback_outcome event user ids with
       | Ok None => None
       | Ok (Some outcome) => Some (Ok outcome)
       | Err e => Some (Err e)
       | Panic => Some Panic
       end, events)
  | (Ok MatchEvent.Cancelled, events) => (Some (Ok IdentityMatchOutcome.Cancelled), events)
  | (Ok MatchEvent.TimedOut, events) => (Some (Ok IdentityMatchOutcome.TimedOut), events)
  | (Err e, events) => (Some (Err (WaitError.Event e)), events)
  | (Panic, events) => (Some Panic, events)
  end.

(** The first [n] events of [s] decide nothing and leave [s']. *)
Inductive undecided (user : Z) (ids : list Identity) : nat -> S -> S -> Prop :=
| undecided_zero s : undecided user ids 0 s s
| undecided_step n s s1 s2 :
    wait_step s user ids = (None, s1) -> undecided user ids n s1 s2 ->
    undecided user ids (Datatypes.S n) s s2.

Lemma wait_unfold fuel s user ids :
  wait_for_outcome (Datatypes.S fuel) s user ids =
  match wait_step s user ids with
  | (None, s1) => wait_for_outcome fuel s1 user ids
  | (Some r, s1) => Some (r, s1)
  end.
Proof.
  cbn [wait_for_outcome]. unfold wait_step. destruct (next_event s) as [[[ev| |]|e|] s1]; try done.
  by destruct (callback_outcome _ _ _) as [[o|]|e|].
Qed.

(** The loop answers with the first event that decides. *)
Lemma wait_for_outcome_iff fuel s user ids r s2 :
  wait_for_outcome fuel s user ids = Some (r, s2) <->
  exists n s1, (n < fuel)%nat /\ undecided user ids n s s1 /\ wait_step s1 user ids = (Some r, s2).
Proof.
  revert s. induction fuel as [|fuel IH]; intros s.
  { split; [done|]. intros (n & s1 & Hn & _). lia. }
  rewrite wait_unfold. destruct (wait_step s user ids) as [[r'|] s1] eqn:Hs.
  - split.
    + intros [= <- <-]. exists 0%nat, s. split_and!; [lia|constructor|done].
    + intros (n & s' & Hn & Hu & Hd). inversion Hu; subst; congruence.
  - rewrite IH. split.
    + intros (n & s' & Hn & Hu & Hd). exists (Datatypes.S n), s'. split_and!; [lia|by econstructor|done].
    + intros (n & s' & Hn & Hu & Hd). inversion Hu as [|n0 ? x ? Hx Hu0]; subst; [congruence|]. replace x with s1 in * by congruence.
      exists n0, s'. split_and!; [lia|done|done].
Qed.

(** The start of the match and the cancellation, as responses. *)
Lemma cancel_run t ps :
  cancel (after t ps) =
  (let! bs := map_err CleanupError.Transport (response t ps cancel_operation_command) in
   map_err CleanupError.CommandE (validate_empty_response bs),
   after t (ps ++ [cancel_operation_command])).
Proof.
  unfold cancel, bind, mapM_err, lift. rewrite execute_response.
  by destruct (response t ps cancel_operation_command) as [bs| |].
Qed.

Lemma start_run (t : T) u :
  (do! bs := mapM_err Transport (execute (start_match_command u)) in
   lift (map_err (CommandE (EE := EE)) (validate_empty_response bs))) t =
  (let! bs := map_err Transport (response t [] (start_match_command u)) in
   map_err CommandE (validate_empty_response bs), after t [start_match_command u]).
Proof.
  unfold bind, mapM_err, lift. change t with (after t []) at 1. rewrite execute_response.
  by destruct (response t [] (start_match_command u)) as [bs| |].
Qed.

Lemma validate_empty_Ok bs x : validate_empty_response bs = Ok x <-> bs = [].
Proof. destruct bs, x; split; done. Qed.

Lemma acknowledged {F} (f : TE -> F) (g : CommandError -> F) (r : res TE bytes) x :
  (let! bs := map_err f r in map_err g (validate_empty_response bs)) = Ok x <-> r = Ok [].
Proof. destruct r as [[|b bs]| |], x; cbn; split; done. Qed.

Lemma match_cancels fuel (t : T) (s : S) u idr r t' s' :
  match_fingerprint_identified fuel t s u idr = Some (r, t', s') -> no_panic r ->
  if is_ok (checked_identities (TE := TE) (EE := EE) u idr)
  then t' = after t [start_match_command u; cancel_operation_command]
  else t' = t /\ s' = s.
Proof.
  unfold match_fingerprint_identified, no_panic. intros Hm Hp.
  destruct (checked_identities u idr) as [ids|e|]; [|by simplify_eq..]. cbn [is_ok].
  rewrite start_run in Hm. destruct (let! _ := _ in _) as [x|e|]; [| |by simplify_eq].
  - destruct (wait_for_outcome _ _ _ _) as [[[o|e|] s1]|]; simplify_eq;
      rewrite (cancel_run t [_]) in Hm; by simplify_eq.
  - rewrite (cancel_run t [_]) in Hm. by destruct (let! _ := _ in _); simplify_eq.
Qed.

(** C26. Whatever the transport and the source of events do, the match sends
    either nothing, because the identities were refused, or exactly a start and a
    cancellation, in this order and on every path out of the operation. *)
Theorem match_always_cancels fuel (t : T) (s : S) u idr r t' s' :
  match_fingerprint_identified fuel t s u idr = Some (r, t', s') -> no_panic r ->
  if is_ok (checked_identities (TE := TE) (EE := EE) u idr)
  then t' = after t [start_match_command u; cancel_operation_command]
  else t' = t /\ s' = s.
Proof. apply match_cancels. Qed.

Lemma match_identified_iff fuel (t : T) (s : S) u idr o t' s' :
  match_fingerprint_identified fuel t s u idr = Some (Ok o, t', s') <->
  exists ids, checked_identities (TE := TE) (EE := EE) u idr = Ok ids /\
    response t [] (start_match_command u) = Ok [] /\
    wait_for_outcome fuel s (cast_signed 32 u) ids = Some (Ok o, s') /\
    response t [start_match_command u] cancel_operation_command = Ok [] /\
    t' = after t [start_match_command u; cancel_operation_command].
Proof.
  unfold match_fingerprint_identified.
  destruct (checked_identities u idr) as [ids|e|]; [|by split; [|intros (? & ? & _)]..].
  rewrite start_run.
  destruct (let! bs := map_err Transport _ in _) as [x|e|] eqn:Hs.
  2:{ split.
      - by destruct (cancel _) as [[] ?].
      - intros (i & [= <-] & Hst & _). by rewrite Hst in Hs. }
  2:{ split; [done|]. intros (i & [= <-] & Hst & _).
      by rewrite Hst in Hs. }
  apply acknowledged in Hs.
  destruct (wait_for_outcome _ _ _ _) as [[w s1]|] eqn:Hw.
  2:{ split; [done|]. by intros (i & [= <-] & _ & Hx & _); rewrite Hw in Hx. }
  split.
  - intros H1. exists ids. split; [done|]. split; [done|].
    destruct w as [o'|e|]; [|rewrite (cancel_run t [_]) in H1; by destruct e; simplify_eq|by simplify_eq].
    rewrite (cancel_run t [_]) in H1. destruct (let! _ := _ in _) as [y|e|] eqn:Hc; [|by destruct e; simplify_eq|by simplify_eq].
    apply acknowledged in Hc. by simplify_eq.
  - intros (i & [= <-] & _ & Hx & Hc & ->). rewrite Hw in Hx. simplify_eq. rewrite (cancel_run t [_]).
    by rewrite Hc.
Qed.

(** A callback that says so: the message is a match result that names the user
    and the identifier, and the identifier is enrolled for the user. *)
Definition names_match (event : ServiceStatusEvent) (user : Z) (i : Identity) : Prop :=
  exists m, parse_mesa_message event = Ok (Some m) /\ status m = MESA_MATCH_RESULT /\
    read_i32 (E := MesaError) (payload m) 0 = Ok user /\
    slice (E := MesaError) (payload m) 4 20 = Ok (identifier i) /\ id_user_id i = user.

Lemma evaluate_matched m user ids id :
  evaluate_matched_identity m user ids = Ok (Some (Some id)) ->
  status m = MESA_MATCH_RESULT /\ exists i, i ∈ ids /\ identifier i = id /\ id_user_id i = user /\
    read_i32 (E := MesaError) (payload m) 0 = Ok user /\ slice (E := MesaError) (payload m) 4 20 = Ok id.
Proof.
  unfold evaluate_matched_identity. intros He. inv_ok He. b2p. split; [done|].
  destruct (List.find _ ids) as [i|] eqn:Hf; simplify_eq/=. apply find_some in Hf as [Hin Hm].
  unfold is_matched in Hm. b2p. exists i. split; [by apply list_elem_of_In|].
  subst. done.
Qed.

Lemma wait_step_matched s user ids id s2 :
  wait_step s user ids = (Some (Ok (IdentityMatchOutcome.Matched id)), s2) ->
  exists event i, next_event s = (Ok (MatchEvent.Callback event), s2) /\ i ∈ ids /\
    identifier i = id /\ names_match event user i.
Proof.
  unfold wait_step. intros Hw.
  destruct (next_event s) as [[[ev| |]|e|] s1]; try discriminate Hw. injection Hw as Hw <-.
  unfold callback_outcome in Hw. destruct (parse_mesa_message ev) as [[m|]| |] eqn:Hp; simplify_eq/=.
  destruct (evaluate_matched_identity m user ids) as [[[x|]|]| |] eqn:He; simplify_eq/=.
  apply evaluate_matched in He as (Hs & i & Hin & Hi & Hu & Hr & Hsl). exists ev, i.
  split_and!; [done..|]. exists m. by rewrite Hi.
Qed.

(** C25. A match is reported only when the sensor sent a match result for the
    requested user and an identifier that is among the identities enrolled for
    that user, as the first event that decided, and when the start and the
    cancellation were acknowledged. *)
Theorem matched_means_enrolled fuel (t : T) (s : S) u idr t' s' :
  match_fingerprint fuel t s u idr = Some (Ok MatchOutcome.Matched, t', s') ->
  exists ids i n s1 event,
    checked_identities (TE := TE) (EE := EE) u idr = Ok ids /\ i ∈ ids /\
    undecided (cast_signed 32 u) ids n s s1 /\
    next_event s1 = (Ok (MatchEvent.Callback event), s') /\
    names_match event (cast_signed 32 u) i /\
    response t [] (start_match_command u) = Ok [] /\
    response t [start_match_command u] cancel_operation_command = Ok [].
Proof.
  unfold match_fingerprint. intros Hm.
  destruct (match_fingerprint_identified _ _ _ _ _) as [[[[o| |] t1] s1]|] eqn:Hi; simplify_eq.
  destruct o as [id| | |]; simplify_eq. apply match_identified_iff in Hi as (ids & Hc & Hst & Hw & Hca & ->).
  apply wait_for_outcome_iff in Hw as (n & s2 & Hn & Hu & Hd).
  apply wait_step_matched in Hd as (ev & i & Hev & Hin & _ & Hnm).
  exists ids, i, n, s2, ev. by split_and!.
Qed.

(** C36. The match ends: once the source gives an event that decides, the
    operation returns, and its answer does not depend on how long the loop may
    run. *)
Theorem match_returns (t : T) (s : S) u idr n s1 r s2 :
  (forall ids, checked_identities (TE := TE) (EE := EE) u idr = Ok ids ->
     undecided (cast_signed 32 u) ids n s s1 /\ wait_step s1 (cast_signed 32 u) ids = (Some r, s2)) ->
  exists out, forall fuel, (n < fuel)%nat -> match_fingerprint_identified fuel t s u idr = Some out.
Proof.
  intros Hsrc. unfold match_fingerprint_identified.
  destruct (checked_identities u idr) as [ids|e|]; [|eauto..]. destruct (Hsrc ids eq_refl) as [Hu Hd].
  rewrite start_run. destruct (let! _ := _ in _) as [x|e|]; [| |eauto].
  - assert (forall fuel, (n < fuel)%nat ->
      wait_for_outcome fuel s (cast_signed 32 u) ids = Some (r, s2)) as Hw.
    { intros fuel Hf. apply wait_for_outcome_iff. eauto. }
    destruct r as [o|e|]; (eexists; intros fuel Hf; rewrite Hw by done; cbn beta iota);
      rewrite ?(cancel_run t [_]); reflexivity.
  - destruct (cancel _) as [[] ?]; eauto.
Qed.

End Theorems.

(** ** A concrete match *)

(** A source that delivers a list of events, and then the deadline. *)
#[local] Instance scripted_events : MatchEventSource (list MatchEvent.t) Z :=
  fun events =>
    match events with
    | [] => (Ok MatchEvent.TimedOut, [])
    | e :: events => (Ok e, events)
    end.

Definition ex_identifier : bytes := replicate 16 7.
Definition ex_identities : bytes := le_bytes 4 501 ++ ex_identifier.
Definition ex_match_payload : bytes :=
  le_bytes 4 501 ++ ex_identifier ++ replicate 3164 0.
Definition ex_match_event : ServiceStatusEvent :=
  mkEvent MESA_SERVICE_MESSAGE
    (le_bytes 8 0 ++ le_bytes 4 MESA_MATCH_RESULT ++ le_bytes 4 1 ++ le_bytes 8 0 ++ le_bytes 8 0 ++
     le_bytes 8 (len ex_match_payload) ++ ex_match_payload) 0 0.
Definition ex_events : list MatchEvent.t :=
  [MatchEvent.Callback (mkEvent 5 [] 0 0); MatchEvent.Callback ex_match_event].
Definition ex_script : list (res Z bytes) := [Ok []; Ok []].

Lemma match_always_cancels_witness :
  match_fingerprint_identified 5 [Err 3; Ok []] ex_events 501 ex_identities =
    Some (Err (Transport 3), [], ex_events) /\
  [] = after (E := Z) [Err 3; Ok []] [start_match_command 501; cancel_operation_command].
Proof.
  assert (match_fingerprint_identified 5 [Err 3; Ok []] ex_events 501 ex_identities =
    Some (Err (Transport 3), [], ex_events)) as H1 by (vm_compute; reflexivity).
  split; [exact H1|]. apply (match_always_cancels _ _ _ _ _ _ _ _ H1). discriminate.
Defined.

Lemma matched_means_enrolled_witness :
  match_fingerprint 5 ex_script ex_events 501 ex_identities = Some (Ok MatchOutcome.Matched, [], []) /\
  exists i event, names_match event 501 i.
Proof.
  assert (match_fingerprint 5 ex_script ex_events 501 ex_identities =
    Some (Ok MatchOutcome.Matched, [], [])) as H1 by (vm_compute; reflexivity).
  split; [exact H1|].
  destruct (matched_means_enrolled _ _ _ _ _ _ _ H1) as (_ & i & _ & _ & event & _ & _ & _ & _ & Hn & _).
  exists i, event. exact Hn.
Defined.

Lemma match_returns_witness :
  exists out, forall fuel, (1 < fuel)%nat ->
    match_fingerprint_identified fuel ex_script ex_events 501 ex_identities = Some out.
Proof.
  apply (match_returns ex_script ex_events 501 ex_identities 1 [MatchEvent.Callback ex_match_event]
    (Ok (IdentityMatchOutcome.Matched ex_identifier)) []).
  intros ids Hids. vm_compute in Hids. injection Hids as <-. split.
  - econstructor; [vm_compute; reflexivity|constructor].
  - vm_compute. reflexivity.
Defined.

End MatchWorkflow.
