(* ===== verification/EnrollWorkflow.v ===== *)
(** * Fingerprint enrollment ([crates/t1-bridge/src/enroll_workflow.rs])

    Starts an enrollment, continues it as often as the sensor asks, and accepts
    its completion only after a fresh identity list confirms it; every other way
    out cancels. As in [MatchWorkflow], the loop over events has fuel and [None]
    says that it is still waiting. The progress callback is a function on a state
    [P] of the caller. *)

From S2P Require Import Prelude Effects Policy Biometric Mesa Commands Control MatchWorkflow.

Module EnrollWorkflow.
Import Policy Commands Mesa.

Module EnrollmentEvent.
Inductive t : Type :=
| ServiceStatus (event : ServiceStatusEvent)
| TimedOut.
End EnrollmentEvent.

(** The trait [EnrollmentEventSource]. *)
Class EnrollmentEventSource (S E : Type) : Type := next_event : M S E EnrollmentEvent.t.

Module EnrollmentOutcome.
Inductive t : Type :=
| Completed (identifier : IdentityIdentifier)
| TimedOut.
End EnrollmentOutcome.

Module EnrollmentStage.
Inductive t : Type := Start | Continue | IdentityList | Cancel.
End EnrollmentStage.

Inductive EnrollmentError (TE EE : Type) : Type :=
| CommandE (stage : EnrollmentStage.t) (error : CommandError)
| Transport (stage : EnrollmentStage.t) (error : TE)
| Event (error : EE)
| MesaE (error : MesaError)
| CompletedIdentityAbsent.
Arguments CommandE {TE EE} stage error.
Arguments Transport {TE EE} stage error.
Arguments Event {TE EE} error.
Arguments MesaE {TE EE} error.
Arguments CompletedIdentityAbsent {TE EE}.

Section Operations.
Context {T TE : Type} `{BiometricTransport T TE}.
Context {S EE : Type} `{EnrollmentEventSource S EE}.
Context {P : Type}.

Definition stage_execute (packet : CommandPacket) (stage : EnrollmentStage.t)
    : M T (EnrollmentError TE EE) bytes :=
  mapM_err (Transport stage) (execute packet).

Definition validate_response (stage : EnrollmentStage.t) (response : bytes)
    : res (EnrollmentError TE EE) unit :=
  map_err (CommandE stage) (validate_empty_response response).

Definition cancel_required : M T (EnrollmentError TE EE) unit :=
  do! response := stage_execute cancel_operation_command EnrollmentStage.Cancel in
  lift (validate_response EnrollmentStage.Cancel response).

(** [cancel_best_effort]: its failure is dropped. *)
Definition cancel_best_effort : M T (EnrollmentError TE EE) unit :=
  fun t => match execute cancel_operation_command t with
           | (Panic, t) => (Panic, t)
           | (_, t) => (Ok tt, t)
           end.

(** The loop of [verify_fresh_identity] over the records. *)
Definition find_fresh (user : BiometricUserId) (id : IdentityIdentifier) (records : list bytes)
    : res (EnrollmentError TE EE) bool :=
  foldM (fun found record =>
    let! i := map_err MesaE (parse_identity record) in
    Ok (found || (id_user_id i =? cast_signed 32 user) && bool_decide (identifier i = id)))
    false records.

Definition verify_fresh_identity (user : BiometricUserId) (id : IdentityIdentifier)
    : M T (EnrollmentError TE EE) unit :=
  do! response := stage_execute (identities_command user) EnrollmentStage.IdentityList in
  do! _ := lift (map_err (CommandE EnrollmentStage.IdentityList)
                   (validate_identity_list_response response)) in
  do! found := lift (find_fresh user id (chunks_all IDENTITY_V1_SIZE response)) in
  if (found : bool) then ret tt else lift (Err CompletedIdentityAbsent).

(** The continue command of the wait loop. *)
Definition continue_enrollment : M T (EnrollmentError TE EE) unit :=
  do! response := stage_execute continue_enrollment_command EnrollmentStage.Continue in
  lift (validate_response EnrollmentStage.Continue response).

Definition report (callback : option (Z -> P -> P)) (value : Z) (progress : P) : P :=
  match callback with Some f => f value progress | None => progress end.

(** One turn of the loop of [wait_for_completion]: [None] goes round again. *)
Definition completion_step (callback : option (Z -> P -> P)) (user : BiometricUserId)
    (transport : T) (events : S) (progress : P)
    : option (res (EnrollmentError TE EE) EnrollmentOutcome.t) * T * S * P :=
  match next_event events with
  | (Err e, events) => (Some (Err (Event e)), transport, events, progress)
  | (Panic, events) => (Some Panic, transport, events, progress)
  | (Ok EnrollmentEvent.TimedOut, events) =>
      (Some (Ok EnrollmentOutcome.TimedOut), transport, events, progress)
  | (Ok (EnrollmentEvent.ServiceStatus event), events) =>
      match parse_mesa_message event with
      | Err e => (Some (Err (MesaE e)), transport, events, progress)
      | Panic => (Some Panic, transport, events, progress)
      | Ok None => (None, transport, events, progress)
      | Ok (Some message) =>
          if enrollment_needs_continue message then
            let progress := report callback (in_value message) progress in
            match continue_enrollment transport with
            | (Ok _, transport) => (None, transport, events, progress)
            | (Err e, transport) => (Some (Err e), transport, events, progress)
            | (Panic, transport) => (Some Panic, transport, events, progress)
            end
          else
            match enrollment_completion message (cast_signed 32 user) with
            | Err e => (Some (Err (MesaE e)), transport, events, progress)
            | Panic => (Some Panic, transport, events, progress)
            | Ok None => (None, transport, events, progress)
            | Ok (Some id) =>
                match verify_fresh_identity user id transport with
                | (Ok _, transport) =>
                    (Some (Ok (EnrollmentOutcome.Completed id)), transport, events, progress)
                | (Err e, transport) => (Some (Err e), transport, events, progress)
                | (Panic, transport) => (Some Panic, transport, events, progress)
                end
            end
      end
  end.

Fixpoint wait_for_completion (fuel : nat) (callback : option (Z -> P -> P))
    (user : BiometricUserId) (transport : T) (events : S) (progress : P)
    : option (res (EnrollmentError TE EE) EnrollmentOutcome.t * T * S * P) :=
  match fuel with
  | O => None
  | Datatypes.S fuel =>
      match completion_step callback user transport events progress with
      | (None, transport, events, progress) =>
          wait_for_completion fuel callback user transport events progress
      | (Some r, transport, events, progress) => Some (r, transport, events, progress)
      end
  end.

(** The packet that starts the enrollment, checked before anything is sent. *)
Definition enrollment_start (user_id : Z) (credential_set : option bytes)
    : res (EnrollmentError TE EE) (BiometricUserId * CommandPacket) :=
  let! user := map_err (fun e => CommandE EnrollmentStage.Start (PolicyE e)) (user_id_new user_id) in
  let! start := map_err (CommandE EnrollmentStage.Start)
                  (start_enrollment_command user credential_set) in
  Ok (user, start).

(** The end of [run_enrollment], after the start was acknowledged. *)
Definition conclude (result : res (EnrollmentError TE EE) EnrollmentOutcome.t)
    : M T (EnrollmentError TE EE) EnrollmentOutcome.t :=
  match result with
  | Ok EnrollmentOutcome.TimedOut =>
      do! _ := cancel_required in ret EnrollmentOutcome.TimedOut
  | Ok completed => ret completed
  | Err primary => do! _ := cancel_best_effort in lift (Err primary)
  | Panic => lift Panic
  end.

Definition run_enrollment (fuel : nat) (transport : T) (events : S) (user_id : Z)
    (credential_set : option bytes) (callback : option (Z -> P -> P)) (progress : P)
    : option (res (EnrollmentError TE EE) EnrollmentOutcome.t * T * S * P) :=
  match enrollment_start user_id credential_set with
  | Err e => Some (Err e, transport, events, progress)
  | Panic => Some (Panic, transport, events, progress)
  | Ok (user, start) =>
      let '(start_result, transport) :=
        (do! response := stage_execute start EnrollmentStage.Start in
         lift (validate_response EnrollmentStage.Start response)) transport in
      match start_result with
      | Err primary =>
          let '(r, transport) := conclude (Err primary) transport in
          Some (r, transport, events, progress)
      | Panic => Some (Panic, transport, events, progress)
      | Ok _ =>
          match wait_for_completion fuel callback user transport events progress with
          | None => None
          | Some (result, transport, events, progress) =>
              let '(r, transport) := conclude result transport in
              Some (r, transport, events, progress)
          end
      end
  end.

End Operations.

(** ** What the workflow sends, and what completion means *)

Section Theorems.
Context {T TE : Type} `{BiometricTransport T TE}.
Context {S EE : Type} `{EnrollmentEventSource S EE}.
Context {P : Type}.

(** The response lists the identity [id] of the user. *)
Definition lists_identity (r : res TE bytes) (user : BiometricUserId) (id : IdentityIdentifier) : Prop :=
  exists bs record i, r = Ok bs /\ record ∈ chunks IDENTITY_V1_SIZE bs /\
    parse_identity record = Ok i /\ id_user_id i = cast_signed 32 user /\ identifier i = id.

Lemma stage_run (packet : CommandPacket) stage t ps :
  stage_execute (EE := EE) packet stage (after t ps) =
  (map_err (Transport stage) (response t ps packet), after t (ps ++ [packet])).
Proof. unfold stage_execute, mapM_err. by rewrite execute_response. Qed.

(** Runs of a command that expects an empty response. *)
Lemma acknowledged_run packet stage t ps :
  (do! bs := stage_execute (EE := EE) packet stage in lift (validate_response stage bs)) (after t ps) =
  (let! bs := map_err (Transport stage) (response t ps packet) in validate_response stage bs,
   after t (ps ++ [packet])).
Proof. unfold bind, lift. rewrite stage_run. by destruct (map_err _ _). Qed.

Lemma find_fresh_true user id records :
  find_fresh (TE := TE) (EE := EE) user id records = Ok true ->
  exists record i, record ∈ records /\ parse_identity record = Ok i /\
    id_user_id i = cast_signed 32 user /\ identifier i = id.
Proof.
  unfold find_fresh. enough (forall b, foldM _ b records = Ok true -> b = true \/ _) as Hgen
    by (intros Hf; destruct (Hgen false Hf) as [Hb|Hb]; [discriminate Hb|exact Hb]).
  induction records as [|record records IH]; cbn [foldM]; intros b Hf; [left; congruence|].
  destruct (parse_identity record) as [i| |] eqn:Hi; try discriminate Hf. cbn [map_err] in Hf.
  apply IH in Hf as [Hf|(rec & j & Hin & Hj)].
  - apply orb_true_iff in Hf as [Hf|Hf]; [by left|]. right. exists record, i.
    apply andb_true_iff in Hf as [Hu Hd]. apply Z.eqb_eq in Hu. apply bool_decide_eq_true in Hd.
    split_and!; [by left|done..].
  - right. exists rec, j. by split; [right|].
Qed.

Lemma identity_list_exact bs x :
  validate_identity_list_response bs = Ok x -> chunks_all IDENTITY_V1_SIZE bs = chunks IDENTITY_V1_SIZE bs.
Proof.
  unfold validate_identity_list_response. intros Hv. apply chunks_all_exact; [done|].
  destruct (length bs mod IDENTITY_V1_SIZE =? 0)%nat eqn:E; [by apply Nat.eqb_eq|done].
Qed.

Lemma verify_run user id t ps r t1 :
  verify_fresh_identity (EE := EE) user id (after t ps) = (r, t1) ->
  t1 = after t (ps ++ [identities_command user]) /\
  (r = Ok tt -> lists_identity (response t ps (identities_command user)) user id).
Proof.
  unfold verify_fresh_identity, bind, lift. rewrite stage_run. intros Hr.
  destruct (response t ps (identities_command user)) as [bs|e|] eqn:Hbs; cbn [map_err] in Hr; [|by simplify_eq..].
  destruct (validate_identity_list_response bs) as [x|e|] eqn:Hv; cbn [map_err] in Hr; [|by simplify_eq..].
  rewrite (identity_list_exact bs x Hv) in Hr.
  destruct (find_fresh user id _) as [[]|e|] eqn:Hf; unfold ret in Hr; simplify_eq; split; try done.
  intros _. apply find_fresh_true in Hf as (record & i & Hin & Hi & Hu & Hd). by exists bs, record, i.
Qed.

(** A value of the progress that asks to continue. *)
Definition progress_value (v : Z) : Prop :=
  MESA_ENROLLMENT_CONTINUE_MIN <= v <= MESA_ENROLLMENT_CONTINUE_MAX.

Definition reported (callback : option (Z -> P -> P)) (vs : list Z) (p : P) : P :=
  fold_left (fun p v => report callback v p) vs p.

(** How a turn that ends the loop leaves the transport. *)
Definition ends (t : T) (ps : list CommandPacket) (user : BiometricUserId)
    (r : res (EnrollmentError TE EE) EnrollmentOutcome.t) (tail : list CommandPacket) : Prop :=
  match r with
  | Ok (EnrollmentOutcome.Completed id) =>
      tail = [identities_command user] /\
      lists_identity (response t ps (identities_command user)) user id
  | Ok EnrollmentOutcome.TimedOut => tail = []
  | Err _ => tail = [] \/ tail = [identities_command user]
  | Panic => True
  end.

(** What one turn does: [vs] are the values it reported, one for each continue. *)
Definition turn (callback : option (Z -> P -> P)) (user : BiometricUserId) (t : T)
    (ps : list CommandPacket) (p : P) (r : option (res (EnrollmentError TE EE) EnrollmentOutcome.t))
    (t1 : T) (p1 : P) : Prop :=
  exists vs tail, t1 = after t (ps ++ replicate (length vs) continue_enrollment_command ++ tail) /\
    p1 = reported callback vs p /\ Forall progress_value vs /\
    match r with
    | None => tail = []
    | Some r => ends t (ps ++ replicate (length vs) continue_enrollment_command) user r tail
    end.

Lemma turn_idle callback user t ps p r :
  match r with None => True | Some r => ends t ps user r [] end ->
  turn callback user t ps p r (after t ps) p.
Proof.
  intros Hr. exists [], []. cbn. rewrite app_nil_r. split_and!; [done..|constructor|].
  by destruct r.
Qed.

Lemma step_run callback user t ps s p r t1 s1 p1 :
  completion_step (TE := TE) (EE := EE) callback user (after t ps) s p = (r, t1, s1, p1) ->
  r <> Some Panic -> turn callback user t ps p r t1 p1.
Proof.
  unfold completion_step. intros Hs Hp.
  destruct (next_event s) as [[[event|]|e|] s']; [|simplify_eq; apply turn_idle; cbn; auto..|by simplify_eq].
  destruct (parse_mesa_message event) as [[message|]|e|];
    [|simplify_eq; apply turn_idle; cbn; auto..|by simplify_eq].
  destruct (enrollment_needs_continue message) eqn:Hc.
  - unfold enrollment_needs_continue in Hc. b2p.
    unfold continue_enrollment in Hs. rewrite acknowledged_run in Hs.
    exists [in_value message], []. rewrite app_nil_r. cbn [length replicate reported fold_left].
    destruct (let! bs := _ in _) as [x|e|]; simplify_eq; split_and!; try done;
      try (constructor; [done|constructor]). by left.
  - destruct (enrollment_completion message _) as [[id|]|e|];
      [|simplify_eq; apply turn_idle; cbn; auto..|by simplify_eq].
    destruct (verify_fresh_identity user id _) as [rv tv] eqn:Hv. apply verify_run in Hv as [-> Hv].
    exists [], [identities_command user]. cbn [length replicate reported fold_left app].
    destruct rv as [[]|e|]; simplify_eq; split_and!; try done; cbn [ends]; rewrite ?app_nil_r; auto.
Qed.

Lemma turn_trans callback user t ps p t1 p1 r t2 p2 :
  turn callback user t ps p None t1 p1 ->
  (forall ps1, t1 = after t ps1 -> turn callback user t ps1 p1 r t2 p2) ->
  turn callback user t ps p r t2 p2.
Proof.
  intros (vs & tail & -> & -> & Hvs & ->) Hr. rewrite app_nil_r in Hr.
  destruct (Hr _ eq_refl) as (ws & tail' & -> & -> & Hws & Htail). exists (vs ++ ws), tail'.
  rewrite length_app, replicate_add, <- !app_assoc in *. split_and!; [done| | |done].
  - unfold reported. by rewrite fold_left_app.
  - by apply Forall_app.
Qed.

Lemma wait_run fuel callback user t ps s p r t1 s1 p1 :
  wait_for_completion (TE := TE) (EE := EE) fuel callback user (after t ps) s p = Some (r, t1, s1, p1) ->
  no_panic r -> turn callback user t ps p (Some r) t1 p1.
Proof.
  revert ps s p. induction fuel as [|fuel IH]; intros ps s p Hw Hp; [done|]. cbn [wait_for_completion] in Hw.
  destruct (completion_step callback user (after t ps) s p) as [[[[r'|] t'] s'] p'] eqn:Hs.
  - simplify_eq. eapply step_run; [exact Hs|]. intros [= ->]. by apply Hp.
  - apply step_run in Hs; [|done]. eapply turn_trans; [exact Hs|]. intros ps1 ->. by eapply IH.
Qed.

Lemma conclude_run result t ps r t1 :
  conclude (TE := TE) (EE := EE) result (after t ps) = (r, t1) -> no_panic r ->
  match result with
  | Ok EnrollmentOutcome.TimedOut =>
      t1 = after t (ps ++ [cancel_operation_command]) /\
      (r = Ok EnrollmentOutcome.TimedOut \/ exists e, r = Err e)
  | Ok completed => t1 = after t ps /\ r = Ok completed
  | Err e => t1 = after t (ps ++ [cancel_operation_command]) /\ r = Err e
  | Panic => False
  end.
Proof.
  unfold conclude, no_panic. intros Hc Hp. destruct result as [[id|]|e|]; [by unfold ret in Hc; simplify_eq| | |].
  - unfold cancel_required, bind at 1 in Hc. rewrite acknowledged_run in Hc. unfold ret in Hc.
    destruct (let! bs := _ in _) as [x|e|]; simplify_eq; eauto.
  - unfold cancel_best_effort, bind, lift in Hc. rewrite execute_response in Hc.
    by destruct (response t ps _); simplify_eq.
  - unfold lift in Hc. by simplify_eq.
Qed.

(** The commands of an enrollment are a start, one continue for every
    progress value that was reported, and then: the identity list, when the
    enrollment completed; a cancellation, when it timed out; and a cancellation as
    the last command after any failure. An invalid user or credential sends
    nothing. *)
Theorem enrollment_commands fuel (t : T) (s : S) user_id credential callback (p : P) r t' s' p' :
  run_enrollment (TE := TE) (EE := EE) fuel t s user_id credential callback p = Some (r, t', s', p') ->
  no_panic r ->
  match enrollment_start (TE := TE) (EE := EE) user_id credential with
  | Ok (user, start) =>
      exists vs tail,
        t' = after t (start :: replicate (length vs) continue_enrollment_command ++ tail) /\
        p' = reported callback vs p /\ Forall progress_value vs /\
        match r with
        | Ok (EnrollmentOutcome.Completed _) => tail = [identities_command user]
        | Ok EnrollmentOutcome.TimedOut => tail = [cancel_operation_command]
        | _ => tail = [cancel_operation_command] \/
               tail = [identities_command user; cancel_operation_command]
        end
  | _ => t' = t /\ s' = s /\ p' = p
  end.
Proof.
  unfold run_enrollment, no_panic. intros Hr Hp.
  destruct (enrollment_start user_id credential) as [[user start]|e|]; [|by simplify_eq..].
  change t with (after t []) in Hr. rewrite acknowledged_run in Hr. cbn [app] in Hr.
  destruct (let! bs := _ in _) as [x|e|]; [| |by simplify_eq].
  - destruct (wait_for_completion _ _ _ _ _ _) as [[[[result t1] s1] p1]|] eqn:Hw; [|done].
    destruct (conclude result t1) as [r' t2] eqn:Hc. simplify_eq.
    assert (no_panic result) as Hn by (by intros ->; unfold conclude, lift in Hc; simplify_eq).
    apply wait_run in Hw as (vs & tail & -> & -> & Hvs & Htail); [|done].
    apply conclude_run in Hc; [|done]. exists vs. rewrite <- !app_assoc in *. cbn [app] in *.
    destruct result as [[id|]|e|]; cbn [ends] in Htail; [| | |done].
    + destruct Hc as [-> ->], Htail as [-> _]. by eexists.
    + destruct Hc as [-> [->|[e ->]]]; subst tail; eexists; split_and!; eauto.
    + destruct Hc as [-> ->], Htail as [->| ->]; eexists; split_and!; eauto.
  - destruct (conclude (Err e) _) as [r' t2] eqn:Hc. simplify_eq. apply conclude_run in Hc as [-> ->]; [|done].
    exists [], [cancel_operation_command]. cbn. split_and!; [done..|constructor|by left].
Qed.

(** The source after [n] events. *)
Fixpoint source_after (n : nat) (s : S) : S :=
  match n with O => s | Datatypes.S n => source_after n (snd (next_event s)) end.

Definition is_callback (r : res EE EnrollmentEvent.t) : bool :=
  match r with Ok (EnrollmentEvent.ServiceStatus _) => true | _ => false end.

Lemma step_source callback user (t : T) s (p : P) r t1 s1 p1 :
  completion_step (TE := TE) (EE := EE) callback user t s p = (r, t1, s1, p1) ->
  s1 = snd (next_event s) /\ (is_callback (fst (next_event s)) = false -> is_Some r).
Proof.
  unfold completion_step. intros Hs. destruct (next_event s) as [[[event|]|e|] s']; cbn [fst snd is_callback];
    [|by simplify_eq..].
  split; [|done].
  destruct (parse_mesa_message event) as [[message|]|e|]; [|by simplify_eq..].
  destruct (enrollment_needs_continue message).
  { by destruct (continue_enrollment t) as [[] ?]; simplify_eq. }
  destruct (enrollment_completion message _) as [[id|]|e|]; [|by simplify_eq..].
  by destruct (verify_fresh_identity user id t) as [[] ?]; simplify_eq.
Qed.

(** The last event taken from the source, number [n], says that [id] is the new identity. *)
Definition announced (user : BiometricUserId) (id : IdentityIdentifier) (s s' : S) : Prop :=
  exists n event message, fst (next_event (source_after n s)) = Ok (EnrollmentEvent.ServiceStatus event) /\
    s' = source_after (Datatypes.S n) s /\ parse_mesa_message event = Ok (Some message) /\
    enrollment_completion message (cast_signed 32 user) = Ok (Some id).

Lemma step_announced callback user (t : T) s (p : P) id t1 s1 p1 :
  completion_step (TE := TE) (EE := EE) callback user t s p =
    (Some (Ok (EnrollmentOutcome.Completed id)), t1, s1, p1) -> announced user id s s1.
Proof.
  unfold completion_step. intros Hs. destruct (next_event s) as [[[event|]|e|] s'] eqn:Hn; [|by simplify_eq..].
  destruct (parse_mesa_message event) as [[message|]|e|] eqn:Hm; [|by simplify_eq..].
  destruct (enrollment_needs_continue message); [by destruct (continue_enrollment t) as [[] ?]; simplify_eq|].
  destruct (enrollment_completion message _) as [[id'|]|e|] eqn:Hc; [|by simplify_eq..].
  destruct (verify_fresh_identity user id' t) as [[] ?]; simplify_eq.
  exists 0%nat, event, message. cbn [source_after]. by rewrite Hn.
Qed.

Lemma wait_announced fuel callback user (t : T) s (p : P) id t1 s1 p1 :
  wait_for_completion (TE := TE) (EE := EE) fuel callback user t s p =
    Some (Ok (EnrollmentOutcome.Completed id), t1, s1, p1) -> announced user id s s1.
Proof.
  revert t s p. induction fuel as [|fuel IH]; intros t s p Hw; [done|]. cbn [wait_for_completion] in Hw.
  destruct (completion_step callback user t s p) as [[[[r|] t2] s2] p2] eqn:Hs.
  - simplify_eq. by eapply step_announced.
  - apply step_source in Hs as [-> _].
    destruct (IH _ _ _ Hw) as (n & event & message & H1 & H2). exists (Datatypes.S n), event, message. done.
Qed.

(** C27. An enrollment completes only with an identifier that the last event of the source
    announced and that a fresh identity list holds for the requested user. The commands it
    sent are then exactly the start, one continue for each progress value it reported, and
    the identity query, as the last command of all: the list is the answer to the query
    sent after the start and every capture, and nothing is sent after it. *)
Theorem completed_is_listed fuel (t : T) (s : S) user_id credential callback (p : P) id t' s' p' :
  run_enrollment (TE := TE) (EE := EE) fuel t s user_id credential callback p =
    Some (Ok (EnrollmentOutcome.Completed id), t', s', p') ->
  exists user start vs, enrollment_start (TE := TE) (EE := EE) user_id credential = Ok (user, start) /\
    let captures := start :: replicate (length vs) continue_enrollment_command in
    t' = after t (captures ++ [identities_command user]) /\
    lists_identity (response t captures (identities_command user)) user id /\
    announced user id s s' /\ p' = reported callback vs p /\ Forall progress_value vs.
Proof.
  unfold run_enrollment. intros Hr.
  destruct (enrollment_start user_id credential) as [[user start]|e|]; [|by simplify_eq..].
  change t with (after t []) in Hr. rewrite acknowledged_run in Hr. cbn [app] in Hr.
  destruct (let! bs := _ in _) as [x|e|]; [| |by simplify_eq].
  - destruct (wait_for_completion _ _ _ _ _ _) as [[[[result t1] s1] p1]|] eqn:Hw; [|done].
    destruct (conclude result t1) as [r' t2] eqn:Hc. simplify_eq.
    assert (no_panic result) as Hn by (by intros ->; unfold conclude, lift in Hc; simplify_eq).
    pose proof Hw as Hw'. apply wait_run in Hw as (vs & tail & -> & -> & Hvs & Htail); [|done].
    apply conclude_run in Hc; [|done]. destruct result as [[id'|]|e|]; [| | |done].
    + destruct Hc as [-> [= ->]]. destruct Htail as [-> Hl]. exists user, start, vs. split; [done|].
      cbv zeta. split_and!; [done|exact Hl|by eapply wait_announced|done|done].
    + by destruct Hc as [_ [Hc|[e Hc]]].
    + by destruct Hc as [_ Hc].
  - destruct (conclude (Err e) _) as [r' t2] eqn:Hc. simplify_eq. by apply conclude_run in Hc as [_ Hc].
Qed.

(** An enrollment ends: once the source of events reports the deadline, or
    fails, after [n] callbacks, the operation returns, and its answer does not
    depend on how long the loop may run. *)
Theorem enrollment_returns (t : T) (s : S) user_id credential callback (p : P) n :
  is_callback (fst (next_event (source_after n s))) = false ->
  exists out, forall fuel, (n < fuel)%nat ->
    run_enrollment (TE := TE) (EE := EE) fuel t s user_id credential callback p = Some out.
Proof.
  intros Hdead. unfold run_enrollment.
  destruct (enrollment_start user_id credential) as [[user start]|e|]; [|eauto..].
  destruct ((do! _ := _ in _) t) as [[x|e|] t1]; [|by destruct (conclude _ t1); eauto|eauto].
  assert (exists out, forall fuel, (n < fuel)%nat ->
    wait_for_completion (TE := TE) (EE := EE) fuel callback user t1 s p = Some out) as [[[[r t2] s2] p2] Hw].
  { clear -Hdead. revert s t1 p Hdead. induction n as [|n IH]; intros s t1 p Hdead;
      destruct (completion_step callback user t1 s p) as [[[[r|] t2] s2] p2] eqn:Hs.
    2:{ apply step_source in Hs as [_ Hr]. cbn in Hdead. by destruct (Hr Hdead). }
    3:{ pose proof Hs as Hs'. apply step_source in Hs' as [-> _]. destruct (IH _ t2 p2 Hdead) as [out Hout].
        exists out. intros [|fuel] Hf; [lia|]. cbn [wait_for_completion]. rewrite Hs. apply Hout. lia. }
    all: eexists; intros [|fuel] Hf; [lia|]; cbn [wait_for_completion]; by rewrite Hs. }
  destruct (conclude r t2) as [r' t3] eqn:Hc. eexists. intros fuel Hf. rewrite Hw by done. by rewrite Hc.
Qed.

End Theorems.

(** ** A concrete enrollment *)

#[local] Instance scripted_events : EnrollmentEventSource (list EnrollmentEvent.t) Z :=
  fun events =>
    match events with
    | [] => (Ok EnrollmentEvent.TimedOut, [])
    | e :: events => (Ok e, events)
    end.

Definition ex_message (status in_value : Z) (payload : bytes) : EnrollmentEvent.t :=
  EnrollmentEvent.ServiceStatus
    (mkEvent MESA_SERVICE_MESSAGE
      (le_bytes 8 0 ++ le_bytes 4 status ++ le_bytes 4 1 ++ le_bytes 8 0 ++ le_bytes 8 in_value ++
       le_bytes 8 (len payload) ++ payload) 0 0).
Definition ex_record : bytes := le_bytes 4 501 ++ replicate 16 7.
Definition ex_events : list EnrollmentEvent.t :=
  [ex_message MESA_ENROLLMENT_STATUS 0x70 []; ex_message MESA_ENROLLMENT_COMPLETE 0 ex_record].
Definition ex_script : list (res Z bytes) := [Ok []; Ok []; Ok ex_record].
Definition ex_run fuel := run_enrollment fuel ex_script ex_events 501 None (Some (fun v vs => vs ++ [v])) [].

Lemma ex_run_completes :
  ex_run 3 = Some (Ok (EnrollmentOutcome.Completed (replicate 16 7)), [], [], [0x70]).
Proof. vm_compute. reflexivity. Qed.

Lemma enrollment_commands_witness :
  exists user start vs, enrollment_start (TE := Z) (EE := Z) 501 None = Ok (user, start) /\
    [] = after (E := Z) ex_script
           (start :: replicate (length vs) continue_enrollment_command ++ [identities_command user]) /\
    [0x70] = reported (Some (fun v vs => vs ++ [v])) vs [].
Proof.
  pose proof (enrollment_commands _ _ _ _ _ _ _ _ _ _ _ ex_run_completes ltac:(discriminate)) as H.
  destruct (enrollment_start 501 None) as [[user start]| |] eqn:Hs; [|discriminate Hs..].
  destruct H as (vs & tail & Ht & Hp & _ & ->). exists user, start, vs.
  split; [reflexivity|]. split; [exact Ht|exact Hp].
Defined.

Lemma completed_is_listed_witness :
  exists user start (vs : list Z), enrollment_start (TE := Z) (EE := Z) 501 None = Ok (user, start) /\ length vs = 1%nat /\
    lists_identity (response (E := Z) ex_script (start :: replicate 1 continue_enrollment_command)
      (identities_command user)) user (replicate 16 7).
Proof.
  destruct (completed_is_listed _ _ _ _ _ _ _ _ _ _ _ ex_run_completes)
    as (user & start & vs & Hs & _ & Hl & _ & Hp & _).
  assert (length vs = 1%nat) as Hv.
  { clear -Hp. assert (forall (vs : list Z) p, reported (Some (fun v l => l ++ [v])) vs p = p ++ vs) as Hr.
    { induction vs0 as [|v vs0 IH]; intros p; cbn; [by rewrite app_nil_r|]. unfold reported in IH. by rewrite IH, <- app_assoc. }
    rewrite Hr in Hp. cbn in Hp. by subst vs. }
  rewrite Hv in Hl. exists user, start, vs. split_and!; [exact Hs|exact Hv|exact Hl].
Defined.

Lemma enrollment_returns_witness :
  exists out, forall fuel, (2 < fuel)%nat -> ex_run fuel = Some out.
Proof. apply (enrollment_returns ex_script ex_events). vm_compute. reflexivity. Defined.

End EnrollWorkflow.
