(* ===== verification/UserWorkflow.v ===== *)
(** * Preparing and rebinding a biometric user
    ([crates/t1-bridge/src/user_workflow.rs] and [prime_workflow.rs])

    Selecting a user, refreshing the component map and reading the identities,
    the removal of an empty user before it is bound again, and the two read-only
    queries that prime the service. *)

From S2P Require Import Prelude Effects Policy Biometric Mesa Commands Control MatchWorkflow.

Module UserWorkflow.
Import Policy Biometric Catacomb Commands Mesa.

Inductive UserWorkflowError (E : Type) : Type :=
| Transport (error : E)
| CommandE (error : CommandError)
| ResponseE (error : ResponseError)
| CatacombE (error : CatacombError)
| MesaE (error : MesaError)
| IdentityForWrongUser
| RebindHasEnrolledIdentities.
Arguments Transport {E} error.
Arguments CommandE {E} error.
Arguments ResponseE {E} error.
Arguments CatacombE {E} error.
Arguments MesaE {E} error.
Arguments IdentityForWrongUser {E}.
Arguments RebindHasEnrolledIdentities {E}.

Section Operations.
Context {T E : Type} `{BiometricTransport T E}.

(** The module's own [execute]. *)
Definition user_execute (packet : CommandPacket) : M T (UserWorkflowError E) bytes :=
  mapM_err Transport (execute packet).

Definition read_catacomb_states : M T (UserWorkflowError E) (list CatacombStateEntry) :=
  do! daemon_response := user_execute daemon_info_command in
  do! daemon_info := lift (map_err ResponseE (parse_daemon_info daemon_response)) in
  do! states_command := lift (map_err CommandE (catacomb_states_command (component_count daemon_info))) in
  do! states_response := user_execute states_command in
  lift (map_err CatacombE (parse_catacomb_states states_response (component_count daemon_info))).

Definition refresh_catacomb_state : M T (UserWorkflowError E) Z :=
  do! states := read_catacomb_states in ret (len states).

Definition select_user (user_id : Z) : M T (UserWorkflowError E) unit :=
  do! command := lift (map_err CommandE (set_active_user_command user_id)) in
  do! response := user_execute command in
  lift (map_err CommandE (validate_empty_response response)).

(** The identities of a response of [read_identities]; [as_chunks] drops a partial
    last record. *)
Definition identities_of (user_id : BiometricUserId) (response : bytes)
    : res (UserWorkflowError E) (list Identity) :=
  let! _ := map_err CommandE (validate_identity_list_response response) in
  let! identities := map_err MesaE
    (MatchWorkflow.collect parse_identity (chunks IDENTITY_V1_SIZE response)) in
  if existsb (fun i => negb (id_user_id i =? cast_signed 32 user_id)) identities
  then Err IdentityForWrongUser else Ok identities.

Definition read_identities (user_id : BiometricUserId) : M T (UserWorkflowError E) (list Identity) :=
  do! response := user_execute (identities_command user_id) in
  lift (identities_of user_id response).

Definition list_user_identities (user_id : BiometricUserId)
    : M T (UserWorkflowError E) (list Identity) := read_identities user_id.

Definition prepare_user (user_id : BiometricUserId) : M T (UserWorkflowError E) (list Identity) :=
  do! _ := select_user user_id in
  do! _ := refresh_catacomb_state in
  read_identities user_id.

Definition rebind_empty_user (user_id : BiometricUserId) : M T (UserWorkflowError E) (list Identity) :=
  do! identities := read_identities user_id in
  match identities with
  | _ :: _ => lift (Err RebindHasEnrolledIdentities)
  | [] =>
      do! response := user_execute (remove_user_command user_id) in
      do! _ := lift (map_err CommandE (validate_empty_response response)) in
      do! _ := select_user (-1) in
      do! _ := refresh_catacomb_state in
      prepare_user user_id
  end.

Definition refresh_user (user_id : BiometricUserId) : M T (UserWorkflowError E) (list Identity) :=
  do! _ := select_user (-1) in
  prepare_user user_id.

End Operations.

(** ** Workflows that remove nothing *)

(** A selection or a read. *)
Definition harmless (p : CommandPacket) : Prop :=
  p = daemon_info_command \/ (exists n, catacomb_states_command n = Ok p) \/
  (exists u, set_active_user_command u = Ok p) \/ exists u, p = identities_command u.

Section Theorems.
Context {T E : Type} `{BiometricTransport T E}.

(** [m] sends harmless commands only, and [P] holds of a result and of them. *)
Definition reads {A} (m : M T (UserWorkflowError E) A) (P : A -> list CommandPacket -> Prop) : Prop :=
  forall t ps, runs t ps m (fun r qs => exists rest, qs = ps ++ rest /\ Forall harmless rest /\
    forall a, r = Ok a -> P a rest).

Lemma reads_bind {A B} (m : M T _ A) (k : A -> M T _ B) P P2 :
  reads m P -> (forall a, reads (k a) (P2 a)) ->
  reads (bind m k) (fun b rest => exists a r1 r2, rest = r1 ++ r2 /\ P a r1 /\ P2 a b r2).
Proof.
  intros Hm Hk t ps. run_step. eapply runs_mono; [apply Hm|]. cbn beta. intros r qs (r1 & -> & Hr1 & HP).
  destruct r as [a|e|]; [|by exists r1..]. eapply runs_mono; [apply (Hk a)|]. cbn beta.
  intros r qs (r2 & -> & Hr2 & HP2). exists (r1 ++ r2). split; [by rewrite app_assoc|].
  split; [by apply Forall_app|]. intros b Hb. exists a, r1, r2. auto.
Qed.

Lemma reads_lift {A} (r : res _ A) : reads (lift r) (fun a rest => rest = [] /\ r = Ok a).
Proof. intros t ps. run_step. exists []. rewrite app_nil_r. auto. Qed.

Lemma reads_execute p : harmless p -> reads (user_execute p) (fun _ rest => rest = [p]).
Proof.
  intros Hp t ps. unfold user_execute. do 2 run_step. exists [p]. auto.
Qed.

Lemma reads_mono {A} (m : M T _ A) (P P' : A -> list CommandPacket -> Prop) :
  reads m P -> (forall a rest, P a rest -> P' a rest) -> reads m P'.
Proof.
  intros Hm HP t ps. eapply runs_mono; [apply Hm|]. cbn beta. intros r qs (rest & -> & Hr & Ha).
  exists rest. split_and!; [done..|]. intros a Heq. by apply HP, Ha.
Qed.

Lemma reads_select u :
  reads (select_user u) (fun _ rest => exists p, set_active_user_command u = Ok p /\ rest = [p]).
Proof.
  intros t ps. unfold select_user, user_execute. do 2 run_step.
  destruct (set_active_user_command u) as [p|e|] eqn:Hp; cbn [map_err]; [|by exists []; rewrite app_nil_r..].
  assert (Forall harmless [p]) as Hf by (constructor; [right; right; left; eauto|constructor]).
  do 3 run_step. destruct (response t ps p) as [bs|e|]; cbn [map_err]; [|by exists [p]; auto..].
  run_step. exists [p]. split_and!; [done..|]. intros _ _. by exists p.
Qed.

(** The commands of a refresh. *)
Definition refresh_log (rest : list CommandPacket) : Prop :=
  exists n p, catacomb_states_command n = Ok p /\ rest = [daemon_info_command; p].

Lemma reads_refresh : reads refresh_catacomb_state (fun _ rest => refresh_log rest).
Proof.
  intros t ps. unfold refresh_catacomb_state, read_catacomb_states, user_execute. do 4 run_step.
  assert (Forall harmless [daemon_info_command]) as Hd by (constructor; [by left|constructor]).
  destruct (response t ps daemon_info_command) as [bs|e|]; cbn [map_err]; [|by exists [daemon_info_command]; auto..].
  do 2 run_step. destruct (parse_daemon_info bs) as [info|e|]; cbn [map_err]; [|by exists [daemon_info_command]; auto..].
  do 2 run_step. destruct (catacomb_states_command (component_count info)) as [p|e|] eqn:Hp; cbn [map_err];
    [|by exists [daemon_info_command]; auto..].
  assert (Forall harmless [daemon_info_command; p]) as Hf by (constructor; [by left|constructor; [right; left; eauto|constructor]]).
  do 3 run_step. rewrite <- app_assoc. cbn [app].
  destruct (response t (ps ++ [daemon_info_command]) p) as [sbs|e|]; cbn [map_err]; [|by exists [daemon_info_command; p]; auto..].
  run_step. destruct (parse_catacomb_states _ _) as [states|e|]; cbn [map_err]; [|by exists [daemon_info_command; p]; auto..].
  run_step. exists [daemon_info_command; p]. split_and!; [done..|]. intros _ _. by exists (component_count info), p.
Qed.

Lemma identities_of_user user bs ids :
  identities_of (E := E) user bs = Ok ids -> Forall (fun i => id_user_id i = cast_signed 32 user) ids.
Proof.
  unfold identities_of. intros Hi. destruct (map_err _ _) in Hi; [|done..]. destruct (map_err MesaE _) in Hi; [|done..].
  destruct (existsb _ _) eqn:Hx; [done|]. simplify_eq. apply existsb_false in Hx.
  eapply Forall_impl; [exact Hx|]. cbn. intros i Hn. b2p. done.
Qed.

Lemma reads_identities user :
  reads (read_identities user) (fun ids rest =>
    rest = [identities_command user] /\ Forall (fun i => id_user_id i = cast_signed 32 user) ids).
Proof.
  eapply reads_mono; [apply reads_bind; [apply reads_execute; do 3 right; by exists user|intros; apply reads_lift]|].
  cbn beta. intros ids rest (bs & r1 & r2 & -> & -> & -> & Hi). split; [done|]. by eapply identities_of_user.
Qed.

(** The commands that prepare [user]. *)
Definition prepare_log (user : BiometricUserId) (rest : list CommandPacket) : Prop :=
  exists select r, set_active_user_command user = Ok select /\ refresh_log r /\
    rest = [select] ++ r ++ [identities_command user].

Lemma reads_prepare user :
  reads (prepare_user user) (fun ids rest =>
    prepare_log user rest /\ Forall (fun i => id_user_id i = cast_signed 32 user) ids).
Proof.
  eapply reads_mono;
    [apply reads_bind; [apply reads_select|intros ?; apply reads_bind; [apply reads_refresh|intros ?; apply reads_identities]]|].
  cbn beta. intros ids rest (u1 & r1 & r2 & -> & (p & Hp & ->) & u2 & r3 & r4 & -> & Hr & -> & Hi).
  split; [|done]. by exists p, r3.
Qed.

(** Everything after the removal is a selection or a read, and success is the
    whole sequence. *)
Definition rebind_log (user : BiometricUserId) (t : T) (r : res (UserWorkflowError E) (list Identity))
    (log : list CommandPacket) : Prop :=
  (log = [identities_command user] /\ is_ok r = false) \/
  (response t [] (identities_command user) = Ok [] /\
   exists rest, log = identities_command user :: remove_user_command user :: rest /\
     Forall harmless rest /\
     forall ids, r = Ok ids ->
       Forall (fun i => id_user_id i = cast_signed 32 user) ids /\
       response t [identities_command user] (remove_user_command user) = Ok [] /\
       exists master r1 r2, set_active_user_command (-1) = Ok master /\
         refresh_log r1 /\ prepare_log user r2 /\ rest = [master] ++ r1 ++ r2).

Lemma identities_of_nil user bs : identities_of (E := E) user bs = Ok [] -> bs = [].
Proof.
  unfold identities_of, validate_identity_list_response. intros Hi. destruct (negb _) eqn:Hm in Hi; [done|].
  destruct (_ <? _)%nat in Hi; [done|]. cbn [map_err] in Hi. b2p. unfold chunks in Hi.
  destruct (length bs / IDENTITY_V1_SIZE)%nat as [|k] eqn:Hk.
  - apply nil_length_inv. pose proof (Nat.div_mod (length bs) IDENTITY_V1_SIZE ltac:(done)). lia.
  - cbn [chunks_k MatchWorkflow.collect] in Hi. destruct (parse_identity _) in Hi; [|done..]. 
    destruct (MatchWorkflow.collect _ _) in Hi; [|done..]. cbn [map_err] in Hi. by destruct (existsb _ _) in Hi.
Qed.

(** Rebinding a user removes it only after the sensor answered that it has no
    identities at all; otherwise nothing but that query is sent. After the removal
    only selections and reads follow, and a success has sent the master selection, a
    refresh, the user's selection, a refresh and a last query, whose identities all
    belong to the user. *)
Theorem rebind_guarded user (t : T) r t' :
  rebind_empty_user user t = (r, t') -> exists log, t' = after t log /\ rebind_log user t r log.
Proof.
  apply runs_start. unfold rebind_empty_user, read_identities, user_execute. do 4 run_step. cbn [app].
  destruct (response t [] (identities_command user)) as [bs|e|] eqn:Hbs; cbn [map_err]; [|by left..].
  run_step. destruct (identities_of user bs) as [[|i ids]|e|] eqn:Hi; [|run_step; by left|by left..].
  apply identities_of_nil in Hi as ->. do 3 run_step. cbn [app].
  destruct (response t [identities_command user] (remove_user_command user)) as [rbs|e|] eqn:Hr; cbn [map_err].
  2-3: right; split; [done|]; exists []; by repeat split.
  do 2 run_step. destruct (validate_empty_response rbs) as [[]|e|] eqn:Hv; cbn [map_err].
  2-3: right; split; [done|]; exists []; by repeat split.
  destruct rbs; [|done].
  assert (reads (do! _ := select_user (-1) in do! _ := refresh_catacomb_state in prepare_user user)
    (fun ids rest => Forall (fun i => id_user_id i = cast_signed 32 user) ids /\
       exists master r1 r2, set_active_user_command (-1) = Ok master /\
         refresh_log r1 /\ prepare_log user r2 /\ rest = [master] ++ r1 ++ r2)) as Hrest.
  { eapply reads_mono;
      [apply reads_bind; [apply reads_select|intros ?; apply reads_bind; [apply reads_refresh|intros ?; apply reads_prepare]]|].
    cbn beta. intros ids rest (u1 & r1 & r2 & -> & (p & Hp & ->) & u2 & r3 & r4 & -> & Hr3 & Hr4 & Hids).
    split; [done|]. exists p, r3, r4. auto. }
  eapply runs_mono; [apply Hrest|]. cbn beta. intros r0 qs (rest & -> & Hf & HP). right. split; [done|].
  exists rest. cbn [app]. split_and!; [done..|]. intros ids Hids. destruct (HP ids Hids). auto.
Qed.

End Theorems.

(** An empty user that is bound again. *)
Definition ex_script : list (res Z bytes) :=
  [Ok []; Ok []; Ok []; Ok (replicate 22 0 ++ [1]); Ok []; Ok []; Ok (replicate 22 0 ++ [1]); Ok []; Ok []].

Lemma rebind_guarded_witness :
  exists log, fst (rebind_empty_user (E := Z) 501 ex_script) = Ok [] /\
    rebind_log (E := Z) 501 ex_script (Ok []) log.
Proof.
  assert (rebind_empty_user (E := Z) 501 ex_script = (Ok [], [])) as Hrun by (vm_compute; reflexivity).
  destruct (rebind_guarded (E := Z) 501 ex_script _ _ Hrun) as (log & _ & Hlog). exists log. split; [|exact Hlog].
  by rewrite Hrun.
Defined.

End UserWorkflow.

(** ** Priming ([prime_workflow.rs]) *)

Module PrimeWorkflow.
Import Policy Biometric Commands.

Module PrimeStage.
Inductive t : Type := CalibrationStatus | SksLockState.
End PrimeStage.

Record PrimeResult : Type := mkPrime { calibration_status : Z; sks_lock_state : Z }.

Inductive PrimeError (E : Type) : Type :=
| Transport (stage : PrimeStage.t) (error : E)
| CalibrationStatusE (error : ResponseError)
| SksLockStateE (error : CommandError).
Arguments Transport {E} stage error.
Arguments CalibrationStatusE {E} error.
Arguments SksLockStateE {E} error.

Section Prime.
Context {T E : Type} `{BiometricTransport T E}.

Definition prime_biometric_service (user_id : BiometricUserId) : M T (PrimeError E) PrimeResult :=
  do! calibration := mapM_err (Transport PrimeStage.CalibrationStatus) (execute calibration_status_command) in
  do! calibration_status := lift (map_err CalibrationStatusE (parse_calibration_status calibration)) in
  do! lock_state := mapM_err (Transport PrimeStage.SksLockState) (execute (sks_lock_state_command user_id)) in
  do! sks_lock_state := lift (map_err SksLockStateE (parse_sks_lock_state lock_state)) in
  ret (mkPrime calibration_status sks_lock_state).

(** Priming sends its two queries in order and stops at the first failure. *)
Definition primed (user : BiometricUserId) (r : res (PrimeError E) PrimeResult)
    (log : list CommandPacket) : Prop :=
  (log = [calibration_status_command] \/ log = [calibration_status_command; sks_lock_state_command user]) /\
  (is_ok r = true -> log = [calibration_status_command; sks_lock_state_command user]).

Lemma prime_log user (t : T) r t' :
  prime_biometric_service user t = (r, t') -> exists log, t' = after t log /\ primed user r log.
Proof.
  apply runs_start. unfold prime_biometric_service. do 3 run_step. cbn [app].
  destruct (response t [] _) as [bs|e|]; cbn [map_err]; [|by split; [left|]..].
  do 2 run_step. destruct (parse_calibration_status bs) as [s|e|]; cbn [map_err]; [|by split; [left|]..].
  do 3 run_step. cbn [app]. destruct (response t _ _) as [lbs|e|]; cbn [map_err]; [|by split; [right|]..].
  do 2 run_step. destruct (parse_sks_lock_state lbs) as [s'|e|]; cbn [map_err]; [|by split; [right|]..].
  run_step. by split; [right|].
Qed.

End Prime.

End PrimeWorkflow.
