(* ===== verification/PolicyWorkflow.v ===== *)
(** * Protected-policy updates ([crates/t1-bridge/src/policy_workflow.rs])

    A policy is read before it is written, written with a bounded number of
    retries, and read back. The caller classifies transport failures and waits
    between the retries. *)

From S2P Require Import Prelude Effects Policy Biometric Mesa Commands Control.

Module PolicyWorkflow.
Import Policy Commands.

(** The trait [UserPolicyRetryRuntime], for the state [R], the transport errors
    [TE] and the wait errors [WE]. *)
Class UserPolicyRetryRuntime (R TE WE : Type) : Type := {
  native_status : R -> TE -> option Z;
  wait : Duration -> M R WE unit;
}.

Module PolicyWorkflowStage.
Inductive t : Type :=
| Validation | SystemRead | SystemWrite | SystemReadback | UserRead | UserWrite | UserReadback.
End PolicyWorkflowStage.

Inductive PolicyWorkflowError (TE WE : Type) : Type :=
| CommandE (stage : PolicyWorkflowStage.t) (error : CommandError)
| PolicyE (stage : PolicyWorkflowStage.t) (error : PolicyError)
| Transport (stage : PolicyWorkflowStage.t) (error : TE)
| Wait (error : WE)
| NativeStatus (status : Z).
Arguments CommandE {TE WE} stage error.
Arguments PolicyE {TE WE} stage error.
Arguments Transport {TE WE} stage error.
Arguments Wait {TE WE} error.
Arguments NativeStatus {TE WE} status.

Section Reads.
Context {T TE WE : Type} `{BiometricTransport T TE}.

(** The module's own [execute]. *)
Definition policy_execute (packet : CommandPacket) (stage : PolicyWorkflowStage.t)
    : M T (PolicyWorkflowError TE WE) bytes :=
  mapM_err (Transport stage) (execute packet).

Definition read_system (stage : PolicyWorkflowStage.t)
    : M T (PolicyWorkflowError TE WE) SystemProtectedConfiguration :=
  do! response := policy_execute system_configuration_command stage in
  lift (map_err (PolicyE stage) (parse_system_configuration response)).

Definition read_user (user : BiometricUserId) (stage : PolicyWorkflowStage.t)
    : M T (PolicyWorkflowError TE WE) UserProtectedConfiguration :=
  do! response := policy_execute (user_configuration_command user) stage in
  lift (map_err (PolicyE stage) (parse_user_configuration response)).

Definition validate_user (user_id : Z) : res (PolicyWorkflowError TE WE) BiometricUserId :=
  map_err (PolicyE PolicyWorkflowStage.Validation) (user_id_new user_id).

End Reads.

Definition system_matches (target : SystemPolicyTarget) (c : SystemProtectedConfiguration) : bool :=
  match target with
  | TouchId => touch_id_enabled c =? 1
  | TouchIdFeatures => bool_decide (policy_values c = [1; 1; 1; 1])
  end.

(** The system workflow never waits: its wait errors are [Infallible]. *)
Definition enable_system_touch_id {T TE} `{BiometricTransport T TE} (target : SystemPolicyTarget)
    (credential_set : option bytes)
    : M T (PolicyWorkflowError TE Empty_set) SystemProtectedConfiguration :=
  do! before := read_system PolicyWorkflowStage.SystemRead in
  do! _ := lift (map_err (PolicyE PolicyWorkflowStage.SystemRead) (validate_system_configuration before)) in
  if system_matches target before then ret before
  else
    do! update := lift (map_err (CommandE PolicyWorkflowStage.Validation)
                          (set_system_configuration_command target credential_set)) in
    do! response := policy_execute update PolicyWorkflowStage.SystemWrite in
    do! _ := lift (map_err (CommandE PolicyWorkflowStage.SystemWrite) (validate_empty_response response)) in
    do! after := read_system PolicyWorkflowStage.SystemReadback in
    do! _ := lift (map_err (PolicyE PolicyWorkflowStage.SystemReadback) (verify_system_readback target after)) in
    ret after.

Section User.
Context {T TE R WE : Type} `{BiometricTransport T TE} `{UserPolicyRetryRuntime R TE WE}.

(** Code that works on the transport and on the retry runtime. *)
Definition on_transport {A} (m : M T (PolicyWorkflowError TE WE) A)
    : M (T * R) (PolicyWorkflowError TE WE) A :=
  fun '(transport, runtime) => let (r, transport) := m transport in (r, (transport, runtime)).

Definition on_runtime {A} (m : M R (PolicyWorkflowError TE WE) A)
    : M (T * R) (PolicyWorkflowError TE WE) A :=
  fun '(transport, runtime) => let (r, runtime) := m runtime in (r, (transport, runtime)).

(** The write of one turn of the loop, and what the planner is told of it. *)
Definition observed (update : CommandPacket)
    : M (T * R) (PolicyWorkflowError TE WE) PolicyUpdateObservation :=
  fun '(transport, runtime) =>
    match execute update transport with
    | (Ok response, transport) => (Ok (Response (len response)), (transport, runtime))
    | (Err error, transport) =>
        match native_status runtime error with
        | None => (Err (Transport PolicyWorkflowStage.UserWrite error), (transport, runtime))
        | Some status => (Ok (Failure status), (transport, runtime))
        end
    | (Panic, transport) => (Panic, (transport, runtime))
    end.

(** The loop of [apply_user_policy]: whether the read-back must also be effective.
    It goes round once for each retry delay at most. *)
Fixpoint write_loop (fuel : nat) (update : CommandPacket) (retry : UserPolicyRetry)
    : M (T * R) (PolicyWorkflowError TE WE) bool :=
  match fuel with
  | O => lift Panic
  | S fuel =>
      do! observation := observed update in
      let (decision, retry) := observe retry observation in
      match decision with
      | RetryAfter delay =>
          do! _ := on_runtime (mapM_err Wait (wait delay)) in
          write_loop fuel update retry
      | ReadBack => ret false
      | ReadBackAfterBusy => ret true
      | RejectUnexpectedData actual =>
          lift (Err (CommandE PolicyWorkflowStage.UserWrite (UnexpectedResponseData actual)))
      | Fail_ status => lift (Err (NativeStatus status))
      end
  end.

Definition apply_user_policy (user : BiometricUserId) (requested : list Z)
    (credential_set : option bytes)
    : M (T * R) (PolicyWorkflowError TE WE) UserProtectedConfiguration :=
  do! update := lift (map_err (CommandE PolicyWorkflowStage.Validation)
                        (set_user_configuration_command user requested credential_set)) in
  do! require_effective_equality :=
    write_loop (S (length USER_POLICY_BUSY_RETRY_DELAYS)) update retry_default in
  do! after := on_transport (read_user user PolicyWorkflowStage.UserReadback) in
  do! _ := lift (map_err (PolicyE PolicyWorkflowStage.UserReadback)
                   (verify_user_readback requested after require_effective_equality)) in
  ret after.

Definition enable_user_touch_id (user_id : Z) (credential_set : option bytes)
    : M (T * R) (PolicyWorkflowError TE WE) UserProtectedConfiguration :=
  do! user := lift (validate_user user_id) in
  do! before := on_transport (read_user user PolicyWorkflowStage.UserRead) in
  do! requested := lift (map_err (PolicyE PolicyWorkflowStage.UserRead) (user_touch_id_update before)) in
  match requested with
  | None => ret before
  | Some requested => apply_user_policy user requested credential_set
  end.

Definition reassert_user_policy (user_id : Z) (credential_set : option bytes)
    : M (T * R) (PolicyWorkflowError TE WE) UserProtectedConfiguration :=
  do! user := lift (validate_user user_id) in
  do! before := on_transport (read_user user PolicyWorkflowStage.UserRead) in
  apply_user_policy user (requested_values before) credential_set.

End User.

(** ** What a workflow sends and how long it waits *)

Section Runs.
Context {T TE R WE : Type} `{BiometricTransport T TE} `{UserPolicyRetryRuntime R TE WE}.

(** The runtime after the waits [ds]. *)
Definition waited (rt : R) (ds : list Duration) : R := fold_left (fun rt d => snd (wait d rt)) ds rt.

(** As [runs], for the commands [ps] and the waits [ds] so far. *)
Definition runs2 {F A} (t : T) (rt : R) (ps : list CommandPacket) (ds : list Duration) (m : M (T * R) F A)
    (Q : res F A -> list CommandPacket -> list Duration -> Prop) : Prop :=
  exists qs es, snd (m (after t ps, waited rt ds)) = (after t qs, waited rt es) /\
    Q (fst (m (after t ps, waited rt ds))) qs es.

Lemma runs2_lift {F A} t rt ps ds (r : res F A) Q : Q r ps ds -> runs2 t rt ps ds (lift r) Q.
Proof. intros HQ. by exists ps, ds. Qed.

Lemma runs2_ret {F A} t rt ps ds (a : A) Q : Q (Ok (E := F) a) ps ds -> runs2 t rt ps ds (ret a) Q.
Proof. intros HQ. by exists ps, ds. Qed.

Lemma runs2_bind {F A B} t rt ps ds (m : M (T * R) F A) (k : A -> M (T * R) F B) Q :
  runs2 t rt ps ds m (fun r qs es =>
    match r with
    | Ok a => runs2 t rt qs es (k a) Q
    | Err e => Q (Err e) qs es
    | Panic => Q Panic qs es
    end) -> runs2 t rt ps ds (bind m k) Q.
Proof.
  intros (qs & es & Hs & HQ). unfold runs2, bind. destruct (m _) as [[a|e|] st]; cbn [fst snd] in *;
    subst st; [done|by exists qs, es..].
Qed.

Lemma runs2_mono {F A} t rt ps ds (m : M (T * R) F A) (Q Q' : res F A -> _ -> _ -> Prop) :
  runs2 t rt ps ds m Q -> (forall r qs es, Q r qs es -> Q' r qs es) -> runs2 t rt ps ds m Q'.
Proof. intros (qs & es & Hs & HQ) Hi. exists qs, es. auto. Qed.

Lemma runs2_transport {A} t rt ps ds (m : M T (PolicyWorkflowError TE WE) A) Q :
  runs t ps m (fun r qs => Q r qs ds) -> runs2 t rt ps ds (on_transport m) Q.
Proof.
  intros (qs & Hs & HQ). exists qs, ds. cbn. destruct (m (after t ps)) as [r t']. cbn [fst snd] in *. by subst t'.
Qed.

Lemma runs2_wait t rt ps ds d Q :
  Q (map_err Wait (fst (wait d (waited rt ds)))) ps (ds ++ [d]) ->
  runs2 t rt ps ds (on_runtime (T := T) (mapM_err (F := PolicyWorkflowError TE WE) Wait (wait d))) Q.
Proof.
  intros HQ. exists ps, (ds ++ [d]). unfold waited at 2. rewrite fold_left_app. cbn. unfold mapM_err.
  unfold waited in *. destruct (wait d _) as [r rt']. done.
Qed.

Lemma runs2_observed t rt ps ds update Q :
  match response t ps update with
  | Ok bs => Q (Ok (Response (len bs))) (ps ++ [update]) ds
  | Err e => match native_status (waited rt ds) e with
             | None => Q (Err (Transport PolicyWorkflowStage.UserWrite e)) (ps ++ [update]) ds
             | Some status => Q (Ok (Failure status)) (ps ++ [update]) ds
             end
  | Panic => Q Panic (ps ++ [update]) ds
  end -> runs2 t rt ps ds (observed update) Q.
Proof.
  intros HQ. exists (ps ++ [update]), ds. unfold observed. rewrite execute_response.
  destruct (response t ps update) as [bs|e|]; [done| |done]. by destruct (native_status _ e).
Qed.

Lemma runs2_start {F A} t rt (m : M (T * R) F A) Q r t' rt' :
  runs2 t rt [] [] m Q -> m (t, rt) = (r, (t', rt')) ->
  exists qs es, t' = after t qs /\ rt' = waited rt es /\ Q r qs es.
Proof.
  intros (qs & es & Hs & HQ) Hm. change (after t [], waited rt []) with (t, rt) in *.
  rewrite Hm in *. cbn [fst snd] in *. simplify_eq. eauto.
Qed.

(** ** The retries *)

(** The answer to the write number [i] says that the sensor is busy, or that the
    write is done or may be. *)
Definition busy_at (t : T) (rt : R) (update : CommandPacket) (i : nat) : Prop :=
  exists e, response t (replicate i update) update = Err e /\
    native_status (waited rt (take i USER_POLICY_BUSY_RETRY_DELAYS)) e = Some EBUSY_STATUS.

Definition accepted_at (t : T) (rt : R) (update : CommandPacket) (i : nat) : Prop :=
  response t (replicate i update) update = Ok [] \/
  exists e, response t (replicate i update) update = Err e /\
    native_status (waited rt (take i USER_POLICY_BUSY_RETRY_DELAYS)) e = Some KIORETURN_TIMEOUT_STATUS.

(** The write number [i] is the last one, and the policy is to be read back. *)
Definition settled_at (t : T) (rt : R) (update : CommandPacket) (i : nat) : Prop :=
  accepted_at t rt update i \/ i = 3%nat /\ busy_at t rt update i.

(** After [n] writes were busy, [m] more are; the loop stops at the next write, or
    at the wait before it. *)
Definition loop_log (t : T) (rt : R) (update : CommandPacket) (n : nat)
    (r : res (PolicyWorkflowError TE WE) bool) (qs : list CommandPacket) (es : list Duration) : Prop :=
  exists m, (n <= m <= 3)%nat /\ qs = replicate (S m) update /\
    (forall i, (n <= i < m)%nat -> busy_at t rt update i) /\
    match r with
    | Ok true => m = 3%nat /\ busy_at t rt update m /\ es = take m USER_POLICY_BUSY_RETRY_DELAYS
    | Ok false => accepted_at t rt update m /\ es = take m USER_POLICY_BUSY_RETRY_DELAYS
    | _ => ~ settled_at t rt update m /\
           (es = take m USER_POLICY_BUSY_RETRY_DELAYS \/
            es = take (S m) USER_POLICY_BUSY_RETRY_DELAYS /\ (m < 3)%nat)
    end.

Lemma replicate_snoc {A} (n : nat) (x : A) : replicate n x ++ [x] = replicate (S n) x.
Proof. rewrite <- replicate_cons_app. done. Qed.

Lemma loop_log_step t rt update n r qs es :
  busy_at t rt update n -> (n < 3)%nat -> loop_log t rt update (S n) r qs es -> loop_log t rt update n r qs es.
Proof.
  intros Hb Hn (m & Hm & -> & Hi & Hr). exists m. split; [lia|]. split; [done|]. split; [|done].
  intros i Hin. destruct (decide (i = n)) as [->|]; [done|]. apply Hi. lia.
Qed.

(** What settles a write, and what does not. *)
Lemma settled_response t rt update i bs :
  response t (replicate i update) update = Ok bs -> settled_at t rt update i -> bs = [].
Proof. intros Hr [[Ha|(e & Ha & _)]|(_ & e & Ha & _)]; congruence. Qed.

Lemma settled_error t rt update i e :
  response t (replicate i update) update = Err e -> settled_at t rt update i ->
  let status := native_status (waited rt (take i USER_POLICY_BUSY_RETRY_DELAYS)) e in
  status = Some KIORETURN_TIMEOUT_STATUS \/ i = 3%nat /\ status = Some EBUSY_STATUS.
Proof.
  intros Hr [[Ha|(e' & Ha & Hs)]|(Hi & e' & Ha & Hs)]; [congruence|left|right]; rewrite Hr in Ha; injection Ha as <-; auto.
Qed.

Lemma settled_panic t rt update i :
  response t (replicate i update) update = Panic -> ~ settled_at t rt update i.
Proof. intros Hr [[Ha|(e' & Ha & Hs)]|(Hi & e' & Ha & Hs)]; congruence. Qed.

Lemma write_loop_runs t rt update fuel n :
  (n + fuel = 4)%nat -> (n <= 3)%nat ->
  runs2 t rt (replicate n update) (take n USER_POLICY_BUSY_RETRY_DELAYS)
    (write_loop fuel update (mkRetry n)) (loop_log t rt update n).
Proof.
  revert n. induction fuel as [|fuel IH]; intros n Hf Hn; [lia|]. cbn [write_loop].
  apply runs2_bind, runs2_observed. rewrite replicate_snoc.
  assert (forall r, (match r with Ok _ => False | _ => True end) -> ~ settled_at t rt update n ->
    loop_log t rt update n r (replicate (S n) update) (take n USER_POLICY_BUSY_RETRY_DELAYS)) as Herr.
  { intros r Hr Hno. exists n. split; [lia|]. split; [done|]. split; [intros; lia|].
    destruct r; [done|by split; [|left]..]. }
  destruct (response t (replicate n update) update) as [bs|e|] eqn:Hresp;
    [| |apply Herr; [done|by apply settled_panic]].
  { cbn [observe]. destruct (len bs =? 0) eqn:Hz; b2p.
    - apply runs2_ret. exists n. split; [lia|]. split; [done|]. split; [intros; lia|]. split; [|done]. left.
      destruct bs; [done|]. cbn in Hz. lia.
    - apply runs2_lift, Herr; [done|]. by intros ->%(settled_response _ _ _ _ _ Hresp). }
  pose proof (settled_error t rt update n e Hresp) as Hset. cbv zeta in Hset.
  destruct (native_status _ e) as [status|] eqn:Hst; [|apply Herr; [done|by intros [|[]]%Hset]]. cbn [observe].
  destruct (status =? KIORETURN_TIMEOUT_STATUS) eqn:Hto; b2p.
  { apply runs2_ret. exists n. split; [lia|]. split; [done|]. split; [intros; lia|]. split; [|done].
    right. exists e. by subst. }
  destruct (status =? EBUSY_STATUS) eqn:Hbusy; b2p;
    [|apply runs2_lift, Herr; [done|intros [|[]]%Hset; congruence]]. subst status.
  assert (busy_at t rt update n) as Hb by by exists e.
  cbn [busy_retries_used]. destruct (USER_POLICY_BUSY_RETRY_DELAYS !! n) as [d|] eqn:Hd.
  - apply lookup_lt_Some in Hd as Hlt. cbn in Hlt. apply runs2_bind, runs2_wait.
    assert (~ settled_at t rt update n) as Hno by (intros [[=]|[? _]]%Hset; lia).
    rewrite <- (take_S_r _ _ _ Hd). destruct (fst (wait _ _)) as [[]|we|]; cbn [map_err].
    + eapply runs2_mono; [apply IH; lia|]. intros r qs es. apply loop_log_step; [done|lia].
    + exists n. split; [lia|]. split; [done|]. split; [intros; lia|]. split; [done|]. right. split; [done|lia].
    + exists n. split; [lia|]. split; [done|]. split; [intros; lia|]. split; [done|]. right. split; [done|lia].
  - apply lookup_ge_None in Hd. cbn in Hd. apply runs2_ret. exists n. split; [lia|]. split; [done|].
    split; [intros; lia|]. split; [lia|]. done.
Qed.

(** The configuration that the sensor answers with after the commands [ps]. *)
Definition reads_user (t : T) (ps : list CommandPacket) (user : BiometricUserId) (c : UserProtectedConfiguration) : Prop :=
  exists bs, response t ps (user_configuration_command user) = Ok bs /\ parse_user_configuration bs = Ok c.

(** What an update does: up to four writes of the same packet, each but the last
    answered busy, the planned waits between them, and, exactly if the last write settled
    it, the read-back. It succeeds exactly with the configuration that was then read back,
    if that is the requested one (and the effective one, if the last write was busy). *)
Definition apply_log (user : BiometricUserId) (requested : list Z) (credential_set : option bytes)
    (t : T) (rt : R) (r : res (PolicyWorkflowError TE WE) UserProtectedConfiguration)
    (qs : list CommandPacket) (es : list Duration) : Prop :=
  match set_user_configuration_command user requested credential_set with
  | Ok update =>
      exists m (readback : bool), (m <= 3)%nat /\
        qs = replicate (S m) update ++ (if readback then [user_configuration_command user] else []) /\
        (forall i, (i < m)%nat -> busy_at t rt update i) /\
        (es = take m USER_POLICY_BUSY_RETRY_DELAYS \/
         es = take (S m) USER_POLICY_BUSY_RETRY_DELAYS /\ readback = false /\ (m < 3)%nat) /\
        (readback = true <-> settled_at t rt update m) /\
        forall c, r = Ok c <->
          reads_user t (replicate (S m) update) user c /\ requested_values c = requested /\
          (accepted_at t rt update m \/
           m = 3%nat /\ busy_at t rt update m /\ effective_values c = requested)
  | _ => qs = [] /\ es = [] /\ is_ok r = false
  end.

(** A write that was accepted was not busy. *)
Lemma accepted_not_busy t rt update i : accepted_at t rt update i -> ~ busy_at t rt update i.
Proof.
  intros [Ha|(e & Ha & Hs)] (e' & Ha' & Hs'); [congruence|]. rewrite Ha in Ha'. injection Ha' as <-.
  by rewrite Hs in Hs'.
Qed.

(** The read-back that follows the writes. *)
Lemma readback_runs t rt user requested update m b :
  (m <= 3)%nat -> (forall i, (i < m)%nat -> busy_at t rt update i) ->
  (b = true -> m = 3%nat /\ busy_at t rt update m) -> (b = false -> accepted_at t rt update m) ->
  runs2 t rt (replicate (S m) update) (take m USER_POLICY_BUSY_RETRY_DELAYS)
    (do! c := on_transport (read_user user PolicyWorkflowStage.UserReadback) in
     do! _ := lift (map_err (PolicyE PolicyWorkflowStage.UserReadback) (verify_user_readback requested c b)) in
     ret c)
    (fun (r : res (PolicyWorkflowError TE WE) UserProtectedConfiguration) qs es =>
       qs = replicate (S m) update ++ [user_configuration_command user] /\
       es = take m USER_POLICY_BUSY_RETRY_DELAYS /\
       forall c, r = Ok c <-> reads_user t (replicate (S m) update) user c /\ requested_values c = requested /\
          (accepted_at t rt update m \/
           m = 3%nat /\ busy_at t rt update m /\ effective_values c = requested)).
Proof.
  intros Hm Hi Ht Hf. apply runs2_bind, runs2_transport. unfold read_user, policy_execute. do 3 run_step.
  unfold reads_user. destruct (response t _ _) as [bs|e|] eqn:Hr; cbn [map_err].
  2-3: split_and!; [done..|]; intros c; split; [done|]; intros ((bs & [=] & _) & _).
  run_step. destruct (parse_user_configuration bs) as [c|e|] eqn:Hc; cbn [map_err].
  2-3: split_and!; [done..|]; intros c; split; [done|]; intros ((bs' & [= <-] & ?) & _); congruence.
  apply runs2_bind, runs2_lift. unfold verify_user_readback.
  assert (forall c', (exists bs0, Ok bs = Ok (E := TE) bs0 /\ parse_user_configuration bs0 = Ok c') <-> c' = c) as Hread.
  { intros c'. split; [intros (bs' & [= <-] & ?); congruence|]. intros ->. eauto. }
  destruct (negb _ || _) eqn:Hv; cbn [map_err]; [|apply runs2_ret]; (split_and!; [done..|]); intros c'; rewrite Hread.
  - split; [done|]. intros (-> & Hreq & Hor). rewrite bool_decide_eq_true_2 in Hv by done. cbn in Hv.
    apply andb_true_iff in Hv as [-> Hv]. b2p. destruct (Ht eq_refl) as [_ Hb].
    destruct Hor as [Ha|(_ & _ & He)]; [by apply accepted_not_busy in Ha|done].
  - apply orb_false_iff in Hv as [Hreq Heff]. b2p. split; [|intros (-> & _); done]. intros [= <-].
    split; [done|]. split; [done|]. destruct b; [right|left; by apply Hf]. destruct (Ht eq_refl).
    split_and!; [done..|]. destruct Heff as [|Heff]; [done|]. by b2p.
Qed.

Lemma apply_user_policy_runs t rt user requested credential_set :
  runs2 t rt [] [] (apply_user_policy user requested credential_set)
    (apply_log user requested credential_set t rt).
Proof.
  unfold apply_user_policy. apply runs2_bind, runs2_lift. unfold apply_log.
  destruct (set_user_configuration_command user requested credential_set) as [update|e|] eqn:Hu; cbn [map_err];
    [|by split_and!..].
  apply runs2_bind. eapply runs2_mono; [apply (write_loop_runs t rt update 4 0); lia|]. cbn beta.
  intros r qs es (m & Hm & -> & Hi & Hr).
  assert (forall i, (i < m)%nat -> busy_at t rt update i) as Hi' by (intros; apply Hi; lia).
  destruct r as [b|e|].
  2-3: destruct Hr as [Hno Hes]; exists m, false; rewrite app_nil_r; (split; [lia|]); split_and!; [done..| | |];
       [destruct Hes as [->|[-> ?]]; auto|done|]; intros c; (split; [done|]);
       intros (_ & _ & [Ha|(H3 & Hb & _)]); destruct Hno; [by left|by right].
  assert (es = take m USER_POLICY_BUSY_RETRY_DELAYS /\
    (b = true -> m = 3%nat /\ busy_at t rt update m) /\ (b = false -> accepted_at t rt update m)) as (-> & Ht & Hf).
  { destruct b; destruct_and!; by split_and!. }
  eapply runs2_mono; [apply (readback_runs t rt user requested update m b); [lia|done..]|]. cbn beta.
  intros r qs es (-> & -> & Hc). exists m, true. split; [lia|]. split_and!; [done..|by left| |done].
  split; [|done]. intros _. destruct b; [right; by apply Ht|left; by apply Hf].
Qed.

(** ** Termination *)

Context (Htransport : forall p (t : T), fst (execute p t) <> Panic).
Context (Hwait : forall d (rt : R), fst (wait d rt) <> Panic).

Lemma bind_no_panic {S F A B} (m : M S F A) (k : A -> M S F B) s :
  fst (m s) <> Panic -> (forall a s', fst (k a s') <> Panic) -> fst (bind m k s) <> Panic.
Proof. intros Hm Hk. unfold bind. destruct (m s) as [[a|e|] s']; [apply Hk|done|done]. Qed.

Lemma write_loop_total update fuel n st :
  (n + fuel = 4)%nat -> (n <= 3)%nat -> fst (write_loop fuel update (mkRetry n) st) <> Panic.
Proof.
  revert n st. induction fuel as [|fuel IH]; intros n st Hf Hn; [lia|]. cbn [write_loop].
  apply bind_no_panic.
  { destruct st as [t rt]. unfold observed. pose proof (Htransport update t).
    destruct (execute update t) as [[bs|e|] t']; [done| |done]. by destruct (native_status rt e). }
  intros [l|status] st'; cbn [observe]; [by destruct (_ =? 0)|].
  destruct (_ =? KIORETURN_TIMEOUT_STATUS); [done|]. destruct (_ =? EBUSY_STATUS); [|done].
  cbn [busy_retries_used]. destruct (_ !! n) as [d|] eqn:Hd; [|done]. apply bind_no_panic.
  - destruct st' as [t rt]. cbn. unfold mapM_err. pose proof (Hwait d rt). by destruct (wait d rt) as [[| |] ?].
  - intros _ s. apply lookup_lt_Some in Hd. cbn in Hd. apply IH; lia.
Qed.

Lemma read_user_total user stage t : fst (read_user (WE := WE) user stage t) <> Panic.
Proof.
  unfold read_user, policy_execute. apply bind_no_panic.
  - unfold mapM_err. pose proof (Htransport (user_configuration_command user) t). by destruct (execute _ t) as [[| |] ?].
  - intros bs s. cbn. apply no_panic_map_err. unfold parse_user_configuration, require_length.
    destruct (negb _) eqn:Hl; [done|]. b2p. unfold USER_CONFIGURATION_SIZE in Hl. cbn [decode_i32s].
    unfold no_panic. by rewrite !read_le_ok by lia.
Qed.

Lemma apply_user_policy_total user requested credential_set st :
  fst (apply_user_policy user requested credential_set st) <> Panic.
Proof.
  unfold apply_user_policy. apply bind_no_panic; [|intros update s; apply bind_no_panic; [|intros b s'; apply bind_no_panic]].
  - cbn. apply no_panic_map_err. unfold set_user_configuration_command, encode_user_update, validate_policy_values, encode_authorization.
    destruct (forallb _ _); [|done]. destruct credential_set; [|done]. by destruct (negb _).
  - apply (write_loop_total update 4 0); lia.
  - destruct s' as [t rt]. cbn. pose proof (read_user_total user PolicyWorkflowStage.UserReadback t).
    by destruct (read_user _ _ t) as [r t'].
  - intros c s''. apply bind_no_panic; [|done]. cbn. apply no_panic_map_err. unfold verify_user_readback. by destruct (_ || _).
Qed.
Lemma validate_user_total user_id : validate_user (TE := TE) (WE := WE) user_id <> Panic.
Proof.
  unfold validate_user. apply no_panic_map_err. unfold user_id_new, try_from_u, no_panic.
  destruct (is_ub 32 user_id); cbn; [|done]. by destruct (_ <? _).
Qed.

Lemma on_read_user_total user stage st : fst (on_transport (R := R) (read_user (WE := WE) user stage) st) <> Panic.
Proof.
  destruct st as [t rt]. cbn. pose proof (read_user_total user stage t). by destruct (read_user user stage t).
Qed.

(** The updates of a user policy return: whatever a transport and a runtime
    answer, as long as they return, the retry loop ends. *)
Theorem user_policy_terminates user_id credential_set st :
  fst (enable_user_touch_id user_id credential_set st) <> Panic /\
  fst (reassert_user_policy user_id credential_set st) <> Panic.
Proof.
  split.
  - apply bind_no_panic; [apply validate_user_total|intros user s].
    apply bind_no_panic; [apply on_read_user_total|intros before s']. apply bind_no_panic.
    + cbn. apply no_panic_map_err. unfold user_touch_id_update, no_panic. destruct (negb _); [done|]. by destruct (bool_decide _).
    + intros [requested|] s''; [apply apply_user_policy_total|done].
  - apply bind_no_panic; [apply validate_user_total|intros user s].
    apply bind_no_panic; [apply on_read_user_total|intros before s']. apply apply_user_policy_total.
Qed.

End Runs.

Section UserTheorem.
Context {T TE R WE : Type} `{BiometricTransport T TE} `{UserPolicyRetryRuntime R TE WE}.

(** Code that starts after the commands [ps]. *)
Lemma runs2_shift {F A} (t : T) (rt : R) ps (m : M (T * R) F A) Q :
  runs2 (after t ps) rt [] [] m Q ->
  runs2 t rt ps [] m (fun r qs es => exists qs', qs = ps ++ qs' /\ Q r qs' es).
Proof.
  intros (qs & es & Hs & HQ). exists (ps ++ qs), es. rewrite after_app. split; [done|]. by exists qs.
Qed.

(** The policy that was read is left alone and returned when Touch ID is enabled in it
    already, and otherwise updated with the payment setting as it was read. *)
Definition enable_log (user_id : Z) (credential_set : option bytes) (t : T) (rt : R)
    (r : res (PolicyWorkflowError TE WE) UserProtectedConfiguration)
    (qs : list CommandPacket) (es : list Duration) : Prop :=
  match user_id_new user_id with
  | Ok user =>
      let read := user_configuration_command user in
      (qs = [read] /\ es = [] /\ is_ok r = false /\
       forall before, reads_user t [] user before -> is_policy_value (u_apple_pay_enabled before) = false) \/
      exists before, reads_user t [] user before /\ is_policy_value (u_apple_pay_enabled before) = true /\
        if bool_decide (take 3 (requested_values before) = [1; 1; 1])
        then qs = [read] /\ es = [] /\ r = Ok before
        else exists qs', qs = read :: qs' /\
          apply_log user [1; 1; 1; u_apple_pay_enabled before] credential_set (after t [read]) rt r qs' es
  | _ => qs = [] /\ es = [] /\ is_ok r = false
  end.

(** C33. Enabling Touch ID reads the policy. If the sensor's answer has Touch ID enabled
    already, that policy is returned and nothing is written; if it cannot be read, or its
    payment setting is not a known value, that is an error. Otherwise the requested policy
    is Touch ID enabled and the payment setting that was just read, and it is written: the
    same packet at most four times, each retry after a busy answer and after the planned
    wait; the policy is read back exactly if the last write was accepted, timed out, or was
    the fourth and busy; and the update succeeds, with the policy that this last answer of
    the sensor holds, exactly if that is the requested one (also as the effective one, when
    the last write was busy). *)
Theorem user_policy_enabled user_id credential_set (t : T) (rt : R) r t' rt' :
  enable_user_touch_id user_id credential_set (t, rt) = (r, (t', rt')) ->
  exists qs es, t' = after t qs /\ rt' = waited rt es /\ enable_log user_id credential_set t rt r qs es.
Proof.
  apply runs2_start. unfold enable_user_touch_id, validate_user, enable_log, reads_user. apply runs2_bind, runs2_lift.
  destruct (user_id_new user_id) as [user|e|]; cbn [map_err]; [|by split_and!..]. cbv zeta.
  apply runs2_bind, runs2_transport. unfold read_user, policy_execute. do 3 run_step. cbn [app].
  destruct (response t [] _) as [bs|e|] eqn:Hr; cbn [map_err].
  2-3: left; split_and!; [done..|]; intros before (bs & [=] & _).
  run_step. destruct (parse_user_configuration bs) as [before|e|] eqn:Hb; cbn [map_err].
  2-3: left; split_and!; [done..|]; intros before (bs' & [= <-] & ?); congruence.
  apply runs2_bind, runs2_lift. unfold user_touch_id_update.
  destruct (is_policy_value _) eqn:Hp; cbn [negb map_err].
  2: { left. split_and!; [done..|]. intros before' (bs' & [= <-] & ?). congruence. }
  destruct (bool_decide _) eqn:He; cbn [map_err].
  - apply runs2_ret. right. exists before. split; [by exists bs|]. by rewrite He.
  - eapply runs2_mono; [apply runs2_shift, apply_user_policy_runs|]. cbn beta.
    intros r0 qs es (qs' & -> & Hl). right. exists before. split; [by exists bs|]. rewrite He. eauto.
Qed.

End UserTheorem.

(** ** The system policy *)

Lemma verify_system_matches target c : verify_system_readback target c = Ok tt <-> system_matches target c = true.
Proof.
  unfold verify_system_readback, system_matches. destruct target; cbn [replicate]; unfold POLICY_ENABLED.
  - by destruct (_ =? 1).
  - by destruct (bool_decide _).
Qed.

Section System.
Context {T TE : Type} `{BiometricTransport T TE}.

Definition system_log (target : SystemPolicyTarget) (credential_set : option bytes) (t : T)
    (r : res (PolicyWorkflowError TE Empty_set) SystemProtectedConfiguration)
    (log : list CommandPacket) : Prop :=
  let read := system_configuration_command in
  (log = [read] /\ forall c, r = Ok c ->
     system_matches target c = true /\ exists bs, response t [] read = Ok bs /\ parse_system_configuration bs = Ok c) \/
  exists bs before update, response t [] read = Ok bs /\ parse_system_configuration bs = Ok before /\
    forallb is_policy_value (policy_values before) = true /\
    system_matches target before = false /\
    set_system_configuration_command target credential_set = Ok update /\
    (log = [read; update] /\ is_ok r = false \/
     log = [read; update; read] /\ response t [read] update = Ok [] /\
     forall c, r = Ok c -> system_matches target c = true /\
       exists bs', response t [read; update] read = Ok bs' /\ parse_system_configuration bs' = Ok c).

(** Enabling the system policy writes it at most once, only after a policy was
    read that has known values and does not match already, and never with a bad
    credential; it succeeds only with a policy, read last, that matches the target. *)
Theorem system_policy_enabled target credential_set (t : T) r t' :
  enable_system_touch_id target credential_set t = (r, t') ->
  exists log, t' = after t log /\ system_log target credential_set t r log.
Proof.
  apply runs_start. unfold enable_system_touch_id, read_system, policy_execute. do 4 run_step. cbn [app].
  destruct (response t [] _) as [bs|e|] eqn:Hr; cbn [map_err]; [|by left..].
  run_step. destruct (parse_system_configuration bs) as [before|e|] eqn:Hb; cbn [map_err]; [|by left..].
  do 2 run_step. unfold validate_system_configuration, validate_policy_values.
  destruct (forallb _ _) eqn:Hk; cbn [map_err]; [|by left].
  destruct (system_matches target before) eqn:Hm; [run_step; left; split; [done|]; intros c [= <-]; eauto|].
  do 2 run_step. destruct (set_system_configuration_command target credential_set) as [update|e|] eqn:Hu; cbn [map_err];
    [|by left..].
  do 3 run_step. cbn [app].
  destruct (response t [system_configuration_command] update) as [ubs|e|] eqn:Hur; cbn [map_err].
  2-3: right; exists bs, before, update; split_and!; auto.
  do 2 run_step. destruct (validate_empty_response ubs) as [[]|e|] eqn:Hv; cbn [map_err].
  2-3: right; exists bs, before, update; split_and!; auto.
  destruct ubs; [|done].
  assert (forall r0, (forall c, r0 = Ok c -> system_matches target c = true /\
      exists bs', response t [system_configuration_command; update] system_configuration_command = Ok bs' /\
        parse_system_configuration bs' = Ok c) ->
    system_log target credential_set t r0
      [system_configuration_command; update; system_configuration_command]) as Hlog.
  { intros r0 Hc. right. exists bs, before, update. split_and!; [done..|]. by right. }
  do 4 run_step. cbn [app].
  destruct (response t [system_configuration_command; update] _) as [bs'|e|] eqn:Hr'; cbn [map_err]; [|apply Hlog; intros ? [=]..].
  run_step. destruct (parse_system_configuration bs') as [c|e|] eqn:Hc; cbn [map_err]; [|apply Hlog; intros ? [=]..].
  do 2 run_step. destruct (verify_system_readback target c) as [[]|e|] eqn:Hver; cbn [map_err]; [|apply Hlog; intros ? [=]..].
  run_step. apply Hlog. intros c' [= <-]. apply verify_system_matches in Hver. eauto.
Qed.

End System.

(** A sensor that is busy once, and a runtime that records its waits. *)
#[global] Instance recorded : UserPolicyRetryRuntime (list Duration) Z Z :=
  {| native_status := fun _ e => Some e; wait := fun d ds => (Ok tt, ds ++ [d]) |}.

Definition ex_user (v : Z) : bytes := concat (i32_bytes <$> [v; v; v; 0; v; v; v; 0]).
Definition ex_sensor : list (res Z bytes) := [Ok (ex_user 0); Err 16; Ok []; Ok (ex_user 1)].

Lemma user_policy_enabled_witness :
  exists r t' rt' qs es, enable_user_touch_id (WE := Z) 501 None (ex_sensor, []) = (Ok r, (t', rt')) /\
    rt' = [from_millis 50] /\ enable_log (TE := Z) (WE := Z) 501 None ex_sensor [] (Ok r) qs es.
Proof.
  assert (exists r, enable_user_touch_id (WE := Z) 501 None (ex_sensor, []) = (Ok r, ([], [from_millis 50]))) as [r Hrun]
    by (eexists; vm_compute; reflexivity).
  destruct (user_policy_enabled (WE := Z) 501 None ex_sensor [] _ _ _ Hrun) as (qs & es & _ & _ & Hlog).
  exists r, [], [from_millis 50], qs, es. split; [exact Hrun|]. split; [reflexivity|exact Hlog].
Defined.

Definition ex_system (v : Z) : bytes := concat (i32_bytes <$> [0; 0; 0; v; 1; 1; 1]).

Lemma system_policy_enabled_witness :
  exists r log, enable_system_touch_id TouchId None [Ok (ex_system 0); Ok []; Ok (ex_system 1)] = (Ok r, []) /\
    system_log (TE := Z) TouchId None [Ok (ex_system 0); Ok []; Ok (ex_system 1)] (Ok r) log.
Proof.
  assert (exists r, enable_system_touch_id (TE := Z) TouchId None [Ok (ex_system 0); Ok []; Ok (ex_system 1)] = (Ok r, []))
    as [r Hrun] by (eexists; vm_compute; reflexivity).
  destruct (system_policy_enabled (TE := Z) TouchId None _ _ _ Hrun) as (log & _ & Hlog).
  exists r, log. split; [exact Hrun|exact Hlog].
Defined.

(** A sensor that is always busy. *)
#[global] Instance always_busy : BiometricTransport nat Z :=
  fun p n => (if (length (request p) <=? 12)%nat then Ok (ex_user 0) else Err 16, S n).

Lemma user_policy_terminates_witness :
  fst (enable_user_touch_id (WE := Z) 501 None (0%nat, [])) = Err (PolicyE PolicyWorkflowStage.UserReadback PolicyReadbackMismatch) /\
  fst (enable_user_touch_id (WE := Z) 501 None (0%nat, [])) <> Panic.
Proof.
  split; [vm_compute; reflexivity|]. apply user_policy_terminates.
  - intros p t. unfold execute, always_busy. by destruct (_ <=? 12)%nat.
  - intros d rt. done.
Defined.

End PolicyWorkflow.
