(* ===== verification/Packet.v ===== *)
(** * Touch Bar hardware packets ([crates/t1-touchbar-hw/src/packet.rs])

    The outer framing of the hardware IPC: magic ["T1HW"], major version,
    message type, payload length and request identifier, all little-endian,
    then the payload. One datagram carries exactly one packet. *)

From S2P Require Import Prelude.

Module Packet.

Definition HEADER_LENGTH : nat := 16.
Definition MAX_PACKET_LENGTH : Z := 64 * 1024.
Definition MAX_PAYLOAD_LENGTH : Z := MAX_PACKET_LENGTH - Z.of_nat HEADER_LENGTH.
(** [*b"T1HW"]. *)
Definition MAGIC : bytes := [84; 49; 72; 87].
Definition PROTOCOL_MAJOR : Z := 1.

Inductive PacketError : Type :=
| TooShort
| BadMagic
| WrongMajor
| Oversize
| LengthMismatch.

Record Packet : Type := mkPacket {
  message_type : Z;
  request_id : Z;
  payload : bytes;
}.

(** [Packet::encode]. *)
Definition encode (p : Packet) : res PacketError bytes :=
  if MAX_PAYLOAD_LENGTH <? len (payload p) then Err Oversize
  else
    let! payload_length := ok_or (try_from_u 32 (len (payload p))) Oversize in
    Ok (MAGIC ++ le_bytes 2 PROTOCOL_MAJOR ++ le_bytes 2 (message_type p) ++
        le_bytes 4 payload_length ++ le_bytes 4 (request_id p) ++ payload p).

(** [decode]. *)
Definition decode (packet : bytes) : res PacketError Packet :=
  if len packet <? Z.of_nat HEADER_LENGTH then Err TooShort
  else if MAX_PACKET_LENGTH <? len packet then Err Oversize
  else
    let! magic := slice packet 0 4 in
    if negb (bool_decide (magic = MAGIC)) then Err BadMagic
    else
      let! major := read_le packet 4 2 in
      if negb (major =? PROTOCOL_MAJOR) then Err WrongMajor
      else
        let! message_type := read_le packet 6 2 in
        let! payload_length := read_le packet 8 4 in
        let! request_id := read_le packet 12 4 in
        let! payload := slice_from packet HEADER_LENGTH in
        if negb (payload_length =? len payload) then Err LengthMismatch
        else Ok (mkPacket message_type request_id payload).

Definition packet_wf (p : Packet) : Prop :=
  is_u 16 (message_type p) /\ is_u 32 (request_id p) /\ bytes_ok (payload p).

Lemma packet_encode_Ok p bs :
  encode p = Ok bs <->
  len (payload p) <= MAX_PAYLOAD_LENGTH /\
  bs = MAGIC ++ le_bytes 2 PROTOCOL_MAJOR ++ le_bytes 2 (message_type p) ++
       le_bytes 4 (len (payload p)) ++ le_bytes 4 (request_id p) ++ payload p.
Proof.
  unfold encode. destruct (_ <? _) eqn:Hl; b2p.
  { split; [done|]. intros [? _]. lia. }
  unfold try_from_u. rewrite (proj2 (is_ub_spec 32 _)).
  2: { unfold MAX_PAYLOAD_LENGTH, MAX_PACKET_LENGTH, HEADER_LENGTH in Hl. u_range. }
  cbn. split; [intros; by simplify_eq | by intros [_ ->]].
Qed.

(** Packets decode exactly the datagrams they are encoded to. *)
Lemma decode_iff bs p :
  bytes_ok bs -> decode bs = Ok p <-> packet_wf p /\ encode p = Ok bs.
Proof.
  intros Hbs. unfold MAX_PAYLOAD_LENGTH, MAX_PACKET_LENGTH, HEADER_LENGTH in *. split.
  - intros H. unfold decode, HEADER_LENGTH, MAX_PACKET_LENGTH in H. inv_ok H. b2p.
    read_bounds. apply slice_from_bytes_ok in Hr4 as Hp; [|done].
    split; [split_and!; cbn; [u_range|u_range|done]|].
    apply packet_encode_Ok; cbn [message_type request_id payload].
    unfold MAX_PAYLOAD_LENGTH, MAX_PACKET_LENGTH, HEADER_LENGTH.
    pose proof (f_equal length (drop_slice_from _ _ _ Hr4)) as Hd.
    split; [lens|]. subst. by unread bs.
  - intros ([Hmt [Hid Hp]] & [Hl ->]%packet_encode_Ok).
    unfold decode, HEADER_LENGTH, MAX_PAYLOAD_LENGTH, MAX_PACKET_LENGTH, HEADER_LENGTH in *.
    unfold MAGIC. do 2 decide_if. rewrite slice_app_here by done.
    rewrite bool_decide_eq_true_2 by done. cbn [negb app]. fields.
    rewrite Z.eqb_refl. cbn [negb]. fields.
    rewrite Z.eqb_refl. by destruct p.
Qed.

Lemma decode_no_panic bs : no_panic (decode bs).
Proof. unfold decode, HEADER_LENGTH. repeat no_panic_step. Qed.

End Packet.
