(* ===== verification/FrameState.v ===== *)
(** * Frame buffers of a rendering client ([crates/t1-touchbar-hw/src/frame_state.rs])

    The service keeps, per client, the negotiated layout and up to three
    registered buffers, each free or holding the one frame in flight. The
    module models the registry as the source's vector, gives it the abstract
    contract of a finite map from buffer identifiers to the frame in flight and
    shows that the vector implements the map. *)

From S2P Require Import Prelude.

Module FrameState.

Definition BYTES_PER_PIXEL : Z := 4.
Definition MAX_REGISTERED_BUFFERS : nat := 3.
Definition MAX_DAMAGE_RECTANGLES : nat := 64.

Inductive FrameStateError : Type :=
| InvalidLayout
| InvalidBufferStride
| InvalidBufferLength
| DuplicateBuffer
| TooManyBuffers
| UnknownBuffer
| BufferInFlight
| TooManyDamageRectangles
| DamageOutOfBounds
| BufferNotInFlight
| FrameMismatch.

Record FrameLayout : Type := mkLayout {
  width : Z;
  height : Z;
  stride : Z;
  byte_length : Z;
}.

Record VerifiedBufferMetadata : Type := mkMetadata {
  md_stride : Z;
  md_byte_length : Z;
}.

Record DamageRectangle : Type := mkRect {
  rx : Z;
  ry : Z;
  rwidth : Z;
  rheight : Z;
}.

(** [FrameLayout::new]. *)
Definition layout_new (w h : Z) : res FrameStateError FrameLayout :=
  if (w =? 0) || (h =? 0) then Err InvalidLayout
  else
    let! s := ok_or (checked_mul 32 w BYTES_PER_PIXEL) InvalidLayout in
    let! n := ok_or (checked_mul 64 s h) InvalidLayout in
    Ok (mkLayout w h s n).

(** The test of [validate_damage]: an overflowing edge is out of bounds. *)
Definition rect_out_of_bounds (layout : FrameLayout) (r : DamageRectangle) : bool :=
  match checked_add 32 (rx r) (rwidth r) with
  | None => true
  | Some right_edge => width layout <? right_edge
  end ||
  match checked_add 32 (ry r) (rheight r) with
  | None => true
  | Some bottom_edge => height layout <? bottom_edge
  end.

(** [FrameState::validate_damage]. *)
Definition validate_damage (layout : FrameLayout) (damage : list DamageRectangle)
    : res FrameStateError (list DamageRectangle) :=
  if (MAX_DAMAGE_RECTANGLES <? length damage)%nat then Err TooManyDamageRectangles
  else if (length damage =? 0)%nat
  then Ok [mkRect 0 0 (width layout) (height layout)]
  else if existsb (rect_out_of_bounds layout) damage then Err DamageOutOfBounds
  else Ok damage.

Section State.
Context {BufferId FrameId : Type} `{EqDecision BufferId, EqDecision FrameId}.

Record RegisteredBuffer : Type := mkBuffer {
  id : BufferId;
  in_flight : option FrameId;
}.

Record FrameState : Type := mkState {
  layout : FrameLayout;
  buffers : list RegisteredBuffer;
}.

Record ValidatedSubmission : Type := mkSubmission {
  vs_buffer_id : BufferId;
  vs_frame_id : FrameId;
  vs_damage : list DamageRectangle;
}.

Record FrameRelease : Type := mkRelease {
  fr_buffer_id : BufferId;
  fr_frame_id : FrameId;
}.

(** [FrameState::new]. *)
Definition new (l : FrameLayout) : FrameState := mkState l [].

(** [FrameState::register_buffer]: the result and the state after it. *)
Definition register_buffer (st : FrameState) (buffer_id : BufferId)
    (metadata : VerifiedBufferMetadata) : res FrameStateError unit * FrameState :=
  if negb (md_stride metadata =? stride (layout st)) then (Err InvalidBufferStride, st)
  else if negb (md_byte_length metadata =? byte_length (layout st))
  then (Err InvalidBufferLength, st)
  else if existsb (fun b => bool_decide (id b = buffer_id)) (buffers st)
  then (Err DuplicateBuffer, st)
  else if (length (buffers st) =? MAX_REGISTERED_BUFFERS)%nat then (Err TooManyBuffers, st)
  else (Ok tt, mkState (layout st) (buffers st ++ [mkBuffer buffer_id None])).

(** [FrameState::submit_frame]. *)
Definition submit_frame (st : FrameState) (buffer_id : BufferId) (frame_id : FrameId)
    (damage : list DamageRectangle) : res FrameStateError ValidatedSubmission * FrameState :=
  match list_find (fun b => id b = buffer_id) (buffers st) with
  | None => (Err UnknownBuffer, st)
  | Some (buffer_index, buffer) =>
      match in_flight buffer with
      | Some _ => (Err BufferInFlight, st)
      | None =>
          match validate_damage (layout st) damage with
          | Err e => (Err e, st)
          | Panic => (Panic, st)
          | Ok normalized_damage =>
              (Ok (mkSubmission (id buffer) frame_id normalized_damage),
               mkState (layout st)
                 (<[buffer_index := mkBuffer (id buffer) (Some frame_id)]> (buffers st)))
          end
      end
  end.

(** [FrameState::release_frame]. *)
Definition release_frame (st : FrameState) (buffer_id : BufferId) (frame_id : FrameId)
    : res FrameStateError FrameRelease * FrameState :=
  match list_find (fun b => id b = buffer_id) (buffers st) with
  | None => (Err UnknownBuffer, st)
  | Some (i, buffer) =>
      match in_flight buffer with
      | None => (Err BufferNotInFlight, st)
      | Some f =>
          if negb (bool_decide (f = frame_id)) then (Err FrameMismatch, st)
          else (Ok (mkRelease (id buffer) frame_id),
                mkState (layout st) (<[i := mkBuffer (id buffer) None]> (buffers st)))
      end
  end.

(** [FrameState::disconnect]. *)
Definition disconnect (st : FrameState) : FrameState := mkState (layout st) [].

(** [FrameState::registered_buffer_count]. *)
Definition registered_buffer_count (st : FrameState) : nat := length (buffers st).

(** [FrameState::in_flight_count]. *)
Definition in_flight_count (st : FrameState) : nat :=
  length (filter (fun b => is_Some (in_flight b)) (buffers st)).
End State.
Arguments RegisteredBuffer : clear implicits.
Arguments FrameState : clear implicits.
Arguments ValidatedSubmission : clear implicits.
Arguments FrameRelease : clear implicits.

(** ** Layouts and damage *)

(** A layout is accepted exactly for non-zero dimensions whose stride fits
    32 bits, and the byte length of an accepted layout, computed at 64 bits,
    cannot overflow: it is [4 * width * height]. *)
Theorem layout_new_spec w h :
  is_u 32 w -> is_u 32 h ->
  layout_new w h =
    if (w =? 0) || (h =? 0) || (2 ^ 32 <=? 4 * w) then Err InvalidLayout
    else Ok (mkLayout w h (4 * w) (4 * w * h)).
Proof.
  intros Hw Hh. unfold layout_new, checked_mul, BYTES_PER_PIXEL, umax, is_u in *.
  destruct ((w =? 0) || (h =? 0)) eqn:H0; [done|]. cbn [orb].
  rewrite (Z.mul_comm w 4). destruct (2 ^ 32 <=? 4 * w) eqn:H1; b2p.
  - by replace (4 * w <=? 2 ^ 32 - 1) with false by lia.
  - replace (4 * w <=? 2 ^ 32 - 1) with true by lia. cbn.
    change (2 ^ 32) with 4294967296 in *. change (2 ^ 64) with 18446744073709551616.
    assert (4 * w * h <= 4294967295 * 4294967295) by (apply Z.mul_le_mono_nonneg; lia).
    by replace (4 * w * h <=? 18446744073709551616 - 1) with true by lia.
Qed.

Lemma layout_new_spec_witness :
  layout_new 2170 60 = Ok (mkLayout 2170 60 8680 520800).
Proof. apply (layout_new_spec 2170 60); split; done. Defined.

(** The rectangle lies inside the display. *)
Definition rect_inside (l : FrameLayout) (r : DamageRectangle) : Prop :=
  rx r + rwidth r <= width l /\ ry r + rheight r <= height l.

Definition layout_wf (l : FrameLayout) : Prop := is_u 32 (width l) /\ is_u 32 (height l).

Lemma rect_out_of_bounds_spec l r :
  layout_wf l -> rect_out_of_bounds l r = false <-> rect_inside l r.
Proof.
  intros [Hw Hh]. unfold rect_out_of_bounds, rect_inside, checked_add, umax, is_u in *.
  rewrite orb_false_iff.
  destruct (rx r + rwidth r <=? _) eqn:H1, (ry r + rheight r <=? _) eqn:H2; lia.
Qed.

(** Damage is accepted exactly when there are at most 64 rectangles, all
    inside the display (an edge that overflows 32 bits is outside); an empty
    list stands for the whole display, any other is passed on unchanged. *)
Theorem validate_damage_spec l damage ds :
  layout_wf l ->
  validate_damage l damage = Ok ds <->
  (length damage <= 64)%nat /\ Forall (rect_inside l) damage /\
  ds = match damage with [] => [mkRect 0 0 (width l) (height l)] | _ => damage end.
Proof.
  intros Hl. unfold validate_damage, MAX_DAMAGE_RECTANGLES.
  assert (existsb (rect_out_of_bounds l) damage = false <-> Forall (rect_inside l) damage) as Hex.
  { induction damage as [|r d IH]; cbn; [by split|].
    rewrite orb_false_iff, Forall_cons, IH. by rewrite rect_out_of_bounds_spec. }
  destruct (_ <? _)%nat eqn:Hn; b2p; [split; [done|]; intros [? _]; lia|].
  destruct damage as [|r d]; cbn [length Nat.eqb].
  - split; [intros; simplify_eq; by split_and!|]. by intros (_ & _ & ->).
  - destruct (existsb _ _) eqn:He.
    + split; [done|]. intros (_ & HF%Hex & _). congruence.
    + split; [intros; simplify_eq; split_and!; [lens|by apply Hex|done]|].
      by intros (_ & _ & ->).
Qed.

Lemma validate_damage_spec_witness :
  validate_damage (mkLayout 10 5 40 200) [mkRect 2 1 8 4] = Ok [mkRect 2 1 8 4].
Proof.
  apply validate_damage_spec; [split; done|].
  split_and!; [cbn; lia| |done]. repeat constructor; cbn; lia.
Defined.

Lemma validate_damage_no_panic l damage : validate_damage l damage <> Panic.
Proof. unfold validate_damage. by repeat case_match. Qed.

(** ** The registry as a finite map *)

Section Refinement.
Context {B F : Type} `{Countable B, EqDecision F}.
Implicit Types (st : FrameState B F) (bs : list (RegisteredBuffer B F)).

(** The contract: which buffers are registered, and the frame each holds. *)
Definition to_map bs : gmap B (option F) :=
  list_to_map ((fun b => (id b, in_flight b)) <$> bs).
Definition abs st : gmap B (option F) := to_map (buffers st).

Definition wf st : Prop :=
  NoDup (id <$> buffers st) /\ (length (buffers st) <= MAX_REGISTERED_BUFFERS)%nat.

Lemma to_map_keys bs : ((fun b => (id b, in_flight b)) <$> bs).*1 = id <$> bs.
Proof. induction bs; cbn; congruence. Qed.

Lemma to_map_find bs k i b :
  list_find (fun b => id b = k) bs = Some (i, b) ->
  NoDup (id <$> bs) -> to_map bs !! k = Some (in_flight b).
Proof.
  intros (Hi & <- & _)%list_find_Some Hnd. apply elem_of_list_to_map_1.
  - by rewrite to_map_keys.
  - apply list_elem_of_fmap. exists b. split; [done|]. by eapply list_elem_of_lookup_2.
Qed.

Lemma to_map_find_None bs k :
  list_find (fun b => id b = k) bs = None -> to_map bs !! k = None.
Proof.
  intros Hf%list_find_None. apply not_elem_of_list_to_map_1. rewrite to_map_keys.
  intros (b & -> & Hb)%list_elem_of_fmap. rewrite Forall_forall in Hf. by eapply Hf.
Qed.

Lemma to_map_snoc bs k :
  k ∉ id <$> bs -> to_map (bs ++ [mkBuffer k None]) = <[k := None]> (to_map bs).
Proof.
  intros Hk. unfold to_map. rewrite fmap_app, list_to_map_app. cbn.
  rewrite insert_empty, <- insert_union_singleton_r; [done|].
  apply not_elem_of_list_to_map_1. by rewrite to_map_keys.
Qed.

Lemma to_map_update bs k i b f :
  list_find (fun b => id b = k) bs = Some (i, b) -> NoDup (id <$> bs) ->
  to_map (<[i := mkBuffer (id b) f]> bs) = <[k := f]> (to_map bs).
Proof.
  intros (Hi & <- & _)%list_find_Some. revert i Hi.
  induction bs as [|b' bs IH]; intros [|i] Hi Hnd; cbn in *; simplify_eq/=.
  - by rewrite insert_insert_eq.
  - apply NoDup_cons in Hnd as [Hn Hnd].
    assert (id b <> id b') as Hne.
    { intros Heq. apply Hn. rewrite <- Heq. apply list_elem_of_fmap.
      exists b. split; [done|]. by eapply list_elem_of_lookup_2. }
    rewrite insert_insert_ne by done. f_equal. by apply IH.
Qed.

Lemma ids_update bs k i b f :
  list_find (fun b => id b = k) bs = Some (i, b) ->
  id <$> <[i := mkBuffer (id b) f]> bs = id <$> bs.
Proof.
  intros (Hi & _ & _)%list_find_Some. rewrite list_fmap_insert. cbn.
  apply list_insert_id. by rewrite list_lookup_fmap, Hi.
Qed.

Lemma to_map_size bs : NoDup (id <$> bs) -> size (to_map bs) = length bs.
Proof.
  intros Hnd. unfold to_map. rewrite map_size_list_to_map by by rewrite to_map_keys.
  by rewrite length_fmap.
Qed.

Lemma existsb_id bs k :
  existsb (fun b => bool_decide (id b = k)) bs = bool_decide (is_Some (to_map bs !! k)).
Proof.
  induction bs as [|b bs IH]; cbn; [by rewrite lookup_empty|].
  fold (to_map bs). rewrite lookup_insert, IH. case_decide as Hk.
  - rewrite !bool_decide_eq_true_2 by eauto. done.
  - by rewrite (bool_decide_eq_false_2 (id b = k)).
Qed.

#[local] Arguments to_map : simpl never.

(** The operations of a client, their results, and the abstract registry. *)
Inductive op : Type :=
| Register (k : B) (m : VerifiedBufferMetadata)
| Submit (k : B) (f : F) (damage : list DamageRectangle)
| Release (k : B) (f : F)
| Disconnect.

Inductive outcome : Type :=
| ORegister (r : res FrameStateError unit)
| OSubmit (r : res FrameStateError (ValidatedSubmission B F))
| ORelease (r : res FrameStateError (FrameRelease B F))
| ODisconnect.

Definition step st (o : op) : outcome * FrameState B F :=
  match o with
  | Register k m => let (r, st') := register_buffer st k m in (ORegister r, st')
  | Submit k f d => let (r, st') := submit_frame st k f d in (OSubmit r, st')
  | Release k f => let (r, st') := release_frame st k f in (ORelease r, st')
  | Disconnect => (ODisconnect, disconnect st)
  end.

Definition spec_step (l : FrameLayout) (m : gmap B (option F)) (o : op)
    : outcome * gmap B (option F) :=
  match o with
  | Register k md =>
      if negb (md_stride md =? stride l) then (ORegister (Err InvalidBufferStride), m)
      else if negb (md_byte_length md =? byte_length l)
      then (ORegister (Err InvalidBufferLength), m)
      else if bool_decide (is_Some (m !! k)) then (ORegister (Err DuplicateBuffer), m)
      else if (size m =? 3)%nat then (ORegister (Err TooManyBuffers), m)
      else (ORegister (Ok tt), <[k := None]> m)
  | Submit k f d =>
      match m !! k with
      | None => (OSubmit (Err UnknownBuffer), m)
      | Some (Some _) => (OSubmit (Err BufferInFlight), m)
      | Some None =>
          match validate_damage l d with
          | Ok nd => (OSubmit (Ok (mkSubmission k f nd)), <[k := Some f]> m)
          | Err e => (OSubmit (Err e), m)
          | Panic => (OSubmit Panic, m)
          end
      end
  | Release k f =>
      match m !! k with
      | None => (ORelease (Err UnknownBuffer), m)
      | Some None => (ORelease (Err BufferNotInFlight), m)
      | Some (Some g) =>
          if bool_decide (g = f) then (ORelease (Ok (mkRelease k f)), <[k := None]> m)
          else (ORelease (Err FrameMismatch), m)
      end
  | Disconnect => (ODisconnect, ∅)
  end.

Fixpoint run {S} (stp : S -> op -> outcome * S) (s : S) (os : list op) : list outcome * S :=
  match os with
  | [] => ([], s)
  | o :: os => let (r, s1) := stp s o in let (rs, s2) := run stp s1 os in (r :: rs, s2)
  end.

Lemma step_refines st o :
  wf st ->
  wf (step st o).2 /\ layout (step st o).2 = layout st /\
  ((step st o).1, abs (step st o).2) = spec_step (layout st) (abs st) o.
Proof.
  intros [Hnd Hlen]. unfold abs, wf, MAX_REGISTERED_BUFFERS in *.
  destruct o as [k md|k f d|k f|]; cbn.
  - unfold register_buffer. rewrite existsb_id, to_map_size by done.
    unfold MAX_REGISTERED_BUFFERS.
    destruct (negb _) eqn:?; cbn; [done|]. destruct (negb (md_byte_length _ =? _)); cbn; [done|].
    case_bool_decide as Hk; cbn; [done|]. destruct (_ =? 3)%nat eqn:H3; cbn; [done|]. b2p.
    assert (k ∉ id <$> buffers st) as Hk'.
    { rewrite <- to_map_keys. apply not_elem_of_list_to_map. by apply eq_None_not_Some. }
    rewrite to_map_snoc by done. rewrite fmap_app, NoDup_app. cbn. split_and!; try done.
    + intros x Hx ->%list_elem_of_singleton. done.
    + apply NoDup_singleton.
    + lens.
  - unfold submit_frame. destruct (list_find _ _) as [[i b]|] eqn:Hf; cbn.
    2: by rewrite (to_map_find_None _ _ Hf).
    rewrite (to_map_find _ _ _ _ Hf) by done. destruct (in_flight b) eqn:Hb; cbn; [done|].
    destruct (validate_damage _ _) eqn:Hv; cbn; try done.
    rewrite (to_map_update _ _ _ _ _ Hf), (ids_update _ _ _ _ _ Hf), length_insert by done.
    apply list_find_Some in Hf as (_ & -> & _). done.
  - unfold release_frame. destruct (list_find _ _) as [[i b]|] eqn:Hf; cbn.
    2: by rewrite (to_map_find_None _ _ Hf).
    rewrite (to_map_find _ _ _ _ Hf) by done. destruct (in_flight b) eqn:Hb; cbn; [|done].
    case_bool_decide; cbn; [|done].
    rewrite (to_map_update _ _ _ _ _ Hf), (ids_update _ _ _ _ _ Hf), length_insert by done.
    apply list_find_Some in Hf as (_ & -> & _). done.
  - split_and!; try done; [constructor|lia].
Qed.
Lemma run_refines os st :
  wf st ->
  wf (run step st os).2 /\ layout (run step st os).2 = layout st /\
  ((run step st os).1, abs (run step st os).2) = run (spec_step (layout st)) (abs st) os.
Proof.
  revert st. induction os as [|o os IH]; intros st Hst; cbn; [done|].
  destruct (step_refines st o Hst) as (Hwf & Hl & Hs).
  destruct (step st o) as [r st1]; cbn in *.
  destruct (IH st1 Hwf) as (Hwf2 & Hl2 & Hs2). rewrite Hl in *. rewrite <- Hs.
  destruct (run step st1 os) as [rs st2]; cbn in *. rewrite <- Hs2. done.
Qed.

Lemma wf_new l : wf (new l).
Proof. split; cbn; [constructor|unfold MAX_REGISTERED_BUFFERS; lia]. Qed.

(** The vector of registered buffers implements the abstract registry:
    from the empty state, every sequence of client operations gives the
    results, success and error alike, of the finite-map contract, ends in the
    map the contract ends in, and keeps the vector free of duplicates and
    within three buffers. *)
Theorem registry_refines_map l os :
  wf (run step (new l) os).2 /\
  ((run step (new l) os).1, abs (run step (new l) os).2) = run (spec_step l) ∅ os.
Proof. by destruct (run_refines os (new l) (wf_new l)) as (? & _ & ?). Qed.

Lemma spec_step_owned l m o k f :
  m !! k = Some (Some f) -> o <> Release k f -> o <> Disconnect ->
  (spec_step l m o).2 !! k = Some (Some f) /\
  forall g d, o = Submit k g d -> (spec_step l m o).1 = OSubmit (Err BufferInFlight).
Proof.
  intros Hk Hr Hd. destruct o as [k' md|k' f' d|k' f'|]; cbn; [| | |done].
  all: destruct (decide (k' = k)) as [->|Hne]; rewrite ?Hk; cbn; split; try done.
  all: repeat (case_match; cbn); try done; simplify_eq; rewrite ?lookup_insert_ne by done; try done.
  all: b2p; try naive_solver.
Qed.

Lemma owned_kept l m os k f :
  m !! k = Some (Some f) -> Forall (fun o => o <> Release k f /\ o <> Disconnect) os ->
  (run (spec_step l) m os).2 !! k = Some (Some f) /\
  Forall2 (fun o r => forall g d, o = Submit k g d -> r = OSubmit (Err BufferInFlight))
    os (run (spec_step l) m os).1.
Proof.
  intros Hk Hos. revert m Hk. induction Hos as [|o os [Hr Hd] Hos IH]; intros m Hk; cbn; [done|].
  destruct (spec_step_owned l m o k f Hk Hr Hd) as [Hk1 Ho].
  destruct (spec_step l m o) as [r m1]; cbn in *.
  destruct (IH m1 Hk1) as [Hk2 HF]. destruct (run _ m1 os) as [rs m2]; cbn in *.
  split; [done|]. by constructor.
Qed.

(** A submitted buffer belongs to its frame until that exact frame is
    released or the client disconnects: whatever else the client does in
    between, the buffer still holds the frame and every other submission of
    it is refused with [BufferInFlight]. *)
Theorem submitted_buffer_owned l pre k f d os :
  is_ok (submit_frame (run step (new l) pre).2 k f d).1 = true ->
  Forall (fun o => o <> Release k f /\ o <> Disconnect) os ->
  let st := (submit_frame (run step (new l) pre).2 k f d).2 in
  abs (run step st os).2 !! k = Some (Some f) /\
  Forall2 (fun o r => forall g d', o = Submit k g d' -> r = OSubmit (Err BufferInFlight))
    os (run step st os).1.
Proof.
  intros Hok Hos. destruct (run_refines pre (new l) (wf_new l)) as (Hwf & _ & _).
  set (st0 := (run step (new l) pre).2) in *. cbn zeta.
  destruct (step_refines st0 (Submit k f d) Hwf) as (Hwf1 & _ & Hs). cbn in *.
  destruct (submit_frame st0 k f d) as [r st]; cbn in *.
  destruct (run_refines os st Hwf1) as (_ & _ & Hrun).
  destruct (run step st os) as [rs st']; cbn in *.
  assert (abs st !! k = Some (Some f)) as Hk.
  { destruct (abs st0 !! k) as [[g|]|] eqn:H0; [| |by simplify_eq]; [by simplify_eq|].
    destruct (validate_damage _ _); simplify_eq/=.
    match goal with Ha : abs st = _ |- _ => rewrite Ha end. apply lookup_insert_eq. }
  destruct (owned_kept (layout st) (abs st) os k f Hk Hos) as [H1 H2].
  rewrite <- Hrun in *. done.
Qed.
End Refinement.
Arguments op : clear implicits.
Arguments outcome : clear implicits.

Definition ex_layout : FrameLayout := mkLayout 10 5 40 200.

Lemma submitted_buffer_owned_witness :
  let st := (submit_frame
    (run step (new ex_layout) [Register 1%nat (mkMetadata 40 200)]).2 1%nat 7%nat []).2 in
  abs (run step st [Submit 1%nat 8%nat []; Release 1%nat 8%nat]).2 !! 1%nat = Some (Some 7%nat) /\
  Forall2 (fun o r => forall g d', o = Submit 1%nat g d' -> r = OSubmit (Err BufferInFlight))
    [Submit 1%nat 8%nat []; Release 1%nat 8%nat]
    (run step st [Submit 1%nat 8%nat []; Release 1%nat 8%nat]).1.
Proof.
  apply (submitted_buffer_owned ex_layout [Register 1%nat (mkMetadata 40 200)] 1%nat 7%nat []).
  - reflexivity.
  - repeat constructor; discriminate.
Defined.

End FrameState.
