(* ===== verification/ClientState.v ===== *)
(** * The rendering-client lease ([crates/t1-touchbar-hw/src/client_state.rs])

    One rendering client at a time owns the Touch Bar. Revoking it moves its
    resources to a pending cleanup that must be confirmed and finished before
    another client is admitted. The module models the state and its operations,
    the borrowed [RevokedClient] guard included, and relates them to the
    four-phase lifecycle they implement. *)

From S2P Require Import Prelude.

Module ClientState.

Section Lease.
Context {ConnectionId Resources Reason : Type} `{EqDecision ConnectionId}.

Inductive ClientAdmissionError : Type :=
| Unauthorized (r : Reason)
| ActiveClientExists
| RevocationCleanupPending.

Record ActiveClient : Type := mkClient {
  connection_id : ConnectionId;
  resources : Resources;
}.

Record ClientState : Type := mkState {
  active : option ActiveClient;
  pending : option ActiveClient;
  pending_cleanup_confirmed : bool;
}.

(** [ClientState::default], [ClientState::new]. *)
Definition new : ClientState := mkState None None false.

(** [ClientState::admit_with_resources]. The authorization callback is its
    result; [make_resources] is the bundle it would build. *)
Definition admit_with_resources (st : ClientState) (c : ConnectionId)
    (authorize : res Reason unit) (make_resources : Resources)
    : res ClientAdmissionError unit * ClientState :=
  match authorize with
  | Err r => (Err (Unauthorized r), st)
  | Panic => (Panic, st)
  | Ok _ =>
      match active st with
      | Some _ => (Err ActiveClientExists, st)
      | None =>
          match pending st with
          | Some _ => (Err RevocationCleanupPending, st)
          | None =>
              (Ok tt, mkState (Some (mkClient c make_resources)) (pending st)
                        (pending_cleanup_confirmed st))
          end
      end
  end.

(** [ClientState::resources]. *)
Definition get_resources (st : ClientState) (c : ConnectionId) : option Resources :=
  match active st with
  | None => None
  | Some a => if bool_decide (connection_id a = c) then Some (resources a) else None
  end.

(** A write through the borrow of [ClientState::resources_mut]. *)
Definition resources_mut (st : ClientState) (c : ConnectionId) (f : Resources -> Resources)
    : bool * ClientState :=
  match active st with
  | None => (false, st)
  | Some a =>
      if bool_decide (connection_id a = c)
      then (true, mkState (Some (mkClient (connection_id a) (f (resources a))))
                    (pending st) (pending_cleanup_confirmed st))
      else (false, st)
  end.

(** [ClientState::pending_revocation]: the client the guard gives access to,
    if there is a guard. *)
Definition pending_revocation (st : ClientState) : option ActiveClient :=
  if pending_cleanup_confirmed st then None else pending st.

(** [ClientState::session_transition]. *)
Definition session_transition (st : ClientState) : option ActiveClient * ClientState :=
  match pending st with
  | Some _ => (None, st)
  | None =>
      let st' := mkState None (active st) false in
      (pending_revocation st', st')
  end.

(** [ClientState::disconnect]. *)
Definition disconnect (st : ClientState) (c : ConnectionId)
    : option ActiveClient * ClientState :=
  match active st with
  | None => (None, st)
  | Some a =>
      if negb (bool_decide (connection_id a = c)) then (None, st)
      else session_transition st
  end.

(** [RevokedClient::resources_mut] through the guard of [pending_revocation]. *)
Definition cleanup_resources (st : ClientState) (f : Resources -> Resources)
    : bool * ClientState :=
  match pending_revocation st with
  | None => (false, st)
  | Some p => (true, mkState (active st) (Some (mkClient (connection_id p) (f (resources p))))
                       (pending_cleanup_confirmed st))
  end.

(** [RevokedClient::confirm_cleanup] through the guard of [pending_revocation]. *)
Definition confirm_cleanup (st : ClientState) : bool * ClientState :=
  match pending_revocation st with
  | None => (false, st)
  | Some _ => (true, mkState (active st) (pending st) true)
  end.

(** [ClientState::finish_revocation]. *)
Definition finish_revocation (st : ClientState) : option ConnectionId * ClientState :=
  if negb (pending_cleanup_confirmed st) then (None, st)
  else match pending st with
       | None => (None, st)
       | Some p => (Some (connection_id p), mkState (active st) None false)
       end.

(** [ClientState::has_active_client], [has_pending_revocation_cleanup]. *)
Definition has_active_client (st : ClientState) : bool := bool_decide (is_Some (active st)).
Definition has_pending_revocation_cleanup (st : ClientState) : bool :=
  bool_decide (is_Some (pending st)).

(** ** The lifecycle the state implements *)

Inductive phase : Type :=
| Idle
| Serving (a : ActiveClient)
| Cleaning (a : ActiveClient)
| Cleaned (a : ActiveClient).

Definition of_phase (p : phase) : ClientState :=
  match p with
  | Idle => mkState None None false
  | Serving a => mkState (Some a) None false
  | Cleaning a => mkState None (Some a) false
  | Cleaned a => mkState None (Some a) true
  end.

Inductive op : Type :=
| Admit (c : ConnectionId) (authorize : res Reason unit) (r : Resources)
| Mutate (c : ConnectionId) (f : Resources -> Resources)
| SessionTransition
| Disconnect (c : ConnectionId)
| CleanupMutate (f : Resources -> Resources)
| ConfirmCleanup
| FinishRevocation.

Inductive outcome : Type :=
| OAdmit (r : res ClientAdmissionError unit)
| ODone (b : bool)
| OGuard (g : option ActiveClient)
| OConfirmed (b : bool)
| OFinished (c : option ConnectionId).

Definition step (st : ClientState) (o : op) : outcome * ClientState :=
  match o with
  | Admit c auth r => let (x, st') := admit_with_resources st c auth r in (OAdmit x, st')
  | Mutate c f => let (x, st') := resources_mut st c f in (ODone x, st')
  | SessionTransition => let (x, st') := session_transition st in (OGuard x, st')
  | Disconnect c => let (x, st') := disconnect st c in (OGuard x, st')
  | CleanupMutate f => let (x, st') := cleanup_resources st f in (ODone x, st')
  | ConfirmCleanup => let (x, st') := confirm_cleanup st in (OConfirmed x, st')
  | FinishRevocation => let (x, st') := finish_revocation st in (OFinished x, st')
  end.

(** The lifecycle as a step relation: an idle lease is taken by an authorized
    client, the client is revoked by a session change or by its own
    disconnect, its cleanup is confirmed, and finishing it reopens admission.
    Everything else is refused or ignored. *)
Inductive phase_step : phase -> op -> outcome -> phase -> Prop :=
| ps_unauthorized p c r e : phase_step p (Admit c (Err e) r) (OAdmit (Err (Unauthorized e))) p
| ps_auth_panic p c r : phase_step p (Admit c Panic r) (OAdmit Panic) p
| ps_admit c r :
    phase_step Idle (Admit c (Ok tt) r) (OAdmit (Ok tt)) (Serving (mkClient c r))
| ps_admit_active a c r :
    phase_step (Serving a) (Admit c (Ok tt) r) (OAdmit (Err ActiveClientExists)) (Serving a)
| ps_admit_cleaning a c r :
    phase_step (Cleaning a) (Admit c (Ok tt) r)
      (OAdmit (Err RevocationCleanupPending)) (Cleaning a)
| ps_admit_cleaned a c r :
    phase_step (Cleaned a) (Admit c (Ok tt) r)
      (OAdmit (Err RevocationCleanupPending)) (Cleaned a)
| ps_mutate a f :
    phase_step (Serving a) (Mutate (connection_id a) f) (ODone true)
      (Serving (mkClient (connection_id a) (f (resources a))))
| ps_mutate_other p c f :
    (forall a, p = Serving a -> connection_id a <> c) ->
    phase_step p (Mutate c f) (ODone false) p
| ps_revoke a : phase_step (Serving a) SessionTransition (OGuard (Some a)) (Cleaning a)
| ps_revoke_none p :
    (forall a, p <> Serving a) -> phase_step p SessionTransition (OGuard None) p
| ps_disconnect a :
    phase_step (Serving a) (Disconnect (connection_id a)) (OGuard (Some a)) (Cleaning a)
| ps_disconnect_other p c :
    (forall a, p = Serving a -> connection_id a <> c) ->
    phase_step p (Disconnect c) (OGuard None) p
| ps_clean a f :
    phase_step (Cleaning a) (CleanupMutate f) (ODone true)
      (Cleaning (mkClient (connection_id a) (f (resources a))))
| ps_clean_none p f :
    (forall a, p <> Cleaning a) -> phase_step p (CleanupMutate f) (ODone false) p
| ps_confirm a : phase_step (Cleaning a) ConfirmCleanup (OConfirmed true) (Cleaned a)
| ps_confirm_none p :
    (forall a, p <> Cleaning a) -> phase_step p ConfirmCleanup (OConfirmed false) p
| ps_finish a :
    phase_step (Cleaned a) FinishRevocation (OFinished (Some (connection_id a))) Idle
| ps_finish_none p :
    (forall a, p <> Cleaned a) -> phase_step p FinishRevocation (OFinished None) p.

Inductive phase_run : phase -> list op -> list outcome -> phase -> Prop :=
| pr_nil p : phase_run p [] [] p
| pr_cons p o x p1 os xs p2 :
    phase_step p o x p1 -> phase_run p1 os xs p2 -> phase_run p (o :: os) (x :: xs) p2.

Fixpoint run (st : ClientState) (os : list op) : list outcome * ClientState :=
  match os with
  | [] => ([], st)
  | o :: os => let (x, st1) := step st o in let (xs, st2) := run st1 os in (x :: xs, st2)
  end.
End Lease.
Arguments ActiveClient : clear implicits.
Arguments ClientState : clear implicits.
Arguments ClientAdmissionError : clear implicits.
Arguments phase : clear implicits.
Arguments op : clear implicits.
Arguments outcome : clear implicits.

#[export] Hint Constructors phase_step phase_run : t1.

Section Lifecycle.
Context {C R E : Type} `{EqDecision C}.
Implicit Types (p : phase C R) (o : op C R E) (x : outcome C R E).

(** Reads the phase off the state an operation ended in. *)
Ltac name_phase :=
  lazymatch goal with
  | |- exists x p', (?o, mkState ?a ?b ?c) = _ /\ _ =>
      exists o;
      lazymatch constr:((a, b, c)) with
      | (None, None, _) => exists Idle
      | (Some ?x, _, _) => exists (Serving x)
      | (None, Some ?x, false) => exists (Cleaning x)
      | (None, Some ?x, true) => exists (Cleaned x)
      end
  end.

Lemma step_phase p o :
  exists x p', step (of_phase p) o = (x, of_phase p') /\ phase_step p o x p'.
Proof.
  destruct o as [c auth r|c f| |c|f| |], p as [|a|a|a].
  all: try (destruct auth as [[]|e|]).
  all: cbn; unfold disconnect, resources_mut, confirm_cleanup, cleanup_resources; cbn.
  all: try (case_bool_decide; simplify_eq/=).
  all: name_phase; split; [done|]; constructor; naive_solver.
Qed.

Lemma phase_step_det p o x y p1 p2 :
  phase_step p o x p1 -> phase_step p o y p2 -> x = y /\ p1 = p2.
Proof.
  intros H1 H2. destruct H1; inversion H2; simplify_eq; naive_solver.
Qed.

Lemma run_phase p (os : list (op C R E)) :
  exists p', (run (of_phase p) os).2 = of_phase p' /\ phase_run p os (run (of_phase p) os).1 p'.
Proof.
  revert p. induction os as [|o os IH]; intros p; cbn.
  - exists p. split; [done|constructor].
  - destruct (step_phase p o) as (x & p1 & -> & Hs). cbn.
    destruct (IH p1) as (p2 & Hp2 & Hrun). destruct (run (of_phase p1) os) as [xs st2].
    cbn in *. exists p2. split; [done|]. econstructor; eauto.
Qed.

Lemma phase_run_det p (os : list (op C R E)) xs ys p1 p2 :
  phase_run p os xs p1 -> phase_run p os ys p2 -> xs = ys /\ p1 = p2.
Proof.
  intros H1. revert ys p2. induction H1 as [|p o x q os xs p1 Hs Hrun IH]; intros ys p2 H2;
    inversion H2 as [|? ? y q' ? ys' ? Hs' Hrun']; simplify_eq; [done|].
  destruct (phase_step_det _ _ _ _ _ _ Hs Hs') as [-> ->].
  by destruct (IH _ _ Hrun') as [-> ->].
Qed.

(** C35. The lease implements the lifecycle Idle, Serving, Cleaning, Cleaned:
    from the initial state a sequence of operations has exactly the outcomes
    and the final phase of the lifecycle's step relation. In particular an
    active client and a pending cleanup never coexist and a confirmation
    without pending cleanup never occurs. *)
Theorem lease_refines_lifecycle (os : list (op C R E)) xs st :
  run new os = (xs, st) <-> exists p, st = of_phase p /\ phase_run Idle os xs p.
Proof.
  destruct (run_phase Idle os) as (p & Hp & Hrun). change (of_phase Idle) with (@new C R) in *.
  destruct (run new os) as [xs' st']; cbn in *. split.
  - intros; simplify_eq. eauto.
  - intros (p' & -> & Hrun'). destruct (phase_run_det _ _ _ _ _ _ Hrun Hrun') as [-> ->].
    by rewrite Hp.
Qed.

(** The events of a run that change hands: who was admitted, whose lease was
    revoked, confirmed clean, and finished. *)
Inductive milestone : Type :=
| MAdmit (c : C)
| MRevoke (c : C)
| MConfirm
| MFinish (c : C).

Definition milestone_of o x : option milestone :=
  match o, x with
  | Admit c _ _, OAdmit (Ok _) => Some (MAdmit c)
  | _, OGuard (Some g) => Some (MRevoke (connection_id g))
  | _, OConfirmed true => Some MConfirm
  | _, OFinished (Some c) => Some (MFinish c)
  | _, _ => None
  end.

Fixpoint milestones (os : list (op C R E)) (xs : list (outcome C R E)) : list milestone :=
  match os, xs with
  | o :: os, x :: xs =>
      match milestone_of o x with Some m => [m] | None => [] end ++ milestones os xs
  | _, _ => []
  end.

(** The events of one client follow each other, admission, revocation,
    confirmation, finish, before those of the next. *)
Inductive in_turn : phase C unit -> list milestone -> Prop :=
| it_end q : in_turn q []
| it_admit c ms : in_turn (Serving (mkClient c tt)) ms -> in_turn Idle (MAdmit c :: ms)
| it_revoke c ms : in_turn (Cleaning (mkClient c tt)) ms ->
    in_turn (Serving (mkClient c tt)) (MRevoke c :: ms)
| it_confirm c ms : in_turn (Cleaned (mkClient c tt)) ms ->
    in_turn (Cleaning (mkClient c tt)) (MConfirm :: ms)
| it_finish c ms : in_turn Idle ms -> in_turn (Cleaned (mkClient c tt)) (MFinish c :: ms).

Definition forget p : phase C unit :=
  match p with
  | Idle => Idle
  | Serving a => Serving (mkClient (connection_id a) tt)
  | Cleaning a => Cleaning (mkClient (connection_id a) tt)
  | Cleaned a => Cleaned (mkClient (connection_id a) tt)
  end.

Lemma phase_run_in_turn p (os : list (op C R E)) xs p' :
  phase_run p os xs p' -> in_turn (forget p) (milestones os xs).
Proof.
  induction 1 as [|p o x p1 os xs p2 Hs Hrun IH]; [constructor|].
  inversion Hs; simplify_eq/=; try done; by constructor.
Qed.

(** Clients take turns: in every history, a client is admitted only after
    the lease of the previous one was revoked, its cleanup confirmed and its
    revocation finished, in that order and for that very client. *)
Theorem clients_take_turns (os : list (op C R E)) :
  in_turn Idle (milestones os (run new os).1).
Proof.
  destruct (run_phase Idle os) as (p & _ & Hrun). by apply phase_run_in_turn in Hrun.
Qed.
End Lifecycle.

End ClientState.
