(* ===== verification/Digitizer.v ===== *)
(** * Digitizer reports and input state
    ([crates/t1-touchbar-hw/src/digitizer.rs], [input_state.rs])

    The Touch Bar digitizer sends ten four-byte contact slots and twelve vendor
    bytes. The parser keeps the active contacts and refuses a report that names
    one contact twice; the input state turns reports and Fn changes into input
    frames. Coordinates are scaled in IEEE binary64, modelled by the kernel's
    primitive floats. *)

From S2P Require Import Prelude.
From Stdlib Require Uint63 Floats.

Module Digitizer.

Definition CONTACT_SLOT_COUNT : nat := 10.
Definition CONTACT_SLOT_SIZE : nat := 4.
Definition DIGITIZER_PAYLOAD_SIZE : nat := 52.
Definition CONTACT_BYTES : nat := CONTACT_SLOT_COUNT * CONTACT_SLOT_SIZE.
Definition RAW_X_MAX : Z := 32767.
Definition RAW_Y_MAX : Z := 127.
Definition CONTACT_ID_MASK : Z := 0x0f.
Definition TIP_MASK : Z := 0x10.
Definition IN_RANGE_MASK : Z := 0x20.
Definition RESERVED_MASK : Z := 0xc0.

Inductive DigitizerError : Type :=
| WrongPayloadLength
| ReservedFlagBits
| XOutOfRange
| YOutOfRange
| DuplicateActiveContact
| InvalidDisplayDimensions.

Record RawContact : Type := mkContact {
  cid : Z;
  cx : Z;
  cy : Z;
  tip : bool;
  in_range : bool;
}.

Record DigitizerReport : Type := mkReport { contacts : list RawContact }.

Record DisplayDimensions : Type := mkDims { width : Z; height : Z }.

(** [DisplayDimensions::new]. *)
Definition dims_new (w h : Z) : res DigitizerError DisplayDimensions :=
  if (w =? 0) || (h =? 0) then Err InvalidDisplayDimensions else Ok (mkDims w h).

Definition float := PrimFloat.float.

Record DisplayContact : Type := mkDisplayContact {
  dc_id : Z;
  dc_x : float;
  dc_y : float;
  dc_tip : bool;
  dc_in_range : bool;
}.

(** [f64::from] on an unsigned integer of at most 32 bits: exact. *)
Definition f64_from (z : Z) : float := PrimFloat.of_uint63 (Uint63.of_Z z).

(** [RawContact::scale]. *)
Definition scale (c : RawContact) (d : DisplayDimensions) : DisplayContact :=
  mkDisplayContact (cid c)
    (PrimFloat.div (PrimFloat.mul (f64_from (cx c)) (f64_from (width d - 1))) (f64_from RAW_X_MAX))
    (PrimFloat.div (PrimFloat.mul (f64_from (cy c)) (f64_from (height d - 1))) (f64_from RAW_Y_MAX))
    (tip c) (in_range c).

(** [DigitizerReport::scaled_contacts]. *)
Definition scaled_contacts (r : DigitizerReport) (d : DisplayDimensions) : list DisplayContact :=
  (fun c => scale c d) <$> contacts r.

(** The loop of [parse_digitizer_payload] over the contact slots. *)
Fixpoint parse_slots (slots : list bytes) (active_ids : Z) (found : list RawContact)
    : res DigitizerError DigitizerReport :=
  match slots with
  | [] => Ok (mkReport found)
  | slot :: slots =>
      let! flags := byte_at slot 0 in
      if negb (Z.land flags RESERVED_MASK =? 0) then Err ReservedFlagBits
      else
        let! x := read_le slot 1 2 in
        if RAW_X_MAX <? x then Err XOutOfRange
        else
          let! y := byte_at slot 3 in
          if RAW_Y_MAX <? y then Err YOutOfRange
          else
            let contact := mkContact (Z.land flags CONTACT_ID_MASK) x y
                             (negb (Z.land flags TIP_MASK =? 0))
                             (negb (Z.land flags IN_RANGE_MASK =? 0)) in
            if tip contact || in_range contact then
              let id_bit := Z.shiftl 1 (cid contact) in
              if negb (Z.land active_ids id_bit =? 0) then Err DuplicateActiveContact
              else parse_slots slots (Z.lor active_ids id_bit) (found ++ [contact])
            else parse_slots slots active_ids found
  end.

(** [parse_digitizer_payload]. *)
Definition parse_digitizer_payload (payload : bytes) : res DigitizerError DigitizerReport :=
  if negb (len payload =? Z.of_nat DIGITIZER_PAYLOAD_SIZE) then Err WrongPayloadLength
  else
    let! head := slice payload 0 CONTACT_BYTES in
    parse_slots (chunks CONTACT_SLOT_SIZE head) 0 [].

(** ** What a slot means *)

Definition slot_contact (slot : bytes) : RawContact :=
  match slot with
  | [flags; x0; x1; y] =>
      mkContact (flags mod 16) (x0 + 256 * x1) y (Z.testbit flags 4) (Z.testbit flags 5)
  | _ => mkContact 0 0 0 false false
  end.

(** Reserved flag bits clear and coordinates in the descriptor's ranges. *)
Definition slot_valid (slot : bytes) : Prop :=
  match slot with
  | [flags; x0; x1; y] => flags < 64 /\ x0 + 256 * x1 <= RAW_X_MAX /\ y <= RAW_Y_MAX
  | _ => False
  end.

Definition is_active (c : RawContact) : bool := tip c || in_range c.

Definition active_contacts (slots : list bytes) : list RawContact :=
  filter (fun c => is_active c = true) (slot_contact <$> slots).

(** The flag tests of one slot, for every flag byte. *)
Lemma flag_tests flags :
  is_u 8 flags ->
  (Z.land flags RESERVED_MASK =? 0) = (flags <? 64) /\
  Z.land flags CONTACT_ID_MASK = flags mod 16 /\
  negb (Z.land flags TIP_MASK =? 0) = Z.testbit flags 4 /\
  negb (Z.land flags IN_RANGE_MASK =? 0) = Z.testbit flags 5.
Proof.
  intros Hf.
  pose proof (byte_forall (fun f =>
    Bool.eqb (Z.land f RESERVED_MASK =? 0) (f <? 64) &&
    (Z.land f CONTACT_ID_MASK =? f mod 16) &&
    Bool.eqb (negb (Z.land f TIP_MASK =? 0)) (Z.testbit f 4) &&
    Bool.eqb (negb (Z.land f IN_RANGE_MASK =? 0)) (Z.testbit f 5)) eq_refl flags Hf) as H.
  cbv beta in H. b2p. split_and!; by first [apply eqb_prop | assumption].
Qed.

Lemma parse_slots_iff slots m ids found r :
  Forall (fun s => length s = 4%nat) slots -> Forall bytes_ok slots -> mask_is m ids ->
  parse_slots slots m found = Ok r <->
  Forall slot_valid slots /\ NoDup (cid <$> active_contacts slots) /\
  Forall (fun c => cid c ∉ ids) (active_contacts slots) /\
  r = mkReport (found ++ active_contacts slots).
Proof.
  intros Hlen Hok. revert m ids found. unfold active_contacts.
  induction slots as [|s slots IH]; intros m ids found Hm.
  { cbn. rewrite app_nil_r. split; [intros; simplify_eq; by repeat constructor|].
    by intros (_ & _ & _ & ->). }
  apply Forall_cons in Hlen as [Hs Hlen], Hok as [Hb Hok]. specialize (IH Hlen Hok).
  destruct s as [|f [|x0 [|x1 [|y [|]]]]]; try done.
  repeat (apply bytes_ok_cons in Hb as [? Hb]).
  set (c := slot_contact [f; x0; x1; y]). rewrite Forall_cons, fmap_cons, filter_cons.
  fold c. cbn [parse_slots]. rewrite byte_at_0.
  change (read_le _ 1 2) with (Ok (E := DigitizerError) (le_val [x0; x1])).
  change (byte_at _ 3) with (Ok (E := DigitizerError) y).
  destruct (flag_tests f) as (-> & -> & -> & ->); [done|]. rewrite le_val_2.
  change (mkContact (f mod 16) _ _ _ _) with c. change (tip c || in_range c) with (is_active c).
  destruct (f <? 64) eqn:H64; b2p; [|split; [done|intros ((Hv & _) & _); cbn in Hv; lia]].
  destruct (RAW_X_MAX <? _) eqn:Hx; b2p; [split; [done|intros ((Hv & _) & _); cbn in Hv; lia]|].
  destruct (RAW_Y_MAX <? _) eqn:Hy; b2p; [split; [done|intros ((Hv & _) & _); cbn in Hv; lia]|].
  cbn [negb]. cbv zeta.
  assert (slot_valid [f; x0; x1; y]) as Hv by (cbn; lia).
  assert (0 <= cid c) as Hc by (cbn; apply Z.mod_pos_bound; lia).
  destruct (is_active c) eqn:Ha; cycle 1.
  { rewrite decide_False by done. rewrite (IH m ids found Hm). tauto. }
  rewrite decide_True by done. rewrite (mask_test m ids _ Hm Hc).
  case_bool_decide as Hin; cbn [negb].
  { split; [done|]. intros (_ & _ & HF & _). apply Forall_cons in HF as [? _]. done. }
  rewrite (IH _ _ (found ++ [c]) (mask_add _ _ _ Hm Hc)).
  rewrite fmap_cons, NoDup_cons, Forall_cons, <- app_assoc. cbn [app].
  set (rest := filter _ _).
  assert (Forall (fun d => cid d ∉ cid c :: ids) rest <->
          (cid c ∉ (cid <$> rest)) /\ Forall (fun d => cid d ∉ ids) rest) as ->.
  { rewrite !Forall_forall. split.
    - intros HF. split; [intros (d & Hd & Hdr)%list_elem_of_fmap | intros d Hdr Hd].
      + apply (HF d Hdr). rewrite <- Hd. by left.
      + apply (HF d Hdr). by right.
    - intros [Hn HF] d Hdr [Hd|Hd]%elem_of_cons; [|by eapply HF].
      apply Hn, list_elem_of_fmap. eauto. }
  tauto.
Qed.

(** A report is accepted exactly when it has 52 bytes, every one of its ten
    slots is valid and no two active slots name the same contact; it then holds
    the active contacts in slot order. The twelve vendor bytes do not matter. *)
Theorem parse_digitizer_payload_iff payload r :
  bytes_ok payload ->
  parse_digitizer_payload payload = Ok r <->
  exists slots vendor,
    payload = concat slots ++ vendor /\ length slots = 10%nat /\ length vendor = 12%nat /\
    Forall slot_valid slots /\ NoDup (cid <$> active_contacts slots) /\
    r = mkReport (active_contacts slots).
Proof.
  intros Hok. unfold parse_digitizer_payload, DIGITIZER_PAYLOAD_SIZE, CONTACT_BYTES,
    CONTACT_SLOT_COUNT, CONTACT_SLOT_SIZE. cbn [Nat.mul Nat.add]. split.
  - intros H. inv_ok H. b2p. pose proof (slice_length _ _ _ _ Hr) as Hl.
    apply (parse_slots_iff _ 0 []) in H as (Hv & Hnd & _ & ->); [| | |apply mask_is_nil].
    + exists (chunks 4 a), (drop 40 payload).
      unfold chunks. rewrite concat_chunks_k by (rewrite Hl; done).
      split_and!; try done; [|by rewrite length_chunks_k, Hl|lens].
      exact (drop_slice payload 0 40 a Hr).
    + apply chunks_lengths. lia.
    + apply chunks_bytes_ok. by eapply slice_bytes_ok.
  - intros (slots & vendor & -> & Hn & Hw & Hv & Hnd & ->).
    assert (Forall (fun c => length c = 4%nat) slots) as H4.
    { eapply Forall_impl; [done|]. intros [|? [|? [|? [|? [|]]]]]; done. }
    pose proof (length_concat_fixed 4 slots H4) as Hl. rewrite Hn in Hl.
    decide_if. rewrite slice_app_here by done. rewrite chunks_concat by (done || lia).
    apply (parse_slots_iff _ 0 []); [done| |apply mask_is_nil|].
    + apply bytes_ok_app in Hok as [Hok _]. clear - Hok. induction slots; cbn in *.
      { constructor. } apply bytes_ok_app in Hok as [? ?]. constructor; auto.
    + split_and!; try done. apply Forall_forall. intros ? _. apply not_elem_of_nil.
Qed.

Definition ex_payload : bytes :=
  [0x31; 0x10; 0x20; 5; 0x22; 1; 0; 127] ++ replicate 44 0.

Lemma parse_digitizer_payload_iff_witness :
  exists slots vendor, ex_payload = concat slots ++ vendor /\
    length slots = 10%nat /\ length vendor = 12%nat /\ Forall slot_valid slots /\
    NoDup (cid <$> active_contacts slots) /\
    mkReport [mkContact 1 0x2010 5 true true; mkContact 2 1 127 false true]
      = mkReport (active_contacts slots).
Proof.
  apply (parse_digitizer_payload_iff ex_payload).
  - repeat constructor; done.
  - reflexivity.
Defined.

Lemma parse_slots_no_panic slots m found :
  Forall (fun s => length s = 4%nat) slots -> no_panic (parse_slots slots m found).
Proof.
  intros Hs. revert m found. induction Hs as [|s slots Hl _ IH]; intros m found; cbn [parse_slots].
  - repeat no_panic_step.
  - repeat no_panic_step.
Qed.

Lemma parse_digitizer_no_panic payload : no_panic (parse_digitizer_payload payload).
Proof.
  unfold parse_digitizer_payload, DIGITIZER_PAYLOAD_SIZE, CONTACT_BYTES, CONTACT_SLOT_COUNT,
    CONTACT_SLOT_SIZE. cbn [Nat.mul Nat.add].
  destruct (negb _) eqn:H; [apply no_panic_Err|]. b2p. rewrite slice_ok by lens.
  apply parse_slots_no_panic, chunks_lengths. lia.
Qed.

(** ** Input state *)

Record InputFrame : Type := mkFrame {
  timestamp : Z;
  frame_fn_pressed : bool;
  frame_contacts : list DisplayContact;
}.

Record InputState : Type := mkInput {
  dimensions : DisplayDimensions;
  fn_pressed : bool;
  held : list DisplayContact;
}.

(** [InputState::new]. *)
Definition input_new (d : DisplayDimensions) (initial_fn_pressed : bool) : InputState :=
  mkInput d initial_fn_pressed [].

(** [InputState::frame]. *)
Definition frame (st : InputState) (t : Z) : InputFrame := mkFrame t (fn_pressed st) (held st).

(** [InputState::ingest_touch]. *)
Definition ingest_touch (st : InputState) (t : Z) (r : DigitizerReport) : InputFrame * InputState :=
  let st' := mkInput (dimensions st) (fn_pressed st) (scaled_contacts r (dimensions st)) in
  (frame st' t, st').

(** [InputState::set_fn_pressed]. *)
Definition set_fn_pressed (st : InputState) (t : Z) (b : bool) : option InputFrame * InputState :=
  if Bool.eqb (fn_pressed st) b then (None, st)
  else let st' := mkInput (dimensions st) b (held st) in (Some (frame st' t), st').

(** [InputState::touch_idle]. *)
Definition touch_idle (st : InputState) (t : Z) : option InputFrame * InputState :=
  match held st with
  | [] => (None, st)
  | _ => let st' := mkInput (dimensions st) (fn_pressed st) [] in (Some (frame st' t), st')
  end.

Inductive input_event : Type :=
| Touch (r : DigitizerReport)
| Fn (b : bool)
| TouchIdle.

Definition input_step (st : InputState) (t : Z) (e : input_event) : option InputFrame * InputState :=
  match e with
  | Touch r => let (f, st') := ingest_touch st t r in (Some f, st')
  | Fn b => set_fn_pressed st t b
  | TouchIdle => touch_idle st t
  end.

(** What a client that only sees the frames knows. *)
Definition observe (seen : bool * list DisplayContact) (f : option InputFrame)
    : bool * list DisplayContact :=
  match f with Some f => (frame_fn_pressed f, frame_contacts f) | None => seen end.

Fixpoint input_run (st : InputState) (seen : bool * list DisplayContact)
    (es : list (Z * input_event)) : InputState * (bool * list DisplayContact) :=
  match es with
  | [] => (st, seen)
  | (t, e) :: es =>
      let (f, st') := input_step st t e in input_run st' (observe seen f) es
  end.

(** No change goes unreported: after any sequence of reports, Fn changes
    and idle timeouts, the last frame a client saw (before the first, the
    initial Fn state without contacts) is the state of the service. *)
Theorem input_frames_complete d b es st seen :
  input_run (input_new d b) (b, []) es = (st, seen) -> seen = (fn_pressed st, held st).
Proof.
  assert (forall s, input_run s (fn_pressed s, held s) es = (st, seen) ->
            seen = (fn_pressed st, held st)) as H.
  { induction es as [|[t e] es IH]; intros s; cbn; [intros; by simplify_eq|].
    destruct (input_step s t e) as [f s'] eqn:Hs.
    assert (observe (fn_pressed s, held s) f = (fn_pressed s', held s')) as ->; [|by apply IH].
    destruct e as [r|b'|]; cbn in Hs; unfold set_fn_pressed, touch_idle in Hs; simplify_eq/=; [done| |].
    - destruct (Bool.eqb _ _); by simplify_eq/=.
    - destruct (held s) eqn:Hh; simplify_eq/=; by rewrite ?Hh. }
  apply (H (input_new d b)).
Qed.

Lemma input_frames_complete_witness :
  (true, []) = (fn_pressed (mkInput (mkDims 4 2) true []), held (mkInput (mkDims 4 2) true [])).
Proof.
  apply (input_frames_complete (mkDims 4 2) false
    [(1, Touch (mkReport [mkContact 1 5 6 true true])); (2, Fn true); (3, TouchIdle); (4, Fn true)]).
  reflexivity.
Defined.

End Digitizer.
