(* ===== verification/Wire.v ===== *)
(** * Touch Bar hardware messages ([crates/t1-touchbar-hw/src/wire.rs])

    The typed messages of the Touch Bar hardware IPC and their codecs: the
    requests of the display client and the responses and events of the
    hardware service, with the checks of direction, handshake phase, request
    identifiers, ancillary descriptors and payload fields. The client and
    service codecs are shown to be exact inverses on the valid messages. *)

From S2P Require Import Prelude Packet Digitizer FrameState.

Module Wire.

Import Digitizer(DisplayDimensions, mkDims, width, height).

Definition PROTOCOL_MINOR : Z := 1.
Definition MAX_BUFFERS : Z := 3.
Definition MAX_DAMAGE_RECTANGLES : Z := 64.
Definition MAX_CONTACTS : Z := 10.
Definition MAX_KEYS : nat := 4.

Inductive Direction : Type := ClientToService | ServiceToClient.
Inductive MessageClass : Type := Request | Response | Event.
Inductive AncillaryExpectation : Type := NoDescriptor | OneDescriptor.

#[export] Instance Direction_eq_dec : EqDecision Direction.
Proof. solve_decision. Defined.

Module MessageType.

Inductive t : Type :=
| Hello | RegisterBuffer | SubmitFrame | TapKeys | SetDisplayBrightness
| SetKeyboardBacklight | CancelTouchId | StepDisplayBrightness | StepKeyboardBacklight
| HelloAck | Ack | Error | FrameReleased | InputFrame.

(** [MessageType::wire_value]. *)
Definition wire_value (m : t) : Z :=
  match m with
  | Hello => 0x0001
  | RegisterBuffer => 0x0002
  | SubmitFrame => 0x0003
  | TapKeys => 0x0004
  | SetDisplayBrightness => 0x0005
  | SetKeyboardBacklight => 0x0006
  | CancelTouchId => 0x0007
  | StepDisplayBrightness => 0x0008
  | StepKeyboardBacklight => 0x0009
  | HelloAck => 0x8001
  | Ack => 0x8002
  | Error => 0x8003
  | FrameReleased => 0x9001
  | InputFrame => 0x9002
  end.

(** [MessageType::direction]. *)
Definition direction (m : t) : Direction :=
  match m with
  | Hello | RegisterBuffer | SubmitFrame | TapKeys | SetDisplayBrightness
  | SetKeyboardBacklight | CancelTouchId | StepDisplayBrightness | StepKeyboardBacklight =>
      ClientToService
  | HelloAck | Ack | Error | FrameReleased | InputFrame => ServiceToClient
  end.

(** [MessageType::class]. *)
Definition class (m : t) : MessageClass :=
  match m with
  | Hello | RegisterBuffer | SubmitFrame | TapKeys | SetDisplayBrightness
  | SetKeyboardBacklight | CancelTouchId | StepDisplayBrightness | StepKeyboardBacklight =>
      Request
  | HelloAck | Ack | Error => Response
  | FrameReleased | InputFrame => Event
  end.

(** [MessageType::ancillary_expectation]. *)
Definition ancillary_expectation (m : t) : AncillaryExpectation :=
  match m with RegisterBuffer => OneDescriptor | _ => NoDescriptor end.

(** [MessageType::from_wire]. *)
Definition from_wire (value : Z) : option t :=
  if value =? 0x0001 then Some Hello
  else if value =? 0x0002 then Some RegisterBuffer
  else if value =? 0x0003 then Some SubmitFrame
  else if value =? 0x0004 then Some TapKeys
  else if value =? 0x0005 then Some SetDisplayBrightness
  else if value =? 0x0006 then Some SetKeyboardBacklight
  else if value =? 0x0007 then Some CancelTouchId
  else if value =? 0x0008 then Some StepDisplayBrightness
  else if value =? 0x0009 then Some StepKeyboardBacklight
  else if value =? 0x8001 then Some HelloAck
  else if value =? 0x8002 then Some Ack
  else if value =? 0x8003 then Some Error
  else if value =? 0x9001 then Some FrameReleased
  else if value =? 0x9002 then Some InputFrame
  else None.

End MessageType.

Record AncillaryMetadata : Type := mkAncillary {
  rights_descriptor_count : Z;
  control_truncated : bool;
  has_other_control : bool;
}.

Module FeatureBits.
(** A [u64] of feature flags. *)
Definition t : Type := Z.
Definition SEALED_MEMFD_FRAMES : t := 0x01.
Definition INPUT_FRAMES : t := 0x02.
Definition TYPED_KEY_TAPS : t := 0x04.
Definition DISPLAY_BRIGHTNESS : t := 0x08.
Definition KEYBOARD_BACKLIGHT : t := 0x10.
Definition TOUCH_ID_CANCELLATION : t := 0x20.
Definition INITIAL_SERVICE : t := 0x07.
Definition ASSIGNED : t := 0x3f.

(** [FeatureBits::contains]. *)
Definition contains (self required : t) : bool := Z.land self required =? required.

(** [impl BitOr for FeatureBits]. *)
Definition bitor (self rhs : t) : t := Z.lor self rhs.
End FeatureBits.

Inductive PixelFormat : Type := Xrgb8888.

(** [PixelFormat::wire_value]. *)
Definition pixel_format_wire_value (f : PixelFormat) : Z := match f with Xrgb8888 => 1 end.

Module ErrorCode.
Inductive t : Type :=
| Unsupported | UnsupportedFeature | ResourceLimit | InvalidBuffer | UnknownBuffer
| BufferBusy | ActionDenied | DeviceUnavailable | IoFailure | InternalFailure.

(** [ErrorCode::wire_value]. *)
Definition wire_value (c : t) : Z :=
  match c with
  | Unsupported => 1 | UnsupportedFeature => 2 | ResourceLimit => 3 | InvalidBuffer => 4
  | UnknownBuffer => 5 | BufferBusy => 6 | ActionDenied => 7 | DeviceUnavailable => 8
  | IoFailure => 9 | InternalFailure => 10
  end.

(** [ErrorCode::from_wire]. *)
Definition from_wire (value : Z) : option t :=
  match value with
  | 1 => Some Unsupported | 2 => Some UnsupportedFeature | 3 => Some ResourceLimit
  | 4 => Some InvalidBuffer | 5 => Some UnknownBuffer | 6 => Some BufferBusy
  | 7 => Some ActionDenied | 8 => Some DeviceUnavailable | 9 => Some IoFailure
  | 10 => Some InternalFailure
  | _ => None
  end.
End ErrorCode.

Module KeyCode.
Inductive t : Type :=
| Escape | F1 | F2 | F3 | F4 | F5 | F6 | F7 | F8 | F9 | F10 | F11 | F12.

#[global] Instance KeyCode_eq_dec : EqDecision t.
Proof. solve_decision. Defined.

(** [KeyCode::wire_value]. *)
Definition wire_value (k : t) : Z :=
  match k with
  | Escape => 1 | F1 => 59 | F2 => 60 | F3 => 61 | F4 => 62 | F5 => 63 | F6 => 64
  | F7 => 65 | F8 => 66 | F9 => 67 | F10 => 68 | F11 => 87 | F12 => 88
  end.

(** [KeyCode::from_wire]. *)
Definition from_wire (value : Z) : option t :=
  match value with
  | 1 => Some Escape | 59 => Some F1 | 60 => Some F2 | 61 => Some F3 | 62 => Some F4
  | 63 => Some F5 | 64 => Some F6 | 65 => Some F7 | 66 => Some F8 | 67 => Some F9
  | 68 => Some F10 | 87 => Some F11 | 88 => Some F12
  | _ => None
  end.
End KeyCode.

Inductive WireError : Type :=
| PacketErr (e : Packet.PacketError)
| WrongDirection
| WrongState
| UnknownServiceMessage
| ZeroRequestId
| NonzeroEventRequestId
| WrongPayloadLength
| ReservedNonzero
| InvalidBoolean
| InvalidCount
| InvalidRange
| DuplicateKey
| DuplicateContact
| AncillaryTruncated
| UnexpectedAncillary
| DescriptorCountMismatch.

(** [Percentage::new]; a percentage is kept as its [u8] value. *)
Definition percentage_new (value : Z) : res WireError Z :=
  if 100 <? value then Err InvalidRange else Ok value.

Record Hello : Type := mkHello { hello_minor : Z; required_features : FeatureBits.t }.

Record HelloAck : Type := mkHelloAck {
  ack_minor : Z;
  ack_width : Z;
  ack_height : Z;
  pixel_format : PixelFormat;
  max_buffers : Z;
}.

Record RegisterBuffer : Type := mkRegister {
  reg_buffer_id : Z;
  stride : Z;
  byte_length : Z;
}.

Abbreviation DamageRectangle := FrameState.DamageRectangle.

Record SubmitFrame : Type := mkSubmit {
  sub_buffer_id : Z;
  sub_frame_id : Z;
  damage : list DamageRectangle;
}.

Record FrameReleased : Type := mkReleased { rel_buffer_id : Z; rel_frame_id : Z }.

Record InputContact : Type := mkInputContact {
  ic_id : Z;
  ic_tip : bool;
  ic_in_range : bool;
  ic_x : Z;
  ic_y : Z;
}.

Record WireInputFrame : Type := mkInputFrame {
  monotonic_ns : Z;
  wf_fn_pressed : bool;
  wf_contacts : list InputContact;
}.

Inductive StepDirection : Type := Down | Up.

(** [*direction as u8]. *)
Definition step_value (d : StepDirection) : Z := match d with Down => 0 | Up => 1 end.

Record UnknownRequest : Type := mkUnknown { unk_type : Z; unk_payload : bytes }.

Module ClientMessage.
Inductive t : Type :=
| Hello (h : Hello)
| RegisterBuffer (b : RegisterBuffer)
| SubmitFrame (f : SubmitFrame)
| TapKeys (keys : list KeyCode.t)
| SetDisplayBrightness (p : Z)
| SetKeyboardBacklight (p : Z)
| CancelTouchId
| StepDisplayBrightness (d : StepDirection)
| StepKeyboardBacklight (d : StepDirection)
| Unknown (u : UnknownRequest).

(** [ClientMessage::message_type]. *)
Definition message_type (m : t) : option MessageType.t :=
  match m with
  | Hello _ => Some MessageType.Hello
  | RegisterBuffer _ => Some MessageType.RegisterBuffer
  | SubmitFrame _ => Some MessageType.SubmitFrame
  | TapKeys _ => Some MessageType.TapKeys
  | SetDisplayBrightness _ => Some MessageType.SetDisplayBrightness
  | SetKeyboardBacklight _ => Some MessageType.SetKeyboardBacklight
  | CancelTouchId => Some MessageType.CancelTouchId
  | StepDisplayBrightness _ => Some MessageType.StepDisplayBrightness
  | StepKeyboardBacklight _ => Some MessageType.StepKeyboardBacklight
  | Unknown _ => None
  end.

(** [ClientMessage::ancillary_expectation]. *)
Definition ancillary_expectation (m : t) : AncillaryExpectation :=
  match message_type m with
  | Some message_type => MessageType.ancillary_expectation message_type
  | None => NoDescriptor
  end.
End ClientMessage.

Module ServiceMessage.
Inductive t : Type :=
| HelloAck (a : HelloAck)
| Ack
| Error (c : ErrorCode.t)
| FrameReleased (f : FrameReleased)
| InputFrame (f : WireInputFrame).

(** [ServiceMessage::message_type]. *)
Definition message_type (m : t) : MessageType.t :=
  match m with
  | HelloAck _ => MessageType.HelloAck
  | Ack => MessageType.Ack
  | Error _ => MessageType.Error
  | FrameReleased _ => MessageType.FrameReleased
  | InputFrame _ => MessageType.InputFrame
  end.

(** [ServiceMessage::ancillary_expectation]. *)
Definition ancillary_expectation (m : t) : AncillaryExpectation := NoDescriptor.
End ServiceMessage.

Record Envelope (Message : Type) : Type := mkEnvelope { request_id : Z; message : Message }.
Arguments mkEnvelope {Message} _ _.
Arguments request_id {Message} _.
Arguments message {Message} _.

(** ** Field checks *)

(** [require_length]. *)
Definition require_length (payload : bytes) (expected : Z) : res WireError () :=
  if negb (len payload =? expected) then Err WrongPayloadLength else Ok ().

(** [require_reserved]. *)
Definition require_reserved (l : bytes) : res WireError () :=
  if existsb (fun b => negb (b =? 0)) l then Err ReservedNonzero else Ok ().

(** [validate_nonzero], at the integer types. *)
Definition validate_nonzero (value : Z) : res WireError () :=
  if value =? 0 then Err InvalidRange else Ok ().

(** [decode_bool]. *)
Definition decode_bool (value : Z) : res WireError bool :=
  match value with
  | 0 => Ok false
  | 1 => Ok true
  | _ => Err InvalidBoolean
  end.

(** [validate_phase]. *)
Definition validate_phase (message_type : MessageType.t) (established : bool) : res WireError () :=
  let allowed :=
    match message_type with
    | MessageType.Hello | MessageType.HelloAck => negb established
    | MessageType.Error => true
    | _ => established
    end in
  if negb allowed then Err WrongState else Ok ().

(** [require_request_id]. *)
Definition require_request_id (request_id : Z) : res WireError () :=
  if request_id =? 0 then Err ZeroRequestId else Ok ().

(** [validate_identifier]. *)
Definition validate_identifier (class : MessageClass) (request_id : Z) : res WireError () :=
  match class with
  | Request | Response => require_request_id request_id
  | Event => if request_id =? 0 then Ok () else Err NonzeroEventRequestId
  end.

(** [validate_ancillary]. *)
Definition validate_ancillary (expectation : AncillaryExpectation) (a : AncillaryMetadata)
    : res WireError () :=
  if control_truncated a then Err AncillaryTruncated
  else if has_other_control a then Err UnexpectedAncillary
  else
    let expected := match expectation with NoDescriptor => 0 | OneDescriptor => 1 end in
    if negb (rights_descriptor_count a =? expected) then Err DescriptorCountMismatch else Ok ().

(** [read_u16], [read_u32], [read_u64]. *)
Definition read_u16 (l : bytes) (offset : nat) : res WireError Z := read_le l offset 2.
Definition read_u32 (l : bytes) (offset : nat) : res WireError Z := read_le l offset 4.
Definition read_u64 (l : bytes) (offset : nat) : res WireError Z := read_le l offset 8.

(** ** Payload decoders *)

(** [decode_hello]. *)
Definition decode_hello (payload : bytes) : res WireError Hello :=
  let! _ := require_length payload 12 in
  let! r := slice payload 2 4 in
  let! _ := require_reserved r in
  let! minor := read_u16 payload 0 in
  let! features := read_u64 payload 4 in
  Ok (mkHello minor features).

(** [validate_hello_ack]. *)
Definition validate_hello_ack (ack : HelloAck) : res WireError () :=
  if (PROTOCOL_MINOR <? ack_minor ack) || (ack_width ack =? 0) || (ack_height ack =? 0)
     || negb ((1 <=? max_buffers ack) && (max_buffers ack <=? MAX_BUFFERS))
  then Err InvalidRange else Ok ().

(** [decode_hello_ack]. *)
Definition decode_hello_ack (payload : bytes) : res WireError HelloAck :=
  let! _ := require_length payload 20 in
  let! r := slice payload 2 4 in
  let! _ := require_reserved r in
  let! f := read_u32 payload 12 in
  let! pixel_format := (if f =? 1 then Ok Xrgb8888 else Err InvalidRange) in
  let! minor := read_u16 payload 0 in
  let! width := read_u32 payload 4 in
  let! height := read_u32 payload 8 in
  let! max_buffers := read_u32 payload 16 in
  let ack := mkHelloAck minor width height pixel_format max_buffers in
  let! _ := validate_hello_ack ack in
  Ok ack.

(** [decode_step_direction]. *)
Definition decode_step_direction (payload : bytes) : res WireError StepDirection :=
  let! _ := require_length payload 1 in
  let! b := byte_at payload 0 in
  match b with
  | 0 => Ok Down
  | 1 => Ok Up
  | _ => Err InvalidRange
  end.

(** [decode_register_buffer]. *)
Definition decode_register_buffer (payload : bytes) : res WireError RegisterBuffer :=
  let! _ := require_length payload 16 in
  let! buffer_id := read_u32 payload 0 in
  let! stride := read_u32 payload 4 in
  let! byte_length := read_u64 payload 8 in
  let! _ := validate_nonzero buffer_id in
  if (stride =? 0) || (byte_length =? 0) then Err InvalidRange
  else Ok (mkRegister buffer_id stride byte_length).

(** [x.checked_add(w).is_none_or(|right| right > bound)], at [u32]. *)
Definition exceeds (x w bound : Z) : bool :=
  match checked_add 32 x w with None => true | Some r => bound <? r end.

(** [validate_damage]. *)
Definition validate_damage (damage : list DamageRectangle) (d : DisplayDimensions)
    : res WireError () :=
  if MAX_DAMAGE_RECTANGLES <? len damage then Err InvalidCount
  else if existsb (fun r =>
       (FrameState.rwidth r =? 0) || (FrameState.rheight r =? 0)
       || exceeds (FrameState.rx r) (FrameState.rwidth r) (width d)
       || exceeds (FrameState.ry r) (FrameState.rheight r) (height d)) damage
  then Err InvalidRange else Ok ().

(** The loop of [decode_submit_frame] over the rectangles. *)
Fixpoint decode_rectangles (chunks : list bytes) : res WireError (list DamageRectangle) :=
  match chunks with
  | [] => Ok []
  | rectangle :: chunks =>
      let! x := read_u32 rectangle 0 in
      let! y := read_u32 rectangle 4 in
      let! w := read_u32 rectangle 8 in
      let! h := read_u32 rectangle 12 in
      let! damage := decode_rectangles chunks in
      Ok (FrameState.mkRect x y w h :: damage)
  end.

(** [decode_submit_frame]. [usize] has 64 bits. *)
Definition decode_submit_frame (payload : bytes) (d : DisplayDimensions)
    : res WireError SubmitFrame :=
  if len payload <? 16 then Err WrongPayloadLength
  else
    let! buffer_id := read_u32 payload 0 in
    let! frame_id := read_u64 payload 4 in
    let! _ := validate_nonzero buffer_id in
    let! _ := validate_nonzero frame_id in
    let! n := read_u32 payload 12 in
    let! count := ok_or (try_from_u 64 n) InvalidCount in
    if MAX_DAMAGE_RECTANGLES <? count then Err InvalidCount
    else
      let! product := ok_or (checked_mul 64 count 16) InvalidCount in
      let! expected := ok_or (checked_add 64 16 product) InvalidCount in
      let! _ := require_length payload expected in
      let! tail := slice_from payload 16 in
      let! damage := decode_rectangles (chunks 16 tail) in
      let! _ := validate_damage damage d in
      Ok (mkSubmit buffer_id frame_id damage).

(** The loop of [decode_tap_keys] over the slots from [slot]. *)
Fixpoint decode_key_slots (payload : bytes) (count : Z) (slots : list nat) (keys : list KeyCode.t)
    : res WireError (list KeyCode.t) :=
  match slots with
  | [] => Ok keys
  | slot :: slots =>
      let! value := read_u16 payload (4 + slot * 2)%nat in
      if Z.of_nat slot <? count then
        let! key := ok_or (KeyCode.from_wire value) InvalidRange in
        if bool_decide (key ∈ keys) then Err DuplicateKey
        else decode_key_slots payload count slots (keys ++ [key])
      else if negb (value =? 0) then Err ReservedNonzero
      else decode_key_slots payload count slots keys
  end.

(** [decode_tap_keys]. *)
Definition decode_tap_keys (payload : bytes) : res WireError (list KeyCode.t) :=
  let! _ := require_length payload 12 in
  let! count := byte_at payload 0 in
  if negb ((1 <=? count) && (count <=? Z.of_nat MAX_KEYS)) then Err InvalidCount
  else
    let! r := slice payload 1 4 in
    let! _ := require_reserved r in
    decode_key_slots payload count (seq 0 MAX_KEYS) [].

(** [decode_percentage]. *)
Definition decode_percentage (payload : bytes) : res WireError Z :=
  let! _ := require_length payload 1 in
  let! b := byte_at payload 0 in
  percentage_new b.

(** [decode_error]. *)
Definition decode_error (payload : bytes) : res WireError ErrorCode.t :=
  let! _ := require_length payload 4 in
  let! v := read_u32 payload 0 in
  ok_or (ErrorCode.from_wire v) InvalidRange.

(** [decode_frame_released]. *)
Definition decode_frame_released (payload : bytes) : res WireError FrameReleased :=
  let! _ := require_length payload 12 in
  let! buffer_id := read_u32 payload 0 in
  let! frame_id := read_u64 payload 4 in
  let! _ := validate_nonzero buffer_id in
  let! _ := validate_nonzero frame_id in
  Ok (mkReleased buffer_id frame_id).

(** The loop of [validate_input_frame] over the contacts. *)
Fixpoint validate_contacts (contacts : list InputContact) (d : DisplayDimensions) (active_ids : Z)
    : res WireError () :=
  match contacts with
  | [] => Ok ()
  | c :: contacts =>
      if (15 <? ic_id c) || (width d <=? ic_x c) || (height d <=? ic_y c) then Err InvalidRange
      else if ic_tip c || ic_in_range c then
        let id := Z.shiftl 1 (ic_id c) in
        if negb (Z.land active_ids id =? 0) then Err DuplicateContact
        else validate_contacts contacts d (Z.lor active_ids id)
      else validate_contacts contacts d active_ids
  end.

(** [validate_input_frame]. *)
Definition validate_input_frame (f : WireInputFrame) (d : DisplayDimensions) : res WireError () :=
  if MAX_CONTACTS <? len (wf_contacts f) then Err InvalidCount
  else validate_contacts (wf_contacts f) d 0.

(** The loop of [decode_input_frame] over the contact chunks. *)
Fixpoint decode_contacts (chunks : list bytes) : res WireError (list InputContact) :=
  match chunks with
  | [] => Ok []
  | contact :: chunks =>
      let! r := slice contact 3 4 in
      let! _ := require_reserved r in
      let! id := byte_at contact 0 in
      let! t := byte_at contact 1 in
      let! tip := decode_bool t in
      let! i := byte_at contact 2 in
      let! in_range := decode_bool i in
      let! x := read_u32 contact 4 in
      let! y := read_u32 contact 8 in
      let! contacts := decode_contacts chunks in
      Ok (mkInputContact id tip in_range x y :: contacts)
  end.

(** [decode_input_frame]. *)
Definition decode_input_frame (payload : bytes) (d : DisplayDimensions)
    : res WireError WireInputFrame :=
  if len payload <? 12 then Err WrongPayloadLength
  else
    let! b := byte_at payload 8 in
    let! fn_pressed := decode_bool b in
    let! count := byte_at payload 9 in
    if MAX_CONTACTS <? count then Err InvalidCount
    else
      let! r := slice payload 10 12 in
      let! _ := require_reserved r in
      let! product := ok_or (checked_mul 64 count 12) InvalidCount in
      let! expected := ok_or (checked_add 64 12 product) InvalidCount in
      let! _ := require_length payload expected in
      let! tail := slice_from payload 12 in
      let! contacts := decode_contacts (chunks 12 tail) in
      let! monotonic_ns := read_u64 payload 0 in
      let frame := mkInputFrame monotonic_ns fn_pressed contacts in
      let! _ := validate_input_frame frame d in
      Ok frame.

(** ** Message decoders *)

Definition is_some {A} (o : option A) : bool := match o with Some _ => true | None => false end.

(** The [match message_type] of [decode_client]. *)
Definition decode_client_message (message_type : MessageType.t) (payload : bytes)
    (dimensions : option DisplayDimensions) : res WireError ClientMessage.t :=
  match message_type with
  | MessageType.Hello =>
      let! h := decode_hello payload in Ok (ClientMessage.Hello h)
  | MessageType.RegisterBuffer =>
      let! b := decode_register_buffer payload in Ok (ClientMessage.RegisterBuffer b)
  | MessageType.SubmitFrame =>
      let! d := ok_or dimensions WrongState in
      let! f := decode_submit_frame payload d in Ok (ClientMessage.SubmitFrame f)
  | MessageType.TapKeys =>
      let! k := decode_tap_keys payload in Ok (ClientMessage.TapKeys k)
  | MessageType.SetDisplayBrightness =>
      let! p := decode_percentage payload in Ok (ClientMessage.SetDisplayBrightness p)
  | MessageType.SetKeyboardBacklight =>
      let! p := decode_percentage payload in Ok (ClientMessage.SetKeyboardBacklight p)
  | MessageType.CancelTouchId =>
      let! _ := require_length payload 0 in Ok ClientMessage.CancelTouchId
  | MessageType.StepDisplayBrightness =>
      let! d := decode_step_direction payload in Ok (ClientMessage.StepDisplayBrightness d)
  | MessageType.StepKeyboardBacklight =>
      let! d := decode_step_direction payload in Ok (ClientMessage.StepKeyboardBacklight d)
  | _ => Err WrongDirection
  end.

(** [decode_client]. *)
Definition decode_client (bs : bytes) (ancillary : AncillaryMetadata)
    (dimensions : option DisplayDimensions) : res WireError (Envelope ClientMessage.t) :=
  let! packet := map_err PacketErr (Packet.decode bs) in
  let payload := Packet.payload packet in
  let! _ := require_request_id (Packet.request_id packet) in
  match MessageType.from_wire (Packet.message_type packet) with
  | None =>
      if negb (is_some dimensions) then Err WrongState
      else
        let! _ := validate_ancillary NoDescriptor ancillary in
        Ok (mkEnvelope (Packet.request_id packet)
              (ClientMessage.Unknown (mkUnknown (Packet.message_type packet) payload)))
  | Some message_type =>
      if negb (bool_decide (MessageType.direction message_type = ClientToService))
      then Err WrongDirection
      else
        let! _ := validate_phase message_type (is_some dimensions) in
        let! _ := validate_ancillary (MessageType.ancillary_expectation message_type) ancillary in
        let! message := decode_client_message message_type payload dimensions in
        Ok (mkEnvelope (Packet.request_id packet) message)
  end.

(** The [match message_type] of [decode_service]. *)
Definition decode_service_message (message_type : MessageType.t) (payload : bytes)
    (dimensions : option DisplayDimensions) : res WireError ServiceMessage.t :=
  match message_type with
  | MessageType.HelloAck =>
      let! a := decode_hello_ack payload in Ok (ServiceMessage.HelloAck a)
  | MessageType.Ack => let! _ := require_length payload 0 in Ok ServiceMessage.Ack
  | MessageType.Error => let! c := decode_error payload in Ok (ServiceMessage.Error c)
  | MessageType.FrameReleased =>
      let! f := decode_frame_released payload in Ok (ServiceMessage.FrameReleased f)
  | MessageType.InputFrame =>
      let! d := ok_or dimensions WrongState in
      let! f := decode_input_frame payload d in Ok (ServiceMessage.InputFrame f)
  | _ => Err WrongDirection
  end.

(** [decode_service]. *)
Definition decode_service (bs : bytes) (ancillary : AncillaryMetadata)
    (dimensions : option DisplayDimensions) : res WireError (Envelope ServiceMessage.t) :=
  let! packet := map_err PacketErr (Packet.decode bs) in
  let payload := Packet.payload packet in
  let! message_type :=
    ok_or (MessageType.from_wire (Packet.message_type packet)) UnknownServiceMessage in
  if negb (bool_decide (MessageType.direction message_type = ServiceToClient))
  then Err WrongDirection
  else
    let! _ := validate_phase message_type (is_some dimensions) in
    let! _ := validate_identifier (MessageType.class message_type) (Packet.request_id packet) in
    let! _ := validate_ancillary (MessageType.ancillary_expectation message_type) ancillary in
    let! message := decode_service_message message_type payload dimensions in
    Ok (mkEnvelope (Packet.request_id packet) message).

(** ** Encoders *)

(** The duplicate check of [encode_keys]: [keys[..index].contains(key)]. *)
Fixpoint check_keys (before keys : list KeyCode.t) : res WireError () :=
  match keys with
  | [] => Ok ()
  | key :: keys =>
      if bool_decide (key ∈ before) then Err DuplicateKey else check_keys (before ++ [key]) keys
  end.

(** [encode_keys]. *)
Definition encode_keys (keys : list KeyCode.t) : res WireError bytes :=
  if negb ((1 <=? len keys) && (len keys <=? Z.of_nat MAX_KEYS)) then Err InvalidCount
  else
    let! _ := check_keys [] keys in
    let! count := ok_or (try_from_u 8 (len keys)) InvalidCount in
    Ok ([count] ++ replicate 3 0 ++
        concat ((fun slot => le_bytes 2 (from_option KeyCode.wire_value 0 (keys !! slot)))
                  <$> seq 0 MAX_KEYS)).

(** The bytes one iteration of the rectangle loop appends. *)
Definition rectangle_bytes (r : DamageRectangle) : bytes :=
  le_bytes 4 (FrameState.rx r) ++ le_bytes 4 (FrameState.ry r) ++
  le_bytes 4 (FrameState.rwidth r) ++ le_bytes 4 (FrameState.rheight r).

(** The bytes one iteration of the contact loop appends. *)
Definition contact_bytes (c : InputContact) : bytes :=
  [ic_id c; Z.b2z (ic_tip c); Z.b2z (ic_in_range c); 0] ++
  le_bytes 4 (ic_x c) ++ le_bytes 4 (ic_y c).

(** The [match message] of [encode_client_payload]; its last arm is
    [unreachable!()]. *)
Definition encode_client_message (m : ClientMessage.t) (dimensions : option DisplayDimensions)
    : res WireError bytes :=
  match m with
  | ClientMessage.Hello h =>
      Ok (le_bytes 2 (hello_minor h) ++ le_bytes 2 0 ++ le_bytes 8 (required_features h))
  | ClientMessage.RegisterBuffer b =>
      let! _ := validate_nonzero (reg_buffer_id b) in
      if (stride b =? 0) || (byte_length b =? 0) then Err InvalidRange
      else Ok (le_bytes 4 (reg_buffer_id b) ++ le_bytes 4 (stride b) ++
               le_bytes 8 (byte_length b))
  | ClientMessage.SubmitFrame f =>
      let! display := ok_or dimensions WrongState in
      let! _ := validate_nonzero (sub_buffer_id f) in
      let! _ := validate_nonzero (sub_frame_id f) in
      let! _ := validate_damage (damage f) display in
      let! count := ok_or (try_from_u 32 (len (damage f))) InvalidCount in
      Ok (le_bytes 4 (sub_buffer_id f) ++ le_bytes 8 (sub_frame_id f) ++
          le_bytes 4 count ++ concat (rectangle_bytes <$> damage f))
  | ClientMessage.TapKeys keys => encode_keys keys
  | ClientMessage.SetDisplayBrightness p
  | ClientMessage.SetKeyboardBacklight p => Ok [p]
  | ClientMessage.CancelTouchId => Ok []
  | ClientMessage.StepDisplayBrightness d
  | ClientMessage.StepKeyboardBacklight d => Ok [step_value d]
  | ClientMessage.Unknown _ => Panic
  end.

(** [encode_client_payload]; a known message without a type is the [expect]. *)
Definition encode_client_payload (m : ClientMessage.t) (dimensions : option DisplayDimensions)
    : res WireError (Z * bytes) :=
  match m with
  | ClientMessage.Unknown unknown =>
      if negb (is_some dimensions) then Err WrongState
      else if is_some (MessageType.from_wire (unk_type unknown)) then Err WrongDirection
      else Ok (unk_type unknown, unk_payload unknown)
  | _ =>
      match ClientMessage.message_type m with
      | None => Panic
      | Some message_type =>
          let! _ := validate_phase message_type (is_some dimensions) in
          let! payload := encode_client_message m dimensions in
          Ok (MessageType.wire_value message_type, payload)
      end
  end.

(** [encode_service_payload]. *)
Definition encode_service_payload (m : ServiceMessage.t) (dimensions : option DisplayDimensions)
    : res WireError bytes :=
  match m with
  | ServiceMessage.HelloAck ack =>
      let! _ := validate_hello_ack ack in
      Ok (le_bytes 2 (ack_minor ack) ++ le_bytes 2 0 ++ le_bytes 4 (ack_width ack) ++
          le_bytes 4 (ack_height ack) ++
          le_bytes 4 (pixel_format_wire_value (pixel_format ack)) ++
          le_bytes 4 (max_buffers ack))
  | ServiceMessage.Ack => Ok []
  | ServiceMessage.Error e => Ok (le_bytes 4 (ErrorCode.wire_value e))
  | ServiceMessage.FrameReleased f =>
      let! _ := validate_nonzero (rel_buffer_id f) in
      let! _ := validate_nonzero (rel_frame_id f) in
      Ok (le_bytes 4 (rel_buffer_id f) ++ le_bytes 8 (rel_frame_id f))
  | ServiceMessage.InputFrame f =>
      let! display := ok_or dimensions WrongState in
      let! _ := validate_input_frame f display in
      let! count := ok_or (try_from_u 8 (len (wf_contacts f))) InvalidCount in
      Ok (le_bytes 8 (monotonic_ns f) ++ [Z.b2z (wf_fn_pressed f); count] ++ le_bytes 2 0 ++
          concat (contact_bytes <$> wf_contacts f))
  end.

(** [encode_client]. *)
Definition encode_client (e : Envelope ClientMessage.t) (dimensions : option DisplayDimensions)
    : res WireError bytes :=
  let! _ := require_request_id (request_id e) in
  let! (message_type, payload) := encode_client_payload (message e) dimensions in
  map_err PacketErr (Packet.encode (Packet.mkPacket message_type (request_id e) payload)).

(** [encode_service]. *)
Definition encode_service (e : Envelope ServiceMessage.t) (dimensions : option DisplayDimensions)
    : res WireError bytes :=
  let message_type := ServiceMessage.message_type (message e) in
  let! _ := validate_phase message_type (is_some dimensions) in
  let! _ := validate_identifier (MessageType.class message_type) (request_id e) in
  let! payload := encode_service_payload (message e) dimensions in
  map_err PacketErr
    (Packet.encode (Packet.mkPacket (MessageType.wire_value message_type) (request_id e) payload)).

(** ** Well-formed messages: every field is a value of its Rust type *)

Definition hello_wf (h : Hello) : Prop := is_u 16 (hello_minor h) /\ is_u 64 (required_features h).

Definition hello_ack_wf (a : HelloAck) : Prop :=
  is_u 16 (ack_minor a) /\ is_u 32 (ack_width a) /\ is_u 32 (ack_height a) /\
  is_u 32 (max_buffers a).

Definition register_wf (b : RegisterBuffer) : Prop :=
  is_u 32 (reg_buffer_id b) /\ is_u 32 (stride b) /\ is_u 64 (byte_length b).

Definition rect_wf (r : DamageRectangle) : Prop :=
  is_u 32 (FrameState.rx r) /\ is_u 32 (FrameState.ry r) /\
  is_u 32 (FrameState.rwidth r) /\ is_u 32 (FrameState.rheight r).

Definition submit_wf (f : SubmitFrame) : Prop :=
  is_u 32 (sub_buffer_id f) /\ is_u 64 (sub_frame_id f) /\ Forall rect_wf (damage f).

Definition released_wf (f : FrameReleased) : Prop :=
  is_u 32 (rel_buffer_id f) /\ is_u 64 (rel_frame_id f).

Definition contact_wf (c : InputContact) : Prop :=
  is_u 8 (ic_id c) /\ is_u 32 (ic_x c) /\ is_u 32 (ic_y c).

Definition input_frame_wf (f : WireInputFrame) : Prop :=
  is_u 64 (monotonic_ns f) /\ Forall contact_wf (wf_contacts f).

(** [Percentage] has a private field that only [Percentage::new] sets. *)
Definition percentage_wf (p : Z) : Prop := 0 <= p <= 100.

Definition client_wf (m : ClientMessage.t) : Prop :=
  match m with
  | ClientMessage.Hello h => hello_wf h
  | ClientMessage.RegisterBuffer b => register_wf b
  | ClientMessage.SubmitFrame f => submit_wf f
  | ClientMessage.SetDisplayBrightness p | ClientMessage.SetKeyboardBacklight p =>
      percentage_wf p
  | ClientMessage.Unknown u => is_u 16 (unk_type u) /\ bytes_ok (unk_payload u)
  | _ => True
  end.

Definition service_wf (m : ServiceMessage.t) : Prop :=
  match m with
  | ServiceMessage.HelloAck a => hello_ack_wf a
  | ServiceMessage.FrameReleased f => released_wf f
  | ServiceMessage.InputFrame f => input_frame_wf f
  | _ => True
  end.

(** ** The payload codecs *)

Lemma require_length_Ok payload n u :
  require_length payload n = Ok u <-> len payload = n.
Proof. unfold require_length. destruct u, (_ =? _) eqn:H; cbn; b2p; done. Qed.

Lemma require_length_0 payload u : require_length payload 0 = Ok u <-> payload = [].
Proof. rewrite require_length_Ok. destruct payload; cbn; split; done || lia. Qed.

Lemma require_reserved_Ok l u : require_reserved l = Ok u <-> l = replicate (length l) 0.
Proof.
  unfold require_reserved. destruct u. induction l as [|b l IH]; [done|]. cbn.
  destruct (b =? 0) eqn:Hb; b2p; cbn; [subst; rewrite IH|]; split; intros; congruence.
Qed.

Lemma validate_nonzero_Ok v u : validate_nonzero v = Ok u <-> v <> 0.
Proof. unfold validate_nonzero. destruct u, (_ =? _) eqn:H; b2p; done. Qed.

Lemma decode_bool_Ok v b : decode_bool v = Ok b <-> v = Z.b2z b.
Proof.
  unfold decode_bool. destruct v as [|p|p]; [| |by destruct b].
  - destruct b; cbn; split; intros; congruence.
  - destruct p, b; cbn; split; intros; congruence.
Qed.

Lemma ErrorCode_from_wire v c : ErrorCode.from_wire v = Some c <-> v = ErrorCode.wire_value c.
Proof.
  split; [|by intros ->; destruct c].
  unfold ErrorCode.from_wire. intros H. repeat case_match; simplify_eq; done.
Qed.

Lemma KeyCode_from_wire v c : KeyCode.from_wire v = Some c <-> v = KeyCode.wire_value c.
Proof.
  split; [|by intros ->; destruct c].
  unfold KeyCode.from_wire. intros H. repeat case_match; simplify_eq; done.
Qed.

Lemma MessageType_from_wire v m :
  MessageType.from_wire v = Some m <-> v = MessageType.wire_value m.
Proof.
  split; [|by intros ->; destruct m].
  unfold MessageType.from_wire. intros H. repeat case_match; b2p; simplify_eq; done.
Qed.

(** A reserved range that passed its check holds zeros. *)
Lemma reserved_slice p (a b : nat) s u :
  slice (E := WireError) p a b = Ok s -> require_reserved s = Ok u ->
  slice (E := WireError) p a b = Ok (replicate (b - a) 0).
Proof.
  intros Hs Hr%require_reserved_Ok. rewrite (slice_length _ _ _ _ Hs) in Hr. by rewrite <- Hr.
Qed.

(** Reads the checks of a successful decoder. *)
Ltac checks :=
  repeat match goal with
  | H : require_length _ _ = Ok _ |- _ => apply require_length_Ok in H
  | Hs : slice _ _ _ = Ok ?s, H : require_reserved ?s = Ok _ |- _ =>
      apply (reserved_slice _ _ _ _ _ Hs) in H; clear Hs; cbn [Nat.sub replicate] in H
  | H : validate_nonzero _ = Ok _ |- _ => apply validate_nonzero_Ok in H
  | H : decode_bool _ = Ok _ |- _ => apply decode_bool_Ok in H
  | H : ok_or _ _ = Ok _ |- _ => unfold ok_or in H; case_match; simplify_eq H; intros; subst
  | u : () |- _ => destruct u
  end; b2p.

(** Evaluates a decoder on a payload whose fields are in range. *)
Ltac pass :=
  repeat first
    [ progress fields
    | rewrite slice_app_here by apply length_le_bytes
    | rewrite (proj2 (require_length_Ok _ _ ())) by lens
    | rewrite (proj2 (require_reserved_Ok (le_bytes 2 0) ())) by done
    | rewrite (proj2 (validate_nonzero_Ok _ ())) by done ].

Lemma decode_hello_iff p h :
  bytes_ok p ->
  decode_hello p = Ok h <->
  hello_wf h /\ p = le_bytes 2 (hello_minor h) ++ le_bytes 2 0 ++ le_bytes 8 (required_features h).
Proof.
  intros Hp. unfold decode_hello, read_u16, read_u64, hello_wf. split.
  - intros H. inv_ok H. checks. read_bounds. cbn.
    split; [split; u_range|]. by unread p.
  - intros ([? ?] & ->). pass. by destruct h.
Qed.

Lemma decode_register_iff p b :
  bytes_ok p ->
  decode_register_buffer p = Ok b <->
  register_wf b /\ reg_buffer_id b <> 0 /\ stride b <> 0 /\ byte_length b <> 0 /\
  p = le_bytes 4 (reg_buffer_id b) ++ le_bytes 4 (stride b) ++ le_bytes 8 (byte_length b).
Proof.
  intros Hp. unfold decode_register_buffer, read_u32, read_u64, register_wf. split.
  - intros H. inv_ok H. checks. read_bounds. cbn.
    split_and!; try u_range. by unread p.
  - intros ((? & ? & ?) & ? & ? & ? & ->). pass.
    decide_if. by destruct b.
Qed.

Lemma decode_released_iff p f :
  bytes_ok p ->
  decode_frame_released p = Ok f <->
  released_wf f /\ rel_buffer_id f <> 0 /\ rel_frame_id f <> 0 /\
  p = le_bytes 4 (rel_buffer_id f) ++ le_bytes 8 (rel_frame_id f).
Proof.
  intros Hp. unfold decode_frame_released, read_u32, read_u64, released_wf. split.
  - intros H. inv_ok H. checks. read_bounds. cbn.
    split_and!; try u_range. by unread p.
  - intros ((? & ?) & ? & ? & ->). pass. by destruct f.
Qed.

Lemma decode_hello_ack_iff p a :
  bytes_ok p ->
  decode_hello_ack p = Ok a <->
  hello_ack_wf a /\ validate_hello_ack a = Ok () /\
  p = le_bytes 2 (ack_minor a) ++ le_bytes 2 0 ++ le_bytes 4 (ack_width a) ++
      le_bytes 4 (ack_height a) ++ le_bytes 4 (pixel_format_wire_value (pixel_format a)) ++
      le_bytes 4 (max_buffers a).
Proof.
  intros Hp. unfold decode_hello_ack, read_u16, read_u32, hello_ack_wf. split.
  - intros H. inv_ok H. checks. subst. read_bounds. cbn.
    split_and!; try u_range. inv_ok Hr3. b2p. subst. by unread p.
  - intros ((? & ? & ? & ?) & Hv & ->). destruct a as [m w h [] n]; cbn in *. pass. cbn.
    pass. by rewrite Hv.
Qed.

Lemma length_1 (l : bytes) : len l = 1 <-> exists b, l = [b].
Proof.
  split; [|by intros [? ->]]. destruct l as [|b [|c l]]; cbn; [lia|eauto|lia].
Qed.

Lemma decode_percentage_iff p v :
  bytes_ok p -> decode_percentage p = Ok v <-> percentage_wf v /\ p = [v].
Proof.
  intros Hp. unfold decode_percentage, percentage_new, percentage_wf. split.
  - intros H. inv_ok H. checks. read_bounds. unfold is_u in *.
    apply length_1 in Hr as [b ->]. rewrite byte_at_0 in Hr0. simplify_eq. split; [lia|done].
  - intros [? ->]. pass. by decide_if.
Qed.

Lemma decode_step_iff p d : decode_step_direction p = Ok d <-> p = [step_value d].
Proof.
  unfold decode_step_direction. split; [|by intros ->; destruct d].
  intros H. inv_ok H. checks. apply length_1 in Hr as [b ->].
  rewrite byte_at_0 in Hr0. simplify_eq. repeat case_match; by simplify_eq.
Qed.

Lemma decode_error_iff p c :
  bytes_ok p -> decode_error p = Ok c <-> p = le_bytes 4 (ErrorCode.wire_value c).
Proof.
  intros Hp. unfold decode_error, read_u32. split.
  - intros H. inv_ok H. checks. apply ErrorCode_from_wire in H0. subst. by unread p.
  - intros ->. pass. rewrite read_le_last by (destruct c; u_range).
    by rewrite (proj2 (ErrorCode_from_wire _ _) eq_refl).
Qed.

Lemma length_rectangle_bytes r : length (rectangle_bytes r) = 16%nat.
Proof. unfold rectangle_bytes. lens. Qed.

Lemma length_contact_bytes c : length (contact_bytes c) = 12%nat.
Proof. unfold contact_bytes. lens. Qed.

Lemma decode_rectangles_iff cs rs :
  Forall (fun c => length c = 16%nat) cs -> Forall bytes_ok cs ->
  decode_rectangles cs = Ok rs <-> Forall rect_wf rs /\ cs = rectangle_bytes <$> rs.
Proof.
  intros Hl. revert rs. induction Hl as [|c cs Hc _ IH]; intros rs Hb.
  { cbn. split; [intros; by simplify_eq|]. intros [_ Hrs]. by destruct rs. }
  apply Forall_cons in Hb as [Hbc Hb]. cbn [decode_rectangles]. unfold read_u32. split.
  - intros H. inv_ok H. read_bounds. destruct (proj1 (IH _ Hb) eq_refl) as [? ->]. split.
    + constructor; [|done]. unfold rect_wf; cbn. split_and!; u_range.
    + cbn. f_equal. unfold rectangle_bytes; cbn. by unread c.
  - intros [Hrs Hcs]. destruct rs as [|r rs]; [done|].
    rewrite fmap_cons in Hcs. injection Hcs as -> ->.
    apply Forall_cons in Hrs as [(? & ? & ? & ?) Hrs]. unfold rectangle_bytes at 1 2 3 4.
    fields. rewrite (proj2 (IH rs Hb)) by done. by destruct r.
Qed.

Lemma decode_contacts_iff cs ks :
  Forall (fun c => length c = 12%nat) cs -> Forall bytes_ok cs ->
  decode_contacts cs = Ok ks <-> Forall contact_wf ks /\ cs = contact_bytes <$> ks.
Proof.
  intros Hl. revert ks. induction Hl as [|c cs Hc _ IH]; intros ks Hb.
  { cbn. split; [intros; by simplify_eq|]. intros [_ Hks]. by destruct ks. }
  apply Forall_cons in Hb as [Hbc Hb]. cbn [decode_contacts]. unfold read_u32. split.
  - intros H. inv_ok H. checks. read_bounds. destruct (proj1 (IH _ Hb) eq_refl) as [? ->]. split.
    + constructor; [|done]. unfold contact_wf; cbn. split_and!; u_range.
    + cbn. f_equal. unfold contact_bytes; cbn. subst. by unread c.
  - intros [Hks Hcs]. destruct ks as [|k ks]; [done|].
    rewrite fmap_cons in Hcs. injection Hcs as -> ->.
    apply Forall_cons in Hks as [(? & ? & ?) Hks]. unfold contact_bytes at 1 2 3 4 5 6. cbn [app].
    fields. change (slice (0 :: _) 0 1) with (Ok (E := WireError) [0]). cbn.
    rewrite !(proj2 (decode_bool_Ok _ _) eq_refl).
    rewrite (proj2 (IH ks Hb)) by done. fields. by destruct k.
Qed.

(** Decoding a payload tail chunk by chunk inverts the concatenation of the
    elements' encodings. *)
Section ChunkDecoder.
Context {A : Type} (n : nat) (enc : A -> bytes) (wf : A -> Prop)
  (dec : list bytes -> res WireError (list A)).
Hypothesis n_pos : (0 < n)%nat.
Hypothesis enc_length : forall x, length (enc x) = n.
Hypothesis dec_iff : forall cs xs,
  Forall (fun c => length c = n) cs -> Forall bytes_ok cs ->
  dec cs = Ok xs <-> Forall wf xs /\ cs = enc <$> xs.

Lemma enc_lengths xs : Forall (fun c => length c = n) (enc <$> xs).
Proof. apply Forall_fmap, Forall_true. done. Qed.

Lemma length_concat_enc xs : length (concat (enc <$> xs)) = (length xs * n)%nat.
Proof. by rewrite (length_concat_fixed n), length_fmap by apply enc_lengths. Qed.

Lemma chunk_decode_iff (k : nat) tail xs :
  bytes_ok tail -> length tail = (k * n)%nat ->
  dec (chunks n tail) = Ok xs <->
  Forall wf xs /\ length xs = k /\ tail = concat (enc <$> xs).
Proof.
  intros Hb Hk. rewrite dec_iff; [|by apply chunks_lengths|by apply chunks_bytes_ok].
  split; intros [Hx Hc]; split; try done.
  - assert (tail = concat (enc <$> xs)) as Ht.
    { rewrite <- Hc. unfold chunks. rewrite concat_chunks_k; [done|].
      by rewrite Hk, Nat.div_mul by lia. }
    split; [|done]. apply (f_equal length) in Ht. rewrite length_concat_enc, Hk in Ht. nia.
  - destruct Hc as [_ ->]. apply chunks_concat; [done|apply enc_lengths].
Qed.
End ChunkDecoder.

Definition rectangles_tail := chunk_decode_iff 16 rectangle_bytes rect_wf decode_rectangles
  ltac:(lia) length_rectangle_bytes decode_rectangles_iff.
Definition contacts_tail := chunk_decode_iff 12 contact_bytes contact_wf decode_contacts
  ltac:(lia) length_contact_bytes decode_contacts_iff.

Lemma decode_submit_iff p f d :
  bytes_ok p ->
  decode_submit_frame p d = Ok f <->
  submit_wf f /\ sub_buffer_id f <> 0 /\ sub_frame_id f <> 0 /\
  validate_damage (damage f) d = Ok () /\
  p = le_bytes 4 (sub_buffer_id f) ++ le_bytes 8 (sub_frame_id f) ++
      le_bytes 4 (len (damage f)) ++ concat (rectangle_bytes <$> damage f).
Proof.
  intros Hp. unfold decode_submit_frame, read_u32, read_u64, submit_wf. split.
  - intros H. inv_ok H. checks. read_bounds.
    apply try_from_u_Some in H1 as [? ->]. apply checked_mul_Some in H0 as [-> ?].
    apply checked_add_Some in H as [Hl ?]. cbn.
    pose proof (drop_slice_from _ _ _ Hr8) as Hd. pose proof (f_equal length Hd) as Hdl.
    rewrite length_drop in Hdl.
    apply (rectangles_tail (Z.to_nat a3)) in Hr9 as (? & Hk & Ht); [|subst; auto with t1|u_range].
    split_and!; try done; try u_range. rewrite Hk, Z2Nat.id by u_range.
    rewrite <- Ht. by unread p.
  - intros ((? & ? & ?) & ? & ? & Hv & Hpp). destruct f as [b i rs]; cbn in *.
    assert (len rs <= 64) as Hrs.
    { unfold validate_damage, MAX_DAMAGE_RECTANGLES in Hv. inv_ok Hv. b2p. done. }
    assert (bytes_ok (concat (rectangle_bytes <$> rs))) as Hc.
    { subst p. by repeat apply bytes_ok_app in Hp as [_ Hp]. }
    pose proof (length_concat_enc 16 rectangle_bytes length_rectangle_bytes rs) as Hl.
    assert (len p = 16 + 16 * len rs) as Hlp by (subst p; lens).
    decide_if. subst p. pass. rewrite try_from_ok by u_range.
    unfold MAX_DAMAGE_RECTANGLES. decide_if.
    rewrite checked_mul_ok, checked_add_ok by u_range. pass.
    rewrite (proj2 (rectangles_tail (length rs) _ rs Hc Hl)) by done. by rewrite Hv.
Qed.

Lemma decode_input_iff p f d :
  bytes_ok p ->
  decode_input_frame p d = Ok f <->
  input_frame_wf f /\ validate_input_frame f d = Ok () /\
  p = le_bytes 8 (monotonic_ns f) ++ [Z.b2z (wf_fn_pressed f); len (wf_contacts f)] ++
      le_bytes 2 0 ++ concat (contact_bytes <$> wf_contacts f).
Proof.
  intros Hp. unfold decode_input_frame, read_u32, read_u64, input_frame_wf. split.
  - intros H. inv_ok H. checks. read_bounds.
    apply checked_mul_Some in H0 as [-> ?]. apply checked_add_Some in H as [Hl ?]. cbn.
    pose proof (drop_slice_from _ _ _ Hr7) as Hd. pose proof (f_equal length Hd) as Hdl.
    rewrite length_drop in Hdl.
    apply (contacts_tail (Z.to_nat a1)) in Hr8 as (? & Hk & Ht); [|subst; auto with t1|u_range].
    split_and!; try done; try u_range. rewrite Hk, Z2Nat.id by u_range.
    rewrite <- Ht. subst. by unread p.
  - intros ((? & ?) & Hv & Hpp). destruct f as [t b cs]; cbn [monotonic_ns wf_fn_pressed wf_contacts] in *.
    assert (len cs <= 10) as Hcs.
    { unfold validate_input_frame, MAX_CONTACTS in Hv. cbn in Hv. inv_ok Hv. b2p. done. }
    assert (bytes_ok (concat (contact_bytes <$> cs))) as Hc.
    { subst p. by repeat apply bytes_ok_app in Hp as [_ Hp]. }
    pose proof (length_concat_enc 12 contact_bytes length_contact_bytes cs) as Hl.
    assert (len p = 12 + 12 * len cs) as Hlp by (subst p; lens).
    decide_if. subst p. pass. cbn [app]. pass. rewrite (proj2 (decode_bool_Ok _ _) eq_refl).
    unfold MAX_CONTACTS. decide_if.
    rewrite checked_mul_ok, checked_add_ok by u_range. pass.
    rewrite (proj2 (contacts_tail (length cs) _ cs Hc Hl)) by done. by rewrite Hv.
Qed.

Lemma check_keys_Ok before ks u :
  check_keys before ks = Ok u <-> NoDup ks /\ Forall (fun k => k ∉ before) ks.
Proof.
  destruct u. revert before. induction ks as [|k ks IH]; intros before; cbn.
  { split; [|done]. by repeat constructor. }
  rewrite NoDup_cons, Forall_cons. case_bool_decide; [split; [done|tauto]|].
  rewrite IH, !Forall_forall. setoid_rewrite elem_of_app. setoid_rewrite list_elem_of_singleton.
  split.
  - intros [? Hk]. split_and!; try done.
    + intros Hx. apply (Hk k Hx). by right.
    + intros x Hx Hb. apply (Hk x Hx). by left.
  - intros ([? ?] & _ & Hk). split; [done|]. intros x Hx [?| ->]; [by eapply Hk|done].
Qed.

Lemma encode_keys_Ok ks bs :
  encode_keys ks = Ok bs <->
  1 <= len ks <= 4 /\ NoDup ks /\
  bs = [len ks; 0; 0; 0] ++
       concat ((fun slot => le_bytes 2 (from_option KeyCode.wire_value 0 (ks !! slot)))
                  <$> seq 0 MAX_KEYS).
Proof.
  unfold encode_keys. change (Z.of_nat MAX_KEYS) with 4.
  destruct (_ && _) eqn:Hl; b2p; cbn [negb]; [|split; [done|lia]]. split.
  - intros Hk. inv_ok Hk. apply check_keys_Ok in Hr as [? _].
    apply ok_or_Some, try_from_u_Some in Hr0 as [_ ->]. done.
  - intros (_ & ? & ->). rewrite (proj2 (check_keys_Ok [] ks ())).
    + rewrite try_from_ok by u_range. done.
    + split; [done|]. apply Forall_forall. set_solver.
Qed.

Lemma wire_value_u16 k : is_u 16 (KeyCode.wire_value k).
Proof. destruct k; u_range. Qed.

(** The slot loop, on a payload whose slot [i] holds [v i]. *)
Lemma decode_key_slots_iff p (v : nat -> Z) (count m s : nat) keys ks :
  (forall i, (s <= i < s + m)%nat -> read_u16 p (4 + i * 2) = Ok (v i)) ->
  decode_key_slots p (Z.of_nat count) (seq s m) keys = Ok ks <->
  exists new, ks = keys ++ new /\ length new = (m `min` (count - s))%nat /\
    NoDup new /\ Forall (fun k => k ∉ keys) new /\
    forall i, (i < m)%nat -> v (s + i)%nat = from_option KeyCode.wire_value 0 (new !! i).
Proof.
  revert s keys. induction m as [|m IH]; intros s keys Hv; cbn [seq decode_key_slots].
  { split.
    - intros. simplify_eq. exists []. rewrite app_nil_r. split_and!; try done; [constructor|lia].
    - intros ([|] & -> & ? & _); [by rewrite app_nil_r|done]. }
  rewrite Hv by lia. specialize (fun keys => IH (S s) keys ltac:(intros; apply Hv; lia)).
  destruct (_ <? _) eqn:Hs; b2p.
  - split.
    + intros H. inv_ok H. b2p. apply ok_or_Some, KeyCode_from_wire in Hr.
      apply IH in H as (new & -> & Hl & Hnd & Hd & Hi). exists (a :: new).
      rewrite <- app_assoc, NoDup_cons, Forall_cons. rewrite Forall_forall in Hd.
      split_and!; try done; [lens| | |].
      * intros Ha. apply (Hd a Ha). set_solver.
      * apply Forall_forall. set_solver.
      * intros [|i] Hi'; [by rewrite Nat.add_0_r|]. cbn. rewrite <- Hi by lia. f_equal. lia.
    + intros ([|k new] & -> & Hl & Hnd & Hd & Hi); [rewrite length_nil in Hl; lia|].
      apply NoDup_cons in Hnd as [? ?]. apply Forall_cons in Hd as [? Hd].
      pose proof (Hi 0%nat ltac:(lia)) as Hk0. rewrite Nat.add_0_r in Hk0. cbn in Hk0.
      rewrite (proj2 (ok_or_Some _ _ _) (proj2 (KeyCode_from_wire _ _) Hk0)).
      rewrite bool_decide_eq_false_2 by done. apply IH. exists new. rewrite <- app_assoc.
      split_and!; try done; [lens| |].
      * rewrite Forall_forall in Hd |- *. set_solver.
      * intros i Hi'. specialize (Hi (S i) ltac:(lia)). by rewrite <- plus_n_Sm in Hi.
  - assert (forall new : list KeyCode.t, length new = 0%nat <-> new = []) as Hnil
      by (intros []; cbn; split; intros; done || lia).
    replace (_ `min` _)%nat with 0%nat by lia. setoid_rewrite Hnil.
    destruct (v s =? 0) eqn:Hz; b2p; cbn [negb].
    + rewrite IH. replace (_ `min` _)%nat with 0%nat by lia. setoid_rewrite Hnil.
      split; intros (new & -> & -> & ? & ? & Hi); exists []; split_and!; try done; intros i Hi'.
      * destruct i; [by rewrite Nat.add_0_r|]. rewrite <- plus_n_Sm. apply (Hi i). lia.
      * specialize (Hi (S i) ltac:(lia)). by rewrite <- plus_n_Sm in Hi.
    + split; [done|]. intros (new & -> & -> & _ & _ & Hi).
      specialize (Hi 0%nat ltac:(lia)). rewrite Nat.add_0_r in Hi. done.
Qed.

Lemma from_option_u16 (o : option KeyCode.t) : is_u 16 (from_option KeyCode.wire_value 0 o).
Proof. destruct o as [[]|]; u_range. Qed.

Lemma decode_tap_keys_iff p ks :
  bytes_ok p -> decode_tap_keys p = Ok ks <-> encode_keys ks = Ok p.
Proof.
  intros Hp. rewrite encode_keys_Ok. unfold decode_tap_keys.
  change (Z.of_nat MAX_KEYS) with 4. change MAX_KEYS with 4%nat. split.
  - intros H. inv_ok H. checks. read_bounds.
    set (v i := le_val (take 2 (drop (4 + i * 2) p))).
    assert (forall i, (0 <= i < 0 + 4)%nat -> read_u16 p (4 + i * 2) = Ok (v i)) as Hv.
    { intros i Hi. apply read_le_ok. lia. }
    rewrite <- (Z2Nat.id a0) in H by lia.
    apply (decode_key_slots_iff _ _ _ _ _ _ _ Hv) in H as (new & -> & Hl & Hnd & _ & Hi).
    cbn [app]. rewrite Nat.sub_0_r in Hl. split_and!; try done; try lia.
    replace (len new) with a0 by lia. cbn. rewrite <- !Hi by lia.
    pose proof (Hv 0%nat ltac:(lia)). pose proof (Hv 1%nat ltac:(lia)).
    pose proof (Hv 2%nat ltac:(lia)). pose proof (Hv 3%nat ltac:(lia)).
    cbn [Nat.add Nat.mul] in *. unfold read_u16 in *. by unread p.
  - intros (Hl & Hnd & ->). set (w i := from_option KeyCode.wire_value 0 (ks !! i)).
    assert (forall i, is_u 16 (w i)) as Hw by (intros; apply from_option_u16).
    pose proof (Hw 0%nat). pose proof (Hw 1%nat). pose proof (Hw 2%nat). pose proof (Hw 3%nat).
    change (concat _) with (le_bytes 2 (w 0%nat) ++ le_bytes 2 (w 1%nat) ++
      le_bytes 2 (w 2%nat) ++ le_bytes 2 (w 3%nat) ++ []). rewrite app_nil_r. cbn [app].
    pass. decide_if. change (slice (0 :: 0 :: 0 :: _) 0 3) with (Ok (E := WireError) [0; 0; 0]).
    cbn [require_reserved existsb Z.eqb negb orb].
    apply (decode_key_slots_iff _ w).
    + intros i Hi. unfold read_u16. destruct i as [|[|[|[|]]]]; [..|lia]; cbn [Nat.add Nat.mul]; by fields.
    + exists ks. split_and!; try done; [lia|apply Forall_forall; set_solver].
Qed.

(** A tap of one to four distinct keys fills one count byte, three reserved
    bytes and four slots. *)
Lemma encode_keys_bytes_ok ks bs : encode_keys ks = Ok bs -> bytes_ok bs.
Proof.
  intros (Hl & _ & ->)%encode_keys_Ok. apply bytes_ok_app. split; [repeat constructor; u_range|].
  apply concat_bytes_ok. auto with t1.
Qed.

(** ** Messages *)

Lemma decode_client_message_type mt payload dims m :
  decode_client_message mt payload dims = Ok m -> ClientMessage.message_type m = Some mt.
Proof. intros H. destruct mt; cbn in H; inv_ok H; done. Qed.

Lemma let_Ok_iff {E A B} (r : res E A) (f : A -> B) (b : B) :
  (let! a := r in Ok (f a)) = Ok b <-> exists a, r = Ok a /\ b = f a.
Proof. destruct r; cbn; split; [|intros (? & ? & ?)| |intros (? & ? & ?)| |intros (? & ? & ?)]; naive_solver. Qed.

Lemma decode_client_message_iff mt payload dims m :
  bytes_ok payload -> ClientMessage.message_type m = Some mt ->
  decode_client_message mt payload dims = Ok m <->
  client_wf m /\ encode_client_message m dims = Ok payload.
Proof.
  intros Hp Hm. unfold decode_client_message, encode_client_message.
  destruct m as [h|b|f|ks|v|v| |d|d|u]; inversion Hm; subst mt; clear Hm; cbn [client_wf].
  - rewrite let_Ok_iff. setoid_rewrite decode_hello_iff; [|done]. naive_solver.
  - rewrite let_Ok_iff. setoid_rewrite decode_register_iff; [|done]. split.
    + intros (? & (? & ? & ? & ? & ->) & ?). simplify_eq. split; [done|]. pass. by decide_if.
    + intros (? & H'). inv_ok H'. checks. eauto 10.
  - destruct dims as [d|]; cbn [ok_or]; [|split; [done|by intros []]].
    rewrite let_Ok_iff. setoid_rewrite decode_submit_iff; [|done]. split.
    + intros (f' & (? & ? & ? & Hv & ->) & ?). simplify_eq. split; [done|]. pass. rewrite Hv.
      rewrite try_from_ok; [done|]. unfold validate_damage, MAX_DAMAGE_RECTANGLES in Hv.
      inv_ok Hv. b2p. u_range.
    + intros (? & H'). inv_ok H'. apply ok_or_Some, try_from_u_Some in Hr2 as [_ ->]. checks. eauto 10.
  - rewrite let_Ok_iff. setoid_rewrite decode_tap_keys_iff; [|done]. naive_solver.
  - rewrite let_Ok_iff. setoid_rewrite decode_percentage_iff; [|done]. naive_solver.
  - rewrite let_Ok_iff. setoid_rewrite decode_percentage_iff; [|done]. naive_solver.
  - rewrite let_Ok_iff. setoid_rewrite require_length_0. naive_solver.
  - rewrite let_Ok_iff. setoid_rewrite decode_step_iff. naive_solver.
  - rewrite let_Ok_iff. setoid_rewrite decode_step_iff. naive_solver.
Qed.

Lemma decode_service_message_type mt payload dims m :
  decode_service_message mt payload dims = Ok m -> ServiceMessage.message_type m = mt.
Proof. intros H. destruct mt; cbn in H; inv_ok H; done. Qed.

Lemma decode_service_message_iff payload dims m :
  bytes_ok payload ->
  decode_service_message (ServiceMessage.message_type m) payload dims = Ok m <->
  service_wf m /\ encode_service_payload m dims = Ok payload.
Proof.
  intros Hp. unfold decode_service_message, encode_service_payload.
  destruct m as [a| |c|f|f]; cbn [service_wf ServiceMessage.message_type].
  - rewrite let_Ok_iff. setoid_rewrite decode_hello_ack_iff; [|done]. split.
    + intros (? & (? & Hv & ->) & ?). simplify_eq. by rewrite Hv.
    + intros (? & H'). inv_ok H'. checks. eauto 10.
  - rewrite let_Ok_iff. setoid_rewrite require_length_0. naive_solver.
  - rewrite let_Ok_iff. setoid_rewrite decode_error_iff; [|done]. naive_solver.
  - rewrite let_Ok_iff. setoid_rewrite decode_released_iff; [|done]. split.
    + intros (? & (? & ? & ? & ->) & ?). simplify_eq. split; [done|]. by pass.
    + intros (? & H'). inv_ok H'. checks. eauto 10.
  - destruct dims as [d|]; cbn [ok_or]; [|split; [done|by intros []]].
    rewrite let_Ok_iff. setoid_rewrite decode_input_iff; [|done]. split.
    + intros (f' & (? & Hv & ->) & ?). simplify_eq. split; [done|]. rewrite Hv.
      rewrite try_from_ok; [done|]. unfold validate_input_frame, MAX_CONTACTS in Hv.
      inv_ok Hv. b2p. u_range.
    + intros (? & H'). inv_ok H'. apply ok_or_Some, try_from_u_Some in Hr0 as [_ ->]. checks. eauto 10.
Qed.

Lemma wire_value_is_u16 mt : is_u 16 (MessageType.wire_value mt).
Proof. destruct mt; u_range. Qed.

Lemma encoded_payload_ok p bs :
  Packet.encode p = Ok bs -> bytes_ok bs -> bytes_ok (Packet.payload p).
Proof. intros [_ ->]%Packet.packet_encode_Ok Hb. by repeat apply bytes_ok_app in Hb as [_ Hb]. Qed.

(** The control data a datagram must carry: nothing, or the one descriptor of a
    buffer registration. *)
Definition ancillary_ok (e : AncillaryExpectation) (a : AncillaryMetadata) : Prop :=
  a = mkAncillary (match e with NoDescriptor => 0 | OneDescriptor => 1 end) false false.

Lemma validate_ancillary_Ok e a u : validate_ancillary e a = Ok u <-> ancillary_ok e a.
Proof.
  unfold validate_ancillary, ancillary_ok. destruct a as [n [] []], u; cbn; try done.
  destruct e, (n =? _) eqn:Hn; b2p; subst; cbn; split; intros; congruence.
Qed.

Lemma require_request_id_Ok i u : require_request_id i = Ok u <-> i <> 0.
Proof. unfold require_request_id. destruct u, (_ =? _) eqn:H; b2p; done. Qed.

Lemma encode_client_payload_known m mt dims :
  ClientMessage.message_type m = Some mt ->
  encode_client_payload m dims =
  let! _ := validate_phase mt (is_some dims) in
  let! payload := encode_client_message m dims in
  Ok (MessageType.wire_value mt, payload).
Proof. intros Hm. destruct m; inversion Hm; done. Qed.

Lemma client_direction m mt :
  ClientMessage.message_type m = Some mt -> MessageType.direction mt = ClientToService.
Proof. intros Hm. destruct m; inversion Hm; done. Qed.

Lemma encode_client_type m dims t payload :
  client_wf m -> encode_client_payload m dims = Ok (t, payload) -> is_u 16 t.
Proof.
  intros Hwf H. destruct (ClientMessage.message_type m) as [mt|] eqn:Hm.
  - rewrite (encode_client_payload_known _ _ _ Hm) in H. inv_ok H. apply wire_value_is_u16.
  - destruct m; try discriminate. cbn in H. inv_ok H. apply Hwf.
Qed.

(** C29. The client protocol is exact: the service accepts a datagram exactly
    when it is the encoding, in the current handshake phase, of a well-formed
    request that the client's encoder accepts, sent with exactly the descriptors
    its type calls for; and it then decodes to that request. *)
Theorem decode_client_iff bs anc dims e :
  bytes_ok bs ->
  decode_client bs anc dims = Ok e <->
  is_u 32 (request_id e) /\ client_wf (message e) /\
  ancillary_ok (ClientMessage.ancillary_expectation (message e)) anc /\
  encode_client e dims = Ok bs.
Proof.
  intros Hbs. unfold decode_client, encode_client. destruct e as [i m]. split.
  - intros H. step_ok H. apply map_err_Ok in Hr.
    apply (Packet.decode_iff bs a Hbs) in Hr as [(Hmt & Hid & Hpl) He].
    destruct (MessageType.from_wire _) as [mt|] eqn:Hw; inv_ok H; checks.
    + pose proof (decode_client_message_type _ _ _ _ Hr2) as Hm.
      apply (decode_client_message_iff _ _ _ _ Hpl Hm) in Hr2 as [Hwf Henc].
      apply validate_ancillary_Ok in Hr1. cbn [request_id message].
      split_and!; try done; [unfold ClientMessage.ancillary_expectation; by rewrite Hm|].
      rewrite Hr, (encode_client_payload_known _ _ _ Hm), Hr0, Henc.
      apply map_err_Ok. rewrite <- He. apply MessageType_from_wire in Hw. by destruct a; cbn in *; subst.
    + apply validate_ancillary_Ok in Hr0. cbn in Hw |- *. split_and!; try done.
      rewrite Hr, Hb, Hw. apply map_err_Ok. rewrite <- He. by destruct a.
  - intros (Hid & Hwf & Ha & H). cbn [request_id message] in *.
    inv_ok H. destruct a0 as [t payload]. apply map_err_Ok in H. checks. set (pk := Packet.mkPacket _ _ _) in H.
    pose proof (encoded_payload_ok pk bs H Hbs) as Hpl.
    assert (is_u 16 (Packet.message_type pk)) as Hmt.
    { exact (encode_client_type _ _ _ _ Hwf Hr0). }
    assert (Packet.decode bs = Ok pk) as ->.
    { apply Packet.decode_iff; [done|]. split; [by split_and!|done]. }
    cbn [map_err Packet.request_id Packet.message_type Packet.payload pk]. rewrite Hr.
    destruct (ClientMessage.message_type m) as [mt|] eqn:Hm.
    + rewrite (encode_client_payload_known _ _ _ Hm) in Hr0. inv_ok Hr0. checks.
      rewrite (proj2 (MessageType_from_wire _ _) eq_refl).
      rewrite bool_decide_eq_true_2 by exact (client_direction _ _ Hm). cbn [negb]. rewrite Hr1.
      unfold ClientMessage.ancillary_expectation in Ha. rewrite Hm in Ha.
      rewrite (proj2 (validate_ancillary_Ok _ _ ()) Ha).
      by rewrite (proj2 (decode_client_message_iff _ _ _ _ Hpl Hm)).
    + destruct m; try discriminate. cbn in Hr0. inv_ok Hr0. b2p.
      destruct (MessageType.from_wire _) eqn:Hw; [done|].
      rewrite (proj2 (validate_ancillary_Ok NoDescriptor anc ()) Ha). by destruct u.
Qed.

Definition ex_dims : DisplayDimensions := mkDims 2008 60.

Definition ex_submit : Envelope ClientMessage.t :=
  mkEnvelope 7 (ClientMessage.SubmitFrame (mkSubmit 1 9 [FrameState.mkRect 4 0 100 60])).

Definition ex_submit_bytes : bytes :=
  [84; 49; 72; 87; 1; 0; 3; 0; 32; 0; 0; 0; 7; 0; 0; 0;
   1; 0; 0; 0; 9; 0; 0; 0; 0; 0; 0; 0; 1; 0; 0; 0;
   4; 0; 0; 0; 0; 0; 0; 0; 100; 0; 0; 0; 60; 0; 0; 0].

Lemma decode_client_iff_witness :
  is_u 32 7 /\ client_wf (message ex_submit) /\
  ancillary_ok NoDescriptor (mkAncillary 0 false false) /\
  encode_client ex_submit (Some ex_dims) = Ok ex_submit_bytes.
Proof.
  apply (decode_client_iff ex_submit_bytes (mkAncillary 0 false false) (Some ex_dims) ex_submit).
  - repeat constructor; done.
  - reflexivity.
Defined.

Lemma service_direction m : MessageType.direction (ServiceMessage.message_type m) = ServiceToClient.
Proof. by destruct m. Qed.

(** The service protocol is exact: the client accepts a datagram exactly
    when it is the encoding, in the current handshake phase, of a well-formed
    response or event, sent without descriptors, and it decodes to that
    message. *)
Theorem decode_service_iff bs anc dims e :
  bytes_ok bs ->
  decode_service bs anc dims = Ok e <->
  is_u 32 (request_id e) /\ service_wf (message e) /\ ancillary_ok NoDescriptor anc /\
  encode_service e dims = Ok bs.
Proof.
  intros Hbs. unfold decode_service, encode_service. destruct e as [i m].
  cbn [request_id message]. split.
  - intros H. step_ok H. apply map_err_Ok in Hr.
    apply (Packet.decode_iff bs a Hbs) in Hr as [(Hmt & Hid & Hpl) He].
    inv_ok H; checks. apply MessageType_from_wire in H.
    pose proof (decode_service_message_type _ _ _ _ Hr3) as Hm. subst a0.
    apply (decode_service_message_iff _ _ _ Hpl) in Hr3 as [Hwf Henc].
    apply validate_ancillary_Ok in Hr2. split_and!; try done.
    { by destruct m. }
    rewrite Hr0, Hr1, Henc. apply map_err_Ok. rewrite <- He. by destruct a; cbn in *; subst.
  - intros (Hid & Hwf & Ha & H). inv_ok H. apply map_err_Ok in H. checks.
    set (pk := Packet.mkPacket _ _ _) in H.
    pose proof (encoded_payload_ok pk bs H Hbs) as Hpl.
    assert (Packet.decode bs = Ok pk) as ->.
    { apply Packet.decode_iff; [done|]. split; [|done]. split_and!; try done. apply wire_value_is_u16. }
    cbn [map_err Packet.request_id Packet.message_type Packet.payload pk].
    rewrite (proj2 (MessageType_from_wire _ _) eq_refl). cbn [ok_or].
    rewrite bool_decide_eq_true_2 by apply service_direction. cbn [negb]. rewrite Hr, Hr0.
    rewrite (proj2 (validate_ancillary_Ok _ _ ())) by by destruct m.
    by rewrite (proj2 (decode_service_message_iff _ _ _ Hpl)).
Qed.

Definition ex_input : Envelope ServiceMessage.t :=
  mkEnvelope 0 (ServiceMessage.InputFrame
    (mkInputFrame 5 true [mkInputContact 3 true true 100 20])).

Definition ex_input_bytes : bytes :=
  [84; 49; 72; 87; 1; 0; 2; 144; 24; 0; 0; 0; 0; 0; 0; 0;
   5; 0; 0; 0; 0; 0; 0; 0; 1; 1; 0; 0; 3; 1; 1; 0; 100; 0; 0; 0; 20; 0; 0; 0].

Lemma decode_service_iff_witness :
  is_u 32 0 /\ service_wf (message ex_input) /\
  ancillary_ok NoDescriptor (mkAncillary 0 false false) /\
  encode_service ex_input (Some ex_dims) = Ok ex_input_bytes.
Proof.
  apply (decode_service_iff ex_input_bytes (mkAncillary 0 false false) (Some ex_dims) ex_input).
  - repeat constructor; done.
  - reflexivity.
Defined.

(** ** Hostile input *)

Lemma require_length_np p n : no_panic (require_length p n).
Proof. unfold require_length. repeat no_panic_step. Qed.

Lemma require_reserved_np p : no_panic (require_reserved p).
Proof. unfold require_reserved. repeat no_panic_step. Qed.

Lemma validate_nonzero_np v : no_panic (validate_nonzero v).
Proof. unfold validate_nonzero. repeat no_panic_step. Qed.

Lemma decode_bool_np v : no_panic (decode_bool v).
Proof. unfold decode_bool, no_panic. repeat case_match; done. Qed.

#[local] Hint Resolve require_length_np require_reserved_np validate_nonzero_np decode_bool_np : t1.

Lemma validate_damage_np l d : no_panic (validate_damage l d).
Proof. unfold validate_damage. repeat no_panic_step. Qed.

Lemma validate_input_frame_np f d : no_panic (validate_input_frame f d).
Proof.
  unfold validate_input_frame. no_panic_step; [repeat no_panic_step|]. generalize 0.
  induction (wf_contacts f) as [|c cs IH]; intros m; cbn; repeat no_panic_step; apply IH; cbn in *; lia.
Qed.

Lemma validate_phase_np t b : no_panic (validate_phase t b).
Proof. unfold validate_phase. repeat no_panic_step. Qed.

Lemma validate_identifier_np c i : no_panic (validate_identifier c i).
Proof. unfold validate_identifier, require_request_id. destruct c; repeat no_panic_step. Qed.

Lemma require_request_id_np i : no_panic (require_request_id i).
Proof. unfold require_request_id. repeat no_panic_step. Qed.

Lemma validate_ancillary_np c i : no_panic (validate_ancillary c i).
Proof. unfold validate_ancillary. repeat no_panic_step. Qed.

Lemma validate_hello_ack_np a : no_panic (validate_hello_ack a).
Proof. unfold validate_hello_ack. repeat no_panic_step. Qed.

Lemma decode_rectangles_np cs :
  Forall (fun c => length c = 16%nat) cs -> no_panic (decode_rectangles cs).
Proof.
  induction 1 as [|c cs Hc _ IH]; cbn; unfold read_u32; repeat no_panic_step.
Qed.

Lemma decode_contacts_np cs :
  Forall (fun c => length c = 12%nat) cs -> no_panic (decode_contacts cs).
Proof.
  induction 1 as [|c cs Hc _ IH]; cbn; unfold read_u32; repeat no_panic_step.
Qed.

Lemma decode_key_slots_np p count m s ks :
  (12 <= length p)%nat -> (s + m <= 4)%nat ->
  no_panic (decode_key_slots p count (seq s m) ks).
Proof.
  intros Hp. revert s ks. induction m as [|m IH]; intros s ks Hs; cbn [seq decode_key_slots].
  - repeat no_panic_step.
  - unfold read_u16. repeat no_panic_step; apply IH; lia.
Qed.

#[local] Hint Resolve validate_damage_np validate_input_frame_np validate_phase_np
  validate_identifier_np require_request_id_np validate_ancillary_np validate_hello_ack_np
  decode_rectangles_np decode_contacts_np Packet.decode_no_panic : t1.

Ltac np := repeat (no_panic_step; checks).

Lemma decode_hello_np p : no_panic (decode_hello p).
Proof. unfold decode_hello, read_u16, read_u64. np. Qed.

Lemma decode_register_np p : no_panic (decode_register_buffer p).
Proof. unfold decode_register_buffer, read_u32, read_u64. np. Qed.

Lemma decode_submit_np p d : no_panic (decode_submit_frame p d).
Proof.
  unfold decode_submit_frame, read_u32, read_u64. np.
  apply no_panic_bind; [apply decode_rectangles_np, chunks_lengths; lia|]. intros. np.
Qed.

Lemma decode_tap_keys_np p : no_panic (decode_tap_keys p).
Proof. unfold decode_tap_keys. np. apply decode_key_slots_np; unfold MAX_KEYS; lia. Qed.

Lemma decode_percentage_np p : no_panic (decode_percentage p).
Proof. unfold decode_percentage, percentage_new. np. Qed.

Lemma decode_step_np p : no_panic (decode_step_direction p).
Proof. unfold decode_step_direction. np. unfold no_panic. repeat case_match; done. Qed.

Lemma decode_hello_ack_np p : no_panic (decode_hello_ack p).
Proof. unfold decode_hello_ack, read_u16, read_u32. np. Qed.

Lemma decode_error_np p : no_panic (decode_error p).
Proof. unfold decode_error, read_u32. np. Qed.

Lemma decode_released_np p : no_panic (decode_frame_released p).
Proof. unfold decode_frame_released, read_u32, read_u64. np. Qed.

Lemma decode_input_np p d : no_panic (decode_input_frame p d).
Proof.
  unfold decode_input_frame, read_u64. np.
  apply no_panic_bind; [apply decode_contacts_np, chunks_lengths; lia|]. intros. np.
Qed.

#[local] Hint Resolve decode_hello_np decode_register_np decode_submit_np decode_tap_keys_np
  decode_percentage_np decode_step_np decode_hello_ack_np decode_error_np decode_released_np
  decode_input_np : t1.

Lemma decode_client_message_np mt p dims : no_panic (decode_client_message mt p dims).
Proof. destruct mt; cbn [decode_client_message]; np. Qed.

Lemma decode_service_message_np mt p dims : no_panic (decode_service_message mt p dims).
Proof. destruct mt; cbn [decode_service_message]; np. Qed.

Lemma check_keys_np before ks : no_panic (check_keys before ks).
Proof.
  revert before. induction ks as [|k ks IH]; intros before; cbn [check_keys]; [np|].
  no_panic_step; [np|apply IH].
Qed.

Lemma packet_encode_np p : no_panic (Packet.encode p).
Proof. unfold Packet.encode. np. Qed.

#[local] Hint Resolve decode_client_message_np decode_service_message_np check_keys_np
  packet_encode_np : t1.

Lemma encode_client_payload_np m dims : no_panic (encode_client_payload m dims).
Proof.
  destruct (ClientMessage.message_type m) as [mt|] eqn:Hm.
  - rewrite (encode_client_payload_known _ _ _ Hm). no_panic_step.
    apply no_panic_bind; [|intros; np].
    destruct m; inversion Hm; cbn [encode_client_message]; unfold encode_keys; np.
  - destruct m; try discriminate. cbn [encode_client_payload]. np.
Qed.

Lemma encode_service_payload_np m dims : no_panic (encode_service_payload m dims).
Proof. destruct m; cbn [encode_service_payload]; np. Qed.

#[local] Hint Resolve encode_client_payload_np encode_service_payload_np : t1.

(** Neither side of the Touch Bar hardware IPC can be crashed by a datagram:
    for every byte string, every ancillary data and every phase the decoders
    return a message or an error, and no message makes an encoder panic. *)
Theorem wire_no_panic bs anc dims c s :
  no_panic (decode_client bs anc dims) /\ no_panic (decode_service bs anc dims) /\
  no_panic (encode_client c dims) /\ no_panic (encode_service s dims).
Proof.
  unfold decode_client, decode_service, encode_client, encode_service.
  split_and!; np.
Qed.

(** ** What an accepted frame guarantees *)

Lemma exceeds_false x w bound :
  0 <= bound <= umax 32 -> exceeds x w bound = false <-> x + w <= bound.
Proof.
  intros Hb. unfold exceeds, checked_add. destruct (_ <=? _) eqn:H; b2p; [|split; [done|lia]].
  destruct (bound <? _) eqn:H'; b2p; split; try done; lia.
Qed.

Definition dims_wf (d : DisplayDimensions) : Prop := is_u 32 (width d) /\ is_u 32 (height d).

Definition rect_on_display (d : DisplayDimensions) (r : DamageRectangle) : Prop :=
  FrameState.rwidth r <> 0 /\ FrameState.rheight r <> 0 /\
  FrameState.rx r + FrameState.rwidth r <= width d /\
  FrameState.ry r + FrameState.rheight r <= height d.

Lemma validate_damage_Ok l d u :
  dims_wf d ->
  validate_damage l d = Ok u <-> len l <= MAX_DAMAGE_RECTANGLES /\ Forall (rect_on_display d) l.
Proof.
  intros [Hw Hh]. unfold validate_damage. destruct u.
  destruct (_ <? _) eqn:Hl; b2p; [split; [done|lia]|].
  match goal with |- context [existsb ?f l] => set (bad := f) end.
  assert (forall r, bad r = false <-> rect_on_display d r) as Hbad.
  { intros r. unfold bad, rect_on_display.
    rewrite !orb_false_iff, !exceeds_false, !Z.eqb_neq by u_range. tauto. }
  destruct (existsb bad l) eqn:Hx; split; try done.
  - intros [_ Hall]. assert (existsb bad l = false); [|congruence].
    apply existsb_false. eapply Forall_impl; [done|]. intros r. by apply Hbad.
  - intros _. split; [done|]. apply existsb_false in Hx. eapply Forall_impl; [done|].
    intros r. by apply Hbad.
Qed.

Definition contact_on_display (d : DisplayDimensions) (c : InputContact) : Prop :=
  ic_id c <= 15 /\ ic_x c < width d /\ ic_y c < height d.

Definition contact_active (c : InputContact) : bool := ic_tip c || ic_in_range c.

Lemma validate_contacts_Ok cs d m ids u :
  mask_is m ids -> Forall contact_wf cs ->
  validate_contacts cs d m = Ok u <->
  Forall (contact_on_display d) cs /\
  NoDup (ic_id <$> filter (fun c => contact_active c = true) cs) /\
  Forall (fun c => contact_active c = true -> ic_id c ∉ ids) cs.
Proof.
  intros Hm Hcs. destruct u. revert m ids Hm.
  induction Hcs as [|c cs Hc _ IH]; intros m ids Hm; cbn [validate_contacts].
  { split; [|done]. intros _. by repeat constructor. }
  rewrite !Forall_cons, filter_cons. change (ic_tip c || ic_in_range c) with (contact_active c).
  assert (0 <= ic_id c) as Hid by apply Hc.
  destruct (_ || _) eqn:Hb; b2p.
  { split; [done|]. intros (((? & ? & ?) & _) & _). lia. }
  assert (contact_on_display d c) as Hon by (split_and!; lia).
  destruct (contact_active c) eqn:Ha; cycle 1.
  { rewrite decide_False by done. rewrite (IH m ids Hm).
    assert (false = true -> ic_id c ∉ ids) by done. tauto. }
  rewrite decide_True, (mask_test m ids _ Hm Hid) by done.
  case_bool_decide as Hin; cbn [negb]; [split; [done|tauto]|].
  rewrite (IH _ _ (mask_add _ _ _ Hm Hid)), fmap_cons, NoDup_cons.
  rewrite (fresh_split ic_id (fun c => contact_active c = true)).
  assert (true = true -> ic_id c ∉ ids) by done. tauto.
Qed.

Lemma validate_input_frame_Ok f d :
  input_frame_wf f ->
  validate_input_frame f d = Ok () <->
  len (wf_contacts f) <= 10 /\ Forall (contact_on_display d) (wf_contacts f) /\
  NoDup (ic_id <$> filter (fun c => contact_active c = true) (wf_contacts f)).
Proof.
  intros [_ Hf]. unfold validate_input_frame, MAX_CONTACTS.
  destruct (_ <? _) eqn:Hl; b2p; [split; [done|lia]|].
  rewrite (validate_contacts_Ok _ _ 0 []) by (done || apply mask_is_nil).
  assert (Forall (fun c => contact_active c = true -> ic_id c ∉ []) (wf_contacts f)).
  { apply Forall_forall. intros ? _ _. apply not_elem_of_nil. }
  tauto.
Qed.

(** Every frame submission the service decodes after the handshake carries
    at most 64 damage rectangles, each non-empty and inside the display that
    was announced, so the frame state of that display accepts its damage. *)
Theorem accepted_submission_damage bs anc d i f l :
  bytes_ok bs -> dims_wf d -> FrameState.width l = width d -> FrameState.height l = height d ->
  decode_client bs anc (Some d) = Ok (mkEnvelope i (ClientMessage.SubmitFrame f)) ->
  len (damage f) <= 64 /\ Forall (rect_on_display d) (damage f) /\
  is_ok (FrameState.validate_damage l (damage f)) = true.
Proof.
  intros Hbs Hd Hlw Hlh H. unfold decode_client in H. do 2 step_ok H.
  apply map_err_Ok, (Packet.decode_iff bs a Hbs) in Hr as [(_ & _ & Hpl) _].
  destruct (MessageType.from_wire _); inv_ok H.
  pose proof (decode_client_message_type _ _ _ _ Hr2) as Hm.
  apply (decode_client_message_iff _ _ _ _ Hpl Hm) in Hr2 as [_ He].
  cbn [encode_client_message ok_or] in He. inv_ok He.
  match goal with Hv : validate_damage _ _ = Ok _ |- _ =>
    apply (validate_damage_Ok _ _ _ Hd) in Hv as [Hlen Hall] end.
  split_and!; try done. unfold MAX_DAMAGE_RECTANGLES in Hlen.
  unfold FrameState.validate_damage, FrameState.MAX_DAMAGE_RECTANGLES. decide_if.
  case_match; [done|]. rewrite (proj2 (existsb_false _ _)); [done|].
  eapply Forall_impl; [done|]. intros r (_ & _ & ? & ?).
  apply FrameState.rect_out_of_bounds_spec; split; rewrite ?Hlw, ?Hlh; apply Hd || done.
Qed.

Lemma accepted_submission_damage_witness :
  len [FrameState.mkRect 4 0 100 60] <= 64 /\
  Forall (rect_on_display ex_dims) [FrameState.mkRect 4 0 100 60] /\
  is_ok (FrameState.validate_damage (FrameState.mkLayout 2008 60 8032 481920)
           [FrameState.mkRect 4 0 100 60]) = true.
Proof.
  apply (accepted_submission_damage ex_submit_bytes (mkAncillary 0 false false) ex_dims 7
    (mkSubmit 1 9 [FrameState.mkRect 4 0 100 60])); try done.
  - repeat constructor; done.
Defined.

(** Every input frame the client decodes shows at most ten contacts, each
    with an identifier of at most 15 and inside the display, and no two active
    contacts share an identifier. *)
Theorem accepted_input_contacts bs anc d i f :
  bytes_ok bs ->
  decode_service bs anc (Some d) = Ok (mkEnvelope i (ServiceMessage.InputFrame f)) ->
  i = 0 /\ len (wf_contacts f) <= 10 /\ Forall (contact_on_display d) (wf_contacts f) /\
  NoDup (ic_id <$> filter (fun c => contact_active c = true) (wf_contacts f)).
Proof.
  intros Hbs H. unfold decode_service in H. inv_ok H.
  apply map_err_Ok, (Packet.decode_iff bs a Hbs) in Hr as [(_ & _ & Hpl) _].
  pose proof (decode_service_message_type _ _ _ _ Hr4) as Hm. cbn in Hm. subst a0.
  apply (decode_service_message_iff _ _ (ServiceMessage.InputFrame f) Hpl) in Hr4 as [Hwf He].
  cbn in Hr2. inv_ok Hr2. b2p. split; [done|].
  cbn [encode_service_payload ok_or] in He. inv_ok He. destruct a0.
  by apply validate_input_frame_Ok.
Qed.

Lemma accepted_input_contacts_witness :
  0 = 0 /\ len [mkInputContact 3 true true 100 20] <= 10 /\
  Forall (contact_on_display ex_dims) [mkInputContact 3 true true 100 20] /\
  NoDup (ic_id <$> filter (fun c => contact_active c = true) [mkInputContact 3 true true 100 20]).
Proof.
  apply (accepted_input_contacts ex_input_bytes (mkAncillary 0 false false) ex_dims 0
    (mkInputFrame 5 true [mkInputContact 3 true true 100 20])).
  - repeat constructor; done.
  - reflexivity.
Defined.

End Wire.
