(* ===== verification/AuthProtocol.v ===== *)
(** * The Touch ID authentication protocol
    ([crates/t1-daemons/src/auth_protocol.rs])

    The fixed request and response packets of the authentication broker, its
    access policy, the single-operation broker state with its cancellation
    rules, and the client's fail-closed evaluation of a response. A [deliver]
    callback of the source is a function on the state of its caller: it is
    given that state and returns it changed. *)

From S2P Require Import Prelude.

Module AuthProtocol.

Definition PROTOCOL_VERSION : Z := 1.
Definition MAX_MATCH_TIMEOUT : Duration := from_secs 30.
Definition SETUP_ALLOWANCE : Duration := from_secs 35.
Definition BIOMETRIC_USER_ID : Z := 501.

(** [b"T1AUTH\x01\n"] and the other packets. *)
Definition AUTHENTICATE_REQUEST : bytes := [84; 49; 65; 85; 84; 72; 1; 10].
Definition APPROVE_REQUEST : bytes := [84; 49; 65; 80; 82; 86; 1; 10].
Definition ENROLL_REQUEST : bytes := [84; 49; 69; 78; 82; 76; 1; 10].
Definition CANCEL_REQUEST : bytes := [84; 49; 67; 78; 67; 76; 1; 10].

(** [b"OKAY"], [b"DENY"], [b"BUSY"], [b"FAIL"]. *)
Definition RESPONSE_OK : bytes := [79; 75; 65; 89].
Definition RESPONSE_DENIED : bytes := [68; 69; 78; 89].
Definition RESPONSE_BUSY : bytes := [66; 85; 83; 89].
Definition RESPONSE_FAILURE : bytes := [70; 65; 73; 76].

Definition REQUEST_SIZE : nat := 8.
Definition RESPONSE_SIZE : nat := 4.
Definition ROOT_UID : Z := 0.
Definition WORLD_WRITABLE : Z := 2.

Module Request.
Inductive t : Type := Authenticate | Approve | Enroll | Cancel.

#[global] Instance Request_eq_dec : EqDecision t.
Proof. solve_decision. Defined.

(** [Request::encode]. *)
Definition encode (r : t) : bytes :=
  match r with
  | Authenticate => AUTHENTICATE_REQUEST
  | Approve => APPROVE_REQUEST
  | Enroll => ENROLL_REQUEST
  | Cancel => CANCEL_REQUEST
  end.
End Request.

Module Response.
Inductive t : Type := Okay | Denied | Busy | Failure.

#[global] Instance Response_eq_dec : EqDecision t.
Proof. solve_decision. Defined.

(** [Response::encode]. *)
Definition encode (r : t) : bytes :=
  match r with
  | Okay => RESPONSE_OK
  | Denied => RESPONSE_DENIED
  | Busy => RESPONSE_BUSY
  | Failure => RESPONSE_FAILURE
  end.
End Response.

Inductive RequestError : Type :=
| WrongLength | WrongTerminator | UnsupportedVersion | UnsupportedAction.

Inductive ResponseError : Type := ResponseWrongLength | UnsupportedResponse.

(** [decode_request]. *)
Definition decode_request (packet : bytes) : res RequestError Request.t :=
  if negb (len packet =? Z.of_nat REQUEST_SIZE) then Err WrongLength
  else
    let! terminator := byte_at packet (REQUEST_SIZE - 1) in
    if negb (terminator =? 10) then Err WrongTerminator
    else
      let! version := byte_at packet (REQUEST_SIZE - 2) in
      if negb (version =? PROTOCOL_VERSION) then Err UnsupportedVersion
      else
        let! action := slice packet 0 (REQUEST_SIZE - 2) in
        if bool_decide (action = [84; 49; 65; 85; 84; 72]) then Ok Request.Authenticate
        else if bool_decide (action = [84; 49; 65; 80; 82; 86]) then Ok Request.Approve
        else if bool_decide (action = [84; 49; 69; 78; 82; 76]) then Ok Request.Enroll
        else if bool_decide (action = [84; 49; 67; 78; 67; 76]) then Ok Request.Cancel
        else Err UnsupportedAction.

(** [decode_response]. *)
Definition decode_response (packet : bytes) : res ResponseError Response.t :=
  if negb (len packet =? Z.of_nat RESPONSE_SIZE) then Err ResponseWrongLength
  else if bool_decide (packet = [79; 75; 65; 89]) then Ok Response.Okay
  else if bool_decide (packet = [68; 69; 78; 89]) then Ok Response.Denied
  else if bool_decide (packet = [66; 85; 83; 89]) then Ok Response.Busy
  else if bool_decide (packet = [70; 65; 73; 76]) then Ok Response.Failure
  else Err UnsupportedResponse.

Inductive PeerAddressFamily : Type := Local | InternetV6 | Netlink | OtherFamily.

#[global] Instance PeerAddressFamily_eq_dec : EqDecision PeerAddressFamily.
Proof. solve_decision. Defined.

Record PeerMetadata : Type := mkPeer {
  address_family : PeerAddressFamily;
  user_id : Z;
  group_id : Z;
}.

Inductive EndpointKind : Type := LocalSocket | OtherKind.

Record EndpointMetadata : Type := mkEndpoint {
  kind : EndpointKind;
  owner_user_id : Z;
  mode : Z;
}.

(** [endpoint_is_trusted]. *)
Definition endpoint_is_trusted (m : EndpointMetadata) : bool :=
  match kind m with LocalSocket => true | OtherKind => false end
  && (owner_user_id m =? ROOT_UID) && (Z.land (mode m) WORLD_WRITABLE =? 0).

Record AccessPolicy : Type := mkPolicy { enrollment_owner_user_id : Z }.

Inductive PolicyError : Type := InvalidEnrollmentOwner.

(** [AccessPolicy::new]. *)
Definition policy_new (owner : Z) : res PolicyError AccessPolicy :=
  if owner =? ROOT_UID then Err InvalidEnrollmentOwner else Ok (mkPolicy owner).

(** [AccessPolicy::biometric_user_for]. *)
Definition biometric_user_for (p : AccessPolicy) (peer : PeerMetadata) : option Z :=
  if negb (bool_decide (address_family peer = Local)) then None
  else if (user_id peer =? ROOT_UID) || (user_id peer =? enrollment_owner_user_id p)
  then Some BIOMETRIC_USER_ID else None.

(** [AccessPolicy::peer_is_authorized]. *)
Definition peer_is_authorized (p : AccessPolicy) (peer : PeerMetadata) : bool :=
  match biometric_user_for p peer with Some _ => true | None => false end.

Module Purpose.
Inductive t : Type := Authenticate | Approve | Enrollment.

#[global] Instance Purpose_eq_dec : EqDecision t.
Proof. solve_decision. Defined.
End Purpose.

Record EnrollmentOwnerCandidate : Type := mkCandidate { candidate_user_id : Z }.

(** [EnrollmentOwnerCandidate::new]. *)
Definition candidate_new (user_id : Z) : option EnrollmentOwnerCandidate :=
  if user_id =? ROOT_UID then None else Some (mkCandidate user_id).

(** [OperationToken], a [u64]. *)
Definition OperationToken : Type := Z.

Record Operation : Type := mkOperation {
  op_token : OperationToken;
  biometric_user_id : Z;
  purpose : Purpose.t;
  enrollment_owner_candidate : option EnrollmentOwnerCandidate;
}.

Inductive BrokerDecision : Type :=
| Start (op : Operation)
| Reply (r : Response.t).

Module OperationResult.
Inductive t : Type := Matched | NoMatch | Cancelled | Unavailable | Failed.

#[global] Instance OperationResult_eq_dec : EqDecision t.
Proof. solve_decision. Defined.
End OperationResult.

Record ActiveOperation : Type := mkActive { token : OperationToken; cancelled : bool }.

Record BrokerState : Type := mkBroker {
  active : option ActiveOperation;
  next_token : Z;
}.

Module TokenAdmission.
Inductive t : Type := Start (token : OperationToken) | Busy | Failed.
End TokenAdmission.

(** [BrokerState::default]. *)
Definition broker_default : BrokerState := mkBroker None 1.

(** [BrokerState::start_token]. *)
Definition start_token (st : BrokerState) : TokenAdmission.t * BrokerState :=
  match active st with
  | Some _ => (TokenAdmission.Busy, st)
  | None =>
      if next_token st =? 0 then (TokenAdmission.Failed, st)
      else
        let token := next_token st in
        let next := match checked_add 64 (next_token st) 1 with Some n => n | None => 0 end in
        (TokenAdmission.Start token, mkBroker (Some (mkActive token false)) next)
  end.

(** [BrokerState::finish_token]. *)
Definition finish_token (st : BrokerState) (t : OperationToken) : option bool * BrokerState :=
  match active st with
  | None => (None, st)
  | Some a =>
      if negb (token a =? t) then (None, st)
      else (Some (cancelled a), mkBroker None (next_token st))
  end.

(** [BrokerState::is_cancelled]. *)
Definition is_cancelled (st : BrokerState) (t : OperationToken) : bool :=
  match active st with
  | None => true
  | Some a => negb (token a =? t) || cancelled a
  end.

(** [BrokerState::finish]. *)
Definition finish (st : BrokerState) (t : OperationToken) (result : OperationResult.t)
    : option Response.t * BrokerState :=
  match finish_token st t with
  | (None, st) => (None, st)
  | (Some was_cancelled, st) =>
      (Some (if negb was_cancelled && bool_decide (result = OperationResult.Matched)
             then Response.Okay else Response.Failure), st)
  end.

(** [BrokerState::start_operation]. *)
Definition start_operation (st : BrokerState) (biometric_user_id : Z) (p : Purpose.t)
    (candidate : option EnrollmentOwnerCandidate) : BrokerDecision * BrokerState :=
  match start_token st with
  | (TokenAdmission.Start token, st) =>
      (Start (mkOperation token biometric_user_id p candidate), st)
  | (TokenAdmission.Busy, st) => (Reply Response.Busy, st)
  | (TokenAdmission.Failed, st) => (Reply Response.Failure, st)
  end.

(** [BrokerState::enroll_without_owner]. *)
Definition enroll_without_owner (st : BrokerState) (peer : PeerMetadata)
    : BrokerDecision * BrokerState :=
  if negb (bool_decide (address_family peer = Local)) then (Reply Response.Denied, st)
  else
    match candidate_new (user_id peer) with
    | None => (Reply Response.Denied, st)
    | Some candidate => start_operation st BIOMETRIC_USER_ID Purpose.Enrollment (Some candidate)
    end.

Section Deliver.
Context {W : Type}.
Implicit Types (deliver : OperationToken -> W -> bool * W) (w : W).

(** [BrokerState::cancel_token]. *)
Definition cancel_token (st : BrokerState) (t : OperationToken) deliver w
    : bool * BrokerState * W :=
  match active st with
  | None => (false, st, w)
  | Some a =>
      if negb (token a =? t) then (false, st, w)
      else
        let (delivered, w) := deliver t w in
        if negb delivered then (false, st, w)
        else (true, mkBroker (Some (mkActive (token a) true)) (next_token st), w)
  end.

(** [BrokerState::client_disconnected]. *)
Definition client_disconnected (st : BrokerState) (t : OperationToken) deliver w
    : bool * BrokerState * W := cancel_token st t deliver w.

(** [BrokerState::cancel_for_root]. *)
Definition cancel_for_root (st : BrokerState) (peer : PeerMetadata) deliver w
    : BrokerDecision * BrokerState * W :=
  if negb (bool_decide (address_family peer = Local)) || negb (user_id peer =? ROOT_UID)
  then (Reply Response.Denied, st, w)
  else
    match active st with
    | None => (Reply Response.Denied, st, w)
    | Some a =>
        match cancel_token st (token a) deliver w with
        | (true, st, w) => (Reply Response.Okay, st, w)
        | (false, st, w) => (Reply Response.Denied, st, w)
        end
    end.

(** [BrokerState::cancel_without_owner]. *)
Definition cancel_without_owner (st : BrokerState) (peer : PeerMetadata) deliver w
    : BrokerDecision * BrokerState * W := cancel_for_root st peer deliver w.

(** [BrokerState::handle_packet_with_cancellation]. The fixed-size decoder does
    not panic ([decode_request_no_panic]). *)
Definition handle_packet_with_cancellation (st : BrokerState) (peer : PeerMetadata)
    (policy : AccessPolicy) (packet : bytes) deliver w : BrokerDecision * BrokerState * W :=
  match biometric_user_for policy peer with
  | None => (Reply Response.Denied, st, w)
  | Some biometric_user_id =>
      match decode_request packet with
      | Err _ | Panic => (Reply Response.Denied, st, w)
      | Ok request =>
          if bool_decide (request = Request.Cancel) then cancel_for_root st peer deliver w
          else if bool_decide (request = Request.Enroll) && (user_id peer =? ROOT_UID)
          then (Reply Response.Denied, st, w)
          else
            (* the [Cancel] arm of the source is [unreachable!()] *)
            let (p, candidate) :=
              match request with
              | Request.Authenticate => (Purpose.Authenticate, None)
              | Request.Approve => (Purpose.Approve, None)
              | Request.Enroll | Request.Cancel =>
                  (Purpose.Enrollment, candidate_new (user_id peer))
              end in
            (start_operation st biometric_user_id p candidate, w)
      end
  end.

End Deliver.

(** [BrokerState::handle_packet]: cancellation cannot be delivered. *)
Definition handle_packet (st : BrokerState) (peer : PeerMetadata) (policy : AccessPolicy)
    (packet : bytes) : BrokerDecision * BrokerState :=
  fst (handle_packet_with_cancellation st peer policy packet (fun _ w => (false, w)) tt).

(** ** The client *)

Inductive ClientPurpose : Type := ClientAuthenticate | ClientApprove.

(** [ClientPurpose::encode_request]. *)
Definition encode_request (p : ClientPurpose) : bytes :=
  match p with
  | ClientAuthenticate => AUTHENTICATE_REQUEST
  | ClientApprove => APPROVE_REQUEST
  end.

Module ClientTransportFailure.
Inductive t : Type :=
| BrokerUnavailable | DeadlineExceeded | UntrustedEndpoint | UntrustedPeer
| SendFailed | ReceiveFailed.
End ClientTransportFailure.

Module ClientFailure.
Inductive t : Type :=
| BrokerUnavailable | DeadlineExceeded | UntrustedEndpoint | UntrustedPeer
| SendFailed | ReceiveFailed | Denied | Busy | BrokerFailure | InvalidResponse.
End ClientFailure.

Inductive ClientOutcome : Type :=
| Authenticated
| ClientFailed (f : ClientFailure.t).

(** [validate_match_timeout]. *)
Definition validate_match_timeout (timeout : Duration) : res ClientFailure.t () :=
  if (timeout =? 0) || (MAX_MATCH_TIMEOUT <? timeout) then Err ClientFailure.DeadlineExceeded
  else Ok ().

(** [client_watchdog]. *)
Definition client_watchdog (timeout : Duration) : res ClientFailure.t Duration :=
  let! _ := validate_match_timeout timeout in
  ok_or (duration_checked_add timeout SETUP_ALLOWANCE) ClientFailure.DeadlineExceeded.

(** [evaluate_client_response]. *)
Definition evaluate_client_response (result : bytes + ClientTransportFailure.t)
    : ClientOutcome :=
  match result with
  | inl packet =>
      match decode_response packet with
      | Ok Response.Okay => Authenticated
      | Ok Response.Denied => ClientFailed ClientFailure.Denied
      | Ok Response.Busy => ClientFailed ClientFailure.Busy
      | Ok Response.Failure => ClientFailed ClientFailure.BrokerFailure
      | Err _ | Panic => ClientFailed ClientFailure.InvalidResponse
      end
  | inr failure =>
      ClientFailed
        match failure with
        | ClientTransportFailure.BrokerUnavailable => ClientFailure.BrokerUnavailable
        | ClientTransportFailure.DeadlineExceeded => ClientFailure.DeadlineExceeded
        | ClientTransportFailure.UntrustedEndpoint => ClientFailure.UntrustedEndpoint
        | ClientTransportFailure.UntrustedPeer => ClientFailure.UntrustedPeer
        | ClientTransportFailure.SendFailed => ClientFailure.SendFailed
        | ClientTransportFailure.ReceiveFailed => ClientFailure.ReceiveFailed
        end
  end.

Inductive CancellationOutcome : Type := CancelAccepted | CancelDenied.

(** [evaluate_cancellation_response]. *)
Definition evaluate_cancellation_response (result : bytes + ClientTransportFailure.t)
    : CancellationOutcome :=
  match
    match result with
    | inl packet =>
        map_err (fun _ => ClientTransportFailure.ReceiveFailed) (decode_response packet)
    | inr failure => Err failure
    end
  with
  | Ok Response.Okay => CancelAccepted
  | Ok (Response.Denied | Response.Busy | Response.Failure) | Err _ | Panic => CancelDenied
  end.

(** ** Exact packets *)

Lemma decode_request_iff p r : decode_request p = Ok r <-> p = Request.encode r.
Proof.
  split; [|by intros ->; destruct r].
  intros H. unfold decode_request, REQUEST_SIZE, PROTOCOL_VERSION in H.
  destruct p as [|b0 [|b1 [|b2 [|b3 [|b4 [|b5 [|b6 [|b7 [|b8 p]]]]]]]]]; try discriminate.
  - change (byte_at _ (8 - 1)) with (Ok (E := RequestError) b7) in H.
    change (byte_at _ (8 - 2)) with (Ok (E := RequestError) b6) in H.
    change (slice _ 0 (8 - 2)) with (Ok (E := RequestError) [b0; b1; b2; b3; b4; b5]) in H.
    cbn [length Z.of_nat] in H. inv_ok H; b2p; simplify_eq; done.
  - cbn [length] in H. inv_ok H; b2p; lia.
Qed.

Lemma decode_request_no_panic p : no_panic (decode_request p).
Proof. unfold decode_request, REQUEST_SIZE. repeat no_panic_step. Qed.

Lemma decode_response_iff p r : decode_response p = Ok r <-> p = Response.encode r.
Proof.
  split; [|by intros ->; destruct r].
  intros H. unfold decode_response in H. inv_ok H; b2p; done.
Qed.

(** The client is fail closed: it authenticates exactly when the transport
    delivered the four bytes [OKAY]; every other packet and every transport or
    trust failure is a failed attempt, and an accepted cancellation is the same
    packet on the separate cancellation exchange. *)
Theorem only_okay_authenticates r :
  (evaluate_client_response r = Authenticated <-> r = inl RESPONSE_OK) /\
  (evaluate_cancellation_response r = CancelAccepted <-> r = inl RESPONSE_OK).
Proof.
  destruct r as [p|f]; [|by split; split; destruct f].
  unfold evaluate_client_response, evaluate_cancellation_response.
  pose proof (decode_response_iff p Response.Okay) as Hok. cbn [Response.encode] in Hok.
  split; split; try (intros [= ->]; reflexivity);
    destruct (decode_response p) as [[]| |]; try discriminate;
    intros _; f_equal; by apply Hok.
Qed.

(** The packets of the protocol are exact: a byte string is accepted as a
    request, or as a response, exactly when it is one of the fixed packets, and
    no byte string makes the decoder panic. *)
Theorem auth_packets_exact p :
  (forall r, decode_request p = Ok r <-> p = Request.encode r) /\
  (forall r, decode_response p = Ok r <-> p = Response.encode r) /\
  no_panic (decode_request p) /\ no_panic (decode_response p).
Proof.
  split_and!; [apply decode_request_iff|apply decode_response_iff|apply decode_request_no_panic|].
  unfold decode_response. repeat no_panic_step.
Qed.

(** ** The broker as a sequence of operations *)

Inductive event : Type :=
| PacketFrom (peer : PeerMetadata) (policy : AccessPolicy) (packet : bytes) (delivers : bool)
| EnrollFrom (peer : PeerMetadata)
| CancelFrom (peer : PeerMetadata) (delivers : bool)
| Disconnected (t : OperationToken) (delivers : bool)
| Finished (t : OperationToken) (result : OperationResult.t).

(** Who asked for a start or a cancellation. *)
Inductive origin : Type :=
| ByPacket (peer : PeerMetadata) (policy : AccessPolicy) (packet : bytes)
| ByPeer (peer : PeerMetadata)
| ByDisconnect (t : OperationToken).

(** What a step makes visible. *)
Inductive milestone : Type :=
| Started (o : origin) (op : Operation)
| CancelAcked (o : origin)
| Completed (t : OperationToken) (result : OperationResult.t) (r : Response.t).

Definition of_decision (o : origin) (d : BrokerDecision) : list milestone :=
  match d with
  | Start op => [Started o op]
  | Reply Response.Okay => [CancelAcked o]
  | Reply _ => []
  end.

(** One call of the broker, with a [deliver] that answers [delivers]. *)
Definition broker_step (st : BrokerState) (e : event) : list milestone * BrokerState :=
  let answer (b : bool) (t : OperationToken) (w : ()) := (b, w) in
  match e with
  | PacketFrom peer policy packet b =>
      let '(d, st, _) := handle_packet_with_cancellation st peer policy packet (answer b) tt in
      (of_decision (ByPacket peer policy packet) d, st)
  | EnrollFrom peer =>
      let '(d, st) := enroll_without_owner st peer in (of_decision (ByPeer peer) d, st)
  | CancelFrom peer b =>
      let '(d, st, _) := cancel_without_owner st peer (answer b) tt in
      (of_decision (ByPeer peer) d, st)
  | Disconnected t b =>
      let '(r, st, _) := client_disconnected st t (answer b) tt in
      (if r then [CancelAcked (ByDisconnect t)] else [], st)
  | Finished t result =>
      let '(r, st) := finish st t result in
      (match r with Some r => [Completed t result r] | None => [] end, st)
  end.

Fixpoint broker_run (st : BrokerState) (es : list event) : list milestone * BrokerState :=
  match es with
  | [] => ([], st)
  | e :: es =>
      let (ms, st) := broker_step st e in
      let (ms', st) := broker_run st es in (ms ++ ms', st)
  end.

Definition is_root (peer : PeerMetadata) : Prop :=
  address_family peer = Local /\ user_id peer = ROOT_UID.

(** The starts the protocol allows. *)
Definition start_allowed (o : origin) (op : Operation) : Prop :=
  biometric_user_id op = BIOMETRIC_USER_ID /\
  match o with
  | ByPacket peer policy packet =>
      address_family peer = Local /\
      (user_id peer = ROOT_UID \/ user_id peer = enrollment_owner_user_id policy) /\
      match purpose op with
      | Purpose.Authenticate =>
          packet = AUTHENTICATE_REQUEST /\ enrollment_owner_candidate op = None
      | Purpose.Approve => packet = APPROVE_REQUEST /\ enrollment_owner_candidate op = None
      | Purpose.Enrollment =>
          packet = ENROLL_REQUEST /\ user_id peer <> ROOT_UID /\
          enrollment_owner_candidate op = Some (mkCandidate (user_id peer))
      end
  | ByPeer peer =>
      address_family peer = Local /\ user_id peer <> ROOT_UID /\
      purpose op = Purpose.Enrollment /\
      enrollment_owner_candidate op = Some (mkCandidate (user_id peer))
  | ByDisconnect _ => False
  end.

(** The cancellations of the operation with token [t] the protocol allows. *)
Definition cancel_allowed (o : origin) (t : OperationToken) : Prop :=
  match o with
  | ByPacket peer _ packet => is_root peer /\ packet = CANCEL_REQUEST
  | ByPeer peer => is_root peer
  | ByDisconnect t' => t' = t
  end.

(** The state of the broker's contract: the last token issued, and the
    operation in progress with its cancellation mark. *)
Definition progress : Type := Z * option (OperationToken * bool).

(** One move of the contract. *)
Inductive move : progress -> milestone -> progress -> Prop :=
| move_start last o op :
    last < op_token op <= umax 64 -> start_allowed o op ->
    move (last, None) (Started o op) (op_token op, Some (op_token op, false))
| move_cancel last t c o :
    cancel_allowed o t -> move (last, Some (t, c)) (CancelAcked o) (last, Some (t, true))
| move_finish last t c result :
    move (last, Some (t, c))
      (Completed t result
         (if negb c && bool_decide (result = OperationResult.Matched)
          then Response.Okay else Response.Failure)) (last, None).

(** The broker's contract: what it shows is a sequence of moves. *)
Inductive contract : progress -> list milestone -> Prop :=
| contract_nil pr : contract pr []
| contract_cons pr m pr' ms : move pr m pr' -> contract pr' ms -> contract pr (m :: ms).

(** The broker state stands for a contract state. *)
Definition broker_rel (st : BrokerState) (pr : progress) : Prop :=
  snd pr = (fun a => (token a, cancelled a)) <$> active st /\ 0 <= fst pr /\
  (next_token st = 0 \/ fst pr < next_token st <= umax 64).

Lemma start_token_spec st pr r st' :
  broker_rel st pr -> start_token st = (r, st') ->
  match r with
  | TokenAdmission.Start t =>
      pr = (fst pr, None) /\ fst pr < t <= umax 64 /\ broker_rel st' (t, Some (t, false))
  | _ => st' = st
  end.
Proof.
  intros (Ha & Hl & Hn) H. unfold start_token in H. destruct (active st) eqn:Hact; [by simplify_eq|].
  destruct (_ =? 0) eqn:H0; b2p; simplify_eq; [done|]. destruct pr as [last cur]; cbn in *. subst cur.
  split_and!; try done; try lia. unfold broker_rel; cbn. split_and!; [done|lia|].
  unfold checked_add. destruct (_ <=? _) eqn:Hle; b2p; lia.
Qed.

Lemma start_operation_spec st pr u p c d st' :
  broker_rel st pr -> start_operation st u p c = (d, st') ->
  (exists r, r <> Response.Okay /\ d = Reply r /\ st' = st) \/
  (exists t, d = Start (mkOperation t u p c) /\ pr = (fst pr, None) /\ fst pr < t <= umax 64 /\
     broker_rel st' (t, Some (t, false))).
Proof.
  intros Hrel H. unfold start_operation in H. destruct (start_token st) as [r s2] eqn:Hs.
  pose proof (start_token_spec _ _ _ _ Hrel Hs) as Hr. destruct r as [t| |]; simplify_eq.
  - right. eauto.
  - left. by exists Response.Busy.
  - left. by exists Response.Failure.
Qed.

Lemma cancel_token_spec {W} st t deliver (w : W) b st' w' :
  cancel_token st t deliver w = (b, st', w') ->
  (b = false /\ st' = st) \/
  (b = true /\ exists c, active st = Some (mkActive t c) /\
     st' = mkBroker (Some (mkActive t true)) (next_token st)).
Proof.
  unfold cancel_token. intros H. destruct (active st) as [[t' c]|] eqn:Ha; cbn in *.
  - destruct (t' =? t) eqn:Ht; b2p; cbn in H; [|left; by simplify_eq].
    destruct (deliver t w) as [[] w2]; cbn in H; simplify_eq; [right|by left].
    split; [done|]. by exists c.
  - left. by simplify_eq.
Qed.

Lemma cancel_for_root_spec {W} st peer deliver (w : W) d st' w' :
  cancel_for_root st peer deliver w = (d, st', w') ->
  (d = Reply Response.Denied /\ st' = st) \/
  (d = Reply Response.Okay /\ is_root peer /\ exists t c, active st = Some (mkActive t c) /\
     st' = mkBroker (Some (mkActive t true)) (next_token st)).
Proof.
  unfold cancel_for_root. intros H. destruct (_ || _) eqn:Hp; b2p; [left; by simplify_eq|].
  destruct (active st) as [a|] eqn:Ha; [|left; by simplify_eq].
  destruct (cancel_token _ _ _ _) as [[b s2] w2] eqn:Hc.
  apply cancel_token_spec in Hc as [[-> ->]|[-> (c & Hs & ->)]]; simplify_eq; [by left|right].
  split_and!; try done. exists (token a), c. by rewrite H.
Qed.

Lemma handle_packet_spec {W} st peer policy packet deliver (w : W) d st' w' :
  handle_packet_with_cancellation st peer policy packet deliver w = (d, st', w') ->
  (d = Reply Response.Denied /\ st' = st) \/
  (packet = CANCEL_REQUEST /\ cancel_for_root st peer deliver w = (d, st', w')) \/
  (w' = w /\ exists u p c, start_operation st u p c = (d, st') /\
     forall t, start_allowed (ByPacket peer policy packet) (mkOperation t u p c)).
Proof.
  unfold handle_packet_with_cancellation, biometric_user_for. intros H.
  destruct (negb _) eqn:Hf; b2p; [left; by simplify_eq|].
  destruct (_ || _) eqn:Hu; [|left; by simplify_eq].
  assert (user_id peer = ROOT_UID \/ user_id peer = enrollment_owner_user_id policy) as Hu' by lia.
  destruct (decode_request packet) as [r| |] eqn:Hd; [|left; by simplify_eq..].
  apply decode_request_iff in Hd as ->.
  destruct r; repeat case_bool_decide; try done; cbn [andb] in H.
  1,2: right; right; simplify_eq; split; [done|]; do 3 eexists; split; [done|].
  1,2: intros t; split; [done|]; by split_and!.
  - destruct (_ =? _) eqn:Hz; b2p; [left; by simplify_eq|].
    right; right. simplify_eq. split; [done|]. do 3 eexists. split; [done|].
    intros t. split_and!; try done. cbn. unfold candidate_new.
    by rewrite (proj2 (Z.eqb_neq _ _)).
  - right; left. done.
Qed.

(** Recording a cancellation, and completing, as changes of progress. *)
Lemma rel_cancel st pr t c :
  broker_rel st pr -> active st = Some (mkActive t c) ->
  pr = (fst pr, Some (t, c)) /\
  broker_rel (mkBroker (Some (mkActive t true)) (next_token st)) (fst pr, Some (t, true)).
Proof.
  intros (Ha & Hl & Hn) Hact. destruct pr as [last cur]. cbn in *. rewrite Hact in Ha. by subst.
Qed.

Lemma finish_token_spec st pr t r st' :
  broker_rel st pr -> finish_token st t = (r, st') ->
  match r with
  | Some c => pr = (fst pr, Some (t, c)) /\ broker_rel st' (fst pr, None)
  | None => st' = st
  end.
Proof.
  intros (Ha & Hl & Hn) H. unfold finish_token in H.
  destruct (active st) as [[t' c]|] eqn:Hact; [|by simplify_eq]. cbn in H.
  destruct (t' =? t) eqn:Ht; b2p; cbn in H; simplify_eq; [|done].
  destruct pr as [last cur]. cbn in *. by subst.
Qed.

(** A step shows nothing and keeps the progress, or makes one move. *)
Lemma broker_step_contract st pr e ms st' :
  broker_rel st pr -> broker_step st e = (ms, st') ->
  (ms = [] /\ broker_rel st' pr) \/
  (exists m pr', ms = [m] /\ move pr m pr' /\ broker_rel st' pr').
Proof.
  intros Hrel H. destruct e as [peer pol pk b|peer|peer b|t b|t r]; cbn in H.
  - destruct (handle_packet_with_cancellation _ _ _ _ _ _) as [[d s2] w2] eqn:Hh. simplify_eq.
    apply handle_packet_spec in Hh as [[-> ->]|[[-> Hh]|(_ & u & p & c & Hs & Ha)]]; [by left| |].
    + apply cancel_for_root_spec in Hh as [[-> ->]|(-> & Hr & t & c & Hact & ->)]; [by left|right].
      destruct (rel_cancel _ _ _ _ Hrel Hact) as [-> Hrel'].
      do 2 eexists. split_and!; [done|by constructor|done].
    + apply (start_operation_spec _ _ _ _ _ _ _ Hrel) in Hs
        as [(r & Hr & -> & ->)|(t & -> & -> & Ht & Hrel')]; [left; by destruct r|right].
      do 2 eexists. split_and!; [done|by apply move_start|done].
  - destruct (enroll_without_owner _ _) as [d s2] eqn:Hh. simplify_eq.
    unfold enroll_without_owner, candidate_new in Hh.
    destruct (negb _) eqn:Hf; b2p; [simplify_eq; by left|].
    destruct (_ =? _) eqn:H0; b2p; [simplify_eq; by left|].
    apply (start_operation_spec _ _ _ _ _ _ _ Hrel) in Hh
      as [(r & Hr & -> & ->)|(t & -> & -> & Ht & Hrel')]; [left; by destruct r|right].
    do 2 eexists. split_and!; [done|by apply move_start|done].
  - destruct (cancel_without_owner _ _ _ _) as [[d s2] w2] eqn:Hh. simplify_eq.
    apply cancel_for_root_spec in Hh as [[-> ->]|(-> & Hr & t & c & Hact & ->)]; [by left|right].
    destruct (rel_cancel _ _ _ _ Hrel Hact) as [-> Hrel'].
    do 2 eexists. split_and!; [done|by constructor|done].
  - destruct (client_disconnected _ _ _ _) as [[d s2] w2] eqn:Hh. simplify_eq.
    apply cancel_token_spec in Hh as [[-> ->]|(-> & c & Hact & ->)]; [by left|right].
    destruct (rel_cancel _ _ _ _ Hrel Hact) as [-> Hrel'].
    do 2 eexists. split_and!; [done|by constructor|done].
  - unfold finish in H. destruct (finish_token st t) as [o s2] eqn:Hf.
    pose proof (finish_token_spec _ _ _ _ _ Hrel Hf) as Hs. destruct o as [c|]; simplify_eq.
    + destruct Hs as [-> Hrel']. right. do 2 eexists. split_and!; [done|apply move_finish|done].
    + by left.
Qed.

Lemma broker_run_contract st pr es :
  broker_rel st pr -> contract pr (fst (broker_run st es)).
Proof.
  revert st pr. induction es as [|e es IH]; intros st pr Hrel; cbn; [constructor|].
  destruct (broker_step st e) as [ms st'] eqn:Hs.
  destruct (broker_step_contract _ _ _ _ _ Hrel Hs) as [[-> Hrel']|(m & pr' & -> & Hm & Hrel')];
    specialize (IH st' _ Hrel'); destruct (broker_run st' es); cbn in *; [done|].
  by eapply contract_cons.
Qed.

Lemma broker_default_rel : broker_rel broker_default (0, None).
Proof. unfold broker_rel; cbn. split_and!; [done|done|right; done]. Qed.

(** C1. The broker keeps its contract on every sequence of packets, owner-less
    enrollments and cancellations, disconnects and completions: it runs one
    operation at a time; an operation is started only for a local peer that is
    root or the enrollment owner (enrollment only for a non-root peer, which
    becomes the owner candidate), with a token above every earlier one; only
    root, or the loss of the requesting client, cancels it; and it completes
    with OKAY exactly for a match that was not cancelled. *)
Theorem broker_keeps_contract es : contract (0, None) (fst (broker_run broker_default es)).
Proof. apply broker_run_contract, broker_default_rel. Qed.

Definition started_tokens (ms : list milestone) : list OperationToken :=
  omap (fun m => match m with Started _ op => Some (op_token op) | _ => None end) ms.

Lemma contract_tokens pr ms :
  contract pr ms ->
  Forall (fun t => fst pr < t <= umax 64) (started_tokens ms) /\ NoDup (started_tokens ms).
Proof.
  induction 1 as [|pr m pr' ms Hm _ [IH1 IH2]]; cbn; [by repeat constructor|].
  destruct Hm as [last o op Ht _| |]; cbn in *; try done.
  split; [constructor; [done|]|constructor; [|done]].
  - eapply Forall_impl; [done|]. cbn. lia.
  - intros Hin. rewrite Forall_forall in IH1. specialize (IH1 _ Hin). cbn in IH1. lia.
Qed.

(** An operation token is never issued twice, also across the exhaustion of
    the 64-bit counter, after which nothing starts. *)
Theorem tokens_never_reused es : NoDup (started_tokens (fst (broker_run broker_default es))).
Proof. eapply contract_tokens, broker_run_contract, broker_default_rel. Qed.

Lemma contract_okay pr ms pre t result post :
  contract pr ms -> ms = pre ++ Completed t result Response.Okay :: post ->
  result = OperationResult.Matched /\
  ((pre = [] /\ snd pr = Some (t, false)) \/
   exists pre' o op, pre = pre' ++ [Started o op] /\ op_token op = t /\ start_allowed o op).
Proof.
  intros Hc. revert pre. induction Hc as [|pr m pr' ms Hm _ IH]; intros pre Hms; [by destruct pre|].
  destruct pre as [|m' pre]; simplify_eq/=.
  - inversion Hm as [| |last t' c r]; subst. destruct c; [done|]. cbn in *.
    case_bool_decide; [|done]. split; [done|]. by left.
  - destruct (IH pre eq_refl) as [-> [[-> Hsnd]|(pre' & o' & op' & -> & ? & ?)]]; split; try done; right.
    + inversion Hm; subst; simplify_eq/=. by exists [], o, op.
    + by exists (m' :: pre'), o', op'.
Qed.

(** C2. OKAY means an uncancelled match of the very operation that was asked
    for: whenever the broker completes an operation with OKAY, the hardware
    reported a match and the last thing the broker did before was to start that
    operation for an allowed peer, so no cancellation and no other operation
    came in between. *)
Theorem okay_means_uncancelled_match es pre t result post :
  fst (broker_run broker_default es) = pre ++ Completed t result Response.Okay :: post ->
  result = OperationResult.Matched /\
  exists pre' o op, pre = pre' ++ [Started o op] /\ op_token op = t /\ start_allowed o op.
Proof.
  intros H. pose proof (broker_run_contract _ _ es broker_default_rel) as Hc.
  destruct (contract_okay _ _ _ _ _ _ Hc H) as [? [[_ ?]|?]]; done.
Qed.

Definition ex_owner : PeerMetadata := mkPeer Local 1000 1000.
Definition ex_policy : AccessPolicy := mkPolicy 1000.
Definition ex_operation : Operation := mkOperation 1 501 Purpose.Approve None.

Lemma okay_means_uncancelled_match_witness :
  OperationResult.Matched = OperationResult.Matched /\
  exists pre' o op, [Started (ByPacket ex_owner ex_policy APPROVE_REQUEST) ex_operation] =
    pre' ++ [Started o op] /\ op_token op = 1 /\ start_allowed o op.
Proof.
  apply (okay_means_uncancelled_match
    [PacketFrom ex_owner ex_policy APPROVE_REQUEST true;
     PacketFrom ex_owner ex_policy AUTHENTICATE_REQUEST true;
     PacketFrom ex_owner ex_policy CANCEL_REQUEST true;
     Finished 1 OperationResult.Matched] _ 1 _ []).
  vm_compute. reflexivity.
Defined.

(** A refused request leaves no trace: whatever the broker answers other
    than a start or an accepted cancellation, its state is the one before, and
    an unauthorized peer does not even reach the cancellation callback. *)
Theorem refusal_changes_nothing {W} st peer policy packet deliver (w w' : W) r st' :
  handle_packet_with_cancellation st peer policy packet deliver w = (Reply r, st', w') ->
  r <> Response.Okay ->
  st' = st /\ (peer_is_authorized policy peer = false -> r = Response.Denied /\ w' = w).
Proof.
  intros H Hr. split.
  - apply handle_packet_spec in H as [[_ ->]|[[_ H]|(_ & u & p & c & Hs & _)]]; [done| |].
    + apply cancel_for_root_spec in H as [[_ ->]|([= ->] & _)]; done.
    + unfold start_operation, start_token in Hs. by repeat case_match; simplify_eq.
  - unfold peer_is_authorized, handle_packet_with_cancellation in *.
    destruct (biometric_user_for _ _); [done|]. intros _. by simplify_eq.
Qed.

Lemma refusal_changes_nothing_witness :
  broker_default = broker_default /\
  (peer_is_authorized ex_policy (mkPeer Local 77 77) = false ->
   Response.Denied = Response.Denied /\ tt = tt).
Proof.
  apply (refusal_changes_nothing broker_default (mkPeer Local 77 77) ex_policy
    AUTHENTICATE_REQUEST (fun _ w => (true, w)) tt tt Response.Denied); done.
Defined.

(** The client's watchdog is set exactly for a match window of more than
    zero and at most thirty seconds, and is then the window plus the
    thirty-five seconds of setup, without overflow. *)
Lemma client_watchdog_spec timeout d :
  0 <= timeout <= duration_max ->
  client_watchdog timeout = Ok d <->
  0 < timeout <= from_secs 30 /\ d = timeout + from_secs 35 /\ d <= from_secs 65.
Proof.
  intros Ht. unfold client_watchdog, validate_match_timeout, MAX_MATCH_TIMEOUT, SETUP_ALLOWANCE.
  assert (from_secs 65 < duration_max) as Hm by (vm_compute; done).
  unfold from_secs, NANOS_PER_SEC in *. destruct (_ || _) eqn:Hb.
  - split; [done|]. lia.
  - unfold duration_checked_add. destruct (_ <=? _) eqn:Hle; b2p; [|lia]. cbn. split.
    + intros. simplify_eq. lia.
    + intros (? & -> & ?). done.
Qed.

End AuthProtocol.
