(* ===== verification/StandardProtocol.v ===== *)
(** * The standard fingerprint protocol
    ([crates/t1-daemons/src/standard_fingerprint_protocol.rs])

    The packets between fingerprint clients and the broker: a twelve-byte
    big-endian header and a payload read with a cursor. The value types with
    private fields ([Username], [IdentityId], [Capabilities], ...) are modelled
    with their constructors; a well-formed value is one those accept. Both
    codecs are shown to be exact. *)

From S2P Require Import Prelude Text.

Module StandardProtocol.

Definition HEADER_SIZE : nat := 12.
Definition MAX_PACKET_SIZE : Z := 1024.
Definition MAX_USERNAME_SIZE : Z := 255.
Definition MAX_IDENTITIES : Z := 5.
Definition MAX_OWNER_IDENTITIES : Z := 3.
Definition MAX_ENROLL_STAGES : Z := 100.

(** [b"T1FP"]. *)
Definition MAGIC : bytes := [84; 49; 70; 80].
Definition VERSION : Z := 1.
Definition RESERVED : Z := 0.

Definition CLIENT_CAPABILITIES : Z := 0x01.
Definition CLIENT_OPEN : Z := 0x02.
Definition CLIENT_LIST : Z := 0x03.
Definition CLIENT_ENROLL : Z := 0x04.
Definition CLIENT_VERIFY : Z := 0x05.
Definition CLIENT_IDENTIFY : Z := 0x06.
Definition CLIENT_DELETE : Z := 0x07.
Definition CLIENT_CANCEL : Z := 0x08.

Definition SERVER_CAPABILITIES : Z := 0x81.
Definition SERVER_OPENED : Z := 0x82.
Definition SERVER_IDENTITIES : Z := 0x83.
Definition SERVER_ENROLL_PROGRESS : Z := 0x84.
Definition SERVER_TERMINAL : Z := 0x85.

Inductive ProtocolError : Type :=
| WrongLength | PacketTooLarge | BadMagic | UnsupportedVersion | UnsupportedType
| NonzeroReserved | PayloadLengthMismatch | InvalidUsername | InvalidFingerLabel
| InvalidIdentity | InvalidCapabilities | InvalidRange | InvalidPayload.

(** A string, as its UTF-8 bytes. *)
Record Username : Type := mkUsername { as_str : bytes }.

(** [Username::new]. *)
Definition username_new (value : bytes) : res ProtocolError Username :=
  if (len value =? 0) || (MAX_USERNAME_SIZE <? len value) || bool_decide (0 ∈ value)
  then Err InvalidUsername else Ok (mkUsername value).

(** Sixteen bytes. *)
Record IdentityId : Type := mkIdentityId { id_bytes : bytes }.

(** [IdentityId::new]. *)
Definition identity_new (l : bytes) : res ProtocolError IdentityId :=
  if bool_decide (l = replicate 16 0) then Err InvalidIdentity else Ok (mkIdentityId l).

#[global] Instance Username_eq_dec : EqDecision Username.
Proof. solve_decision. Defined.
#[global] Instance IdentityId_eq_dec : EqDecision IdentityId.
Proof. solve_decision. Defined.

Module FingerLabel.
Inductive t : Type :=
| LeftThumb | LeftIndex | LeftMiddle | LeftRing | LeftLittle
| RightThumb | RightIndex | RightMiddle | RightRing | RightLittle.

#[global] Instance FingerLabel_eq_dec : EqDecision t.
Proof. solve_decision. Defined.

(** [*finger as u8]. *)
Definition value (f : t) : Z :=
  match f with
  | LeftThumb => 1 | LeftIndex => 2 | LeftMiddle => 3 | LeftRing => 4 | LeftLittle => 5
  | RightThumb => 6 | RightIndex => 7 | RightMiddle => 8 | RightRing => 9 | RightLittle => 10
  end.

(** [FingerLabel::decode]. *)
Definition decode (v : Z) : res ProtocolError t :=
  match v with
  | 1 => Ok LeftThumb | 2 => Ok LeftIndex | 3 => Ok LeftMiddle | 4 => Ok LeftRing
  | 5 => Ok LeftLittle | 6 => Ok RightThumb | 7 => Ok RightIndex | 8 => Ok RightMiddle
  | 9 => Ok RightRing | 10 => Ok RightLittle
  | _ => Err InvalidFingerLabel
  end.
End FingerLabel.

Record Identity : Type := mkIdentity { id : IdentityId; finger : FingerLabel.t }.

Module CapabilitySet.
(** A [u16] of capability bits. *)
Definition t : Type := Z.
Definition LIST : t := 1.
Definition ENROLL : t := 2.
Definition VERIFY : t := 4.
Definition IDENTIFY : t := 8.
Definition DELETE : t := 16.
Definition CANCEL : t := 32.
Definition KNOWN_BITS : Z :=
  Z.lor LIST (Z.lor ENROLL (Z.lor VERIFY (Z.lor IDENTIFY (Z.lor DELETE CANCEL)))).
Definition IDENTITY_OPERATION_BITS : Z :=
  Z.lor LIST (Z.lor ENROLL (Z.lor VERIFY (Z.lor IDENTIFY DELETE))).

(** [CapabilitySet::from_bits]; [!x] at [u16] is [0xffff ^ x]. *)
Definition from_bits (bits : Z) : res ProtocolError t :=
  if Z.land bits (Z.lxor 0xffff KNOWN_BITS) =? 0 then Ok bits else Err InvalidCapabilities.

(** [CapabilitySet::contains]. *)
Definition contains (self capability : t) : bool := Z.land self capability =? capability.

(** [impl BitOr for CapabilitySet]. *)
Definition bitor (self rhs : t) : t := Z.lor self rhs.
End CapabilitySet.

Record Capabilities : Type := mkCapabilities {
  operations : CapabilitySet.t;
  max_enroll_stages : Z;
  max_identities : Z;
}.

(** [Capabilities::new]. *)
Definition capabilities_new (ops : CapabilitySet.t) (max_enroll_stages max_identities : Z)
    : res ProtocolError Capabilities :=
  let enrollment := CapabilitySet.contains ops CapabilitySet.ENROLL in
  let identity_operations :=
    negb (Z.land ops CapabilitySet.IDENTITY_OPERATION_BITS =? 0) in
  if (MAX_ENROLL_STAGES <? max_enroll_stages)
     || negb (Bool.eqb enrollment (negb (max_enroll_stages =? 0)))
     || (MAX_IDENTITIES <? max_identities)
     || negb (Bool.eqb identity_operations (negb (max_identities =? 0)))
  then Err InvalidCapabilities else Ok (mkCapabilities ops max_enroll_stages max_identities).

Record EnrollProgress : Type := mkProgress { completed_stage : Z; total_stages : Z }.

(** [EnrollProgress::new]. *)
Definition progress_new (completed_stage total_stages : Z) : res ProtocolError EnrollProgress :=
  if (completed_stage =? 0) || (total_stages =? 0) || (total_stages <? completed_stage)
     || (MAX_ENROLL_STAGES <? total_stages)
  then Err InvalidRange else Ok (mkProgress completed_stage total_stages).

Module ClientMessage.
Inductive t : Type :=
| GetCapabilities
| Open
| ListIdentities
| Enroll (username : Username) (finger : FingerLabel.t)
| Verify (username : Username) (identity : IdentityId)
| Identify (username : Username)
| DeleteIdentity (username : Username) (identity : IdentityId)
| Cancel.
End ClientMessage.

Module OperationKind.
Inductive t : Type := ListIdentities | Enroll | Verify | Identify | DeleteIdentity.

#[global] Instance OperationKind_eq_dec : EqDecision t.
Proof. solve_decision. Defined.
End OperationKind.

Module ConnectionAction.
Inductive t : Type := QueryCapabilities | Open | Start (k : OperationKind.t) | CancelActive.
End ConnectionAction.

(** [ClientMessage::connection_action]. *)
Definition connection_action (m : ClientMessage.t) : ConnectionAction.t :=
  match m with
  | ClientMessage.GetCapabilities => ConnectionAction.QueryCapabilities
  | ClientMessage.Open => ConnectionAction.Open
  | ClientMessage.ListIdentities => ConnectionAction.Start OperationKind.ListIdentities
  | ClientMessage.Enroll _ _ => ConnectionAction.Start OperationKind.Enroll
  | ClientMessage.Verify _ _ => ConnectionAction.Start OperationKind.Verify
  | ClientMessage.Identify _ => ConnectionAction.Start OperationKind.Identify
  | ClientMessage.DeleteIdentity _ _ => ConnectionAction.Start OperationKind.DeleteIdentity
  | ClientMessage.Cancel => ConnectionAction.CancelActive
  end.

Module TerminalOutcome.
Inductive t : Type :=
| Completed | Enrolled (i : IdentityId) | Matched (i : IdentityId) | NoMatch | Cancelled
| DeviceLost | Busy | SecondOwner | Unsupported | Duplicate | CapacityFull | Error.
End TerminalOutcome.

Module ServerMessage.
Inductive t : Type :=
| Capabilities (c : Capabilities)
| Opened
| IdentityList (owner : option Username) (identities : list Identity)
| EnrollProgress (p : EnrollProgress)
| Terminal (o : TerminalOutcome.t).

(** [ServerMessage::is_terminal]. *)
Definition is_terminal (m : t) : bool :=
  match m with EnrollProgress _ => false | _ => true end.
End ServerMessage.

(** ** Packets *)

(** [u16::from_be_bytes([l[i], l[i + 1]])]. *)
Definition be_u16 (l : bytes) (i : nat) : res ProtocolError Z :=
  let! a := byte_at l i in
  let! b := byte_at l (i + 1) in
  Ok (be_val [a; b]).

(** [encode_packet]. *)
Definition encode_packet (message_type : Z) (payload : bytes) : res ProtocolError bytes :=
  let! packet_size := ok_or (checked_add 64 (Z.of_nat HEADER_SIZE) (len payload)) PacketTooLarge in
  if MAX_PACKET_SIZE <? packet_size then Err PacketTooLarge
  else
    let! payload_length := ok_or (try_from_u 16 (len payload)) PacketTooLarge in
    Ok (MAGIC ++ [VERSION; message_type] ++ be_bytes 2 RESERVED ++ be_bytes 2 payload_length ++
        be_bytes 2 RESERVED ++ payload).

(** [decode_packet]. *)
Definition decode_packet (packet : bytes) : res ProtocolError (Z * bytes) :=
  if len packet <? Z.of_nat HEADER_SIZE then Err WrongLength
  else if MAX_PACKET_SIZE <? len packet then Err PacketTooLarge
  else
    let! magic := slice packet 0 4 in
    if negb (bool_decide (magic = MAGIC)) then Err BadMagic
    else
      let! version := byte_at packet 4 in
      if negb (version =? VERSION) then Err UnsupportedVersion
      else
        let! r1 := be_u16 packet 6 in
        let! r2 := be_u16 packet 10 in
        if negb (r1 =? RESERVED) || negb (r2 =? RESERVED) then Err NonzeroReserved
        else
          let! payload_length := be_u16 packet 8 in
          if negb (payload_length =? len packet - Z.of_nat HEADER_SIZE)
          then Err PayloadLengthMismatch
          else
            let! message_type := byte_at packet 5 in
            let! payload := slice_from packet HEADER_SIZE in
            Ok (message_type, payload).

(** ** Payload cursor: the new position is returned *)

(** [take_byte]. *)
Definition take_byte (payload : bytes) (cursor : nat) : res ProtocolError (Z * nat) :=
  let! value := ok_or (payload !! cursor) InvalidPayload in
  Ok (value, (cursor + 1)%nat).

(** [take_slice]. *)
Definition take_slice (payload : bytes) (cursor length : nat)
    : res ProtocolError (bytes * nat) :=
  let! e := ok_or (checked_add 64 (Z.of_nat cursor) (Z.of_nat length)) InvalidPayload in
  let e := Z.to_nat e in
  if (cursor <=? e)%nat && (e <=? List.length payload)%nat
  then Ok (take (e - cursor) (drop cursor payload), e) else Err InvalidPayload.

(** [require_empty]. *)
Definition require_empty (payload : bytes) : res ProtocolError () :=
  match payload with [] => Ok () | _ => Err InvalidPayload end.

(** [encode_username]; the [expect] is a panic. *)
Definition encode_username (u : Username) : res ProtocolError bytes :=
  match try_from_u 8 (len (as_str u)) with
  | Some n => Ok ([n] ++ as_str u)
  | None => Panic
  end.

(** [decode_username]. *)
Definition decode_username (payload : bytes) (cursor : nat)
    : res ProtocolError (Username * nat) :=
  let! (length, cursor) := take_byte payload cursor in
  let! (l, cursor) := take_slice payload cursor (Z.to_nat length) in
  let! value := ok_or (Text.from_utf8 l) InvalidUsername in
  let! u := username_new value in
  Ok (u, cursor).

(** [decode_identity]; the slice has sixteen bytes, so [try_into] succeeds. *)
Definition decode_identity (payload : bytes) (cursor : nat)
    : res ProtocolError (IdentityId * nat) :=
  let! (l, cursor) := take_slice payload cursor 16 in
  let! i := (if (length l =? 16)%nat then identity_new l else Err InvalidIdentity) in
  Ok (i, cursor).

(** The duplicate check of [validate_identity_list]. *)
Fixpoint check_identities (before identities : list Identity) : res ProtocolError () :=
  match identities with
  | [] => Ok ()
  | i :: identities =>
      if existsb (fun earlier => bool_decide (id earlier = id i)) before
      then Err InvalidIdentity else check_identities (before ++ [i]) identities
  end.

(** [validate_identity_list]. *)
Definition validate_identity_list (owner : option Username) (identities : list Identity)
    : res ProtocolError () :=
  if MAX_IDENTITIES <? len identities then Err InvalidRange
  else if Bool.eqb (match owner with Some _ => true | None => false end)
                   (match identities with [] => true | _ => false end)
  then Err InvalidPayload
  else check_identities [] identities.

(** ** Messages *)

(** [encode_client]. *)
Definition encode_client (m : ClientMessage.t) : res ProtocolError bytes :=
  let! (message_type, payload) :=
    match m with
    | ClientMessage.GetCapabilities => Ok (CLIENT_CAPABILITIES, [])
    | ClientMessage.Open => Ok (CLIENT_OPEN, [])
    | ClientMessage.ListIdentities => Ok (CLIENT_LIST, [])
    | ClientMessage.Enroll username finger =>
        let! u := encode_username username in
        Ok (CLIENT_ENROLL, u ++ [FingerLabel.value finger])
    | ClientMessage.Verify username i =>
        let! u := encode_username username in
        Ok (CLIENT_VERIFY, u ++ id_bytes i)
    | ClientMessage.Identify username =>
        let! u := encode_username username in
        Ok (CLIENT_IDENTIFY, u)
    | ClientMessage.DeleteIdentity username i =>
        let! u := encode_username username in
        Ok (CLIENT_DELETE, u ++ id_bytes i)
    | ClientMessage.Cancel => Ok (CLIENT_CANCEL, [])
    end in
  encode_packet message_type payload.

(** The [match message_type] of [decode_client], with the cursor it leaves. *)
Definition decode_client_payload (message_type : Z) (payload : bytes)
    : res ProtocolError (ClientMessage.t * nat) :=
  if message_type =? CLIENT_CAPABILITIES then
    let! _ := require_empty payload in Ok (ClientMessage.GetCapabilities, 0%nat)
  else if message_type =? CLIENT_OPEN then
    let! _ := require_empty payload in Ok (ClientMessage.Open, 0%nat)
  else if message_type =? CLIENT_LIST then
    let! _ := require_empty payload in Ok (ClientMessage.ListIdentities, 0%nat)
  else if message_type =? CLIENT_ENROLL then
    let! (username, cursor) := decode_username payload 0 in
    let! (b, cursor) := take_byte payload cursor in
    let! finger := FingerLabel.decode b in
    Ok (ClientMessage.Enroll username finger, cursor)
  else if message_type =? CLIENT_VERIFY then
    let! (username, cursor) := decode_username payload 0 in
    let! (i, cursor) := decode_identity payload cursor in
    Ok (ClientMessage.Verify username i, cursor)
  else if message_type =? CLIENT_IDENTIFY then
    let! (username, cursor) := decode_username payload 0 in
    Ok (ClientMessage.Identify username, cursor)
  else if message_type =? CLIENT_DELETE then
    let! (username, cursor) := decode_username payload 0 in
    let! (i, cursor) := decode_identity payload cursor in
    Ok (ClientMessage.DeleteIdentity username i, cursor)
  else if message_type =? CLIENT_CANCEL then
    let! _ := require_empty payload in Ok (ClientMessage.Cancel, 0%nat)
  else Err UnsupportedType.

(** [decode_client]. *)
Definition decode_client (packet : bytes) : res ProtocolError ClientMessage.t :=
  let! (message_type, payload) := decode_packet packet in
  let! (message, cursor) := decode_client_payload message_type payload in
  if negb (cursor =? length payload)%nat then Err InvalidPayload else Ok message.

(** The bytes of one listed identity. *)
Definition identity_bytes (i : Identity) : bytes := id_bytes (id i) ++ [FingerLabel.value (finger i)].

(** The [match outcome] of [encode_server]. *)
Definition outcome_bytes (o : TerminalOutcome.t) : bytes :=
  match o with
  | TerminalOutcome.Completed => [1]
  | TerminalOutcome.Enrolled i => 2 :: id_bytes i
  | TerminalOutcome.Matched i => 3 :: id_bytes i
  | TerminalOutcome.NoMatch => [4]
  | TerminalOutcome.Cancelled => [5]
  | TerminalOutcome.DeviceLost => [6]
  | TerminalOutcome.Busy => [7]
  | TerminalOutcome.SecondOwner => [8]
  | TerminalOutcome.Unsupported => [9]
  | TerminalOutcome.Error => [10]
  | TerminalOutcome.Duplicate => [11]
  | TerminalOutcome.CapacityFull => [12]
  end.

(** [encode_server]. *)
Definition encode_server (m : ServerMessage.t) : res ProtocolError bytes :=
  let! (message_type, payload) :=
    match m with
    | ServerMessage.Capabilities c =>
        Ok (SERVER_CAPABILITIES,
            be_bytes 2 (operations c) ++ [max_enroll_stages c; max_identities c])
    | ServerMessage.Opened => Ok (SERVER_OPENED, [])
    | ServerMessage.IdentityList owner identities =>
        let! _ := validate_identity_list owner identities in
        let! count := ok_or (try_from_u 8 (len identities)) InvalidRange in
        let! o := match owner with Some u => encode_username u | None => Ok [] end in
        Ok (SERVER_IDENTITIES, [count] ++ o ++ concat (identity_bytes <$> identities))
    | ServerMessage.EnrollProgress p =>
        Ok (SERVER_ENROLL_PROGRESS, [completed_stage p; total_stages p])
    | ServerMessage.Terminal outcome => Ok (SERVER_TERMINAL, outcome_bytes outcome)
    end in
  encode_packet message_type payload.

(** The identity loop of [decode_server]. *)
Fixpoint decode_identities (payload : bytes) (cursor count : nat)
    : res ProtocolError (list Identity * nat) :=
  match count with
  | O => Ok ([], cursor)
  | S count =>
      let! (i, cursor) := decode_identity payload cursor in
      let! (b, cursor) := take_byte payload cursor in
      let! f := FingerLabel.decode b in
      let! (identities, cursor) := decode_identities payload cursor count in
      Ok (mkIdentity i f :: identities, cursor)
  end.

(** The [match code] of [decode_server]. *)
Definition decode_outcome (payload : bytes) (cursor : nat) (code : Z)
    : res ProtocolError (TerminalOutcome.t * nat) :=
  match code with
  | 1 => Ok (TerminalOutcome.Completed, cursor)
  | 2 =>
      let! (i, cursor) := decode_identity payload cursor in
      Ok (TerminalOutcome.Enrolled i, cursor)
  | 3 =>
      let! (i, cursor) := decode_identity payload cursor in
      Ok (TerminalOutcome.Matched i, cursor)
  | 4 => Ok (TerminalOutcome.NoMatch, cursor)
  | 5 => Ok (TerminalOutcome.Cancelled, cursor)
  | 6 => Ok (TerminalOutcome.DeviceLost, cursor)
  | 7 => Ok (TerminalOutcome.Busy, cursor)
  | 8 => Ok (TerminalOutcome.SecondOwner, cursor)
  | 9 => Ok (TerminalOutcome.Unsupported, cursor)
  | 10 => Ok (TerminalOutcome.Error, cursor)
  | 11 => Ok (TerminalOutcome.Duplicate, cursor)
  | 12 => Ok (TerminalOutcome.CapacityFull, cursor)
  | _ => Err InvalidPayload
  end.

(** The [match message_type] of [decode_server], with the cursor it leaves. *)
Definition decode_server_payload (message_type : Z) (payload : bytes)
    : res ProtocolError (ServerMessage.t * nat) :=
  if message_type =? SERVER_CAPABILITIES then
    if negb (len payload =? 4) then Err InvalidPayload
    else
      let! bits := be_u16 payload 0 in
      let! ops := CapabilitySet.from_bits bits in
      let cursor := length payload in
      let! stages := byte_at payload 2 in
      let! ids := byte_at payload 3 in
      let! c := capabilities_new ops stages ids in
      Ok (ServerMessage.Capabilities c, cursor)
  else if message_type =? SERVER_OPENED then
    let! _ := require_empty payload in Ok (ServerMessage.Opened, 0%nat)
  else if message_type =? SERVER_IDENTITIES then
    let! (count, cursor) := take_byte payload 0 in
    if MAX_IDENTITIES <? count then Err InvalidPayload
    else
      let! (owner, cursor) :=
        (if count =? 0 then Ok (None, cursor)
         else let! (u, cursor) := decode_username payload cursor in Ok (Some u, cursor)) in
      let! (identities, cursor) := decode_identities payload cursor (Z.to_nat count) in
      let! _ := validate_identity_list owner identities in
      Ok (ServerMessage.IdentityList owner identities, cursor)
  else if message_type =? SERVER_ENROLL_PROGRESS then
    if negb (len payload =? 2) then Err InvalidPayload
    else
      let cursor := length payload in
      let! a := byte_at payload 0 in
      let! b := byte_at payload 1 in
      let! p := progress_new a b in
      Ok (ServerMessage.EnrollProgress p, cursor)
  else if message_type =? SERVER_TERMINAL then
    let! (code, cursor) := take_byte payload 0 in
    let! (outcome, cursor) := decode_outcome payload cursor code in
    Ok (ServerMessage.Terminal outcome, cursor)
  else Err UnsupportedType.

(** [decode_server]. *)
Definition decode_server (packet : bytes) : res ProtocolError ServerMessage.t :=
  let! (message_type, payload) := decode_packet packet in
  let! (message, cursor) := decode_server_payload message_type payload in
  if negb (cursor =? length payload)%nat then Err InvalidPayload else Ok message.

(** ** Well-formed values: what the constructors accept *)

Definition username_wf (u : Username) : Prop :=
  bytes_ok (as_str u) /\ Text.utf8_valid (as_str u) = true /\
  1 <= len (as_str u) <= 255 /\ 0 ∉ as_str u.

Definition identity_wf (i : IdentityId) : Prop :=
  bytes_ok (id_bytes i) /\ length (id_bytes i) = 16%nat /\ id_bytes i <> replicate 16 0.

Definition capabilities_wf (c : Capabilities) : Prop :=
  is_u 16 (operations c) /\ is_u 8 (max_enroll_stages c) /\ is_u 8 (max_identities c) /\
  CapabilitySet.from_bits (operations c) = Ok (operations c) /\
  capabilities_new (operations c) (max_enroll_stages c) (max_identities c) = Ok c.

Definition progress_wf (p : EnrollProgress) : Prop :=
  1 <= completed_stage p <= total_stages p /\ total_stages p <= 100.

Definition client_wf (m : ClientMessage.t) : Prop :=
  match m with
  | ClientMessage.Enroll u _ | ClientMessage.Identify u => username_wf u
  | ClientMessage.Verify u i | ClientMessage.DeleteIdentity u i => username_wf u /\ identity_wf i
  | _ => True
  end.

Definition outcome_wf (o : TerminalOutcome.t) : Prop :=
  match o with
  | TerminalOutcome.Enrolled i | TerminalOutcome.Matched i => identity_wf i
  | _ => True
  end.

Definition server_wf (m : ServerMessage.t) : Prop :=
  match m with
  | ServerMessage.Capabilities c => capabilities_wf c
  | ServerMessage.Opened => True
  | ServerMessage.IdentityList owner ids =>
      match owner with Some u => username_wf u | None => True end /\
      Forall (fun i => identity_wf (id i)) ids
  | ServerMessage.EnrollProgress p => progress_wf p
  | ServerMessage.Terminal o => outcome_wf o
  end.

(** ** Packets *)

Lemma be_bytes_2 v : be_bytes 2 v = [(v / 256) mod 256; v mod 256].
Proof. reflexivity. Qed.

Lemma be_val_2 a b : be_val [a; b] = a * 256 + b.
Proof. unfold be_val. cbn [rev app]. rewrite le_val_2. lia. Qed.

Lemma encode_packet_Ok t payload bs :
  encode_packet t payload = Ok bs <->
  len payload <= 1012 /\
  bs = MAGIC ++ [VERSION; t; 0; 0; (len payload / 256) mod 256; len payload mod 256; 0; 0] ++ payload.
Proof.
  unfold encode_packet, HEADER_SIZE, MAX_PACKET_SIZE. unfold checked_add.
  destruct (_ <=? _) eqn:H1; b2p; cbn [ok_or].
  - destruct (1024 <? _) eqn:H2; b2p; [split; [done|lia]|].
    rewrite try_from_ok by u_range. rewrite be_bytes_2.
    split; [intros; simplify_eq; split; [lia|done]|by intros [_ ->]].
  - split; [done|]. change (umax 64) with 18446744073709551615 in H1. lia.
Qed.

Lemma decode_packet_iff bs t payload :
  bytes_ok bs ->
  decode_packet bs = Ok (t, payload) <->
  is_u 8 t /\ bytes_ok payload /\ encode_packet t payload = Ok bs.
Proof.
  intros Hb. rewrite encode_packet_Ok.
  unfold decode_packet, HEADER_SIZE, MAX_PACKET_SIZE, be_u16, MAGIC, VERSION, RESERVED. split.
  - intros H. destruct (len bs <? _) eqn:Hl; [done|]. b2p.
    do 12 (destruct bs as [|? bs]; [cbn in Hl; lia|]).
    repeat rewrite ?byte_at_cons, ?byte_at_0, ?slice_from_cons, ?slice_from_0 in H.
    cbn [Nat.add] in H. repeat rewrite ?byte_at_cons, ?byte_at_0 in H.
    change (slice (z :: _) 0 4) with (Ok (E := ProtocolError) [z; z0; z1; z2]) in H.
    rewrite !be_val_2 in H. inv_ok H. b2p. simplify_eq.
    repeat (apply bytes_ok_cons in Hb as [? Hb]). unfold is_u in *. change (2 ^ 8) with 256 in *.
    rewrite !length_cons in *. split_and!; try lia; [done|].
    cbn [app]. repeat f_equal; try lia.
    + replace (len payload) with (z7 * 256 + z8) by lia.
      rewrite Z.add_comm, Z.div_add by lia. rewrite (Z.div_small z8) by lia.
      symmetry. apply Z.mod_small. lia.
    + replace (len payload) with (z7 * 256 + z8) by lia.
      rewrite Z.add_comm, Z_mod_plus_full. symmetry. apply Z.mod_small. lia.
  - intros (Ht & Hp & Hl & ->). cbn [app]. rewrite !length_cons.
    do 2 decide_if. change (slice (84 :: _) 0 4) with (Ok (E := ProtocolError) [84; 49; 70; 80]).
    cbn beta iota. rewrite bool_decide_eq_true_2 by done. cbn [negb Nat.add].
    repeat rewrite ?byte_at_cons, ?byte_at_0, ?slice_from_cons, ?slice_from_0. cbn [negb Z.eqb Pos.eqb].
    rewrite !be_val_2. change ((0 * 256 + 0 =? 0)) with true. cbn [negb orb].
    assert ((len payload / 256) mod 256 * 256 + len payload mod 256 = len payload) as ->.
    { rewrite (Z.mod_small (len payload / 256)).
      - pose proof (Z.div_mod (len payload) 256). lia.
      - split; [apply Z.div_pos; lia|apply Z.div_lt_upper_bound; lia]. }
    decide_if. done.
Qed.

(** ** The cursor *)

(** Between positions [c] and [c'] the payload holds [s]. *)
Definition holds (payload : bytes) (c : nat) (s : bytes) (c' : nat) : Prop :=
  drop c payload = s ++ drop c' payload /\ c' = (c + length s)%nat /\ (c' <= length payload)%nat.

Lemma holds_nil p c : (c <= length p)%nat -> holds p c [] c.
Proof. intros. split_and!; [done|cbn; lia|done]. Qed.

Lemma holds_app p c s1 s2 c'' :
  holds p c (s1 ++ s2) c'' <-> exists c', holds p c s1 c' /\ holds p c' s2 c''.
Proof.
  unfold holds. split.
  - intros (Hd & -> & Hl). exists (c + length s1)%nat. rewrite length_app in *.
    assert (drop (c + length s1) p = s2 ++ drop (c + (length s1 + length s2)) p) as H2.
    { rewrite <- drop_drop, Hd, <- app_assoc. apply drop_app_length. }
    split_and!; try lia; try done. by rewrite Hd, <- app_assoc, H2.
  - intros (c' & (H1 & -> & ?) & (H2 & -> & ?)). rewrite length_app.
    split_and!; try lia. by rewrite H1, H2, <- app_assoc.
Qed.

Lemma holds_all p s c : holds p 0 s c -> c = length p -> p = s.
Proof. intros (Hd & -> & _) Hc. rewrite Hc, drop_0, drop_all, app_nil_r in Hd. done. Qed.

Lemma holds_self p : holds p 0 p (length p).
Proof. split_and!; try lia. by rewrite drop_0, drop_all, app_nil_r. Qed.

Lemma take_byte_iff p c b c' : take_byte p c = Ok (b, c') <-> holds p c [b] c'.
Proof.
  unfold take_byte, holds. split.
  - intros H. destruct (p !! c) eqn:Hp; cbn in H; [|done]. simplify_eq.
    pose proof (lookup_lt_Some _ _ _ Hp). split_and!; [|done|lia].
    rewrite (drop_S p b c Hp). f_equal. f_equal. lia.
  - intros (Hd & -> & Hl). cbn in Hl. assert (p !! c = Some b) as ->.
    { rewrite <- (Nat.add_0_r c), <- lookup_drop, Hd. done. }
    done.
Qed.

Lemma take_slice_iff p c n s c' :
  (length p <= 1012)%nat ->
  take_slice p c n = Ok (s, c') <-> holds p c s c' /\ length s = n.
Proof.
  intros Hp. unfold take_slice, holds. split.
  - intros H. inv_ok H. apply ok_or_Some, checked_add_Some in Hr as [-> _]. b2p.
    replace (Z.to_nat (Z.of_nat c + Z.of_nat n)) with (c + n)%nat in * by lia.
    rewrite length_take, length_drop. replace (c + n - c)%nat with n by lia.
    split_and!; try lia. by rewrite <- drop_drop, take_drop.
  - intros ((Hd & -> & Hl) & <-). rewrite checked_add_ok by u_range.
    replace (Z.to_nat _) with (c + length s)%nat by lia.
    rewrite (proj2 (Nat.leb_le _ _)), (proj2 (Nat.leb_le _ _)) by lia. cbn [andb].
    replace (c + length s - c)%nat with (length s) by lia. by rewrite Hd, take_app_length.
Qed.

Lemma holds_bytes_ok p c s c' : bytes_ok p -> holds p c s c' -> bytes_ok s.
Proof.
  intros Hp (Hd & _). assert (bytes_ok (s ++ drop c' p)) as [? _]%bytes_ok_app; [|done].
  rewrite <- Hd. auto with t1.
Qed.

(** ** Values *)

Definition username_bytes (u : Username) : bytes := len (as_str u) :: as_str u.

Lemma encode_username_ok u : username_wf u -> encode_username u = Ok (username_bytes u).
Proof.
  intros (_ & _ & Hl & _). unfold encode_username.
  rewrite (proj2 (try_from_u_Some 8 _ (len (as_str u)))); [done|]. split; [u_range|done].
Qed.

Lemma username_new_Ok v u :
  username_new v = Ok u <-> u = mkUsername v /\ 1 <= len v <= 255 /\ 0 ∉ v.
Proof.
  unfold username_new, MAX_USERNAME_SIZE. destruct (_ || _) eqn:H; b2p.
  - split; [done|]. intros (_ & ? & ?). destruct H as [H|H]; b2p; [lia|done].
  - split; [intros; simplify_eq; split_and!; done || lia|]. by intros [-> _].
Qed.

Lemma decode_username_iff p c u c' :
  bytes_ok p -> (length p <= 1012)%nat ->
  decode_username p c = Ok (u, c') <-> username_wf u /\ holds p c (username_bytes u) c'.
Proof.
  intros Hb Hp. unfold decode_username. split.
  - intros H. inv_ok H. destruct a as [n c1]. inv_ok H. destruct a as [l c2]. inv_ok H.
    apply take_byte_iff in Hr. apply take_slice_iff in Hr0 as [Hr0 Hn]; [|done].
    apply ok_or_Some, Text.from_utf8_Some in Hr1 as [Hu ->].
    apply username_new_Ok in Hr2 as (-> & ? & ?).
    pose proof (holds_bytes_ok _ _ _ _ Hb Hr0). pose proof (holds_bytes_ok _ _ _ _ Hb Hr) as Hn8.
    apply bytes_ok_cons in Hn8 as [[? _] _].
    split; [done|]. unfold username_bytes; cbn. rewrite Hn, Z2Nat.id by done.
    apply (holds_app _ _ [n] l). eauto.
  - intros [(Hok & Hu & Hl & H0) H]. apply (holds_app _ _ [_]) in H as (c1 & H1 & H2).
    rewrite (proj2 (take_byte_iff _ _ _ _) H1). destruct u as [v]; cbn in *.
    rewrite (proj2 (take_slice_iff p c1 _ v c' Hp)) by (split; [done|lia]).
    unfold Text.from_utf8. rewrite Hu. cbn.
    by rewrite (proj2 (username_new_Ok v (mkUsername v))).
Qed.

Lemma identity_new_Ok l i : identity_new l = Ok i <-> i = mkIdentityId l /\ l <> replicate 16 0.
Proof.
  unfold identity_new. case_bool_decide; split; intros; try done.
  - destruct_and!. done.
  - by simplify_eq.
  - destruct_and!. by subst.
Qed.

Lemma decode_identity_iff p c i c' :
  bytes_ok p -> (length p <= 1012)%nat ->
  decode_identity p c = Ok (i, c') <-> identity_wf i /\ holds p c (id_bytes i) c'.
Proof.
  intros Hb Hp. unfold decode_identity. split.
  - intros H. inv_ok H. destruct a as [l c1]. inv_ok H.
    apply take_slice_iff in Hr as [Hh Hn]; [|done]. b2p. inv_ok Hr0.
    apply identity_new_Ok in Hr0 as (-> & ?). pose proof (holds_bytes_ok _ _ _ _ Hb Hh).
    by split.
  - intros [(Hok & Hl & H0) H]. rewrite (proj2 (take_slice_iff p c 16 (id_bytes i) c' Hp)) by done.
    rewrite Hl. cbn [Nat.eqb]. rewrite (proj2 (identity_new_Ok _ i)); [done|]. by destruct i.
Qed.

Lemma FingerLabel_decode_Ok v f : FingerLabel.decode v = Ok f <-> v = FingerLabel.value f.
Proof.
  split; [|by intros ->; destruct f].
  unfold FingerLabel.decode. intros H. repeat case_match; simplify_eq; done.
Qed.

Lemma require_empty_Ok p u : require_empty p = Ok u <-> p = [].
Proof. destruct p, u; done. Qed.

(** ** Client messages *)

(** Type and payload of a well-formed client message. *)
Definition client_parts (m : ClientMessage.t) : Z * bytes :=
  match m with
  | ClientMessage.GetCapabilities => (1, [])
  | ClientMessage.Open => (2, [])
  | ClientMessage.ListIdentities => (3, [])
  | ClientMessage.Enroll u f => (4, username_bytes u ++ [FingerLabel.value f])
  | ClientMessage.Verify u i => (5, username_bytes u ++ id_bytes i)
  | ClientMessage.Identify u => (6, username_bytes u)
  | ClientMessage.DeleteIdentity u i => (7, username_bytes u ++ id_bytes i)
  | ClientMessage.Cancel => (8, [])
  end.

Lemma encode_client_parts m :
  client_wf m -> encode_client m = encode_packet (fst (client_parts m)) (snd (client_parts m)).
Proof.
  intros Hwf. unfold encode_client.
  destruct m as [| | |u f|u i|u|u i|]; cbn [client_wf] in Hwf; try done;
    rewrite encode_username_ok by apply Hwf; done.
Qed.

(** Splits the successful run of a decoder that returns pairs. *)
Ltac unpack H :=
  repeat (first
    [ match type of H with (let (_, _) := ?a in _) = _ => destruct a end
    | step_ok H; cbn beta iota zeta in H ]); simplify_eq.

(** Reads the successful cursor calls of a decoder. *)
Ltac cursors H Hb Hp :=
  unpack H;
  repeat match goal with
  | H : take_byte _ _ = Ok _ |- _ => apply take_byte_iff in H
  | H : decode_username _ _ = Ok _ |- _ =>
      apply (decode_username_iff _ _ _ _ Hb Hp) in H as [? ?]
  | H : decode_identity _ _ = Ok _ |- _ =>
      apply (decode_identity_iff _ _ _ _ Hb Hp) in H as [? ?]
  | H : FingerLabel.decode _ = Ok _ |- _ => apply FingerLabel_decode_Ok in H; subst
  | H : require_empty _ = Ok _ |- _ => apply require_empty_Ok in H; subst
  end.

(** The calls of a decoder evaluate along the pieces its payload holds. *)
Ltac cursor_calls Hb Hp :=
  repeat first
    [ match goal with H : holds _ _ [_] _ |- _ => rewrite (proj2 (take_byte_iff _ _ _ _) H) end
    | match goal with H : holds _ _ (username_bytes _) _ |- _ =>
        rewrite (proj2 (decode_username_iff _ _ _ _ Hb Hp)) by (split; [|exact H]; done) end
    | match goal with H : holds _ _ (id_bytes _) _ |- _ =>
        rewrite (proj2 (decode_identity_iff _ _ _ _ Hb Hp)) by (split; [|exact H]; done) end
    | rewrite (proj2 (FingerLabel_decode_Ok _ _) eq_refl) ].

Lemma decode_client_payload_iff t p m :
  bytes_ok p -> (length p <= 1012)%nat ->
  decode_client_payload t p = Ok (m, length p) <-> client_wf m /\ client_parts m = (t, p).
Proof.
  intros Hb Hp. unfold decode_client_payload. split.
  - intros H. repeat (destruct (t =? _) eqn:Ht; b2p; [subst t; cursors H Hb Hp|clear Ht]);
      cbn [client_wf client_parts]; try done; split; try done; f_equal; symmetry;
      eapply (holds_all p _ (length p)); try done; apply holds_app; eauto.
  - intros [Hwf Hm]. pose proof (holds_self p) as Hs.
    unfold CLIENT_CAPABILITIES, CLIENT_OPEN, CLIENT_LIST, CLIENT_ENROLL, CLIENT_VERIFY,
      CLIENT_IDENTIFY, CLIENT_DELETE, CLIENT_CANCEL.
    assert (t = fst (client_parts m) /\ p = snd (client_parts m)) as [-> Hq] by by rewrite Hm.
    rewrite Hq in Hs at 2.
    destruct m as [| | |u f|u i|u|u i|]; cbn [client_wf client_parts fst snd] in *;
      cbn [Z.eqb Pos.eqb]; try (by rewrite Hq).
    + apply holds_app in Hs as (c1 & Hu & Hs). by cursor_calls Hb Hp.
    + apply holds_app in Hs as (c1 & Hu & Hs). destruct Hwf. by cursor_calls Hb Hp.
    + by cursor_calls Hb Hp.
    + apply holds_app in Hs as (c1 & Hu & Hs). destruct Hwf. by cursor_calls Hb Hp.
Qed.

Lemma client_parts_type m : is_u 8 (fst (client_parts m)).
Proof. destruct m; u_range. Qed.

Lemma encode_packet_length t payload bs :
  encode_packet t payload = Ok bs -> (length payload <= 1012)%nat.
Proof. intros [? _]%encode_packet_Ok. lia. Qed.

Lemma encode_packet_bytes_ok t payload bs :
  encode_packet t payload = Ok bs -> bytes_ok bs -> bytes_ok payload.
Proof. intros [_ ->]%encode_packet_Ok Hb. by repeat apply bytes_ok_app in Hb as [_ Hb]. Qed.

(** The broker accepts a standard fingerprint request exactly when the packet
    is the encoding of a well-formed request (valid UTF-8 account name of 1 to
    255 bytes without NUL, nonzero identity, known finger), and decodes it to
    that request; in particular every request a client can build survives the
    round trip, and no two packets mean the same request. *)
Theorem std_decode_client_iff bs m :
  bytes_ok bs ->
  decode_client bs = Ok m <-> client_wf m /\ encode_client m = Ok bs.
Proof.
  intros Hbs. unfold decode_client. split.
  - intros H. inv_ok H. destruct a as [t p]. inv_ok H. destruct a as [m' c]. inv_ok H. b2p. subst c.
    apply (decode_packet_iff _ _ _ Hbs) in Hr as (_ & Hb & He).
    apply (decode_client_payload_iff _ _ _ Hb (encode_packet_length _ _ _ He)) in Hr0 as [Hwf Hm].
    split; [done|]. by rewrite encode_client_parts, Hm.
  - intros [Hwf He]. rewrite encode_client_parts in He by done.
    destruct (client_parts m) as [t p] eqn:Hm. cbn [fst snd] in He.
    assert (is_u 8 t) as Ht by (pose proof (client_parts_type m) as Ht; by rewrite Hm in Ht).
    pose proof (encode_packet_bytes_ok _ _ _ He Hbs) as Hb.
    rewrite (proj2 (decode_packet_iff _ _ _ Hbs)) by done.
    rewrite (proj2 (decode_client_payload_iff _ _ _ Hb (encode_packet_length _ _ _ He))) by done.
    by rewrite Nat.eqb_refl.
Qed.

Definition ex_verify : ClientMessage.t :=
  ClientMessage.Verify (mkUsername [97; 110; 110; 97]) (mkIdentityId (7 :: replicate 15 0)).

Definition ex_verify_packet : bytes :=
  [84; 49; 70; 80; 1; 5; 0; 0; 0; 21; 0; 0; 4; 97; 110; 110; 97; 7] ++ replicate 15 0.

Lemma std_decode_client_iff_witness :
  client_wf ex_verify /\ encode_client ex_verify = Ok ex_verify_packet.
Proof.
  apply (std_decode_client_iff ex_verify_packet).
  - repeat constructor; done.
  - reflexivity.
Defined.

(** ** Server messages *)

Lemma check_identities_Ok before ids u :
  check_identities before ids = Ok u <->
  NoDup (id <$> ids) /\ Forall (fun i => id i ∉ (id <$> before)) ids.
Proof.
  destruct u. revert before. induction ids as [|i ids IH]; intros before; cbn [check_identities].
  { split; [|done]. by repeat constructor. }
  rewrite fmap_cons, NoDup_cons, Forall_cons.
  assert (existsb (fun e => bool_decide (id e = id i)) before = bool_decide (id i ∈ (id <$> before))) as ->.
  { apply eq_true_iff_eq. rewrite existsb_exists, bool_decide_eq_true, list_elem_of_fmap.
    setoid_rewrite bool_decide_eq_true. setoid_rewrite <- list_elem_of_In. naive_solver. }
  case_bool_decide; [split; [done|tauto]|]. rewrite IH, !Forall_forall.
  setoid_rewrite fmap_app. setoid_rewrite elem_of_app. setoid_rewrite list_elem_of_singleton.
  rewrite list_elem_of_fmap. split.
  - intros [? Hk]. split_and!; try done.
    + intros (x & Hx & Hin). apply (Hk x Hin). right. by rewrite Hx.
    + intros x Hx Hb. apply (Hk x Hx). by left.
  - intros ([Hn ?] & _ & Hk). split; [done|]. intros x Hx [?|He]; [by eapply Hk|].
    apply Hn. exists x. by rewrite He.
Qed.

Definition server_parts (m : ServerMessage.t) : Z * bytes :=
  match m with
  | ServerMessage.Capabilities c =>
      (0x81, be_bytes 2 (operations c) ++ [max_enroll_stages c; max_identities c])
  | ServerMessage.Opened => (0x82, [])
  | ServerMessage.IdentityList owner ids =>
      (0x83, len ids :: from_option username_bytes [] owner ++ concat (identity_bytes <$> ids))
  | ServerMessage.EnrollProgress p => (0x84, [completed_stage p; total_stages p])
  | ServerMessage.Terminal o => (0x85, outcome_bytes o)
  end.

(** The list condition that the encoder checks: at most five identities, all
    different, with an owner exactly when there is one. *)
Definition server_valid (m : ServerMessage.t) : Prop :=
  match m with
  | ServerMessage.IdentityList owner ids => validate_identity_list owner ids = Ok ()
  | _ => True
  end.

Lemma validate_identity_list_length owner ids u :
  validate_identity_list owner ids = Ok u ->
  len ids <= 5 /\ (owner = None <-> ids = []).
Proof.
  unfold validate_identity_list, MAX_IDENTITIES. intros H. inv_ok H. b2p. split; [done|].
  destruct owner, ids; try done.
Qed.

Lemma encode_server_parts m bs :
  server_wf m ->
  encode_server m = Ok bs <->
  server_valid m /\ encode_packet (fst (server_parts m)) (snd (server_parts m)) = Ok bs.
Proof.
  intros Hwf. unfold encode_server. destruct m as [c| |o ids|p|o]; cbn [server_valid server_parts fst snd];
    try (by split; [intros|intros [_ ?]]).
  destruct Hwf as [Ho _]. split.
  - intros H. destruct (validate_identity_list o ids) as [[]| |] eqn:Hv; [|done|done].
    split; [done|]. apply validate_identity_list_length in Hv as [Hl _].
    rewrite try_from_ok in H by u_range. by destruct o; [rewrite encode_username_ok in H|].
  - intros [Hv H]. rewrite Hv. apply validate_identity_list_length in Hv as [Hl _].
    rewrite try_from_ok by u_range. by destruct o; [rewrite encode_username_ok|].
Qed.

Lemma decode_identities_iff p c n ids c' :
  bytes_ok p -> (length p <= 1012)%nat -> (c <= length p)%nat ->
  decode_identities p c n = Ok (ids, c') <->
  Forall (fun i => identity_wf (id i)) ids /\ length ids = n /\
  holds p c (concat (identity_bytes <$> ids)) c'.
Proof.
  intros Hb Hp. revert c ids. induction n as [|n IH]; intros c ids Hc; cbn [decode_identities].
  { split.
    - intros. simplify_eq. split_and!; [constructor|done|by apply holds_nil].
    - intros (_ & Hn & Hh). destruct ids; [|done]. destruct Hh as (_ & -> & _).
      cbn. by rewrite Nat.add_0_r. }
  split.
  - intros H. destruct (decode_identity p c) as [[i c1]| |] eqn:Hi; try done.
    destruct (take_byte p c1) as [[b c2]| |] eqn:Ht; try done.
    destruct (FingerLabel.decode b) eqn:Hf; try done.
    destruct (decode_identities p c2 n) as [[l c3]| |] eqn:Hd; try done. simplify_eq.
    apply decode_identity_iff in Hi as [Hwf Hi]; try done. apply take_byte_iff in Ht.
    apply FingerLabel_decode_Ok in Hf as ->. apply IH in Hd as (Hall & <- & Hh); [|apply Ht].
    split_and!; [by constructor|done|]. cbn. apply holds_app. exists c2. split; [|done].
    apply holds_app. eauto.
  - intros (Hall & Hn & Hh). destruct ids as [|i ids]; [done|]. apply Forall_cons in Hall as [Hi Hall].
    rewrite fmap_cons in Hh. cbn [concat] in Hh. unfold identity_bytes at 1 in Hh.
    rewrite <- app_assoc in Hh. apply holds_app in Hh as (c1 & H1 & Hh).
    apply holds_app in Hh as (c2 & H2 & Hh). cursor_calls Hb Hp.
    rewrite (proj2 (IH c2 ids (proj2 (proj2 H2)))).
    + by destruct i.
    + split_and!; try done. by injection Hn.
Qed.

Lemma decode_outcome_iff p code c o c' :
  bytes_ok p -> (length p <= 1012)%nat -> holds p 0 [code] c ->
  decode_outcome p c code = Ok (o, c') <-> outcome_wf o /\ holds p 0 (outcome_bytes o) c'.
Proof.
  intros Hb Hp Hc. pose proof Hc as (Hd & -> & Hl).
  assert (forall b s c'', holds p 0 (b :: s) c'' -> b = code) as Hcode.
  { intros b s c'' (Hd' & _). rewrite drop_0 in *. rewrite Hd in Hd'. by injection Hd'. }
  split.
  - intros H. unfold decode_outcome in H.
    repeat case_match; simplify_eq; cbn [outcome_wf outcome_bytes]; try done.
    all: match goal with Hi : decode_identity _ _ = Ok _ |- _ =>
      apply decode_identity_iff in Hi as [? Hi]; try done end.
    all: split; [done|]. all: apply (holds_app _ _ [_]); eauto.
  - intros [Hwf Hh]. destruct o; cbn [outcome_wf outcome_bytes] in *;
      pose proof (Hcode _ _ _ Hh); subst code; cbn [decode_outcome];
      try (destruct Hh as (_ & -> & _); done).
    all: apply (holds_app _ _ [_]) in Hh as (c1 & (_ & -> & _) & Hh).
    all: by cursor_calls Hb Hp.
Qed.

Lemma progress_new_Ok a b q :
  0 <= a -> 0 <= b -> progress_new a b = Ok q <-> q = mkProgress a b /\ progress_wf q.
Proof.
  intros Ha Hb. unfold progress_new, MAX_ENROLL_STAGES, progress_wf.
  destruct (_ || _) eqn:H; split; intros Hq; simplify_eq; cbn in *.
  - destruct Hq as [-> Hq]. cbn in Hq. lia.
  - split; [done|lia].
  - by destruct Hq as [-> _].
Qed.

Lemma capabilities_new_inv ops a b c :
  capabilities_new ops a b = Ok c -> c = mkCapabilities ops a b.
Proof. unfold capabilities_new. intros H. inv_ok H. done. Qed.

Lemma from_bits_inv b ops : CapabilitySet.from_bits b = Ok ops -> ops = b.
Proof. unfold CapabilitySet.from_bits. intros H. by inv_ok H. Qed.

Lemma decode_server_capabilities p c :
  bytes_ok p -> decode_server_payload 0x81 p = Ok (ServerMessage.Capabilities c, length p) <->
  capabilities_wf c /\ p = be_bytes 2 (operations c) ++ [max_enroll_stages c; max_identities c].
Proof.
  intros Hb. unfold decode_server_payload, SERVER_CAPABILITIES. cbn [Z.eqb Pos.eqb]. split.
  - intros H. inv_ok H. b2p. destruct p as [|b0 [|b1 [|b2 [|b3 [|]]]]]; cbn in Hb0; try lia.
    change (be_u16 _ 0) with (Ok (E := ProtocolError) (be_val [b0; b1])) in Hr.
    change (byte_at _ 2) with (Ok (E := ProtocolError) b2) in Hr1.
    change (byte_at _ 3) with (Ok (E := ProtocolError) b3) in Hr2. simplify_eq.
    pose proof (from_bits_inv _ _ Hr0) as ->. pose proof (capabilities_new_inv _ _ _ _ Hr3) as ->.
    repeat (apply bytes_ok_cons in Hb as [? Hb]). cbn [operations max_enroll_stages max_identities].
    assert (bytes_ok [b0; b1]) as Hb01 by (rewrite !bytes_ok_cons; auto with t1).
    split; [|by rewrite (be_bytes_val_n 2)].
    pose proof (be_val_bound _ Hb01). unfold capabilities_wf; cbn. split_and!; try done.
  - intros ((? & ? & ? & Hf & Hn) & ->). rewrite be_bytes_2. cbn [app length Z.of_nat]. cbn [Z.eqb].
    cbn [Pos.of_succ_nat Pos.succ Pos.eqb negb].
    change (be_u16 _ 0) with (Ok (E := ProtocolError)
      (be_val [(operations c / 256) mod 256; operations c mod 256])).
    rewrite <- be_bytes_2, be_val_bytes by u_range. rewrite Hf.
    change (byte_at _ 2) with (Ok (E := ProtocolError) (max_enroll_stages c)).
    change (byte_at _ 3) with (Ok (E := ProtocolError) (max_identities c)). cbn beta iota. by rewrite Hn.
Qed.

Lemma decode_server_list p owner ids :
  bytes_ok p -> (length p <= 1012)%nat ->
  decode_server_payload 0x83 p = Ok (ServerMessage.IdentityList owner ids, length p) <->
  server_wf (ServerMessage.IdentityList owner ids) /\ validate_identity_list owner ids = Ok () /\
  p = len ids :: from_option username_bytes [] owner ++ concat (identity_bytes <$> ids).
Proof.
  intros Hb Hp. unfold decode_server_payload, SERVER_CAPABILITIES, SERVER_OPENED, SERVER_IDENTITIES,
    MAX_IDENTITIES. cbn [Z.eqb Pos.eqb server_wf]. split.
  - intros H. destruct (take_byte p 0) as [[n c1]| |] eqn:Hn; try done.
    destruct (5 <? n) eqn:H5; [done|]. b2p. apply take_byte_iff in Hn.
    assert (0 <= n) as Hn0 by (pose proof (holds_bytes_ok _ _ _ _ Hb Hn) as Hok;
      apply bytes_ok_cons in Hok as [[? _] _]; done).
    match type of H with (let! _ := ?e in _) = _ => destruct e as [[o c2]| |] eqn:Ho; try done end.
    destruct (decode_identities p c2 (Z.to_nat n)) as [[l c3]| |] eqn:Hl; try done.
    destruct (validate_identity_list o l) as [[]| |] eqn:Hv; try done. simplify_eq.
    assert (match owner with Some u => username_wf u | None => True end /\
            holds p c1 (from_option username_bytes [] owner) c2) as [Hwf Hh].
    { destruct (n =? 0) eqn:H0.
      - simplify_eq. split; [done|]. apply holds_nil, Hn.
      - destruct (decode_username p c1) as [[u c]| |] eqn:Hu; try done. simplify_eq.
        by apply decode_username_iff in Hu as [? ?]. }
    apply decode_identities_iff in Hl as (Hall & Hlen & Hh2); try done; [|apply Hh].
    split_and!; try done. replace (len ids) with n by lia.
    eapply holds_all; [|done]. apply (holds_app _ _ [n]). exists c1. split; [done|].
    apply holds_app. eauto.
  - intros ((Ho & Hall) & Hv & Hpp). pose proof (holds_self p) as Hs. rewrite Hpp in Hs at 2.
    apply (holds_app _ _ [_]) in Hs as (c1 & H1 & Hs). apply holds_app in Hs as (c2 & H2 & Hs).
    pose proof (validate_identity_list_length _ _ _ Hv) as [Hl Hnil].
    rewrite (proj2 (take_byte_iff _ _ _ _) H1). decide_if.
    assert ((if len ids =? 0 then Ok (None, c1)
             else let! (u, cursor) := decode_username p c1 in Ok (Some u, cursor))
            = Ok (E := ProtocolError) (owner, c2)) as ->.
    { destruct (len ids =? 0) eqn:H0; b2p.
      - assert (ids = []) as Hids by (destruct ids; [done|cbn in H0; lia]).
        apply Hnil in Hids as ->. cbn in H2. destruct H2 as (_ & -> & _). cbn. by rewrite Nat.add_0_r.
      - destruct owner as [u|].
        + cbn in H2. by rewrite (proj2 (decode_username_iff _ _ u c2 Hb Hp)).
        + exfalso. apply H0. by rewrite (proj1 Hnil eq_refl). }
    rewrite Nat2Z.id. rewrite (proj2 (decode_identities_iff p c2 _ ids (length p) Hb Hp (proj2 (proj2 H2)))) by done.
    by rewrite Hv.
Qed.

Lemma decode_server_type t p m c :
  decode_server_payload t p = Ok (m, c) -> t = fst (server_parts m).
Proof.
  unfold decode_server_payload. intros H.
  repeat (destruct (t =? _) eqn:Ht; b2p; [subst t; by unpack H|clear Ht]). done.
Qed.

Lemma decode_server_payload_iff t p m :
  bytes_ok p -> (length p <= 1012)%nat ->
  decode_server_payload t p = Ok (m, length p) <->
  server_wf m /\ server_valid m /\ server_parts m = (t, p).
Proof.
  intros Hb Hp. split.
  - intros H. pose proof (decode_server_type _ _ _ _ H) as ->.
    destruct m as [c| |o ids|q|o]; cbn [server_parts fst] in *.
    + apply (decode_server_capabilities _ _ Hb) in H as [? <-]. done.
    + unfold decode_server_payload in H. cbn in H. destruct (require_empty p) eqn:Hr; try done.
      apply require_empty_Ok in Hr as ->. done.
    + apply (decode_server_list _ _ _ Hb Hp) in H as (? & ? & ->). done.
    + unfold decode_server_payload in H. cbn [Z.eqb Pos.eqb SERVER_CAPABILITIES SERVER_OPENED
        SERVER_IDENTITIES SERVER_ENROLL_PROGRESS] in H. inv_ok H. b2p.
      destruct p as [|x [|y [|]]]; cbn [length] in *; try lia.
      rewrite byte_at_0 in Hr. rewrite byte_at_cons, byte_at_0 in Hr0. simplify_eq.
      repeat (apply bytes_ok_cons in Hb as [[? _] Hb]).
      by apply progress_new_Ok in Hr1 as [-> ?].
    + unfold decode_server_payload in H. cbn [Z.eqb Pos.eqb SERVER_CAPABILITIES SERVER_OPENED
        SERVER_IDENTITIES SERVER_ENROLL_PROGRESS SERVER_TERMINAL] in H.
      destruct (take_byte p 0) as [[code c1]| |] eqn:Hc; try done. apply take_byte_iff in Hc.
      destruct (decode_outcome p c1 code) as [[o' c2]| |] eqn:Hd; try done. simplify_eq.
      apply decode_outcome_iff in Hd as [? Hh]; try done.
      rewrite <- (holds_all _ _ _ Hh eq_refl). done.
  - intros (Hwf & Hv & Hm).
    assert (t = fst (server_parts m) /\ p = snd (server_parts m)) as [-> Hq] by by rewrite Hm.
    clear Hm. destruct m as [c| |o ids|q|o]; cbn [server_parts fst snd server_wf server_valid] in *.
    + by apply decode_server_capabilities.
    + by subst.
    + by apply decode_server_list.
    + subst p. unfold decode_server_payload. cbn [Z.eqb Pos.eqb]. cbn -[progress_new].
      change (byte_at _ 0) with (Ok (E := ProtocolError) (completed_stage q)).
      change (byte_at _ 1) with (Ok (E := ProtocolError) (total_stages q)). cbn -[progress_new].
      rewrite (proj2 (progress_new_Ok (completed_stage q) (total_stages q) q
        ltac:(destruct Hwf; lia) ltac:(destruct Hwf; lia))); [done|]. by destruct q.
    + unfold decode_server_payload. cbn [Z.eqb Pos.eqb SERVER_CAPABILITIES SERVER_OPENED
        SERVER_IDENTITIES SERVER_ENROLL_PROGRESS SERVER_TERMINAL].
      pose proof (holds_self p) as Hs. rewrite Hq in Hs at 2.
      assert (exists code s, outcome_bytes o = [code] ++ s) as (code & s & Ho)
        by (destruct o; cbn; eauto).
      pose proof Hs as Hs'. rewrite Ho in Hs'. apply holds_app in Hs' as (c1 & Hc & _).
      rewrite (proj2 (take_byte_iff _ _ _ _) Hc).
      by rewrite (proj2 (decode_outcome_iff _ _ _ o (length p) Hb Hp Hc)).
Qed.

Lemma server_parts_type m : is_u 8 (fst (server_parts m)).
Proof. destruct m; u_range. Qed.

(** A client accepts a standard fingerprint reply exactly when the packet is
    the encoding of a well-formed reply (known capability bits with consistent
    limits, at most five distinct identities with an owner exactly when there
    is one, progress within 1 to 100 stages, nonzero identities), and decodes
    it to that reply. *)
Theorem std_decode_server_iff bs m :
  bytes_ok bs ->
  decode_server bs = Ok m <-> server_wf m /\ encode_server m = Ok bs.
Proof.
  intros Hbs. unfold decode_server. split.
  - intros H. inv_ok H. destruct a as [t p]. inv_ok H. destruct a as [m' c]. inv_ok H. b2p. subst c.
    apply (decode_packet_iff _ _ _ Hbs) in Hr as (_ & Hb & He).
    apply (decode_server_payload_iff _ _ _ Hb (encode_packet_length _ _ _ He)) in Hr0 as (Hwf & Hv & Hm).
    split; [done|]. apply encode_server_parts; [done|]. by rewrite Hm.
  - intros [Hwf He]. apply encode_server_parts in He as [Hv He]; [|done].
    destruct (server_parts m) as [t p] eqn:Hm. cbn [fst snd] in He.
    assert (is_u 8 t) as Ht by (pose proof (server_parts_type m) as Ht; by rewrite Hm in Ht).
    pose proof (encode_packet_bytes_ok _ _ _ He Hbs) as Hb.
    rewrite (proj2 (decode_packet_iff _ _ _ Hbs)) by done.
    rewrite (proj2 (decode_server_payload_iff _ _ _ Hb (encode_packet_length _ _ _ He))) by done.
    by rewrite Nat.eqb_refl.
Qed.

Definition ex_list : ServerMessage.t :=
  ServerMessage.IdentityList (Some (mkUsername [97]))
    [mkIdentity (mkIdentityId (7 :: replicate 15 0)) FingerLabel.RightThumb].

Definition ex_list_packet : bytes :=
  [84; 49; 70; 80; 1; 0x83; 0; 0; 0; 20; 0; 0; 1; 1; 97; 7] ++ replicate 15 0 ++ [6].

Lemma std_decode_server_iff_witness :
  server_wf ex_list /\ encode_server ex_list = Ok ex_list_packet.
Proof.
  apply (std_decode_server_iff ex_list_packet).
  - repeat constructor; done.
  - reflexivity.
Defined.

(** ** Encoding always succeeds on well-formed messages *)

Lemma username_bytes_bound u : username_wf u -> (length (username_bytes u) <= 256)%nat.
Proof. intros (_ & _ & ? & _). unfold username_bytes. lens. Qed.

Lemma client_parts_bound m : client_wf m -> (length (snd (client_parts m)) <= 1012)%nat.
Proof.
  intros Hwf. destruct m as [| | |u f|u i|u|u i|]; cbn [client_wf client_parts snd] in *;
    try (cbn; lia); rewrite ?length_app.
  - pose proof (username_bytes_bound u Hwf). lens.
  - destruct Hwf as [Hu (_ & -> & _)]. pose proof (username_bytes_bound u Hu). lia.
  - pose proof (username_bytes_bound u Hwf). lia.
  - destruct Hwf as [Hu (_ & -> & _)]. pose proof (username_bytes_bound u Hu). lia.
Qed.

Lemma server_parts_bound m :
  server_wf m -> server_valid m -> (length (snd (server_parts m)) <= 1012)%nat.
Proof.
  intros Hwf Hv. destruct m as [c| |owner ids|q|o]; cbn [server_parts snd]; try (cbn; lia).
  - rewrite length_app, length_be_bytes. cbn. lia.
  - apply validate_identity_list_length in Hv as [Hl _]. destruct Hwf as [Ho Hids].
    rewrite length_cons, length_app, (length_concat_fixed 17), length_fmap.
    + destruct owner as [u|]; cbn [from_option]; [pose proof (username_bytes_bound u Ho)|]; lens.
    + apply Forall_fmap. eapply Forall_impl; [done|]. intros i (_ & Hi & _). cbn.
      unfold identity_bytes. rewrite length_app, Hi. done.
  - cbn in Hwf. destruct o; cbn in *; try lia; destruct Hwf as (_ & -> & _); lia.
Qed.

Lemma encode_packet_total t payload :
  (length payload <= 1012)%nat -> exists bs, encode_packet t payload = Ok bs.
Proof. intros Hl. eexists. apply encode_packet_Ok. split; [lia|done]. Qed.

(** Every well-formed request has an encoding, and every well-formed reply
    whose identity list passes its check has one too: the size limits never
    refuse a message that can be built. *)
Theorem std_encode_total :
  (forall m, client_wf m -> exists bs, encode_client m = Ok bs) /\
  (forall m, server_wf m -> server_valid m -> exists bs, encode_server m = Ok bs).
Proof.
  split.
  - intros m Hwf. rewrite encode_client_parts by done.
    by apply encode_packet_total, client_parts_bound.
  - intros m Hwf Hv.
    destruct (encode_packet_total (fst (server_parts m)) _ (server_parts_bound m Hwf Hv)) as [bs Hbs].
    exists bs. by apply encode_server_parts.
Qed.

Lemma std_encode_total_witness : exists bs, encode_client ex_verify = Ok bs.
Proof.
  apply std_encode_total. cbn. unfold username_wf, identity_wf, bytes_ok.
  split_and!; try done; try (repeat constructor; done).
  by apply (bool_decide_unpack _); vm_compute.
Defined.

(** ** Hostile packets *)

Lemma be_u16_np l i : (i + 1 < length l)%nat -> no_panic (be_u16 l i).
Proof. intros. unfold be_u16. repeat no_panic_step. Qed.

Lemma decode_packet_np bs : no_panic (decode_packet bs).
Proof.
  unfold decode_packet, HEADER_SIZE. do 2 (no_panic_step; [repeat no_panic_step|]).
  repeat first [ apply no_panic_bind; [apply be_u16_np; lia|intros ? ?] | no_panic_step ].
Qed.

Lemma take_byte_np p c : no_panic (take_byte p c).
Proof. unfold take_byte. repeat no_panic_step. Qed.

Lemma take_slice_np p c n : no_panic (take_slice p c n).
Proof. unfold take_slice. repeat no_panic_step. Qed.

Lemma username_new_np v : no_panic (username_new v).
Proof. unfold username_new. repeat no_panic_step. Qed.

Lemma identity_new_np v : no_panic (identity_new v).
Proof. unfold identity_new. repeat no_panic_step. Qed.

Lemma FingerLabel_decode_np v : no_panic (FingerLabel.decode v).
Proof. unfold FingerLabel.decode, no_panic. repeat case_match; done. Qed.

Lemma require_empty_np p : no_panic (require_empty p).
Proof. by destruct p. Qed.

#[local] Hint Resolve decode_packet_np take_byte_np take_slice_np username_new_np identity_new_np
  FingerLabel_decode_np require_empty_np : t1.

Lemma decode_username_np p c : no_panic (decode_username p c).
Proof. unfold decode_username. repeat no_panic_step. Qed.

Lemma decode_identity_np p c : no_panic (decode_identity p c).
Proof. unfold decode_identity. repeat no_panic_step. Qed.

#[local] Hint Resolve decode_username_np decode_identity_np : t1.

Lemma decode_identities_np p c n : no_panic (decode_identities p c n).
Proof. revert c. induction n as [|n IH]; intros c; cbn; repeat no_panic_step. Qed.

Lemma decode_outcome_np p c code : no_panic (decode_outcome p c code).
Proof.
  pose proof (decode_identity_np p c) as Hi. unfold decode_outcome, no_panic in *.
  repeat case_match; done.
Qed.

Lemma validate_identity_list_np o ids : no_panic (validate_identity_list o ids).
Proof.
  unfold validate_identity_list. do 2 (no_panic_step; [repeat no_panic_step|]). generalize (@nil Identity).
  clear. induction ids as [|i ids IH]; intros before; cbn [check_identities]; repeat no_panic_step.
Qed.

#[local] Hint Resolve decode_identities_np decode_outcome_np validate_identity_list_np : t1.

Lemma decode_client_payload_np t p : no_panic (decode_client_payload t p).
Proof. unfold decode_client_payload. repeat no_panic_step. Qed.

Lemma constructors_np ops a b :
  no_panic (CapabilitySet.from_bits ops) /\ no_panic (capabilities_new ops a b) /\
  no_panic (progress_new a b).
Proof.
  unfold CapabilitySet.from_bits, capabilities_new, progress_new. split_and!; repeat no_panic_step.
Qed.

#[local] Hint Extern 1 (no_panic _) => apply constructors_np; exact 0 : t1.

Lemma decode_server_payload_np t p : no_panic (decode_server_payload t p).
Proof.
  unfold decode_server_payload. repeat no_panic_step.
  - apply no_panic_bind; [apply be_u16_np; lia|intros ? _]. repeat no_panic_step.
  - apply no_panic_bind; [repeat no_panic_step|intros [] _]. repeat no_panic_step.
Qed.

#[local] Hint Resolve decode_client_payload_np decode_server_payload_np : t1.

(** No byte string makes the decoders of the standard fingerprint protocol
    panic: every slice and index is covered by a check. *)
Theorem std_decode_no_panic bs : no_panic (decode_client bs) /\ no_panic (decode_server bs).
Proof. unfold decode_client, decode_server. split; repeat no_panic_step. Qed.

End StandardProtocol.
