(* ===== verification/StandardAuthority.v ===== *)
(** * Owner-bound standard fingerprint operations
    ([crates/t1-daemons/src/standard_operation_authority.rs])

    The standard operations run on the same broker state, and the same single
    token, as the fixed authentication requests. This file models their
    authorization against the recorded enrollment owner, their dispatch,
    cancellation and completion, and shows that a run that mixes both kinds of
    operations keeps one contract. *)

From S2P Require Import Prelude AuthProtocol StandardProtocol.

Module StandardAuthority.

Import AuthProtocol(PeerMetadata, address_family, user_id, AccessPolicy,
  enrollment_owner_user_id, BrokerState, OperationToken, ROOT_UID, BIOMETRIC_USER_ID).
Import StandardProtocol(Username, IdentityId, id_bytes).

Record ResolvedStandardAccount : Type := mkAccount {
  canonical_username : Username;
  account_user_id : Z;
}.

Inductive StandardAuthorityError : Type := NonCanonicalAccount | RootTarget.

(** [ResolvedStandardAccount::new]. *)
Definition account_new (asserted canonical : Username) (user_id : Z)
    : res StandardAuthorityError ResolvedStandardAccount :=
  if negb (bool_decide (asserted = canonical)) then Err NonCanonicalAccount
  else if user_id =? ROOT_UID then Err RootTarget
  else Ok (mkAccount canonical user_id).

Module Operation.
(** [ResolvedStandardOperation]. *)
Inductive t : Type :=
| ListIdentities
| Enroll (account : ResolvedStandardAccount) (finger : StandardProtocol.FingerLabel.t)
| Verify (account : ResolvedStandardAccount) (i : IdentityId)
| Identify (account : ResolvedStandardAccount)
| DeleteIdentity (account : ResolvedStandardAccount) (i : IdentityId).

(** [ResolvedStandardOperation::target_user_id]. *)
Definition target_user_id (o : t) : option Z :=
  match o with
  | ListIdentities => None
  | Enroll a _ | Verify a _ | Identify a | DeleteIdentity a _ => Some (account_user_id a)
  end.

(** [ResolvedStandardOperation::kind]. *)
Definition kind (o : t) : StandardProtocol.OperationKind.t :=
  match o with
  | ListIdentities => StandardProtocol.OperationKind.ListIdentities
  | Enroll _ _ => StandardProtocol.OperationKind.Enroll
  | Verify _ _ => StandardProtocol.OperationKind.Verify
  | Identify _ => StandardProtocol.OperationKind.Identify
  | DeleteIdentity _ _ => StandardProtocol.OperationKind.DeleteIdentity
  end.

(** [matches!(operation, ResolvedStandardOperation::Enroll { .. })]. *)
Definition is_enroll (o : t) : bool := match o with Enroll _ _ => true | _ => false end.
End Operation.

Inductive StandardPeerAuthority : Type := Root | RecordedOwner | FirstOwnerNominee.

Record AuthorizedStandardOperation : Type := mkAuthorized {
  aso_token : OperationToken;
  aso_biometric_user_id : Z;
  aso_target_user_id : option Z;
  authority : StandardPeerAuthority;
  nominated_first_owner : bool;
  operation : Operation.t;
}.

(** [AuthorizedStandardOperation::clone_for_worker]. *)
Definition clone_for_worker (o : AuthorizedStandardOperation) : AuthorizedStandardOperation :=
  mkAuthorized (aso_token o) (aso_biometric_user_id o) (aso_target_user_id o) (authority o)
    (nominated_first_owner o) (operation o).

Module Outcome := StandardProtocol.TerminalOutcome.
Module Server := StandardProtocol.ServerMessage.

Inductive StandardBrokerDecision : Type :=
| Start (o : AuthorizedStandardOperation)
| Reply (m : Server.t).

(** [standard_reply]. *)
Definition standard_reply (o : Outcome.t) : StandardBrokerDecision := Reply (Server.Terminal o).

(** [authorize]. *)
Definition authorize (peer : PeerMetadata) (recorded_owner : option AccessPolicy)
    (op : Operation.t) : option (option Z * StandardPeerAuthority * bool) :=
  if negb (bool_decide (address_family peer = AuthProtocol.Local)) then None
  else
    match op with
    | Operation.ListIdentities =>
        if user_id peer =? ROOT_UID
        then Some (enrollment_owner_user_id <$> recorded_owner, Root, false)
        else
          match recorded_owner with
          | Some owner =>
              if user_id peer =? enrollment_owner_user_id owner
              then Some (Some (user_id peer), RecordedOwner, false) else None
          | None => None
          end
    | _ =>
        match Operation.target_user_id op with
        | None => None
        | Some target =>
            if negb (user_id peer =? ROOT_UID) && negb (user_id peer =? target) then None
            else
              match recorded_owner with
              | Some _ =>
                  Some (Some target,
                        if user_id peer =? ROOT_UID then Root else RecordedOwner, false)
              | None =>
                  if Operation.is_enroll op
                  then Some (Some target,
                             if user_id peer =? ROOT_UID then Root else FirstOwnerNominee, true)
                  else None
              end
        end
    end.

(** The target is not the recorded owner: the [if let] of [dispatch_standard]. *)
Definition wrong_owner (recorded_owner : option AccessPolicy) (op : Operation.t) : bool :=
  match recorded_owner, Operation.target_user_id op with
  | Some owner, Some target => negb (target =? enrollment_owner_user_id owner)
  | _, _ => false
  end.

(** [BrokerState::dispatch_standard]. *)
Definition dispatch_standard (st : BrokerState) (peer : PeerMetadata)
    (recorded_owner : option AccessPolicy) (op : Operation.t)
    : StandardBrokerDecision * BrokerState :=
  match authorize peer recorded_owner op with
  | None => (standard_reply Outcome.Error, st)
  | Some (target_user_id, authority, nominated_first_owner) =>
      if wrong_owner recorded_owner op
      then (standard_reply (if Operation.is_enroll op then Outcome.SecondOwner
                            else Outcome.Error), st)
      else
        match AuthProtocol.start_token st with
        | (AuthProtocol.TokenAdmission.Start token, st) =>
            (Start (mkAuthorized token BIOMETRIC_USER_ID target_user_id authority
                      nominated_first_owner op), st)
        | (AuthProtocol.TokenAdmission.Busy, st) => (standard_reply Outcome.Busy, st)
        | (AuthProtocol.TokenAdmission.Failed, st) => (standard_reply Outcome.Error, st)
        end
  end.

(** [BrokerState::cancel_standard]. *)
Definition cancel_standard {W} (st : BrokerState) (o : AuthorizedStandardOperation)
    (deliver : OperationToken -> W -> bool * W) (w : W) : bool * BrokerState * W :=
  AuthProtocol.cancel_token st (aso_token o) deliver w.

(** [BrokerState::standard_client_disconnected]. *)
Definition standard_client_disconnected {W} (st : BrokerState) (o : AuthorizedStandardOperation)
    (deliver : OperationToken -> W -> bool * W) (w : W) : bool * BrokerState * W :=
  AuthProtocol.cancel_token st (aso_token o) deliver w.

(** [result_is_compatible]. *)
Definition result_is_compatible (o : AuthorizedStandardOperation) (result : Server.t) : bool :=
  let kind := Operation.kind (operation o) in
  match result with
  | Server.IdentityList owner identities =>
      bool_decide (kind = StandardProtocol.OperationKind.ListIdentities) &&
      match identities with
      | [] => match owner with None => true | Some _ => false end
      | _ => match owner with Some _ => true | None => false end &&
             match aso_target_user_id o with Some _ => true | None => false end
      end
  | Server.Terminal
      (Outcome.Cancelled | Outcome.DeviceLost | Outcome.Unsupported | Outcome.Error) => true
  | Server.Terminal (Outcome.Enrolled _ | Outcome.Duplicate | Outcome.CapacityFull) =>
      bool_decide (kind = StandardProtocol.OperationKind.Enroll)
  | Server.Terminal (Outcome.Matched actual) =>
      match operation o with
      | Operation.Verify _ i => bool_decide (i = actual)
      | Operation.Identify _ => true
      | _ => false
      end
  | Server.Terminal Outcome.NoMatch =>
      bool_decide (kind = StandardProtocol.OperationKind.Verify) ||
      bool_decide (kind = StandardProtocol.OperationKind.Identify)
  | Server.Terminal Outcome.Completed =>
      bool_decide (kind = StandardProtocol.OperationKind.DeleteIdentity)
  | Server.Capabilities _ | Server.Opened | Server.EnrollProgress _
  | Server.Terminal (Outcome.Busy | Outcome.SecondOwner) => false
  end.

(** [BrokerState::finish_standard]. *)
Definition finish_standard (st : BrokerState) (o : AuthorizedStandardOperation)
    (result : Server.t) : option Server.t * BrokerState :=
  let compatible := result_is_compatible o result in
  match AuthProtocol.finish_token st (aso_token o) with
  | (None, st) => (None, st)
  | (Some was_cancelled, st) =>
      (Some (if was_cancelled then Server.Terminal Outcome.Cancelled
             else if compatible then result
             else Server.Terminal Outcome.Error), st)
  end.

(** ** Authorization *)

(** Who may start which operation, for whom: nothing is started for a remote
    peer; a listing needs root or the recorded owner; any other operation is on
    an account that is the peer's own or is named by root, and that account is
    the recorded owner, or, without a recorded owner, enrolls as the first. *)
Definition start_rule (peer : PeerMetadata) (owner : option AccessPolicy) (op : Operation.t)
    (target : option Z) (auth : StandardPeerAuthority) (nominated : bool) : Prop :=
  address_family peer = AuthProtocol.Local /\
  auth = (if user_id peer =? ROOT_UID then Root
          else if nominated then FirstOwnerNominee else RecordedOwner) /\
  match Operation.target_user_id op with
  | None =>
      nominated = false /\ target = enrollment_owner_user_id <$> owner /\
      (user_id peer = ROOT_UID \/ Some (user_id peer) = target)
  | Some account =>
      target = Some account /\ (user_id peer = ROOT_UID \/ user_id peer = account) /\
      match owner with
      | Some o => nominated = false /\ account = enrollment_owner_user_id o
      | None => nominated = true /\ Operation.is_enroll op = true
      end
  end.

Lemma authorize_iff peer owner op target auth nominated :
  (authorize peer owner op = Some (target, auth, nominated) /\ wrong_owner owner op = false) <->
  start_rule peer owner op target auth nominated.
Proof.
  unfold authorize, wrong_owner, start_rule. case_bool_decide; cbn [negb]; [|by split; intros []].
  destruct (Operation.target_user_id op) as [account|] eqn:Ht.
  - assert (match op with Operation.ListIdentities => False | _ => True end) as Hop by (by destruct op).
    transitivity ((if negb (user_id peer =? ROOT_UID) && negb (user_id peer =? account) then None
      else match owner with
           | Some _ => Some (Some account, if user_id peer =? ROOT_UID then Root else RecordedOwner, false)
           | None => if Operation.is_enroll op
                     then Some (Some account, if user_id peer =? ROOT_UID then Root else FirstOwnerNominee, true)
                     else None
           end) = Some (target, auth, nominated) /\
      match owner with
      | Some o => negb (account =? enrollment_owner_user_id o)
      | None => false
      end = false); [by destruct op|].
    destruct (_ && _) eqn:Hp.
    { split; [by intros []|]. intros (_ & _ & _ & ? & _). lia. }
    assert (user_id peer = ROOT_UID \/ user_id peer = account) as Hu by lia.
    destruct owner as [o|]; [|destruct (Operation.is_enroll op)].
    + split.
      * intros [[= <- <- <-] Hw]. b2p. done.
      * intros (_ & -> & -> & _ & -> & ->). by rewrite Z.eqb_refl.
    + split; [intros [[= <- <- <-] _]; done|]. by intros (_ & -> & -> & _ & -> & _).
    + split; [by intros []|]. by intros (_ & _ & _ & _ & _ & ?).
  - destruct op; try discriminate. clear Ht.
    destruct owner as [o|]; cbn [fmap option_fmap option_map];
      destruct (user_id peer =? ROOT_UID) eqn:H0; b2p.
    + split; [intros [[= <- <- <-] _]; auto 10|]. by intros (_ & -> & -> & -> & _).
    + destruct (_ =? _) eqn:H1; b2p; split.
      * intros [[= <- <- <-] _]. rewrite H1. auto 10.
      * intros (_ & -> & -> & -> & _). by rewrite H1.
      * by intros [].
      * intros (_ & _ & _ & -> & [?|?]); simplify_eq; done.
    + split; [intros [[= <- <- <-] _]; auto 10|]. by intros (_ & -> & -> & -> & _).
    + split; [by intros []|]. intros (_ & _ & _ & -> & [?|?]); done.
Qed.

(** A standard operation starts exactly when the broker is free, its token
    counter is not exhausted and the authorization rule holds for the kernel
    peer, the recorded owner and the resolved account; the operation is bound
    to the issued token, the target account and the proven authority. *)
Theorem standard_start_iff st peer owner op o st' :
  dispatch_standard st peer owner op = (Start o, st') <->
  start_rule peer owner op (aso_target_user_id o) (authority o) (nominated_first_owner o) /\
  operation o = op /\ aso_biometric_user_id o = BIOMETRIC_USER_ID /\
  AuthProtocol.start_token st = (AuthProtocol.TokenAdmission.Start (aso_token o), st').
Proof.
  rewrite <- authorize_iff. unfold dispatch_standard. split.
  - intros H. destruct (authorize peer owner op) as [[[t a] n]|] eqn:Ha; [|by simplify_eq].
    destruct (wrong_owner owner op) eqn:Hw; [by simplify_eq|].
    destruct (AuthProtocol.start_token st) as [[] s2] eqn:Hs; simplify_eq. done.
  - intros ([Ha Hw] & Hop & Hb & Hs). rewrite Ha, Hw, Hs. destruct o; cbn in *. by subst.
Qed.

(** The account of an operation is accepted only as the name system resolved
    it: the asserted name is the canonical one and the user is not root. *)
Lemma account_new_iff asserted canonical uid a :
  account_new asserted canonical uid = Ok a <->
  asserted = canonical /\ uid <> ROOT_UID /\ a = mkAccount asserted uid.
Proof.
  unfold account_new. case_bool_decide as He; cbn [negb]; [subst|split; [done|by intros []]].
  destruct (uid =? _) eqn:H; b2p; [split; [done|by intros (_ & ? & _)]|].
  split; [intros; by simplify_eq|]. by intros (_ & _ & ->).
Qed.

(** ** Results *)

(** The replies that report success belong to one operation each. *)
Definition reports (o : AuthorizedStandardOperation) (m : Server.t) : Prop :=
  match m with
  | Server.Terminal (Outcome.Matched i) =>
      (exists a, operation o = Operation.Verify a i) \/
      (exists a, operation o = Operation.Identify a)
  | Server.Terminal (Outcome.Enrolled _) => exists a f, operation o = Operation.Enroll a f
  | Server.Terminal Outcome.Completed => exists a i, operation o = Operation.DeleteIdentity a i
  | Server.IdentityList owner ids =>
      operation o = Operation.ListIdentities /\
      (ids = [] <-> owner = None) /\ (ids <> [] -> aso_target_user_id o <> None)
  | Server.Terminal (Outcome.Busy | Outcome.SecondOwner) | Server.Capabilities _
  | Server.Opened | Server.EnrollProgress _ => False
  | _ => True
  end.

Lemma compatible_reports o m : result_is_compatible o m = true -> reports o m.
Proof.
  unfold result_is_compatible, reports.
  destruct m as [c| |owner ids|q|x]; try done.
  - intros H. apply andb_true_iff in H as [Hk H]. apply bool_decide_eq_true in Hk.
    destruct (operation o) eqn:Ho; try done.
    destruct ids, owner, (aso_target_user_id o); done.
  - destruct x, (operation o) eqn:Ho; cbn; try done; eauto.
    intros ->%bool_decide_eq_true. eauto.
Qed.

(** A standard operation ends with the worker's reply only if it was not
    cancelled and the reply fits the operation: a match is reported only for
    verifying exactly that identity or for identifying, an enrolled identity
    only for an enrollment, a deletion only for a deletion, a list only for a
    listing and with an owner exactly when it is not empty. A cancelled
    operation always ends as cancelled, and an operation that is no longer the
    active one ends with nothing and changes nothing. *)
Theorem standard_finish_exact st o result :
  match finish_standard st o result with
  | (None, st') =>
      st' = st /\
      forall a, AuthProtocol.active st = Some a -> AuthProtocol.token a <> aso_token o
  | (Some reply, st') =>
      exists c, AuthProtocol.active st = Some (AuthProtocol.mkActive (aso_token o) c) /\
      AuthProtocol.active st' = None /\ reports o reply /\
      (c = true -> reply = Server.Terminal Outcome.Cancelled) /\
      (c = false -> reply = result \/
         (reply = Server.Terminal Outcome.Error /\ result_is_compatible o result = false))
  end.
Proof.
  unfold finish_standard, AuthProtocol.finish_token.
  destruct (AuthProtocol.active st) as [[t c]|] eqn:Ha; cbn; [|done].
  destruct (t =? aso_token o) eqn:Ht; b2p; cbn [negb].
  - subst t. exists c. split_and!; try done.
    + destruct c; [done|]. destruct (result_is_compatible o result) eqn:Hc; [|done].
      by apply compatible_reports.
    + by intros ->.
    + intros ->. destruct (result_is_compatible o result); auto.
  - split; [done|]. by intros a [= <-].
Qed.

(** ** One token for both kinds of operations *)

Inductive event : Type :=
| Legacy (e : AuthProtocol.event)
| Dispatch (peer : PeerMetadata) (owner : option AccessPolicy) (op : Operation.t)
| CancelStandard (o : AuthorizedStandardOperation) (delivers : bool)
| FinishStandard (o : AuthorizedStandardOperation) (result : Server.t).

Inductive milestone : Type :=
| LegacyMilestone (m : AuthProtocol.milestone)
| StandardStarted (peer : PeerMetadata) (owner : option AccessPolicy)
    (o : AuthorizedStandardOperation)
| StandardCancelled (t : OperationToken)
| StandardCompleted (o : AuthorizedStandardOperation) (result reply : Server.t).

Definition mixed_step (st : BrokerState) (e : event) : list milestone * BrokerState :=
  match e with
  | Legacy e => let (ms, st) := AuthProtocol.broker_step st e in (LegacyMilestone <$> ms, st)
  | Dispatch peer owner op =>
      let (d, st) := dispatch_standard st peer owner op in
      (match d with Start o => [StandardStarted peer owner o] | Reply _ => [] end, st)
  | CancelStandard o b =>
      let '(r, st, _) := cancel_standard st o (fun _ w => (b, w)) tt in
      (if r then [StandardCancelled (aso_token o)] else [], st)
  | FinishStandard o result =>
      let (r, st) := finish_standard st o result in
      (match r with Some reply => [StandardCompleted o result reply] | None => [] end, st)
  end.

Fixpoint mixed_run (st : BrokerState) (es : list event) : list milestone * BrokerState :=
  match es with
  | [] => ([], st)
  | e :: es =>
      let (ms, st) := mixed_step st e in
      let (ms', st) := mixed_run st es in (ms ++ ms', st)
  end.

Inductive mixed_move : AuthProtocol.progress -> milestone -> AuthProtocol.progress -> Prop :=
| mixed_legacy pr m pr' : AuthProtocol.move pr m pr' -> mixed_move pr (LegacyMilestone m) pr'
| mixed_start last peer owner o :
    last < aso_token o <= umax 64 ->
    start_rule peer owner (operation o) (aso_target_user_id o) (authority o)
      (nominated_first_owner o) ->
    mixed_move (last, None) (StandardStarted peer owner o)
      (aso_token o, Some (aso_token o, false))
| mixed_cancel last t c :
    mixed_move (last, Some (t, c)) (StandardCancelled t) (last, Some (t, true))
| mixed_finish last c o result reply :
    reports o reply ->
    (c = true -> reply = Server.Terminal Outcome.Cancelled) ->
    (c = false -> reply = result \/ reply = Server.Terminal Outcome.Error) ->
    mixed_move (last, Some (aso_token o, c)) (StandardCompleted o result reply) (last, None).

Inductive mixed_contract : AuthProtocol.progress -> list milestone -> Prop :=
| mixed_nil pr : mixed_contract pr []
| mixed_cons pr m pr' ms :
    mixed_move pr m pr' -> mixed_contract pr' ms -> mixed_contract pr (m :: ms).

Lemma finish_standard_spec st pr o result r st' :
  AuthProtocol.broker_rel st pr -> finish_standard st o result = (r, st') ->
  match r with
  | None => st' = st
  | Some reply =>
      exists c, pr = (fst pr, Some (aso_token o, c)) /\
      AuthProtocol.broker_rel st' (fst pr, None) /\ reports o reply /\
      (c = true -> reply = Server.Terminal Outcome.Cancelled) /\
      (c = false -> reply = result \/ reply = Server.Terminal Outcome.Error)
  end.
Proof.
  intros Hrel H. unfold finish_standard in H.
  destruct (AuthProtocol.finish_token st (aso_token o)) as [w s2] eqn:Hf.
  pose proof (AuthProtocol.finish_token_spec _ _ _ _ _ Hrel Hf) as Hs.
  destruct w as [c|]; simplify_eq; [|done]. destruct Hs as [Hpr Hrel'].
  exists c. split_and!; try done.
  - destruct c; [done|]. destruct (result_is_compatible o result) eqn:Hc; [|done].
    by apply compatible_reports.
  - by intros ->.
  - intros ->. destruct (result_is_compatible o result); auto.
Qed.

Lemma mixed_step_contract st pr e ms st' :
  AuthProtocol.broker_rel st pr -> mixed_step st e = (ms, st') ->
  (ms = [] /\ AuthProtocol.broker_rel st' pr) \/
  (exists m pr', ms = [m] /\ mixed_move pr m pr' /\ AuthProtocol.broker_rel st' pr').
Proof.
  intros Hrel H. destruct e as [e|peer owner op|o b|o result]; cbn in H.
  - destruct (AuthProtocol.broker_step st e) as [ms' s2] eqn:Hs. simplify_eq.
    destruct (AuthProtocol.broker_step_contract _ _ _ _ _ Hrel Hs)
      as [[-> ?]|(m & pr' & -> & Hm & ?)]; [by left|right].
    exists (LegacyMilestone m), pr'. split_and!; [done|by constructor|done].
  - destruct (dispatch_standard st peer owner op) as [d s2] eqn:Hd. simplify_eq.
    unfold dispatch_standard in Hd.
    destruct (authorize peer owner op) as [[[t a] n]|] eqn:Ha; [|simplify_eq; by left].
    destruct (wrong_owner owner op) eqn:Hw; [simplify_eq; by left|].
    destruct (AuthProtocol.start_token st) as [r s3] eqn:Hs.
    pose proof (AuthProtocol.start_token_spec _ _ _ _ Hrel Hs) as Hr.
    destruct r as [tok| |]; simplify_eq; [|by left..]. destruct Hr as (-> & Ht & Hrel').
    right. do 2 eexists. split_and!; [done| |done]. apply mixed_start; [done|].
    by apply authorize_iff.
  - destruct (cancel_standard st o _ tt) as [[r s2] w] eqn:Hc. simplify_eq.
    apply AuthProtocol.cancel_token_spec in Hc as [[-> ->]|(-> & c & Hact & ->)]; [by left|right].
    destruct (AuthProtocol.rel_cancel _ _ _ _ Hrel Hact) as [-> Hrel'].
    do 2 eexists. split_and!; [done|by constructor|done].
  - destruct (finish_standard st o result) as [r s2] eqn:Hf. simplify_eq.
    pose proof (finish_standard_spec _ _ _ _ _ _ Hrel Hf) as Hs.
    destruct r as [reply|]; [|subst; by left]. destruct Hs as (c & -> & Hrel' & ? & ? & ?).
    right. do 2 eexists. split_and!; [done|by apply mixed_finish|done].
Qed.

Lemma mixed_run_contract st pr es :
  AuthProtocol.broker_rel st pr -> mixed_contract pr (fst (mixed_run st es)).
Proof.
  revert st pr. induction es as [|e es IH]; intros st pr Hrel; cbn; [constructor|].
  destruct (mixed_step st e) as [ms st'] eqn:Hs.
  destruct (mixed_step_contract _ _ _ _ _ Hrel Hs) as [[-> Hrel']|(m & pr' & -> & Hm & Hrel')];
    specialize (IH st' _ Hrel'); destruct (mixed_run st' es); cbn in *; [done|].
  by eapply mixed_cons.
Qed.

(** C3. The fixed authentication requests and the standard fingerprint operations
    share one token: on every interleaving of both, at most one operation of
    either kind is in progress, every start has a token above all earlier ones
    and an authorized peer, and each operation ends once, as cancelled if it was
    cancelled and with a fitting reply otherwise. *)
Theorem operations_share_one_token es :
  mixed_contract (0, None) (fst (mixed_run AuthProtocol.broker_default es)).
Proof. apply mixed_run_contract, AuthProtocol.broker_default_rel. Qed.

End StandardAuthority.
