(* ===== verification/AuthSession.v ===== *)
(** * Authentication sessions
    ([crates/t1-daemons/src/auth_session.rs], the cancellation slot of
    [overlay.rs], [auth_feedback.rs])

    The coordinator joins the broker state with the delivery of cancellations to
    the worker that runs the operation. A worker and the coordinator share an
    [Arc<AtomicBool>] event and an [Arc<CancellationSlot>]; both are pointers
    into a modelled memory, so that [Arc::ptr_eq] is equality of pointers and a
    change through one handle is seen through the others. The mutex of the slot
    may be poisoned, which every operation of the source answers fail closed. *)

From S2P Require Import Prelude AuthProtocol StandardProtocol StandardAuthority.

Module AuthSession.

Import AuthProtocol(PeerMetadata, AccessPolicy, BrokerState, OperationToken).
Module Response := AuthProtocol.Response.
Module OperationResult := AuthProtocol.OperationResult.
Module Outcome := StandardProtocol.TerminalOutcome.
Module Server := StandardProtocol.ServerMessage.

(** ** Shared memory *)

Definition ptr : Type := nat.

Record CancellationRegistration : Type := mkRegistration {
  reg_token : OperationToken;
  reg_event : ptr;
}.

Record CancellationSlot : Type := mkSlot {
  lock_poisoned : bool;
  registration : option CancellationRegistration;
}.

Record Memory : Type := mkMemory {
  events : gmap ptr bool;
  slots : gmap ptr CancellationSlot;
  next_ptr : ptr;
}.

(** [Arc::new(AtomicBool::new(false))]. *)
Definition new_event (m : Memory) : ptr * Memory :=
  (next_ptr m, mkMemory (<[next_ptr m := false]> (events m)) (slots m) (S (next_ptr m))).

(** [Arc::new(CancellationSlot::default())]. *)
Definition new_slot (m : Memory) : ptr * Memory :=
  (next_ptr m,
   mkMemory (events m) (<[next_ptr m := mkSlot false None]> (slots m)) (S (next_ptr m))).

(** [event.load(Ordering::Acquire)]. *)
Definition load (m : Memory) (e : ptr) : bool := default false (events m !! e).

(** [event.store(true, Ordering::Release)]. *)
Definition store_true (m : Memory) (e : ptr) : Memory :=
  mkMemory (<[e := true]> (events m)) (slots m) (next_ptr m).

Definition slot_at (m : Memory) (s : ptr) : CancellationSlot :=
  default (mkSlot false None) (slots m !! s).

(** [*current = r] under the lock. *)
Definition set_registration (m : Memory) (s : ptr) (r : option CancellationRegistration)
    : Memory :=
  mkMemory (events m) (<[s := mkSlot (lock_poisoned (slot_at m s)) r]> (slots m)) (next_ptr m).

(** The registration is exactly this token and this event. *)
Definition is_registered (r : option CancellationRegistration) (t : OperationToken) (e : ptr)
    : bool :=
  match r with
  | Some i => (reg_token i =? t) && bool_decide (reg_event i = e)
  | None => false
  end.

(** [CancellationSlot::install]; [true] is [Ok]. *)
Definition install (m : Memory) (s : ptr) (t : OperationToken) (e : ptr) : bool * Memory :=
  if lock_poisoned (slot_at m s) then (false, m)
  else
    match registration (slot_at m s) with
    | Some _ => (false, m)
    | None => (true, set_registration m s (Some (mkRegistration t e)))
    end.

(** [CancellationSlot::clear]. *)
Definition clear (m : Memory) (s : ptr) (t : OperationToken) (e : ptr) : Memory :=
  if lock_poisoned (slot_at m s) then m
  else if is_registered (registration (slot_at m s)) t e
  then set_registration m s None else m.

(** [CancellationSlot::close]. *)
Definition close (m : Memory) (s : ptr) (t : OperationToken) (e : ptr) : bool * Memory :=
  if lock_poisoned (slot_at m s) then (false, m)
  else
    match registration (slot_at m s) with
    | None => (false, m)
    | Some installed =>
        if negb (reg_token installed =? t) || negb (bool_decide (reg_event installed = e))
        then (false, m)
        else
          let accepted := load m (reg_event installed) in
          (negb accepted, set_registration m s None)
    end.

(** [CancellationSlot::deliver]. *)
Definition deliver (s : ptr) (t : OperationToken) (m : Memory) : bool * Memory :=
  if lock_poisoned (slot_at m s) then (false, m)
  else
    match registration (slot_at m s) with
    | None => (false, m)
    | Some r =>
        if negb (reg_token r =? t) then (false, m)
        else (true, store_true m (reg_event r))
    end.

(** ** Handles *)

Record ActiveAuthentication : Type := mkActiveAuth {
  auth_operation : AuthProtocol.Operation;
  auth_event : ptr;
  auth_slot : ptr;
}.

(** [ActiveAuthentication::is_cancelled], [close_cancellation],
    [clear_delivery]. *)
Definition auth_is_cancelled (m : Memory) (a : ActiveAuthentication) : bool :=
  load m (auth_event a).
Definition auth_close_cancellation (m : Memory) (a : ActiveAuthentication) : bool * Memory :=
  close m (auth_slot a) (AuthProtocol.op_token (auth_operation a)) (auth_event a).
Definition auth_clear_delivery (m : Memory) (a : ActiveAuthentication) : Memory :=
  clear m (auth_slot a) (AuthProtocol.op_token (auth_operation a)) (auth_event a).

Record ActiveStandardOperation : Type := mkActiveStd {
  std_operation : StandardAuthority.AuthorizedStandardOperation;
  std_event : ptr;
  std_slot : ptr;
}.

(** [ActiveStandardOperation::is_cancelled], [close_cancellation],
    [clear_delivery]. *)
Definition std_is_cancelled (m : Memory) (a : ActiveStandardOperation) : bool :=
  load m (std_event a).
Definition std_close_cancellation (m : Memory) (a : ActiveStandardOperation) : bool * Memory :=
  close m (std_slot a) (StandardAuthority.aso_token (std_operation a)) (std_event a).
Definition std_clear_delivery (m : Memory) (a : ActiveStandardOperation) : Memory :=
  clear m (std_slot a) (StandardAuthority.aso_token (std_operation a)) (std_event a).

Module MatchOutcome.
Inductive t : Type := Matched | NoMatch | Cancelled | TimedOut.
End MatchOutcome.

Module SessionFailure.
(** [AuthenticationSessionFailure]. *)
Inductive t : Type :=
| InvalidOperationUser | RelayInactive | RelayHealth | RelayStop | ExclusiveSepAndAcm
| RelayRecovery | InvalidCredential | OperationFailed.
End SessionFailure.

Record AuthenticationCompletion : Type := mkCompletion {
  comp_token : OperationToken;
  comp_event : ptr;
  comp_slot : ptr;
  comp_result : MatchOutcome.t + SessionFailure.t;
}.

(** [AuthenticationCompletion::new]. *)
Definition completion_new (a : ActiveAuthentication) (r : MatchOutcome.t + SessionFailure.t)
    : AuthenticationCompletion :=
  mkCompletion (AuthProtocol.op_token (auth_operation a)) (auth_event a) (auth_slot a) r.

(** [AuthenticationCompletion::belongs_to]. *)
Definition belongs_to (c : AuthenticationCompletion) (a : ActiveAuthentication) : bool :=
  (comp_token c =? AuthProtocol.op_token (auth_operation a))
  && bool_decide (comp_event c = auth_event a) && bool_decide (comp_slot c = auth_slot a).

Record StandardCompletion : Type := mkStdCompletion {
  scomp_token : OperationToken;
  scomp_event : ptr;
  scomp_slot : ptr;
  scomp_result : Server.t;
}.

(** [StandardCompletion::new]. *)
Definition std_completion_new (a : ActiveStandardOperation) (result : Server.t)
    : StandardCompletion :=
  let result :=
    match result with
    | Server.IdentityList _ _ | Server.Terminal _ => result
    | Server.Capabilities _ | Server.Opened | Server.EnrollProgress _ =>
        Server.Terminal Outcome.Error
    end in
  mkStdCompletion (StandardAuthority.aso_token (std_operation a)) (std_event a) (std_slot a) result.

(** [StandardCompletion::belongs_to]. *)
Definition std_belongs_to (c : StandardCompletion) (a : ActiveStandardOperation) : bool :=
  (scomp_token c =? StandardAuthority.aso_token (std_operation a))
  && bool_decide (scomp_event c = std_event a) && bool_decide (scomp_slot c = std_slot a).

Module SessionDecision.
Inductive t : Type := Reply (r : Response.t) | Start (a : ActiveAuthentication).
End SessionDecision.

Module StandardSessionDecision.
Inductive t : Type := Reply (m : Server.t) | Start (a : ActiveStandardOperation).
End StandardSessionDecision.

(** ** The coordinator *)

Record BrokerSessionCoordinator : Type := mkCoordinator {
  state : BrokerState;
  cancellation : ptr;
}.

(** [BrokerSessionCoordinator::default]. *)
Definition coordinator_default (m : Memory) : BrokerSessionCoordinator * Memory :=
  let (s, m) := new_slot m in (mkCoordinator AuthProtocol.broker_default s, m).

(** [BrokerSessionCoordinator::install_decision]. *)
Definition install_decision (c : BrokerSessionCoordinator) (m : Memory)
    (decision : AuthProtocol.BrokerDecision)
    : SessionDecision.t * BrokerSessionCoordinator * Memory :=
  match decision with
  | AuthProtocol.Reply response => (SessionDecision.Reply response, c, m)
  | AuthProtocol.Start operation =>
      let (event, m) := new_event m in
      match install m (cancellation c) (AuthProtocol.op_token operation) event with
      | (false, m) =>
          let (_, st) := AuthProtocol.finish (state c) (AuthProtocol.op_token operation)
                           OperationResult.Failed in
          (SessionDecision.Reply Response.Failure, mkCoordinator st (cancellation c), m)
      | (true, m) =>
          (SessionDecision.Start (mkActiveAuth operation event (cancellation c)), c, m)
      end
  end.

(** [BrokerSessionCoordinator::dispatch]. *)
Definition dispatch (c : BrokerSessionCoordinator) (m : Memory) (peer : PeerMetadata)
    (policy : AccessPolicy) (packet : bytes)
    : SessionDecision.t * BrokerSessionCoordinator * Memory :=
  let '(decision, st, m) :=
    AuthProtocol.handle_packet_with_cancellation (state c) peer policy packet
      (deliver (cancellation c)) m in
  install_decision (mkCoordinator st (cancellation c)) m decision.

(** [BrokerSessionCoordinator::enroll_without_owner]. *)
Definition enroll_without_owner (c : BrokerSessionCoordinator) (m : Memory) (peer : PeerMetadata)
    : SessionDecision.t * BrokerSessionCoordinator * Memory :=
  let (decision, st) := AuthProtocol.enroll_without_owner (state c) peer in
  install_decision (mkCoordinator st (cancellation c)) m decision.

(** [BrokerSessionCoordinator::install_standard_decision]. *)
Definition install_standard_decision (c : BrokerSessionCoordinator) (m : Memory)
    (decision : StandardAuthority.StandardBrokerDecision)
    : StandardSessionDecision.t * BrokerSessionCoordinator * Memory :=
  match decision with
  | StandardAuthority.Reply response => (StandardSessionDecision.Reply response, c, m)
  | StandardAuthority.Start operation =>
      let (event, m) := new_event m in
      match install m (cancellation c) (StandardAuthority.aso_token operation) event with
      | (false, m) =>
          let (response, st) :=
            StandardAuthority.finish_standard (state c) operation
              (Server.Terminal Outcome.Error) in
          (StandardSessionDecision.Reply (default (Server.Terminal Outcome.Error) response),
           mkCoordinator st (cancellation c), m)
      | (true, m) =>
          (StandardSessionDecision.Start (mkActiveStd operation event (cancellation c)), c, m)
      end
  end.

(** [BrokerSessionCoordinator::dispatch_standard]. *)
Definition dispatch_standard (c : BrokerSessionCoordinator) (m : Memory) (peer : PeerMetadata)
    (recorded_owner : option AccessPolicy) (operation : StandardAuthority.Operation.t)
    : StandardSessionDecision.t * BrokerSessionCoordinator * Memory :=
  let (decision, st) :=
    StandardAuthority.dispatch_standard (state c) peer recorded_owner operation in
  install_standard_decision (mkCoordinator st (cancellation c)) m decision.

(** [BrokerSessionCoordinator::cancel_without_owner]; the [else] branch is
    [unreachable!], so its decision is a panic. *)
Definition cancel_without_owner (c : BrokerSessionCoordinator) (m : Memory) (peer : PeerMetadata)
    : res False Response.t * BrokerSessionCoordinator * Memory :=
  let '(decision, st, m) :=
    AuthProtocol.cancel_without_owner (state c) peer (deliver (cancellation c)) m in
  (match decision with
   | AuthProtocol.Reply response => Ok response
   | AuthProtocol.Start _ => Panic
   end, mkCoordinator st (cancellation c), m).

(** [BrokerSessionCoordinator::client_disconnected]. *)
Definition client_disconnected (c : BrokerSessionCoordinator) (m : Memory)
    (a : ActiveAuthentication) : bool * BrokerSessionCoordinator * Memory :=
  if negb (bool_decide (auth_slot a = cancellation c)) then (false, c, m)
  else
    let '(r, st, m) :=
      AuthProtocol.client_disconnected (state c) (AuthProtocol.op_token (auth_operation a))
        (deliver (cancellation c)) m in
    (r, mkCoordinator st (cancellation c), m).

(** [BrokerSessionCoordinator::cancel_standard]. *)
Definition cancel_standard (c : BrokerSessionCoordinator) (m : Memory)
    (a : ActiveStandardOperation) : bool * BrokerSessionCoordinator * Memory :=
  if negb (bool_decide (std_slot a = cancellation c)) then (false, c, m)
  else
    let '(r, st, m) :=
      StandardAuthority.cancel_standard (state c) (std_operation a) (deliver (cancellation c)) m in
    (r, mkCoordinator st (cancellation c), m).

(** [BrokerSessionCoordinator::standard_client_disconnected]. *)
Definition standard_client_disconnected (c : BrokerSessionCoordinator) (m : Memory)
    (a : ActiveStandardOperation) : bool * BrokerSessionCoordinator * Memory :=
  if negb (bool_decide (std_slot a = cancellation c)) then (false, c, m)
  else
    let '(r, st, m) :=
      StandardAuthority.standard_client_disconnected (state c) (std_operation a)
        (deliver (cancellation c)) m in
    (r, mkCoordinator st (cancellation c), m).

(** The result code of a completion. *)
Definition operation_result (r : MatchOutcome.t + SessionFailure.t) : OperationResult.t :=
  match r with
  | inl MatchOutcome.Matched => OperationResult.Matched
  | inl MatchOutcome.NoMatch => OperationResult.NoMatch
  | inl MatchOutcome.Cancelled => OperationResult.Cancelled
  | inl MatchOutcome.TimedOut => OperationResult.Unavailable
  | inr _ => OperationResult.Failed
  end.

(** [BrokerSessionCoordinator::finalize]. *)
Definition finalize (c : BrokerSessionCoordinator) (m : Memory)
    (completion : AuthenticationCompletion)
    : Response.t * bool * BrokerSessionCoordinator * Memory :=
  if negb (bool_decide (comp_slot completion = cancellation c))
  then (Response.Failure, false, c, m)
  else
    let m := clear m (cancellation c) (comp_token completion) (comp_event completion) in
    let was_cancelled := AuthProtocol.is_cancelled (state c) (comp_token completion) in
    match AuthProtocol.finish (state c) (comp_token completion)
            (operation_result (comp_result completion)) with
    | (None, st) => (Response.Failure, false, mkCoordinator st (cancellation c), m)
    | (Some response, st) =>
        (response, negb was_cancelled, mkCoordinator st (cancellation c), m)
    end.

(** [BrokerSessionCoordinator::finish]. *)
Definition finish (c : BrokerSessionCoordinator) (m : Memory)
    (completion : AuthenticationCompletion) : Response.t * BrokerSessionCoordinator * Memory :=
  let '(response, _, c, m) := finalize c m completion in (response, c, m).

(** [BrokerSessionCoordinator::finish_for]. *)
Definition finish_for (c : BrokerSessionCoordinator) (m : Memory) (a : ActiveAuthentication)
    (completion : AuthenticationCompletion) : Response.t * BrokerSessionCoordinator * Memory :=
  if negb (bool_decide (auth_slot a = cancellation c)) || negb (belongs_to completion a)
  then (Response.Failure, c, m)
  else finish c m completion.

(** [BrokerSessionCoordinator::finish_standard]. *)
Definition finish_standard (c : BrokerSessionCoordinator) (m : Memory)
    (a : ActiveStandardOperation) (completion : StandardCompletion)
    : Server.t * BrokerSessionCoordinator * Memory :=
  if negb (bool_decide (std_slot a = cancellation c)) || negb (std_belongs_to completion a)
  then (Server.Terminal Outcome.Error, c, m)
  else
    let m := std_clear_delivery m a in
    let (r, st) :=
      StandardAuthority.finish_standard (state c) (std_operation a) (scomp_result completion) in
    (default (Server.Terminal Outcome.Error) r, mkCoordinator st (cancellation c), m).

(** [BrokerSessionCoordinator::abandon]. *)
Definition abandon (c : BrokerSessionCoordinator) (m : Memory) (a : ActiveAuthentication)
    : Response.t * BrokerSessionCoordinator * Memory :=
  if negb (bool_decide (auth_slot a = cancellation c)) then (Response.Failure, c, m)
  else
    let m := auth_clear_delivery m a in
    let (r, st) := AuthProtocol.finish (state c) (AuthProtocol.op_token (auth_operation a))
                     OperationResult.Failed in
    (default Response.Failure r, mkCoordinator st (cancellation c), m).

(** [BrokerSessionCoordinator::abandon_standard]. *)
Definition abandon_standard (c : BrokerSessionCoordinator) (m : Memory)
    (a : ActiveStandardOperation) : Server.t * BrokerSessionCoordinator * Memory :=
  if negb (bool_decide (std_slot a = cancellation c))
  then (Server.Terminal Outcome.Error, c, m)
  else
    let m := std_clear_delivery m a in
    let (r, st) :=
      StandardAuthority.finish_standard (state c) (std_operation a)
        (Server.Terminal Outcome.Error) in
    (default (Server.Terminal Outcome.Error) r, mkCoordinator st (cancellation c), m).

(** ** Cosmetic feedback *)

Inductive FeedbackAction : Type := ShowRetry | PauseAfterRetry | ShowSuccess | PauseAfterSuccess.

(** The trait [AuthenticationFeedback]: an action succeeds or fails. *)
Class AuthenticationFeedback (F : Type) : Type := apply : FeedbackAction -> F -> bool * F.

(** [feedback.apply(a).and_then(|()| feedback.apply(b))]. *)
Definition apply_both {F} `{AuthenticationFeedback F} (a b : FeedbackAction) (f : F) : F :=
  match apply a f with
  | (true, f) => snd (apply b f)
  | (false, f) => f
  end.

(** [apply_authentication_feedback]; it returns its result unchanged. *)
Definition apply_authentication_feedback {F} `{AuthenticationFeedback F}
    (r : MatchOutcome.t + SessionFailure.t) (feedback : option F) : option F :=
  match r, feedback with
  | inl MatchOutcome.Matched, Some f => Some (apply_both ShowSuccess PauseAfterSuccess f)
  | inl MatchOutcome.NoMatch, Some f => Some (apply_both ShowRetry PauseAfterRetry f)
  | _, _ => feedback
  end.

(** [BrokerSessionCoordinator::finish_with_feedback]. *)
Definition finish_with_feedback {F} `{AuthenticationFeedback F} (c : BrokerSessionCoordinator)
    (m : Memory) (completion : AuthenticationCompletion) (feedback : option F)
    : Response.t * option F * BrokerSessionCoordinator * Memory :=
  let '(response, authoritative, c, m) := finalize c m completion in
  (response,
   if authoritative then apply_authentication_feedback (comp_result completion) feedback
   else feedback, c, m).

(** ** Broker, slot and events stay in step *)

(** What identifies an operation to its worker. *)
Record handle : Type := mkHandle { h_token : OperationToken; h_event : ptr }.

#[global] Instance handle_eq_dec : EqDecision handle.
Proof. solve_decision. Defined.

Definition auth_handle (a : ActiveAuthentication) : handle :=
  mkHandle (AuthProtocol.op_token (auth_operation a)) (auth_event a).
Definition std_handle (a : ActiveStandardOperation) : handle :=
  mkHandle (StandardAuthority.aso_token (std_operation a)) (std_event a).

(** [hs] are the handles given out and [cur] is the operation in progress: the
    broker's active token is its token, the broker's cancellation mark is the
    value of its event, and the slot, unless its lock is poisoned, is empty or
    holds its registration. *)
Record in_step (c : BrokerSessionCoordinator) (m : Memory) (hs : list handle)
    (cur : option handle) : Prop := mkInStep {
  in_step_broker : exists last,
    AuthProtocol.broker_rel (state c)
      (last, (fun h => (h_token h, load m (h_event h))) <$> cur) /\
    Forall (fun h => h_token h <= last) hs;
  in_step_fresh : Forall (fun h => (h_event h < next_ptr m)%nat) hs;
  in_step_unique : forall h1 h2, h1 ∈ hs -> h2 ∈ hs ->
    h_token h1 = h_token h2 \/ h_event h1 = h_event h2 -> h1 = h2;
  in_step_cur : forall h, cur = Some h -> h ∈ hs;
  in_step_slot : lock_poisoned (slot_at m (cancellation c)) = false ->
    forall r, registration (slot_at m (cancellation c)) = Some r ->
    exists h, cur = Some h /\ r = mkRegistration (h_token h) (h_event h);
}.

(** The slot holds the registration of [h], so that a cancellation reaches it. *)
Definition registered (m : Memory) (s : ptr) (h : handle) : Prop :=
  lock_poisoned (slot_at m s) = false /\
  registration (slot_at m s) = Some (mkRegistration (h_token h) (h_event h)).

(** What the passage of time does to the handles given out: an event is never
    reset and is set only through its registration; nothing is registered or
    becomes current again. *)
Record advance (s : ptr) (m : Memory) (hs : list handle) (cur : option handle)
    (m' : Memory) (hs' : list handle) (cur' : option handle) : Prop := mkAdvance {
  advance_issued : hs `prefix_of` hs';
  advance_set : forall h, h ∈ hs -> load m (h_event h) = true -> load m' (h_event h) = true;
  advance_cause : forall h, h ∈ hs -> load m' (h_event h) = true ->
    load m (h_event h) = true \/ registered m s h;
  advance_registered : forall h, h ∈ hs -> registered m' s h -> registered m s h;
  advance_cur : forall h, h ∈ hs -> cur' = Some h -> cur = Some h;
}.

(** The coordinator goes on, in step. *)
Definition proceeds (c : BrokerSessionCoordinator) (m : Memory) (hs : list handle)
    (cur : option handle) (c' : BrokerSessionCoordinator) (m' : Memory) (hs' : list handle)
    (cur' : option handle) : Prop :=
  in_step c' m' hs' cur' /\ cancellation c' = cancellation c /\
  advance (cancellation c) m hs cur m' hs' cur'.

Lemma advance_refl s m hs cur : advance s m hs cur m hs cur.
Proof. split; auto. Qed.

Lemma advance_trans s m1 hs1 cur1 m2 hs2 cur2 m3 hs3 cur3 :
  advance s m1 hs1 cur1 m2 hs2 cur2 -> advance s m2 hs2 cur2 m3 hs3 cur3 ->
  advance s m1 hs1 cur1 m3 hs3 cur3.
Proof.
  intros [P1 S1 C1 R1 U1] [P2 S2 C2 R2 U2].
  assert (forall h, h ∈ hs1 -> h ∈ hs2) as Hsub by (destruct P1 as [k ->]; intros h Hh; apply elem_of_app; by left).
  split; [by etransitivity|eauto| |eauto|eauto].
  intros h Hh Hl. destruct (C2 h (Hsub h Hh) Hl); eauto.
Qed.

Lemma proceeds_refl c m hs cur : in_step c m hs cur -> proceeds c m hs cur c m hs cur.
Proof. intros H. split_and!; [done|done|apply advance_refl]. Qed.

Lemma proceeds_trans c1 m1 hs1 cur1 c2 m2 hs2 cur2 c3 m3 hs3 cur3 :
  proceeds c1 m1 hs1 cur1 c2 m2 hs2 cur2 -> proceeds c2 m2 hs2 cur2 c3 m3 hs3 cur3 ->
  proceeds c1 m1 hs1 cur1 c3 m3 hs3 cur3.
Proof.
  intros (H1 & E1 & A1) (H2 & E2 & A2). split_and!; [done|congruence|].
  rewrite E1 in A2. by eapply advance_trans.
Qed.

(** Leaving the slot alone or emptying it, with the events unchanged. *)
Lemma advance_quiet s m hs cur m' cur' :
  events m' = events m ->
  slot_at m' s = slot_at m s \/ registration (slot_at m' s) = None \/
    lock_poisoned (slot_at m' s) = true ->
  (forall h, cur' = Some h -> cur = Some h) ->
  advance s m hs cur m' hs cur'.
Proof.
  intros He Hs Hc. assert (forall e, load m' e = load m e) as Hl by (intros e; unfold load; by rewrite He).
  split; auto.
  - intros h _. by rewrite Hl.
  - intros h _. rewrite Hl. auto.
  - intros h _ [H1 H2]. destruct Hs as [Hs|[Hs|Hs]]; [|congruence..]. rewrite Hs in *. done.
Qed.

Lemma slot_at_set m s r : slot_at (set_registration m s r) s = mkSlot (lock_poisoned (slot_at m s)) r.
Proof. unfold slot_at, set_registration. cbn. by rewrite lookup_insert_eq. Qed.

Lemma load_set m s r e : load (set_registration m s r) e = load m e.
Proof. done. Qed.

Lemma load_store m e e' : load (store_true m e) e' = if bool_decide (e' = e) then true else load m e'.
Proof.
  unfold load, store_true. cbn. case_bool_decide; subst.
  - by rewrite lookup_insert_eq.
  - by rewrite lookup_insert_ne.
Qed.

Lemma load_new m e : load (snd (new_event m)) e = if bool_decide (e = next_ptr m) then false else load m e.
Proof.
  unfold load, new_event. cbn. case_bool_decide; subst.
  - by rewrite lookup_insert_eq.
  - by rewrite lookup_insert_ne.
Qed.

(** The current operation is known from the broker. *)
Lemma in_step_active c m hs cur :
  in_step c m hs cur ->
  AuthProtocol.active (state c) =
    (fun h => AuthProtocol.mkActive (h_token h) (load m (h_event h))) <$> cur.
Proof.
  intros [(last & (Ha & _) & _) _ _ _ _]. cbn in Ha.
  destruct (AuthProtocol.active (state c)) as [[t b]|], cur as [h|]; cbn in *; congruence.
Qed.

(** Emptying the registration, whatever the reason. *)
Lemma in_step_unregister c m hs cur :
  in_step c m hs cur -> proceeds c m hs cur c (set_registration m (cancellation c) None) hs cur.
Proof.
  intros Hin. split_and!; [|done|].
  - destruct Hin as [H1 H2 H3 H4 H5]. split; try done. rewrite slot_at_set. by intros _ r [=].
  - apply advance_quiet; auto. rewrite slot_at_set. auto.
Qed.

(** A cancellation request, delivered or not. *)
Lemma in_step_cancel c m hs cur t b st' m' :
  in_step c m hs cur ->
  AuthProtocol.cancel_token (state c) t (deliver (cancellation c)) m = (b, st', m') ->
  proceeds c m hs cur (mkCoordinator st' (cancellation c)) m' hs cur /\
  (b = true -> exists h, cur = Some h /\ h_token h = t /\ registered m (cancellation c) h /\
     load m' (h_event h) = true).
Proof.
  intros Hin H. pose proof (in_step_active _ _ _ _ Hin) as Hact.
  assert (forall st2, (false, state c, m) = (b, st2, m') -> st' = st2 ->
    proceeds c m hs cur (mkCoordinator st' (cancellation c)) m' hs cur /\
    (b = true -> exists h, cur = Some h /\ h_token h = t /\ registered m (cancellation c) h /\
     load m' (h_event h) = true)) as Hno.
  { intros st2 [= <- <- <-] ->. split; [|done]. destruct c. by apply proceeds_refl. }
  unfold AuthProtocol.cancel_token in H. rewrite Hact in H.
  destruct cur as [h|]; cbn in H; [|by eapply Hno].
  destruct (h_token h =? t) eqn:Ht; b2p; cbn in H; [|by eapply Hno].
  unfold deliver in H. destruct (lock_poisoned _) eqn:Hlock; cbn in H; [by eapply Hno|].
  destruct (registration _) as [r|] eqn:Hreg; cbn in H; [|by eapply Hno].
  destruct (in_step_slot _ _ _ _ Hin Hlock r Hreg) as (h' & [= <-] & ->). cbn in H.
  rewrite Ht, Z.eqb_refl in H. cbn in H. clear Hno. simplify_eq.
  assert (load (store_true m (h_event h)) (h_event h) = true) as Hload
    by (rewrite load_store; by rewrite bool_decide_eq_true_2).
  split; [|intros _; exists h; split_and!; done].
  pose proof (in_step_cur _ _ _ _ Hin h eq_refl) as Hh. split_and!; [|done|].
  - destruct Hin as [(last & (Ha & Hl & Hn) & Hall) H2 H3 H4 H5]. split; try done. cbn [state].
    exists last. split; [|done]. unfold AuthProtocol.broker_rel. cbn. by rewrite Hload.
  - split; auto.
    + intros h' _ Hl. rewrite load_store. by case_bool_decide.
    + intros h' Hh' Hl. rewrite load_store in Hl. case_bool_decide as He; [|by left].
      right. by rewrite (in_step_unique _ _ _ _ Hin h' h Hh' Hh (or_intror He)).
Qed.

(** Completing with a handle that was given out: it is the current operation,
    which ends, or nothing happens. *)
Lemma in_step_finish c m hs cur h r st' :
  in_step c m hs cur -> h ∈ hs ->
  AuthProtocol.finish_token (state c) (h_token h) = (r, st') ->
  let m' := clear m (cancellation c) (h_token h) (h_event h) in
  (cur = Some h /\ r = Some (load m (h_event h)) /\
   proceeds c m hs cur (mkCoordinator st' (cancellation c)) m' hs None) \/
  (cur <> Some h /\ r = None /\ st' = state c /\ m' = m).
Proof.
  intros Hin Hh H m'. pose proof (in_step_active _ _ _ _ Hin) as Hact.
  unfold AuthProtocol.finish_token in H. rewrite Hact in H.
  assert (forall h', cur = Some h' -> h_token h' = h_token h -> h' = h) as Huniq
    by (intros h' Hc Heq; apply (in_step_unique _ _ _ _ Hin); [by apply (in_step_cur _ _ _ _ Hin)|done|by left]).
  destruct (decide (cur = Some h)) as [->|Hne].
  - left. cbn in H. rewrite Z.eqb_refl in H. cbn in H. simplify_eq. split_and!; try done.
    unfold m', clear. destruct (in_step_broker _ _ _ _ Hin) as (last & (Ha & Hl & Hn) & Hall).
    assert (forall m2, next_ptr m2 = next_ptr m -> events m2 = events m ->
              (lock_poisoned (slot_at m2 (cancellation c)) = false ->
               registration (slot_at m2 (cancellation c)) = None) ->
              proceeds c m hs (Some h)
                (mkCoordinator (AuthProtocol.mkBroker None (AuthProtocol.next_token (state c)))
                   (cancellation c)) m2 hs None) as Hdone.
    { intros m2 Hnext Hev Hslot. split_and!; [split; cbn; try done|done|].
      - by exists last.
      - rewrite Hnext. apply Hin.
      - apply Hin.
      - intros Hp r. by rewrite (Hslot Hp).
      - apply advance_quiet; [done| |done].
        destruct (lock_poisoned (slot_at m2 (cancellation c))); auto. }
    destruct (lock_poisoned _) eqn:Hlock; [apply Hdone; [done|done|congruence]|].
    destruct (is_registered _ _ _) eqn:Hreg; (apply Hdone; [done|done|]); [by rewrite slot_at_set|].
    intros _. destruct (registration _) as [q|] eqn:Hs; [|done].
    destruct (in_step_slot _ _ _ _ Hin Hlock q Hs) as (h' & [= <-] & ->). cbn in Hreg.
    by rewrite Z.eqb_refl, bool_decide_eq_true_2 in Hreg by done.
  - right. split; [done|]. assert (m' = m) as ->.
    { unfold m', clear. destruct (lock_poisoned _) eqn:Hlock; [done|].
      destruct (registration _) as [q|] eqn:Hs; cbn [is_registered]; [|done].
      destruct (in_step_slot _ _ _ _ Hin Hlock q Hs) as (h' & Hc & ->). cbn.
      destruct (_ =? _) eqn:Ht; b2p; [|done]. exfalso. apply Hne. rewrite Hc. f_equal. by apply Huniq. }
    destruct cur as [h'|]; cbn in H; [|by simplify_eq].
    destruct (_ =? _) eqn:Ht; b2p; cbn in H; [|by simplify_eq].
    exfalso. apply Hne. f_equal. by apply Huniq.
Qed.

(** A new handle, registered, becomes the current operation. *)
Lemma in_step_installed c m hs t st' last :
  in_step c m hs None -> AuthProtocol.broker_rel st' (t, Some (t, false)) ->
  Forall (fun h => h_token h <= last) hs -> last < t ->
  let h := mkHandle t (next_ptr m) in
  in_step (mkCoordinator st' (cancellation c))
    (set_registration (snd (new_event m)) (cancellation c) (Some (mkRegistration t (next_ptr m))))
    (hs ++ [h]) (Some h).
Proof.
  intros Hin Hrel Hall Ht h. pose proof (in_step_fresh _ _ _ _ Hin) as Hfresh.
  assert (forall h', h' ∈ hs -> h_token h' < t /\ (h_event h' < next_ptr m)%nat) as Hold.
  { intros h' Hh'. eapply Forall_forall in Hall, Hfresh; [|exact Hh'..]. cbn in *. lia. }
  split; cbn [state cancellation].
  - exists t. split.
    + change (AuthProtocol.broker_rel st' (t, Some (t, load (snd (new_event m)) (next_ptr m)))).
      by rewrite load_new, bool_decide_eq_true_2.
    + apply Forall_app. split; [|by repeat constructor].
      apply Forall_forall. intros h' Hh'. pose proof (Hold h' Hh'). lia.
  - cbn. apply Forall_app. split; [|constructor; [cbn; lia|done]].
    apply Forall_forall. intros h' Hh'. pose proof (Hold h' Hh'). lia.
  - intros h1 h2 H1 H2 Heq. apply elem_of_app in H1, H2. rewrite !list_elem_of_singleton in *.
    destruct H1 as [H1|H1], H2 as [H2|H2]; try (by subst).
    + by apply (in_step_unique _ _ _ _ Hin).
    + pose proof (Hold h1 H1). subst h2. cbn in *. lia.
    + pose proof (Hold h2 H2). subst h1. cbn in *. lia.
  - intros h' [= <-]. apply elem_of_app. right. by apply list_elem_of_singleton.
  - intros _ q. rewrite slot_at_set. cbn. intros [= <-]. by exists h.
Qed.

(** Starting: the event is new, and the operation in progress has it unless the
    lock is poisoned, when completing at once undoes the start. *)
Lemma in_step_start c m hs cur t st' :
  in_step c m hs cur -> AuthProtocol.start_token (state c) = (AuthProtocol.TokenAdmission.Start t, st') ->
  let h := mkHandle t (next_ptr m) in
  let m1 := snd (new_event m) in
  cur = None /\ ~ h ∈ hs /\
  (lock_poisoned (slot_at m (cancellation c)) = false ->
   exists m2, install m1 (cancellation c) t (h_event h) = (true, m2) /\
   proceeds c m hs cur (mkCoordinator st' (cancellation c)) m2 (hs ++ [h]) (Some h) /\
   load m2 (h_event h) = false) /\
  (lock_poisoned (slot_at m (cancellation c)) = true ->
   install m1 (cancellation c) t (h_event h) = (false, m1) /\
   forall b st2, AuthProtocol.finish_token st' t = (b, st2) ->
   b = Some false /\ proceeds c m hs cur (mkCoordinator st2 (cancellation c)) m1 hs None).
Proof.
  intros Hin H h m1. destruct (in_step_broker _ _ _ _ Hin) as (last & Hrel & Hall).
  pose proof (AuthProtocol.start_token_spec _ _ _ _ Hrel H) as (Hcur & Ht & Hrel'). cbn in Hcur, Ht.
  destruct cur as [|]; [done|]. assert (~ h ∈ hs) as Hnew.
  { intros Hh. eapply Forall_forall in Hall; [|done]. cbn in Hall. lia. }
  assert (Forall (fun h0 => h_token h0 <= t) hs /\
          Forall (fun h0 => (h_event h0 < S (next_ptr m))%nat) hs) as [Hle Hlt].
  { split; [eapply Forall_impl; [exact Hall|intros ? ?; cbn in *; lia]|].
    eapply Forall_impl; [apply (in_step_fresh _ _ _ _ Hin)|cbn; intros; lia]. }
  assert (load m1 (next_ptr m) = false) as Hload
    by (unfold m1; rewrite load_new, bool_decide_eq_true_2; done).
  assert (forall h', h' ∈ hs -> load m1 (h_event h') = load m (h_event h')) as Hold.
  { intros h' Hh'. unfold m1. rewrite load_new, bool_decide_eq_false_2; [done|].
    pose proof (in_step_fresh _ _ _ _ Hin) as Hf. eapply Forall_forall in Hf; [|exact Hh']. cbn in Hf. lia. }
  split_and!; [done|done| |].
  - intros Hlock. unfold install. change (slot_at m1 (cancellation c)) with (slot_at m (cancellation c)).
    rewrite Hlock. destruct (registration _) as [q|] eqn:Hs.
    { by destruct (in_step_slot _ _ _ _ Hin Hlock q Hs) as (h' & [=] & _). }
    eexists. split; [done|]. split; [|done]. split_and!; [|done|].
    + eapply in_step_installed; [done|done|exact Hall|lia].
    + split; [by apply prefix_app_r|by intros h' Hh'; rewrite load_set, Hold| | |].
      * intros h' Hh'. rewrite load_set, Hold by done. auto.
      * intros h' Hh' [_ Hr]. rewrite slot_at_set in Hr. cbn in Hr. simplify_eq. by destruct h'; simplify_eq/=.
      * intros h' Hh' [= <-]. done.
  - intros Hlock. unfold install. change (slot_at m1 (cancellation c)) with (slot_at m (cancellation c)).
    rewrite Hlock. split; [done|]. intros b st2 Hf.
    pose proof (AuthProtocol.finish_token_spec _ _ _ _ _ Hrel' Hf) as Hr.
    assert (b = Some false) as ->.
    { unfold AuthProtocol.finish_token in Hf. destruct Hrel' as (Ha & _). cbn in Ha.
      destruct (AuthProtocol.active st') as [[t' c']|]; cbn in *; [|done]. simplify_eq.
      by rewrite Z.eqb_refl in Hf; simplify_eq/=. }
    destruct Hr as [_ Hr]. split; [done|]. split_and!; [split; cbn [state cancellation]; try done|done|].
    + exists t. cbn. done.
    + apply Hin.
    + change (slot_at m1 (cancellation c)) with (slot_at m (cancellation c)). by rewrite Hlock.
    + split; auto.
      * intros h' Hh'. by rewrite Hold.
      * intros h' Hh'. rewrite Hold by done. auto.
Qed.

(** The worker closes its registration: it succeeds exactly for a registered,
    uncancelled operation, which no cancellation can reach from then on. *)
Lemma in_step_close c m hs cur h b m' :
  in_step c m hs cur -> close m (cancellation c) (h_token h) (h_event h) = (b, m') ->
  proceeds c m hs cur c m' hs cur /\
  (b = true <-> registered m (cancellation c) h /\ load m (h_event h) = false) /\
  (b = true -> ~ registered m' (cancellation c) h /\ load m' (h_event h) = false).
Proof.
  intros Hin H. unfold close in H.
  assert ((false, m) = (b, m') -> ~ registered m (cancellation c) h ->
    proceeds c m hs cur c m' hs cur /\
    (b = true <-> registered m (cancellation c) h /\ load m (h_event h) = false) /\
    (b = true -> ~ registered m' (cancellation c) h /\ load m' (h_event h) = false)) as Hno.
  { intros [= <- <-] Hr. split_and!; [by apply proceeds_refl| |done]. split; [done|tauto]. }
  unfold registered in *. destruct (lock_poisoned _) eqn:Hlock; [apply Hno; [done|by intros []]|].
  destruct (registration _) as [[t e]|] eqn:Hreg; [|apply Hno; [done|by intros []]]. cbn in H.
  destruct (t =? h_token h) eqn:Ht; b2p; cbn in H; [|apply Hno; [done|intros []; congruence]].
  case_bool_decide as He; cbn in H; [|apply Hno; [done|intros []; congruence]]. clear Hno.
  simplify_eq. pose proof (in_step_unregister _ _ _ _ Hin) as Hp. split_and!; [done| |].
  - destruct (load m (h_event h)); cbn; naive_solver.
  - rewrite slot_at_set, load_set. cbn. destruct (load m (h_event h)); [done|]. naive_solver.
Qed.

(** A worker panics while it holds the lock. *)
Definition poison_lock (m : Memory) (s : ptr) : Memory :=
  mkMemory (events m) (<[s := mkSlot true (registration (slot_at m s))]> (slots m)) (next_ptr m).

Lemma in_step_poison c m hs cur :
  in_step c m hs cur -> proceeds c m hs cur c (poison_lock m (cancellation c)) hs cur.
Proof.
  intros Hin. assert (slot_at (poison_lock m (cancellation c)) (cancellation c) =
    mkSlot true (registration (slot_at m (cancellation c)))) as Hs
    by (unfold slot_at, poison_lock; cbn; by rewrite lookup_insert_eq).
  split_and!; [|done|].
  - destruct Hin as [H1 H2 H3 H4 H5]. split; try done. by rewrite Hs.
  - apply advance_quiet; auto. rewrite Hs. auto.
Qed.

(** ** The operations of the coordinator keep it in step *)

(** A request was answered, or started the operation of [o]. *)
Definition starts (c : BrokerSessionCoordinator) (m : Memory) (hs : list handle)
    (cur : option handle) (c' : BrokerSessionCoordinator) (m' : Memory) (o : option handle)
    : Prop :=
  match o with
  | None => proceeds c m hs cur c' m' hs cur
  | Some h =>
      cur = None /\ ~ h ∈ hs /\ load m' (h_event h) = false /\
      proceeds c m hs cur c' m' (hs ++ [h]) (Some h)
  end.

(** What the coordinator's decisions hand out. *)
Definition decided (d : SessionDecision.t) : option ActiveAuthentication :=
  match d with SessionDecision.Start a => Some a | SessionDecision.Reply _ => None end.
Definition std_decided (d : StandardSessionDecision.t) : option ActiveStandardOperation :=
  match d with StandardSessionDecision.Start a => Some a | StandardSessionDecision.Reply _ => None end.

Lemma install_decision_starts c m hs cur op st' d c' m' :
  in_step c m hs cur ->
  AuthProtocol.start_token (state c) =
    (AuthProtocol.TokenAdmission.Start (AuthProtocol.op_token op), st') ->
  install_decision (mkCoordinator st' (cancellation c)) m (AuthProtocol.Start op) = (d, c', m') ->
  starts c m hs cur c' m' (auth_handle <$> decided d) /\
  (forall a, d = SessionDecision.Start a -> auth_slot a = cancellation c /\ auth_operation a = op).
Proof.
  intros Hin Hst H. destruct (in_step_start _ _ _ _ _ _ Hin Hst) as (-> & Hnew & Hok & Hbad).
  cbn in Hok, Hbad. unfold install_decision in H. cbn in H.
  destruct (lock_poisoned (slot_at m (cancellation c))).
  - destruct (Hbad eq_refl) as [Hi Hf]. cbn in Hi. rewrite Hi in H.
    unfold AuthProtocol.finish in H. destruct (AuthProtocol.finish_token _ _) as [b s2] eqn:Hfin.
    destruct (Hf _ _ eq_refl) as [-> Hp]. simplify_eq. done.
  - destruct (Hok eq_refl) as (m2 & Hi & Hp & Hl). cbn in Hi. rewrite Hi in H. simplify_eq.
    split; [done|]. intros a [= <-]. done.
Qed.

Lemma install_standard_starts c m hs cur op st' d c' m' :
  in_step c m hs cur ->
  AuthProtocol.start_token (state c) =
    (AuthProtocol.TokenAdmission.Start (StandardAuthority.aso_token op), st') ->
  install_standard_decision (mkCoordinator st' (cancellation c)) m (StandardAuthority.Start op)
    = (d, c', m') ->
  starts c m hs cur c' m' (std_handle <$> std_decided d) /\
  (forall a, d = StandardSessionDecision.Start a ->
     std_slot a = cancellation c /\ std_operation a = op).
Proof.
  intros Hin Hst H. destruct (in_step_start _ _ _ _ _ _ Hin Hst) as (-> & Hnew & Hok & Hbad).
  cbn in Hok, Hbad. unfold install_standard_decision in H. cbn in H.
  destruct (lock_poisoned (slot_at m (cancellation c))).
  - destruct (Hbad eq_refl) as [Hi Hf]. cbn in Hi. rewrite Hi in H.
    unfold StandardAuthority.finish_standard in H.
    destruct (AuthProtocol.finish_token _ _) as [b s2] eqn:Hfin.
    destruct (Hf _ _ eq_refl) as [-> Hp]. simplify_eq. done.
  - destruct (Hok eq_refl) as (m2 & Hi & Hp & Hl). cbn in Hi. rewrite Hi in H. simplify_eq.
    split; [done|]. intros a [= <-]. done.
Qed.

Lemma coordinator_eta c : mkCoordinator (state c) (cancellation c) = c.
Proof. by destruct c. Qed.

Lemma start_operation_starts c m hs cur u p o dec st' d c' m' :
  in_step c m hs cur -> AuthProtocol.start_operation (state c) u p o = (dec, st') ->
  install_decision (mkCoordinator st' (cancellation c)) m dec = (d, c', m') ->
  starts c m hs cur c' m' (auth_handle <$> decided d) /\
  (forall a, d = SessionDecision.Start a -> auth_slot a = cancellation c).
Proof.
  intros Hin Hs H. unfold AuthProtocol.start_operation in Hs.
  destruct (AuthProtocol.start_token (state c)) as [[t| |] s2] eqn:Ht; simplify_eq.
  - edestruct install_decision_starts as [H1 H2]; [done| |exact H|]; [exact Ht|].
    split; [done|]. intros a Ha. by apply H2.
  - unfold AuthProtocol.start_token in Ht. repeat case_match; simplify_eq/=.
    rewrite coordinator_eta. split; [by apply proceeds_refl|done].
  - unfold AuthProtocol.start_token in Ht. repeat case_match; simplify_eq/=.
    rewrite coordinator_eta. split; [by apply proceeds_refl|done].
Qed.

Lemma reply_starts c m hs cur r d c' m' :
  in_step c m hs cur -> install_decision c m (AuthProtocol.Reply r) = (d, c', m') ->
  starts c m hs cur c' m' (auth_handle <$> decided d) /\
  (forall a, d = SessionDecision.Start a -> auth_slot a = cancellation c).
Proof. intros Hin [= <- <- <-]. split; [by apply proceeds_refl|done]. Qed.

(** The root's cancellation, acknowledged only when it reached the operation in
    progress. *)
Lemma cancel_for_root_proceeds c m hs cur peer dec st' m' :
  in_step c m hs cur ->
  AuthProtocol.cancel_for_root (state c) peer (deliver (cancellation c)) m = (dec, st', m') ->
  proceeds c m hs cur (mkCoordinator st' (cancellation c)) m' hs cur /\
  exists r, dec = AuthProtocol.Reply r /\ (r = Response.Okay ->
    exists h, cur = Some h /\ registered m (cancellation c) h /\ load m' (h_event h) = true).
Proof.
  intros Hin H. unfold AuthProtocol.cancel_for_root in H.
  destruct (_ || _); [simplify_eq; rewrite coordinator_eta; split; [by apply proceeds_refl|by eexists]|].
  destruct (AuthProtocol.active _) as [a|];
    [|simplify_eq; rewrite coordinator_eta; split; [by apply proceeds_refl|by eexists]].
  destruct (AuthProtocol.cancel_token _ _ _ _) as [[b s2] m2] eqn:Hc.
  destruct (in_step_cancel _ _ _ _ _ _ _ _ Hin Hc) as [Hp Hb].
  destruct b; simplify_eq; (split; [done|]); [|by eexists].
  eexists. split; [done|]. intros _. destruct (Hb eq_refl) as (h & Hh & _ & Hr & Hl). by exists h.
Qed.

(** A packet answered [Okay] at once is a cancellation that reached the
    operation in progress. *)
Lemma dispatch_okay c m hs cur peer policy packet c' m' :
  in_step c m hs cur ->
  dispatch c m peer policy packet = (SessionDecision.Reply Response.Okay, c', m') ->
  exists h, cur = Some h /\ registered m (cancellation c) h /\ load m' (h_event h) = true.
Proof.
  intros Hin H. unfold dispatch in H.
  destruct (AuthProtocol.handle_packet_with_cancellation _ _ _ _ _ _) as [[dec s2] m2] eqn:Hh.
  apply AuthProtocol.handle_packet_spec in Hh as [[-> _]|[[_ Hh]|(_ & u & p & o & Hs & _)]].
  - by simplify_eq/=.
  - destruct (cancel_for_root_proceeds _ _ _ _ _ _ _ _ Hin Hh) as (_ & r & -> & Hr).
    simplify_eq/=. by apply Hr.
  - unfold AuthProtocol.start_operation in Hs.
    destruct (AuthProtocol.start_token _) as [[] ?]; simplify_eq/=.
    repeat case_match; by simplify_eq.
Qed.

Lemma dispatch_starts c m hs cur peer policy packet d c' m' :
  in_step c m hs cur -> dispatch c m peer policy packet = (d, c', m') ->
  starts c m hs cur c' m' (auth_handle <$> decided d) /\
  (forall a, d = SessionDecision.Start a -> auth_slot a = cancellation c).
Proof.
  intros Hin H. unfold dispatch in H.
  destruct (AuthProtocol.handle_packet_with_cancellation _ _ _ _ _ _) as [[dec s2] m2] eqn:Hh.
  unfold AuthProtocol.handle_packet_with_cancellation in Hh.
  destruct (AuthProtocol.biometric_user_for _ _) as [u|];
    [|simplify_eq; rewrite coordinator_eta in H; by eapply reply_starts].
  destruct (AuthProtocol.decode_request _) as [req| |];
    [|simplify_eq; rewrite coordinator_eta in H; by eapply reply_starts..].
  destruct (bool_decide _).
  - destruct (cancel_for_root_proceeds _ _ _ _ _ _ _ _ Hin Hh) as [Hp (r & -> & _)].
    cbn in H. simplify_eq. done.
  - destruct (_ && _); [simplify_eq; rewrite coordinator_eta in H; by eapply reply_starts|].
    destruct (match req with AuthProtocol.Request.Authenticate => _ | _ => _ end) as [p o].
    destruct (AuthProtocol.start_operation _ _ _ _) as [d1 s1] eqn:Hs. simplify_eq.
    by eapply start_operation_starts.
Qed.

Lemma enroll_starts c m hs cur peer d c' m' :
  in_step c m hs cur -> enroll_without_owner c m peer = (d, c', m') ->
  starts c m hs cur c' m' (auth_handle <$> decided d) /\
  (forall a, d = SessionDecision.Start a -> auth_slot a = cancellation c).
Proof.
  intros Hin H. unfold enroll_without_owner in H.
  destruct (AuthProtocol.enroll_without_owner _ _) as [dec s2] eqn:Hh.
  unfold AuthProtocol.enroll_without_owner in Hh.
  destruct (negb _); [simplify_eq; rewrite coordinator_eta in H; by eapply reply_starts|].
  destruct (AuthProtocol.candidate_new _) as [o|];
    [|simplify_eq; rewrite coordinator_eta in H; by eapply reply_starts].
  by eapply start_operation_starts.
Qed.

Lemma dispatch_standard_starts c m hs cur peer owner op d c' m' :
  in_step c m hs cur -> dispatch_standard c m peer owner op = (d, c', m') ->
  starts c m hs cur c' m' (std_handle <$> std_decided d) /\
  (forall a, d = StandardSessionDecision.Start a -> std_slot a = cancellation c).
Proof.
  intros Hin H. unfold dispatch_standard in H.
  destruct (StandardAuthority.dispatch_standard _ _ _ _) as [dec s2] eqn:Hh.
  assert (s2 = state c -> (exists r, dec = StandardAuthority.Reply r) ->
    starts c m hs cur c' m' (std_handle <$> std_decided d) /\
    (forall a, d = StandardSessionDecision.Start a -> std_slot a = cancellation c)) as Hno.
  { intros -> [r ->]. cbn in H. rewrite coordinator_eta in H. simplify_eq.
    split; [by apply proceeds_refl|done]. }
  unfold StandardAuthority.dispatch_standard in Hh.
  destruct (StandardAuthority.authorize _ _ _) as [[[target auth] nominee]|];
    [|apply Hno; unfold StandardAuthority.standard_reply in *; simplify_eq; eauto].
  destruct (StandardAuthority.wrong_owner _ _);
    [apply Hno; unfold StandardAuthority.standard_reply in *; simplify_eq; eauto|].
  destruct (AuthProtocol.start_token (state c)) as [[t| |] s3] eqn:Ht; simplify_eq.
  - edestruct install_standard_starts as [H1 H2]; [done| |exact H|]; [exact Ht|].
    split; [done|]. intros a Ha. by apply H2.
  - unfold AuthProtocol.start_token in Ht. repeat case_match; simplify_eq/=. apply Hno; [done|by eexists].
  - unfold AuthProtocol.start_token in Ht. repeat case_match; simplify_eq/=. apply Hno; [done|by eexists].
Qed.

(** [b] reports that the cancellation of [h] was accepted. *)
Definition cancels (c : BrokerSessionCoordinator) (m : Memory) (hs : list handle)
    (cur : option handle) (c' : BrokerSessionCoordinator) (m' : Memory) (h : handle) (b : bool)
    : Prop :=
  proceeds c m hs cur c' m' hs cur /\
  (b = true -> cur = Some h /\ registered m (cancellation c) h /\ load m' (h_event h) = true).

Lemma cancel_token_cancels c m hs cur h b st' m' :
  in_step c m hs cur -> h ∈ hs ->
  AuthProtocol.cancel_token (state c) (h_token h) (deliver (cancellation c)) m = (b, st', m') ->
  cancels c m hs cur (mkCoordinator st' (cancellation c)) m' h b.
Proof.
  intros Hin Hh H. destruct (in_step_cancel _ _ _ _ _ _ _ _ Hin H) as [Hp Hb]. split; [done|].
  intros Hbt. destruct (Hb Hbt) as (h' & -> & Ht & Hr & Hl).
  assert (h' = h) as -> by (apply (in_step_unique _ _ _ _ Hin); auto; by apply (in_step_cur _ _ _ _ Hin)).
  done.
Qed.

Lemma disconnected_cancels c m hs cur a b c' m' :
  in_step c m hs cur -> auth_handle a ∈ hs -> client_disconnected c m a = (b, c', m') ->
  cancels c m hs cur c' m' (auth_handle a) b.
Proof.
  intros Hin Ha H. unfold client_disconnected in H.
  destruct (negb _); [simplify_eq; split; [by apply proceeds_refl|done]|].
  destruct (AuthProtocol.client_disconnected _ _ _ _) as [[r st] m2] eqn:Hc. simplify_eq.
  by eapply cancel_token_cancels.
Qed.

Lemma cancel_standard_cancels c m hs cur a b c' m' :
  in_step c m hs cur -> std_handle a ∈ hs -> cancel_standard c m a = (b, c', m') ->
  cancels c m hs cur c' m' (std_handle a) b.
Proof.
  intros Hin Ha H. unfold cancel_standard in H.
  destruct (negb _); [simplify_eq; split; [by apply proceeds_refl|done]|].
  destruct (StandardAuthority.cancel_standard _ _ _ _) as [[r st] m2] eqn:Hc. simplify_eq.
  by eapply cancel_token_cancels.
Qed.

Lemma std_disconnected_cancels c m hs cur a b c' m' :
  in_step c m hs cur -> std_handle a ∈ hs -> standard_client_disconnected c m a = (b, c', m') ->
  cancels c m hs cur c' m' (std_handle a) b.
Proof. exact (cancel_standard_cancels c m hs cur a b c' m'). Qed.

(** The broker's answer to a completion. *)
Definition verdict (cancelled : bool) (result : OperationResult.t) : Response.t :=
  if negb cancelled && bool_decide (result = OperationResult.Matched)
  then Response.Okay else Response.Failure.

Lemma verdict_okay b r : verdict b r = Response.Okay -> b = false /\ r = OperationResult.Matched.
Proof. unfold verdict. destruct b; cbn; [done|]. by case_bool_decide. Qed.

(** Completing the current operation. *)
Lemma in_step_finish_cur c m hs h b st' :
  in_step c m hs (Some h) -> AuthProtocol.finish_token (state c) (h_token h) = (b, st') ->
  b = Some (load m (h_event h)) /\
  proceeds c m hs (Some h) (mkCoordinator st' (cancellation c))
    (clear m (cancellation c) (h_token h) (h_event h)) hs None.
Proof.
  intros Hin H. edestruct in_step_finish as [(_ & Hb & Hp)|[Hne _]];
    [exact Hin|by apply (in_step_cur _ _ _ _ Hin)|exact H|done|done].
Qed.

Lemma belongs_to_iff k a :
  belongs_to k a = true <->
  comp_token k = AuthProtocol.op_token (auth_operation a) /\ comp_event k = auth_event a /\
  comp_slot k = auth_slot a.
Proof. unfold belongs_to. rewrite !andb_true_iff, !bool_decide_eq_true, Z.eqb_eq. tauto. Qed.

Lemma finalize_ends c m hs a k r f c' m' :
  in_step c m hs (Some (auth_handle a)) -> auth_slot a = cancellation c -> belongs_to k a = true ->
  finalize c m k = (r, f, c', m') ->
  r = verdict (load m (auth_event a)) (operation_result (comp_result k)) /\
  f = negb (load m (auth_event a)) /\
  proceeds c m hs (Some (auth_handle a)) c' m' hs None.
Proof.
  intros Hin Hslot (Ht & He & Hs)%belongs_to_iff H.
  unfold finalize in H. rewrite Hs, bool_decide_eq_true_2 in H by done. cbn [negb] in H.
  rewrite Ht, He in H. unfold AuthProtocol.is_cancelled, AuthProtocol.finish in H.
  destruct (AuthProtocol.finish_token _ _) as [b st2] eqn:Hf.
  destruct (in_step_finish_cur _ _ _ _ _ _ Hin Hf) as [-> Hp].
  rewrite (in_step_active _ _ _ _ Hin) in H. cbn in H. rewrite Z.eqb_refl in H.
  simplify_eq. done.
Qed.

Lemma finish_for_ends c m hs a k r c' m' :
  in_step c m hs (Some (auth_handle a)) -> auth_slot a = cancellation c -> belongs_to k a = true ->
  finish_for c m a k = (r, c', m') ->
  r = verdict (load m (auth_event a)) (operation_result (comp_result k)) /\
  proceeds c m hs (Some (auth_handle a)) c' m' hs None.
Proof.
  intros Hin Hslot Hk H. unfold finish_for, finish in H.
  rewrite Hk, bool_decide_eq_true_2 in H by done. cbn in H.
  destruct (finalize c m k) as [[[r2 f] c2] m2] eqn:Hf. simplify_eq.
  by destruct (finalize_ends _ _ _ _ _ _ _ _ _ Hin Hslot Hk Hf) as (-> & _ & Hp).
Qed.

Lemma abandon_ends c m hs a r c' m' :
  in_step c m hs (Some (auth_handle a)) -> auth_slot a = cancellation c ->
  abandon c m a = (r, c', m') ->
  r = Response.Failure /\ proceeds c m hs (Some (auth_handle a)) c' m' hs None.
Proof.
  intros Hin Hslot H. unfold abandon, auth_clear_delivery, AuthProtocol.finish in H.
  rewrite Hslot, bool_decide_eq_true_2 in H by done. cbn [negb] in H.
  destruct (AuthProtocol.finish_token _ _) as [b st2] eqn:Hf.
  destruct (in_step_finish_cur _ _ _ _ _ _ Hin Hf) as [-> Hp]. simplify_eq. cbn.
  by rewrite andb_false_r.
Qed.

(** The answer to a standard completion. *)
Definition std_verdict (a : ActiveStandardOperation) (cancelled : bool) (result : Server.t)
    : Server.t :=
  if cancelled then Server.Terminal Outcome.Cancelled
  else if StandardAuthority.result_is_compatible (std_operation a) result then result
  else Server.Terminal Outcome.Error.

Lemma finish_standard_ends c m hs a k r c' m' :
  in_step c m hs (Some (std_handle a)) -> std_slot a = cancellation c -> std_belongs_to k a = true ->
  finish_standard c m a k = (r, c', m') ->
  r = std_verdict a (load m (std_event a)) (scomp_result k) /\
  proceeds c m hs (Some (std_handle a)) c' m' hs None.
Proof.
  intros Hin Hslot Hk H. unfold finish_standard, std_clear_delivery, StandardAuthority.finish_standard in H.
  rewrite Hk, Hslot, bool_decide_eq_true_2 in H by done. cbn [negb orb] in H.
  destruct (AuthProtocol.finish_token _ _) as [b st2] eqn:Hf.
  destruct (in_step_finish_cur _ _ _ _ _ _ Hin Hf) as [-> Hp]. simplify_eq. done.
Qed.

Lemma abandon_standard_ends c m hs a r c' m' :
  in_step c m hs (Some (std_handle a)) -> std_slot a = cancellation c ->
  abandon_standard c m a = (r, c', m') ->
  r = std_verdict a (load m (std_event a)) (Server.Terminal Outcome.Error) /\
  proceeds c m hs (Some (std_handle a)) c' m' hs None.
Proof.
  intros Hin Hslot H. unfold abandon_standard, std_clear_delivery, StandardAuthority.finish_standard in H.
  rewrite Hslot, bool_decide_eq_true_2 in H by done. cbn [negb] in H.
  destruct (AuthProtocol.finish_token _ _) as [b st2] eqn:Hf.
  destruct (in_step_finish_cur _ _ _ _ _ _ Hin Hf) as [-> Hp]. simplify_eq. done.
Qed.

(** A handle that ended before it was given out is of no account. *)
Lemma proceeds_forget c m hs cur c' m' h :
  proceeds c m hs cur c' m' (hs ++ [h]) None -> proceeds c m hs cur c' m' hs None.
Proof.
  intros (Hin & Hc & Hadv).
  assert (forall h', h' ∈ hs -> h' ∈ hs ++ [h]) as Hsub by (intros h' Hh'; apply elem_of_app; by left).
  split_and!; [|done|].
  - destruct Hin as [(last & Hrel & Hall) H2 H3 H4 H5]. split; auto.
    + exists last. split; [done|]. by apply Forall_app in Hall as [Hall _].
    + by apply Forall_app in H2 as [H2 _].
    + done.
  - destruct Hadv as [P S C R U]. split; auto.
Qed.

(** The fresh coordinator. *)
Lemma default_in_step m c m' :
  coordinator_default m = (c, m') -> in_step c m' [] None.
Proof.
  intros [= <- <-]. split; try done.
  - exists 0. split; [apply AuthProtocol.broker_default_rel|done].
  - by intros h1 h2 ?%elem_of_nil.
  - intros _ r. unfold slot_at. cbn [slots cancellation]. by rewrite lookup_insert_eq.
Qed.

End AuthSession.
