(* ===== verification/Scheduler.v ===== *)
(** * The broker's scheduler ([crates/t1-daemons/src/auth_scheduler.rs])

    One hardware worker at a time, with a deadline and a lease, composed with
    the session coordinator into the service that the authentication broker
    runs. The clock is an argument: readings of one monotonic clock. *)

From S2P Require Import Prelude AuthProtocol StandardProtocol StandardAuthority AuthSession.

Module Scheduler.

Import AuthProtocol(PeerMetadata, AccessPolicy, MAX_MATCH_TIMEOUT, SETUP_ALLOWANCE).
Module Response := AuthProtocol.Response.
Module Outcome := StandardProtocol.TerminalOutcome.
Module Server := StandardProtocol.ServerMessage.
Import AuthSession(ptr, Memory, mkMemory, events, slots, next_ptr).

(** [Duration::as_secs]. *)
Definition as_secs (d : Duration) : Z := d / NANOS_PER_SEC.

Definition OPERATION_TIMEOUT : Duration :=
  from_secs (as_secs SETUP_ALLOWANCE + as_secs MAX_MATCH_TIMEOUT).
Definition ENROLLMENT_OPERATION_TIMEOUT : Duration := from_secs (15 * 60).

(** A [u64]. *)
Definition WorkerLease : Type := Z.

Module WorkerAdmission.
Inductive t : Type := Start (lease : WorkerLease) (deadline : Duration) | Busy | Terminate.
End WorkerAdmission.

Module LifecycleDecision.
Inductive t : Type := Continue | Cancel (l : WorkerLease) | ExitIdle | Terminate.
End LifecycleDecision.

Inductive SchedulerError : Type := ZeroIdleTimeout.

Record ActiveWorker : Type := mkWorker {
  lease : WorkerLease;
  deadline : Duration;
  cancellation_sent : bool;
}.

Record BrokerScheduler : Type := mkScheduler {
  idle_timeout : Duration;
  idle_since : Duration;
  active : option ActiveWorker;
  next_lease : Z;
  poisoned : bool;
}.

(** [BrokerScheduler::new]. *)
Definition scheduler_new (now idle_timeout : Duration) : res SchedulerError BrokerScheduler :=
  if idle_timeout =? 0 then Err ZeroIdleTimeout
  else Ok (mkScheduler idle_timeout now None 1 false).

(** [BrokerScheduler::poison]. *)
Definition poison (s : BrokerScheduler) : BrokerScheduler :=
  mkScheduler (idle_timeout s) (idle_since s) (active s) (next_lease s) true.

(** [BrokerScheduler::admit_with_timeout]. *)
Definition admit_with_timeout (s : BrokerScheduler) (now operation_timeout : Duration)
    : WorkerAdmission.t * BrokerScheduler :=
  if poisoned s then (WorkerAdmission.Terminate, s)
  else
    match active s with
    | Some _ => (WorkerAdmission.Busy, s)
    | None =>
        match duration_checked_add now operation_timeout with
        | None => (WorkerAdmission.Terminate, poison s)
        | Some d =>
            if next_lease s =? 0 then (WorkerAdmission.Terminate, poison s)
            else
              let l := next_lease s in
              let next := match checked_add 64 (next_lease s) 1 with Some n => n | None => 0 end in
              (WorkerAdmission.Start l d,
               mkScheduler (idle_timeout s) (idle_since s) (Some (mkWorker l d false)) next
                 (poisoned s))
        end
    end.

(** [BrokerScheduler::admit]. *)
Definition admit_worker (s : BrokerScheduler) (now : Duration) : WorkerAdmission.t * BrokerScheduler :=
  admit_with_timeout s now OPERATION_TIMEOUT.

(** [BrokerScheduler::owns]. *)
Definition worker_owns (s : BrokerScheduler) (l : WorkerLease) : bool :=
  match active s with Some a => lease a =? l | None => false end.

(** [BrokerScheduler::complete]. *)
Definition complete (s : BrokerScheduler) (l : WorkerLease) (now : Duration)
    : bool * BrokerScheduler :=
  match active s with
  | None => (false, s)
  | Some a =>
      if negb (lease a =? l) then (false, s)
      else (true, mkScheduler (idle_timeout s) now None (next_lease s) (poisoned s))
  end.

(** [BrokerScheduler::worker_lost]. *)
Definition scheduler_worker_lost (s : BrokerScheduler) (l : WorkerLease)
    : bool * BrokerScheduler :=
  match active s with
  | None => (false, s)
  | Some a => if negb (lease a =? l) then (false, s) else (true, poison s)
  end.

(** [BrokerScheduler::decide]. *)
Definition scheduler_decide (s : BrokerScheduler) (now : Duration) (listener_ready : bool)
    : LifecycleDecision.t * BrokerScheduler :=
  if poisoned s then (LifecycleDecision.Terminate, s)
  else
    match active s with
    | Some a =>
        if (deadline a <=? now) && negb (cancellation_sent a)
        then (LifecycleDecision.Cancel (lease a),
              mkScheduler (idle_timeout s) (idle_since s)
                (Some (mkWorker (lease a) (deadline a) true)) (next_lease s) (poisoned s))
        else (LifecycleDecision.Continue, s)
    | None =>
        if negb listener_ready && (idle_timeout s <=? saturating_sub now (idle_since s))
        then (LifecycleDecision.ExitIdle, s) else (LifecycleDecision.Continue, s)
    end.

(** ** The service *)

Record ScheduledAuthentication : Type := mkSchedAuth {
  authentication : AuthSession.ActiveAuthentication;
  sa_lease : WorkerLease;
  sa_deadline : Duration;
  sa_identity : ptr;
}.

Record ScheduledStandardOperation : Type := mkSchedStd {
  std_op : AuthSession.ActiveStandardOperation;
  ss_lease : WorkerLease;
  ss_deadline : Duration;
  ss_identity : ptr;
}.

Module ScheduledDispatch.
Inductive t : Type := Reply (r : Response.t) | Start (s : ScheduledAuthentication) | Terminate.
End ScheduledDispatch.

Module ScheduledStandardDispatch.
Inductive t : Type := Reply (m : Server.t) | Start (s : ScheduledStandardOperation) | Terminate.
End ScheduledStandardDispatch.

Record BrokerServiceScheduler : Type := mkService {
  coordinator : AuthSession.BrokerSessionCoordinator;
  workers : BrokerScheduler;
  identity_ptr : ptr;
}.

(** [Arc::new(())]. *)
Definition new_identity (m : Memory) : ptr * Memory :=
  (next_ptr m, mkMemory (events m) (slots m) (S (next_ptr m))).

(** [BrokerServiceScheduler::new]. *)
Definition service_new (m : Memory) (now idle_timeout : Duration)
    : res SchedulerError BrokerServiceScheduler * Memory :=
  let (c, m) := AuthSession.coordinator_default m in
  match scheduler_new now idle_timeout with
  | Ok w => let (i, m) := new_identity m in (Ok (mkService c w i), m)
  | Err e => (Err e, m)
  | Panic => (Panic, m)
  end.

(** The worker budget of a purpose, and of a standard operation. *)
Definition purpose_timeout (p : AuthProtocol.Purpose.t) : Duration :=
  match p with
  | AuthProtocol.Purpose.Enrollment => ENROLLMENT_OPERATION_TIMEOUT
  | AuthProtocol.Purpose.Authenticate | AuthProtocol.Purpose.Approve => OPERATION_TIMEOUT
  end.
Definition standard_timeout (o : StandardAuthority.Operation.t) : Duration :=
  match o with
  | StandardAuthority.Operation.Enroll _ _ | StandardAuthority.Operation.DeleteIdentity _ _ =>
      ENROLLMENT_OPERATION_TIMEOUT
  | StandardAuthority.Operation.ListIdentities | StandardAuthority.Operation.Verify _ _
  | StandardAuthority.Operation.Identify _ => OPERATION_TIMEOUT
  end.

(** [BrokerServiceScheduler::schedule]. *)
Definition schedule (s : BrokerServiceScheduler) (m : Memory)
    (decision : AuthSession.SessionDecision.t) (now : Duration)
    : ScheduledDispatch.t * BrokerServiceScheduler * Memory :=
  match decision with
  | AuthSession.SessionDecision.Reply response => (ScheduledDispatch.Reply response, s, m)
  | AuthSession.SessionDecision.Start a =>
      match admit_with_timeout (workers s) now
              (purpose_timeout (AuthProtocol.purpose (AuthSession.auth_operation a))) with
      | (WorkerAdmission.Start l d, w) =>
          (ScheduledDispatch.Start (mkSchedAuth a l d (identity_ptr s)),
           mkService (coordinator s) w (identity_ptr s), m)
      | (_, w) =>
          let '(_, c, m) := AuthSession.abandon (coordinator s) m a in
          (ScheduledDispatch.Terminate, mkService c (poison w) (identity_ptr s), m)
      end
  end.

(** [BrokerServiceScheduler::schedule_standard]. *)
Definition schedule_standard (s : BrokerServiceScheduler) (m : Memory)
    (decision : AuthSession.StandardSessionDecision.t) (now : Duration)
    : ScheduledStandardDispatch.t * BrokerServiceScheduler * Memory :=
  match decision with
  | AuthSession.StandardSessionDecision.Reply r => (ScheduledStandardDispatch.Reply r, s, m)
  | AuthSession.StandardSessionDecision.Start a =>
      match admit_with_timeout (workers s) now
              (standard_timeout (StandardAuthority.operation (AuthSession.std_operation a))) with
      | (WorkerAdmission.Start l d, w) =>
          (ScheduledStandardDispatch.Start (mkSchedStd a l d (identity_ptr s)),
           mkService (coordinator s) w (identity_ptr s), m)
      | (_, w) =>
          let '(_, c, m) := AuthSession.abandon_standard (coordinator s) m a in
          (ScheduledStandardDispatch.Terminate, mkService c (poison w) (identity_ptr s), m)
      end
  end.

(** [BrokerServiceScheduler::dispatch]. *)
Definition dispatch (s : BrokerServiceScheduler) (m : Memory) (peer : PeerMetadata)
    (policy : AccessPolicy) (packet : bytes) (now : Duration)
    : ScheduledDispatch.t * BrokerServiceScheduler * Memory :=
  if poisoned (workers s) then (ScheduledDispatch.Terminate, s, m)
  else
    let '(decision, c, m) := AuthSession.dispatch (coordinator s) m peer policy packet in
    schedule (mkService c (workers s) (identity_ptr s)) m decision now.

(** [BrokerServiceScheduler::dispatch_standard]. *)
Definition dispatch_standard (s : BrokerServiceScheduler) (m : Memory) (peer : PeerMetadata)
    (recorded_owner : option AccessPolicy) (operation : StandardAuthority.Operation.t)
    (now : Duration) : ScheduledStandardDispatch.t * BrokerServiceScheduler * Memory :=
  if poisoned (workers s) then (ScheduledStandardDispatch.Terminate, s, m)
  else
    let '(decision, c, m) :=
      AuthSession.dispatch_standard (coordinator s) m peer recorded_owner operation in
    schedule_standard (mkService c (workers s) (identity_ptr s)) m decision now.

(** [BrokerServiceScheduler::enroll_without_owner]. *)
Definition enroll_without_owner (s : BrokerServiceScheduler) (m : Memory) (peer : PeerMetadata)
    (now : Duration) : ScheduledDispatch.t * BrokerServiceScheduler * Memory :=
  if poisoned (workers s) then (ScheduledDispatch.Terminate, s, m)
  else
    let '(decision, c, m) := AuthSession.enroll_without_owner (coordinator s) m peer in
    schedule (mkService c (workers s) (identity_ptr s)) m decision now.

(** [BrokerServiceScheduler::cancel_without_owner]; a panic of the coordinator
    is a panic. *)
Definition cancel_without_owner (s : BrokerServiceScheduler) (m : Memory) (peer : PeerMetadata)
    : res False ScheduledDispatch.t * BrokerServiceScheduler * Memory :=
  if poisoned (workers s) then (Ok ScheduledDispatch.Terminate, s, m)
  else
    let '(r, c, m) := AuthSession.cancel_without_owner (coordinator s) m peer in
    (let! response := r in Ok (ScheduledDispatch.Reply response),
     mkService c (workers s) (identity_ptr s), m).

(** [BrokerServiceScheduler::owns] and [owns_standard]. *)
Definition owns (s : BrokerServiceScheduler) (h : ScheduledAuthentication) : bool :=
  bool_decide (identity_ptr s = sa_identity h) && worker_owns (workers s) (sa_lease h).
Definition owns_standard (s : BrokerServiceScheduler) (h : ScheduledStandardOperation) : bool :=
  bool_decide (identity_ptr s = ss_identity h) && worker_owns (workers s) (ss_lease h).

(** Releases the worker after the coordinator decided [response]: the common
    end of the [finish] and [abandon] methods. *)
Definition release {R} (s : BrokerServiceScheduler) (c : AuthSession.BrokerSessionCoordinator)
    (m : Memory) (l : WorkerLease) (now : Duration) (response failure : R)
    : R * BrokerServiceScheduler * Memory :=
  match complete (workers s) l now with
  | (true, w) => (response, mkService c w (identity_ptr s), m)
  | (false, w) => (failure, mkService c (poison w) (identity_ptr s), m)
  end.

(** [BrokerServiceScheduler::finish]. *)
Definition finish (s : BrokerServiceScheduler) (m : Memory) (h : ScheduledAuthentication)
    (completion : AuthSession.AuthenticationCompletion) (now : Duration)
    : Response.t * BrokerServiceScheduler * Memory :=
  if poisoned (workers s) || negb (owns s h)
     || negb (AuthSession.belongs_to completion (authentication h))
  then (Response.Failure, s, m)
  else
    let '(response, c, m) :=
      AuthSession.finish_for (coordinator s) m (authentication h) completion in
    release s c m (sa_lease h) now response Response.Failure.

(** [BrokerServiceScheduler::finish_standard]. *)
Definition finish_standard (s : BrokerServiceScheduler) (m : Memory)
    (h : ScheduledStandardOperation) (completion : AuthSession.StandardCompletion)
    (now : Duration) : Server.t * BrokerServiceScheduler * Memory :=
  if poisoned (workers s) || negb (owns_standard s h)
     || negb (AuthSession.std_belongs_to completion (std_op h))
  then (Server.Terminal Outcome.Error, s, m)
  else
    let '(response, c, m) :=
      AuthSession.finish_standard (coordinator s) m (std_op h) completion in
    release s c m (ss_lease h) now response (Server.Terminal Outcome.Error).

(** [BrokerServiceScheduler::finish_with_feedback]. *)
Definition finish_with_feedback {F} `{AuthSession.AuthenticationFeedback F}
    (s : BrokerServiceScheduler) (m : Memory) (h : ScheduledAuthentication)
    (completion : AuthSession.AuthenticationCompletion) (feedback : option F) (now : Duration)
    : Response.t * option F * BrokerServiceScheduler * Memory :=
  if poisoned (workers s) || negb (owns s h)
     || negb (AuthSession.belongs_to completion (authentication h))
  then (Response.Failure, feedback, s, m)
  else
    let '(response, feedback, c, m) :=
      AuthSession.finish_with_feedback (coordinator s) m completion feedback in
    let '(response, s, m) := release s c m (sa_lease h) now response Response.Failure in
    (response, feedback, s, m).

(** [BrokerServiceScheduler::abandon]. *)
Definition abandon (s : BrokerServiceScheduler) (m : Memory) (h : ScheduledAuthentication)
    (now : Duration) : Response.t * BrokerServiceScheduler * Memory :=
  if negb (owns s h) then (Response.Failure, s, m)
  else
    let '(response, c, m) := AuthSession.abandon (coordinator s) m (authentication h) in
    release s c m (sa_lease h) now response Response.Failure.

(** [BrokerServiceScheduler::abandon_standard]. *)
Definition abandon_standard (s : BrokerServiceScheduler) (m : Memory)
    (h : ScheduledStandardOperation) (now : Duration)
    : Server.t * BrokerServiceScheduler * Memory :=
  if negb (owns_standard s h) then (Server.Terminal Outcome.Error, s, m)
  else
    let '(response, c, m) := AuthSession.abandon_standard (coordinator s) m (std_op h) in
    release s c m (ss_lease h) now response (Server.Terminal Outcome.Error).

(** [BrokerServiceScheduler::client_disconnected] and [deadline_expired]. *)
Definition client_disconnected (s : BrokerServiceScheduler) (m : Memory)
    (h : ScheduledAuthentication) : bool * BrokerServiceScheduler * Memory :=
  if negb (owns s h) then (false, s, m)
  else
    let '(r, c, m) := AuthSession.client_disconnected (coordinator s) m (authentication h) in
    (r, mkService c (workers s) (identity_ptr s), m).
Definition deadline_expired (s : BrokerServiceScheduler) (m : Memory)
    (h : ScheduledAuthentication) : bool * BrokerServiceScheduler * Memory :=
  if negb (owns s h) then (false, s, m)
  else
    let '(r, c, m) := AuthSession.client_disconnected (coordinator s) m (authentication h) in
    (r, mkService c (workers s) (identity_ptr s), m).

(** [BrokerServiceScheduler::cancel_standard], [standard_client_disconnected]
    and [standard_deadline_expired]. *)
Definition cancel_standard (s : BrokerServiceScheduler) (m : Memory)
    (h : ScheduledStandardOperation) : bool * BrokerServiceScheduler * Memory :=
  if negb (owns_standard s h) then (false, s, m)
  else
    let '(r, c, m) := AuthSession.cancel_standard (coordinator s) m (std_op h) in
    (r, mkService c (workers s) (identity_ptr s), m).
Definition standard_client_disconnected (s : BrokerServiceScheduler) (m : Memory)
    (h : ScheduledStandardOperation) : bool * BrokerServiceScheduler * Memory :=
  if negb (owns_standard s h) then (false, s, m)
  else
    let '(r, c, m) := AuthSession.standard_client_disconnected (coordinator s) m (std_op h) in
    (r, mkService c (workers s) (identity_ptr s), m).
Definition standard_deadline_expired (s : BrokerServiceScheduler) (m : Memory)
    (h : ScheduledStandardOperation) : bool * BrokerServiceScheduler * Memory :=
  standard_client_disconnected s m h.

(** [BrokerServiceScheduler::decide]. *)
Definition service_decide (s : BrokerServiceScheduler) (now : Duration) (listener_ready : bool)
    : LifecycleDecision.t * BrokerServiceScheduler :=
  let (d, w) := scheduler_decide (workers s) now listener_ready in
  (d, mkService (coordinator s) w (identity_ptr s)).

(** [BrokerServiceScheduler::worker_lost] and [standard_worker_lost]. *)
Definition worker_lost (s : BrokerServiceScheduler) (h : ScheduledAuthentication)
    : bool * BrokerServiceScheduler :=
  if negb (owns s h) then (false, s)
  else
    let (r, w) := scheduler_worker_lost (workers s) (sa_lease h) in
    (r, mkService (coordinator s) w (identity_ptr s)).
Definition standard_worker_lost (s : BrokerServiceScheduler) (h : ScheduledStandardOperation)
    : bool * BrokerServiceScheduler :=
  if negb (owns_standard s h) then (false, s)
  else
    let (r, w) := scheduler_worker_lost (workers s) (ss_lease h) in
    (r, mkService (coordinator s) w (identity_ptr s)).

(** ** Histories of the service *)

(** What the service hands out, and what the service knows of it. *)
Inductive issued : Type :=
| IAuth (h : ScheduledAuthentication) | IStd (h : ScheduledStandardOperation).

Definition i_handle (i : issued) : AuthSession.handle :=
  match i with
  | IAuth h => AuthSession.auth_handle (authentication h)
  | IStd h => AuthSession.std_handle (std_op h)
  end.
Definition i_lease (i : issued) : WorkerLease :=
  match i with IAuth h => sa_lease h | IStd h => ss_lease h end.
Definition i_deadline (i : issued) : Duration :=
  match i with IAuth h => sa_deadline h | IStd h => ss_deadline h end.
Definition i_identity (i : issued) : ptr :=
  match i with IAuth h => sa_identity h | IStd h => ss_identity h end.
Definition i_slot (i : issued) : ptr :=
  match i with
  | IAuth h => AuthSession.auth_slot (authentication h)
  | IStd h => AuthSession.std_slot (std_op h)
  end.

Record world : Type := mkWorld { svc : BrokerServiceScheduler; mem : Memory; out : list issued }.

(** The calls of the broker's threads. Handles are positions in the list of
    those issued; a completion may be built from any of them. A worker may close
    its registration at any time, or panic with the slot's lock held. *)
Inductive event : Type :=
| EDispatch (peer : PeerMetadata) (policy : AccessPolicy) (packet : bytes) (now : Duration)
| EDispatchStandard (peer : PeerMetadata) (owner : option AccessPolicy)
    (op : StandardAuthority.Operation.t) (now : Duration)
| EEnrollWithoutOwner (peer : PeerMetadata) (now : Duration)
| ECancelWithoutOwner (peer : PeerMetadata)
| EFinish (i j : nat) (r : AuthSession.MatchOutcome.t + AuthSession.SessionFailure.t)
    (now : Duration)
| EFinishStandard (i j : nat) (r : Server.t) (now : Duration)
| EAbandon (i : nat) (now : Duration)
| EDisconnected (i : nat)
| EDeadline (i : nat)
| ECancelStandard (i : nat)
| EDecide (now : Duration) (listener_ready : bool)
| EWorkerLost (i : nat)
| EClose (i : nat)
| EPoisonLock.

Inductive outcome : Type :=
| OReply (r : Response.t) | OServer (r : Server.t) | OStarted (i : issued) | OTerminate
| OAck (b : bool) | OLifecycle (d : LifecycleDecision.t) | OPanic | OSkip.

(** The world after a call that hands something out, and after one that does
    not. *)
Definition dispatched (w : world) (r : ScheduledDispatch.t * BrokerServiceScheduler * Memory)
    : outcome * world :=
  let '(d, s, m) := r in
  match d with
  | ScheduledDispatch.Reply r => (OReply r, mkWorld s m (out w))
  | ScheduledDispatch.Start h => (OStarted (IAuth h), mkWorld s m (out w ++ [IAuth h]))
  | ScheduledDispatch.Terminate => (OTerminate, mkWorld s m (out w))
  end.
Definition std_dispatched (w : world)
    (r : ScheduledStandardDispatch.t * BrokerServiceScheduler * Memory) : outcome * world :=
  let '(d, s, m) := r in
  match d with
  | ScheduledStandardDispatch.Reply r => (OServer r, mkWorld s m (out w))
  | ScheduledStandardDispatch.Start h => (OStarted (IStd h), mkWorld s m (out w ++ [IStd h]))
  | ScheduledStandardDispatch.Terminate => (OTerminate, mkWorld s m (out w))
  end.
Definition answered {R} (w : world) (f : R -> outcome)
    (r : R * BrokerServiceScheduler * Memory) : outcome * world :=
  let '(r, s, m) := r in (f r, mkWorld s m (out w)).

Definition service_step (w : world) (e : event) : outcome * world :=
  let s := svc w in
  let m := mem w in
  match e with
  | EDispatch peer policy packet now => dispatched w (dispatch s m peer policy packet now)
  | EDispatchStandard peer owner op now =>
      std_dispatched w (dispatch_standard s m peer owner op now)
  | EEnrollWithoutOwner peer now => dispatched w (enroll_without_owner s m peer now)
  | ECancelWithoutOwner peer =>
      match cancel_without_owner s m peer with
      | (Ok d, s, m) => dispatched w (d, s, m)
      | (_, s, m) => (OPanic, mkWorld s m (out w))
      end
  | EFinish i j r now =>
      match out w !! i, out w !! j with
      | Some (IAuth h), Some (IAuth h') =>
          answered w OReply
            (finish s m h (AuthSession.completion_new (authentication h') r) now)
      | _, _ => (OSkip, w)
      end
  | EFinishStandard i j r now =>
      match out w !! i, out w !! j with
      | Some (IStd h), Some (IStd h') =>
          answered w OServer
            (finish_standard s m h (AuthSession.std_completion_new (std_op h') r) now)
      | _, _ => (OSkip, w)
      end
  | EAbandon i now =>
      match out w !! i with
      | Some (IAuth h) => answered w OReply (abandon s m h now)
      | Some (IStd h) => answered w OServer (abandon_standard s m h now)
      | None => (OSkip, w)
      end
  | EDisconnected i =>
      match out w !! i with
      | Some (IAuth h) => answered w OAck (client_disconnected s m h)
      | Some (IStd h) => answered w OAck (standard_client_disconnected s m h)
      | None => (OSkip, w)
      end
  | EDeadline i =>
      match out w !! i with
      | Some (IAuth h) => answered w OAck (deadline_expired s m h)
      | Some (IStd h) => answered w OAck (standard_deadline_expired s m h)
      | None => (OSkip, w)
      end
  | ECancelStandard i =>
      match out w !! i with
      | Some (IStd h) => answered w OAck (cancel_standard s m h)
      | _ => (OSkip, w)
      end
  | EDecide now ready =>
      let (d, s) := service_decide s now ready in (OLifecycle d, mkWorld s m (out w))
  | EWorkerLost i =>
      match out w !! i with
      | Some (IAuth h) => let (b, s) := worker_lost s h in (OAck b, mkWorld s m (out w))
      | Some (IStd h) => let (b, s) := standard_worker_lost s h in (OAck b, mkWorld s m (out w))
      | None => (OSkip, w)
      end
  | EClose i =>
      match out w !! i with
      | Some (IAuth h) =>
          let (b, m) := AuthSession.auth_close_cancellation m (authentication h) in
          (OAck b, mkWorld s m (out w))
      | Some (IStd h) =>
          let (b, m) := AuthSession.std_close_cancellation m (std_op h) in
          (OAck b, mkWorld s m (out w))
      | None => (OSkip, w)
      end
  | EPoisonLock =>
      (OSkip, mkWorld s (AuthSession.poison_lock m (AuthSession.cancellation (coordinator s)))
                (out w))
  end.

Fixpoint service_run (w : world) (es : list event) : list outcome * world :=
  match es with
  | [] => ([], w)
  | e :: es =>
      let (o, w) := service_step w e in
      let (os, w) := service_run w es in (o :: os, w)
  end.

(** A history from a new service. *)
Definition reached (w : world) : Prop :=
  exists m now idle s m0 es,
    service_new m now idle = (Ok s, m0) /\ w = snd (service_run (mkWorld s m0 []) es).

(** ** One worker, one operation *)

(** [cur] is the operation in progress: the broker's and the worker's. *)
Record in_sync (w : world) (cur : option issued) : Prop := mkInSync {
  sync_step : AuthSession.in_step (coordinator (svc w)) (mem w) (i_handle <$> out w)
                (i_handle <$> cur);
  sync_worker : (fun a => (lease a, deadline a)) <$> active (workers (svc w)) =
                (fun i => (i_lease i, i_deadline i)) <$> cur;
  sync_cur : forall i, cur = Some i -> i ∈ out w;
  sync_out : Forall (fun i => i_identity i = identity_ptr (svc w) /\
                       i_slot i = AuthSession.cancellation (coordinator (svc w)) /\
                       (next_lease (workers (svc w)) = 0 \/
                        i_lease i < next_lease (workers (svc w)))) (out w);
  sync_unique : NoDup (i_lease <$> out w);
  sync_handles : NoDup (i_handle <$> out w);
}.

(** The world goes on, in sync. *)
Definition goes (w : world) (cur : option issued) (w' : world) (cur' : option issued) : Prop :=
  in_sync w' cur' /\ out w `prefix_of` out w' /\
  identity_ptr (svc w') = identity_ptr (svc w) /\
  AuthSession.cancellation (coordinator (svc w')) = AuthSession.cancellation (coordinator (svc w)) /\
  AuthSession.advance (AuthSession.cancellation (coordinator (svc w)))
    (mem w) (i_handle <$> out w) (i_handle <$> cur)
    (mem w') (i_handle <$> out w') (i_handle <$> cur').

Lemma goes_refl w cur : in_sync w cur -> goes w cur w cur.
Proof. intros H. split_and!; try done. apply AuthSession.advance_refl. Qed.

Lemma goes_trans w1 cur1 w2 cur2 w3 cur3 :
  goes w1 cur1 w2 cur2 -> goes w2 cur2 w3 cur3 -> goes w1 cur1 w3 cur3.
Proof.
  intros (S1 & P1 & I1 & C1 & A1) (S2 & P2 & I2 & C2 & A2).
  split_and!; [done|by etransitivity|congruence|congruence|].
  rewrite C1 in A2. by eapply AuthSession.advance_trans.
Qed.

(** The service owns exactly the operation in progress. *)
Lemma sync_owns w cur i :
  in_sync w cur -> i ∈ out w ->
  worker_owns (workers (svc w)) (i_lease i) = true <-> cur = Some i.
Proof.
  intros Hs Hi. pose proof (sync_worker _ _ Hs) as Hw. unfold worker_owns.
  destruct (active _) as [a|], cur as [j|]; cbn in Hw; simplify_eq; [|done].
  rewrite Z.eqb_eq. split; [|congruence]. intros Hl.
  pose proof (sync_cur _ _ Hs j eq_refl) as Hj. f_equal.
  apply list_elem_of_lookup in Hi as [x Hx], Hj as [y Hy].
  assert (x = y) as ->; [|congruence].
  eapply NoDup_lookup; [apply (sync_unique _ _ Hs)|..]; rewrite list_lookup_fmap;
    [rewrite Hx|rewrite Hy]; cbn; [done|f_equal; etransitivity; [symmetry; exact H|exact Hl]].
Qed.

(** The coordinator went on and the workers did not change. *)
Lemma goes_coordinator w cur c m :
  in_sync w cur ->
  AuthSession.proceeds (coordinator (svc w)) (mem w) (i_handle <$> out w) (i_handle <$> cur)
    c m (i_handle <$> out w) (i_handle <$> cur) ->
  goes w cur (mkWorld (mkService c (workers (svc w)) (identity_ptr (svc w))) m (out w)) cur.
Proof.
  intros [H1 H2 H3 H4 H5 H6] (Hin & Hc & Hadv). split_and!; try done. split; try done. cbn. by rewrite Hc.
Qed.

(** The workers changed, and not the operation in progress. *)
Lemma goes_workers w cur k :
  in_sync w cur ->
  (fun a => (lease a, deadline a)) <$> active k =
    (fun a => (lease a, deadline a)) <$> active (workers (svc w)) ->
  next_lease k = next_lease (workers (svc w)) ->
  goes w cur (mkWorld (mkService (coordinator (svc w)) k (identity_ptr (svc w))) (mem w) (out w)) cur.
Proof.
  intros [H1 H2 H3 H4 H5 H6] Ha Hn. split_and!; try done; [|apply AuthSession.advance_refl].
  split; try done; cbn; [congruence|by rewrite Hn].
Qed.

(** The operation in progress ended and its worker is released. *)
Lemma goes_release {R} w i c m now (r f : R) :
  in_sync w (Some i) ->
  AuthSession.proceeds (coordinator (svc w)) (mem w) (i_handle <$> out w) (Some (i_handle i))
    c m (i_handle <$> out w) None ->
  exists s', release (svc w) c m (i_lease i) now r f = (r, s', m) /\
    active (workers s') = None /\ poisoned (workers s') = poisoned (workers (svc w)) /\
    goes w (Some i) (mkWorld s' m (out w)) None.
Proof.
  intros [H1 H2 H3 H4 H5 H6] (Hin & Hc & Hadv). unfold release, complete.
  destruct (active _) as [a|] eqn:Ha; cbn in H2; [|done]. simplify_eq.
  rewrite (proj2 (Z.eqb_eq _ _)) by congruence. cbn. eexists. split; [done|].
  split; [done|]. split; [done|]. split_and!; try done. split; try done. cbn. by rewrite Hc.
Qed.

Lemma admit_spec k now t r k' :
  admit_with_timeout k now t = (r, k') ->
  match r with
  | WorkerAdmission.Start l d =>
      poisoned k = false /\ active k = None /\ l = next_lease k /\ l <> 0 /\
      active k' = Some (mkWorker l d false) /\ poisoned k' = false /\
      (next_lease k' = 0 \/ l < next_lease k')
  | _ => active k' = active k /\ next_lease k' = next_lease k
  end.
Proof.
  intros H. unfold admit_with_timeout in H. destruct (poisoned k) eqn:Hp; [by simplify_eq|].
  destruct (active k) eqn:Ha; [by simplify_eq|].
  destruct (duration_checked_add _ _); [|by simplify_eq].
  destruct (_ =? 0) eqn:H0; b2p; [by simplify_eq|]. simplify_eq. cbn. split_and!; try done.
  unfold checked_add. destruct (_ <=? _); lia.
Qed.

(** A request started an operation and a worker was admitted for it. *)
Lemma goes_admit w i c m now t k :
  in_sync w None -> i_identity i = identity_ptr (svc w) ->
  i_slot i = AuthSession.cancellation (coordinator (svc w)) ->
  AuthSession.starts (coordinator (svc w)) (mem w) (i_handle <$> out w) None c m (Some (i_handle i)) ->
  admit_with_timeout (workers (svc w)) now t = (WorkerAdmission.Start (i_lease i) (i_deadline i), k) ->
  goes w None (mkWorld (mkService c k (identity_ptr (svc w))) m (out w ++ [i])) (Some i).
Proof.
  intros [H1 H2 H3 H4 H5 H6] Hid Hslot (_ & Hnew & _ & Hin & Hc & Hadv) Hk.
  destruct (admit_spec _ _ _ _ _ Hk) as (_ & _ & Hl & Hl0 & Ha & _ & Hn).
  assert (i_handle <$> (out w ++ [i]) = (i_handle <$> out w) ++ [i_handle i]) as Hout
    by (rewrite fmap_app; done).
  split_and!; cbn [svc out mem]; try done; [|by apply prefix_app_r|by rewrite Hout].
  split; cbn [svc out mem coordinator workers identity_ptr].
  - by rewrite Hout.
  - by rewrite Ha.
  - intros ? [= <-]. apply elem_of_app. right. by apply list_elem_of_singleton.
  - apply Forall_app. split; [|constructor; [|done]].
    + eapply Forall_impl; [exact H4|]. cbn. intros j (Ji & Js & Jl).
      split_and!; [done|congruence|lia].
    + split_and!; [done|congruence|lia].
  - rewrite fmap_app. apply NoDup_app. split_and!; [done| |apply NoDup_singleton].
    intros l (j & -> & Hj)%list_elem_of_fmap Hj'%list_elem_of_singleton.
    eapply Forall_forall in H4; [|exact Hj]. destruct H4 as (_ & _ & Jl). lia.
  - rewrite Hout. apply NoDup_app. split_and!; [done| |apply NoDup_singleton].
    intros h Hh Hh'%list_elem_of_singleton. congruence.
Qed.

(** A request started an operation, no worker was admitted, and the operation
    was abandoned. *)
Lemma goes_refused w h c m c' m' k :
  in_sync w None ->
  AuthSession.starts (coordinator (svc w)) (mem w) (i_handle <$> out w) None c m (Some h) ->
  AuthSession.proceeds c m ((i_handle <$> out w) ++ [h]) (Some h)
    c' m' ((i_handle <$> out w) ++ [h]) None ->
  active k = active (workers (svc w)) -> next_lease k = next_lease (workers (svc w)) ->
  goes w None (mkWorld (mkService c' (poison k) (identity_ptr (svc w))) m' (out w)) None.
Proof.
  intros [H1 H2 H3 H4 H5 H6] (_ & Hnew & _ & Hst) Hend Ha Hn.
  pose proof (AuthSession.proceeds_trans _ _ _ _ _ _ _ _ _ _ _ _ Hst Hend) as Hp.
  apply AuthSession.proceeds_forget in Hp as (Hin & Hc & Hadv).
  split_and!; try done. split; try done; cbn; [by rewrite Ha|by rewrite Hc, Hn].
Qed.

Lemma schedule_goes w cur c m d now r :
  in_sync w cur ->
  AuthSession.starts (coordinator (svc w)) (mem w) (i_handle <$> out w) (i_handle <$> cur) c m
    (AuthSession.auth_handle <$> AuthSession.decided d) ->
  (forall a, d = AuthSession.SessionDecision.Start a ->
     AuthSession.auth_slot a = AuthSession.cancellation (coordinator (svc w))) ->
  schedule (mkService c (workers (svc w)) (identity_ptr (svc w))) m d now = r ->
  exists cur', goes w cur (snd (dispatched w r)) cur'.
Proof.
  intros Hs Hst Hslot H. destruct d as [r0|a]; cbn in Hst, H.
  { subst r. exists cur. by apply goes_coordinator. }
  specialize (Hslot a eq_refl). destruct cur as [j|]; [by destruct Hst as [? _]|].
  pose proof Hst as (_ & _ & _ & Hin & Hc & _).
  destruct (admit_with_timeout _ _ _) as [adm k] eqn:Hk.
  destruct (AuthSession.abandon c m a) as [[r2 c2] m2] eqn:Hab.
  destruct (AuthSession.abandon_ends _ _ _ _ _ _ _ Hin ltac:(congruence) Hab) as [_ Hend].
  pose proof (admit_spec _ _ _ _ _ Hk) as Hadm. destruct adm as [l dl| |]; subst r.
  - exists (Some (IAuth (mkSchedAuth a l dl (identity_ptr (svc w))))). by eapply goes_admit.
  - exists None. eapply goes_refused; [done|exact Hst|exact Hend|apply Hadm..].
  - exists None. eapply goes_refused; [done|exact Hst|exact Hend|apply Hadm..].
Qed.

Lemma schedule_standard_goes w cur c m d now r :
  in_sync w cur ->
  AuthSession.starts (coordinator (svc w)) (mem w) (i_handle <$> out w) (i_handle <$> cur) c m
    (AuthSession.std_handle <$> AuthSession.std_decided d) ->
  (forall a, d = AuthSession.StandardSessionDecision.Start a ->
     AuthSession.std_slot a = AuthSession.cancellation (coordinator (svc w))) ->
  schedule_standard (mkService c (workers (svc w)) (identity_ptr (svc w))) m d now = r ->
  exists cur', goes w cur (snd (std_dispatched w r)) cur'.
Proof.
  intros Hs Hst Hslot H. destruct d as [r0|a]; cbn in Hst, H.
  { subst r. exists cur. by apply goes_coordinator. }
  specialize (Hslot a eq_refl). destruct cur as [j|]; [by destruct Hst as [? _]|].
  pose proof Hst as (_ & _ & _ & Hin & Hc & _).
  destruct (admit_with_timeout _ _ _) as [adm k] eqn:Hk.
  destruct (AuthSession.abandon_standard c m a) as [[r2 c2] m2] eqn:Hab.
  destruct (AuthSession.abandon_standard_ends _ _ _ _ _ _ _ Hin ltac:(congruence) Hab) as [_ Hend].
  pose proof (admit_spec _ _ _ _ _ Hk) as Hadm. destruct adm as [l dl| |]; subst r.
  - exists (Some (IStd (mkSchedStd a l dl (identity_ptr (svc w))))). by eapply goes_admit.
  - exists None. eapply goes_refused; [done|exact Hst|exact Hend|apply Hadm..].
  - exists None. eapply goes_refused; [done|exact Hst|exact Hend|apply Hadm..].
Qed.

Lemma world_eta w : mkWorld (svc w) (mem w) (out w) = w.
Proof. by destruct w. Qed.

(** The service's guard on a handle it issued. *)
Lemma guard_owns w cur i :
  in_sync w cur -> i ∈ out w ->
  bool_decide (identity_ptr (svc w) = i_identity i) && worker_owns (workers (svc w)) (i_lease i) = true
  <-> cur = Some i.
Proof.
  intros Hs Hi. rewrite andb_true_iff, (sync_owns _ _ _ Hs Hi), bool_decide_eq_true.
  pose proof (sync_out _ _ Hs) as Ho. eapply Forall_forall in Ho as (Hid & _); [|exact Hi]. naive_solver.
Qed.

(** [owns] answers whether the handle is the operation in progress. *)
Lemma owns_cases w cur i (b : bool) :
  in_sync w cur -> i ∈ out w ->
  b = bool_decide (identity_ptr (svc w) = i_identity i) && worker_owns (workers (svc w)) (i_lease i) ->
  (b = true /\ cur = Some i /\ i_slot i = AuthSession.cancellation (coordinator (svc w))) \/
  (b = false /\ cur <> Some i).
Proof.
  intros Hs Hi Hb. pose proof (guard_owns _ _ _ Hs Hi) as Hg. rewrite <- Hb in Hg.
  pose proof (sync_out _ _ Hs) as Ho. eapply Forall_forall in Ho as (_ & Hslot & _); [|exact Hi].
  destruct b; [left; split_and!; [done|by apply Hg|done]|right; split; [done|]]. intros Hc.
  by apply Hg in Hc.
Qed.

Lemma finish_spec w cur h k now r s' m' :
  in_sync w cur -> IAuth h ∈ out w -> finish (svc w) (mem w) h k now = (r, s', m') ->
  (r = Response.Failure /\ s' = svc w /\ m' = mem w /\
     (poisoned (workers (svc w)) = true \/ cur <> Some (IAuth h) \/
      AuthSession.belongs_to k (authentication h) = false)) \/
  (poisoned (workers (svc w)) = false /\ cur = Some (IAuth h) /\
   AuthSession.belongs_to k (authentication h) = true /\
   r = AuthSession.verdict (AuthSession.auth_is_cancelled (mem w) (authentication h))
         (AuthSession.operation_result (AuthSession.comp_result k)) /\
   active (workers s') = None /\ goes w cur (mkWorld s' m' (out w)) None).
Proof.
  intros Hs Hi H. unfold finish in H.
  destruct (owns_cases _ _ _ (owns (svc w) h) Hs Hi eq_refl) as [(Ho & -> & Hslot)|(Ho & Hne)];
    rewrite Ho in H.
  2:{ cbn in H. rewrite orb_true_r in H. cbn in H. left. simplify_eq. by split_and!; auto. }
  destruct (poisoned _) eqn:Hp; cbn in H; [left; simplify_eq; by auto 10|].
  destruct (AuthSession.belongs_to _ _) eqn:Hb; cbn in H; [|left; simplify_eq; auto 10].
  right. destruct (AuthSession.finish_for _ _ _ _) as [[r2 c2] m2] eqn:Hf.
  destruct (AuthSession.finish_for_ends _ _ _ _ _ _ _ _ (sync_step _ _ Hs) Hslot Hb Hf) as [-> Hend].
  destruct (goes_release w (IAuth h) c2 m2 now
    (AuthSession.verdict (AuthSession.load (mem w) (AuthSession.auth_event (authentication h)))
      (AuthSession.operation_result (AuthSession.comp_result k))) Response.Failure Hs Hend)
    as (s2 & Hr & Ha & _ & Hg).
  cbn [i_lease] in Hr. rewrite Hr in H. simplify_eq. auto 10.
Qed.

Lemma service_finish_standard_spec w cur h k now r s' m' :
  in_sync w cur -> IStd h ∈ out w -> finish_standard (svc w) (mem w) h k now = (r, s', m') ->
  (r = Server.Terminal Outcome.Error /\ s' = svc w /\ m' = mem w /\
     (poisoned (workers (svc w)) = true \/ cur <> Some (IStd h) \/
      AuthSession.std_belongs_to k (std_op h) = false)) \/
  (poisoned (workers (svc w)) = false /\ cur = Some (IStd h) /\
   AuthSession.std_belongs_to k (std_op h) = true /\
   r = AuthSession.std_verdict (std_op h) (AuthSession.std_is_cancelled (mem w) (std_op h))
         (AuthSession.scomp_result k) /\
   active (workers s') = None /\ goes w cur (mkWorld s' m' (out w)) None).
Proof.
  intros Hs Hi H. unfold finish_standard in H.
  destruct (owns_cases _ _ _ (owns_standard (svc w) h) Hs Hi eq_refl) as [(Ho & -> & Hslot)|(Ho & Hne)];
    rewrite Ho in H.
  2:{ cbn in H. rewrite orb_true_r in H. cbn in H. left. simplify_eq. by split_and!; auto. }
  destruct (poisoned _) eqn:Hp; cbn in H; [left; simplify_eq; auto|].
  destruct (AuthSession.std_belongs_to _ _) eqn:Hb; cbn in H; [|left; simplify_eq; auto 10].
  right. destruct (AuthSession.finish_standard _ _ _ _) as [[r2 c2] m2] eqn:Hf.
  destruct (AuthSession.finish_standard_ends _ _ _ _ _ _ _ _ (sync_step _ _ Hs) Hslot Hb Hf) as [Hr2 Hend].
  destruct (goes_release w (IStd h) c2 m2 now r2 (Server.Terminal Outcome.Error) Hs Hend)
    as (s2 & Hr & Ha & _ & Hg).
  cbn [i_lease] in Hr. rewrite Hr in H. simplify_eq. auto 10.
Qed.

(** Abandoning never grants. *)
Lemma abandon_goes w cur h now r s' m' :
  in_sync w cur -> IAuth h ∈ out w -> abandon (svc w) (mem w) h now = (r, s', m') ->
  r = Response.Failure /\ poisoned (workers s') = poisoned (workers (svc w)) /\
  exists cur', goes w cur (mkWorld s' m' (out w)) cur'.
Proof.
  intros Hs Hi H. unfold abandon in H.
  destruct (owns_cases _ _ _ (owns (svc w) h) Hs Hi eq_refl) as [(Ho & -> & Hslot)|(Ho & Hne)];
    rewrite Ho in H; cbn in H.
  - destruct (AuthSession.abandon _ _ _) as [[r2 c2] m2] eqn:Hf.
    destruct (AuthSession.abandon_ends _ _ _ _ _ _ _ (sync_step _ _ Hs) Hslot Hf) as [-> Hend].
    destruct (goes_release w (IAuth h) c2 m2 now Response.Failure Response.Failure Hs Hend)
      as (s2 & Hr & _ & Hp & Hg).
    cbn [i_lease] in Hr. rewrite Hr in H. simplify_eq. eauto.
  - simplify_eq. rewrite world_eta. split_and!; [done|done|]. exists cur. by apply goes_refl.
Qed.

Lemma abandon_standard_goes w cur h now r s' m' :
  in_sync w cur -> IStd h ∈ out w -> abandon_standard (svc w) (mem w) h now = (r, s', m') ->
  (r = Server.Terminal Outcome.Cancelled \/ r = Server.Terminal Outcome.Error) /\
  poisoned (workers s') = poisoned (workers (svc w)) /\
  exists cur', goes w cur (mkWorld s' m' (out w)) cur'.
Proof.
  intros Hs Hi H. unfold abandon_standard in H.
  destruct (owns_cases _ _ _ (owns_standard (svc w) h) Hs Hi eq_refl) as [(Ho & -> & Hslot)|(Ho & Hne)];
    rewrite Ho in H; cbn in H.
  - destruct (AuthSession.abandon_standard _ _ _) as [[r2 c2] m2] eqn:Hf.
    destruct (AuthSession.abandon_standard_ends _ _ _ _ _ _ _ (sync_step _ _ Hs) Hslot Hf) as [Hr2 Hend].
    assert (r2 = Server.Terminal Outcome.Cancelled \/ r2 = Server.Terminal Outcome.Error) as Hor
      by (rewrite Hr2; unfold AuthSession.std_verdict; repeat case_match; auto).
    destruct (goes_release w (IStd h) c2 m2 now r2 (Server.Terminal Outcome.Error) Hs Hend)
      as (s2 & Hr & _ & Hp & Hg).
    cbn [i_lease] in Hr. rewrite Hr in H. simplify_eq. eauto.
  - simplify_eq. rewrite world_eta. split_and!; [auto|done|]. exists cur. by apply goes_refl.
Qed.

(** The calls that ask for the cancellation of the [n]th handle. *)
Definition cancels_at (e : event) (n : nat) : Prop :=
  e = EDisconnected n \/ e = EDeadline n \/ e = ECancelStandard n.

(** The coordinator's answer to a cancellation, as the service's. *)
Lemma goes_cancel w cur i c m b :
  in_sync w cur ->
  AuthSession.cancels (coordinator (svc w)) (mem w) (i_handle <$> out w) (i_handle <$> cur)
    c m (i_handle i) b ->
  cur = Some i ->
  let w' := mkWorld (mkService c (workers (svc w)) (identity_ptr (svc w))) m (out w) in
  goes w cur w' cur /\
  (b = true ->
     AuthSession.registered (mem w) (AuthSession.cancellation (coordinator (svc w))) (i_handle i) /\
     AuthSession.load m (AuthSession.h_event (i_handle i)) = true).
Proof.
  intros Hs (Hp & Hb) -> w'. split; [by apply goes_coordinator|]. intros Hbt. by apply Hb in Hbt as (_ & ? & ?).
Qed.

Lemma cancel_step w cur e n i o w' :
  in_sync w cur -> cancels_at e n -> out w !! n = Some i -> service_step w e = (o, w') ->
  goes w cur w' cur /\ workers (svc w') = workers (svc w) /\
  (o = OAck true ->
     AuthSession.registered (mem w) (AuthSession.cancellation (coordinator (svc w))) (i_handle i) /\
     AuthSession.load (mem w') (AuthSession.h_event (i_handle i)) = true) /\
  (o = OAck true \/ o = OAck false \/ o = OSkip).
Proof.
  intros Hs He Hn H. assert (i ∈ out w) as Hi by (apply list_elem_of_lookup; eauto).
  assert (i_handle i ∈ i_handle <$> out w) as Hh by (apply list_elem_of_fmap; eauto).
  assert (forall b c m, (bool_decide (identity_ptr (svc w) = i_identity i)
                         && worker_owns (workers (svc w)) (i_lease i) = true ->
      AuthSession.cancels (coordinator (svc w)) (mem w) (i_handle <$> out w) (i_handle <$> cur)
        c m (i_handle i) b) ->
    (if negb (bool_decide (identity_ptr (svc w) = i_identity i)
              && worker_owns (workers (svc w)) (i_lease i))
     then answered w OAck (false, svc w, mem w)
     else answered w OAck (b, mkService c (workers (svc w)) (identity_ptr (svc w)), m)) = (o, w') ->
    goes w cur w' cur /\ workers (svc w') = workers (svc w) /\
    (o = OAck true ->
       AuthSession.registered (mem w) (AuthSession.cancellation (coordinator (svc w))) (i_handle i) /\
       AuthSession.load (mem w') (AuthSession.h_event (i_handle i)) = true) /\
    (o = OAck true \/ o = OAck false \/ o = OSkip)) as Hgen.
  { intros b c m Hc Heq.
    destruct (owns_cases _ _ _ _ Hs Hi eq_refl) as [(Ho & Hcur & Hslot)|(Ho & Hne)]; rewrite Ho in *;
      cbn in Heq; simplify_eq.
    - destruct (goes_cancel _ _ _ _ _ _ Hs (Hc eq_refl) eq_refl) as [Hg Hb]. split_and!; try done.
      + intros [= ->]. by apply Hb.
      + destruct b; auto.
    - rewrite world_eta. split_and!; [by apply goes_refl|done|done|auto]. }
  destruct He as [->|[->| ->]]; cbv beta iota zeta delta [service_step] in H; rewrite Hn in H; destruct i as [h|h].
  5:{ simplify_eq. split_and!; [by apply goes_refl|done|done|auto]. }
  all: unfold client_disconnected, deadline_expired, standard_deadline_expired,
         standard_client_disconnected, cancel_standard, owns, owns_standard in H.
  1,3: destruct (AuthSession.client_disconnected (coordinator (svc w)) (mem w) (authentication h))
         as [[b c] m] eqn:Hc.
  3,4: destruct (AuthSession.standard_client_disconnected (coordinator (svc w)) (mem w) (std_op h))
         as [[b c] m] eqn:Hc.
  5: destruct (AuthSession.cancel_standard (coordinator (svc w)) (mem w) (std_op h))
         as [[b c] m] eqn:Hc.
  all: apply (Hgen b c m); [intros _|cbn; by destruct (negb _)].
  1,2: eapply AuthSession.disconnected_cancels; [apply Hs|exact Hh|exact Hc].
  1,2: eapply AuthSession.std_disconnected_cancels; [apply Hs|exact Hh|exact Hc].
  eapply AuthSession.cancel_standard_cancels; [apply Hs|exact Hh|exact Hc].
Qed.

(** A worker closes its registration. *)
Lemma close_step w cur n i o w' :
  in_sync w cur -> out w !! n = Some i -> service_step w (EClose n) = (o, w') ->
  goes w cur w' cur /\ workers (svc w') = workers (svc w) /\
  (o = OAck true ->
     ~ AuthSession.registered (mem w') (AuthSession.cancellation (coordinator (svc w))) (i_handle i) /\
     AuthSession.load (mem w') (AuthSession.h_event (i_handle i)) = false) /\
  (o = OAck true \/ o = OAck false).
Proof.
  intros Hs Hn H. assert (i ∈ out w) as Hi by (apply list_elem_of_lookup; eauto).
  pose proof (sync_out _ _ Hs) as Ho. eapply Forall_forall in Ho as (_ & Hslot & _); [|exact Hi].
  destruct (AuthSession.close (mem w) (i_slot i) (AuthSession.h_token (i_handle i))
              (AuthSession.h_event (i_handle i))) as [b m] eqn:Hc.
  assert (H' : (OAck b, mkWorld (svc w) m (out w)) = (o, w')).
  { rewrite <- H. unfold service_step. rewrite Hn.
    destruct i as [h|h]; cbn [i_slot i_handle] in Hc;
      unfold AuthSession.auth_close_cancellation, AuthSession.std_close_cancellation;
      cbn [AuthSession.h_token AuthSession.h_event AuthSession.auth_handle AuthSession.std_handle] in Hc;
      by rewrite Hc. }
  rewrite Hslot in Hc.
  destruct (AuthSession.in_step_close _ _ _ _ _ _ _ (sync_step _ _ Hs) Hc) as (Hp & _ & Hb).
  pose proof (goes_coordinator _ _ _ _ Hs Hp) as Hg. simplify_eq.
  split_and!; [by destruct w as [[]]|done| |destruct b; auto].
  intros [= ->]. by apply Hb.
Qed.

(** [Scheduler::poison] and [decide] leave the operation in progress alone. *)
Lemma decide_spec k now ready d k' :
  scheduler_decide k now ready = (d, k') ->
  (fun a => (lease a, deadline a)) <$> active k' = (fun a => (lease a, deadline a)) <$> active k /\
  next_lease k' = next_lease k /\ poisoned k' = poisoned k.
Proof.
  intros H. unfold scheduler_decide in H. destruct (poisoned k) eqn:Hp; [by simplify_eq|].
  destruct (active k) as [a|] eqn:Ha.
  - destruct (_ && _); simplify_eq; cbn; [done|by rewrite Ha].
  - destruct (_ && _); simplify_eq; by rewrite Ha.
Qed.

Lemma worker_lost_spec k l b k' :
  scheduler_worker_lost k l = (b, k') ->
  active k' = active k /\ next_lease k' = next_lease k /\ (poisoned k = true -> poisoned k' = true).
Proof.
  intros H. unfold scheduler_worker_lost in H. destruct (active k) as [a|] eqn:Ha; [|by simplify_eq].
  destruct (negb _); by simplify_eq.
Qed.

Lemma dispatch_goes w cur peer policy packet now :
  in_sync w cur ->
  exists cur', goes w cur (snd (dispatched w (dispatch (svc w) (mem w) peer policy packet now))) cur'.
Proof.
  intros Hs. unfold dispatch. destruct (poisoned _).
  { exists cur. cbn. rewrite world_eta. by apply goes_refl. }
  destruct (AuthSession.dispatch _ _ _ _ _) as [[d c] m] eqn:Hd.
  destruct (AuthSession.dispatch_starts _ _ _ _ _ _ _ _ _ _ (sync_step _ _ Hs) Hd) as [Hst Hslot].
  by eapply schedule_goes.
Qed.

Lemma enroll_goes w cur peer now :
  in_sync w cur ->
  exists cur', goes w cur (snd (dispatched w (enroll_without_owner (svc w) (mem w) peer now))) cur'.
Proof.
  intros Hs. unfold enroll_without_owner. destruct (poisoned _).
  { exists cur. cbn. rewrite world_eta. by apply goes_refl. }
  destruct (AuthSession.enroll_without_owner _ _ _) as [[d c] m] eqn:Hd.
  destruct (AuthSession.enroll_starts _ _ _ _ _ _ _ _ (sync_step _ _ Hs) Hd) as [Hst Hslot].
  by eapply schedule_goes.
Qed.

Lemma dispatch_standard_goes w cur peer owner op now :
  in_sync w cur ->
  exists cur',
    goes w cur (snd (std_dispatched w (dispatch_standard (svc w) (mem w) peer owner op now))) cur'.
Proof.
  intros Hs. unfold dispatch_standard. destruct (poisoned _).
  { exists cur. cbn. rewrite world_eta. by apply goes_refl. }
  destruct (AuthSession.dispatch_standard _ _ _ _ _) as [[d c] m] eqn:Hd.
  destruct (AuthSession.dispatch_standard_starts _ _ _ _ _ _ _ _ _ _ (sync_step _ _ Hs) Hd) as [Hst Hslot].
  by eapply schedule_standard_goes.
Qed.

(** The root's cancellation never panics, and only replies or terminates. *)
Lemma cancel_without_owner_goes w cur peer :
  in_sync w cur ->
  exists d s m, cancel_without_owner (svc w) (mem w) peer = (Ok d, s, m) /\
    (forall h, d <> ScheduledDispatch.Start h) /\ workers s = workers (svc w) /\
    goes w cur (mkWorld s m (out w)) cur.
Proof.
  intros Hs. unfold cancel_without_owner. destruct (poisoned _).
  { do 3 eexists. split_and!; [done|done|done|]. rewrite world_eta. by apply goes_refl. }
  unfold AuthSession.cancel_without_owner, AuthProtocol.cancel_without_owner.
  destruct (AuthProtocol.cancel_for_root _ _ _ _) as [[dec st] m] eqn:Hd.
  destruct (AuthSession.cancel_for_root_proceeds _ _ _ _ _ _ _ _ (sync_step _ _ Hs) Hd) as [Hp (r & -> & _)].
  cbn. do 3 eexists. split; [done|]. split; [done|]. split; [done|]. by apply goes_coordinator.
Qed.

(** The root's requests to cancel whatever is in progress. *)
Definition root_cancels (e : event) : Prop :=
  match e with
  | EDispatch _ _ packet _ => packet = AuthProtocol.CANCEL_REQUEST
  | ECancelWithoutOwner _ => True
  | _ => False
  end.

(** In [w] the call [e] asked for the cancellation of the [n]th operation and
    [o] acknowledges it: a disconnect, deadline or cancellation of its handle
    that returned true, or a root CANCEL answered [Okay] while the [n]th
    operation is the one whose worker runs. *)
Definition acknowledges (w : world) (e : event) (n : nat) (o : outcome) : Prop :=
  (cancels_at e n /\ o = OAck true) \/
  (root_cancels e /\ o = OReply Response.Okay /\
   exists i, out w !! n = Some i /\ worker_owns (workers (svc w)) (i_lease i) = true).

(** An acknowledged root CANCEL reached the operation in progress. *)
Lemma root_cancel_step w cur e w' :
  in_sync w cur -> root_cancels e -> service_step w e = (OReply Response.Okay, w') ->
  exists i, cur = Some i /\
    AuthSession.registered (mem w) (AuthSession.cancellation (coordinator (svc w))) (i_handle i) /\
    AuthSession.load (mem w') (AuthSession.h_event (i_handle i)) = true.
Proof.
  intros Hs He H.
  assert (forall h, i_handle <$> cur = Some h ->
    AuthSession.registered (mem w) (AuthSession.cancellation (coordinator (svc w))) h ->
    AuthSession.load (mem w') (AuthSession.h_event h) = true ->
    exists i, cur = Some i /\
      AuthSession.registered (mem w) (AuthSession.cancellation (coordinator (svc w))) (i_handle i) /\
      AuthSession.load (mem w') (AuthSession.h_event (i_handle i)) = true) as Hcur.
  { intros h Hc Hr Hl. destruct cur as [i|]; simplify_eq/=. by exists i. }
  destruct e as [peer policy packet now| | |peer| | | | | | | | | |]; try done; cbn in H.
  - unfold dispatch in H. destruct (poisoned _); [by simplify_eq/=|].
    destruct (AuthSession.dispatch _ _ _ _ _) as [[d c] m] eqn:Hd. cbn in H. destruct d as [r|a]; cbn in H.
    + simplify_eq. destruct (AuthSession.dispatch_okay _ _ _ _ _ _ _ _ _ (sync_step _ _ Hs) Hd)
        as (h & Hh & Hr & Hl). by eapply Hcur.
    + repeat case_match; by simplify_eq/=.
  - unfold cancel_without_owner in H. destruct (poisoned _); [by simplify_eq/=|].
    unfold AuthSession.cancel_without_owner, AuthProtocol.cancel_without_owner in H.
    destruct (AuthProtocol.cancel_for_root _ _ _ _) as [[dec st] m] eqn:Hd.
    destruct (AuthSession.cancel_for_root_proceeds _ _ _ _ _ _ _ _ (sync_step _ _ Hs) Hd)
      as (_ & r & -> & Hr).
    simplify_eq/=. destruct (Hr eq_refl) as (h & Hh & Hreg & Hl). by eapply Hcur.
Qed.

Lemma cancel_goes w cur e n : in_sync w cur -> cancels_at e n -> goes w cur (snd (service_step w e)) cur.
Proof.
  intros Hs He. destruct (out w !! n) as [i|] eqn:Hn.
  - destruct (service_step w e) as [o w'] eqn:Hst. by destruct (cancel_step _ _ _ _ _ _ _ Hs He Hn Hst) as [Hg _].
  - destruct He as [->|[->| ->]]; unfold service_step; rewrite Hn; by apply goes_refl.
Qed.

Lemma close_goes w cur n : in_sync w cur -> goes w cur (snd (service_step w (EClose n))) cur.
Proof.
  intros Hs. destruct (out w !! n) as [i|] eqn:Hn.
  - destruct (service_step w (EClose n)) as [o w'] eqn:Hst. by destruct (close_step _ _ _ _ _ _ Hs Hn Hst) as [Hg _].
  - unfold service_step. rewrite Hn. by apply goes_refl.
Qed.

(** Every call keeps the world in sync. *)
Lemma step_goes w cur e : in_sync w cur -> exists cur', goes w cur (snd (service_step w e)) cur'.
Proof.
  intros Hs. pose proof (goes_refl _ _ Hs) as Hrefl.
  assert (forall n i, out w !! n = Some i -> i ∈ out w) as Hin
    by (intros n i Hn; apply list_elem_of_lookup; eauto).
  destruct e as [peer policy packet now|peer owner op now|peer now|peer|n k r now|n k r now|n now
                |n|n|n|now ready|n|n|]; unfold service_step.
  - by apply dispatch_goes.
  - by apply dispatch_standard_goes.
  - by apply enroll_goes.
  - destruct (cancel_without_owner_goes w cur peer Hs) as (d & s & m & -> & Hd & _ & Hg).
    exists cur. destruct d; [done|naive_solver|done].
  - destruct (out w !! n) as [[h|h]|] eqn:Hn; [|by exists cur..].
    destruct (out w !! k) as [[h'|h']|]; [|by exists cur..].
    destruct (finish _ _ _ _ _) as [[r2 s2] m2] eqn:Hf.
    destruct (finish_spec _ _ _ _ _ _ _ _ Hs (Hin _ _ Hn) Hf) as [(_ & -> & -> & _)|(_ & _ & _ & _ & _ & Hg)];
      [exists cur; cbn; by rewrite world_eta|by exists None].
  - destruct (out w !! n) as [[h|h]|] eqn:Hn; [by exists cur| |by exists cur].
    destruct (out w !! k) as [[h'|h']|]; [by exists cur| |by exists cur].
    destruct (finish_standard _ _ _ _ _) as [[r2 s2] m2] eqn:Hf.
    destruct (service_finish_standard_spec _ _ _ _ _ _ _ _ Hs (Hin _ _ Hn) Hf)
      as [(_ & -> & -> & _)|(_ & _ & _ & _ & _ & Hg)];
      [exists cur; cbn; by rewrite world_eta|by exists None].
  - destruct (out w !! n) as [[h|h]|] eqn:Hn; [| |by exists cur].
    + destruct (abandon _ _ _ _) as [[r2 s2] m2] eqn:Hf.
      by destruct (abandon_goes _ _ _ _ _ _ _ Hs (Hin _ _ Hn) Hf) as (_ & _ & Hg).
    + destruct (abandon_standard _ _ _ _) as [[r2 s2] m2] eqn:Hf.
      by destruct (abandon_standard_goes _ _ _ _ _ _ _ Hs (Hin _ _ Hn) Hf) as (_ & _ & Hg).
  - exists cur. apply (cancel_goes _ _ (EDisconnected n) n Hs). by left.
  - exists cur. apply (cancel_goes _ _ (EDeadline n) n Hs). by right; left.
  - exists cur. apply (cancel_goes _ _ (ECancelStandard n) n Hs). by right; right.
  - exists cur. unfold service_decide. destruct (scheduler_decide _ _ _) as [d k] eqn:Hd.
    destruct (decide_spec _ _ _ _ _ Hd) as (Ha & Hl & _). by apply goes_workers.
  - exists cur. destruct (out w !! n) as [[h|h]|] eqn:Hn; [| |done].
    + unfold worker_lost. destruct (negb _); [cbn; by rewrite world_eta|].
      destruct (scheduler_worker_lost _ _) as [b k] eqn:Hd.
      destruct (worker_lost_spec _ _ _ _ Hd) as (Ha & Hl & _). apply goes_workers; [done|by rewrite Ha|done].
    + unfold standard_worker_lost. destruct (negb _); [cbn; by rewrite world_eta|].
      destruct (scheduler_worker_lost _ _) as [b k] eqn:Hd.
      destruct (worker_lost_spec _ _ _ _ Hd) as (Ha & Hl & _). apply goes_workers; [done|by rewrite Ha|done].
  - exists cur. by apply (close_goes _ _ n).
  - exists cur. cbn. pose proof (AuthSession.in_step_poison _ _ _ _ (sync_step _ _ Hs)) as Hp.
    pose proof (goes_coordinator _ _ _ _ Hs Hp) as Hg. by destruct w as [[]].
Qed.

Lemma service_run_app es1 es2 : forall w,
  service_run w (es1 ++ es2) =
  let (os1, w1) := service_run w es1 in
  let (os2, w2) := service_run w1 es2 in (os1 ++ os2, w2).
Proof.
  induction es1 as [|e es1 IH]; intros w; cbn; [by destruct (service_run w es2)|].
  destruct (service_step w e) as [o w1]. rewrite IH. destruct (service_run w1 es1) as [os1 w2].
  by destruct (service_run w2 es2).
Qed.

Lemma run_goes es : forall w cur, in_sync w cur -> exists cur', goes w cur (snd (service_run w es)) cur'.
Proof.
  induction es as [|e es IH]; intros w cur Hs; [exists cur; by apply goes_refl|]. cbn.
  destruct (step_goes _ _ e Hs) as [cur1 Hg1]. destruct (service_step w e) as [o w1]. cbn in Hg1.
  destruct (IH w1 cur1 (proj1 Hg1)) as [cur2 Hg2]. destruct (service_run w1 es) as [os w2]. cbn in *.
  exists cur2. by eapply goes_trans.
Qed.

Lemma new_in_sync m now idle s m0 : service_new m now idle = (Ok s, m0) -> in_sync (mkWorld s m0 []) None.
Proof.
  intros H. unfold service_new in H. destruct (AuthSession.coordinator_default m) as [c m1] eqn:Hc.
  destruct (scheduler_new now idle) as [k| |] eqn:Hk; simplify_eq.
  unfold scheduler_new in Hk. destruct (_ =? _); simplify_eq. cbn in H. simplify_eq.
  pose proof (AuthSession.default_in_step _ _ _ Hc) as Hin.
  split; [|done|done|apply Forall_nil_2|apply NoDup_nil_2|apply NoDup_nil_2].
  destruct Hin as [H1 H2 H3 H4 H5]. by split.
Qed.

Lemma reached_in_sync w : reached w -> exists cur, in_sync w cur.
Proof.
  intros (m & now & idle & s & m0 & es & Hn & ->).
  destruct (run_goes es _ _ (new_in_sync _ _ _ _ _ Hn)) as [cur [Hs _]]. by exists cur.
Qed.

(** The sequence of one call and a history. *)
Lemma step_run_goes w cur e o w1 es :
  in_sync w cur -> service_step w e = (o, w1) ->
  exists cur1 cur2, goes w cur w1 cur1 /\ goes w1 cur1 (snd (service_run w1 es)) cur2.
Proof.
  intros Hs H. destruct (step_goes _ _ e Hs) as [cur1 Hg1]. rewrite H in Hg1. cbn in Hg1.
  destruct (run_goes es _ _ (proj1 Hg1)) as [cur2 Hg2]. eauto.
Qed.

(** The operations handed out have different tokens and different events. *)
Lemma sync_distinct w cur {A} (f : AuthSession.handle -> A) :
  in_sync w cur ->
  (forall h1 h2, f h1 = f h2 ->
     AuthSession.h_token h1 = AuthSession.h_token h2 \/ AuthSession.h_event h1 = AuthSession.h_event h2) ->
  NoDup ((fun i => f (i_handle i)) <$> out w).
Proof.
  intros Hs Hf. rewrite (list_fmap_compose i_handle f).
  apply NoDup_fmap_2_strong; [|apply Hs]. intros h1 h2 H1 H2 He.
  apply (AuthSession.in_step_unique _ _ _ _ (sync_step _ _ Hs)); auto.
Qed.

(** C7. In every history of the service, the worker and the broker agree: either
    both are idle, or there is exactly one operation in progress, it was handed
    out, the worker has its lease and deadline, and the broker has its token and
    has it marked cancelled exactly when the event its worker polls is set.
    No lease, no token and no event is ever issued twice: the operations handed
    out in the whole history have pairwise different leases, pairwise different
    tokens and pairwise different events. *)
Theorem service_keeps_one_worker w :
  reached w ->
  match active (workers (svc w)) with
  | None => AuthProtocol.active (AuthSession.state (coordinator (svc w))) = None
  | Some a =>
      exists i, i ∈ out w /\ i_lease i = lease a /\ i_deadline i = deadline a /\
      AuthProtocol.active (AuthSession.state (coordinator (svc w))) =
        Some (AuthProtocol.mkActive (AuthSession.h_token (i_handle i))
                (AuthSession.load (mem w) (AuthSession.h_event (i_handle i))))
  end /\
  NoDup (i_lease <$> out w) /\
  NoDup ((fun i => AuthSession.h_token (i_handle i)) <$> out w) /\
  NoDup ((fun i => AuthSession.h_event (i_handle i)) <$> out w).
Proof.
  intros [cur Hs]%reached_in_sync. split_and!.
  - pose proof (sync_worker _ _ Hs) as Hw.
    pose proof (AuthSession.in_step_active _ _ _ _ (sync_step _ _ Hs)) as Hact.
    destruct (active _) as [a|], cur as [i|]; cbn in Hw, Hact; simplify_eq; [|done].
    exists i. split_and!; [by apply (sync_cur _ _ Hs)|done|done|done].
  - apply Hs.
  - apply (sync_distinct _ _ AuthSession.h_token Hs). auto.
  - apply (sync_distinct _ _ AuthSession.h_event Hs). auto.
Qed.

(** C4. Whatever happened before, a completion is answered [Okay] exactly when
    the service is not poisoned, the handle is the operation in progress, the
    completion was built from it, the reader reported a match, and no
    cancellation of it was accepted. *)
Theorem finish_okay_iff w h k now :
  reached w -> IAuth h ∈ out w ->
  fst (fst (finish (svc w) (mem w) h k now)) = Response.Okay <->
  poisoned (workers (svc w)) = false /\ worker_owns (workers (svc w)) (sa_lease h) = true /\
  AuthSession.belongs_to k (authentication h) = true /\
  AuthSession.comp_result k = inl AuthSession.MatchOutcome.Matched /\
  AuthSession.auth_is_cancelled (mem w) (authentication h) = false.
Proof.
  intros [cur Hs]%reached_in_sync Hi. pose proof (sync_owns _ _ _ Hs Hi) as Ho. cbn [i_lease] in Ho.
  destruct (finish _ _ _ _ _) as [[r s'] m'] eqn:Hf. cbn.
  destruct (finish_spec _ _ _ _ _ _ _ _ Hs Hi Hf) as [(-> & _ & _ & Hno)|(Hp & Hc & Hb & -> & _)].
  - split; [done|]. intros (Hp & Hw & Hb & _). apply Ho in Hw. destruct Hno as [?|[?|?]]; congruence.
  - split.
    + intros [Hl Hr]%AuthSession.verdict_okay. split_and!; try done; [by apply Ho|].
      by destruct (AuthSession.comp_result k) as [[]|].
    + intros (_ & _ & _ & Hr & Hl). unfold AuthSession.verdict. by rewrite Hl, Hr.
Qed.

(** An acknowledged cancellation found its operation registered and set its
    event. *)
Lemma acknowledged_step w cur e n i o w1 :
  in_sync w cur -> out w !! n = Some i -> service_step w e = (o, w1) -> acknowledges w e n o ->
  AuthSession.registered (mem w) (AuthSession.cancellation (coordinator (svc w))) (i_handle i) /\
  AuthSession.load (mem w1) (AuthSession.h_event (i_handle i)) = true.
Proof.
  intros Hs Hn H [[He ->]|(He & -> & j & Hj & Hw)].
  - by destruct (cancel_step _ _ _ _ _ _ _ Hs He Hn H) as (_ & _ & Hl & _); apply Hl.
  - simplify_eq. destruct (root_cancel_step _ _ _ _ Hs He H) as (k & -> & Hr & Hl).
    apply (sync_owns _ _ _ Hs) in Hw; [|by eapply list_elem_of_lookup_2]. by simplify_eq.
Qed.

(** C5. Once the cancellation of an operation is acknowledged, by a disconnect,
    an expired deadline or a cancellation of its handle that returned true, or by
    an OKAY to root's CANCEL, with or without an owner record, while it is the
    operation whose worker runs, its event stays set and no later completion of
    it, whatever happens in between, is answered with anything but a failure (a
    plain operation) or [Cancelled] or [Error] (a standard one). *)
Theorem cancellation_sticks w e n i o w1 es :
  reached w -> out w !! n = Some i -> service_step w e = (o, w1) -> acknowledges w e n o ->
  let w2 := snd (service_run w1 es) in
  AuthSession.load (mem w2) (AuthSession.h_event (i_handle i)) = true /\
  match i with
  | IAuth h => forall k now, fst (fst (finish (svc w2) (mem w2) h k now)) = Response.Failure
  | IStd h => forall k now,
      fst (fst (finish_standard (svc w2) (mem w2) h k now)) ∈
        [Server.Terminal Outcome.Cancelled; Server.Terminal Outcome.Error]
  end.
Proof.
  intros [cur Hs]%reached_in_sync Hn H He w2.
  destruct (acknowledged_step _ _ _ _ _ _ _ Hs Hn H He) as [_ Hset].
  destruct (step_run_goes _ _ _ _ _ es Hs H) as (cur1 & cur2 & Hg1 & Hg2).
  assert (i ∈ out w1) as Hi1.
  { destruct Hg1 as (_ & [l ->] & _). apply elem_of_app. left. apply list_elem_of_lookup. eauto. }
  destruct Hg2 as (Hs2 & [l Hout] & _ & _ & Hadv). fold w2 in Hs2, Hout, Hadv.
  assert (i ∈ out w2) as Hi2 by (rewrite Hout; apply elem_of_app; by left).
  assert (AuthSession.load (mem w2) (AuthSession.h_event (i_handle i)) = true) as Hset2.
  { apply (AuthSession.advance_set _ _ _ _ _ _ _ Hadv); [apply list_elem_of_fmap; eauto|done]. }
  split; [done|]. destruct i as [h|h]; intros k now.
  - destruct (finish _ _ _ _ _) as [[r s'] m'] eqn:Hf. cbn.
    destruct (finish_spec _ _ _ _ _ _ _ _ Hs2 Hi2 Hf) as [(-> & _)|(_ & _ & _ & -> & _)]; [done|].
    unfold AuthSession.auth_is_cancelled. cbn in Hset2. by rewrite Hset2.
  - destruct (finish_standard _ _ _ _ _) as [[r s'] m'] eqn:Hf. cbn [fst].
    destruct (service_finish_standard_spec _ _ _ _ _ _ _ _ Hs2 Hi2 Hf) as [(-> & _)|(_ & _ & _ & -> & _)]; [set_solver|].
    unfold AuthSession.std_is_cancelled. cbn in Hset2. rewrite Hset2. set_solver.
Qed.

(** C6. Once a worker closed its registration successfully, its operation is
    committed: whatever happens later its event stays unset, and no cancellation
    of it is acknowledged, neither one through its handle (disconnect, deadline,
    cancellation) nor, while it is the operation whose worker runs, root's CANCEL. *)
Theorem close_commits w n i w1 es :
  reached w -> out w !! n = Some i -> service_step w (EClose n) = (OAck true, w1) ->
  let w2 := snd (service_run w1 es) in
  AuthSession.load (mem w2) (AuthSession.h_event (i_handle i)) = false /\
  forall e, ~ acknowledges w2 e n (fst (service_step w2 e)).
Proof.
  intros [cur Hs]%reached_in_sync Hn H w2.
  destruct (close_step _ _ _ _ _ _ Hs Hn H) as (Hg1 & _ & Hl & _).
  destruct (Hl eq_refl) as [Hreg Hset]. destruct (run_goes es _ _ (proj1 Hg1)) as [cur2 Hg2].
  destruct Hg1 as (_ & [l1 Ho1] & _ & Hc1 & _).
  destruct Hg2 as (Hs2 & [l Hout] & _ & Hc2 & Hadv). fold w2 in Hs2, Hout, Hc2, Hadv.
  assert (i ∈ out w1) as Hi1 by (rewrite Ho1; apply elem_of_app; left; apply list_elem_of_lookup; eauto).
  assert (out w2 !! n = Some i) as Hn2
    by (rewrite Hout, Ho1; do 2 apply lookup_app_l_Some; done).
  assert (i_handle i ∈ i_handle <$> out w1) as Hh by (apply list_elem_of_fmap; eauto).
  rewrite <- Hc1 in Hreg. split.
  - apply not_true_is_false. intros Ht.
    destruct (AuthSession.advance_cause _ _ _ _ _ _ _ Hadv _ Hh Ht); [congruence|done].
  - intros e He. destruct (service_step w2 e) as [o w3] eqn:Hst.
    destruct (acknowledged_step _ _ _ _ _ _ _ Hs2 Hn2 Hst He) as [Hr2 _]. rewrite Hc2 in Hr2.
    by apply (AuthSession.advance_registered _ _ _ _ _ _ _ Hadv _ Hh) in Hr2.
Qed.

(** The feedback variant has the answer and the effects of [finish]. *)
Lemma finish_with_feedback_eq {F} `{AuthSession.AuthenticationFeedback F} s m h k (fb : option F) now :
  let '(r, _, s', m') := finish_with_feedback s m h k fb now in finish s m h k now = (r, s', m').
Proof.
  unfold finish_with_feedback, finish, AuthSession.finish_with_feedback, AuthSession.finish_for,
    AuthSession.finish.
  destruct (poisoned _ || _); cbn; [done|].
  destruct (AuthSession.belongs_to k (authentication h)) eqn:Hb; cbn; [|done].
  apply AuthSession.belongs_to_iff in Hb as (_ & _ & Hslot). rewrite <- Hslot, orb_false_r.
  unfold AuthSession.finalize. destruct (negb _).
  - unfold release. by destruct (complete _ _ _) as [[] ?].
  - destruct (AuthProtocol.finish _ _ _) as [[r|] st]; unfold release; by destruct (complete _ _ _) as [[] ?].
Qed.

(** C40. Completing with feedback gives the answer and the state that completing
    without it gives, whatever the feedback does, and the feedback is shown
    exactly for a completion of the operation in progress that was not
    cancelled. *)
Theorem feedback_is_cosmetic {F} `{AuthSession.AuthenticationFeedback F} w h k (fb : option F) now :
  reached w -> IAuth h ∈ out w ->
  let '(r, fb', s', m') := finish_with_feedback (svc w) (mem w) h k fb now in
  finish (svc w) (mem w) h k now = (r, s', m') /\
  fb' = if negb (poisoned (workers (svc w))) && worker_owns (workers (svc w)) (sa_lease h) &&
           AuthSession.belongs_to k (authentication h) &&
           negb (AuthSession.auth_is_cancelled (mem w) (authentication h))
        then AuthSession.apply_authentication_feedback (AuthSession.comp_result k) fb else fb.
Proof.
  intros [cur Hs]%reached_in_sync Hi.
  pose proof (finish_with_feedback_eq (svc w) (mem w) h k fb now) as Heq.
  destruct (finish_with_feedback _ _ _ _ _ _) as [[[r fb'] s'] m'] eqn:Hf. split; [done|].
  unfold finish_with_feedback in Hf. destruct (poisoned _); cbn in Hf |- *; [by simplify_eq|].
  destruct (owns_cases _ _ _ (owns (svc w) h) Hs Hi eq_refl) as [(Ho & -> & Hslot)|(Ho & Hne)];
    rewrite Ho in Hf; cbn in Hf.
  - pose proof (proj2 (sync_owns w _ (IAuth h) Hs Hi) eq_refl) as Hw. cbn [i_lease] in Hw. rewrite Hw.
    destruct (AuthSession.belongs_to _ _) eqn:Hb; cbn in Hf |- *; [|by simplify_eq].
    unfold AuthSession.finish_with_feedback in Hf.
    destruct (AuthSession.finalize _ _ _) as [[[r2 f] c2] m2] eqn:Hfin.
    destruct (AuthSession.finalize_ends _ _ _ _ _ _ _ _ _ (sync_step _ _ Hs) Hslot Hb Hfin) as (_ & -> & _).
    destruct (release _ _ _ _ _ _ _) as [[r3 s3] m3]. by simplify_eq.
  - assert (worker_owns (workers (svc w)) (sa_lease h) = false) as ->.
    { apply not_true_is_false. intros Ht. by apply (sync_owns w _ (IAuth h) Hs Hi) in Ht. }
    by simplify_eq.
Qed.

(** ** A poisoned service *)

(** An answer that grants nothing. *)
Definition refusing (o : outcome) : Prop :=
  match o with
  | OStarted _ => False
  | OReply r => r = Response.Failure
  | OServer r => r = Server.Terminal Outcome.Cancelled \/ r = Server.Terminal Outcome.Error
  | OLifecycle d => d = LifecycleDecision.Terminate
  | OTerminate | OAck _ | OSkip => True
  | OPanic => False
  end.

Lemma poisoned_step w cur e :
  in_sync w cur -> poisoned (workers (svc w)) = true ->
  refusing (fst (service_step w e)) /\ poisoned (workers (svc (snd (service_step w e)))) = true.
Proof.
  intros Hs Hp. assert (forall n i, out w !! n = Some i -> i ∈ out w) as Hin
    by (intros n i Hn; apply list_elem_of_lookup; eauto).
  assert (forall e n, cancels_at e n -> refusing (fst (service_step w e)) /\
            poisoned (workers (svc (snd (service_step w e)))) = true) as Hcancel.
  { intros e' n He. destruct (out w !! n) as [i|] eqn:Hn.
    - destruct (service_step w e') as [o w'] eqn:Hst.
      destruct (cancel_step _ _ _ _ _ _ _ Hs He Hn Hst) as (_ & Hk & _ & Ho). cbn. rewrite Hk.
      split; [|done]. by destruct Ho as [->|[->| ->]].
    - destruct He as [->|[->| ->]]; unfold service_step; by rewrite Hn. }
  destruct e as [peer policy packet now|peer owner op now|peer now|peer|n k r now|n k r now|n now
                |n|n|n|now ready|n|n|].
  8: apply (Hcancel _ n); by left.
  8: apply (Hcancel _ n); by right; left.
  8: apply (Hcancel _ n); by right; right.
  all: unfold service_step, dispatch, dispatch_standard, enroll_without_owner, cancel_without_owner,
         finish, finish_standard.
  1-6: rewrite Hp; cbn; try done.
  - destruct (out w !! n) as [[|]|], (out w !! k) as [[|]|]; cbn; done.
  - destruct (out w !! n) as [[|]|], (out w !! k) as [[|]|]; cbn; auto.
  - destruct (out w !! n) as [[h|h]|] eqn:Hn; [| |done].
    + destruct (abandon _ _ _ _) as [[r2 s2] m2] eqn:Hf.
      destruct (abandon_goes _ _ _ _ _ _ _ Hs (Hin _ _ Hn) Hf) as (-> & Hk & _). cbn. by rewrite Hk.
    + destruct (abandon_standard _ _ _ _) as [[r2 s2] m2] eqn:Hf.
      destruct (abandon_standard_goes _ _ _ _ _ _ _ Hs (Hin _ _ Hn) Hf) as (Hr & Hk & _). cbn. by rewrite Hk.
  - unfold service_decide, scheduler_decide. by rewrite Hp.
  - destruct (out w !! n) as [[h|h]|]; [| |done].
    all: unfold worker_lost, standard_worker_lost; destruct (negb _); [done|].
    all: destruct (scheduler_worker_lost _ _) as [b k] eqn:Hl; cbn.
    all: split; [done|]; by apply worker_lost_spec in Hl as (_ & _ & Hl); apply Hl.
  - destruct (out w !! n) as [[h|h]|]; [| |done].
    + by destruct (AuthSession.auth_close_cancellation _ _).
    + by destruct (AuthSession.std_close_cancellation _ _).
  - done.
Qed.

(** C39. A poisoned service stays poisoned and grants nothing more: no operation
    starts, every completion fails, and every lifecycle decision is to
    terminate. *)
Theorem poisoned_is_final w es :
  reached w -> poisoned (workers (svc w)) = true ->
  Forall refusing (fst (service_run w es)) /\
  poisoned (workers (svc (snd (service_run w es)))) = true.
Proof.
  intros [cur Hs]%reached_in_sync. revert w cur Hs. induction es as [|e es IH]; intros w cur Hs Hp; [done|].
  destruct (poisoned_step _ _ e Hs Hp) as [Ho Hp1]. destruct (step_goes _ _ e Hs) as [cur1 [Hs1 _]]. cbn.
  destruct (service_step w e) as [o w1]. cbn in *. destruct (IH w1 cur1 Hs1 Hp1) as [H1 H2].
  destruct (service_run w1 es) as [os w2]. cbn in *. auto.
Qed.

(** ** Deadlines *)

(** [seen] are the leases whose cancellation was asked for: none will be issued
    again, and the active worker knows if its lease is one of them. *)
Definition seen_ok (k : BrokerScheduler) (seen : list WorkerLease) : Prop :=
  (forall l, l ∈ seen -> next_lease k = 0 \/ l < next_lease k) /\
  (forall a, active k = Some a ->
     (next_lease k = 0 \/ lease a < next_lease k) /\
     (lease a ∈ seen -> cancellation_sent a = true)).

Lemma seen_poison k seen : seen_ok k seen -> seen_ok (poison k) seen.
Proof. done. Qed.

Lemma seen_complete k l now b k' seen : complete k l now = (b, k') -> seen_ok k seen -> seen_ok k' seen.
Proof.
  intros H Hk. unfold complete in H. destruct (active k); [|by simplify_eq].
  destruct (negb _); simplify_eq; [done|]. split; [apply Hk|done].
Qed.

Lemma seen_admit k now t r k' seen : admit_with_timeout k now t = (r, k') -> seen_ok k seen -> seen_ok k' seen.
Proof.
  intros H [H1 H2]. pose proof (admit_spec _ _ _ _ _ H) as Hs. destruct r as [l d| |].
  - destruct Hs as (_ & _ & -> & H0 & Ha & _ & Hn). split.
    + intros l Hl. destruct (H1 l Hl); lia.
    + intros a Heq. rewrite Ha in Heq. simplify_eq. cbn. split; [done|]. intros Hl. destruct (H1 _ Hl); lia.
  - destruct Hs as [Ha Hn]. split; rewrite ?Ha, Hn; done.
  - destruct Hs as [Ha Hn]. split; rewrite ?Ha, Hn; done.
Qed.

Lemma seen_release {R} s c m l now (r f : R) seen :
  seen_ok (workers s) seen -> seen_ok (workers (snd (fst (release s c m l now r f)))) seen.
Proof.
  intros H. unfold release. destruct (complete _ _ _) as [[] k] eqn:Hc; cbn; exact (seen_complete _ _ _ _ _ _ Hc H).
Qed.

Lemma seen_lost k l b k' seen : scheduler_worker_lost k l = (b, k') -> seen_ok k seen -> seen_ok k' seen.
Proof.
  intros H [H1 H2]. destruct (worker_lost_spec _ _ _ _ H) as (Ha & Hn & _).
  split; rewrite ?Ha, Hn; done.
Qed.

Lemma seen_schedule s m d now seen :
  seen_ok (workers s) seen -> seen_ok (workers (snd (fst (schedule s m d now)))) seen.
Proof.
  intros H. unfold schedule. destruct d as [r|a]; [done|].
  destruct (admit_with_timeout _ _ _) as [adm k] eqn:Hk. pose proof (seen_admit _ _ _ _ _ _ Hk H) as Hk'.
  destruct adm; [done|..]; by destruct (AuthSession.abandon _ _ _) as [[? ?] ?].
Qed.

Lemma seen_schedule_standard s m d now seen :
  seen_ok (workers s) seen -> seen_ok (workers (snd (fst (schedule_standard s m d now)))) seen.
Proof.
  intros H. unfold schedule_standard. destruct d as [r|a]; [done|].
  destruct (admit_with_timeout _ _ _) as [adm k] eqn:Hk. pose proof (seen_admit _ _ _ _ _ _ Hk H) as Hk'.
  destruct adm; [done|..]; by destruct (AuthSession.abandon_standard _ _ _) as [[? ?] ?].
Qed.

Lemma seen_decide k now ready d k' seen :
  scheduler_decide k now ready = (d, k') -> seen_ok k seen ->
  match d with
  | LifecycleDecision.Cancel l =>
      ~ l ∈ seen /\ (exists a, active k = Some a /\ lease a = l /\ deadline a <= now) /\
      seen_ok k' (l :: seen)
  | _ => seen_ok k' seen
  end.
Proof.
  intros H [H1 H2]. unfold scheduler_decide in H. destruct (poisoned k); [by simplify_eq|].
  destruct (active k) as [a|] eqn:Ha.
  - destruct (H2 a eq_refl) as [Hlt Hsent]. destruct (_ && _) eqn:Hg; simplify_eq; b2p.
    + split_and!; [intros Hl; apply Hsent in Hl; congruence|by exists a|].
      split; cbn; [set_solver|]. intros ? [= <-]. by split.
    + split; [done|]. rewrite Ha. done.
  - destruct (_ && _); simplify_eq; (split; [done|by rewrite Ha]).
Qed.

Definition cancel_asked (o : outcome) : option WorkerLease :=
  match o with OLifecycle (LifecycleDecision.Cancel l) => Some l | _ => None end.

Lemma seen_step w e seen :
  seen_ok (workers (svc w)) seen ->
  match cancel_asked (fst (service_step w e)) with
  | Some l => ~ l ∈ seen /\ seen_ok (workers (svc (snd (service_step w e)))) (l :: seen)
  | None => seen_ok (workers (svc (snd (service_step w e)))) seen
  end.
Proof.
  intros H.
  assert (forall r, seen_ok (workers (snd (fst r))) seen ->
    cancel_asked (fst (dispatched w r)) = None /\
    seen_ok (workers (svc (snd (dispatched w r)))) seen) as Hd
    by (intros [[d s] m] Hk; by destruct d).
  destruct e as [peer policy packet now|peer owner op now|peer now|peer|n k r now|n k r now|n now
                |n|n|n|now ready|n|n|]; unfold service_step.
  - edestruct Hd as [-> ?]; [|done]. unfold dispatch. destruct (poisoned _); [done|].
    destruct (AuthSession.dispatch _ _ _ _ _) as [[d c] m]. by apply seen_schedule.
  - assert (seen_ok (workers (snd (fst (dispatch_standard (svc w) (mem w) peer owner op now)))) seen) as Hk.
    { unfold dispatch_standard. destruct (poisoned _); [done|].
      destruct (AuthSession.dispatch_standard _ _ _ _ _) as [[d c] m]. by apply seen_schedule_standard. }
    destruct (dispatch_standard _ _ _ _ _ _) as [[d s] m]. by destruct d.
  - edestruct Hd as [-> ?]; [|done]. unfold enroll_without_owner. destruct (poisoned _); [done|].
    destruct (AuthSession.enroll_without_owner _ _ _) as [[d c] m]. by apply seen_schedule.
  - unfold cancel_without_owner. destruct (poisoned _); [done|].
    destruct (AuthSession.cancel_without_owner _ _ _) as [[[]c] m]; done.
  - destruct (out w !! n) as [[h|h]|], (out w !! k) as [[h'|h']|]; try done.
    unfold finish. destruct (_ || _); [done|]. destruct (AuthSession.finish_for _ _ _ _) as [[r2 c] m].
    pose proof (seen_release (svc w) c m (sa_lease h) now r2 Response.Failure seen H) as Hr.
    by destruct (release _ _ _ _ _ _ _) as [[? ?] ?].
  - destruct (out w !! n) as [[h|h]|], (out w !! k) as [[h'|h']|]; try done.
    unfold finish_standard. destruct (_ || _); [done|].
    destruct (AuthSession.finish_standard _ _ _ _) as [[r2 c] m].
    pose proof (seen_release (svc w) c m (ss_lease h) now r2 (Server.Terminal Outcome.Error) seen H) as Hr.
    by destruct (release _ _ _ _ _ _ _) as [[? ?] ?].
  - destruct (out w !! n) as [[h|h]|]; [| |done].
    + unfold abandon. destruct (negb _); [done|]. destruct (AuthSession.abandon _ _ _) as [[r2 c] m].
      pose proof (seen_release (svc w) c m (sa_lease h) now r2 Response.Failure seen H) as Hr.
      by destruct (release _ _ _ _ _ _ _) as [[? ?] ?].
    + unfold abandon_standard. destruct (negb _); [done|].
      destruct (AuthSession.abandon_standard _ _ _) as [[r2 c] m].
      pose proof (seen_release (svc w) c m (ss_lease h) now r2 (Server.Terminal Outcome.Error) seen H) as Hr.
      by destruct (release _ _ _ _ _ _ _) as [[? ?] ?].
  - destruct (out w !! n) as [[h|h]|]; [| |done];
      unfold client_disconnected, standard_client_disconnected; (destruct (negb _); [done|]);
      [by destruct (AuthSession.client_disconnected _ _ _) as [[? ?] ?]
      |by destruct (AuthSession.standard_client_disconnected _ _ _) as [[? ?] ?]].
  - destruct (out w !! n) as [[h|h]|]; [| |done];
      unfold deadline_expired, standard_deadline_expired, standard_client_disconnected;
      (destruct (negb _); [done|]);
      [by destruct (AuthSession.client_disconnected _ _ _) as [[? ?] ?]
      |by destruct (AuthSession.standard_client_disconnected _ _ _) as [[? ?] ?]].
  - destruct (out w !! n) as [[h|h]|]; try done. unfold cancel_standard. destruct (negb _); [done|].
    by destruct (AuthSession.cancel_standard _ _ _) as [[? ?] ?].
  - unfold service_decide. destruct (scheduler_decide _ _ _) as [d k] eqn:Hk.
    pose proof (seen_decide _ _ _ _ _ _ Hk H) as Hdec. destruct d; try done. by destruct Hdec as (? & _ & ?).
  - destruct (out w !! n) as [[h|h]|]; [| |done];
      unfold worker_lost, standard_worker_lost; (destruct (negb _); [done|]);
      destruct (scheduler_worker_lost _ _) as [b k] eqn:Hl; by eapply seen_lost.
  - destruct (out w !! n) as [[h|h]|]; [| |done];
      [by destruct (AuthSession.auth_close_cancellation _ _)|by destruct (AuthSession.std_close_cancellation _ _)].
  - done.
Qed.

Lemma seen_run es : forall w seen,
  seen_ok (workers (svc w)) seen -> NoDup seen ->
  NoDup (omap cancel_asked (fst (service_run w es)) ++ seen).
Proof.
  induction es as [|e es IH]; intros w seen Hk Hnd; [done|]. cbn.
  pose proof (seen_step w e seen Hk) as Hs. destruct (service_step w e) as [o w1]. cbn in Hs.
  destruct (cancel_asked o) as [l|] eqn:Hl.
  - destruct Hs as [Hnew Hk1]. assert (NoDup (l :: seen)) as Hnd1 by (by constructor).
    specialize (IH w1 _ Hk1 Hnd1). destruct (service_run w1 es) as [os w2]. cbn in *. rewrite Hl. cbn.
    by rewrite <- Permutation_middle in IH.
  - specialize (IH w1 _ Hs Hnd). destruct (service_run w1 es) as [os w2]. cbn in *. by rewrite Hl.
Qed.

(** The scheduler asks for the cancellation of a lease at most once, and only
    for an operation it handed out whose deadline has passed. *)
Theorem deadline_cancels_once m now idle s m0 es :
  service_new m now idle = (Ok s, m0) ->
  let (os, w) := service_run (mkWorld s m0 []) es in
  NoDup (omap cancel_asked os) /\
  forall now' ready l, cancel_asked (fst (service_step w (EDecide now' ready))) = Some l ->
    ~ l ∈ omap cancel_asked os /\
    exists i, i ∈ out w /\ i_lease i = l /\ i_deadline i <= now'.
Proof.
  intros Hn. destruct (run_goes es _ _ (new_in_sync _ _ _ _ _ Hn)) as [cur [Hs _]].
  assert (seen_ok (workers s) []) as Hk.
  { unfold service_new in Hn. destruct (AuthSession.coordinator_default m) as [c m1]. unfold scheduler_new in Hn.
    destruct (_ =? _); simplify_eq. cbn in Hn. simplify_eq. split; cbn; [set_solver|done]. }
  assert (forall es', NoDup (omap cancel_asked (fst (service_run (mkWorld s m0 []) es')))) as Hnd.
  { intros es'. pose proof (seen_run es' (mkWorld s m0 []) [] Hk) as H. rewrite app_nil_r in H.
    apply H. apply NoDup_nil_2. }
  pose proof (Hnd es) as H1. destruct (service_run _ es) as [os w] eqn:Hrun. split; [done|].
  intros now' ready l Hl. split.
  - specialize (Hnd (es ++ [EDecide now' ready])). rewrite service_run_app, Hrun in Hnd.
    destruct (service_step w (EDecide now' ready)) as [o w'] eqn:Hst. cbn [service_run] in Hnd.
    rewrite Hst in Hnd. cbn [fst] in Hnd, Hl. rewrite omap_app in Hnd.
    apply NoDup_app in Hnd as (_ & Hd & _). intros Hin. apply (Hd l Hin). cbn. rewrite Hl. set_solver.
  - cbn in Hl. unfold service_decide in Hl. cbn in Hs.
    destruct (scheduler_decide (workers (svc w)) now' ready) as [d k] eqn:Hd. cbn in Hl.
    destruct d as [|l'| |]; simplify_eq. unfold scheduler_decide in Hd. destruct (poisoned _); [done|].
    pose proof (sync_worker _ _ Hs) as Hw. destruct (active _) as [a|]; [|by destruct (_ && _)].
    destruct cur as [i|]; cbn in Hw; [|done]. destruct (_ && _) eqn:Hg; simplify_eq; b2p.
    exists i. split_and!; [by apply (sync_cur _ _ Hs)|done|lia].
Qed.

(** ** Examples *)

Definition ex_memory : Memory := mkMemory ∅ ∅ 0%nat.
Definition ex_service : BrokerServiceScheduler :=
  mkService (AuthSession.mkCoordinator AuthProtocol.broker_default 0%nat)
    (mkScheduler (from_secs 60) 0 None 1 false) 1%nat.
Definition ex_start : world :=
  mkWorld ex_service (mkMemory ∅ {[0%nat := AuthSession.mkSlot false None]} 2%nat) [].

(** The enrolled owner asks for an approval, and root for a listing. *)
Definition ex_approve : event :=
  EDispatch AuthProtocol.ex_owner AuthProtocol.ex_policy AuthProtocol.APPROVE_REQUEST 0.
Definition ex_list : event :=
  EDispatchStandard (AuthProtocol.mkPeer AuthProtocol.Local 0 0) (Some AuthProtocol.ex_policy)
    StandardAuthority.Operation.ListIdentities 0.

Definition ex_world (es : list event) : world := snd (service_run ex_start es).

(** The approval that [ex_approve] hands out. *)
Definition ex_handle : ScheduledAuthentication :=
  mkSchedAuth (AuthSession.mkActiveAuth AuthProtocol.ex_operation 2%nat 0%nat) 1 (from_secs 65) 1%nat.

Lemma ex_new : service_new ex_memory 0 (from_secs 60) = (Ok ex_service, mem ex_start).
Proof. reflexivity. Qed.

Lemma ex_reached es : reached (ex_world es).
Proof. exists ex_memory, 0, (from_secs 60), ex_service, (mem ex_start), es. by rewrite ex_new. Qed.

Lemma ex_out : out (ex_world [ex_approve]) = [IAuth ex_handle].
Proof. vm_compute. reflexivity. Qed.

Definition ex_matched : AuthSession.AuthenticationCompletion :=
  AuthSession.completion_new (authentication ex_handle) (inl AuthSession.MatchOutcome.Matched).

Lemma service_keeps_one_worker_witness :
  active (workers (svc (ex_world [ex_approve]))) = Some (mkWorker 1 (from_secs 65) false) /\
  exists i, i ∈ out (ex_world [ex_approve]) /\ i_lease i = 1 /\
  AuthProtocol.active (AuthSession.state (coordinator (svc (ex_world [ex_approve])))) =
    Some (AuthProtocol.mkActive (AuthSession.h_token (i_handle i))
            (AuthSession.load (mem (ex_world [ex_approve])) (AuthSession.h_event (i_handle i)))).
Proof.
  assert (active (workers (svc (ex_world [ex_approve]))) = Some (mkWorker 1 (from_secs 65) false)) as Ha
    by (vm_compute; reflexivity).
  split; [exact Ha|]. destruct (service_keeps_one_worker _ (ex_reached [ex_approve])) as [H _].
  rewrite Ha in H. destruct H as (i & Hi & Hl & _ & Hb). exists i. split_and!; assumption.
Defined.

Lemma finish_okay_iff_witness :
  fst (fst (finish (svc (ex_world [ex_approve])) (mem (ex_world [ex_approve])) ex_handle ex_matched
    (from_secs 2))) = Response.Okay.
Proof.
  apply (finish_okay_iff (ex_world [ex_approve]) ex_handle ex_matched (from_secs 2) (ex_reached _)).
  - rewrite ex_out. apply list_elem_of_singleton. reflexivity.
  - split_and!; vm_compute; reflexivity.
Defined.

(** Root asks to cancel whatever is in progress. *)
Definition ex_cancel : event :=
  EDispatch (AuthProtocol.mkPeer AuthProtocol.Local 0 0) AuthProtocol.ex_policy
    AuthProtocol.CANCEL_REQUEST 0.

Lemma cancellation_sticks_witness :
  fst (service_step (ex_world [ex_approve]) ex_cancel) = OReply Response.Okay /\
  fst (fst (finish
    (svc (snd (service_run (snd (service_step (ex_world [ex_approve]) ex_cancel)) [EClose 0])))
    (mem (snd (service_run (snd (service_step (ex_world [ex_approve]) ex_cancel)) [EClose 0])))
    ex_handle ex_matched (from_secs 2))) = Response.Failure.
Proof.
  assert (fst (service_step (ex_world [ex_approve]) ex_cancel) = OReply Response.Okay) as Ho
    by (vm_compute; reflexivity).
  split; [exact Ho|].
  destruct (service_step (ex_world [ex_approve]) ex_cancel) as [o w1] eqn:Hst. cbn [fst] in Ho. subst o.
  destruct (cancellation_sticks _ ex_cancel 0 (IAuth ex_handle) (OReply Response.Okay) w1 [EClose 0]
    (ex_reached [ex_approve])) as [_ H]; [by rewrite ex_out|exact Hst| |apply H].
  right. split; [reflexivity|]. split; [reflexivity|]. exists (IAuth ex_handle).
  split; [by rewrite ex_out|vm_compute; reflexivity].
Defined.

Lemma close_commits_witness :
  fst (service_step (snd (service_run (snd (service_step (ex_world [ex_approve]) (EClose 0))) []))
         (EDeadline 0)) <> OAck true.
Proof.
  destruct (service_step (ex_world [ex_approve]) (EClose 0)) as [o w1] eqn:Hst.
  assert (o = OAck true) as ->.
  { change o with (fst (o, w1)). rewrite <- Hst. vm_compute. reflexivity. }
  destruct (close_commits _ 0 (IAuth ex_handle) w1 [] (ex_reached [ex_approve])) as [_ H];
    [by rewrite ex_out|exact Hst|]. intros Hack. apply (H (EDeadline 0)). left. split; [by right; left|exact Hack].
Defined.

(** Feedback that always fails, and counts its calls. *)
#[local] Instance ex_feedback : AuthSession.AuthenticationFeedback nat := fun _ n => (false, S n).

Lemma feedback_is_cosmetic_witness :
  snd (fst (fst (finish_with_feedback (svc (ex_world [ex_approve])) (mem (ex_world [ex_approve]))
    ex_handle ex_matched (Some 0%nat) (from_secs 2)))) = Some 1%nat.
Proof.
  pose proof (feedback_is_cosmetic (ex_world [ex_approve]) ex_handle ex_matched (Some 0%nat)
    (from_secs 2) (ex_reached _)) as H.
  destruct (finish_with_feedback _ _ _ _ _ _) as [[[r fb] s] m]. cbn.
  destruct H as [_ ->]; [rewrite ex_out; apply list_elem_of_singleton; reflexivity|].
  vm_compute. reflexivity.
Defined.

(** The worker is lost; its completion and the next request get nothing. *)
Lemma poisoned_is_final_witness :
  Forall refusing (fst (service_run (ex_world [ex_approve; EWorkerLost 0])
    [EFinish 0 0 (inl AuthSession.MatchOutcome.Matched) 1; ex_list])).
Proof.
  apply (poisoned_is_final (ex_world [ex_approve; EWorkerLost 0])); [apply ex_reached|].
  vm_compute. reflexivity.
Defined.

Lemma deadline_cancels_once_witness :
  let '(os, w) := service_run ex_start [ex_approve; EDecide (from_secs 65) true] in
  omap cancel_asked os = [1] /\ forall now ready,
  cancel_asked (fst (service_step w (EDecide now ready))) <> Some 1.
Proof.
  pose proof (deadline_cancels_once ex_memory 0 (from_secs 60) ex_service (mem ex_start)
    [ex_approve; EDecide (from_secs 65) true] ex_new) as H.
  change (mkWorld ex_service (mem ex_start) []) with ex_start in H.
  destruct (service_run _ _) as [os w] eqn:Hrun.
  assert (omap cancel_asked os = [1]) as Hos.
  { change os with (fst (os, w)). rewrite <- Hrun. vm_compute. reflexivity. }
  split; [exact Hos|]. intros now ready Hl. destruct H as [_ H].
  destruct (H now ready 1 Hl) as [Hnot _]. apply Hnot. rewrite Hos. apply list_elem_of_singleton. reflexivity.
Defined.

End Scheduler.
