(* ===== verification/IdentityCatalog.v ===== *)
(** * The identity catalogue

    [t1-daemons/src/identity_metadata.rs], the manifest stored with each
    generation of the encrypted templates; [standard_identity_catalog.rs], the
    catalogue that reconciles it with the identities the sensor reports; and
    [standard_query_policy.rs], which identities a standard client may see. *)

From S2P Require Import Prelude Text Mesa MatchWorkflow StandardProtocol.

Import StandardProtocol.

Module Metadata.

Definition MAGIC : bytes := [84; 49; 73; 77].
Definition VERSION : Z := 1.
Definition RESERVED : Z := 0.
Definition HEADER_SIZE : nat := 9.
Definition ENTRY_SIZE : Z := 17.
Definition MAX_MANIFEST_SIZE : Z :=
  Z.of_nat HEADER_SIZE + MAX_USERNAME_SIZE + MAX_IDENTITIES * ENTRY_SIZE.

(** [IdentityMetadataEntry]. *)
Record Entry : Type := mkEntry { id : IdentityId; finger : option FingerLabel.t }.

Record IdentityMetadata : Type := mkMetadata { owner : Username; identities : list Entry }.

Inductive MetadataError : Type :=
| TooManyIdentities | BadMagic | UnsupportedVersion | NonzeroReserved | InvalidUsername
| InvalidIdentity | DuplicateIdentity | InvalidFingerLabel | TrailingData | Truncated.

(** The closure of [validate_identities]: an element is already in the set. *)
Fixpoint any_repeated (unique : list IdentityId) (entries : list Entry) : bool :=
  match entries with
  | [] => false
  | e :: entries =>
      if bool_decide (id e ∈ unique) then true else any_repeated (id e :: unique) entries
  end.

Definition validate_identities (entries : list Entry) : res MetadataError () :=
  if MAX_IDENTITIES <? len entries then Err TooManyIdentities
  else if any_repeated [] entries then Err DuplicateIdentity
  else Ok ().

(** [IdentityMetadata::new]. *)
Definition metadata_new (o : Username) (entries : list Entry) : res MetadataError IdentityMetadata :=
  let! _ := validate_identities entries in
  Ok (mkMetadata o entries).

(** [identity.finger.map_or(0, |finger| finger as u8)]. *)
Definition finger_byte (f : option FingerLabel.t) : Z :=
  match f with Some f => FingerLabel.value f | None => 0 end.

Definition entry_bytes (e : Entry) : bytes := id_bytes (id e) ++ [finger_byte (finger e)].

Definition encode (m : IdentityMetadata) : res MetadataError bytes :=
  let! _ := validate_identities (identities m) in
  let username := as_str (owner m) in
  let! username_length := ok_or (try_from_u 8 (len username)) InvalidUsername in
  let! count := ok_or (try_from_u 8 (len (identities m))) TooManyIdentities in
  Ok (MAGIC ++ [VERSION] ++ [count] ++ be_bytes 2 RESERVED ++ [username_length] ++ username ++
      concat (entry_bytes <$> identities m)).

Definition decode_finger (value : Z) : res MetadataError (option FingerLabel.t) :=
  match value with
  | 0 => Ok None
  | 1 => Ok (Some FingerLabel.LeftThumb)
  | 2 => Ok (Some FingerLabel.LeftIndex)
  | 3 => Ok (Some FingerLabel.LeftMiddle)
  | 4 => Ok (Some FingerLabel.LeftRing)
  | 5 => Ok (Some FingerLabel.LeftLittle)
  | 6 => Ok (Some FingerLabel.RightThumb)
  | 7 => Ok (Some FingerLabel.RightIndex)
  | 8 => Ok (Some FingerLabel.RightMiddle)
  | 9 => Ok (Some FingerLabel.RightRing)
  | 10 => Ok (Some FingerLabel.RightLittle)
  | _ => Err InvalidFingerLabel
  end.

(** [take]. *)
Definition take_bytes (encoded : bytes) (cursor length : nat) : res MetadataError (bytes * nat) :=
  let! e := ok_or (checked_add 64 (Z.of_nat cursor) (Z.of_nat length)) Truncated in
  let e := Z.to_nat e in
  if (cursor <=? e)%nat && (e <=? List.length encoded)%nat
  then Ok (take (e - cursor) (drop cursor encoded), e) else Err Truncated.

Definition take_byte (encoded : bytes) (cursor : nat) : res MetadataError (Z * nat) :=
  let! value := ok_or (encoded !! cursor) Truncated in
  Ok (value, (cursor + 1)%nat).

(** The loop of [decode]. *)
Fixpoint decode_entries (encoded : bytes) (cursor count : nat)
    : res MetadataError (list Entry * nat) :=
  match count with
  | O => Ok ([], cursor)
  | S count =>
      let! (l, cursor) := take_bytes encoded cursor 16 in
      let! l := (if (length l =? 16)%nat then Ok l else Err Truncated) in
      let! i := map_err (fun _ => InvalidIdentity) (identity_new l) in
      let! (b, cursor) := take_byte encoded cursor in
      let! f := decode_finger b in
      let! (entries, cursor) := decode_entries encoded cursor count in
      Ok (mkEntry i f :: entries, cursor)
  end.

Definition decode (encoded : bytes) : res MetadataError IdentityMetadata :=
  if MAX_MANIFEST_SIZE <? len encoded then Err TooManyIdentities else
  let! header := (if (HEADER_SIZE <=? length encoded)%nat then Ok (take HEADER_SIZE encoded)
                  else Err Truncated) in
  let! magic := slice header 0 4 in
  if negb (bool_decide (magic = MAGIC)) then Err BadMagic else
  let! version := byte_at header 4 in
  if negb (version =? VERSION) then Err UnsupportedVersion else
  let! count := byte_at header 5 in
  if MAX_IDENTITIES <? count then Err TooManyIdentities else
  let! h6 := byte_at header 6 in
  let! h7 := byte_at header 7 in
  if negb (be_val [h6; h7] =? RESERVED) then Err NonzeroReserved else
  let! username_length := byte_at header 8 in
  let! (username_bytes, cursor) := take_bytes encoded HEADER_SIZE (Z.to_nat username_length) in
  let! value := ok_or (Text.from_utf8 username_bytes) InvalidUsername in
  let! username := map_err (fun _ => InvalidUsername) (username_new value) in
  let! (entries, cursor) := decode_entries encoded cursor (Z.to_nat count) in
  if negb (cursor =? length encoded)%nat then Err TrailingData
  else metadata_new username entries.

(** ** Well-formed manifests *)

Definition metadata_wf (m : IdentityMetadata) : Prop :=
  username_wf (owner m) /\ Forall (fun e => identity_wf (id e)) (identities m) /\
  len (identities m) <= MAX_IDENTITIES /\ NoDup (id <$> identities m).

Lemma any_repeated_false seen entries :
  NoDup seen -> any_repeated seen entries = false <-> NoDup (rev (id <$> entries) ++ seen).
Proof.
  revert seen. induction entries as [|e entries IH]; intros seen Hs; [by cbn|].
  rewrite fmap_cons. cbn [any_repeated rev]. rewrite <- app_assoc. cbn [app].
  case_bool_decide as Hin.
  - split; [done|]. intros Hn. apply NoDup_app in Hn as (_ & _ & Hn). by inversion Hn.
  - apply IH. by constructor.
Qed.

Lemma validate_identities_Ok entries u :
  validate_identities entries = Ok u <->
  len entries <= MAX_IDENTITIES /\ NoDup (id <$> entries).
Proof.
  assert (any_repeated [] entries = false <-> NoDup (id <$> entries)) as Hr.
  { rewrite any_repeated_false by constructor. rewrite app_nil_r.
    by rewrite <- (Permutation_rev (id <$> entries)). }
  unfold validate_identities. destruct (_ <? _) eqn:H; b2p.
  { split; [done|]. intros [? _]. lia. }
  destruct (any_repeated [] entries); destruct u; split; intros Ho; try done.
  - destruct Ho as [_ Hn]. by apply Hr in Hn.
  - split; [done|]. by apply Hr.
Qed.

Lemma decode_finger_Ok v f : decode_finger v = Ok f <-> v = finger_byte f.
Proof.
  split; [|intros ->; by destruct f as [[]|]].
  unfold decode_finger. intros H. repeat case_match; by simplify_eq.
Qed.

Lemma take_byte_holds p c b c' : take_byte p c = Ok (b, c') <-> holds p c [b] c'.
Proof.
  rewrite <- StandardProtocol.take_byte_iff. unfold take_byte, StandardProtocol.take_byte.
  destruct (p !! c); cbn; split; intros; by simplify_eq.
Qed.

Lemma take_bytes_holds p c n s c' :
  (length p <= 1012)%nat -> take_bytes p c n = Ok (s, c') <-> holds p c s c' /\ length s = n.
Proof.
  intros Hp. rewrite <- StandardProtocol.take_slice_iff by done.
  unfold take_bytes, StandardProtocol.take_slice.
  destruct (checked_add _ _ _); cbn; [case_match|]; split; intros; by simplify_eq.
Qed.

Lemma decode_entries_holds p c n entries c' :
  bytes_ok p -> (length p <= 1012)%nat -> (c <= length p)%nat ->
  decode_entries p c n = Ok (entries, c') <->
  Forall (fun e => identity_wf (id e)) entries /\ length entries = n /\
  holds p c (concat (entry_bytes <$> entries)) c'.
Proof.
  intros Hb Hp. revert c entries. induction n as [|n IH]; intros c entries Hc; cbn [decode_entries].
  { split.
    - intros. simplify_eq. split_and!; [constructor|done|by apply holds_nil].
    - intros (_ & Hn & Hh). destruct entries; [|done]. destruct Hh as (_ & -> & _).
      cbn. by rewrite Nat.add_0_r. }
  split.
  - intros H. destruct (take_bytes p c 16) as [[l c1]| |] eqn:Hi; try done.
    apply take_bytes_holds in Hi as [Hi Hl]; [|done]. rewrite Hl in H. cbn [Nat.eqb] in H.
    destruct (identity_new l) eqn:Hid; try done. apply identity_new_Ok in Hid as [-> Hz].
    cbn [map_err] in H.
    destruct (take_byte p c1) as [[b c2]| |] eqn:Ht; try done. apply take_byte_holds in Ht.
    destruct (decode_finger b) eqn:Hf; try done. apply decode_finger_Ok in Hf as ->.
    destruct (decode_entries p c2 n) as [[es c3]| |] eqn:Hd; try done. simplify_eq.
    apply IH in Hd as (Hall & <- & Hh); [|apply Ht].
    split_and!; [constructor; [|done]|done|].
    { split_and!; [by eapply holds_bytes_ok|done..]. }
    rewrite fmap_cons. cbn [concat]. apply holds_app. exists c2. split; [|done].
    apply holds_app. eauto.
  - intros (Hall & Hn & Hh). destruct entries as [|e entries]; [done|].
    apply Forall_cons in Hall as [(Hok & Hl & Hz) Hall].
    rewrite fmap_cons in Hh. cbn [concat] in Hh. unfold entry_bytes at 1 in Hh.
    rewrite <- app_assoc in Hh. apply holds_app in Hh as (c1 & H1 & Hh).
    apply holds_app in Hh as (c2 & H2 & Hh).
    rewrite (proj2 (take_bytes_holds p c 16 _ c1 Hp) (conj H1 Hl)), Hl. cbn [Nat.eqb].
    rewrite (proj2 (identity_new_Ok _ (id e))) by (by destruct (id e)). cbn [map_err].
    rewrite (proj2 (take_byte_holds _ _ _ _) H2), (proj2 (decode_finger_Ok _ (finger e)) eq_refl).
    rewrite (proj2 (IH c2 entries (proj2 (proj2 H2)))).
    + by destruct e.
    + split_and!; try done. by injection Hn.
Qed.

(** What [encode] writes of a well-formed manifest. *)
Definition manifest_bytes (m : IdentityMetadata) : bytes :=
  [84; 49; 73; 77; 1; len (identities m); 0; 0; len (as_str (owner m))] ++
  as_str (owner m) ++ concat (entry_bytes <$> identities m).

Lemma encode_wf m : metadata_wf m -> encode m = Ok (manifest_bytes m).
Proof.
  intros ((_ & _ & Hl & _) & _ & Hc & Hn). unfold encode, MAX_IDENTITIES in *.
  rewrite (proj2 (validate_identities_Ok _ ())) by done.
  rewrite (proj2 (try_from_u_Some 8 _ (len (as_str (owner m))))) by (split; [u_range|done]).
  cbn [ok_or].
  rewrite (proj2 (try_from_u_Some 8 _ (len (identities m)))) by (split; [u_range|done]). done.
Qed.

Lemma entry_bytes_length entries :
  Forall (fun e => identity_wf (id e)) entries ->
  len (concat (entry_bytes <$> entries)) = 17 * len entries.
Proof.
  induction 1 as [|e entries (_ & He & _) _ IH]; [done|]. rewrite fmap_cons. cbn [concat].
  unfold entry_bytes at 1. rewrite !length_app, He. cbn [length]. lia.
Qed.

Lemma manifest_length m : metadata_wf m -> (length (manifest_bytes m) <= 349)%nat.
Proof.
  intros ((_ & _ & Hl & _) & Hf & Hc & _). unfold manifest_bytes, MAX_IDENTITIES in *.
  pose proof (entry_bytes_length _ Hf). rewrite !length_app. cbn [length]. lia.
Qed.

(** The tail of [decode], after the header. *)
Lemma decode_header b0 b1 b2 b3 b4 b5 b6 b7 b8 r :
  let bs := b0 :: b1 :: b2 :: b3 :: b4 :: b5 :: b6 :: b7 :: b8 :: r in
  bytes_ok bs -> len bs <= 349 -> forall m,
  decode bs = Ok m <->
  [b0; b1; b2; b3; b4] = MAGIC ++ [VERSION] /\ b5 <= MAX_IDENTITIES /\ [b6; b7] = [0; 0] /\
  (let! (username_bytes, cursor) := take_bytes bs HEADER_SIZE (Z.to_nat b8) in
   let! value := ok_or (Text.from_utf8 username_bytes) InvalidUsername in
   let! username := map_err (fun _ => InvalidUsername) (username_new value) in
   let! (entries, cursor) := decode_entries bs cursor (Z.to_nat b5) in
   if negb (cursor =? length bs)%nat then Err TrailingData
   else metadata_new username entries) = Ok m.
Proof.
  intros bs Hb Hl m. unfold decode. replace (MAX_MANIFEST_SIZE <? len bs) with false
    by (symmetry; apply Z.ltb_ge; exact Hl).
  assert (is_u 8 b6 /\ is_u 8 b7) as [H6 H7].
  { split; [apply (proj1 (Forall_lookup _ _) Hb 6%nat)|apply (proj1 (Forall_lookup _ _) Hb 7%nat)]; done. }
  replace (HEADER_SIZE <=? length bs)%nat with true by done.
  generalize (fun c l => take_bytes bs c l). intros tb.
  generalize (fun c l => decode_entries bs c l). intros de.
  change (take HEADER_SIZE bs) with [b0; b1; b2; b3; b4; b5; b6; b7; b8].
  change (slice _ 0 4) with (Ok (E := MetadataError) [b0; b1; b2; b3]).
  unfold byte_at. cbn [lookup list_lookup].
  rewrite be_val_2. unfold VERSION, RESERVED, MAGIC. cbn [app].
  case_bool_decide as Hm; cbn [negb]; [|split; [done|intros (? & _); by simplify_eq]].
  destruct (b4 =? 1) eqn:H4; b2p; cbn [negb]; [|split; [done|intros (? & _); by simplify_eq]].
  destruct (MAX_IDENTITIES <? b5) eqn:H5; b2p; [split; [done|intros (_ & ? & _); lia]|].
  destruct (b6 * 256 + b7 =? 0) eqn:H67; b2p; cbn [negb].
  2: { split; [done|]. intros (_ & _ & ? & _). by simplify_eq. }
  assert (b6 = 0 /\ b7 = 0) as [-> ->] by (unfold is_u in *; lia).
  simplify_eq. split; [done|]. by intros (_ & _ & _ & ?).
Qed.

Lemma decode_sound bs m :
  bytes_ok bs -> decode bs = Ok m -> metadata_wf m /\ bs = manifest_bytes m.
Proof.
  intros Hb H. assert (len bs <= 349) as Hl.
  { unfold decode in H. destruct (_ <? _) eqn:Hc in H; b2p; [done|exact Hc]. }
  assert (9 <= length bs)%nat as H9.
  { unfold decode in H. destruct (_ <? _) in H; [done|].
    destruct (HEADER_SIZE <=? length bs)%nat eqn:Hc in H; [|done].
    by apply Nat.leb_le in Hc. }
  do 9 (destruct bs as [|? bs]; [cbn in H9; lia|]). clear H9.
  apply decode_header in H as (Hm & H5 & H67 & H); [|done..]. cbn in Hm. simplify_eq.
  match type of H with context [take_bytes ?l _ _] => set (p := l) in * end.
  destruct (take_bytes p _ _) as [[u c1]| |] eqn:Hu; try done.
  destruct (Text.from_utf8 u) eqn:Ht; try done. apply Text.from_utf8_Some in Ht as [Ht ->].
  cbn [ok_or] in H. destruct (username_new u) eqn:Hn; try done. cbn [map_err] in H.
  apply username_new_Ok in Hn as (-> & Hn & H0).
  destruct (decode_entries p c1 _) as [[es c2]| |] eqn:He; try done.
  destruct (c2 =? length p)%nat eqn:Hc; cbn [negb] in H; [|done]. apply Nat.eqb_eq in Hc.
  unfold metadata_new in H. destruct (validate_identities es) eqn:Hv; try done. simplify_eq.
  assert (length p <= 1012)%nat as Hp by (cbn in Hl |- *; lia).
  apply take_bytes_holds in Hu as [Hu Hul]; [|done].
  apply decode_entries_holds in He as (Hf & Hlen & He); [|done..|apply Hu].
  apply validate_identities_Ok in Hv as [? ?].
  pose proof (proj1 (Forall_lookup _ _) Hb 5%nat _ eq_refl) as [? _].
  pose proof (proj1 (Forall_lookup _ _) Hb 8%nat _ eq_refl) as [? _].
  pose proof (holds_bytes_ok _ _ _ _ Hb Hu).
  split. { by split_and!. }
  unfold manifest_bytes; cbn [owner identities as_str].
  rewrite Hlen, Hul, !Z2Nat.id by done. cbn [app]. do 9 f_equal.
  assert (holds p 9 (u ++ concat (entry_bytes <$> es)) (length p)) as (Hd & _).
  { apply holds_app. by exists c1. }
  by rewrite drop_all, app_nil_r in Hd.
Qed.

Lemma decode_complete m :
  bytes_ok (manifest_bytes m) -> metadata_wf m -> decode (manifest_bytes m) = Ok m.
Proof.
  intros Hb Hwf. pose proof (manifest_length m Hwf) as Hl.
  pose proof Hwf as ((Hok & Hu & Hul & H0) & Hf & Hc & Hn).
  assert (holds (manifest_bytes m) 9 (as_str (owner m) ++ concat (entry_bytes <$> identities m))
            (length (manifest_bytes m))) as (c1 & H1 & H2)%holds_app.
  { split_and!; [by rewrite drop_all, app_nil_r| |done].
    unfold manifest_bytes. rewrite length_app. done. }
  apply decode_header; [done|cbn in Hl |- *; lia|]. split_and!; [done|done|done|].
  match goal with |- context [take_bytes ?l _ _] => change l with (manifest_bytes m) end.
  change HEADER_SIZE with 9%nat.
  rewrite !Nat2Z.id.
  assert (length (manifest_bytes m) <= 1012)%nat as Hp by lia.
  rewrite (proj2 (take_bytes_holds _ 9 _ (as_str (owner m)) c1 Hp) (conj H1 eq_refl)).
  unfold Text.from_utf8. rewrite Hu. cbn [ok_or].
  rewrite (proj2 (username_new_Ok _ (owner m))) by (by destruct (owner m)). cbn [map_err].
  rewrite (proj2 (decode_entries_holds _ c1 _ (identities m) _ Hb Hp (proj2 (proj2 H1)))) by done.
  rewrite Nat.eqb_refl. cbn [negb]. unfold metadata_new.
  rewrite (proj2 (validate_identities_Ok _ ())) by done. by destruct m.
Qed.

(** A manifest is accepted exactly when it is the encoding of a bounded, repetition-free
    set of identities with a valid owner, and is read back as that set. *)
Theorem metadata_decode_iff bs m :
  bytes_ok bs -> decode bs = Ok m <-> metadata_wf m /\ encode m = Ok bs.
Proof.
  intros Hb. split.
  - intros [Hwf ->]%decode_sound; [|done]. by rewrite encode_wf.
  - intros [Hwf He]. rewrite encode_wf in He by done. simplify_eq. by apply decode_complete.
Qed.

Definition ex_owner : Username := mkUsername [111; 119; 110; 101; 114].
Definition ex_metadata : IdentityMetadata :=
  mkMetadata ex_owner [mkEntry (mkIdentityId (replicate 16 1)) None;
                       mkEntry (mkIdentityId (replicate 16 2)) (Some FingerLabel.RightIndex)].

Lemma metadata_decode_iff_witness :
  decode (manifest_bytes ex_metadata) = Ok ex_metadata.
Proof.
  apply metadata_decode_iff.
  - apply (bool_decide_unpack _). vm_compute. exact I.
  - apply metadata_decode_iff; [|vm_compute; reflexivity].
    apply (bool_decide_unpack _). vm_compute. exact I.
Defined.

Lemma take_np p c n : no_panic (take_bytes p c n).
Proof. unfold take_bytes, no_panic. destruct (checked_add _ _ _); cbn; [by case_match|done]. Qed.

Lemma metadata_new_np o es : no_panic (metadata_new o es).
Proof. unfold metadata_new, validate_identities, no_panic. by repeat case_match. Qed.

Lemma decode_entries_np p c n : no_panic (decode_entries p c n).
Proof.
  revert c. induction n as [|n IH]; intros c; [done|]. cbn [decode_entries].
  pose proof (take_np p c 16) as Ht. destruct (take_bytes p c 16) as [[l c1]| |]; try done.
  destruct (length l =? 16)%nat; [|done].
  pose proof (identity_new_np l) as Hi. destruct (identity_new l); try done. cbn [map_err].
  unfold take_byte. destruct (p !! c1); [|done]. cbn [ok_or].
  destruct (decode_finger _) eqn:Hf; [|done|].
  - specialize (IH (c1 + 1)%nat). by destruct (decode_entries p _ n) as [[? ?]| |].
  - unfold decode_finger in Hf. by repeat case_match.
Qed.

(** Decoding a manifest never panics: no index or slice is out of range. *)
Lemma metadata_decode_np bs : no_panic (decode bs).
Proof.
  unfold decode. destruct (_ <? _); [done|]. destruct (HEADER_SIZE <=? length bs)%nat eqn:H9; [|done].
  apply Nat.leb_le in H9. unfold HEADER_SIZE in *.
  do 9 (destruct bs as [|? bs]; [cbn in H9; lia|]). generalize (take_np) (decode_entries_np).
  intros Ht He. unfold slice, byte_at.
  cbn -[take_bytes decode_entries MAGIC VERSION be_val username_new metadata_new].
  repeat (case_match; try done).
  - by apply metadata_new_np.
  - by exfalso; eapply He.
  - exfalso. unfold map_err in *. case_match; try done. by eapply username_new_np.
  - exfalso. unfold ok_or in *. by case_match.
  - by exfalso; eapply Ht.
Qed.

End Metadata.

Module Catalog.
Import Metadata.

(** [StandardIdentityCatalog]. *)
Record Catalog : Type := mkCatalog { c_owner : Username; c_identities : list Entry }.

Inductive CatalogError : Type :=
| TooManyIdentities | DuplicateIdentity | OwnerMismatch | IdentitySetMismatch
| IdentityNotLabeled | InvalidState.

(** The length of a [HashSet] collected from [ids]: the number of distinct ones. *)
Definition unique_len (ids : list IdentityId) : Z := len (remove_dups ids).

Definition validate_live_identities (live_identities : list IdentityId) : res CatalogError () :=
  if MAX_IDENTITIES <? len live_identities then Err TooManyIdentities
  else if negb (unique_len live_identities =? len live_identities) then Err DuplicateIdentity
  else Ok ().

Definition validate_entries (entries : list Entry) : res CatalogError () :=
  if MAX_IDENTITIES <? len entries then Err TooManyIdentities
  else if negb (unique_len (id <$> entries) =? len entries) then Err DuplicateIdentity
  else Ok ().

Definition same_identity_set (entries : list Entry) (live_identities : list IdentityId) : bool :=
  (length entries =? length live_identities)%nat &&
  forallb (fun e => bool_decide (id e ∈ live_identities)) entries.

Definition reconcile (manifest : option IdentityMetadata) (owner : Username)
    (live_identities : list IdentityId) : res CatalogError Catalog :=
  let! _ := validate_live_identities live_identities in
  let! identities :=
    match manifest with
    | Some m =>
        if negb (bool_decide (Metadata.owner m = owner)) then Err OwnerMismatch else
        let! _ := validate_entries (Metadata.identities m) in
        if negb (same_identity_set (Metadata.identities m) live_identities)
        then Err IdentitySetMismatch else Ok (Metadata.identities m)
    | None => Ok ((fun i => mkEntry i None) <$> live_identities)
    end in
  Ok (mkCatalog owner identities).

Definition labeled_identities (c : Catalog) : list Identity :=
  omap (fun e => match finger e with Some f => Some (mkIdentity (id e) f) | None => None end)
    (c_identities c).

(** [entry.id == id && entry.finger.is_some()]. *)
Definition is_labeled (i : IdentityId) (e : Entry) : bool :=
  bool_decide (id e = i) && match finger e with Some _ => true | None => false end.

Definition contains_labeled (c : Catalog) (i : IdentityId) : bool :=
  existsb (is_labeled i) (c_identities c).

Definition add_labeled (c : Catalog) (i : IdentityId) (f : FingerLabel.t)
    : res CatalogError () * Catalog :=
  if MAX_OWNER_IDENTITIES <=? len (c_identities c) then (Err TooManyIdentities, c)
  else if existsb (fun e => bool_decide (id e = i)) (c_identities c)
  then (Err DuplicateIdentity, c)
  else (Ok (), mkCatalog (c_owner c) (c_identities c ++ [mkEntry i (Some f)])).

Definition remove_labeled (c : Catalog) (i : IdentityId) : res CatalogError () * Catalog :=
  match list_find (fun e => is_labeled i e = true) (c_identities c) with
  | Some (position, _) => (Ok (), mkCatalog (c_owner c) (delete position (c_identities c)))
  | None => (Err IdentityNotLabeled, c)
  end.

Definition encode_next_manifest (c : Catalog) : res CatalogError bytes :=
  let! manifest := map_err (fun _ => InvalidState) (metadata_new (c_owner c) (c_identities c)) in
  map_err (fun _ => InvalidState) (encode manifest).

(** ** The catalogue as a finite map *)

Definition catalog_wf (c : Catalog) : Prop := metadata_wf (mkMetadata (c_owner c) (c_identities c)).

#[global] Instance IdentityId_countable : Countable IdentityId :=
  inj_countable' id_bytes mkIdentityId ltac:(by intros []).

(** An enrolled identity and its label, [None] for a recovery anchor. *)
Definition label_map (c : Catalog) : gmap IdentityId (option FingerLabel.t) :=
  list_to_map ((fun e => (id e, finger e)) <$> c_identities c).

Lemma fst_entries es : ((fun e => (id e, finger e)) <$> es).*1 = id <$> es.
Proof. rewrite <- list_fmap_compose. done. Qed.

Lemma label_map_lookup c i l :
  catalog_wf c -> label_map c !! i = Some l <-> mkEntry i l ∈ c_identities c.
Proof.
  intros (_ & _ & _ & Hn). unfold label_map. rewrite <- elem_of_list_to_map.
  - rewrite list_elem_of_fmap. split.
    + intros ([j k] & ? & ?). by simplify_eq/=.
    + intros H. by exists (mkEntry i l).
  - by rewrite fst_entries.
Qed.

Lemma label_map_size c : catalog_wf c -> size (label_map c) = length (c_identities c).
Proof.
  intros (_ & _ & _ & Hn). unfold label_map.
  rewrite <- (length_fmap (fun e => (id e, finger e)) (c_identities c)).
  rewrite <- length_map_to_list. apply Permutation_length, map_to_list_to_map.
  by rewrite fst_entries.
Qed.

Lemma is_labeled_true i e : is_labeled i e = true <-> exists f, e = mkEntry i (Some f).
Proof.
  unfold is_labeled. destruct e as [j [f|]]; cbn; rewrite andb_true_iff, bool_decide_eq_true;
    naive_solver.
Qed.

Lemma contains_labeled_spec c i :
  catalog_wf c -> contains_labeled c i = true <-> exists f, label_map c !! i = Some (Some f).
Proof.
  intros Hwf. unfold contains_labeled. rewrite existsb_exists. split.
  - intros (e & Hin & [f ->]%is_labeled_true). exists f. apply label_map_lookup; [done|].
    by apply list_elem_of_In.
  - intros [f Hf]. exists (mkEntry i (Some f)). apply label_map_lookup in Hf; [|done].
    split; [by apply list_elem_of_In|]. apply is_labeled_true. eauto.
Qed.

Lemma labeled_identities_spec c i f :
  catalog_wf c -> mkIdentity i f ∈ labeled_identities c <-> label_map c !! i = Some (Some f).
Proof.
  intros Hwf. unfold labeled_identities. rewrite list_elem_of_omap, label_map_lookup by done. split.
  - intros ([j [k|]] & Hin & H); by simplify_eq/=.
  - intros H. by exists (mkEntry i (Some f)).
Qed.
Inductive op : Type :=
| Add (i : IdentityId) (f : FingerLabel.t)
| Remove (i : IdentityId).

Definition apply_op (c : Catalog) (o : op) : res CatalogError () * Catalog :=
  match o with Add i f => add_labeled c i f | Remove i => remove_labeled c i end.

(** What the operations promise of the labels. *)
Definition spec_op (m : gmap IdentityId (option FingerLabel.t)) (o : op)
    : res CatalogError () * gmap IdentityId (option FingerLabel.t) :=
  match o with
  | Add i f =>
      if (3 <=? size m)%nat then (Err TooManyIdentities, m)
      else match m !! i with
           | Some _ => (Err DuplicateIdentity, m)
           | None => (Ok (), <[i := Some f]> m)
           end
  | Remove i =>
      match m !! i with
      | Some (Some _) => (Ok (), delete i m)
      | _ => (Err IdentityNotLabeled, m)
      end
  end.

Definition abstract_result {R} (p : R * Catalog) : R * gmap IdentityId (option FingerLabel.t) :=
  (fst p, label_map (snd p)).

Lemma existsb_entry i es :
  existsb (fun e => bool_decide (id e = i)) es = true <-> i ∈ id <$> es.
Proof.
  rewrite existsb_exists, list_elem_of_fmap. split.
  - intros (e & Hin & He%bool_decide_eq_true). exists e. split; [done|]. by apply list_elem_of_In.
  - intros (e & -> & Hin). exists e. split; [by apply list_elem_of_In|]. by apply bool_decide_eq_true.
Qed.

Lemma label_map_None c i : label_map c !! i = None <-> i ∉ id <$> c_identities c.
Proof. unfold label_map. by rewrite <- not_elem_of_list_to_map, fst_entries. Qed.

Lemma label_map_add o es i f :
  i ∉ id <$> es ->
  label_map (mkCatalog o (es ++ [mkEntry i (Some f)])) =
  <[i := Some f]> (label_map (mkCatalog o es)).
Proof.
  intros Hi. unfold label_map; cbn [c_identities]. rewrite fmap_app. cbn.
  rewrite list_to_map_snoc; [done|]. by rewrite fst_entries.
Qed.

Lemma add_labeled_wf c i f :
  catalog_wf c -> identity_wf i -> catalog_wf (snd (add_labeled c i f)).
Proof.
  intros Hwf Hi. unfold add_labeled, MAX_OWNER_IDENTITIES. destruct (_ <=? _) eqn:Hn; [done|]. b2p.
  destruct (existsb _ _) eqn:He; [done|]. destruct Hwf as (Ho & Hf & Hc & Hd). cbn [snd].
  assert (i ∉ id <$> c_identities c) as Hin by (intros Hx%existsb_entry; congruence).
  split_and!; cbn [Metadata.identities Metadata.owner c_owner c_identities] in *; [done| | |].
  - apply Forall_app; split; [done|]. by constructor.
  - unfold MAX_IDENTITIES. rewrite length_app. cbn [length]. lia.
  - rewrite fmap_app. apply NoDup_app; split_and!; [done| |apply NoDup_singleton].
    intros x Hx Hx'. apply list_elem_of_singleton in Hx'. by subst.
Qed.

Lemma add_labeled_refines c i f :
  catalog_wf c ->
  abstract_result (add_labeled c i f) = spec_op (label_map c) (Add i f).
Proof.
  intros Hwf. unfold add_labeled, MAX_OWNER_IDENTITIES. cbn [spec_op]. rewrite label_map_size by done.
  destruct (3 <=? length (c_identities c))%nat eqn:H3.
  { apply Nat.leb_le in H3. by replace (3 <=? len (c_identities c)) with true by lia. }
  apply Nat.leb_gt in H3. replace (3 <=? len (c_identities c)) with false by lia.
  destruct (existsb _ _) eqn:He.
  - apply existsb_entry in He. destruct (label_map c !! i) eqn:Hl; [done|]. by apply label_map_None in Hl.
  - assert (i ∉ id <$> c_identities c) as Hin by (intros Hx%existsb_entry; congruence).
    rewrite (proj2 (label_map_None c i) Hin). unfold abstract_result. cbn [fst snd].
    rewrite label_map_add by done. by destruct c.
Qed.

Lemma label_map_remove o es1 es2 i f :
  NoDup (id <$> es1 ++ mkEntry i (Some f) :: es2) ->
  label_map (mkCatalog o (es1 ++ es2)) =
  delete i (label_map (mkCatalog o (es1 ++ mkEntry i (Some f) :: es2))).
Proof.
  intros Hn. rewrite <- Permutation_middle, fmap_cons in Hn.
  apply NoDup_cons in Hn as [Hi Hn]. cbn [id] in Hi.
  transitivity (delete i (<[i := Some f]> (label_map (mkCatalog o (es1 ++ es2))))).
  - rewrite delete_insert_id; [done|]. by apply label_map_None.
  - f_equal. unfold label_map; cbn [c_identities].
    change (<[i := Some f]> _) with
      (list_to_map ((fun e => (id e, finger e)) <$> mkEntry i (Some f) :: es1 ++ es2)
         : gmap IdentityId (option FingerLabel.t)).
    apply list_to_map_proper.
    + rewrite fst_entries, fmap_cons. by apply NoDup_cons.
    + by rewrite Permutation_middle.
Qed.
Lemma find_labeled_split i es :
  match list_find (fun e => is_labeled i e = true) es with
  | Some (n, _) => exists es1 f es2, es = es1 ++ mkEntry i (Some f) :: es2 /\ n = length es1
  | None => forall f, mkEntry i (Some f) ∉ es
  end.
Proof.
  destruct (list_find _ es) as [[n e]|] eqn:Hf.
  - apply list_find_Some in Hf as (Hl & [f ->]%is_labeled_true & _).
    exists (take n es), f, (drop (S n) es). split; [by rewrite take_drop_middle|].
    apply lookup_lt_Some in Hl. rewrite length_take. lia.
  - apply list_find_None in Hf. intros f Hin. rewrite Forall_forall in Hf.
    apply (Hf _ Hin). apply is_labeled_true. eauto.
Qed.

Lemma remove_labeled_refines c i :
  catalog_wf c ->
  catalog_wf (snd (remove_labeled c i)) /\
  abstract_result (remove_labeled c i) = spec_op (label_map c) (Remove i).
Proof.
  intros Hwf. unfold remove_labeled. pose proof (find_labeled_split i (c_identities c)) as Hs.
  destruct (list_find _ _) as [[n e]|]; cbn [snd spec_op].
  - destruct Hs as (es1 & f & es2 & Hc & ->). destruct c as [o es]; cbn [c_identities c_owner] in *. subst es.
    assert (label_map (mkCatalog o (es1 ++ mkEntry i (Some f) :: es2)) !! i = Some (Some f)) as ->.
    { apply label_map_lookup; [done|]. cbn. set_solver. }
    rewrite delete_middle. destruct Hwf as (Ho & Hf & Hn & Hd).
    cbn [c_identities c_owner Metadata.identities Metadata.owner] in *. split.
    + apply Forall_app in Hf as [? [_ ?]%Forall_cons]. rewrite <- Permutation_middle in Hn, Hd.
      split_and!; cbn; [done|by apply Forall_app| |].
      * cbn [length] in Hn. lia.
      * by apply NoDup_cons in Hd as [_ Hd].
    + unfold abstract_result. cbn [fst snd]. by rewrite (label_map_remove o es1 es2 i f).
  - split; [done|]. unfold abstract_result. cbn [fst snd]. destruct (label_map c !! i) as [[f|]|] eqn:Hl; try done.
    apply label_map_lookup in Hl; [|done]. by apply Hs in Hl.
Qed.

(** A history of operations. *)
Fixpoint run_ops (c : Catalog) (ops : list op) : list (res CatalogError ()) * Catalog :=
  match ops with
  | [] => ([], c)
  | o :: ops =>
      let (r, c) := apply_op c o in
      let (rs, c) := run_ops c ops in (r :: rs, c)
  end.

Fixpoint spec_run (m : gmap IdentityId (option FingerLabel.t)) (ops : list op)
    : list (res CatalogError ()) * gmap IdentityId (option FingerLabel.t) :=
  match ops with
  | [] => ([], m)
  | o :: ops =>
      let (r, m) := spec_op m o in
      let (rs, m) := spec_run m ops in (r :: rs, m)
  end.

Definition op_wf (o : op) : Prop := match o with Add i _ => identity_wf i | Remove _ => True end.

Lemma apply_op_refines c o :
  catalog_wf c -> op_wf o ->
  catalog_wf (snd (apply_op c o)) /\ c_owner (snd (apply_op c o)) = c_owner c /\
  abstract_result (apply_op c o) = spec_op (label_map c) o.
Proof.
  intros Hwf Ho. destruct o as [i f|i]; cbn [apply_op].
  - split_and!; [by apply add_labeled_wf| |by apply add_labeled_refines].
    unfold add_labeled. by repeat case_match.
  - destruct (remove_labeled_refines c i Hwf). split_and!; try done.
    unfold remove_labeled. by repeat case_match.
Qed.

(** C23. Every history of additions and removals keeps the catalogue a bounded set of
    distinct identities of its owner, and its answers and labels are those of a finite
    map from identities to labels, in which only labelled identities can be removed. *)
Theorem catalog_refines_map c ops :
  catalog_wf c -> Forall op_wf ops ->
  let (rs, c') := run_ops c ops in
  catalog_wf c' /\ c_owner c' = c_owner c /\ spec_run (label_map c) ops = (rs, label_map c').
Proof.
  revert c. induction ops as [|o ops IH]; intros c Hwf Ho; cbn [run_ops spec_run]; [done|].
  apply Forall_cons in Ho as [Ho Hops].
  destruct (apply_op_refines c o Hwf Ho) as (Hw & Hown & He).
  destruct (apply_op c o) as [r c1]. cbn [snd] in *. specialize (IH c1 Hw Hops).
  unfold abstract_result in He. cbn [fst snd] in He. rewrite <- He.
  destruct (run_ops c1 ops) as [rs c2]. destruct IH as (? & ? & ->). split_and!; [done|congruence|done].
Qed.
Definition ex_catalog : Catalog := mkCatalog ex_owner (Metadata.identities ex_metadata).

Lemma ex_catalog_wf : catalog_wf ex_catalog.
Proof.
  apply (proj1 (decode_sound (manifest_bytes ex_metadata) ex_metadata
           ltac:(apply (bool_decide_unpack _); vm_compute; exact I)
           ltac:(vm_compute; reflexivity))).
Qed.

Definition ex_ops : list op :=
  [Add (mkIdentityId (replicate 16 3)) FingerLabel.LeftThumb; Remove (mkIdentityId (replicate 16 1));
   Remove (mkIdentityId (replicate 16 2)); Add (mkIdentityId (replicate 16 1)) FingerLabel.LeftIndex].

Lemma catalog_refines_map_witness :
  fst (spec_run (label_map ex_catalog) ex_ops) =
    [Ok (); Err IdentityNotLabeled; Ok (); Err DuplicateIdentity].
Proof.
  pose proof (catalog_refines_map ex_catalog ex_ops ex_catalog_wf) as H.
  assert (Forall op_wf ex_ops) as Ho.
  { repeat constructor; try done;
      apply (bool_decide_unpack _); vm_compute; exact I. }
  specialize (H Ho).
  destruct (run_ops ex_catalog ex_ops) as [rs c'] eqn:Hr. destruct H as (_ & _ & ->).
  change rs with (fst (rs, c')). rewrite <- Hr. vm_compute. reflexivity.
Defined.
(** ** Reconciliation with the live set *)

Lemma unique_len_iff ids : unique_len ids = len ids <-> NoDup ids.
Proof.
  unfold unique_len. split; [|intros Hn].
  - intros Hl. induction ids as [|i ids IH]; [constructor|]. cbn in Hl.
    assert (length (remove_dups ids) <= length ids)%nat.
    { apply submseteq_length, NoDup_submseteq; [apply NoDup_remove_dups|].
      intros x. by rewrite elem_of_remove_dups. }
    destruct (decide_rel _ i ids); cbn in Hl; [lia|]. constructor; [done|]. apply IH. lia.
  - f_equal. apply Permutation_length, NoDup_Permutation; [apply NoDup_remove_dups|done|].
    intros x. by rewrite elem_of_remove_dups.
Qed.

Lemma same_identity_set_iff es live :
  NoDup (id <$> es) -> same_identity_set es live = true <-> id <$> es ≡ₚ live.
Proof.
  intros Hn. unfold same_identity_set. rewrite andb_true_iff, Nat.eqb_eq, forallb_forall. split.
  - intros [Hl Hf]. apply submseteq_length_Permutation; [|by rewrite length_fmap; lia].
    apply NoDup_submseteq; [done|]. intros i (e & -> & He)%list_elem_of_fmap.
    apply list_elem_of_In in He. by apply Hf, bool_decide_eq_true in He.
  - intros Hp. split; [by rewrite <- Hp, length_fmap|]. intros e He. apply bool_decide_eq_true.
    rewrite <- Hp. apply list_elem_of_fmap. exists e. split; [done|]. by apply list_elem_of_In.
Qed.

Lemma validate_live_Ok live u :
  validate_live_identities live = Ok u <-> len live <= MAX_IDENTITIES /\ NoDup live.
Proof.
  unfold validate_live_identities. rewrite <- unique_len_iff. destruct u.
  destruct (_ <? _) eqn:H; b2p; [split; [done|lia]|].
  destruct (_ =? _) eqn:H1; b2p; cbn [negb]; split; try done. by intros [_ ?].
Qed.

Lemma validate_entries_Ok es u :
  validate_entries es = Ok u <-> len es <= MAX_IDENTITIES /\ NoDup (id <$> es).
Proof.
  rewrite <- (length_fmap id es), <- (validate_live_Ok (id <$> es) u).
  unfold validate_entries, validate_live_identities. by rewrite length_fmap.
Qed.

(** The catalogue is accepted exactly when the live set is bounded and has no repetition,
    and the manifest, if there is one, names the owner and lists exactly the live
    identities, in any order; without a manifest every identity is an anchor. *)
Lemma reconcile_Ok manifest owner live c :
  reconcile manifest owner live = Ok c <->
  len live <= MAX_IDENTITIES /\ NoDup live /\ c_owner c = owner /\
  match manifest with
  | Some m => Metadata.owner m = owner /\ c_identities c = Metadata.identities m /\
              id <$> Metadata.identities m ≡ₚ live
  | None => c_identities c = (fun i => mkEntry i None) <$> live
  end.
Proof.
  unfold reconcile. split.
  - intros H. inv_ok H. apply validate_live_Ok in Hr as [? ?].
    split_and!; try done. destruct manifest as [m|]; inv_ok Hr0; [|done].
    apply validate_entries_Ok in Hr as [_ Hn]. rewrite negb_false_iff in *.
    split_and!; [by apply bool_decide_eq_true in Hb|done|]. by apply same_identity_set_iff.
  - intros (Hl & Hn & Ho & Hm). rewrite (proj2 (validate_live_Ok live ())) by done.
    destruct c as [o es]; cbn in *; subst o. destruct manifest as [m|]; [|by subst].
    destruct Hm as (Ho & -> & Hp). rewrite bool_decide_eq_true_2 by done. cbn [negb].
    assert (NoDup (id <$> Metadata.identities m)) as Hd by (by rewrite Hp).
    assert (len (Metadata.identities m) <= MAX_IDENTITIES).
    { by rewrite <- (length_fmap id (Metadata.identities m)), Hp. }
    rewrite (proj2 (validate_entries_Ok _ ())) by done.
    by rewrite (proj2 (same_identity_set_iff _ live Hd)).
Qed.

Lemma encode_next_manifest_wf c :
  catalog_wf c ->
  encode_next_manifest c = Ok (manifest_bytes (mkMetadata (c_owner c) (c_identities c))).
Proof.
  intros Hwf. unfold encode_next_manifest, metadata_new. pose proof Hwf as (_ & _ & Hl & Hn).
  rewrite (proj2 (validate_identities_Ok _ ())) by done. cbn [map_err]. by rewrite encode_wf.
Qed.

Lemma manifest_bytes_ok m : metadata_wf m -> bytes_ok (manifest_bytes m).
Proof.
  intros ((Hok & _ & Hu & _) & Hf & Hl & _). unfold manifest_bytes, MAX_IDENTITIES in *.
  apply bytes_ok_app; split; [|apply bytes_ok_app; split; [done|]].
  - repeat (apply Forall_cons; split; [u_range|]). constructor.
  - clear Hl. induction Hf as [|e es (He & _) _ IH]; [constructor|]. rewrite fmap_cons. cbn [concat].
    apply bytes_ok_app; split; [|done]. apply bytes_ok_app; split; [done|].
    constructor; [|constructor]. destruct (finger e) as [[]|]; cbn; u_range.
Qed.

(** C24. The next manifest of a catalogue is always written, and after a restart it gives
    back the same catalogue whenever the sensor reports the same identities, in any
    order: no label is lost and no anchor becomes visible. *)
Theorem catalog_survives_restart c :
  catalog_wf c ->
  exists bs m, encode_next_manifest c = Ok bs /\ decode bs = Ok m /\
  forall live, live ≡ₚ id <$> c_identities c -> reconcile (Some m) (c_owner c) live = Ok c.
Proof.
  intros Hwf. eexists _, _. split_and!; [by apply encode_next_manifest_wf| |].
  { apply decode_complete; [by apply manifest_bytes_ok|done]. }
  intros live Hp. destruct Hwf as (_ & _ & Hl & Hn). cbn in Hl, Hn. apply reconcile_Ok.
  rewrite Hp. cbn. rewrite length_fmap. by split_and!.
Qed.

Lemma catalog_survives_restart_witness :
  exists bs m, encode_next_manifest ex_catalog = Ok bs /\ decode bs = Ok m /\
  reconcile (Some m) ex_owner [mkIdentityId (replicate 16 2); mkIdentityId (replicate 16 1)]
    = Ok ex_catalog.
Proof.
  destruct (catalog_survives_restart ex_catalog ex_catalog_wf) as (bs & m & H1 & H2 & H3).
  exists bs, m. split_and!; [exact H1|exact H2|]. apply H3. apply Permutation_swap.
Defined.
End Catalog.

Module QueryPolicy.
Import Catalog.

Module IdentityMatchOutcome := MatchWorkflow.IdentityMatchOutcome.

Module StandardMatchOutcome.
Inductive t : Type := Matched (i : Identity) | NoMatch | Cancelled | TimedOut.
End StandardMatchOutcome.

Inductive QueryPolicyError : Type := RequestedIdentityNotLabeled.

Definition list_identities (c : Catalog) : list Identity := labeled_identities c.

Definition find_labeled (c : Catalog) (i : IdentityId) : option Identity :=
  List.find (fun found => bool_decide (id found = i)) (labeled_identities c).

Definition validate_verify_request (c : Catalog) (requested : IdentityId)
    : res QueryPolicyError Identity :=
  ok_or (find_labeled c requested) RequestedIdentityNotLabeled.

Definition evaluate_verify (c : Catalog) (requested : IdentityId)
    (outcome : IdentityMatchOutcome.t) : res QueryPolicyError StandardMatchOutcome.t :=
  let! requested_identity := validate_verify_request c requested in
  Ok (match outcome with
      | IdentityMatchOutcome.Matched matched =>
          if bool_decide (matched = id_bytes requested)
          then StandardMatchOutcome.Matched requested_identity else StandardMatchOutcome.NoMatch
      | IdentityMatchOutcome.NoMatch => StandardMatchOutcome.NoMatch
      | IdentityMatchOutcome.Cancelled => StandardMatchOutcome.Cancelled
      | IdentityMatchOutcome.TimedOut => StandardMatchOutcome.TimedOut
      end).

Definition evaluate_identify (c : Catalog) (outcome : IdentityMatchOutcome.t)
    : StandardMatchOutcome.t :=
  match outcome with
  | IdentityMatchOutcome.Matched matched =>
      match List.find (fun found => bool_decide (id_bytes (id found) = matched))
              (labeled_identities c) with
      | Some found => StandardMatchOutcome.Matched found
      | None => StandardMatchOutcome.NoMatch
      end
  | IdentityMatchOutcome.NoMatch => StandardMatchOutcome.NoMatch
  | IdentityMatchOutcome.Cancelled => StandardMatchOutcome.Cancelled
  | IdentityMatchOutcome.TimedOut => StandardMatchOutcome.TimedOut
  end.

Lemma find_labels {P : Identity -> bool} c i :
  catalog_wf c -> (forall j, P j = true -> id j = id i) -> P i = true ->
  List.find P (labeled_identities c) = Some i <-> label_map c !! id i = Some (Some (finger i)).
Proof.
  intros Hwf HP Hi. rewrite <- labeled_identities_spec by done.
  replace (mkIdentity (id i) (finger i)) with i by (by destruct i). split.
  - intros [H _]%find_some. by apply list_elem_of_In.
  - intros Hin. destruct (List.find P (labeled_identities c)) as [j|] eqn:Hf.
    + apply find_some in Hf as [Hj Pj]. f_equal. apply list_elem_of_In in Hj.
      pose proof (HP j Pj) as Hid. destruct j as [j f], i as [i g]; cbn in Hid; subst j.
      apply labeled_identities_spec in Hj, Hin; [|done..]. congruence.
    + apply list_elem_of_In in Hin. pose proof (find_none _ _ Hf _ Hin). congruence.
Qed.

Lemma find_labeled_Some c i j :
  catalog_wf c -> find_labeled c i = Some j <->
  id j = i /\ label_map c !! i = Some (Some (finger j)).
Proof.
  intros Hwf. unfold find_labeled. split.
  - intros H. pose proof H as [_ <-%bool_decide_eq_true]%find_some. split; [done|].
    apply (find_labels c j Hwf) in H; [done| |by apply bool_decide_eq_true].
    by intros k ?%bool_decide_eq_true.
  - intros [<- H]. apply (find_labels c j Hwf); [|by apply bool_decide_eq_true|done].
    by intros k ?%bool_decide_eq_true.
Qed.

Lemma find_matched_Some c b j :
  catalog_wf c ->
  List.find (fun found => bool_decide (id_bytes (id found) = b)) (labeled_identities c) = Some j
  <-> id_bytes (id j) = b /\ label_map c !! id j = Some (Some (finger j)).
Proof.
  intros Hwf. assert (forall k, bool_decide (id_bytes (id k) = id_bytes (id j)) = true -> id k = id j) as Hk.
  { intros [[x] ?] Hx%bool_decide_eq_true. cbn in *. destruct (id j). cbn in *. congruence. }
  split.
  - intros H. pose proof H as [_ <-%bool_decide_eq_true]%find_some. split; [done|].
    apply (find_labels c j Hwf) in H; [done|done|by apply bool_decide_eq_true].
  - intros [<- H]. apply (find_labels c j Hwf); [done|by apply bool_decide_eq_true|done].
Qed.

(** What a standard client learns. Identification answers with an identity exactly when
    the sensor matched that identity and it carries a label; verification exactly when
    the sensor matched the requested identity, and it is refused before any
    interpretation when the requested identity carries none. Anchors stay hidden. *)
Theorem standard_visibility c requested outcome i :
  catalog_wf c ->
  (evaluate_identify c outcome = StandardMatchOutcome.Matched i <->
   outcome = IdentityMatchOutcome.Matched (id_bytes (id i)) /\
   label_map c !! id i = Some (Some (finger i))) /\
  (evaluate_verify c requested outcome = Ok (StandardMatchOutcome.Matched i) <->
   outcome = IdentityMatchOutcome.Matched (id_bytes requested) /\ id i = requested /\
   label_map c !! requested = Some (Some (finger i))) /\
  (evaluate_verify c requested outcome = Err RequestedIdentityNotLabeled <->
   contains_labeled c requested = false).
Proof.
  intros Hwf. split_and!.
  - destruct outcome; cbn; split; try done; try (by intros [? _]).
    + destruct (List.find _ _) as [j|] eqn:Hf; [|done]. intros. simplify_eq.
      apply find_matched_Some in Hf as [<- ?]; done.
    + intros [? Hl]. simplify_eq.
      by rewrite (proj2 (find_matched_Some c (id_bytes (id i)) i Hwf) (conj eq_refl Hl)).
  - unfold evaluate_verify, validate_verify_request. split.
    + destruct (find_labeled c requested) as [j|] eqn:Hf; cbn [ok_or]; [|done].
      apply find_labeled_Some in Hf as [<- Hl]; [|done]. destruct outcome; try done.
      case_bool_decide; intros; by simplify_eq.
    + intros (-> & <- & Hl). rewrite (proj2 (find_labeled_Some c (id i) i Hwf)) by done.
      cbn [ok_or]. by rewrite bool_decide_eq_true_2.
  - unfold evaluate_verify, validate_verify_request. rewrite <- not_true_iff_false, contains_labeled_spec by done.
    destruct (find_labeled c requested) as [j|] eqn:Hf; cbn [ok_or].
    + apply find_labeled_Some in Hf as [<- Hl]; [|done]. split; [done|]. intros Hn. destruct Hn. eauto.
    + split; [|done]. intros _ [f Hl].
      by rewrite (proj2 (find_labeled_Some c requested (mkIdentity requested f) Hwf)) in Hf.
Qed.

Lemma standard_visibility_witness :
  evaluate_identify ex_catalog (IdentityMatchOutcome.Matched (replicate 16 2)) =
    StandardMatchOutcome.Matched (mkIdentity (mkIdentityId (replicate 16 2)) FingerLabel.RightIndex) /\
  evaluate_verify ex_catalog (mkIdentityId (replicate 16 1)) IdentityMatchOutcome.NoMatch =
    Err RequestedIdentityNotLabeled.
Proof.
  split.
  - apply (standard_visibility ex_catalog (mkIdentityId []) _ _ ex_catalog_wf). split; reflexivity.
  - apply (standard_visibility ex_catalog _ _
             (mkIdentity (mkIdentityId []) FingerLabel.RightIndex) ex_catalog_wf). reflexivity.
Defined.
End QueryPolicy.
