(* ===== verification/FileSystem.v ===== *)
(** * Files

    What the stores use of [std::fs]: directories, files and their metadata, with
    system calls that can fail at any point, and what is left after the machine stops.

    A directory entry names a node. A directory keeps its versions since its last
    [sync_all], newest first; after a stop each name has, independently, its value in
    one of them. Its metadata is the current one or one of those since the last [sync_all]. A file knows whether its contents and metadata were synchronized
    since they last changed; if not, they are arbitrary after a stop. *)

From S2P Require Import Prelude Effects.

Module FileSystem.

(** A name, as its bytes. *)
Abbreviation name := bytes.

Abbreviation ino := positive.

Record Meta : Type := mkMeta { m_mode : Z; m_uid : Z; m_nlink : Z }.

Inductive node : Type :=
| NFile (m : Meta) (content : bytes) (clean : bool)
| NDir (m : Meta) (versions : list (gmap name ino)) (pending : list Meta)
| NSymlink.

(** The nodes, the node of the store's directory, whether the entry that names it is
    synchronized, and the next free number. *)
Record FS : Type := mkFS {
  nodes : gmap ino node;
  root : option ino;
  root_clean : bool;
  next : ino
}.

(** The errors the code tells apart. *)
Inductive IoError : Type := NotFound | AlreadyExists | OtherError.

(** The outside world: the files, the faults of the system calls to come ([Some n]: the
    call fails, a write after [n] bytes; no more faults when the list ends), every state of
    the files so far, newest first, and what else the code asks the system. *)
Record world : Type := mkWorld {
  fs : FS;
  faults : list (option nat);
  history : list FS;
  euid : Z;
  umask : Z;
  proc_status : option bytes;
  pid : Z;
  clock : list Z;
  sequence : Z
}.

Definition with_fs (w : world) (s : FS) (f : list (option nat)) : world :=
  mkWorld s f (s :: history w) (euid w) (umask w) (proc_status w) (pid w) (clock w) (sequence w).

(** A system call: [op], unless it is to fail. *)
Definition sys {A} (op : FS -> res IoError A * FS) : M world IoError A := fun w =>
  match faults w with
  | Some _ :: rest => (Err OtherError, with_fs w (fs w) rest)
  | f => let (r, s) := op (fs w) in (r, with_fs w s (tail f))
  end.

(** ** Paths below the store's directory *)

Abbreviation path := (list name).

Definition current (versions : list (gmap name ino)) : gmap name ino :=
  match versions with v :: _ => v | [] => ∅ end.

Fixpoint walk (s : FS) (i : ino) (p : path) : res IoError ino :=
  match p with
  | [] => Ok i
  | c :: p =>
      match nodes s !! i with
      | Some (NDir _ vs _) =>
          match current vs !! c with Some i => walk s i p | None => Err NotFound end
      | _ => Err OtherError
      end
  end.

Definition resolve (s : FS) (p : path) : res IoError ino :=
  match root s with Some i => walk s i p | None => Err NotFound end.

(** The directory that holds the last component of [p], and that component. *)
Definition parent (s : FS) (p : path) : res IoError (ino * name) :=
  match rev p with
  | [] => Err OtherError
  | c :: q => let! i := resolve s (rev q) in Ok (i, c)
  end.

(** ** Calls that read *)

Record Metadata : Type := mkMetadata {
  is_file : bool; is_dir : bool; mode : Z; uid : Z; nlink : Z; size : Z
}.

Definition stat (s : FS) (i : ino) : res IoError Metadata :=
  match nodes s !! i with
  | Some (NFile m c _) => Ok (mkMetadata true false (m_mode m) (m_uid m) (m_nlink m) (len c))
  | Some (NDir m _ _) => Ok (mkMetadata false true (m_mode m) (m_uid m) (m_nlink m) 0)
  | Some NSymlink => Ok (mkMetadata false false 511 0 1 0)
  | None => Err OtherError
  end.

(** [OpenOptions::new().read(true)] with [O_NOFOLLOW], and [O_DIRECTORY] if [directory]. *)
Definition open_read (directory : bool) (p : path) : M world IoError ino :=
  sys (fun s => (let! i := resolve s p in
                 match nodes s !! i with
                 | Some (NFile _ _ _) => if directory then Err OtherError else Ok i
                 | Some (NDir _ _ _) => Ok i
                 | _ => Err OtherError
                 end, s)).

(** [File::metadata]. *)
Definition metadata (i : ino) : M world IoError Metadata := sys (fun s => (stat s i, s)).

(** [fs::symlink_metadata]. *)
Definition symlink_metadata (p : path) : M world IoError Metadata :=
  sys (fun s => (let! i := resolve s p in stat s i, s)).

(** [Path::exists], of the store's directory. *)
Definition exists_root (w : world) : bool * world :=
  match sys (fun s => (resolve s [], s)) w with (Ok _, w) => (true, w) | (_, w) => (false, w) end.

Definition content (s : FS) (i : ino) : res IoError bytes :=
  match nodes s !! i with Some (NFile _ c _) => Ok c | _ => Err OtherError end.

(** [read_exact] of [n] bytes from the start. *)
Definition read_exact (i : ino) (n : Z) : M world IoError bytes :=
  sys (fun s => (let! c := content s i in
                 if n <=? len c then Ok (take (Z.to_nat n) c) else Err OtherError, s)).

(** [read] of one more byte at [offset]: how many bytes it gets. *)
Definition read_one (i : ino) (offset : Z) : M world IoError Z :=
  sys (fun s => (let! c := content s i in Ok (if offset <? len c then 1 else 0), s)).

(** [fs::read_dir]: the names; each is then an entry whose own read can fail. *)
Definition read_dir (p : path) : M world IoError (list name) :=
  sys (fun s => (let! i := resolve s p in
                 match nodes s !! i with
                 | Some (NDir _ vs _) => Ok (map_to_list (current vs)).*1
                 | _ => Err OtherError
                 end, s)).

Definition entry (c : name) : M world IoError name := sys (fun s => (Ok c, s)).

(** ** Calls that write *)

Definition set_node (s : FS) (i : ino) (n : node) : FS :=
  mkFS (<[i := n]> (nodes s)) (root s) (root_clean s) (next s).

(** A new version of directory [d]. *)
Definition set_entries (s : FS) (d : ino) (f : gmap name ino -> gmap name ino) : FS :=
  match nodes s !! d with
  | Some (NDir m vs mc) => set_node s d (NDir m (f (current vs) :: vs) mc)
  | _ => s
  end.

Definition add_node (s : FS) (n : node) : FS :=
  mkFS (<[next s := n]> (nodes s)) (root s) (root_clean s) (Pos.succ (next s)).

(** A new node under a name that must be free. *)
Definition create (p : path) (n : node) (s : FS) : res IoError ino * FS :=
  match parent s p with
  | Ok (d, c) =>
      match nodes s !! d with
      | Some (NDir _ vs _) =>
          match current vs !! c with
          | Some _ => (Err AlreadyExists, s)
          | None => (Ok (next s), set_entries (add_node s n) d (<[c := next s]>))
          end
      | _ => (Err OtherError, s)
      end
  | Err e => (Err e, s)
  | Panic => (Panic, s)
  end.

Definition masked (w : world) (m : Z) : Z := Z.land m (Z.lnot (umask w)).

(** [write(true).create_new(true).mode(m)] with [O_NOFOLLOW]. *)
Definition create_new (p : path) (m : Z) : M world IoError ino := fun w =>
  sys (create p (NFile (mkMeta (masked w m) (euid w) 1) [] false)) w.

(** [DirBuilder::create] of one directory. *)
Definition mkdir (p : path) (m : Z) : M world IoError ino := fun w =>
  sys (create p (NDir (mkMeta (masked w m) (euid w) 2) [∅] [])) w.

(** [DirBuilder::create], recursively, of the store's directory. *)
Definition mkdir_root (m : Z) : M world IoError () := fun w =>
  sys (fun s => match root s with
                | Some _ => (Ok (), s)
                | None =>
                    let n := NDir (mkMeta (masked w m) (euid w) 2) [∅] [] in
                    let s' := add_node s n in
                    (Ok (), mkFS (nodes s') (Some (next s)) false (next s'))
                end) w.

Definition chmod_node (m : Z) (n : node) : node :=
  match n with
  | NFile a c _ => NFile (mkMeta m (m_uid a) (m_nlink a)) c false
  | NDir a vs ms => NDir (mkMeta m (m_uid a) (m_nlink a)) vs (a :: ms)
  | NSymlink => NSymlink
  end.

Definition chmod (s : FS) (i : ino) (m : Z) : res IoError () * FS :=
  match nodes s !! i with
  | Some n => (Ok (), set_node s i (chmod_node m n))
  | None => (Err OtherError, s)
  end.

(** [File::set_permissions] and [fs::set_permissions]. *)
Definition set_permissions (i : ino) (m : Z) : M world IoError () := sys (fun s => chmod s i m).
Definition set_permissions_at (p : path) (m : Z) : M world IoError () :=
  sys (fun s => match resolve s p with
                | Ok i => chmod s i m
                | Err e => (Err e, s)
                | Panic => (Panic, s)
                end).

Definition append (s : FS) (i : ino) (bs : bytes) : FS :=
  match nodes s !! i with
  | Some (NFile m c _) => set_node s i (NFile m (c ++ bs) false)
  | _ => s
  end.

(** [write_all] at the end of a new file; a failed write leaves a part. *)
Definition write_all (i : ino) (bs : bytes) : M world IoError () := fun w =>
  match faults w with
  | Some n :: rest => (Err OtherError, with_fs w (append (fs w) i (take n bs)) rest)
  | f => (Ok (), with_fs w (append (fs w) i bs) (tail f))
  end.

(** [sync_all]. *)
Definition sync_all (i : ino) : M world IoError () :=
  sys (fun s => match nodes s !! i with
                | Some (NFile m c _) => (Ok (), set_node s i (NFile m c true))
                | Some (NDir m vs _) => (Ok (), set_node s i (NDir m [current vs] []))
                | _ => (Err OtherError, s)
                end).

Definition is_empty_dir (n : option node) : bool :=
  match n with Some (NDir _ vs _) => bool_decide (current vs = ∅) | _ => false end.

Definition is_dir_node (n : option node) : bool :=
  match n with Some (NDir _ _ _) => true | _ => false end.

(** [fs::rename] within the store's directory. A directory replaces nothing but an empty
    directory, a file nothing but a non-directory. *)
Definition rename (a b : name) : M world IoError () :=
  sys (fun s =>
    match resolve s [] with
    | Ok r =>
        match resolve s [a] with
        | Ok i =>
            let free := match resolve s [b] with
                        | Ok j => if is_dir_node (nodes s !! i) then is_empty_dir (nodes s !! j)
                                  else negb (is_dir_node (nodes s !! j))
                        | _ => true
                        end in
            if free then (Ok (), set_entries s r (fun v => <[b := i]> (delete a v)))
            else (Err OtherError, s)
        | Err e => (Err e, s)
        | Panic => (Panic, s)
        end
    | Err e => (Err e, s)
    | Panic => (Panic, s)
    end).

(** [fs::remove_file] and [fs::remove_dir]. *)
Definition unlink (allowed : option node -> bool) (p : path) : M world IoError () :=
  sys (fun s =>
    match parent s p, resolve s p with
    | Ok (d, c), Ok i =>
        if allowed (nodes s !! i) then (Ok (), set_entries s d (delete c)) else (Err OtherError, s)
    | Ok _, Err e | Err e, _ => (Err e, s)
    | _, _ => (Err OtherError, s)
    end).
Definition remove_file (p : path) : M world IoError () := unlink (fun n => negb (is_dir_node n)) p.
Definition remove_dir (p : path) : M world IoError () := unlink is_empty_dir p.

(** ** The machine stops *)

Inductive stop_node : node -> node -> Prop :=
| stop_file m c clean m' c' :
    (clean = true -> m' = m /\ c' = c) -> stop_node (NFile m c clean) (NFile m' c' true)
| stop_dir m vs ms m' v' :
    m' ∈ m :: ms -> (forall c, exists v, v ∈ vs /\ v' !! c = v !! c) ->
    stop_node (NDir m vs ms) (NDir m' [v'] [])
| stop_symlink : stop_node NSymlink NSymlink.

Record stop (s s' : FS) : Prop := mkStop {
  stop_nodes : forall i n, nodes s !! i = Some n -> exists n', nodes s' !! i = Some n' /\ stop_node n n';
  stop_root : root s' = root s \/ root_clean s = false /\ root s' = None
}.

(** The next start: the files as they are found, and no faults. *)
Definition restart (w : world) (s : FS) : world :=
  mkWorld s [] [] (euid w) (umask w) (proc_status w) (pid w) (clock w) (sequence w).

End FileSystem.
