(* ===== verification/CatacombStore.v ===== *)
(** * The generation store

    [t1-daemons/src/catacomb_store.rs]: generations of two encrypted templates and an
    identity manifest, one of which a marker selects. A [CatacombPairStore] is a path, so
    its methods are functions on the files; the methods of a transaction also pass the
    transaction. *)

From S2P Require Import Prelude Effects Text Biometric IdentityCatalog FileSystem.
From Stdlib Require Strings.String.

Import FileSystem Strings.String.StringSyntax.

Module CatacombStore.

Open Scope string_scope.
Definition ACTIVE_MARKER : name := Text.str "active".
Definition MASTER_FILE : name := Text.str "master.raw".
Definition USER_FILE : name := Text.str "user.raw".
Definition IDENTITY_METADATA_FILE : name := Text.str "identities.meta".
Definition MAX_MARKER_SIZE : Z := 128.

(** The prefixes and the suffix of the names of artifacts. *)
Definition PAIR : bytes := Text.str "pair-".
Definition STAGE : bytes := Text.str ".stage-".
Definition RECOVERY : bytes := Text.str ".recovery-".
Definition ACTIVE : bytes := Text.str ".active-".
Definition TMP : bytes := Text.str ".tmp".
Close Scope string_scope.

(** [0o600], [0o700] and [0o777]. *)
Definition PRIVATE_FILE : Z := 384.
Definition PRIVATE_DIRECTORY : Z := 448.
Definition PERMISSIONS : Z := 511.

Inductive CatacombStoreError : Type :=
| MissingPair | IncompletePair | InvalidBlob | InvalidMetadata | StorageUnavailable
| UnsafeStorage | PendingExport | InvalidTransactionState | PromotionDurabilityUnknown.

Record CatacombPair : Type := mkPair {
  master : bytes;
  user : bytes;
  pair_metadata : option bytes
}.

Module RecoveryOutcome.
Inductive t : Type := Clean | Promoted | Quarantined.
End RecoveryOutcome.

Inductive CatacombRecoveryError (E : Type) : Type :=
| Store (e : CatacombStoreError)
| Validator (e : E).
Arguments Store {E} e.
Arguments Validator {E} e.

Module TransactionState.
Inductive t : Type := Empty | MetadataDurable | UserDurable | PairDurable.
#[global] Instance t_eq_dec : EqDecision t.
Proof. solve_decision. Defined.
End TransactionState.

Abbreviation store_io A := (M world CatacombStoreError A).

(** [.map_err(|_| CatacombStoreError::StorageUnavailable)]. *)
Definition or_unavailable {A} (m : M world IoError A) : store_io A :=
  mapM_err (fun _ => StorageUnavailable) m.

(** ** Names *)

(** [str::strip_prefix], [str::strip_suffix] and [str::starts_with]. *)
Definition strip_prefix (p s : bytes) : option bytes :=
  if bool_decide (take (length p) s = p) then Some (drop (length p) s) else None.
Definition strip_suffix (p s : bytes) : option bytes :=
  if (length p <=? length s)%nat && bool_decide (drop (length s - length p) s = p)
  then Some (take (length s - length p) s) else None.
Definition starts_with (p s : bytes) : bool := bool_decide (take (length p) s = p).

(** [u8::is_ascii_hexdigit]. *)
Definition is_ascii_hexdigit (b : Z) : bool :=
  Text.in_range 48 57 b || Text.in_range 65 70 b || Text.in_range 97 102 b.

(** [str::split('-')]. *)
Fixpoint split_dash (s : bytes) : list bytes :=
  match s with
  | [] => [[]]
  | b :: s =>
      if b =? 45 then [] :: split_dash s
      else match split_dash s with
           | field :: fields => (b :: field) :: fields
           | [] => [[b]]
           end
  end.

Definition is_hex_field (field : bytes) : bool :=
  match field with [] => false | _ => forallb is_ascii_hexdigit field end.

(** [all] stops at the first bad field, so [next] then sees what follows it. *)
Definition is_token (token : bytes) : bool :=
  let fields := split_dash token in
  forallb is_hex_field (take 3 fields) && match drop 3 fields with [] => true | _ => false end &&
  (length (List.filter (fun b => (b =? 45)%Z) token) =? 2)%nat.

Definition is_some_and {A} (o : option A) (f : A -> bool) : bool :=
  match o with Some a => f a | None => false end.

Definition is_generation_name (n : name) : bool := is_some_and (strip_prefix PAIR n) is_token.
Definition is_stage_name (n : name) : bool := is_some_and (strip_prefix STAGE n) is_token.
Definition is_marker_temporary_name (n : name) : bool :=
  is_some_and (match strip_prefix ACTIVE n with Some rest => strip_suffix TMP rest | None => None end)
    is_token.

(** [{:x}]. *)
Definition lower_hex_digit (d : Z) : Z := if d <? 10 then 48 + d else 87 + d.
Fixpoint lower_hex_loop (fuel : nat) (v : Z) (tail : bytes) : bytes :=
  match fuel with
  | O => tail
  | S fuel =>
      let tail := lower_hex_digit (v mod 16) :: tail in
      if v <? 16 then tail else lower_hex_loop fuel (v / 16) tail
  end.

(** Thirty-two digits are enough for a [u128]. *)
Definition lower_hex (v : Z) : bytes := lower_hex_loop 32 v [].

(** [artifact_token]; a clock before the epoch reads as zero. *)
Definition artifact_token (w : world) : bytes * world :=
  let nanos := match clock w with t :: _ => Z.max 0 t | [] => 0 end in
  (lower_hex (pid w) ++ [45] ++ lower_hex nanos ++ [45] ++ lower_hex (sequence w),
   mkWorld (fs w) (faults w) (history w) (euid w) (umask w) (proc_status w) (pid w)
     (tail (clock w)) ((sequence w + 1) mod 2 ^ 64)).

(** ** The checks of metadata *)

(** [str::lines]: a line ends with a line feed, which a carriage return may precede. *)
Fixpoint lines (s : bytes) : list bytes :=
  match s with
  | [] => []
  | b :: s =>
      if b =? 10 then [] :: lines s
      else match s with
      | 10 :: s' => if b =? 13 then [] :: lines s' else [b] :: lines s'
      | _ => match lines s with
             | l :: ls => (b :: l) :: ls
             | [] => [[b]]
             end
      end
  end.

(** [u8::is_ascii_whitespace]. *)
Definition is_ascii_whitespace (b : Z) : bool :=
  bool_decide (b ∈ [32; 9; 10; 12; 13]).

(** [split_ascii_whitespace]. *)
Fixpoint fields_loop (current : bytes) (s : bytes) : list bytes :=
  match s with
  | [] => match current with [] => [] | _ => [current] end
  | b :: s =>
      if is_ascii_whitespace b
      then match current with [] => fields_loop [] s | _ => current :: fields_loop [] s end
      else fields_loop (current ++ [b]) s
  end.

(** [str::parse::<u32>]: an optional sign, then digits. *)
Fixpoint digits_value (v : Z) (s : bytes) : option Z :=
  match s with
  | [] => Some v
  | b :: s =>
      if Text.in_range 48 57 b
      then (let v := v * 10 + (b - 48) in if v <=? umax 32 then digits_value v s else None)
      else None
  end.
Definition parse_u32 (s : bytes) : option Z :=
  match s with
  | [] => None
  | 43 :: [] => None
  | 43 :: s => digits_value 0 s
  | s => digits_value 0 s
  end.

(** The second number of the line [Uid:]. *)
Definition status_uid (status : bytes) : res CatacombStoreError Z :=
  if negb (Text.utf8_valid status) then Err StorageUnavailable else
  let! uid_line := ok_or (head (omap (strip_prefix [85; 105; 100; 58]) (lines status)))
                     StorageUnavailable in
  let! field := ok_or (fields_loop [] uid_line !! 1%nat) StorageUnavailable in
  ok_or (parse_u32 field) StorageUnavailable.

(** [fs::read_to_string] of [/proc/self/status], and the parser. *)
Definition effective_uid : store_io Z := fun w =>
  (do! status := or_unavailable (sys (fun s => (ok_or (proc_status w) OtherError, s))) in
   lift (status_uid status)) w.

Definition validate_file_identity (is_file : bool) (mode owner link_count expected_owner : Z)
    : res CatacombStoreError () :=
  if negb is_file || negb (Z.land mode PERMISSIONS =? PRIVATE_FILE) ||
     negb (owner =? expected_owner) || negb (link_count =? 1)
  then Err UnsafeStorage else Ok ().

Definition validate_private_file_metadata (m : Metadata) : store_io () :=
  do! expected := effective_uid in
  lift (validate_file_identity (is_file m) (mode m) (uid m) (nlink m) expected).

Definition validate_directory_metadata (m : Metadata) : store_io () :=
  if negb (is_dir m) || negb (Z.land (mode m) PERMISSIONS =? PRIVATE_DIRECTORY)
  then lift (Err UnsafeStorage) else
  do! expected := effective_uid in
  if negb (uid m =? expected) then lift (Err UnsafeStorage) else ret ().

Definition validate_blob (blob : bytes) : res CatacombStoreError () :=
  match blob with
  | [] => Err InvalidBlob
  | _ => if Catacomb.MAX_SECURE_CATACOMB_SIZE <? len blob then Err InvalidBlob else Ok ()
  end.

Definition validate_metadata (m : bytes) : res CatacombStoreError () :=
  if (Metadata.MAX_MANIFEST_SIZE <? len m) || negb (is_ok (Metadata.decode m))
  then Err InvalidMetadata else Ok ().

(** ** Opening, reading and writing *)

(** [into_string]: a name that is not UTF-8 is refused. *)
Definition into_string (n : name) : store_io name :=
  lift (ok_or (Text.from_utf8 n) UnsafeStorage).

(** [OpenOptions::open] with the two errors the callers tell apart. *)
Definition open_or {A} (missing other : CatacombStoreError) (m : M world IoError A) : store_io A :=
  mapM_err (fun e => match e with NotFound => missing | _ => other end) m.

Definition open_existing_directory : store_io ino :=
  do! directory := open_or MissingPair UnsafeStorage (open_read true []) in
  do! m := or_unavailable (metadata directory) in
  do! _ := validate_directory_metadata m in
  ret directory.

Definition open_checked_directory (p : path) : store_io ino :=
  do! directory := mapM_err (fun _ => UnsafeStorage) (open_read true p) in
  do! m := or_unavailable (metadata directory) in
  do! _ := validate_directory_metadata m in
  ret directory.

Definition sync_directory (p : path) : store_io () :=
  do! directory := open_checked_directory p in
  or_unavailable (sync_all directory).

Definition prepare_directory : store_io ino := fun w =>
  let (found, w) := exists_root w in
  (do! _ := (if found then ret () else
             do! _ := or_unavailable (mkdir_root PRIVATE_DIRECTORY) in
             or_unavailable (set_permissions_at [] PRIVATE_DIRECTORY)) in
   open_existing_directory) w.

Definition read_active_generation : store_io name :=
  do! marker := open_or MissingPair UnsafeStorage (open_read false [ACTIVE_MARKER]) in
  do! m := or_unavailable (metadata marker) in
  do! _ := validate_private_file_metadata m in
  if (size m =? 0) || (MAX_MARKER_SIZE <? size m) then lift (Err UnsafeStorage) else
  do! bs := or_unavailable (read_exact marker (size m)) in
  do! trailing := or_unavailable (read_one marker (size m)) in
  if negb (trailing =? 0) then lift (Err UnsafeStorage) else
  do! text := lift (ok_or (Text.from_utf8 bs) UnsafeStorage) in
  do! generation := lift (ok_or (strip_suffix [10] text) UnsafeStorage) in
  if negb (is_generation_name generation) then lift (Err UnsafeStorage) else ret generation.

Definition read_blob (p : path) : store_io bytes :=
  do! file := open_or IncompletePair UnsafeStorage (open_read false p) in
  do! m := or_unavailable (metadata file) in
  do! _ := validate_private_file_metadata m in
  if (size m =? 0) || (Catacomb.MAX_SECURE_CATACOMB_SIZE <? size m) then lift (Err InvalidBlob) else
  do! blob := or_unavailable (read_exact file (size m)) in
  do! trailing := or_unavailable (read_one file (size m)) in
  if trailing =? 0 then ret blob else lift (Err InvalidBlob).

(** [read_metadata]. *)
Definition open_metadata (p : path) : store_io (option ino) := fun w =>
  match open_read false p w with
  | (Ok file, w) => (Ok (Some file), w)
  | (Err NotFound, w) => (Ok None, w)
  | (Err _, w) => (Err UnsafeStorage, w)
  | (Panic, w) => (Panic, w)
  end.
Definition read_metadata (p : path) : store_io (option bytes) :=
  do! file := open_metadata p in
  match file with
  | None => ret None
  | Some file =>
      do! m := or_unavailable (metadata file) in
      do! _ := validate_private_file_metadata m in
      if Metadata.MAX_MANIFEST_SIZE <? size m then lift (Err InvalidMetadata) else
      do! bs := or_unavailable (read_exact file (size m)) in
      do! trailing := or_unavailable (read_one file (size m)) in
      if negb (trailing =? 0) || negb (is_ok (validate_metadata bs))
      then lift (Err InvalidMetadata) else ret (Some bs)
  end.

Definition read_pair (generation_directory : path) : store_io CatacombPair :=
  do! _ := open_checked_directory generation_directory in
  do! m := read_blob (generation_directory ++ [MASTER_FILE]) in
  do! u := read_blob (generation_directory ++ [USER_FILE]) in
  do! md := read_metadata (generation_directory ++ [IDENTITY_METADATA_FILE]) in
  ret (mkPair m u md).

Definition write_new_blob (p : path) (blob : bytes) : store_io () :=
  do! file := or_unavailable (create_new p PRIVATE_FILE) in
  do! _ := or_unavailable (set_permissions file PRIVATE_FILE) in
  do! _ := or_unavailable (write_all file blob) in
  or_unavailable (sync_all file).

Definition write_marker (p : path) (generation : name) : store_io () :=
  do! file := or_unavailable (create_new p PRIVATE_FILE) in
  do! _ := or_unavailable (set_permissions file PRIVATE_FILE) in
  do! _ := or_unavailable (write_all file generation) in
  do! _ := or_unavailable (write_all file [10]) in
  or_unavailable (sync_all file).

Definition create_private_directory (p : path) : store_io () :=
  do! _ := or_unavailable (mkdir p PRIVATE_DIRECTORY) in
  or_unavailable (set_permissions_at p PRIVATE_DIRECTORY).

(** [fs::symlink_metadata], with [NotFound] as the absence the callers accept. *)
Definition find_metadata (p : path) : store_io (option Metadata) := fun w =>
  match symlink_metadata p w with
  | (Ok m, w) => (Ok (Some m), w)
  | (Err NotFound, w) => (Ok None, w)
  | (Err _, w) => (Err StorageUnavailable, w)
  | (Panic, w) => (Panic, w)
  end.

Definition remove_private_file (p : path) : store_io () :=
  do! m := find_metadata p in
  match m with
  | None => ret ()
  | Some m =>
      do! _ := validate_private_file_metadata m in
      or_unavailable (remove_file p)
  end.

(** Reads the entries of a directory one by one. *)
Fixpoint collect_entries (names : list name) : store_io (list name) :=
  match names with
  | [] => ret []
  | n :: names =>
      do! n := or_unavailable (entry n) in
      do! names := collect_entries names in
      ret (n :: names)
  end.

Fixpoint remove_members (p : path) (names : list name) : store_io () :=
  match names with
  | [] => ret ()
  | n :: names =>
      do! n := into_string n in
      if negb (bool_decide (n ∈ [MASTER_FILE; USER_FILE; IDENTITY_METADATA_FILE]))
      then lift (Err UnsafeStorage) else
      do! _ := remove_private_file (p ++ [n]) in
      remove_members p names
  end.

Definition remove_private_generation (p : path) : store_io () :=
  do! m := find_metadata p in
  match m with
  | None => ret ()
  | Some m =>
      do! _ := validate_directory_metadata m in
      do! names := or_unavailable (read_dir p) in
      do! names := collect_entries names in
      do! _ := remove_members p names in
      or_unavailable (remove_dir p)
  end.

(** ** The store *)

Definition load : store_io CatacombPair :=
  do! _ := open_existing_directory in
  do! generation := read_active_generation in
  read_pair [generation].

(** The names [is_empty_for_first_owner] counts as biometric state. *)
Definition is_catacomb_name (n : name) : bool :=
  bool_decide (n = ACTIVE_MARKER) || starts_with PAIR n || starts_with STAGE n ||
  starts_with RECOVERY n || starts_with ACTIVE n.

Fixpoint no_catacomb_entry (names : list name) : store_io bool :=
  match names with
  | [] => ret true
  | n :: names =>
      do! n := or_unavailable (entry n) in
      do! n := into_string n in
      if is_catacomb_name n then ret false else no_catacomb_entry names
  end.

Definition is_empty_for_first_owner : store_io bool := fun w =>
  match open_existing_directory w with
  | (Ok _, w) =>
      (do! names := or_unavailable (read_dir []) in
       no_catacomb_entry names) w
  | (Err MissingPair, w) => (Ok true, w)
  | (Err e, w) => (Err e, w)
  | (Panic, w) => (Panic, w)
  end.

Fixpoint no_recovery_entry (names : list name) : store_io () :=
  match names with
  | [] => ret ()
  | n :: names =>
      do! n := or_unavailable (entry n) in
      do! n := into_string n in
      if starts_with RECOVERY n then lift (Err PendingExport) else no_recovery_entry names
  end.

Definition reject_recovery_state : store_io () :=
  do! names := or_unavailable (read_dir []) in
  no_recovery_entry names.

Fixpoint collect_tokens (names : list name) : store_io (list bytes) :=
  match names with
  | [] => ret []
  | n :: names =>
      do! n := or_unavailable (entry n) in
      do! n := into_string n in
      match strip_prefix RECOVERY n with
      | None => collect_tokens names
      | Some token =>
          if negb (is_token token) then lift (Err UnsafeStorage) else
          do! m := or_unavailable (symlink_metadata [n]) in
          do! _ := validate_private_file_metadata m in
          if negb (size m =? 0) then lift (Err UnsafeStorage) else
          do! tokens := collect_tokens names in
          ret (token :: tokens)
      end
  end.

(** The order of [sort] on byte strings. *)
Fixpoint bytes_le (a b : bytes) : bool :=
  match a, b with
  | [], _ => true
  | _, [] => false
  | x :: a, y :: b => if x =? y then bytes_le a b else x <? y
  end.

Fixpoint insert_sorted (x : bytes) (l : list bytes) : list bytes :=
  match l with
  | [] => [x]
  | y :: l => if bytes_le x y then x :: y :: l else y :: insert_sorted x l
  end.
Definition sort_bytes (l : list bytes) : list bytes := fold_right insert_sorted [] l.

Definition recovery_tokens : store_io (list bytes) :=
  do! names := or_unavailable (read_dir []) in
  do! tokens := collect_tokens names in
  ret (sort_bytes tokens).
(** ** Transactions *)

(** [CatacombPairTransaction]; the paths are names in the store's directory. *)
Record Transaction : Type := mkTx {
  directory : ino;
  stage : name;
  generation : name;
  marker_temporary : name;
  recovery_marker : name;
  state : TransactionState.t;
  generation_renamed : bool;
  marker_replaced : bool;
  recovery_reserved : bool
}.

Abbreviation tx_io A := (M (world * Transaction) CatacombStoreError A).

(** Code of the store, in a method of the transaction. *)
Definition on_store {A} (m : store_io A) : tx_io A := fun '(w, t) =>
  let (r, w) := m w in (r, (w, t)).

Definition tx_get : tx_io Transaction := fun '(w, t) => (Ok t, (w, t)).
Definition tx_set (f : Transaction -> Transaction) : tx_io () := fun '(w, t) => (Ok (), (w, f t)).

Definition set_state (st : TransactionState.t) (t : Transaction) : Transaction :=
  mkTx (directory t) (stage t) (generation t) (marker_temporary t) (recovery_marker t) st
    (generation_renamed t) (marker_replaced t) (recovery_reserved t).
Definition set_renamed (t : Transaction) : Transaction :=
  mkTx (directory t) (stage t) (generation t) (marker_temporary t) (recovery_marker t) (state t)
    true (marker_replaced t) (recovery_reserved t).
Definition set_replaced (t : Transaction) : Transaction :=
  mkTx (directory t) (stage t) (generation t) (marker_temporary t) (recovery_marker t) (state t)
    (generation_renamed t) true (recovery_reserved t).
Definition set_reserved (b : bool) (t : Transaction) : Transaction :=
  mkTx (directory t) (stage t) (generation t) (marker_temporary t) (recovery_marker t) (state t)
    (generation_renamed t) (marker_replaced t) b.

Definition begin_transaction : store_io Transaction :=
  do! directory := prepare_directory in
  do! _ := reject_recovery_state in
  do! token := (fun w => let (token, w) := artifact_token w in (Ok token, w)) in
  do! _ := create_private_directory [STAGE ++ token] in
  ret (mkTx directory (STAGE ++ token) (PAIR ++ token) (ACTIVE ++ token ++ TMP) (RECOVERY ++ token)
         TransactionState.Empty false false false).

Definition write_directory (t : Transaction) : name :=
  if generation_renamed t then generation t else stage t.

Definition reserve_recovery : tx_io () :=
  do! t := tx_get in
  if negb (bool_decide (state t = TransactionState.Empty)) || recovery_reserved t
  then lift (Err InvalidTransactionState) else
  do! _ := on_store (or_unavailable (rename (stage t) (generation t))) in
  do! _ := tx_set set_renamed in
  do! _ := on_store (or_unavailable (sync_all (directory t))) in
  do! marker := on_store (or_unavailable (create_new [recovery_marker t] PRIVATE_FILE)) in
  do! _ := tx_set (set_reserved true) in
  do! _ := on_store (or_unavailable (set_permissions marker PRIVATE_FILE)) in
  do! _ := on_store (or_unavailable (sync_all marker)) in
  on_store (or_unavailable (sync_all (directory t))).

(** Writes and synchronizes one member, and records it. *)
Definition write_member (file : name) (data : bytes) (st : TransactionState.t) : tx_io () :=
  do! t := tx_get in
  let d := write_directory t in
  do! _ := on_store (write_new_blob [d; file] data) in
  do! _ := on_store (sync_directory [d]) in
  tx_set (set_state st).

Definition write_metadata (m : bytes) : tx_io () :=
  do! t := tx_get in
  if negb (bool_decide (state t = TransactionState.Empty)) || negb (recovery_reserved t)
  then lift (Err InvalidTransactionState) else
  do! _ := lift (validate_metadata m) in
  write_member IDENTITY_METADATA_FILE m TransactionState.MetadataDurable.

Definition write_user (u : bytes) : tx_io () :=
  do! t := tx_get in
  if negb (bool_decide (state t ∈ [TransactionState.Empty; TransactionState.MetadataDurable]))
  then lift (Err InvalidTransactionState) else
  do! _ := lift (validate_blob u) in
  write_member USER_FILE u TransactionState.UserDurable.

Definition write_master (m : bytes) : tx_io () :=
  do! t := tx_get in
  if negb (bool_decide (state t = TransactionState.UserDurable))
  then lift (Err InvalidTransactionState) else
  do! _ := lift (validate_blob m) in
  write_member MASTER_FILE m TransactionState.PairDurable.

(** The closure of [promote_inner]; [before_marker] is what its argument returns. *)
Definition promote_body (before_marker : res CatacombStoreError ()) : tx_io () :=
  do! t := tx_get in
  do! _ := (if generation_renamed t then ret () else
            do! _ := on_store (or_unavailable (rename (stage t) (generation t))) in
            do! _ := tx_set set_renamed in
            on_store (or_unavailable (sync_all (directory t)))) in
  do! _ := lift before_marker in
  do! _ := on_store (write_marker [marker_temporary t] (generation t)) in
  do! _ := on_store (or_unavailable (rename (marker_temporary t) ACTIVE_MARKER)) in
  do! _ := tx_set set_replaced in
  do! _ := on_store (mapM_err (fun _ => PromotionDurabilityUnknown) (sync_all (directory t))) in
  if recovery_reserved t then
    do! _ := on_store (remove_private_file [recovery_marker t]) in
    do! _ := on_store (or_unavailable (sync_all (directory t))) in
    tx_set (set_reserved false)
  else ret ().

Definition promote_checked (before_marker : res CatacombStoreError ()) (preserve_on_failure : bool)
    : tx_io () :=
  do! t := tx_get in
  if negb (bool_decide (state t = TransactionState.PairDurable)) ||
     preserve_on_failure && negb (recovery_reserved t)
  then lift (Err InvalidTransactionState) else promote_body before_marker.

(** [Drop for CatacombPairTransaction]. *)
Definition drop_transaction (w : world) (t : Transaction) : world :=
  let (_, w) := remove_private_file [marker_temporary t] w in
  if recovery_reserved t then w else
  let (_, w) := remove_private_generation [stage t] w in
  if marker_replaced t then w else
  let (_, w) := remove_private_generation [generation t] w in w.

(** Runs methods of a transaction that is dropped afterwards. *)
Definition consume {A} (m : tx_io A) (t : Transaction) : store_io A := fun w =>
  match m (w, t) with (r, (w, t)) => (r, drop_transaction w t) end.

(** [promote_inner], [promote] and [promote_after_native_finish], which consume it. *)
Definition promote_inner (before_marker : res CatacombStoreError ()) (preserve_on_failure : bool)
    : Transaction -> store_io () :=
  consume (promote_checked before_marker preserve_on_failure).
Definition promote : Transaction -> store_io () := promote_inner (Ok ()) false.
Definition promote_after_native_finish : Transaction -> store_io () := promote_inner (Ok ()) true.

Definition commit_inner (u m : bytes) (before_promotion : res CatacombStoreError ()) : store_io () :=
  do! _ := lift (validate_blob u) in
  do! _ := lift (validate_blob m) in
  do! t := begin_transaction in
  consume (do! _ := write_user u in
           do! _ := write_master m in
           promote_checked before_promotion false) t.
Definition commit (u m : bytes) : store_io () := commit_inner u m (Ok ()).

(** ** Recovery *)

(** [read_active_generation], with a missing marker as none. *)
Definition read_active : store_io (option name) := fun w =>
  match read_active_generation w with
  | (Ok g, w) => (Ok (Some g), w)
  | (Err MissingPair, w) => (Ok None, w)
  | (Err e, w) => (Err e, w)
  | (Panic, w) => (Panic, w)
  end.

(** The loop of [recover]. *)
Fixpoint remove_abandoned (active : option name) (tokens : list bytes) (names : list name)
    : store_io () :=
  match names with
  | [] => ret ()
  | n :: names =>
      do! n := into_string n in
      do! _ :=
        (if bool_decide (n = ACTIVE_MARKER) || bool_decide (active = Some n) then ret ()
         else match (if is_stage_name n then strip_prefix STAGE n else None) with
         | Some token =>
             if bool_decide (token ∈ tokens) then ret () else remove_private_generation [n]
         | None =>
             match (if is_generation_name n then strip_prefix PAIR n else None) with
             | Some token =>
                 if bool_decide (token ∈ tokens) then ret () else remove_private_generation [n]
             | None =>
                 if is_marker_temporary_name n then remove_private_file [n] else ret ()
             end
         end) in
      remove_abandoned active tokens names
  end.

Definition recover : store_io () :=
  do! directory := open_existing_directory in
  do! _ := or_unavailable (sync_all directory) in
  do! active := read_active in
  do! _ := match active with Some _ => do! _ := load in ret () | None => ret () end in
  do! names := or_unavailable (read_dir []) in
  do! names := collect_entries names in
  do! tokens := recovery_tokens in
  do! _ := remove_abandoned active tokens (sort_bytes names) in
  or_unavailable (sync_all directory).
(** [recover_with_validator]. The validator passes the state of its caller. *)
Section Validation.
Context {V E : Type} (validator : CatacombPair -> M V E bool).

Abbreviation recovery_io A := (M (world * V) (CatacombRecoveryError E) A).

Definition from_store {A} (m : store_io A) : recovery_io A := fun '(w, v) =>
  let (r, w) := m w in (map_err Store r, (w, v)).
Definition from_validator {A} (m : M V E A) : recovery_io A := fun '(w, v) =>
  let (r, v) := m v in (map_err Validator r, (w, v)).

(** [fs::symlink_metadata(p).is_ok()]. *)
Definition present (p : path) : store_io bool := fun w =>
  match symlink_metadata p w with (Ok _, w) => (Ok true, w) | (_, w) => (Ok false, w) end.

(** The errors of [recovery_tokens] and [read_pair] that quarantine. *)
Definition quarantine {A} (bad : CatacombStoreError -> bool) (m : store_io A) : store_io (option A) :=
  fun w => match m w with
           | (Ok a, w) => (Ok (Some a), w)
           | (Err e, w) => if bad e then (Ok None, w) else (Err e, w)
           | (Panic, w) => (Panic, w)
           end.
Definition bad_tokens (e : CatacombStoreError) : bool :=
  match e with UnsafeStorage | IncompletePair => true | _ => false end.
Definition bad_pair (e : CatacombStoreError) : bool :=
  match e with
  | IncompletePair | InvalidBlob | InvalidMetadata | UnsafeStorage => true
  | _ => false
  end.

(** The marker replacement; a failed rename removes the temporary file. *)
Definition replace_marker (temporary : name) : store_io () := fun w =>
  match rename temporary ACTIVE_MARKER w with
  | (Ok _, w) => (Ok (), w)
  | (_, w) => let (_, w) := remove_private_file [temporary] w in (Err StorageUnavailable, w)
  end.

Definition select_generation (directory : ino) (token : bytes) : store_io () :=
  let generation_name := PAIR ++ token in
  do! active := read_active in
  if bool_decide (active = Some generation_name) then ret () else
  let temporary := ACTIVE ++ token ++ TMP in
  do! _ := remove_private_file [temporary] in
  do! _ := write_marker [temporary] generation_name in
  do! _ := replace_marker temporary in
  mapM_err (fun _ => PromotionDurabilityUnknown) (sync_all directory).

(** The one reserved generation, once it is known which. *)
Definition recover_token (directory : ino) (token : bytes) : recovery_io RecoveryOutcome.t :=
  do! stage_exists := from_store (present [STAGE ++ token]) in
  do! generation_exists := from_store (present [PAIR ++ token]) in
  if stage_exists || negb generation_exists then ret RecoveryOutcome.Quarantined else
  do! found := from_store (quarantine bad_pair (read_pair [PAIR ++ token])) in
  match found with
  | None => ret RecoveryOutcome.Quarantined
  | Some found =>
      do! accepted := from_validator (validator found) in
      if negb accepted then ret RecoveryOutcome.Quarantined else
      do! _ := from_store (select_generation directory token) in
      do! _ := from_store (remove_private_file [RECOVERY ++ token]) in
      do! _ := from_store (or_unavailable (sync_all directory)) in
      ret RecoveryOutcome.Promoted
  end.

Definition recover_with_validator : recovery_io RecoveryOutcome.t := fun '(w, v) =>
  match open_existing_directory w with
  | (Ok directory, w) =>
      (do! _ := from_store (or_unavailable (sync_all directory)) in
       do! tokens := from_store (quarantine bad_tokens recovery_tokens) in
       match tokens with
       | None => ret RecoveryOutcome.Quarantined
       | Some [] => ret RecoveryOutcome.Clean
       | Some [token] => recover_token directory token
       | Some _ => ret RecoveryOutcome.Quarantined
       end) (w, v)
  | (Err MissingPair, w) => (Ok RecoveryOutcome.Clean, (w, v))
  | (Err e, w) => (Err (Store e), (w, v))
  | (Panic, w) => (Panic, (w, v))
  end.
End Validation.

(** [legacy_recovery.rs]. *)
Module LegacyRecovery.

Inductive Reservation : Type := Created | Existing.
Inductive Error : Type := Refused | StoreE (e : CatacombStoreError).
Inductive GenerationKind : Type := Labeled | Legacy.
Record Generation : Type := mkGeneration { gname : name; kind : GenerationKind }.

Abbreviation legacy_io A := (M world Error A).
Definition from_store {A} (m : store_io A) : legacy_io A := mapM_err StoreE m.

Definition recovery_name (g : name) : name := RECOVERY ++ default [] (strip_prefix PAIR g).
Definition generation_name (token : bytes) : name := PAIR ++ token.

Definition create_reservation (directory : ino) (p : path) : legacy_io () :=
  do! marker := from_store (or_unavailable (create_new p PRIVATE_FILE)) in
  do! m := from_store (or_unavailable (metadata marker)) in
  do! _ := from_store (validate_private_file_metadata m) in
  do! _ := from_store (or_unavailable (sync_all marker)) in
  from_store (or_unavailable (sync_all directory)).

(** The names of the generations. *)
Fixpoint generation_names (names : list name) : legacy_io (list name) :=
  match names with
  | [] => ret []
  | n :: names =>
      do! n := from_store (or_unavailable (entry n)) in
      do! n := from_store (into_string n) in
      if bool_decide (n = ACTIVE_MARKER) || starts_with RECOVERY n then generation_names names
      else if starts_with PAIR n then
        if negb (is_generation_name n) then lift (Err Refused) else
        do! names := generation_names names in ret (n :: names)
      else if starts_with STAGE n || starts_with ACTIVE n || is_stage_name n ||
              is_marker_temporary_name n
      then lift (Err Refused) else generation_names names
  end.

Definition classify (n : name) : legacy_io Generation :=
  do! found := from_store (read_pair [n]) in
  match pair_metadata found with
  | None => ret (mkGeneration n Legacy)
  | Some encoded =>
      do! m := lift (map_err (fun _ => StoreE InvalidMetadata) (Metadata.decode encoded)) in
      if existsb (fun e => is_some_and (Metadata.finger e) (fun _ => true)) (Metadata.identities m)
      then ret (mkGeneration n Labeled) else lift (Err Refused)
  end.

Fixpoint classify_all (names : list name) : legacy_io (list Generation) :=
  match names with
  | [] => ret []
  | n :: names =>
      do! g := classify n in
      do! gs := classify_all names in
      ret (g :: gs)
  end.

Definition legacy_recovery_generations (active : name) : legacy_io (list Generation) :=
  do! names := from_store (or_unavailable (read_dir [])) in
  do! names := generation_names names in
  let names := sort_bytes names in
  if negb (bool_decide (active ∈ names)) then lift (Err Refused) else classify_all names.

Definition reserve_unique_inactive_legacy_recovery : legacy_io Reservation :=
  do! directory := from_store open_existing_directory in
  do! _ := from_store (or_unavailable (sync_all directory)) in
  do! active := from_store read_active_generation in
  do! generations := legacy_recovery_generations active in
  do! roles :=
    match generations with
    | [first; second] =>
        match kind first, kind second with
        | Labeled, Legacy => ret (first, second)
        | Legacy, Labeled => ret (second, first)
        | _, _ => lift (Err Refused)
        end
    | _ => lift (Err Refused)
    end in
  let (labeled, legacy) := roles : Generation * Generation in
  do! tokens := from_store recovery_tokens in
  match tokens with
  | [] =>
      if bool_decide (active = gname labeled) then
        do! _ := create_reservation directory [recovery_name (gname legacy)] in
        ret Created
      else lift (Err Refused)
  | [token] =>
      if bool_decide (generation_name token = gname legacy) &&
         (bool_decide (active = gname labeled) || bool_decide (active = gname legacy))
      then ret Existing else lift (Err Refused)
  | _ => lift (Err Refused)
  end.
End LegacyRecovery.
End CatacombStore.
