(* ===== verification/CatacombSafety.v ===== *)
(** * What a stop of the machine leaves of the store

    The commit protocol of [catacomb_store.rs] against the files of [FileSystem]. Every
    state of the files that a transaction passes through, with any calls failing, is such
    that after a stop [load] finds the old generation or the complete new one. *)

From S2P Require Import Prelude Effects Text Biometric IdentityCatalog FileSystem CatacombStore.

Import FileSystem CatacombStore.

Module CatacombSafety.

(** ** Runs with an invariant on every state of the files *)

Section Runs.
Context (u : Z) (H : FS -> Prop).

(** What the system answers about the process. *)
Definition process (w : world) : Prop :=
  euid w = u /\ exists status, proc_status w = Some status /\ status_uid status = Ok u.

(** From [P], the run keeps [H] in every state of the files and ends in [Q]. *)
Definition run {E A} (P : FS -> Prop) (m : M world E A) (Q : res E A -> FS -> Prop) : Prop :=
  forall w, process w -> Forall H (history w) -> P (fs w) ->
  exists r w', m w = (r, w') /\ process w' /\ Forall H (history w') /\ Q r (fs w').

Context {E A B : Type}.
Implicit Types (P : FS -> Prop).

Lemma run_ret P (a : A) (Q : res E A -> FS -> Prop) :
  (forall s, P s -> Q (Ok a) s) -> run P (ret a) Q.
Proof. intros HQ w Hp Hh HP. exists (Ok a), w. by split_and!; auto. Qed.

Lemma run_lift P (r : res E A) (Q : res E A -> FS -> Prop) :
  (forall s, P s -> Q r s) -> run P (lift r) Q.
Proof. intros HQ w Hp Hh HP. exists r, w. by split_and!; auto. Qed.

Lemma run_bind P (m : M world E A) (k : A -> M world E B) R (Q : res E B -> FS -> Prop) :
  run P m R -> (forall a, run (R (Ok a)) (k a) Q) ->
  (forall e s, R (Err e) s -> Q (Err e) s) -> (forall s, ~ R Panic s) -> run P (bind m k) Q.
Proof.
  intros Hm Hk He Hn w Hp Hh HP. destruct (Hm w Hp Hh HP) as (r & w' & Hr & Hp' & Hh' & HR).
  unfold bind. rewrite Hr. destruct r as [a|e|].
  - destruct (Hk a w' Hp' Hh' HR) as (r2 & w2 & ? & ? & ? & ?). eauto 10.
  - exists (Err e), w'. by split_and!; auto.
  - by destruct (Hn _ HR).
Qed.

Lemma run_map_err {F} P (m : M world E A) (f : E -> F) R (Q : res F A -> FS -> Prop) :
  run P m R -> (forall r s, R r s -> Q (map_err f r) s) -> run P (mapM_err f m) Q.
Proof.
  intros Hm HQ w Hp Hh HP. destruct (Hm w Hp Hh HP) as (r & w' & Hr & ? & ? & HR).
  unfold mapM_err. rewrite Hr. eauto 10.
Qed.

Lemma run_weaken P P' (m : M world E A) (Q Q' : res E A -> FS -> Prop) :
  run P' m Q' -> (forall s, P s -> P' s) -> (forall r s, Q' r s -> Q r s) -> run P m Q.
Proof.
  intros Hm HP HQ w Hp Hh Hs. destruct (Hm w Hp Hh (HP _ Hs)) as (r & w' & ? & ? & ? & ?).
  exists r, w'. by split_and!; auto.
Qed.

Lemma run_sys P (op : FS -> res IoError A * FS) (Q : res IoError A -> FS -> Prop) :
  (forall s, P s -> H (snd (op s)) /\ Q (fst (op s)) (snd (op s))) ->
  (forall s, P s -> H s /\ Q (Err OtherError) s) -> run P (sys op) Q.
Proof.
  intros Ho Hf w Hp Hh HP. unfold sys. destruct (Ho _ HP) as [HH HQ]. destruct (Hf _ HP) as [HH' HQ'].
  destruct (op (fs w)) as [r s] eqn:Hop. cbn in HH, HQ.
  destruct (faults w) as [|[n|] rest]; eexists _, _; split; try reflexivity;
    (split; [exact Hp|split; [by constructor|done]]).
Qed.
End Runs.

(** ** Code that only reads *)

Section Reads.
Context (u : Z) (H : FS -> Prop).

(** Leaves the files alone, whatever is known of them, and returns what [R] says. *)
Definition reads {E A} (m : M world E A) (R : res E A -> FS -> Prop) : Prop :=
  forall P, (forall s, P s -> H s) -> run u H P m (fun r s => P s /\ r <> Panic /\ R r s).

Definition only_reads {E A} (m : M world E A) : Prop := reads m (fun _ _ => True).

Lemma reads_ret {E A} (a : A) : only_reads (E := E) (ret a).
Proof. intros P HP. apply run_ret. done. Qed.

Lemma reads_ret_eq {E A} (a : A) (R : res E A -> FS -> Prop) :
  (forall s, R (Ok a) s) -> reads (ret a) R.
Proof. intros HR P HP. apply run_ret. done. Qed.

Lemma reads_pure {E A} (r : res E A) : r <> Panic -> only_reads (lift r).
Proof. intros Hr P HP. apply run_lift. done. Qed.

Lemma reads_seq {E A B} (m : M world E A) (k : A -> M world E B) R1 (R : res E B -> FS -> Prop) :
  reads m R1 -> (forall a, reads (k a) (fun r s => R1 (Ok a) s -> R r s)) ->
  (forall e s, R1 (Err e) s -> R (Err e) s) -> reads (bind m k) R.
Proof.
  intros Hm Hk He P HP. eapply run_bind.
  - apply (Hm P HP).
  - intros a. eapply run_weaken; [apply (Hk a (fun s => P s /\ R1 (Ok a) s))| |].
    + intros s [? _]. auto.
    + intros s (? & _ & ?). done.
    + intros r s ((? & ?) & ? & ?). auto.
  - intros e s (? & _ & ?). auto.
  - intros s (_ & ? & _). done.
Qed.

Lemma reads_weaken {E A} (m : M world E A) (R R' : res E A -> FS -> Prop) :
  reads m R -> (forall r s, R r s -> R' r s) -> reads m R'.
Proof.
  intros Hm HR P HP. eapply run_weaken; [apply (Hm P HP)|done|]. intros r s (? & ? & ?). auto.
Qed.

Lemma only_reads_bind {E A B} (m : M world E A) (k : A -> M world E B) :
  only_reads m -> (forall a, only_reads (k a)) -> only_reads (bind m k).
Proof. intros Hm Hk. eapply reads_seq; [apply Hm| |done]. intros a.
  eapply reads_weaken; [apply Hk|done].
Qed.

Lemma reads_map_err {E F A} (m : M world E A) (f : E -> F) (R : res E A -> FS -> Prop) :
  reads m R -> reads (mapM_err f m) (fun r s => exists r', R r' s /\ r = map_err f r').
Proof.
  intros Hm P HP. eapply run_map_err; [apply (Hm P HP)|]. intros r s (? & ? & ?).
  split_and!; [done|by destruct r|eauto].
Qed.

Lemma only_reads_map_err {E F A} (m : M world E A) (f : E -> F) :
  only_reads m -> only_reads (mapM_err f m).
Proof. intros Hm. eapply reads_weaken; [apply reads_map_err, Hm|done]. Qed.

Lemma reads_sys {A} (f : FS -> res IoError A) (R : res IoError A -> FS -> Prop) :
  (forall s, f s <> Panic /\ R (f s) s) -> (forall s, R (Err OtherError) s) ->
  reads (sys (fun s => (f s, s))) R.
Proof.
  intros Hf He P HP. apply run_sys; intros s Hs; (split; [auto|]); cbn; split_and!; try done; apply Hf.
Qed.
End Reads.

Create HintDb reads.
#[export] Hint Resolve reads_ret reads_pure only_reads_bind only_reads_map_err : reads.

Section Primitives.
Context (u : Z) (H : FS -> Prop).

Lemma walk_np s i p : walk s i p <> Panic.
Proof. revert i. induction p as [|c p IH]; intros i; cbn; [done|]. repeat case_match; auto; done. Qed.

Lemma resolve_np s p : resolve s p <> Panic.
Proof. unfold resolve. case_match; [apply walk_np|done]. Qed.

Lemma reads_open d p :
  reads u H (open_read d p) (fun r s => forall i, r = Ok i -> resolve s p = Ok i).
Proof.
  apply (reads_sys u H); [|done]. intros s. pose proof (resolve_np s p).
  destruct (resolve s p) as [i|e|]; [|done|done]. split; [by repeat case_match|].
  intros j. repeat case_match; intros; by simplify_eq.
Qed.

Lemma stat_np s i : stat s i <> Panic.
Proof. unfold stat. by repeat case_match. Qed.

Lemma reads_metadata i : only_reads u H (metadata i).
Proof. apply (reads_sys u H); [|done]. intros s. split; [apply stat_np|done]. Qed.

Lemma reads_symlink_metadata p : only_reads u H (symlink_metadata p).
Proof.
  apply (reads_sys u H); [|done]. intros s. split; [|done].
  pose proof (resolve_np s p). destruct (resolve s p); try done. apply stat_np.
Qed.

Lemma reads_read_exact i n : only_reads u H (read_exact i n).
Proof. apply (reads_sys u H); [|done]. intros s. split; [|done]. unfold content. by repeat case_match. Qed.

Lemma reads_read_one i n : only_reads u H (read_one i n).
Proof. apply (reads_sys u H); [|done]. intros s. split; [|done]. unfold content. by repeat case_match. Qed.

Lemma reads_read_dir p : only_reads u H (read_dir p).
Proof.
  apply (reads_sys u H); [|done]. intros s. split; [|done].
  pose proof (resolve_np s p). destruct (resolve s p); try done. by repeat case_match.
Qed.

Lemma reads_entry n : only_reads u H (entry n).
Proof. by apply (reads_sys u H). Qed.

Lemma status_uid_np b : status_uid b <> Panic.
Proof. unfold status_uid, ok_or. by repeat case_match. Qed.

Lemma reads_effective_uid : reads u H effective_uid (fun r _ => forall i, r = Ok i -> i = u).
Proof.
  intros P HP w Hp Hh Hs. unfold effective_uid.
  pose proof Hp as (_ & status & Hst & Hu).
  destruct (reads_sys u H (fun s => ok_or (proc_status w) OtherError)
              (fun r _ => forall x, r = Ok x -> x = status)) with (w := w) (P := P)
    as (r & w' & Hr & ? & ? & ? & ? & HR); try done.
  { intros s. rewrite Hst. cbn. split; [done|]. intros x Hx. by simplify_eq. }
  unfold bind, or_unavailable, mapM_err. rewrite Hr.
  destruct r as [x|e|]; cbn [map_err]; [|by eexists _, _; split; [reflexivity|]|done].
  rewrite (HR x eq_refl). unfold lift. rewrite Hu. eexists _, _. split; [reflexivity|].
  split_and!; try done. intros. by simplify_eq.
Qed.
End Primitives.

#[export] Hint Resolve reads_metadata reads_symlink_metadata reads_read_exact reads_read_one
  reads_read_dir reads_entry : reads.
(** Splits reading code into its calls. *)
Ltac reading :=
  repeat first
    [ solve [auto with reads]
    | apply only_reads_bind; [|intros ?]
    | apply only_reads_map_err
    | apply reads_pure; first [done | unfold ok_or; by repeat case_match]
    | case_match ].

Section StoreReads.
Context (u : Z) (H : FS -> Prop).

Lemma reads_uid : only_reads u H effective_uid.
Proof. eapply reads_weaken; [apply reads_effective_uid|done]. Qed.
Hint Resolve reads_uid : reads.

Lemma reads_open_any d p : only_reads u H (open_read d p).
Proof. eapply reads_weaken; [apply reads_open|done]. Qed.
Hint Resolve reads_open_any : reads.

Lemma reads_validate_file m : only_reads u H (validate_private_file_metadata m).
Proof.
  unfold validate_private_file_metadata. reading. apply reads_pure.
  unfold validate_file_identity. by case_match.
Qed.

Lemma reads_validate_directory m : only_reads u H (validate_directory_metadata m).
Proof. unfold validate_directory_metadata. reading. Qed.
Hint Resolve reads_validate_file reads_validate_directory : reads.

Lemma reads_checked p :
  reads u H (open_checked_directory p) (fun r s => forall i, r = Ok i -> resolve s p = Ok i).
Proof.
  unfold open_checked_directory. eapply reads_seq.
  - apply reads_map_err, reads_open.
  - intros d. eapply reads_seq.
    + apply only_reads_map_err, reads_metadata.
    + intros m. eapply reads_seq; [apply reads_validate_directory| |done]. intros x.
      apply reads_ret_eq. intros s ? ? (r & Hr & Hd) i Hi. destruct r; simplify_eq/=. auto.
    + done.
  - done.
Qed.

Lemma reads_existing :
  reads u H open_existing_directory (fun r s => forall i, r = Ok i -> resolve s [] = Ok i).
Proof.
  unfold open_existing_directory, open_or. eapply reads_seq.
  - apply reads_map_err, reads_open.
  - intros d. eapply reads_seq.
    + apply only_reads_map_err, reads_metadata.
    + intros m. eapply reads_seq; [apply reads_validate_directory| |done]. intros x.
      apply reads_ret_eq. intros s ? ? (r & Hr & Hd) i Hi. destruct r; simplify_eq/=. auto.
    + done.
  - done.
Qed.

Lemma reads_open_dirs p :
  only_reads u H (open_checked_directory p) /\ only_reads u H open_existing_directory.
Proof.
  split; (eapply reads_weaken; [first [apply reads_checked | apply reads_existing]|done]).
Qed.

Lemma reads_into_string n : only_reads u H (into_string n).
Proof. unfold into_string. reading. Qed.
Hint Resolve reads_into_string : reads.

Lemma reads_find_metadata p : only_reads u H (find_metadata p).
Proof.
  intros P HP w Hp Hh Hs. unfold find_metadata.
  destruct (reads_symlink_metadata u H p P HP w Hp Hh Hs) as (r & w' & -> & ? & ? & ? & ? & _).
  destruct r as [m|[]|]; eexists _, _; (split; [reflexivity|done]).
Qed.

Lemma reads_collect names : only_reads u H (collect_entries names).
Proof. induction names as [|n names IH]; cbn [collect_entries]; unfold or_unavailable; reading. Qed.

Lemma reads_no_recovery names : only_reads u H (no_recovery_entry names).
Proof. induction names as [|n names IH]; cbn [no_recovery_entry]; unfold or_unavailable; reading. Qed.
Hint Resolve reads_find_metadata reads_collect reads_no_recovery : reads.

Lemma reads_reject : only_reads u H reject_recovery_state.
Proof. unfold reject_recovery_state, or_unavailable. reading. Qed.

Lemma reads_active_generation : only_reads u H read_active_generation.
Proof. unfold read_active_generation, or_unavailable, open_or. reading. Qed.
Hint Resolve reads_reject reads_active_generation : reads.

Lemma reads_active : only_reads u H read_active.
Proof.
  intros P HP w Hp Hh Hs. unfold read_active.
  destruct (reads_active_generation P HP w Hp Hh Hs) as (r & w' & -> & ? & ? & ? & ? & _).
  destruct r as [m|[]|]; eexists _, _; (split; [reflexivity|done]).
Qed.

Lemma reads_blob p : only_reads u H (read_blob p).
Proof. unfold read_blob, or_unavailable, open_or. reading. Qed.

Lemma reads_open_metadata p : only_reads u H (open_metadata p).
Proof.
  intros P HP w Hp Hh Hs. unfold open_metadata.
  destruct (reads_open_any false p P HP w Hp Hh Hs) as (r & w' & -> & ? & ? & ? & ? & _).
  destruct r as [m|[]|]; eexists _, _; (split; [reflexivity|done]).
Qed.
Hint Resolve reads_open_metadata : reads.

Lemma reads_read_metadata p : only_reads u H (read_metadata p).
Proof. unfold read_metadata, or_unavailable. reading. Qed.
Hint Resolve reads_blob reads_read_metadata : reads.

Lemma reads_pair p : only_reads u H (read_pair p).
Proof. unfold read_pair. pose proof (reads_open_dirs p) as [? _]. reading. Qed.
Hint Resolve reads_pair : reads.

Lemma reads_load : only_reads u H load.
Proof. unfold load. pose proof (reads_open_dirs []) as [_ ?]. reading. Qed.

Lemma reads_collect_tokens names : only_reads u H (collect_tokens names).
Proof. induction names as [|n names IH]; cbn [collect_tokens]; unfold or_unavailable; reading. Qed.
Hint Resolve reads_collect_tokens : reads.

Lemma reads_tokens : only_reads u H recovery_tokens.
Proof. unfold recovery_tokens, or_unavailable. reading. Qed.
End StoreReads.

#[export] Hint Resolve reads_uid reads_open_any reads_validate_file reads_validate_directory
  reads_into_string reads_find_metadata reads_collect reads_reject reads_active reads_pair reads_load
  reads_tokens : reads.
(** ** What is known of the files

    [F] are nodes that will not change, [W] nodes the transaction owns, [K] the values some
    names of the store's directory can have in its unsynchronized versions, [N] the current
    values of some names. *)

Section Known.
Context (r : ino) (u : Z).

Definition private_file (m : Meta) : Prop :=
  Z.land (m_mode m) PERMISSIONS = PRIVATE_FILE /\ m_uid m = u /\ m_nlink m = 1.
Definition private_dir (m : Meta) : Prop :=
  Z.land (m_mode m) PERMISSIONS = PRIVATE_DIRECTORY /\ m_uid m = u.

Abbreviation nodeset := (gmap ino node).
Abbreviation constraints := (gmap name (list (option ino))).
Abbreviation entries := (gmap name (option ino)).

Definition within (K : constraints) (v : gmap name ino) : Prop :=
  forall n xs, K !! n = Some xs -> v !! n ∈ xs.

Record known (F W : nodeset) (K : constraints) (N : entries) (s : FS) : Prop := mkKnown {
  kn_root : root s = Some r;
  kn_clean : root_clean s = true;
  kn_dir : exists v vs m ms, nodes s !! r = Some (NDir m (v :: vs) ms) /\ Forall private_dir (m :: ms) /\
           Forall (within K) (v :: vs) /\ forall n x, N !! n = Some x -> v !! n = x;
  kn_F : F ⊆ nodes s;
  kn_W : W ⊆ nodes s;
  kn_disjoint : F ##ₘ W;
  kn_r : F !! r = None /\ W !! r = None;
  kn_next : forall i, (next s <= i)%positive -> nodes s !! i = None
}.

Lemma known_resolve F W K N s : known F W K N s -> resolve s [] = Ok r.
Proof. intros []. unfold resolve. by rewrite kn_root0. Qed.

Lemma known_entry F W K N s n x :
  known F W K N s -> N !! n = Some x ->
  resolve s [n] = match x with Some i => Ok i | None => Err NotFound end.
Proof.
  intros [Hr _ (v & vs & m & ms & Hd & _ & _ & HN) _ _ _ _ _] Hn. unfold resolve. rewrite Hr. cbn [walk].
  rewrite Hd. cbn [current]. by rewrite (HN _ _ Hn).
Qed.

(** Weaker knowledge. *)
Lemma known_weaken F W K N F' W' K' N' s :
  known F W K N s -> F' ⊆ F -> W' ⊆ W -> N' ⊆ N ->
  (forall n xs', K' !! n = Some xs' -> exists xs, K !! n = Some xs /\ xs ⊆ xs') ->
  known F' W' K' N' s.
Proof.
  intros [Hr Hc (v & vs & m & ms & Hd & Hpm & Hv & HN) HF HW Hdis [HrF HrW] Hnx] SF SW SN SK. split; try done.
  - exists v, vs, m, ms. split_and!; [done|done| |].
    + eapply Forall_impl; [apply Hv|]. intros v' Hw n xs' (xs & Hxs & Hsub)%SK.
      apply Hsub. by apply Hw.
    + intros n x Hx. apply HN. by eapply lookup_weaken.
  - by transitivity F.
  - by transitivity W.
  - by eapply map_disjoint_weaken.
  - split; [by apply (lookup_weaken_None F' F)|by apply (lookup_weaken_None W' W)].
Qed.

(** Nodes that will not change any more. *)
Lemma known_freeze F W1 W2 K N s :
  known F (W1 ∪ W2) K N s -> W1 ##ₘ W2 -> known (F ∪ W1) W2 K N s.
Proof.
  intros [Hr Hc Hd HF HW Hdis [HrF HrW] Hnx] H12.
  apply map_disjoint_union_r in Hdis as [D1 D2]. apply lookup_union_None in HrW as [HrW1 HrW2].
  split; try done.
  - apply map_union_least; [done|]. transitivity (W1 ∪ W2); [apply map_union_subseteq_l|done].
  - transitivity (W1 ∪ W2); [by apply map_union_subseteq_r|done].
  - apply map_disjoint_union_l. done.
  - split; [|done]. by apply lookup_union_None.
Qed.

(** ** The effects of the calls *)

Lemma known_set_node F W K N s i n n0 :
  known F W K N s -> W !! i = Some n0 -> known F (<[i := n]> W) K N (set_node s i n).
Proof.
  intros [Hr Hc (v & vs & m & ms & Hd & Hpm & Hv & HN) HF HW Hdis [HrF HrW] Hnx] Hi.
  assert (i <> r) as Hne by congruence.
  assert (F !! i = None) as HFi by (by eapply map_disjoint_Some_r).
  split; cbn; try done.
  - exists v, vs, m, ms. by rewrite lookup_insert_ne by congruence.
  - by apply insert_subseteq_r.
  - by apply insert_mono.
  - by apply map_disjoint_insert_r.
  - split; [done|]. by rewrite lookup_insert_ne.
  - intros j Hj. rewrite lookup_insert_ne; [by apply Hnx|]. intros ->.
    assert (nodes s !! j = Some n0) as Hx by (by eapply lookup_weaken).
    rewrite Hnx in Hx by done. done.
Qed.

(** A new version of a directory the transaction owns. *)
Lemma known_set_entries F W K N s d m vs mc f :
  known F W K N s -> W !! d = Some (NDir m vs mc) ->
  known F (<[d := NDir m (f (current vs) :: vs) mc]> W) K N (set_entries s d f).
Proof.
  intros Hk Hd. unfold set_entries.
  rewrite (lookup_weaken _ _ _ _ Hd (kn_W _ _ _ _ _ Hk)). by eapply known_set_node.
Qed.

(** A new version of the store's directory. *)
Lemma known_set_root F W K N s f N' :
  known F W K N s -> (forall v, within K v -> within K (f v)) ->
  (forall v n x, (forall n x, N !! n = Some x -> v !! n = x) -> N' !! n = Some x -> f v !! n = x) ->
  known F W K N' (set_entries s r f).
Proof.
  intros [Hr Hc (v & vs & m & ms & Hd & Hpm & Hv & HN) HF HW Hdis [HrF HrW] Hnx] Hf HN'. unfold set_entries.
  rewrite Hd. split; cbn; try done.
  - exists (f v), (v :: vs), m, ms. rewrite lookup_insert_eq. split_and!; [done|done| |by eauto].
    constructor; [|done]. apply Hf. by inversion Hv.
  - by apply insert_subseteq_r.
  - by apply insert_subseteq_r.
  - intros j Hj. rewrite lookup_insert_ne; [by apply Hnx|]. intros ->. by rewrite Hnx in Hd.
Qed.

Lemma known_add_node F W K N s n :
  known F W K N s ->
  known F (<[next s := n]> W) K N (add_node s n) /\ F !! next s = None /\ W !! next s = None /\
  next s <> r.
Proof.
  intros [Hr Hc (v & vs & m & ms & Hd & Hpm & Hv & HN) HF HW Hdis [HrF HrW] Hnx].
  assert (nodes s !! next s = None) as H0 by (apply Hnx; lia).
  assert (F !! next s = None /\ W !! next s = None) as [H1 H2]
    by (split; by apply (lookup_weaken_None _ (nodes s))).
  assert (next s <> r) as Hne by congruence.
  split_and!; try done. split; cbn; try done.
  - exists v, vs, m, ms. by rewrite lookup_insert_ne by congruence.
  - by apply insert_subseteq_r.
  - by apply insert_mono.
  - by apply map_disjoint_insert_r.
  - split; [done|]. by rewrite lookup_insert_ne.
  - intros j Hj. rewrite lookup_insert_ne by lia. apply Hnx. lia.
Qed.

(** Synchronizing the store's directory: the current entries are the only ones. *)
Lemma known_sync_root F W K K' N s :
  known F W K N s ->
  (forall n xs', K' !! n = Some xs' ->
     (exists x, N !! n = Some x /\ x ∈ xs') \/ exists xs, K !! n = Some xs /\ xs ⊆ xs') ->
  exists v vs m ms, nodes s !! r = Some (NDir m (v :: vs) ms) /\
  known F W K' N (set_node s r (NDir m [v] [])).
Proof.
  intros [Hr Hc (v & vs & m & ms & Hd & Hpm & Hv & HN) HF HW Hdis [HrF HrW] Hnx] HK'. exists v, vs, m, ms. split; [done|].
  split; cbn; try done.
  - exists v, [], m, []. rewrite lookup_insert_eq. split_and!; [done| | |done].
    { inversion Hpm; subst. constructor; [done|constructor]. }
    constructor; [|constructor].
    intros n xs' [(x & Hx & Hin)|(xs & Hxs & Hin)]%HK'.
    + by rewrite (HN n x Hx).
    + apply Hin. inversion Hv as [|? ? Hw]; subst. by apply Hw.
  - by apply insert_subseteq_r.
  - by apply insert_subseteq_r.
  - intros j Hj. rewrite lookup_insert_ne; [by apply Hnx|]. intros ->. by rewrite Hnx in Hd.
Qed.
End Known.
(** ** Rules for the calls *)

Section Rules.
Context (u : Z) (H : FS -> Prop) (r : ino).

(** On success, and on failure. *)
Definition post {E A} (good : A -> FS -> Prop) (bad : FS -> Prop) (x : res E A) (s : FS) : Prop :=
  match x with Ok a => good a s | Err _ => bad s | Panic => False end.

Lemma run_seq {E A B} P (m : M world E A) (k : A -> M world E B) R Q B1 B2 :
  run u H P m (post R B1) -> (forall a, run u H (R a) (k a) (post Q B2)) ->
  (forall s, B1 s -> B2 s) -> run u H P (bind m k) (post Q B2).
Proof. intros Hm Hk HB. eapply run_bind; [apply Hm|apply Hk|by auto|by intros s Hs]. Qed.

Lemma run_err {E F A} P (m : M world E A) (f : E -> F) Q B :
  run u H P m (post Q B) -> run u H P (mapM_err f m) (post Q B).
Proof. intros Hm. eapply run_map_err; [apply Hm|]. by intros [] s. Qed.

Lemma run_reads {E A} P (m : M world E A) R :
  reads u H m R -> (forall s, P s -> H s) ->
  run u H P m (post (fun a s => P s /\ R (Ok a) s) P).
Proof.
  intros Hm HP. eapply run_weaken; [apply (Hm P HP)|done|]. intros x s (? & Hx & ?). by destruct x.
Qed.

Lemma run_post {E A} P (m : M world E A) (Q Q' : A -> FS -> Prop) (B B' : FS -> Prop) :
  run u H P m (post Q B) -> (forall a s, Q a s -> Q' a s) -> (forall s, B s -> B' s) ->
  run u H P m (post Q' B').
Proof. intros Hm HQ HB. eapply run_weaken; [apply Hm|done|]. intros [] s; cbn; auto. Qed.

Lemma run_ex {E A X} (P : X -> FS -> Prop) (m : M world E A) Q :
  (forall x, run u H (P x) m Q) -> run u H (fun s => exists x, P x s) m Q.
Proof. intros Hm w Hp Hh [x Hx]. by apply (Hm x). Qed.

Lemma run_pure {E A} (phi : Prop) P (m : M world E A) Q :
  (phi -> run u H P m Q) -> run u H (fun s => phi /\ P s) m Q.
Proof. intros Hm w Hp Hh [Hphi HP]. by apply Hm. Qed.

Lemma run_at {E A} P (m : world -> M world E A) Q :
  (forall w, process u w -> run u H P (m w) Q) -> run u H P (fun w => m w w) Q.
Proof. intros Hm w Hp Hh HP. by apply (Hm w Hp). Qed.

Context (F : gmap ino node) (K : gmap name (list (option ino))).
Context (HF : forall W N s, known r u F W K N s -> H s).
Abbreviation st W N := (known r u F W K N).

(** A call that either does [op] or leaves the files alone. *)
Lemma run_call {A} W N (op : FS -> res IoError A * FS) (Q : A -> FS -> Prop) :
  (forall s, st W N s ->
     match op s with
     | (Ok a, s') => H s' /\ Q a s'
     | (Err _, s') => s' = s
     | (Panic, _) => False
     end) ->
  run u H (st W N) (sys op) (post Q (st W N)).
Proof.
  intros Ho. apply run_sys; intros s Hs; [|split; [by eapply HF|done]].
  specialize (Ho s Hs). destruct (op s) as [[a|e|] s']; cbn; [done| |done]. subst. split; [by eapply HF|done].
Qed.

Lemma within_other n v f :
  K !! n = None -> (forall n', n' <> n -> f v !! n' = v !! n') -> within K v -> within K (f v).
Proof. intros Hn Hf Hv n' xs Hx. rewrite Hf by congruence. by apply Hv. Qed.

(** Permissions of the store's directory. *)
Lemma chmod_root W N s :
  st W N s -> exists s', chmod s r PRIVATE_DIRECTORY = (Ok (), s') /\ st W N s'.
Proof.
  intros Hs. unfold chmod.
  pose proof Hs as [Hr Hc (v & vs & m & ms & Hd & Hpm & Hv & HN) HF' HW Hdis [HrF HrW] Hnx].
  rewrite Hd. cbn [chmod_node]. eexists. split; [reflexivity|]. split; cbn; try done.
  - exists v, vs, (mkMeta PRIVATE_DIRECTORY (m_uid m) (m_nlink m)), (m :: ms). rewrite lookup_insert_eq.
    split_and!; try done. constructor; [|done]. inversion Hpm as [|? ? [_ Hu] ?]; subst. by split.
  - by apply insert_subseteq_r.
  - by apply insert_subseteq_r.
  - intros j Hj. rewrite lookup_insert_ne; [by apply Hnx|]. intros ->. by rewrite Hnx in Hd.
Qed.

Lemma run_chmod_dir W N :
  run u H (st W N) (set_permissions r PRIVATE_DIRECTORY) (post (fun _ => st W N) (st W N)).
Proof.
  apply run_call. intros s Hs. destruct (chmod_root W N s Hs) as (s' & -> & Hs'). split; [by eapply HF|done].
Qed.

Lemma run_chmod_root W N :
  run u H (st W N) (set_permissions_at [] PRIVATE_DIRECTORY) (post (fun _ => st W N) (st W N)).
Proof.
  apply run_call. intros s Hs. rewrite (known_resolve _ _ _ _ _ _ _ Hs).
  destruct (chmod_root W N s Hs) as (s' & -> & Hs'). split; [by eapply HF|done].
Qed.

Lemma run_mkdir_root W N m : run u H (st W N) (mkdir_root m) (post (fun _ => st W N) (st W N)).
Proof.
  apply (run_at _ (fun w => sys (fun s => match root s with
                | Some _ => (Ok (), s)
                | None =>
                    let n := NDir (mkMeta (masked w m) (euid w) 2) [∅] [] in
                    let s' := add_node s n in
                    (Ok (), mkFS (nodes s') (Some (next s)) false (next s'))
                end))).
  intros w _. apply run_call. intros s Hs. rewrite (kn_root _ _ _ _ _ _ _ Hs). split; [by eapply HF|done].
Qed.

(** [prepare_directory], when the directory exists. *)
Lemma run_prepare W N :
  run u H (st W N) prepare_directory (post (fun d s => d = r /\ st W N s) (st W N)).
Proof.
  assert (run u H (st W N) open_existing_directory (post (fun d s => d = r /\ st W N s) (st W N))) as Ho.
  { eapply run_weaken; [eapply run_reads; [apply reads_existing|apply HF]|done|].
    intros [d|e|] s; cbn; [|done|done]. intros [Hs Hd]. split; [|done].
    specialize (Hd d eq_refl). rewrite (known_resolve _ _ _ _ _ _ _ Hs) in Hd. congruence. }
  intros w Hp Hh Hs. unfold prepare_directory, exists_root.
  destruct (reads_sys u H (fun s => resolve s []) (fun _ _ => True)) with (P := st W N) (w := w)
    as (x & w1 & -> & Hp1 & Hh1 & Hs1 & _); try done.
  { intros s. split; [apply resolve_np|done]. } { apply HF. }
  assert (run u H (st W N) (do! _ := (do! _ := or_unavailable (mkdir_root PRIVATE_DIRECTORY) in
      or_unavailable (set_permissions_at [] PRIVATE_DIRECTORY)) in open_existing_directory)
      (post (fun d s => d = r /\ st W N s) (st W N))) as Hm.
  { eapply run_seq with (R := fun _ => st W N) (B1 := st W N); [|intros []; exact Ho|done].
    eapply run_seq; [apply run_err, run_mkdir_root| |done]. intros []. apply run_err, run_chmod_root. }
  destruct x as [i|e|].
  - unfold bind at 1. cbn. by apply Ho.
  - by apply Hm.
  - by apply Hm.
Qed.

(** A new node in the store's directory. *)
Lemma create_in_root W N n nd s :
  K !! n = None -> st W N s ->
  match create [n] nd s with
  | (Ok i, s') => W !! i = None /\ F !! i = None /\ i <> r /\
                  st (<[i := nd]> W) (<[n := Some i]> N) s'
  | (Err _, s') => s' = s
  | (Panic, _) => False
  end.
Proof.
  intros HK Hs. unfold create, parent. cbn [rev app]. rewrite (known_resolve _ _ _ _ _ _ _ Hs).
  destruct (kn_dir _ _ _ _ _ _ _ Hs) as (v & vs & m & ms & Hd & _). rewrite Hd. cbn [current].
  destruct (v !! n) eqn:Hv; [done|].
  destruct (known_add_node _ _ _ _ _ _ _ nd Hs) as (Ha & HF' & HW & Hr).
  split_and!; [done..|]. eapply known_set_root; [exact Ha| |].
  - intros v'. apply (within_other n); [done|]. intros n' Hn. by apply lookup_insert_ne.
  - intros v' n' x HN. rewrite lookup_insert_Some. intros [[<- <-]|[? Hx]].
    + by rewrite lookup_insert_eq.
    + rewrite lookup_insert_ne by done. by apply HN.
Qed.

Lemma run_create_new W N n m :
  K !! n = None ->
  run u H (st W N) (create_new [n] m)
    (post (fun i s => exists m', m_uid m' = u /\ m_nlink m' = 1 /\ W !! i = None /\ F !! i = None /\
             i <> r /\ st (<[i := NFile m' [] false]> W) (<[n := Some i]> N) s) (st W N)).
Proof.
  intros HK. apply (run_at _
    (fun w => sys (create [n] (NFile (mkMeta (masked w m) (euid w) 1) [] false)))).
  intros w [Hu _]. apply run_call. intros s Hs.
  pose proof (create_in_root W N n (NFile (mkMeta (masked w m) (euid w) 1) [] false) s HK Hs) as Hc.
  destruct (create _ _ s) as [[i|e|] s']; [|done|done]. destruct Hc as (? & ? & ? & Hs').
  split; [by eapply HF|]. eexists. split_and!; [..|exact Hs']; done.
Qed.

Lemma run_mkdir W N n m :
  K !! n = None ->
  run u H (st W N) (mkdir [n] m)
    (post (fun i s => exists m', m_uid m' = u /\ W !! i = None /\ F !! i = None /\ i <> r /\
             st (<[i := NDir m' [∅] []]> W) (<[n := Some i]> N) s) (st W N)).
Proof.
  intros HK. apply (run_at _
    (fun w => sys (create [n] (NDir (mkMeta (masked w m) (euid w) 2) [∅] [])))).
  intros w [Hu _]. apply run_call. intros s Hs.
  pose proof (create_in_root W N n (NDir (mkMeta (masked w m) (euid w) 2) [∅] []) s HK Hs) as Hc.
  destruct (create _ _ s) as [[i|e|] s']; [|done|done]. destruct Hc as (? & ? & ? & Hs').
  split; [by eapply HF|]. eexists. split_and!; [..|exact Hs']; done.
Qed.

(** A new file in a directory of the transaction. *)
Lemma run_create_in W N dn d dm vs mc n m :
  N !! dn = Some (Some d) -> W !! d = Some (NDir dm vs mc) ->
  run u H (st W N) (create_new [dn; n] m)
    (post (fun i s => exists m', m_uid m' = u /\ m_nlink m' = 1 /\ W !! i = None /\ F !! i = None /\
             i <> r /\ current vs !! n = None /\
             st (<[d := NDir dm (<[n := i]> (current vs) :: vs) mc]> (<[i := NFile m' [] false]> W))
               N s) (st W N)).
Proof.
  intros Hdn Hd. apply (run_at _
    (fun w => sys (create [dn; n] (NFile (mkMeta (masked w m) (euid w) 1) [] false)))).
  intros w [Hu _]. apply run_call. intros s Hs.
  unfold create, parent. cbn [rev app]. rewrite (known_entry _ _ _ _ _ _ _ _ _ Hs Hdn).
  rewrite (lookup_weaken _ _ _ _ Hd (kn_W _ _ _ _ _ _ _ Hs)).
  destruct (current vs !! n) eqn:Hv; [done|].
  set (nd := NFile _ _ _).
  destruct (known_add_node _ _ _ _ _ _ _ nd Hs) as (Ha & HF' & HW & Hr).
  assert (<[next s := nd]> W !! d = Some (NDir dm vs mc)) as Hd'.
  { rewrite lookup_insert_ne by congruence. done. }
  pose proof (known_set_entries _ _ _ _ _ _ _ _ _ _ _ (<[n := next s]>) Ha Hd') as Hs'.
  split; [by eapply HF|]. eexists. split_and!; [..|exact Hs']; done.
Qed.

Lemma run_chmod W N i nd m :
  W !! i = Some nd ->
  run u H (st W N) (set_permissions i m)
    (post (fun _ => st (<[i := chmod_node m nd]> W) N) (st W N)).
Proof.
  intros Hi. apply run_call. intros s Hs. unfold chmod.
  rewrite (lookup_weaken _ _ _ _ Hi (kn_W _ _ _ _ _ _ _ Hs)).
  pose proof (known_set_node _ _ _ _ _ _ _ _ (chmod_node m nd) _ Hs Hi). split; [by eapply HF|done].
Qed.

Lemma run_chmod_at W N n i nd m :
  N !! n = Some (Some i) -> W !! i = Some nd ->
  run u H (st W N) (set_permissions_at [n] m)
    (post (fun _ => st (<[i := chmod_node m nd]> W) N) (st W N)).
Proof.
  intros Hn Hi. apply run_call. intros s Hs. rewrite (known_entry _ _ _ _ _ _ _ _ _ Hs Hn). unfold chmod.
  rewrite (lookup_weaken _ _ _ _ Hi (kn_W _ _ _ _ _ _ _ Hs)).
  pose proof (known_set_node _ _ _ _ _ _ _ _ (chmod_node m nd) _ Hs Hi). split; [by eapply HF|done].
Qed.

Lemma run_write W N i m c cl bs :
  W !! i = Some (NFile m c cl) ->
  run u H (st W N) (write_all i bs)
    (post (fun _ => st (<[i := NFile m (c ++ bs) false]> W) N)
       (fun s => exists c', st (<[i := NFile m c' false]> W) N s)).
Proof.
  intros Hi w Hp Hh Hs.
  assert (forall bs', st (<[i := NFile m (c ++ bs') false]> W) N (append (fs w) i bs')) as Ha.
  { intros bs'. unfold append. rewrite (lookup_weaken _ _ _ _ Hi (kn_W _ _ _ _ _ _ _ Hs)).
    by eapply known_set_node. }
  unfold write_all. destruct (faults w) as [|[n|] rest];
    (eexists _, _; split; [reflexivity|]; split; [exact Hp|]; split;
     [constructor; [by eapply HF, Ha|done]|]); cbn; eauto.
Qed.

Lemma run_sync_file W N i m c cl :
  W !! i = Some (NFile m c cl) ->
  run u H (st W N) (sync_all i) (post (fun _ => st (<[i := NFile m c true]> W) N) (st W N)).
Proof.
  intros Hi. apply run_call. intros s Hs.
  rewrite (lookup_weaken _ _ _ _ Hi (kn_W _ _ _ _ _ _ _ Hs)).
  pose proof (known_set_node _ _ _ _ _ _ _ _ (NFile m c true) _ Hs Hi). split; [by eapply HF|done].
Qed.

Lemma run_sync_dir W N i m vs mc :
  W !! i = Some (NDir m vs mc) ->
  run u H (st W N) (sync_all i)
    (post (fun _ => st (<[i := NDir m [current vs] []]> W) N) (st W N)).
Proof.
  intros Hi. apply run_call. intros s Hs.
  rewrite (lookup_weaken _ _ _ _ Hi (kn_W _ _ _ _ _ _ _ Hs)).
  pose proof (known_set_node _ _ _ _ _ _ _ _ (NDir m [current vs] []) _ Hs Hi).
  split; [by eapply HF|done].
Qed.

(** A rename within the store's directory. *)
Lemma run_rename W N a b i :
  N !! a = Some (Some i) -> K !! a = None -> a <> b ->
  (forall xs, K !! b = Some xs -> Some i ∈ xs) ->
  run u H (st W N) (rename a b)
    (post (fun _ => st W (<[b := Some i]> (<[a := None]> N))) (st W N)).
Proof.
  intros Ha HKa Hab HKb. apply run_call. intros s Hs.
  rewrite (known_resolve _ _ _ _ _ _ _ Hs), (known_entry _ _ _ _ _ _ _ _ _ Hs Ha).
  destruct (match resolve s [b] with Ok _ => _ | _ => _ end); [|done].
  assert (st W (<[b := Some i]> (<[a := None]> N))
            (set_entries s r (fun v => <[b := i]> (delete a v)))) as Hs'.
  { eapply known_set_root; [exact Hs| |].
    - intros v Hv n xs Hx. destruct (decide (n = b)) as [->|Hnb].
      + rewrite lookup_insert_eq. auto.
      + rewrite lookup_insert_ne, lookup_delete_ne by congruence. by apply Hv.
    - intros v n x HN. rewrite lookup_insert_Some. intros [[<- <-]|[? Hx]].
      + by rewrite lookup_insert_eq.
      + rewrite lookup_insert_ne by done. apply lookup_insert_Some in Hx as [[<- <-]|[? Hx]].
        * by rewrite lookup_delete_eq.
        * rewrite lookup_delete_ne by done. by apply HN. }
  split; [by eapply HF|done].
Qed.

(** A rename over a name with constraints, after which the nodes of the transaction are
    frozen: the name has its old values and the new one. *)
Lemma run_replace W N a b i xs :
  let K' := <[b := Some i :: xs]> K in
  K !! a = None -> K !! b = Some xs -> N !! a = Some (Some i) ->
  (forall W' N' s, known r u (F ∪ W) W' K' N' s -> H s) ->
  run u H (st W N) (rename a b)
    (post (fun _ => known r u (F ∪ W) ∅ K' (<[b := Some i]> (<[a := None]> N))) (st W N)).
Proof.
  intros K' Ha Hb HN HA'. apply run_call. intros s Hs.
  assert (a <> b) as Hne by congruence.
  assert (known r u (F ∪ W) ∅ K' N s) as Hs'.
  { assert (known r u (F ∪ W) ∅ K N s) as Hs'.
    { apply known_freeze; [by rewrite map_union_empty|apply map_disjoint_empty_r]. }
    eapply known_weaken; [exact Hs'|done..|]. intros n ys [[<- <-]|[? Hx]]%lookup_insert_Some.
    - exists xs. split; [done|]. set_solver.
    - by exists ys. }
  rewrite (known_resolve _ _ _ _ _ _ _ Hs), (known_entry _ _ _ _ _ _ _ _ _ Hs HN).
  destruct (match resolve s [b] with Ok _ => _ | _ => _ end); [|done].
  assert (known r u (F ∪ W) ∅ K' (<[b := Some i]> (<[a := None]> N))
            (set_entries s r (fun v => <[b := i]> (delete a v)))) as Hk.
  { eapply known_set_root; [exact Hs'| |].
    - intros v Hv n ys [[<- <-]|[Hn Hx]]%lookup_insert_Some.
      + rewrite lookup_insert_eq. set_solver.
      + rewrite lookup_insert_ne, lookup_delete_ne by congruence. apply Hv.
        unfold K'. by rewrite lookup_insert_ne.
    - intros v n x HNv [[<- <-]|[? Hx]]%lookup_insert_Some.
      + by rewrite lookup_insert_eq.
      + rewrite lookup_insert_ne by done. apply lookup_insert_Some in Hx as [[<- <-]|[? Hx]].
        * by rewrite lookup_delete_eq.
        * rewrite lookup_delete_ne by done. by apply HNv. }
  split; [by eapply HA'|done].
Qed.

(** Removing a name of the store's directory. *)
Lemma run_unlink W N n allowed :
  K !! n = None ->
  run u H (st W N) (unlink allowed [n]) (post (fun _ => st W (<[n := None]> N)) (st W N)).
Proof.
  intros HK. apply run_call. intros s Hs. unfold parent. cbn [rev app].
  rewrite (known_resolve _ _ _ _ _ _ _ Hs). pose proof (resolve_np s [n]).
  destruct (resolve s [n]) as [i|e|]; [|done|done]. destruct (allowed _); [|done].
  assert (st W (<[n := None]> N) (set_entries s r (delete n))) as Hs'.
  { eapply known_set_root; [exact Hs| |].
    - intros v. apply (within_other n); [done|]. intros. by apply lookup_delete_ne.
    - intros v n' x HN. rewrite lookup_insert_Some. intros [[<- <-]|[? Hx]].
      + by rewrite lookup_delete_eq.
      + rewrite lookup_delete_ne by done. by apply HN. }
  split; [by eapply HF|done].
Qed.

(** Removing a name of a directory of the transaction. *)
Lemma run_unlink_in W N dn d dm vs mc n allowed :
  N !! dn = Some (Some d) -> W !! d = Some (NDir dm vs mc) ->
  run u H (st W N) (unlink allowed [dn; n])
    (post (fun _ => st (<[d := NDir dm (delete n (current vs) :: vs) mc]> W) N) (st W N)).
Proof.
  intros Hdn Hd. apply run_call. intros s Hs. unfold parent. cbn [rev app].
  rewrite (known_entry _ _ _ _ _ _ _ _ _ Hs Hdn). pose proof (resolve_np s [dn; n]).
  destruct (resolve s [dn; n]) as [i|e|]; [|done|done]. destruct (allowed _); [|done].
  pose proof (known_set_entries _ _ _ _ _ _ _ _ _ _ _ (delete n) Hs Hd). split; [by eapply HF|done].
Qed.

(** Synchronizing the store's directory. *)
Lemma run_sync_root W N K' :
  (forall s, known r u F W K' N s -> H s) ->
  (forall n xs', K' !! n = Some xs' ->
     (exists x, N !! n = Some x /\ x ∈ xs') \/ exists xs, K !! n = Some xs /\ xs ⊆ xs') ->
  run u H (st W N) (sync_all r) (post (fun _ => known r u F W K' N) (st W N)).
Proof.
  intros HH HK'. apply run_call. intros s Hs.
  destruct (known_sync_root r u F W K K' N s Hs HK') as (v & vs & m & ms & -> & Hs'). cbn [current]. auto.
Qed.
End Rules.
(** Names what a precondition says. *)
Ltac run_intro :=
  repeat first [apply run_ex; let x := fresh "x" in intros x | apply run_pure; intros ?].

(** ** The steps of a transaction *)

Section Steps.
Context (u : Z) (H : FS -> Prop) (r : ino).
Context (F : gmap ino node) (K : gmap name (list (option ino))).

(** All that [F] and [K] allow is safe. *)
Definition allows : Prop := forall W N s, known r u F W K N s -> H s.
Context (HF : allows).
Abbreviation st W N := (known r u F W K N).

Definition owns (W : gmap ino node) (x : option ino) : Prop :=
  match x with Some d => exists dm vs mc, W !! d = Some (NDir dm vs mc) | None => True end.

(** The directories of [W] are those of [W']. *)
Definition retains (W W' : gmap ino node) : Prop := forall x, owns W x -> owns W' x.

Lemma retains_subseteq W W' : W ⊆ W' -> retains W W'.
Proof.
  intros Hs [d|]; [|done]. intros (dm & vs & mc & Hd). exists dm, vs, mc. by eapply lookup_weaken.
Qed.

Lemma retains_file W i m c cl m' c' cl' :
  W !! i = Some (NFile m c cl) -> retains W (<[i := NFile m' c' cl']> W).
Proof.
  intros Hi [d|]; [|done]. intros (dm & vs & mc & Hd). exists dm, vs, mc.
  rewrite lookup_insert_ne by congruence. done.
Qed.

Lemma retains_dir W d dm vs mc : retains W (<[d := NDir dm vs mc]> W).
Proof.
  intros [d'|]; [|done]. intros (dm' & vs' & mc' & Hd). destruct (decide (d = d')) as [->|].
  - exists dm, vs, mc. apply lookup_insert_eq.
  - exists dm', vs', mc'. by rewrite lookup_insert_ne.
Qed.

Lemma retains_trans W1 W2 W3 : retains W1 W2 -> retains W2 W3 -> retains W1 W3.
Proof. unfold retains. auto. Qed.

(** Some directories and files were changed; all names but those of [ns] are the same. *)
Definition changed (W : gmap ino node) (N : gmap name (option ino)) (ns : list name) (s : FS) : Prop :=
  exists W' N', retains W W' /\ (forall n x, n ∉ ns -> N !! n = Some x -> N' !! n = Some x) /\ st W' N' s.

Lemma changed_refl W N ns s : st W N s -> changed W N ns s.
Proof. intros Hs. exists W, N. split_and!; [by intros ?|done|done]. Qed.

(** The rest of writing a file that was just created: permissions, contents, [sync_all]. *)
Lemma run_fill W N i m blob :
  W !! i = Some (NFile m [] false) -> m_uid m = u -> m_nlink m = 1 ->
  run u H (st W N)
    (do! _ := or_unavailable (set_permissions i PRIVATE_FILE) in
     do! _ := or_unavailable (write_all i blob) in
     or_unavailable (sync_all i))
    (post (fun _ s => exists m', private_file u m' /\ st (<[i := NFile m' blob true]> W) N s)
       (changed W N [])).
Proof.
  intros Hi Hu Hn. set (m' := mkMeta PRIVATE_FILE u 1).
  eapply run_seq; [by apply run_err, run_chmod| |].
  2: { intros s. apply changed_refl. }
  intros []. cbn [chmod_node]. rewrite Hu, Hn.
  assert (forall c cl, retains W (<[i := NFile m' c cl]> W)) as Hret by (intros; by eapply retains_file).
  eapply run_seq.
  - apply run_err. eapply run_write; [exact HF|apply lookup_insert_eq].
  - intros []. rewrite insert_insert_eq. eapply run_post.
    + apply run_err. eapply run_sync_file; [exact HF|apply lookup_insert_eq].
    + intros x s. rewrite insert_insert_eq. intros Hs. by exists m'.
    + intros s Hs. exists (<[i := NFile m' ([] ++ blob) false]> W), N. split_and!; [apply Hret|done|done].
  - intros s [c Hs]. rewrite insert_insert_eq in Hs. eexists _, N. split_and!; [|done|exact Hs]. apply Hret.
Qed.

Lemma changed_weaken W W0 N N0 ns ns' s :
  changed W N ns s -> retains W0 W -> (forall n x, n ∉ ns' -> N0 !! n = Some x -> N !! n = Some x) ->
  ns ⊆ ns' -> changed W0 N0 ns' s.
Proof.
  intros (W' & N' & HW & HN & Hs) HW0 HN0 Hns. exists W', N'. split_and!; [|by auto|done].
  by eapply retains_trans.
Qed.

(** [write_new_blob] in a directory of the transaction. *)
Lemma run_new_blob W N dn d dm v mc n blob :
  N !! dn = Some (Some d) -> W !! d = Some (NDir dm [v] mc) ->
  run u H (st W N) (write_new_blob [dn; n] blob)
    (post (fun _ s => exists i m, private_file u m /\ W !! i = None /\ v !! n = None /\ i <> d /\
             st (<[d := NDir dm [<[n := i]> v; v] mc]> (<[i := NFile m blob true]> W)) N s)
       (changed W N [])).
Proof.
  intros Hdn Hd. unfold write_new_blob. eapply run_seq; [apply run_err; by eapply run_create_in| |].
  2: { intros s. apply changed_refl. }
  intros i. cbn [current]. apply run_ex. intros m. run_intro.
  assert (i <> d) as Hne by congruence.
  assert (retains W (<[i := NFile m [] false]> W)) as Hret.
  { apply retains_subseteq. by apply insert_subseteq. }
  eapply run_post.
  - apply (run_fill (<[d := NDir dm [<[n := i]> v; v] mc]> (<[i := NFile m [] false]> W)) N i m); try done.
    by rewrite lookup_insert_ne, lookup_insert_eq by done.
  - intros _ s (m' & Hm' & Hs'). exists i, m'. split_and!; try done.
    by rewrite (insert_insert_ne _ i d), insert_insert_eq in Hs' by done.
  - intros s Hs. eapply changed_weaken; [exact Hs| |done|done].
    eapply retains_trans; [exact Hret|apply retains_dir].
Qed.

Lemma run_sync_directory W N dn d dm vs mc :
  N !! dn = Some (Some d) -> W !! d = Some (NDir dm vs mc) ->
  run u H (st W N) (sync_directory [dn])
    (post (fun _ => st (<[d := NDir dm [current vs] []]> W) N) (st W N)).
Proof.
  intros Hdn Hd. unfold sync_directory.
  eapply run_seq; [eapply run_reads; [apply reads_checked|apply HF]| |done].
  intros j. eapply run_weaken with (P' := fun s => j = d /\ st W N s); [|intros s [Hs Hj]|done].
  - apply run_pure. intros ->. apply run_err. by eapply run_sync_dir.
  - split; [|done]. specialize (Hj j eq_refl). rewrite (known_entry _ _ _ _ _ _ _ _ _ Hs Hdn) in Hj. congruence.
Qed.

(** Both, as the methods of a transaction write a member. *)
Lemma run_write_member W N dn d dm v mc n blob :
  N !! dn = Some (Some d) -> W !! d = Some (NDir dm [v] mc) ->
  run u H (st W N) (do! _ := write_new_blob [dn; n] blob in sync_directory [dn])
    (post (fun _ s => exists i m, private_file u m /\ W !! i = None /\ v !! n = None /\ i <> d /\
             st (<[d := NDir dm [<[n := i]> v] []]> (<[i := NFile m blob true]> W)) N s)
       (changed W N [])).
Proof.
  intros Hdn Hd. eapply run_seq; [by eapply run_new_blob| |done].
  intros []. apply run_ex. intros i. apply run_ex. intros m. run_intro. eapply run_post.
  - eapply run_sync_directory; [done|apply lookup_insert_eq].
  - intros [] s. cbn [current]. rewrite insert_insert_eq. intros Hs. by exists i, m.
  - intros s Hs. eexists _, N. split_and!; [|done|exact Hs].
    eapply retains_trans; [|apply retains_dir]. apply retains_subseteq. by apply insert_subseteq.
Qed.

(** [write_marker] in the store's directory. *)
Lemma run_marker W N n g :
  K !! n = None ->
  run u H (st W N) (write_marker [n] g)
    (post (fun _ s => exists i m, private_file u m /\ W !! i = None /\
             st (<[i := NFile m (g ++ [10]) true]> W) (<[n := Some i]> N) s)
       (changed W N [n])).
Proof.
  intros Hn. unfold write_marker.
  eapply run_seq; [apply run_err; by eapply run_create_new| |intros s; apply changed_refl].
  intros i. apply run_ex. intros m. run_intro. set (m' := mkMeta PRIVATE_FILE u 1).
  assert (forall nd, retains W (<[i := nd]> W)) as Hret.
  { intros nd. apply retains_subseteq. by apply insert_subseteq. }
  assert (forall nd s, st (<[i := nd]> W) (<[n := Some i]> N) s -> changed W N [n] s) as Hch.
  { intros nd s Hs. eexists _, _. split_and!; [apply Hret| |exact Hs].
    intros n' x Hn' Hx. rewrite lookup_insert_ne by set_solver. done. }
  eapply run_seq; [apply run_err; eapply run_chmod; [exact HF|apply lookup_insert_eq]| |apply Hch].
  intros []. rewrite insert_insert_eq. cbn [chmod_node]. replace (mkMeta _ _ _) with m' by (unfold m'; congruence).
  eapply run_seq; [apply run_err; eapply run_write; [exact HF|apply lookup_insert_eq]| |].
  2: { intros s [c Hs]. rewrite insert_insert_eq in Hs. by eapply Hch. }
  intros []. rewrite insert_insert_eq. cbn [app].
  eapply run_seq; [apply run_err; eapply run_write; [exact HF|apply lookup_insert_eq]| |].
  2: { intros s [c Hs]. rewrite insert_insert_eq in Hs. by eapply Hch. }
  intros []. rewrite insert_insert_eq.
  eapply run_post; [apply run_err; eapply run_sync_file; [exact HF|apply lookup_insert_eq]| |apply Hch].
  intros [] s. rewrite insert_insert_eq. intros Hs. by exists i, m'.
Qed.

Lemma run_private_directory W N n :
  K !! n = None ->
  run u H (st W N) (create_private_directory [n])
    (post (fun _ s => exists d m ms, private_dir u m /\ W !! d = None /\
             st (<[d := NDir m [∅] ms]> W) (<[n := Some d]> N) s)
       (fun s => exists W N, st W N s)).
Proof.
  intros Hn. unfold create_private_directory.
  eapply run_seq; [apply run_err; by eapply run_mkdir| |intros s Hs; eauto].
  intros d. apply run_ex. intros m. run_intro.
  eapply run_post; [apply run_err; eapply run_chmod_at; [exact HF|apply lookup_insert_eq..]| |].
  - intros [] s. rewrite insert_insert_eq. cbn [chmod_node]. intros Hs. eexists d, _, _. split_and!; [|done|exact Hs]. done.
  - intros s Hs. eauto.
Qed.

(** Removals keep what is frozen. *)
Lemma run_remove_file W N n :
  K !! n = None ->
  run u H (st W N) (remove_private_file [n]) (post (fun _ => changed W N [n]) (changed W N [n])).
Proof.
  intros Hn. unfold remove_private_file.
  eapply run_seq; [eapply run_reads; [apply reads_find_metadata|apply HF]| |by intros s; apply changed_refl].
  intros [m|]; [|apply run_ret; intros s [Hs _]; by apply changed_refl].
  eapply run_seq.
  - eapply run_weaken; [eapply run_reads; [apply reads_validate_file|apply HF]|by intros s [Hs _]|].
    intros x s Hx. exact Hx.
  - intros []. eapply run_weaken; [apply run_err; eapply run_unlink; [exact HF|exact Hn]|by intros s [Hs _]|].
    intros [[]|e|] s; cbn; [|by apply changed_refl|done]. intros Hs.
    exists W, (<[n := None]> N). split_and!; [by intros ?| |done].
    intros n' x Hn' Hx. rewrite lookup_insert_ne by set_solver. done.
  - intros s. apply changed_refl.
Qed.

Lemma run_remove_in W N dn d dm vs mc n :
  N !! dn = Some (Some d) -> W !! d = Some (NDir dm vs mc) ->
  run u H (st W N) (remove_private_file [dn; n]) (post (fun _ => changed W N []) (changed W N [])).
Proof.
  intros Hdn Hd. unfold remove_private_file.
  eapply run_seq; [eapply run_reads; [apply reads_find_metadata|apply HF]| |by intros s; apply changed_refl].
  intros [m|]; [|apply run_ret; intros s [Hs _]; by apply changed_refl].
  eapply run_seq.
  - eapply run_weaken; [eapply run_reads; [apply reads_validate_file|apply HF]|by intros s [Hs _]|].
    intros x s Hx. exact Hx.
  - intros []. eapply run_weaken; [apply run_err; eapply run_unlink_in; [exact HF|exact Hdn|exact Hd]|by intros s [Hs _]|].
    intros [[]|e|] s; cbn; [|by apply changed_refl|done]. intros Hs.
    eexists _, N. split_and!; [|done|exact Hs]. apply retains_dir.
  - intros s. apply changed_refl.
Qed.

(** A run from [changed] knowledge. *)
Lemma run_changed {E A} W N ns (m : M world E A) Q :
  (forall W' N', retains W W' -> (forall n x, n ∉ ns -> N !! n = Some x -> N' !! n = Some x) ->
     run u H (st W' N') m Q) ->
  run u H (changed W N ns) m Q.
Proof. intros Hm w Hp Hh (W' & N' & ? & ? & ?). by apply (Hm W' N'). Qed.

Lemma run_remove_members W N dn names :
  (exists d, N !! dn = Some (Some d) /\ owns W (Some d)) ->
  run u H (st W N) (remove_members [dn] names) (post (fun _ => changed W N []) (changed W N [])).
Proof.
  revert W N. induction names as [|n names IH]; intros W N (d & Hdn & dm & vs & mc & Hd); cbn [remove_members].
  { apply run_ret. intros s. apply changed_refl. }
  eapply run_seq; [eapply run_reads; [apply reads_into_string|apply HF]| |by intros s; apply changed_refl].
  intros n'. destruct (negb _).
  { apply run_lift. intros s [Hs _]. by apply changed_refl. }
  eapply run_seq; [eapply run_weaken; [by eapply run_remove_in|by intros s [Hs _]|by intros ? ? ?]| |done].
  intros []. apply run_changed. intros W' N' HW HN. eapply run_post.
  - apply IH. exists d. split; [apply HN; set_solver|]. apply HW. by exists dm, vs, mc.
  - intros [] s Hs. by eapply changed_weaken.
  - intros s Hs. by eapply changed_weaken.
Qed.

Lemma run_remove_generation W N dn x :
  K !! dn = None -> N !! dn = Some x -> owns W x ->
  run u H (st W N) (remove_private_generation [dn])
    (post (fun _ => changed W N [dn]) (changed W N [dn])).
Proof.
  intros HK Hdn Hx. unfold remove_private_generation.
  set (P := fun (o : option Metadata) s => st W N s /\ (o <> None -> exists d, x = Some d)).
  eapply run_seq with (R := P); [| |by intros s; apply changed_refl].
  { intros w Hp Hh Hs. unfold find_metadata.
    destruct (reads_sys u H (fun s => let! i := resolve s [dn] in stat s i)
                (fun y s => forall m, y = Ok m -> resolve s [dn] <> Err NotFound)) with (P := st W N) (w := w)
      as (y & w' & Hy & ? & ? & ? & ? & HR); try done.
    - intros s. pose proof (resolve_np s [dn]). destruct (resolve s [dn]) eqn:Hr; try done.
      split; [apply stat_np|done].
    - apply HF.
    - change (symlink_metadata [dn] w) with (sys (fun s => (let! i := resolve s [dn] in stat s i, s)) w).
      rewrite Hy. destruct y as [m|[]|]; try done; (eexists _, _; split; [reflexivity|]);
        (split; [done|split; [done|]]); cbn; try done.
      split; [done|]. intros _. specialize (HR m eq_refl).
      rewrite (known_entry _ _ _ _ _ _ _ _ _ ltac:(eassumption) Hdn) in HR. destruct x; [eauto|done]. }
  intros [m|]; [|apply run_ret; intros s [Hs _]; by apply changed_refl].
  intros w Hp Hh [Hs He]. destruct (He ltac:(done)) as [d ->]. clear P He. revert w Hp Hh Hs.
  change (run u H (st W N)
    (do! _ := validate_directory_metadata m in
     do! names := or_unavailable (read_dir [dn]) in
     do! names := collect_entries names in
     do! _ := remove_members [dn] names in or_unavailable (remove_dir [dn]))
    (post (fun _ => changed W N [dn]) (changed W N [dn]))).
  eapply run_seq; [eapply run_reads; [apply reads_validate_directory|apply HF]| |by intros s; apply changed_refl].
  intros []. eapply run_seq; [eapply run_reads; [apply only_reads_map_err, reads_read_dir|by intros s [? _]; eapply HF]
    | |by intros s [? _]; apply changed_refl].
  intros names. eapply run_seq; [eapply run_reads; [apply reads_collect|by intros s [[? _] _]; eapply HF]
    | |by intros s [[? _] _]; apply changed_refl].
  intros names'. eapply run_seq; [eapply run_weaken; [apply run_remove_members|by intros s [[[? _] _] _]|by intros ? ? ?]| |].
  - eauto.
  - intros []. apply run_changed. intros W' N' HW HN. eapply run_post.
    + apply run_err. eapply run_unlink; [exact HF|exact HK].
    + intros [] s Hs'. eexists W', _. split_and!; [done| |exact Hs'].
      intros n y Hn Hy. rewrite lookup_insert_ne by set_solver. apply HN; [set_solver|done].
    + intros s Hs'. exists W', N'. split_and!; [done| |done]. intros n y Hn Hy. apply HN; [set_solver|done].
  - intros s Hs. eapply changed_weaken; [exact Hs|by intros ?|done|set_solver].
Qed.

(** What [drop] needs: it removes nothing that is frozen. *)
Record tidy (t : Transaction) (W : gmap ino node) (N : gmap name (option ino)) : Prop := mkTidy {
  tidy_temporary : K !! marker_temporary t = None;
  tidy_names : NoDup [marker_temporary t; stage t; generation t];
  tidy_stage : recovery_reserved t = false ->
               K !! stage t = None /\ exists x, N !! stage t = Some x /\ owns W x;
  tidy_generation : recovery_reserved t = false -> marker_replaced t = false ->
               K !! generation t = None /\ exists x, N !! generation t = Some x /\ owns W x
}.

Lemma tidy_changed t W N W' N' :
  tidy t W N -> retains W W' -> (forall n x, n ∉ [marker_temporary t] -> N !! n = Some x -> N' !! n = Some x) ->
  tidy t W' N'.
Proof.
  intros [H1 H2 H3 H4] HW HN. apply NoDup_cons in H2 as Hn. destruct Hn as [Hn _].
  split; [done|done| |].
  - intros Hr. destruct (H3 Hr) as (? & x & Hx & Ho). split; [done|]. exists x.
    split; [apply HN; [set_solver|done]|by apply HW].
  - intros Hr Hm. destruct (H4 Hr Hm) as (? & x & Hx & Ho). split; [done|]. exists x.
    split; [apply HN; [set_solver|done]|by apply HW].
Qed.

Lemma run_drop t W N w :
  tidy t W N -> process u w -> Forall H (history w) -> st W N (fs w) ->
  let w' := drop_transaction w t in
  process u w' /\ Forall H (history w') /\ exists W' N', st W' N' (fs w').
Proof.
  intros Ht Hp Hh Hs. unfold drop_transaction.
  destruct (run_remove_file W N (marker_temporary t) (tidy_temporary _ _ _ Ht) w Hp Hh Hs)
    as (x & w1 & -> & Hp1 & Hh1 & Hx).
  assert (changed W N [marker_temporary t] (fs w1)) as (W1 & N1 & HW1 & HN1 & Hs1) by (by destruct x).
  pose proof (tidy_changed _ _ _ _ _ Ht HW1 HN1) as Ht1. clear x Hx.
  destruct (recovery_reserved t) eqn:Hr; [by eauto|].
  destruct (tidy_stage _ _ _ Ht1 Hr) as (HKs & x & Hx & Ho).
  destruct (run_remove_generation W1 N1 (stage t) x HKs Hx Ho w1 Hp1 Hh1 Hs1)
    as (y & w2 & -> & Hp2 & Hh2 & Hy).
  assert (changed W1 N1 [stage t] (fs w2)) as (W2 & N2 & HW2 & HN2 & Hs2) by (by destruct y).
  destruct (marker_replaced t) eqn:Hm; [by eauto|].
  destruct (tidy_generation _ _ _ Ht1 Hr Hm) as (HKg & z & Hz & Hoz).
  assert (generation t ∉ [stage t]) as Hne.
  { pose proof (tidy_names _ _ _ Ht) as [_ [Hd _]%NoDup_cons]%NoDup_cons. set_solver. }
  destruct (run_remove_generation W2 N2 (generation t) z HKg (HN2 _ _ Hne Hz) (HW2 _ Hoz) w2 Hp2 Hh2 Hs2)
    as (y' & w3 & -> & Hp3 & Hh3 & Hy').
  assert (changed W2 N2 [generation t] (fs w3)) as (W3 & N3 & _ & _ & Hs3) by (by destruct y').
  eauto.
Qed.
End Steps.

(** ** Methods of a transaction *)

Section Methods.
Context (u : Z) (H : FS -> Prop).

Definition run_tx {E A} (P : Transaction -> FS -> Prop) (m : M (world * Transaction) E A)
    (Q : res E A -> Transaction -> FS -> Prop) : Prop :=
  forall w t, process u w -> Forall H (history w) -> P t (fs w) ->
  exists x w' t', m (w, t) = (x, (w', t')) /\ process u w' /\ Forall H (history w') /\ Q x t' (fs w').

Definition post_tx {E A} (good : A -> Transaction -> FS -> Prop) (bad : Transaction -> FS -> Prop)
    (x : res E A) (t : Transaction) (s : FS) : Prop :=
  match x with Ok a => good a t s | Err _ => bad t s | Panic => False end.

Lemma run_tx_seq {E A B} P (m : M (world * Transaction) E A) (k : A -> M (world * Transaction) E B) R Q B1 :
  run_tx P m (post_tx R B1) -> (forall a, run_tx (R a) (k a) (post_tx Q B1)) ->
  run_tx P (bind m k) (post_tx Q B1).
Proof.
  intros Hm Hk w t Hp Hh HP. destruct (Hm w t Hp Hh HP) as (x & w' & t' & Hx & Hp' & Hh' & HR).
  unfold bind. rewrite Hx. destruct x as [a|e|]; [|by eauto 10|done]. by apply Hk.
Qed.

Lemma run_tx_weaken {E A} P P' (m : M (world * Transaction) E A) Q Q' :
  run_tx P' m Q' -> (forall t s, P t s -> P' t s) -> (forall x t s, Q' x t s -> Q x t s) -> run_tx P m Q.
Proof.
  intros Hm HP HQ w t Hp Hh Hs. destruct (Hm w t Hp Hh (HP _ _ Hs)) as (x & w' & t' & ? & ? & ? & ?).
  eauto 10.
Qed.

Lemma run_tx_store {A} P (m : M world CatacombStoreError A) Q B :
  (forall t, run u H (P t) m (post (fun a s => Q a t s) (B t))) ->
  run_tx (E := CatacombStoreError) (A := A) P (on_store m) (post_tx Q B).
Proof.
  intros Hm w t Hp Hh HP. destruct (Hm t w Hp Hh HP) as (x & w' & Hx & ? & ? & HQ).
  cbn. rewrite Hx. exists x, w', t. by destruct x.
Qed.

Lemma run_tx_set (f : Transaction -> Transaction) P Q B :
  (forall t s, P t s -> Q () (f t) s) -> run_tx P (tx_set f) (post_tx Q B).
Proof. intros HQ w t Hp Hh HP. exists (Ok ()), w, (f t). by split_and!; cbn; auto. Qed.

Lemma run_tx_lift {E A} (x : res E A) P Q :
  (forall t s, P t s -> Q x t s) -> run_tx P (lift x) Q.
Proof. intros HQ w t Hp Hh HP. exists x, w, t. by split_and!; cbn; auto. Qed.

(** The method reads its own fields. *)
Lemma run_tx_get {A} t0 P (k : Transaction -> M (world * Transaction) CatacombStoreError A) Q :
  run_tx (fun t s => t = t0 /\ P s) (k t0) Q ->
  run_tx (E := CatacombStoreError) (fun t s => t = t0 /\ P s) (bind tx_get k) Q.
Proof.
  intros Hk w t Hp Hh [-> HP]. destruct (Hk w t0 Hp Hh) as (x & w' & t' & ? & ? & ? & ?); [done|].
  exists x, w', t'. by split_and!.
Qed.

Lemma run_tx_ex {E A X} t0 (P : X -> FS -> Prop) (m : M (world * Transaction) E A) Q :
  (forall x, run_tx (fun t s => t = t0 /\ P x s) m Q) ->
  run_tx (fun t s => t = t0 /\ exists x, P x s) m Q.
Proof. intros Hm w t Hp Hh (-> & x & Hx). by apply (Hm x). Qed.

Lemma run_tx_pure {E A} t0 (phi : Prop) P (m : M (world * Transaction) E A) Q :
  (phi -> run_tx (fun t s => t = t0 /\ P s) m Q) ->
  run_tx (fun t s => t = t0 /\ phi /\ P s) m Q.
Proof. intros Hm w t Hp Hh (-> & Hphi & HP). by apply Hm. Qed.

(** A call of the store, in a method that knows its transaction. *)
Lemma run_tx_call {A} t0 P (m : M world CatacombStoreError A) Q B :
  run u H P m (post Q B) ->
  run_tx (fun t s => t = t0 /\ P s) (on_store m)
    (post_tx (fun a t s => t = t0 /\ Q a s) (fun t s => t = t0 /\ B s)).
Proof.
  intros Hm w t Hp Hh [-> HP]. destruct (Hm w Hp Hh HP) as (x & w' & Hx & ? & ? & HQ).
  cbn. rewrite Hx. exists x, w', t0. by destruct x.
Qed.

Lemma run_tx_bad {E A} P (m : M (world * Transaction) E A) Q B B' :
  run_tx P m (post_tx Q B) -> (forall t s, B t s -> B' t s) -> run_tx P m (post_tx Q B').
Proof. intros Hm HB. eapply run_tx_weaken; [exact Hm|done|]. intros [] t s; cbn; auto. Qed.

(** The next call of a method: its failure is the method's. *)
Lemma run_tx_then {A B} t0 P (m : M world CatacombStoreError A) (k : A -> M (world * Transaction) CatacombStoreError B) R B0 Q B1 :
  run u H P m (post R B0) -> (forall s, B0 s -> B1 t0 s) ->
  (forall a, run_tx (fun t s => t = t0 /\ R a s) (k a) (post_tx Q B1)) ->
  run_tx (fun t s => t = t0 /\ P s) (bind (on_store m) k) (post_tx Q B1).
Proof.
  intros Hm HB Hk. eapply run_tx_seq; [|exact Hk]. eapply run_tx_bad; [by apply run_tx_call|].
  intros t s [-> ?]. auto.
Qed.

Lemma run_tx_assign {B} t0 (f : Transaction -> Transaction) P (k : () -> M (world * Transaction) CatacombStoreError B) Q :
  run_tx (fun t s => t = f t0 /\ P s) (k ()) Q ->
  run_tx (fun t s => t = t0 /\ P s) (bind (tx_set f) k) Q.
Proof.
  intros Hk w t Hp Hh [-> HP]. destruct (Hk w (f t0) Hp Hh) as (x & w' & t' & ? & ? & ? & ?); [done|].
  exists x, w', t'. by split_and!.
Qed.

Lemma run_tx_assoc {E A B C} P (m : M (world * Transaction) E A) (f : A -> M (world * Transaction) E B)
    (g : B -> M (world * Transaction) E C) Q :
  run_tx P (bind (bind m f) g) Q -> run_tx P (bind m (fun a => bind (f a) g)) Q.
Proof.
  intros Hm w t Hp Hh HP. destruct (Hm w t Hp Hh HP) as (x & w' & t' & Hx & ?).
  exists x, w', t'. split; [|done]. rewrite <- Hx. unfold bind. by destruct (m (w, t)) as [[a|e|] s].
Qed.

Lemma run_tx_assoc_l {E A B C} P (m : M (world * Transaction) E A) (f : A -> M (world * Transaction) E B)
    (g : B -> M (world * Transaction) E C) Q :
  run_tx P (bind m (fun a => bind (f a) g)) Q -> run_tx P (bind (bind m f) g) Q.
Proof.
  intros Hm w t Hp Hh HP. destruct (Hm w t Hp Hh HP) as (x & w' & t' & Hx & ?).
  exists x, w', t'. split; [|done]. rewrite <- Hx. unfold bind. by destruct (m (w, t)) as [[a|e|] s].
Qed.

Lemma run_tx_fix {E A} P (m : M (world * Transaction) E A) Q :
  (forall t0, run_tx (fun t s => t = t0 /\ P t0 s) m Q) -> run_tx P m Q.
Proof. intros Hm w t Hp Hh HP. by apply (Hm t). Qed.
End Methods.
(** ** Loading a generation *)

Section Loading.
Context (u : Z).

(** With no faults, [m] returns [x] on the files [s]. *)
Definition returns {E A} (s : FS) (m : M world E A) (x : res E A) : Prop :=
  forall w, process u w -> faults w = [] -> fs w = s ->
  exists w', m w = (x, w') /\ process u w' /\ faults w' = [] /\ fs w' = s.

Lemma returns_ret {E A} s (a : A) : returns (E := E) s (ret a) (Ok a).
Proof. intros w ? ? ?. by exists w. Qed.

Lemma returns_lift {E A} s (x : res E A) : returns s (lift x) x.
Proof. intros w ? ? ?. by exists w. Qed.

Lemma returns_lift_Ok {E A} s (o : option A) (e : E) a : o = Some a -> returns s (lift (ok_or o e)) (Ok a).
Proof. intros ->. apply returns_lift. Qed.

Lemma returns_bind {E A B} s (m : M world E A) (k : A -> M world E B) a x :
  returns s m (Ok a) -> returns s (k a) x -> returns s (bind m k) x.
Proof.
  intros Hm Hk w Hp Hf Hs. destruct (Hm w Hp Hf Hs) as (w' & Hw & ? & ? & ?).
  unfold bind. rewrite Hw. by apply Hk.
Qed.

Lemma returns_bind_err {E A B} s (m : M world E A) (k : A -> M world E B) e :
  returns s m (Err e) -> returns s (bind m k) (Err e).
Proof.
  intros Hm w Hp Hf Hs. destruct (Hm w Hp Hf Hs) as (w' & Hw & ? & ? & ?).
  unfold bind. rewrite Hw. by exists w'.
Qed.

Lemma returns_err {E F A} s (m : M world E A) (f : E -> F) x :
  returns s m x -> returns s (mapM_err f m) (map_err f x).
Proof.
  intros Hm w Hp Hf Hs. destruct (Hm w Hp Hf Hs) as (w' & Hw & ? & ? & ?).
  unfold mapM_err. rewrite Hw. by exists w'.
Qed.

Lemma returns_err_eq {E F A} s (m : M world E A) (f : E -> F) x y :
  returns s m x -> y = map_err f x -> returns s (mapM_err f m) y.
Proof. intros Hm ->. by apply returns_err. Qed.

Lemma returns_sys {A} s (f : FS -> res IoError A) x :
  f s = x -> returns s (sys (fun s => (f s, s))) x.
Proof. intros <- w Hp Hf <-. unfold sys. rewrite Hf. eexists. split; [reflexivity|done]. Qed.

Lemma returns_uid s : returns s effective_uid (Ok u).
Proof.
  intros w Hp Hf Hs. unfold effective_uid. pose proof Hp as (_ & status & Hst & Hu).
  assert (ok_or (proc_status w) OtherError = Ok status) as Hok by (by rewrite Hst).
  destruct (returns_sys s (fun _ => ok_or (proc_status w) OtherError) (Ok status) Hok w Hp Hf Hs)
    as (w' & Hw & ? & ? & ?).
  unfold bind, or_unavailable, mapM_err, lift. rewrite Hw. cbn. rewrite Hu. by exists w'.
Qed.

Context (s : FS).

(** A private file of known contents. *)
Definition file_at (i : ino) (bs : bytes) : Prop :=
  exists m, private_file u m /\ nodes s !! i = Some (NFile m bs true).

Lemma returns_stat_file i bs m :
  nodes s !! i = Some (NFile m bs true) ->
  returns s (metadata i) (Ok (mkMetadata true false (m_mode m) (m_uid m) (m_nlink m) (len bs))).
Proof. intros Hi. apply returns_sys. unfold stat. by rewrite Hi. Qed.

Lemma returns_validate_file m n :
  private_file u m ->
  returns s (validate_private_file_metadata (mkMetadata true false (m_mode m) (m_uid m) (m_nlink m) n))
    (Ok ()).
Proof.
  intros (Hm & Hu & Hn). eapply returns_bind; [apply returns_uid|].
  replace (Ok ()) with (validate_file_identity true (m_mode m) (m_uid m) (m_nlink m) u)
    by (unfold validate_file_identity; by rewrite Hm, Hu, Hn, !Z.eqb_refl).
  apply returns_lift.
Qed.

(** Reading a whole file: the contents and no trailing byte. *)
Lemma returns_read_file i bs :
  file_at i bs ->
  returns s (read_exact i (len bs)) (Ok bs) /\ returns s (read_one i (len bs)) (Ok 0).
Proof.
  intros (m & _ & Hi). split; apply returns_sys; unfold content; rewrite Hi.
  - rewrite Z.leb_refl, Nat2Z.id, take_ge by lia. done.
  - by rewrite Z.ltb_irrefl.
Qed.

Lemma returns_open_file p i m bs :
  resolve s p = Ok i -> nodes s !! i = Some (NFile m bs true) -> returns s (open_read false p) (Ok i).
Proof. intros Hp Hi. apply returns_sys. by rewrite Hp, Hi. Qed.

Lemma returns_open_missing d p : resolve s p = Err NotFound -> returns s (open_read d p) (Err NotFound).
Proof. intros Hp. apply returns_sys. by rewrite Hp. Qed.

Lemma returns_checked p d dm v :
  resolve s p = Ok d -> nodes s !! d = Some (NDir dm v []) -> private_dir u dm ->
  returns s (open_checked_directory p) (Ok d) /\
  (p = [] -> returns s open_existing_directory (Ok d)).
Proof.
  intros Hp Hd [Hm Hu].
  assert (returns s (open_read true p) (Ok d)) as Ho by (apply returns_sys; by rewrite Hp, Hd).
  assert (returns s (do! m := or_unavailable (metadata d) in
                     do! _ := validate_directory_metadata m in ret d) (Ok d)) as Hk.
  { eapply returns_bind.
    - apply (returns_err s _ _ (Ok _)). apply returns_sys. unfold stat. by rewrite Hd.
    - eapply returns_bind; [|apply returns_ret]. unfold validate_directory_metadata. cbn.
      rewrite Hm. cbn. eapply returns_bind; [apply returns_uid|]. rewrite Hu, Z.eqb_refl. apply returns_ret. }
  split.
  - eapply returns_bind; [|exact Hk]. by apply (returns_err s _ _ (Ok d)).
  - intros ->. eapply returns_bind; [|exact Hk]. by apply (returns_err s _ _ (Ok d)).
Qed.

Lemma returns_blob p i bs :
  resolve s p = Ok i -> file_at i bs -> validate_blob bs = Ok () -> returns s (read_blob p) (Ok bs).
Proof.
  intros Hp Hf Hv. destruct (returns_read_file i bs Hf) as [Hr1 Hr2]. destruct Hf as (m & Hm & Hi).
  assert ((len bs =? 0) || (Catacomb.MAX_SECURE_CATACOMB_SIZE <? len bs) = false) as Hsz.
  { destruct bs; [done|]. cbn [validate_blob] in Hv. destruct (_ <? _); [done|]. by rewrite orb_false_r. }
  eapply returns_bind; [apply (returns_err s _ _ (Ok i)); by eapply returns_open_file|].
  eapply returns_bind; [apply (returns_err s _ _ (Ok _)); by apply returns_stat_file|].
  eapply returns_bind; [by apply returns_validate_file|]. cbn [size]. rewrite Hsz.
  eapply returns_bind; [by apply (returns_err s _ _ (Ok bs))|].
  eapply returns_bind; [by apply (returns_err s _ _ (Ok 0))|]. apply returns_ret.
Qed.

Lemma returns_metadata_none p : resolve s p = Err NotFound -> returns s (read_metadata p) (Ok None).
Proof.
  intros Hp. eapply (returns_bind s _ _ None); [|apply returns_ret]. intros w Hw Hf Hs. unfold open_metadata.
  destruct (returns_open_missing false p Hp w Hw Hf Hs) as (w' & -> & ? & ? & ?). by exists w'.
Qed.

Lemma returns_metadata_some p i bs :
  resolve s p = Ok i -> file_at i bs -> validate_metadata bs = Ok () ->
  returns s (read_metadata p) (Ok (Some bs)).
Proof.
  intros Hp Hf Hv. destruct (returns_read_file i bs Hf) as [Hr1 Hr2]. destruct Hf as (m & Hm & Hi).
  eapply (returns_bind s _ _ (Some i)).
  { intros w Hw Hfa Hs. unfold open_metadata.
    destruct (returns_open_file p i m bs Hp Hi w Hw Hfa Hs) as (w' & -> & ? & ? & ?). by exists w'. }
  cbn beta iota. eapply returns_bind; [apply (returns_err s _ _ (Ok _)); by apply returns_stat_file|].
  eapply returns_bind; [by apply returns_validate_file|]. cbn [size].
  assert ((Metadata.MAX_MANIFEST_SIZE <? len bs) = false) as ->.
  { unfold validate_metadata in Hv. by destruct (_ <? _). }
  eapply returns_bind; [by apply (returns_err s _ _ (Ok bs))|].
  eapply returns_bind; [by apply (returns_err s _ _ (Ok 0))|]. rewrite Hv. apply returns_ret.
Qed.
End Loading.
End CatacombSafety.
