(* ===== verification/CatacombAtomic.v ===== *)
(** * Generations are replaced atomically

    The methods of a transaction of [catacomb_store.rs], run with any faults and stopped
    anywhere, leave the old generation or the complete new one, in a store whose directory is
    durable; the first commit, which creates it, may be lost. *)

From S2P Require Import Prelude Effects Text Biometric IdentityCatalog FileSystem CatacombStore CatacombSafety.

Import FileSystem CatacombStore CatacombSafety.

Module CatacombAtomic.

(** ** What is selected *)

(** The files of a generation. *)
Definition members (p : CatacombPair) : gmap name bytes :=
  let m := <[MASTER_FILE := master p]> (<[USER_FILE := user p]> ∅) in
  match pair_metadata p with Some md => <[IDENTITY_METADATA_FILE := md]> m | None => m end.

Definition valid_pair (p : CatacombPair) : Prop :=
  validate_blob (master p) = Ok () /\ validate_blob (user p) = Ok () /\
  match pair_metadata p with Some md => validate_metadata md = Ok () | None => True end.

(** The files a generation can have. *)
Definition member_files : list name := [MASTER_FILE; USER_FILE; IDENTITY_METADATA_FILE].

(** Of these a directory holds exactly those of [C], all synchronized. *)
Definition contents (u : Z) (F : gmap ino node) (v : gmap name ino) (C : gmap name bytes) : Prop :=
  forall n, n ∈ member_files ->
  match v !! n, C !! n with
  | Some i, Some bs => exists m, private_file u m /\ F !! i = Some (NFile m bs true)
  | None, None => True
  | _, _ => False
  end.

(** A name the marker can hold. *)
Definition marker_text (g : name) : Prop :=
  is_generation_name g = true /\ Text.utf8_valid (g ++ [10]) = true /\
  (length g < 128)%nat.

(** A marker [mo] and the generation it selects. *)
Definition describes (u : Z) (F : gmap ino node) (K : gmap name (list (option ino)))
    (mo : option ino) (o : option CatacombPair) : Prop :=
  match mo, o with
  | None, None => True
  | Some mi, Some p =>
      exists g m d dm v, F !! mi = Some (NFile m (g ++ [10]) true) /\ private_file u m /\ marker_text g /\
      K !! g = Some [Some d] /\ F !! d = Some (NDir dm [v] []) /\ private_dir u dm /\
      contents u F v (members p) /\ valid_pair p
  | _, _ => False
  end.

(** Whatever the marker is after a stop, it selects one of the [allowed] generations. *)
Definition safe (u : Z) (allowed : option CatacombPair -> Prop)
    (F : gmap ino node) (K : gmap name (list (option ino))) : Prop :=
  exists mos, K !! ACTIVE_MARKER = Some mos /\
  forall mo, mo ∈ mos -> exists o, allowed o /\ describes u F K mo o.

(** What [load] answers. *)
Definition answer (o : option CatacombPair) : res CatacombStoreError CatacombPair :=
  match o with Some p => Ok p | None => Err MissingPair end.

(** After a stop, [load] answers with one of the [allowed] generations. *)
Definition stop_safe (u : Z) (allowed : option CatacombPair -> Prop) (s : FS) : Prop :=
  forall s', stop s s' -> exists o, allowed o /\ returns u s' load (answer o).

Lemma members_lookup p :
  members p !! MASTER_FILE = Some (master p) /\ members p !! USER_FILE = Some (user p) /\
  members p !! IDENTITY_METADATA_FILE = pair_metadata p.
Proof. unfold members. by destruct (pair_metadata p). Qed.

Lemma member_files_all :
  MASTER_FILE ∈ member_files /\ USER_FILE ∈ member_files /\ IDENTITY_METADATA_FILE ∈ member_files.
Proof. unfold member_files. set_solver. Qed.

Lemma members_files p n bs : members p !! n = Some bs -> n ∈ member_files.
Proof.
  unfold members. destruct (pair_metadata p) as [md|];
    rewrite !lookup_insert_Some, lookup_empty; intros Hn; unfold member_files; set_solver.
Qed.

Lemma stop_clean_node n n' :
  stop_node n n' -> (match n with
                     | NFile _ _ clean => clean = true
                     | NDir _ vs ms => (exists v, vs = [v]) /\ ms = []
                     | NSymlink => True end) -> n' = n.
Proof.
  destruct 1 as [m c clean m' c' Hc|m vs mc m' v' Hm Hv|]; [|intros [[v ->] ->]|done].
  - intros ->. by destruct Hc as [-> ->].
  - apply list_elem_of_singleton in Hm as ->. do 2 f_equal. apply map_eq. intros c.
    destruct (Hv c) as (x & Hx & ->). apply list_elem_of_singleton in Hx. by subst.
Qed.

Section Stop.
Context (u : Z) (r : ino).

(** A synchronized node is the same after the stop. *)
Lemma stop_frozen s s' i n :
  stop s s' -> nodes s !! i = Some n ->
  (match n with
   | NFile _ _ clean => clean = true
   | NDir _ vs ms => (exists v, vs = [v]) /\ ms = []
   | NSymlink => True end) -> nodes s' !! i = Some n.
Proof. intros [Hn _] Hi Hc. destruct (Hn i n Hi) as (n' & -> & Hst). by rewrite (stop_clean_node n n'). Qed.

Lemma stop_contents s s' F v C :
  stop s s' -> F ⊆ nodes s -> contents u F v C -> contents u (nodes s') v C.
Proof.
  intros Hst HF Hc n Hin. specialize (Hc n Hin). destruct (v !! n) as [i|], (C !! n) as [bs|]; try done.
  destruct Hc as (m & Hm & Hi). exists m. split; [done|]. eapply stop_frozen; [done| |done].
  by eapply lookup_weaken.
Qed.

Lemma load_pair s v d dm p g rm rv :
  root s = Some r -> nodes s !! r = Some (NDir rm [rv] []) -> rv !! g = Some d ->
  nodes s !! d = Some (NDir dm [v] []) -> private_dir u dm ->
  contents u (nodes s) v (members p) -> valid_pair p -> returns u s (read_pair [g]) (Ok p).
Proof.
  intros Hr Hrn Hg Hd Hdm Hc (Hvm & Hvu & Hvd). destruct (members_lookup p) as (Lm & Lu & Ld).
  assert (resolve s [g] = Ok d) as Hrd.
  { unfold resolve. rewrite Hr. cbn [walk]. rewrite Hrn. cbn [current]. by rewrite Hg. }
  assert (forall n, resolve s [g; n] = match v !! n with Some i => Ok i | None => Err NotFound end) as Hn.
  { intros n. unfold resolve. rewrite Hr. cbn [walk]. rewrite Hrn. cbn [current]. rewrite Hg, Hd. cbn [current].
    by destruct (v !! n). }
  assert (forall n bs, members p !! n = Some bs -> exists i, resolve s [g; n] = Ok i /\ file_at u s i bs) as Hm.
  { intros n bs Hb. specialize (Hc n (members_files _ _ _ Hb)). rewrite Hb in Hc. rewrite Hn. destruct (v !! n) as [i|]; [|done].
    exists i. done. }
  eapply returns_bind; [by eapply (proj1 (returns_checked u s [g] d dm [v] Hrd Hd Hdm))|].
  cbn [app].
  destruct (Hm _ _ Lm) as (i & Hi & Hf). eapply returns_bind; [by eapply returns_blob|].
  destruct (Hm _ _ Lu) as (j & Hj & Hf'). eapply returns_bind; [by eapply returns_blob|].
  eapply (returns_bind u s _ _ (pair_metadata p)); [|destruct p; apply returns_ret].
  destruct (pair_metadata p) as [md|] eqn:Hmd.
  - destruct (Hm _ _ Ld) as (k & Hk & Hf2). by eapply returns_metadata_some.
  - apply returns_metadata_none. rewrite Hn. specialize (Hc IDENTITY_METADATA_FILE (proj2 (proj2 member_files_all))).
    rewrite Ld in Hc. by destruct (v !! IDENTITY_METADATA_FILE).
Qed.

Lemma load_marker s rm rv mi g :
  root s = Some r -> nodes s !! r = Some (NDir rm [rv] []) -> rv !! ACTIVE_MARKER = Some mi ->
  file_at u s mi (g ++ [10]) -> marker_text g -> returns u s read_active_generation (Ok g).
Proof.
  intros Hr Hrn Hmi Hf (Hg & Hutf & Hlen). destruct (returns_read_file u s mi _ Hf) as [Hr1 Hr2].
  destruct Hf as (m & Hm & Hi).
  assert (resolve s [ACTIVE_MARKER] = Ok mi) as Hrs.
  { unfold resolve. rewrite Hr. cbn [walk]. rewrite Hrn. cbn [current]. by rewrite Hmi. }
  eapply returns_bind; [apply (returns_err u s _ _ (Ok mi)); by eapply returns_open_file|].
  eapply returns_bind; [apply (returns_err u s _ _ (Ok _)); by apply returns_stat_file|].
  eapply returns_bind; [by apply returns_validate_file|]. cbn [size].
  replace ((len (g ++ [10]) =? 0) || (MAX_MARKER_SIZE <? len (g ++ [10]))) with false
    by (rewrite length_app; unfold MAX_MARKER_SIZE; cbn [length]; lia).
  eapply returns_bind; [by apply (returns_err u s _ _ (Ok _))|].
  eapply returns_bind; [by apply (returns_err u s _ _ (Ok 0))|]. cbn [Z.eqb negb].
  eapply returns_bind; [apply returns_lift_Ok; unfold Text.from_utf8; by rewrite Hutf|].
  eapply returns_bind; [apply returns_lift_Ok|].
  { unfold strip_suffix. rewrite length_app. cbn [length].
    replace (length g + 1 - 1)%nat with (length g) by lia.
    rewrite drop_app_length, bool_decide_eq_true_2, take_app_length by done.
    rewrite (proj2 (Nat.leb_le 1 (length g + 1))) by lia. done. }
  rewrite Hg. apply returns_ret.
Qed.

Lemma safe_stop allowed F W K N s :
  safe u allowed F K -> known r u F W K N s -> stop_safe u allowed s.
Proof.
  intros (mos & HK & Hmos) Hs s' Hst.
  destruct (kn_dir _ _ _ _ _ _ _ Hs) as (v & vs & m & ms & Hd & Hpm & Hv & _).
  destruct (stop_nodes _ _ Hst r _ Hd) as (n' & Hn' & Hsn). inversion Hsn as [|? ? ? rm v' Hm' Hv'|]; subst.
  assert (private_dir u rm) as Hrm by (rewrite Forall_forall in Hpm; by apply Hpm).
  assert (root s' = Some r) as Hr.
  { destruct (stop_root _ _ Hst) as [->|[Hc _]]; [by apply (kn_root _ _ _ _ _ _ _ Hs)|].
    by rewrite (kn_clean _ _ _ _ _ _ _ Hs) in Hc. }
  assert (forall n xs, K !! n = Some xs -> v' !! n ∈ xs) as HKv.
  { intros n xs Hx. destruct (Hv' n) as (x & Hin & ->). rewrite Forall_forall in Hv. by apply (Hv x Hin). }
  assert (resolve s' [] = Ok r) as Hrs by (unfold resolve; by rewrite Hr).
  pose proof (proj2 (returns_checked u s' [] r rm [v'] Hrs Hn' Hrm) eq_refl) as Hopen.
  destruct (Hmos _ (HKv _ _ HK)) as (o & Ho & Hdesc). exists o. split; [done|].
  unfold load. eapply returns_bind; [exact Hopen|].
  destruct (v' !! ACTIVE_MARKER) as [mi|] eqn:Hmi, o as [p|]; try done.
  - destruct Hdesc as (g & mm & d & dm & gv & Hmk & Hpmm & Hg & HKg & Hgd & Hdm & Hc & Hvp).
    pose proof (kn_F _ _ _ _ _ _ _ Hs) as HF.
    pose proof (HKv _ _ HKg) as Hgd'. apply list_elem_of_singleton in Hgd'.
    eapply returns_bind.
    + eapply load_marker; [done..| |done]. exists mm. split; [done|].
      eapply stop_frozen; [done|by eapply lookup_weaken|done].
    + eapply load_pair; [done|done|done| |done| |done].
      * eapply stop_frozen; [done|by eapply lookup_weaken|]. split; [by eexists|done].
      * by eapply stop_contents.
  - cbn [answer]. apply returns_bind_err. unfold read_active_generation, open_or. apply returns_bind_err.
    eapply returns_err_eq; [apply returns_open_missing|done].
    unfold resolve. rewrite Hr. cbn [walk]. rewrite Hn'. cbn [current]. by rewrite Hmi.
Qed.
End Stop.

(** ** Safety is kept by new files and new names *)

Lemma contents_mono u F F' v C : F ⊆ F' -> contents u F v C -> contents u F' v C.
Proof.
  intros HF Hc n Hin. specialize (Hc n Hin). destruct (v !! n), (C !! n); try done.
  destruct Hc as (m & ? & ?). exists m. split; [done|]. by eapply lookup_weaken.
Qed.

Lemma describes_mono u F F' K K' mo o :
  F ⊆ F' -> (forall g x, K !! g = Some [x] -> g <> ACTIVE_MARKER -> K' !! g = Some [x]) ->
  describes u F K mo o -> describes u F' K' mo o.
Proof.
  intros HF HK. destruct mo, o; try done.
  intros (g & m & d & dm & v & ? & ? & Hg & ? & ? & ? & ? & ?). exists g, m, d, dm, v.
  split_and!; try done; try (by eapply lookup_weaken); [|by eapply contents_mono].
  apply HK; [done|]. intros ->. destruct Hg as [Hg _]. done.
Qed.

Lemma safe_mono u allowed F F' K K' :
  F ⊆ F' -> (forall g x, K !! g = Some [x] -> g <> ACTIVE_MARKER -> K' !! g = Some [x]) ->
  K' !! ACTIVE_MARKER = K !! ACTIVE_MARKER -> safe u allowed F K -> safe u allowed F' K'.
Proof.
  intros HF HK HA (mos & Hm & Hs). exists mos. split; [congruence|]. intros mo Hin.
  destruct (Hs mo Hin) as (o & ? & ?). exists o. split; [done|]. by eapply describes_mono.
Qed.

Lemma safe_insert u allowed F K n xs :
  K !! n = None -> safe u allowed F K -> safe u allowed F (<[n := xs]> K).
Proof.
  intros Hn Hs. destruct (Hs) as (mos & Hm & _). eapply safe_mono; [done| | |exact Hs].
  - intros g x Hg _. rewrite lookup_insert_ne by congruence. done.
  - apply lookup_insert_ne. congruence.
Qed.

(** ** The methods *)

Section Protocol.
Context (u : Z) (r : ino).
Context (allowed : option CatacombPair -> Prop).
Context (F0 : gmap ino node) (K0 : gmap name (list (option ino))) (Hsafe : safe u allowed F0 K0).
Context (tk : bytes).

Abbreviation sg := (STAGE ++ tk).
Abbreviation gn := (PAIR ++ tk).
Abbreviation tmp := (ACTIVE ++ tk ++ TMP).
Abbreviation rc := (RECOVERY ++ tk).
Abbreviation H := (stop_safe u allowed).

Context (Hfree : K0 !! sg = None /\ K0 !! gn = None /\ K0 !! tmp = None /\ K0 !! rc = None).

Record tx_names (t : Transaction) : Prop := mkNames {
  nm_directory : directory t = r;
  nm_stage : stage t = sg;
  nm_generation : generation t = gn;
  nm_temporary : marker_temporary t = tmp;
  nm_recovery : recovery_marker t = rc
}.

Lemma names_differ : NoDup [tmp; sg; gn; rc; ACTIVE_MARKER].
Proof.
  apply (NoDup_fmap_1 (take 2)).
  change (NoDup [[46; 97]; [46; 115]; [112; 97]; [46; 114]; [97; 99]]).
  apply (bool_decide_unpack _). vm_compute. exact I.
Qed.

(** The constraints on the names once the generation and its reservation are durable. *)
Definition tx_constraints (t : Transaction) (d ri : ino) : gmap name (list (option ino)) :=
  let K := if generation_renamed t then <[gn := [Some d]]> K0 else K0 in
  if recovery_reserved t then <[rc := [Some ri]]> K else K.

(** The nodes and names of a transaction: its directory, with its metadata, entries and
    whether they are synchronized, and its reservation. *)
Record view : Type := mkView {
  vW : gmap ino node; vN : gmap name (option ino);
  vd : ino; vdm : Meta; vv : gmap name ino; vmc : list Meta; vri : ino
}.

(** The members [C] are durable. *)
Record facts (C : gmap name bytes) (t : Transaction) (x : view) : Prop := mkFacts {
  fc_names : tx_names t;
  fc_replaced : marker_replaced t = false;
  fc_renamed : recovery_reserved t = true -> generation_renamed t = true;
  fc_stage : vN x !! sg = Some (if generation_renamed t then None else Some (vd x));
  fc_generation : vN x !! gn = Some (if generation_renamed t then Some (vd x) else None);
  fc_dir : vW x !! vd x = Some (NDir (vdm x) [vv x] (vmc x));
  fc_private : private_dir u (vdm x);
  fc_synced : C <> ∅ -> vmc x = [];
  fc_contents : contents u (vW x) (vv x) C;
  fc_reserved : recovery_reserved t = true ->
                exists m, private_file u m /\ vW x !! vri x = Some (NFile m [] true)
}.

Definition tx_known (C : gmap name bytes) (t : Transaction) (s : FS) : Prop :=
  exists x, facts C t x /\ known r u F0 (vW x) (tx_constraints t (vd x) (vri x)) (vN x) s.

(** A transaction that can be dropped. *)
Definition droppable (t : Transaction) (s : FS) : Prop :=
  exists F K W N, safe u allowed F K /\ known r u F W K N s /\ tidy K t W N.

Lemma safe_tx t d ri : safe u allowed F0 (tx_constraints t d ri).
Proof.
  destruct Hfree as (Hs & Hg & _ & Hr). unfold tx_constraints.
  assert (rc <> gn) as Hne by (pose proof names_differ as Hn; rewrite !NoDup_cons in Hn; set_solver).
  destruct (generation_renamed t), (recovery_reserved t); repeat apply safe_insert; try done.
  by rewrite lookup_insert_ne.
Qed.

Lemma allows_safe F K : safe u allowed F K -> allows u H r F K.
Proof. intros Hs W N s Hk. by eapply safe_stop. Qed.

(** Knowledge with the constraints of [K0] is enough to drop. *)
Lemma droppable_intro t W N K s x y :
  tx_names t -> known r u F0 W K N s -> K0 ⊆ K ->
  N !! sg = Some x -> owns W x -> N !! gn = Some y -> owns W y -> droppable t s.
Proof.
  intros [Hd Hs Hg Ht Hr] Hk HK Hx Hox Hy Hoy. destruct Hfree as (Fs & Fg & Ft & _).
  exists F0, K0, W, N. split_and!; [done| |].
  - eapply known_weaken; [exact Hk|done..|]. intros n xs Hn. exists xs. split; [by eapply lookup_weaken|done].
  - split; rewrite ?Hs, ?Hg, ?Ht; try done; [|by eauto..].
    pose proof names_differ as Hn. rewrite !NoDup_cons in Hn. rewrite !NoDup_cons. set_solver.
Qed.

Lemma K0_constraints t d ri : K0 ⊆ tx_constraints t d ri.
Proof.
  destruct Hfree as (_ & Hg & _ & Hr). unfold tx_constraints.
  assert (rc <> gn) as Hne by (pose proof names_differ as Hn; rewrite !NoDup_cons in Hn; set_solver).
  destruct (generation_renamed t), (recovery_reserved t); try done.
  - transitivity (<[gn := [Some d]]> K0); apply insert_subseteq; [done|]. by rewrite lookup_insert_ne.
  - by apply insert_subseteq.
  - by apply insert_subseteq.
Qed.

Lemma owns_facts C t x :
  facts C t x -> owns (vW x) (if generation_renamed t then None else Some (vd x)) /\
                 owns (vW x) (if generation_renamed t then Some (vd x) else None).
Proof. intros Hf. pose proof (fc_dir _ _ _ Hf). destruct (generation_renamed t); cbn; eauto. Qed.

(** Other files and names may have changed. *)
Lemma droppable_changed C t x K ns s :
  facts C t x -> K0 ⊆ K -> sg ∉ ns -> gn ∉ ns ->
  changed u r F0 K (vW x) (vN x) ns s -> droppable t s.
Proof.
  intros Hf HK Hns Hng (W' & N' & HW & HN & Hk). destruct (owns_facts _ _ _ Hf).
  eapply droppable_intro; [apply Hf|exact Hk|exact HK|apply HN; [done|apply Hf]|by apply HW
    |apply HN; [done|apply Hf]|by apply HW].
Qed.

Lemma tx_known_droppable C t s : tx_known C t s -> droppable t s.
Proof.
  intros (x & Hf & Hk). eapply (droppable_changed C t x _ []); [done|apply K0_constraints|set_solver..|].
  by apply changed_refl.
Qed.

Lemma facts_state C t x st0 : facts C t x -> facts C (set_state st0 t) x.
Proof. intros [[]]. by split. Qed.

Lemma contents_insert W v C d dm n i m data mc :
  private_file u m -> W !! i = None -> (exists vs, W !! d = Some (NDir dm vs mc)) ->
  contents u W v C ->
  contents u (<[d := NDir dm [<[n := i]> v] []]> (<[i := NFile m data true]> W)) (<[n := i]> v) (<[n := data]> C).
Proof.
  intros Hm Hi [vs Hd] Hc n' Hin. destruct (decide (n' = n)) as [->|Hn].
  - rewrite !lookup_insert_eq. exists m. split; [done|]. by rewrite lookup_insert_ne, lookup_insert_eq by congruence.
  - rewrite !(lookup_insert_ne _ n n') by done. specialize (Hc n' Hin). destruct (v !! n') as [j|], (C !! n') as [bs|]; try done.
    destruct Hc as (m' & ? & Hj). exists m'. split; [done|].
    rewrite !lookup_insert_ne by congruence. done.
Qed.

Lemma write_member_tx C t0 n data st0 :
  run_tx u H (fun t s => t = t0 /\ tx_known C t0 s) (write_member n data st0)
    (post_tx (fun _ t s => t = set_state st0 t0 /\ tx_known (<[n := data]> C) t s) droppable).
Proof.
  unfold write_member. apply run_tx_get. apply run_tx_ex. intros x. apply run_tx_pure. intros Hf.
  set (K := tx_constraints t0 (vd x) (vri x)).
  assert (allows u H r F0 K) as HA by apply allows_safe, safe_tx.
  assert (vN x !! write_directory t0 = Some (Some (vd x))) as Hwd.
  { pose proof (fc_stage _ _ _ Hf). pose proof (fc_generation _ _ _ Hf). unfold write_directory.
    destruct (fc_names _ _ _ Hf) as [_ -> -> _ _]. by destruct (generation_renamed t0). }
  assert (forall s, changed u r F0 K (vW x) (vN x) [] s -> droppable t0 s) as Hdrop.
  { intros s. eapply droppable_changed; [exact Hf|apply K0_constraints|set_solver..]. }
  eapply run_tx_then; [eapply run_new_blob; [exact HA|exact Hwd|apply Hf]|exact Hdrop|]. intros [].
  apply run_tx_ex. intros i. apply run_tx_ex. intros m. apply run_tx_pure. intros Hm.
  apply run_tx_pure. intros HWi. apply run_tx_pure. intros Hvn. apply run_tx_pure. intros Hne.
  eapply run_tx_then; [eapply run_sync_directory; [exact HA|exact Hwd|apply lookup_insert_eq]| |].
  { intros s Hk. apply Hdrop. eexists _, _. split_and!; [|done|exact Hk].
    eapply retains_trans; [|apply retains_dir]. apply retains_subseteq. by apply insert_subseteq. }
  intros []. cbn [current]. rewrite insert_insert_eq.
  apply run_tx_set. intros t s [-> Hk]. split; [done|].
  eexists (mkView _ (vN x) (vd x) (vdm x) (<[n := i]> (vv x)) [] (vri x)). split; [|exact Hk].
  apply facts_state. destruct Hf. split; cbn; try done.
  - apply lookup_insert_eq.
  - eapply contents_insert; eauto.
  - intros Hr'. destruct (fc_reserved0 Hr') as (m' & ? & Hw). exists m'. split; [done|].
    rewrite !lookup_insert_ne by congruence. done.
Qed.

(** With a durable reservation, or once the marker is replaced, little is dropped. *)
Lemma droppable_kept t F K W N s :
  tx_names t -> safe u allowed F K -> known r u F W K N s -> K !! tmp = None ->
  recovery_reserved t = true \/ marker_replaced t = true /\ K !! sg = None /\ N !! sg = Some None ->
  droppable t s.
Proof.
  intros [Hd Hs Hg Ht Hr] HS Hk HK Hflags. exists F, K, W, N. split_and!; [done..|].
  split; rewrite ?Hs, ?Hg, ?Ht; try done.
  - pose proof names_differ as Hn. rewrite !NoDup_cons in Hn. rewrite !NoDup_cons. set_solver.
  - intros Hres. destruct Hflags as [?|(? & ? & ?)]; [congruence|]. split; [done|]. by exists None.
  - intros Hres Hrep. destruct Hflags as [?|(? & _)]; congruence.
Qed.

Lemma names_ne : sg <> gn /\ rc <> gn /\ rc <> sg /\ tmp <> sg /\ tmp <> gn /\ tmp <> rc /\
  ACTIVE_MARKER <> sg /\ ACTIVE_MARKER <> gn /\ ACTIVE_MARKER <> rc /\ ACTIVE_MARKER <> tmp.
Proof. clear Hsafe Hfree. pose proof names_differ as Hn. rewrite !NoDup_cons in Hn. set_solver. Qed.

(** The constraint a synchronized name adds. *)
Lemma sync_name (K : gmap name (list (option ino))) (N : gmap name (option ino)) n x :
  N !! n = Some x -> forall n' xs', <[n := [x]]> K !! n' = Some xs' ->
  (exists y, N !! n' = Some y /\ y ∈ xs') \/ exists xs, K !! n' = Some xs /\ xs ⊆ xs'.
Proof.
  intros Hn n' xs' [[<- <-]|[? Hx]]%lookup_insert_Some; [left|right].
  - exists x. split; [done|]. by apply list_elem_of_singleton.
  - by exists xs'.
Qed.

(** Renaming the stage and synchronizing: from then on every version has the generation. *)
Lemma rename_stage_tx C t0 :
  generation_renamed t0 = false -> recovery_reserved t0 = false ->
  run_tx u H (fun t s => t = t0 /\ tx_known C t0 s)
    (do! _ := on_store (or_unavailable (rename (stage t0) (generation t0))) in
     do! _ := tx_set set_renamed in
     on_store (or_unavailable (sync_all (directory t0))))
    (post_tx (fun _ t s => t = set_renamed t0 /\ tx_known C t s) droppable).
Proof.
  intros Hren Hres. apply run_tx_ex. intros x. apply run_tx_pure. intros Hf.
  pose proof (fc_names _ _ _ Hf) as [Hd Hs Hg Ht Hrc]. rewrite Hd, Hs, Hg.
  destruct names_ne as (N1 & N2 & _). destruct Hfree as (Fs & Fg & Ft & Fr).
  assert (tx_constraints t0 (vd x) (vri x) = K0) as -> by (unfold tx_constraints; by rewrite Hren, Hres).
  pose proof (fc_stage _ _ _ Hf) as Hst. pose proof (fc_generation _ _ _ Hf) as Hgn. rewrite Hren in Hst, Hgn.
  set (N' := <[gn := Some (vd x)]> (<[sg := None]> (vN x))).
  assert (N' !! sg = Some None /\ N' !! gn = Some (Some (vd x))) as [HNs HNg].
  { unfold N'. by rewrite lookup_insert_ne, !lookup_insert_eq by done. }
  eapply run_tx_then; [apply run_err; eapply run_rename; [by apply allows_safe|exact Hst|exact Fs|exact N1|]| |].
  { intros xs Hx. by rewrite Fg in Hx. }
  { intros s Hk'. eapply (droppable_changed C t0 x K0 []); [done|done|set_solver..|]. by apply changed_refl. }
  intros []. apply run_tx_assign. fold N'.
  set (K1 := <[gn := [Some (vd x)]]> K0).
  eapply run_tx_bad with (B := fun t s => t = set_renamed t0 /\ known r u F0 (vW x) K0 N' s).
  2: { intros t s [-> Hk]. eapply droppable_intro; [by split|exact Hk|done|exact HNs|done|exact HNg|].
       pose proof (fc_dir _ _ _ Hf). cbn. eauto. }
  eapply run_tx_weaken; [apply run_tx_call; apply run_err; eapply run_sync_root with (K' := K1)| |].
  - by apply allows_safe.
  - intros s Hk. apply (allows_safe F0 K1) in Hk; [done|]. by apply safe_insert.
  - by apply sync_name.
  - intros t s Hts. exact Hts.
  - intros [[]|e|] t s; cbn; [|done|done]. intros [-> Hk]. split; [done|].
    exists (mkView (vW x) N' (vd x) (vdm x) (vv x) (vmc x) (vri x)). split.
    + destruct Hf. split; cbn; try done; try (by split).
    + unfold tx_constraints. cbn. by rewrite Hres.
Qed.

Lemma reserve_tx t0 :
  state t0 = TransactionState.Empty -> generation_renamed t0 = false -> recovery_reserved t0 = false ->
  run_tx u H (fun t s => t = t0 /\ tx_known ∅ t0 s) reserve_recovery
    (post_tx (fun _ t s => t = set_reserved true (set_renamed t0) /\ tx_known ∅ t s) droppable).
Proof.
  intros Hst Hren Hres. unfold reserve_recovery. apply run_tx_get.
  rewrite Hst, Hres. cbn [negb bool_decide decide orb].
  replace (negb (bool_decide (TransactionState.Empty = TransactionState.Empty)) || false) with false by done.
  do 2 apply run_tx_assoc. eapply run_tx_seq.
  { apply run_tx_assoc_l. by apply (rename_stage_tx ∅ t0). }
  intros []. eapply run_tx_weaken with (P' := fun t s => t = set_renamed t0 /\ tx_known ∅ (set_renamed t0) s);
    [|by intros t s [-> ?]|done].
  apply run_tx_ex. intros x. apply run_tx_pure. intros Hf. set (t1 := set_renamed t0) in *.
  pose proof (fc_names _ _ _ Hf) as [Hd Hs Hg Ht Hrc]. change (directory t0) with (directory t1).
  change (recovery_marker t0) with (recovery_marker t1). rewrite Hd, Hrc.
  destruct names_ne as (N1 & N2 & N3 & N4 & N5 & N6 & _). destruct Hfree as (Fs & Fg & Ft & Fr).
  set (K1 := <[gn := [Some (vd x)]]> K0).
  assert (tx_constraints t1 (vd x) (vri x) = K1) as -> by (unfold tx_constraints; cbn; by rewrite Hres).
  assert (K1 !! rc = None) as Hrc1 by (unfold K1; by rewrite lookup_insert_ne).
  assert (safe u allowed F0 K1) as HS1 by (by apply safe_insert).
  assert (K1 !! tmp = None) as Htmp by (unfold K1; by rewrite lookup_insert_ne).
  pose proof (fc_stage _ _ _ Hf) as Hsg. pose proof (fc_generation _ _ _ Hf) as Hgn. cbn in Hsg, Hgn.
  eapply run_tx_then; [apply run_err; eapply run_create_new; [by apply allows_safe|done]| |].
  { intros s Hk. eapply (droppable_changed ∅ t1 x K1 []); [done|by apply insert_subseteq|set_solver..|].
    by apply changed_refl. }
  intros i. apply run_tx_ex. intros m. apply run_tx_pure. intros Hu. apply run_tx_pure. intros Hnl.
  apply run_tx_pure. intros HWi. apply run_tx_pure. intros HFi. apply run_tx_pure. intros Hir.
  apply run_tx_assign. set (t2 := set_reserved true t1).
  assert (tx_names t2) as Hnm2 by (by split).
  assert (forall W N s, known r u F0 W K1 N s -> droppable t2 s) as Hdrop.
  { intros W N s Hk. eapply droppable_kept; [done|exact HS1|exact Hk|done|by left]. }
  eapply run_tx_then; [apply run_err; eapply run_chmod; [by apply allows_safe|apply lookup_insert_eq]|by intros s; apply Hdrop|].
  intros []. rewrite insert_insert_eq. cbn [chmod_node].
  eapply run_tx_then; [apply run_err; eapply run_sync_file; [by apply allows_safe|apply lookup_insert_eq]|by intros s; apply Hdrop|].
  intros []. rewrite insert_insert_eq.
  set (m2 := mkMeta _ _ _). set (K2 := <[rc := [Some i]]> K1).
  eapply run_tx_bad with (B := fun t s => t = t2 /\
    known r u F0 (<[i := NFile m2 [] true]> (vW x)) K1 (<[rc := Some i]> (vN x)) s).
  2: { intros t s [-> Hk]. by eapply Hdrop. }
  eapply run_tx_weaken; [apply run_tx_call; apply run_err; eapply run_sync_root with (K' := K2)| |].
  - by apply allows_safe.
  - intros s Hk. apply (allows_safe F0 K2) in Hk; [done|]. by apply safe_insert.
  - apply sync_name. apply lookup_insert_eq.
  - intros t s Hts. exact Hts.
  - intros [[]|e|] t s; cbn; [|done|done]. intros [-> Hk]. split; [done|].
    exists (mkView (<[i := NFile m2 [] true]> (vW x)) (<[rc := Some i]> (vN x)) (vd x) (vdm x) (vv x) (vmc x) i).
    split; [|exact Hk]. destruct Hf. split; cbn; try done.
    + by rewrite lookup_insert_ne.
    + by rewrite lookup_insert_ne.
    + by rewrite lookup_insert_ne by congruence.
    + intros _. exists m2. split; [done|]. apply lookup_insert_eq.
Qed.

(** The replacement of the marker: everything of the transaction is frozen. *)
Lemma run_replace_marker W K N i mos :
  allows u H r F0 K -> K !! tmp = None -> K !! ACTIVE_MARKER = Some mos -> N !! tmp = Some (Some i) ->
  let K' := <[ACTIVE_MARKER := Some i :: mos]> K in
  allows u H r (F0 ∪ W) K' ->
  run u H (known r u F0 W K N) (rename tmp ACTIVE_MARKER)
    (post (fun _ => known r u (F0 ∪ W) ∅ K' (<[ACTIVE_MARKER := Some i]> (<[tmp := None]> N)))
       (known r u F0 W K N)).
Proof.
  clear Hsafe Hfree. intros HA Htmp Hact HN K' HA'. by apply run_replace.
Qed.

(** What a finished promotion leaves. *)
Definition promoted (p : CatacombPair) (t : Transaction) (s : FS) : Prop :=
  exists F K W N, safe u (fun o => o = Some p) F K /\ known r u F W K N s /\ tidy K t W N.

(** Once the marker is written, both generations are described. *)
Lemma describes_new t x p i m W1 K :
  facts (members p) t x -> generation_renamed t = true -> valid_pair p -> marker_text gn ->
  private_file u m -> W1 = <[i := NFile m (gn ++ [10]) true]> (vW x) -> vW x !! i = None ->
  F0 ##ₘ W1 -> K !! gn = Some [Some (vd x)] ->
  describes u (F0 ∪ W1) K (Some i) (Some p).
Proof.
  intros Hf Hren Hvp Hg Hm -> Hi Hdis HK.
  assert (vW x ⊆ <[i := NFile m (gn ++ [10]) true]> (vW x)) as Hsub by (by apply insert_subseteq).
  set (W1 := <[i := _]> (vW x)) in *.
  assert (W1 ⊆ F0 ∪ W1) as Hsub2 by (by apply map_union_subseteq_r).
  exists gn, m, (vd x), (vdm x), (vv x). split_and!; try done.
  - eapply lookup_weaken; [|exact Hsub2]. apply lookup_insert_eq.
  - eapply lookup_weaken; [|exact Hsub2]. eapply lookup_weaken; [|exact Hsub].
    rewrite (fc_dir _ _ _ Hf). rewrite (fc_synced _ _ _ Hf); [done|].
    intros He. assert (members p !! MASTER_FILE = None) as Hx by (by rewrite He).
    by rewrite (proj1 (members_lookup p)) in Hx.
  - apply Hf.
  - eapply contents_mono; [exact Hsub2|]. eapply contents_mono; [exact Hsub|]. apply Hf.
Qed.

Lemma tidy_kept t K W N :
  tx_names t -> K !! tmp = None -> K !! sg = None -> N !! sg = Some None -> marker_replaced t = true ->
  tidy K t W N.
Proof.
  intros [Hd Hs Hg Ht Hr] HKt HKs HN Hrep. split; rewrite ?Hs, ?Hg, ?Ht; try done.
  - pose proof names_differ as Hn. rewrite !NoDup_cons in Hn. rewrite !NoDup_cons. set_solver.
  - intros _. split; [done|]. by exists None.
  - congruence.
Qed.

(** The constraints after the promotion: the new marker and the new generation. *)
Definition final_constraints (d i : ino) : gmap name (list (option ino)) :=
  <[ACTIVE_MARKER := [Some i]]> (<[gn := [Some d]]> K0).

(** Replacing the marker, synchronizing, and removing the reservation. *)
Lemma select_tx t p x i m :
  facts (members p) t x -> generation_renamed t = true -> valid_pair p -> marker_text gn ->
  allowed (Some p) -> private_file u m -> vW x !! i = None ->
  let W1 := <[i := NFile m (gn ++ [10]) true]> (vW x) in
  let K := tx_constraints t (vd x) (vri x) in
  let N := <[tmp := Some i]> (vN x) in
  run_tx u H (fun t' s => t' = t /\ known r u F0 W1 K N s)
    (do! _ := on_store (or_unavailable (rename (marker_temporary t) ACTIVE_MARKER)) in
     do! _ := tx_set set_replaced in
     do! _ := on_store (mapM_err (fun _ => PromotionDurabilityUnknown) (sync_all (directory t))) in
     if recovery_reserved t then
       do! _ := on_store (remove_private_file [recovery_marker t]) in
       do! _ := on_store (or_unavailable (sync_all (directory t))) in
       tx_set (set_reserved false)
     else ret ())
    (post_tx (fun _ => promoted p) droppable).
Proof.
  intros Hf Hren Hvp Hg Hal Hm Hi W1 K N.
  pose proof (fc_names _ _ _ Hf) as Hnm. pose proof Hnm as [Hd Hs Hgt Ht Hrc]. rewrite Hd, Ht, Hrc.
  destruct names_ne as (N1 & N2 & N3 & N4 & N5 & N6 & N7 & N8 & N9 & N10). destruct Hfree as (Fs & Fg & Ft & Fr).
  destruct Hsafe as (mos & Hmos & Hdes).
  assert (K = (if recovery_reserved t then <[rc := [Some (vri x)]]> else (fun K => K)) (<[gn := [Some (vd x)]]> K0)) as HK
    by (unfold K, tx_constraints; rewrite Hren; by destruct (recovery_reserved t)).
  assert (K !! gn = Some [Some (vd x)] /\ K !! sg = None /\ K !! tmp = None /\ K !! ACTIVE_MARKER = Some mos)
    as (Kg & Ks & Kt & Ka).
  { rewrite HK. destruct (recovery_reserved t); simplify_map_eq; done. }
  eapply run_tx_weaken with (P' := fun t' s => t' = t /\ (F0 ##ₘ W1 /\ known r u F0 W1 K N s)); [|intros t' s [-> Hk]|done].
  2: { split; [done|]. split; [by apply Hk|done]. }
  apply run_tx_pure. intros Hdis. set (K' := <[ACTIVE_MARKER := Some i :: mos]> K).
  assert (describes u (F0 ∪ W1) K' (Some i) (Some p)) as Hnew.
  { eapply describes_new; [exact Hf|done..|]. unfold K'. by rewrite lookup_insert_ne. }
  assert (safe u allowed (F0 ∪ W1) K') as HS'.
  { exists (Some i :: mos). split; [apply lookup_insert_eq|]. intros mo [->|Hin]%elem_of_cons; [by exists (Some p)|].
    destruct (Hdes mo Hin) as (o & ? & Hdo). exists o. split; [done|].
    eapply describes_mono; [apply map_union_subseteq_l| |exact Hdo]. intros g y Hy Hne. unfold K'.
    rewrite lookup_insert_ne by done. eapply lookup_weaken; [exact Hy|apply K0_constraints]. }
  assert (describes u (F0 ∪ W1) (final_constraints (vd x) i) (Some i) (Some p)) as Hnew2.
  { eapply describes_new; [exact Hf|done..|]. unfold final_constraints.
    by rewrite lookup_insert_ne, lookup_insert_eq by done. }
  assert (forall al, al (Some p) -> safe u al (F0 ∪ W1) (final_constraints (vd x) i)) as HS2.
  { intros al Hp. exists [Some i]. split; [apply lookup_insert_eq|]. intros mo ->%list_elem_of_singleton. by exists (Some p). }
  pose proof (fc_stage _ _ _ Hf) as Hsg. rewrite Hren in Hsg.
  eapply run_tx_then; [apply run_err; eapply (run_replace_marker W1 K N i mos)| |].
  { apply allows_safe, safe_tx. } { done. } { done. } { apply lookup_insert_eq. } { by apply allows_safe. }
  { intros s Hk. eapply (droppable_changed _ t x K [tmp]); [exact Hf|apply K0_constraints|set_solver..|].
    exists W1, N. split_and!; [apply retains_subseteq; by apply insert_subseteq| |done].
    intros n y Hn Hy. unfold N. rewrite lookup_insert_ne by set_solver. done. }
  intros []. fold K'. set (N' := <[ACTIVE_MARKER := Some i]> (<[tmp := None]> N)).
  assert (N' !! sg = Some None) as HNs by (unfold N', N; by simplify_map_eq).
  apply run_tx_assign. set (t1 := set_replaced t). assert (tx_names t1) as Hnm1 by (by split).
  set (K2 := final_constraints (vd x) i) in *.
  assert (K2 !! tmp = None /\ K2 !! sg = None /\ K2 !! rc = None) as (K2t & K2s & K2r).
  { unfold K2, final_constraints. by simplify_map_eq. }
  assert (forall W N s, known r u (F0 ∪ W1) W K2 N s -> N !! sg = Some None -> droppable t1 s) as Hdrop.
  { intros W2 N2' s Hk HN2. eapply droppable_kept; [done|apply (HS2 allowed); done|exact Hk|done|]. by right. }
  eapply run_tx_then; [apply run_err; eapply (run_sync_root u H r (F0 ∪ W1) K') with (K' := K2)| |].
  { by apply allows_safe. }
  { intros s Hk. apply (allows_safe (F0 ∪ W1) K2) in Hk; [done|]. by apply HS2. }
  { intros n xs. unfold K2, final_constraints. intros [[<- <-]|[Hn [[<- <-]|[? Hx]]%lookup_insert_Some]]%lookup_insert_Some.
    - left. exists (Some i). split; [apply lookup_insert_eq|set_solver].
    - right. exists [Some (vd x)]. unfold K'. by rewrite lookup_insert_ne.
    - right. exists xs. split; [|done]. unfold K'. rewrite lookup_insert_ne by done.
      eapply lookup_weaken; [exact Hx|apply K0_constraints]. }
  { intros s Hk. eapply droppable_kept; [done|exact HS'|exact Hk|unfold K'; by simplify_map_eq|].
    right. split_and!; [done|unfold K'; by simplify_map_eq|done]. }
  intros []. destruct (recovery_reserved t).
  - eapply run_tx_then; [eapply (run_remove_file u H r (F0 ∪ W1) K2); [apply allows_safe; by apply HS2|done]| |].
    { intros s (W2 & N2' & _ & HN & Hk). eapply Hdrop; [exact Hk|]. apply HN; [set_solver|done]. }
    intros []. apply run_tx_ex. intros W2. apply run_tx_ex. intros N2'.
    apply run_tx_pure. intros _. apply run_tx_pure. intros HN.
    assert (N2' !! sg = Some None) as HNs2 by (apply HN; [set_solver|done]).
    eapply run_tx_then; [apply run_err; eapply (run_sync_root u H r (F0 ∪ W1) K2) with (K' := K2)| |].
    { apply allows_safe; by apply HS2. }
    { intros s Hk. apply (allows_safe (F0 ∪ W1) K2) in Hk; [done|]. by apply HS2. }
    { intros n xs Hx. right. by exists xs. }
    { intros s Hk. by eapply Hdrop. }
    intros []. apply run_tx_set. intros t' s [-> Hk]. exists (F0 ∪ W1), K2, W2, N2'.
    split_and!; [by apply HS2|done|]. apply tidy_kept; [by split|done..].
  - apply run_tx_lift. intros t' s [-> Hk]. exists (F0 ∪ W1), K2, ∅, N'.
    split_and!; [by apply HS2|done|]. by apply tidy_kept.
Qed.

Lemma promote_tx t0 p :
  valid_pair p -> marker_text gn -> allowed (Some p) ->
  run_tx u H (fun t s => t = t0 /\ tx_known (members p) t0 s) (promote_body (Ok ()))
    (post_tx (fun _ => promoted p) droppable).
Proof.
  intros Hvp Hg Hal. unfold promote_body. apply run_tx_get.
  eapply run_tx_seq with (R := fun _ t s => exists t1, t = t1 /\ generation_renamed t1 = true /\
    directory t1 = directory t0 /\ marker_temporary t1 = marker_temporary t0 /\ generation t1 = generation t0 /\
    recovery_marker t1 = recovery_marker t0 /\ recovery_reserved t1 = recovery_reserved t0 /\
    tx_known (members p) t1 s).
  { destruct (generation_renamed t0) eqn:Hren.
    - apply run_tx_lift. intros t s [-> Hk]. cbn. by exists t0.
    - apply run_tx_ex. intros x. apply run_tx_pure. intros Hf.
      assert (recovery_reserved t0 = false) as Hres.
      { destruct (recovery_reserved t0) eqn:Hr; [|done]. pose proof (fc_renamed _ _ _ Hf Hr). congruence. }
      eapply run_tx_weaken; [by apply (rename_stage_tx (members p) t0)| |].
      + intros t s [-> Hk]. split; [done|]. by exists x.
      + intros [[]|e|] t s; cbn; [|done|done]. intros [-> Hk]. by exists (set_renamed t0). }
  intros []. intros w t Hp Hh (t1 & -> & Hren & Hd & Ht & Hgt & Hr & Hres & Hk). revert w Hp Hh Hk.
  rewrite <- Hd, <- Ht, <- Hgt, <- Hr, <- Hres.
  assert (run_tx u H (fun t s => t = t1 /\ tx_known (members p) t1 s)
    (do! _ := lift (Ok ()) in
     do! _ := on_store (write_marker [marker_temporary t1] (generation t1)) in
     do! _ := on_store (or_unavailable (rename (marker_temporary t1) ACTIVE_MARKER)) in
     do! _ := tx_set set_replaced in
     do! _ := on_store (mapM_err (fun _ => PromotionDurabilityUnknown) (sync_all (directory t1))) in
     if recovery_reserved t1 then
       do! _ := on_store (remove_private_file [recovery_marker t1]) in
       do! _ := on_store (or_unavailable (sync_all (directory t1))) in
       tx_set (set_reserved false)
     else ret ()) (post_tx (fun _ => promoted p) droppable)) as Hrun.
  2: { intros w Hp Hh Hk. by apply (Hrun w t1). }
  eapply run_tx_seq with (R := fun _ t s => t = t1 /\ tx_known (members p) t1 s); [by apply run_tx_lift|].
  intros []. apply run_tx_ex. intros x. apply run_tx_pure. intros Hf.
  pose proof (fc_names _ _ _ Hf) as [_ _ Hgn Htm _]. rewrite Hgn. rewrite Htm at 1.
  set (K := tx_constraints t1 (vd x) (vri x)). destruct names_ne as (N1 & N2 & N3 & N4 & N5 & N6 & _).
  assert (K !! tmp = None) as Kt.
  { unfold K, tx_constraints. rewrite Hren. destruct Hfree as (_ & _ & Ft & _).
    destruct (recovery_reserved t1); by simplify_map_eq. }
  eapply run_tx_then; [eapply run_marker; [apply allows_safe, safe_tx|exact Kt]| |].
  { intros s Hk. eapply (droppable_changed _ t1 x K [tmp]); [exact Hf|apply K0_constraints|set_solver..|done]. }
  intros []. apply run_tx_ex. intros i. apply run_tx_ex. intros m.
  apply run_tx_pure. intros Hm. apply run_tx_pure. intros Hi. by apply select_tx.
Qed.

(** Dropping keeps what is selected. *)
Lemma consume_run {A} (m : M (world * Transaction) CatacombStoreError A) t0 P (good : Transaction -> FS -> Prop) fin :
  run_tx u H (fun t s => t = t0 /\ P s) m (post_tx (fun _ => good) droppable) ->
  (forall t s, good t s -> exists F K W N, allows u H r F K /\ known r u F W K N s /\ tidy K t W N /\
     forall W' N' s', known r u F W' K N' s' -> fin s') ->
  run u H P (consume m t0) (post (fun _ => fin) (fun _ => True)).
Proof.
  intros Hm Hg w Hp Hh HP. destruct (Hm w t0 Hp Hh (conj eq_refl HP)) as (x & w' & t' & Hx & Hp' & Hh' & HQ).
  unfold consume. rewrite Hx. destruct x as [a|e|]; [| |done].
  - destruct (Hg _ _ HQ) as (F & K & W & N & HA & Hk & Ht & Hfin).
    destruct (run_drop u H r F K HA t' W N w' Ht Hp' Hh' Hk) as (? & ? & W' & N' & Hk').
    eexists _, _. split; [reflexivity|]. split_and!; [done..|]. by eapply Hfin.
  - destruct HQ as (F & K & W & N & HS & Hk & Ht).
    destruct (run_drop u H r F K (allows_safe F K HS) t' W N w' Ht Hp' Hh' Hk) as (? & ? & _).
    eexists _, _. split; [reflexivity|]. by split_and!.
Qed.

Lemma promoted_drop p t s :
  allowed (Some p) -> promoted p t s -> exists F K W N, allows u H r F K /\ known r u F W K N s /\ tidy K t W N /\
     forall W' N' s', known r u F W' K N' s' -> stop_safe u (fun o => o = Some p) s'.
Proof.
  intros Hal (F & K & W & N & HS & Hk & Ht). exists F, K, W, N. split_and!; try done.
  - apply allows_safe. destruct HS as (mos & ? & Hd). exists mos. split; [done|]. intros mo Hin.
    destruct (Hd mo Hin) as (o & -> & ?). by exists (Some p).
  - intros W' N' s' Hk'. by eapply safe_stop.
Qed.

(** ** The methods with their guards *)

Lemma write_user_tx C t0 data :
  state t0 = TransactionState.Empty \/ state t0 = TransactionState.MetadataDurable ->
  validate_blob data = Ok () ->
  run_tx u H (fun t s => t = t0 /\ tx_known C t0 s) (write_user data)
    (post_tx (fun _ t s => t = set_state TransactionState.UserDurable t0 /\
                           tx_known (<[USER_FILE := data]> C) t s) droppable).
Proof.
  intros Hst Hv. unfold write_user. apply run_tx_get. rewrite bool_decide_eq_true_2 by set_solver. cbn [negb].
  rewrite Hv. eapply run_tx_seq with (R := fun _ t s => t = t0 /\ tx_known C t0 s); [by apply run_tx_lift|].
  intros []. apply write_member_tx.
Qed.

Lemma write_master_tx C t0 data :
  state t0 = TransactionState.UserDurable -> validate_blob data = Ok () ->
  run_tx u H (fun t s => t = t0 /\ tx_known C t0 s) (write_master data)
    (post_tx (fun _ t s => t = set_state TransactionState.PairDurable t0 /\
                           tx_known (<[MASTER_FILE := data]> C) t s) droppable).
Proof.
  intros Hst Hv. unfold write_master. apply run_tx_get. rewrite bool_decide_eq_true_2 by done. cbn [negb].
  rewrite Hv. eapply run_tx_seq with (R := fun _ t s => t = t0 /\ tx_known C t0 s); [by apply run_tx_lift|].
  intros []. apply write_member_tx.
Qed.

Lemma write_metadata_tx C t0 data :
  state t0 = TransactionState.Empty -> recovery_reserved t0 = true -> validate_metadata data = Ok () ->
  run_tx u H (fun t s => t = t0 /\ tx_known C t0 s) (write_metadata data)
    (post_tx (fun _ t s => t = set_state TransactionState.MetadataDurable t0 /\
                           tx_known (<[IDENTITY_METADATA_FILE := data]> C) t s) droppable).
Proof.
  intros Hst Hres Hv. unfold write_metadata. apply run_tx_get. rewrite bool_decide_eq_true_2 by done.
  rewrite Hres, Hv. cbn [negb orb].
  eapply run_tx_seq with (R := fun _ t s => t = t0 /\ tx_known C t0 s); [by apply run_tx_lift|].
  intros []. apply write_member_tx.
Qed.

Lemma promote_checked_tx t0 p preserve :
  valid_pair p -> marker_text gn -> allowed (Some p) -> state t0 = TransactionState.PairDurable ->
  (preserve = true -> recovery_reserved t0 = true) ->
  run_tx u H (fun t s => t = t0 /\ tx_known (members p) t0 s) (promote_checked (Ok ()) preserve)
    (post_tx (fun _ => promoted p) droppable).
Proof.
  intros Hv Hg Hal Hst Hpr. unfold promote_checked. apply run_tx_get.
  rewrite bool_decide_eq_true_2 by done. cbn [negb orb].
  replace (preserve && negb (recovery_reserved t0)) with false
    by (destruct preserve; [by rewrite Hpr|done]).
  by apply promote_tx.
Qed.

(** ** The beginning *)

(** What the token is made of. *)
Definition ids (w : world) : Z * list Z * Z := (pid w, clock w, sequence w).

Definition keeps_ids {E A} (m : M world E A) : Prop := forall w, ids (snd (m w)) = ids w.

Lemma keeps_ids_sys {A} (op : FS -> res IoError A * FS) : keeps_ids (sys op).
Proof. intros w. unfold sys. destruct (faults w) as [|[] ?]; by destruct (op (fs w)). Qed.

Lemma keeps_ids_bind {E A B} (m : M world E A) (k : A -> M world E B) :
  keeps_ids m -> (forall a, keeps_ids (k a)) -> keeps_ids (bind m k).
Proof.
  intros Hm Hk w. unfold bind. specialize (Hm w). destruct (m w) as [[a|e|] w']; cbn in *; [|done|done].
  by rewrite (Hk a w').
Qed.

Lemma keeps_ids_err {E F A} (m : M world E A) (f : E -> F) : keeps_ids m -> keeps_ids (mapM_err f m).
Proof. intros Hm w. specialize (Hm w). unfold mapM_err. by destruct (m w). Qed.

Lemma keeps_ids_lift {E A} (x : res E A) : keeps_ids (lift x).
Proof. done. Qed.

Lemma keeps_ids_uid : keeps_ids effective_uid.
Proof.
  intros w. unfold effective_uid.
  exact (keeps_ids_bind _ _ (keeps_ids_err _ _ (keeps_ids_sys _)) (fun a => keeps_ids_lift _) w).
Qed.

Lemma keeps_ids_existing : keeps_ids open_existing_directory.
Proof.
  unfold open_existing_directory, open_or, or_unavailable, validate_directory_metadata.
  repeat first [apply keeps_ids_uid | apply keeps_ids_err | apply keeps_ids_sys | apply keeps_ids_lift
               | apply keeps_ids_bind; [|intros ?] | case_match | done].
Qed.

Lemma keeps_ids_prepare : keeps_ids prepare_directory.
Proof.
  intros w. unfold prepare_directory, exists_root.
  pose proof (keeps_ids_sys (fun s => (resolve s [], s)) w) as Hi.
  destruct (sys _ w) as [x w']. cbn in Hi. rewrite <- Hi. clear Hi.
  assert (keeps_ids (do! _ := (do! _ := or_unavailable (mkdir_root PRIVATE_DIRECTORY) in
      or_unavailable (set_permissions_at [] PRIVATE_DIRECTORY)) in open_existing_directory)) as Hm.
  { apply keeps_ids_bind; [|intros; apply keeps_ids_existing].
    apply keeps_ids_bind; [|intros; apply keeps_ids_err, keeps_ids_sys].
    apply keeps_ids_err. intros w1. apply keeps_ids_sys. }
  destruct x; [apply keeps_ids_existing|apply Hm|apply Hm].
Qed.

Lemma keeps_ids_reject : keeps_ids reject_recovery_state.
Proof.
  apply keeps_ids_bind; [apply keeps_ids_err, keeps_ids_sys|]. intros names.
  induction names as [|n names IH]; [done|]. cbn [no_recovery_entry].
  apply keeps_ids_bind; [apply keeps_ids_err, keeps_ids_sys|]. intros n'.
  apply keeps_ids_bind; [done|]. intros n2. by destruct (starts_with RECOVERY n2).
Qed.

Lemma artifact_token_ids w w' : ids w = ids w' -> fst (artifact_token w) = fst (artifact_token w').
Proof. unfold ids, artifact_token. intros [= -> -> ->]. done. Qed.

Lemma begin_run N w :
  process u w -> Forall H (history w) -> known r u F0 ∅ K0 N (fs w) -> N !! gn = Some None ->
  fst (artifact_token w) = tk ->
  exists x w', begin_transaction w = (x, w') /\ process u w' /\ Forall H (history w') /\
  match x with
  | Ok t => state t = TransactionState.Empty /\ generation_renamed t = false /\
            recovery_reserved t = false /\ tx_known ∅ t (fs w')
  | Err _ => exists W N', known r u F0 W K0 N' (fs w')
  | Panic => False
  end.
Proof.
  intros Hp Hh Hk HN Htk. pose proof (allows_safe _ _ Hsafe) as HA.
  destruct (run_prepare u H r F0 K0 HA ∅ N w Hp Hh Hk) as (x1 & w1 & E1 & Hp1 & Hh1 & HQ1).
  unfold begin_transaction. unfold bind at 1. rewrite E1. destruct x1 as [d0|e|]; [|by eauto 10|done].
  cbn in HQ1. destruct HQ1 as [-> Hk1].
  destruct (run_reads u H (known r u F0 ∅ K0 N) _ _ (reads_reject u H) (HA ∅ N) w1 Hp1 Hh1 Hk1)
    as (x2 & w2 & E2 & Hp2 & Hh2 & HQ2).
  unfold bind at 1. rewrite E2. destruct x2 as [[]|e|]; cbn in HQ2; [|by eauto 10|done].
  destruct HQ2 as [Hk2 _].
  assert (fst (artifact_token w2) = tk) as Htk2.
  { rewrite <- Htk. apply artifact_token_ids. pose proof (keeps_ids_prepare w) as I1.
    pose proof (keeps_ids_reject w1) as I2. rewrite E1 in I1. rewrite E2 in I2. cbn in I1, I2. congruence. }
  unfold bind at 1. destruct (artifact_token w2) as [tk2 w3] eqn:E3. cbn in Htk2. subst tk2.
  assert (w3 = snd (artifact_token w2)) as -> by (by rewrite E3).
  destruct Hfree as (Fs & Fg & Ft & Fr).
  destruct (run_private_directory u H r F0 K0 HA ∅ N sg Fs (snd (artifact_token w2)) Hp2 Hh2 Hk2)
    as (x4 & w4 & E4 & Hp4 & Hh4 & HQ4).
  unfold bind. rewrite E4. destruct x4 as [[]|e|]; [|by eauto 10|done].
  destruct HQ4 as (d & m & ms & Hm & _ & Hk4). cbn [ret].
  eexists _, _. split; [reflexivity|]. split_and!; try done.
  exists (mkView (<[d := NDir m [∅] ms]> ∅) (<[sg := Some d]> N) d m ∅ ms 1%positive).
  split; [|exact Hk4]. destruct names_ne as (N1 & _). split; cbn; try done.
  - apply lookup_insert_eq.
  - by rewrite lookup_insert_ne.
  - apply lookup_insert_eq.
Qed.
End Protocol.

(** ** Tokens *)

Lemma lower_hex_digit_ok v : is_ascii_hexdigit (lower_hex_digit (v mod 16)) = true.
Proof.
  pose proof (Z.mod_pos_bound v 16 ltac:(lia)). unfold lower_hex_digit, is_ascii_hexdigit, Text.in_range.
  destruct (v mod 16 <? 10) eqn:Hd; lia.
Qed.

Lemma lower_hex_loop_ok fuel v l :
  forallb is_ascii_hexdigit l = true -> l <> [] \/ fuel <> O ->
  let h := lower_hex_loop fuel v l in
  forallb is_ascii_hexdigit h = true /\ h <> [] /\ (length h <= fuel + length l)%nat.
Proof.
  revert v l. induction fuel as [|fuel IH]; intros v l Hl Hne; cbn [lower_hex_loop].
  { split_and!; [done|by destruct Hne|lia]. }
  pose proof (lower_hex_digit_ok v) as Hd. destruct (v <? 16).
  - split_and!; [cbn; by rewrite Hd|done|cbn; lia].
  - destruct (IH (v / 16) (lower_hex_digit (v mod 16) :: l)) as (? & ? & Hlen); [cbn; by rewrite Hd|by left|].
    split_and!; try done. cbn [length] in Hlen. lia.
Qed.

Lemma lower_hex_ok v :
  forallb is_ascii_hexdigit (lower_hex v) = true /\ lower_hex v <> [] /\ (length (lower_hex v) <= 32)%nat.
Proof. destruct (lower_hex_loop_ok 32 v []) as (? & ? & ?); [done|by right|]. cbn [length] in *. split_and!; [done..|]. unfold lower_hex. lia. Qed.

Lemma split_dash_app a b :
  forallb is_ascii_hexdigit a = true -> split_dash (a ++ 45 :: b) = a :: split_dash b.
Proof.
  induction a as [|x a IH]; [done|]. cbn. intros [Hx Ha]%andb_true_iff.
  replace (x =? 45) with false by (unfold is_ascii_hexdigit, Text.in_range in Hx; lia). by rewrite IH.
Qed.

Lemma split_dash_last a : forallb is_ascii_hexdigit a = true -> split_dash a = [a].
Proof.
  induction a as [|x a IH]; [done|]. cbn. intros [Hx Ha]%andb_true_iff.
  replace (x =? 45) with false by (unfold is_ascii_hexdigit, Text.in_range in Hx; lia). by rewrite IH.
Qed.

Lemma no_dashes a : forallb is_ascii_hexdigit a = true -> List.filter (fun b => b =? 45) a = [].
Proof.
  induction a as [|x a IH]; [done|]. cbn. intros [Hx Ha]%andb_true_iff.
  replace (x =? 45) with false by (unfold is_ascii_hexdigit, Text.in_range in Hx; lia). by apply IH.
Qed.

Lemma is_token_hex a b c :
  forallb is_ascii_hexdigit a = true -> forallb is_ascii_hexdigit b = true ->
  forallb is_ascii_hexdigit c = true -> a <> [] -> b <> [] -> c <> [] ->
  is_token (a ++ [45] ++ b ++ [45] ++ c) = true.
Proof.
  intros Ha Hb Hc Na Nb Nc. unfold is_token. cbn [app].
  rewrite !split_dash_app, split_dash_last by done. cbn [take drop forallb].
  rewrite !List.filter_app. cbn [List.filter Z.eqb]. rewrite !List.filter_app. cbn [List.filter].
  rewrite !no_dashes by done. cbn. destruct a, b, c; try done. cbn [is_hex_field] in *. by rewrite Ha, Hb, Hc.
Qed.

Lemma hex_ascii l : forallb is_ascii_hexdigit l = true -> Forall (fun b => 0 <= b <= 127) l.
Proof.
  intros Hl. apply Forall_forall. intros b Hb%list_elem_of_In. rewrite forallb_forall in Hl.
  specialize (Hl b Hb). unfold is_ascii_hexdigit, Text.in_range in Hl. lia.
Qed.

(** The name of a new generation is one the marker can hold. *)
Lemma token_marker w : marker_text (PAIR ++ fst (artifact_token w)).
Proof.
  unfold artifact_token. cbn [fst].
  generalize (lower_hex_ok (pid w)), (lower_hex_ok (sequence w)).
  generalize (lower_hex_ok (match clock w with t :: _ => Z.max 0 t | [] => 0 end)).
  generalize (lower_hex (pid w)), (lower_hex (sequence w)).
  generalize (lower_hex (match clock w with t :: _ => Z.max 0 t | [] => 0 end)).
  intros b a c (C1 & C2 & C3) (P1 & P2 & P3) (S1 & S2 & S3).
  split_and!.
  - unfold is_generation_name, strip_prefix, is_some_and.
    rewrite take_app_length, bool_decide_eq_true_2, drop_app_length by done. apply is_token_hex; assumption.
  - apply Text.ascii_valid. rewrite !Forall_app. split_and!;
      first [apply hex_ascii; assumption | apply (bool_decide_unpack _); vm_compute; exact I].
  - rewrite !length_app. change (length PAIR) with 5%nat. cbn [length]. lia.
Qed.

(** ** A store at rest *)

(** The store directory exists and is durable: its entry in its parent, its own entries
    and what they name are synchronized; and [o] is selected. *)
Definition settled (u : Z) (o : option CatacombPair) (s : FS) : Prop :=
  exists r rm v, root s = Some r /\ root_clean s = true /\ nodes s !! r = Some (NDir rm [v] []) /\
  private_dir u rm /\ (forall n, v !! n <> Some r) /\ (forall i, (next s <= i)%positive -> nodes s !! i = None) /\
  match o with
  | None => v !! ACTIVE_MARKER = None
  | Some p =>
      exists mi m g d dm gv, v !! ACTIVE_MARKER = Some mi /\ nodes s !! mi = Some (NFile m (g ++ [10]) true) /\
      private_file u m /\ marker_text g /\ v !! g = Some d /\ nodes s !! d = Some (NDir dm [gv] []) /\
      private_dir u dm /\ contents u (nodes s) gv (members p) /\ valid_pair p
  end.

Lemma contents_delete u F v C r :
  contents u F v C -> (forall i m bs, F !! i = Some (NFile m bs true) -> i <> r) ->
  contents u (delete r F) v C.
Proof.
  intros Hc Hr k Hk. specialize (Hc k Hk). destruct (v !! k), (C !! k); try done.
  destruct Hc as (m & ? & Hi). exists m. split; [done|]. rewrite lookup_delete_ne; [done|].
  apply not_eq_sym. by eapply Hr.
Qed.

(** Names of generations begin with [pair-], so they are none of the others. *)
Lemma generation_prefix g : is_generation_name g = true -> take 2 g = [112; 97].
Proof.
  unfold is_generation_name, strip_prefix. case_bool_decide as Ht; [|done]. intros _.
  change (length PAIR) with 5%nat in Ht. replace (take 2 g) with (take 2 (take 5 g)) by (by rewrite take_take).
  by rewrite Ht.
Qed.

(** The directory of a store at rest and what selects its generation. *)
Lemma settled_opened u o s :
  settled u o s -> exists r rm v mo K,
  root s = Some r /\ nodes s !! r = Some (NDir rm [v] []) /\ (forall n, v !! n <> Some r) /\
  (forall K N, (forall n xs, K !! n = Some xs -> v !! n ∈ xs) -> (forall n x, N !! n = Some x -> v !! n = x) ->
     known r u (delete r (nodes s)) ∅ K N s) /\
  K !! ACTIVE_MARKER = Some [mo] /\ describes u (delete r (nodes s)) K mo o /\
  forall n xs, K !! n = Some xs -> v !! n ∈ xs /\ (n = ACTIVE_MARKER \/ is_generation_name n = true /\ xs = [v !! n] /\ v !! n <> None).
Proof.
  intros (r & rm & v & Hr & Hc & Hn & Hrm & Hself & Hnx & Ho).
  assert (forall K N, (forall n xs, K !! n = Some xs -> v !! n ∈ xs) -> (forall n x, N !! n = Some x -> v !! n = x) ->
            known r u (delete r (nodes s)) ∅ K N s) as Hk.
  { intros K N HK HN. split; try done.
    - exists v, [], rm, []. split_and!; [done|by apply Forall_singleton| |done].
      constructor; [|constructor]. intros n xs. apply HK.
    - apply delete_subseteq.
    - apply map_empty_subseteq.
    - apply map_disjoint_empty_r.
    - split; [apply lookup_delete_eq|done]. }
  destruct o as [p|].
  - destruct Ho as (mi & m & g & d & dm & gv & Hmi & Hmk & Hm & Hg & Hvg & Hd & Hdm & Hcon & Hvp).
    assert (g <> ACTIVE_MARKER) as Hga by (intros ->; by destruct Hg).
    assert (mi <> r) as Hmr by congruence.
    assert (d <> r) as Hdr by (intros ->; by apply (Hself g)).
    exists r, rm, v, (Some mi), (<[ACTIVE_MARKER := [Some mi]]> {[g := [Some d]]}).
    split_and!; [done..|apply lookup_insert_eq| |].
    + exists g, m, d, dm, gv. split_and!; try done.
      * by rewrite lookup_delete_ne.
      * by rewrite lookup_insert_ne, lookup_singleton_eq.
      * by rewrite lookup_delete_ne.
      * eapply contents_delete; [done|]. intros i m' bs Hi ->. congruence.
    + intros n xs [[<- <-]|[? [<- <-]%lookup_singleton_Some]]%lookup_insert_Some.
      * split; [set_solver|by left].
      * split; [set_solver|right]. rewrite Hvg. split_and!; [apply Hg|done..].
  - exists r, rm, v, None, {[ACTIVE_MARKER := [None]]}. split_and!; [done..|apply lookup_singleton_eq|done|].
    intros n xs [<- <-]%lookup_singleton_Some. rewrite Ho. split; [set_solver|by left].
Qed.

Lemma settled_known u o s tk :
  settled u o s -> resolve s [PAIR ++ tk] = Err NotFound ->
  exists r F K, safe u (fun o' => o' = o) F K /\ known r u F ∅ K {[PAIR ++ tk := None]} s /\
  K !! (STAGE ++ tk) = None /\ K !! (PAIR ++ tk) = None /\ K !! (ACTIVE ++ tk ++ TMP) = None /\
  K !! (RECOVERY ++ tk) = None.
Proof.
  intros Hset Hfresh. destruct (settled_opened u o s Hset) as (r & rm & v & mo & K & Hr & Hn & _ & Hk & Ha & Hd & HK).
  assert (v !! (PAIR ++ tk) = None) as Hv.
  { unfold resolve in Hfresh. rewrite Hr in Hfresh. cbn [walk] in Hfresh. rewrite Hn in Hfresh. cbn [current] in Hfresh.
    by destruct (v !! (PAIR ++ tk)). }
  assert (forall n, n <> ACTIVE_MARKER -> is_generation_name n = false \/ v !! n = None -> K !! n = None) as Hnone.
  { intros n Hne Hng. destruct (K !! n) as [xs|] eqn:Hx; [|done].
    destruct (HK n xs Hx) as [_ [->|(Hg & _ & Hs)]]; [done|]. destruct Hng; congruence. }
  destruct (names_ne tk) as (_ & _ & _ & _ & _ & _ & N1 & N2 & N3 & N4).
  exists r, (delete r (nodes s)), K. split_and!.
  - exists [mo]. split; [done|]. intros mo' ->%list_elem_of_singleton. by exists o.
  - apply Hk; [intros n xs Hx; by apply HK|]. intros n x [<- <-]%lookup_singleton_Some. done.
  - apply Hnone; [done|]. left. by apply not_true_is_false; intros Hg%generation_prefix.
  - apply Hnone; [done|]. by right.
  - apply Hnone; [done|]. left. by apply not_true_is_false; intros Hg%generation_prefix.
  - apply Hnone; [done|]. left. by apply not_true_is_false; intros Hg%generation_prefix.
Qed.

(** ** Committing a pair *)

Lemma members_pair u m : <[MASTER_FILE := m]> (<[USER_FILE := u]> ∅) = members (mkPair m u None).
Proof. done. Qed.

Lemma commit_run u allowed r F K tk old usr mst N w :
  process u w -> Forall (stop_safe u allowed) (history w) -> known r u F ∅ K N (fs w) ->
  safe u (fun o => o = old) F K -> allowed old -> allowed (Some (mkPair mst usr None)) ->
  K !! (STAGE ++ tk) = None /\ K !! (PAIR ++ tk) = None /\ K !! (ACTIVE ++ tk ++ TMP) = None /\
  K !! (RECOVERY ++ tk) = None -> N !! (PAIR ++ tk) = Some None -> fst (artifact_token w) = tk ->
  exists x w', commit usr mst w = (x, w') /\ Forall (stop_safe u allowed) (history w') /\
  match x with
  | Ok _ => stop_safe u (fun o => o = Some (mkPair mst usr None)) (fs w')
  | Err _ => True
  | Panic => False
  end.
Proof.
  intros Hp Hh Hk HS Hold Hnew Hfree HN Htk. unfold commit, commit_inner.
  assert (safe u allowed F K) as HSa.
  { destruct HS as (mos & ? & Hd). exists mos. split; [done|]. intros mo Hin.
    destruct (Hd mo Hin) as (o & -> & ?). by exists old. }
  unfold bind at 1, lift at 1. destruct (validate_blob usr) as [[]|e|] eqn:Hvu;
    [|by exists (Err e), w|destruct usr; cbn in Hvu; [done|by case_match]].
  unfold bind at 1, lift at 1. destruct (validate_blob mst) as [[]|e|] eqn:Hvm;
    [|by exists (Err e), w|destruct mst; cbn in Hvm; [done|by case_match]].
  destruct (begin_run u r allowed F K HSa tk Hfree N w Hp Hh Hk HN Htk) as (x1 & w1 & E1 & Hp1 & Hh1 & HQ1).
  unfold bind at 1. rewrite E1. destruct x1 as [t|e|]; [|by exists (Err e), w1|done].
  destruct HQ1 as (Hst & Hren & Hres & Hkt).
  assert (valid_pair (mkPair mst usr None)) as Hvp by done.
  assert (marker_text (PAIR ++ tk)) as Hmt by (rewrite <- Htk; apply token_marker).
  pose proof (consume_run u r allowed (do! _ := write_user usr in do! _ := write_master mst in
    promote_checked (Ok ()) false) t (tx_known u r F K tk ∅ t)
    (promoted u r (mkPair mst usr None)) (stop_safe u (fun o => o = Some (mkPair mst usr None)))) as Hc.
  destruct (Hc) with (w := w1) as (x2 & w2 & E2 & _ & Hh2 & HQ2); try done.
  - eapply run_tx_seq; [apply write_user_tx; [done|done|by left|done]|]. intros [].
    intros w' t' Hp' Hh' [-> Hk']. revert w' Hp' Hh' Hk'.
    set (t2 := set_state TransactionState.UserDurable t).
    assert (run_tx u (stop_safe u allowed) (fun t' s => t' = t2 /\ tx_known u r F K tk (<[USER_FILE := usr]> ∅) t2 s)
      (do! _ := write_master mst in promote_checked (Ok ()) false)
      (post_tx (fun _ => promoted u r (mkPair mst usr None)) (droppable u r allowed))) as Hrun.
    2: { intros w' Hp' Hh' Hk'. by apply (Hrun w' t2). }
    eapply run_tx_seq; [by apply write_master_tx|]. intros [].
    intros w' t' Hp' Hh' [-> Hk'].
    apply (promote_checked_tx u r allowed F K HSa tk Hfree (set_state TransactionState.PairDurable t2) (mkPair mst usr None) false); done.
  - intros t' s. by apply promoted_drop.
  - exists x2, w2. split; [done|]. split; [done|]. by destruct x2.
Qed.

(** C10. A commit into a durable store directory is atomic. The store is at rest
    ([settled]): its directory exists, is private, and is synchronized, as are its entry in
    the parent directory and what it holds; it selects [old], or nothing; and the name of
    the new generation is free. Then, with any calls failing at any point, every state of
    the files the commit passes through is such that after a stop of the machine [load]
    answers with the old generation or with the complete new one, never with a mixture;
    and when the commit succeeds, the new generation is what [load] answers with after any
    later stop. (A directory that the commit itself creates is not durable: see
    [first_commit_may_be_lost].) *)
Theorem commit_atomic u old usr mst w :
  process u w -> history w = [] -> settled u old (fs w) ->
  resolve (fs w) [PAIR ++ fst (artifact_token w)] = Err NotFound ->
  let new := mkPair mst usr None in
  exists x w', commit usr mst w = (x, w') /\ x <> Panic /\
  Forall (stop_safe u (fun o => o = old \/ o = Some new)) (history w') /\
  (x = Ok () -> stop_safe u (fun o => o = Some new) (fs w')).
Proof.
  intros Hp Hh Hset Hfresh new. destruct (settled_known u old (fs w) _ Hset Hfresh) as (r & F & K & HS & Hk & Hfree).
  destruct (commit_run u (fun o => o = old \/ o = Some new) r F K _ old usr mst _ w Hp ltac:(by rewrite Hh) Hk HS
              (or_introl eq_refl) (or_intror eq_refl) Hfree (lookup_singleton_eq _ _) eq_refl)
    as (x & w' & Hx & Hh' & HQ).
  exists x, w'. split_and!; [done| |done|]; destruct x; done.
Qed.

(** A store of user 0 whose marker selects the generation of [1] and [2]. *)
Definition example_name : name := PAIR ++ [49; 45; 49; 45; 49].
Definition example_pair : CatacombPair := mkPair [1] [2] None.
Definition example_file (bs : bytes) : node := NFile (mkMeta PRIVATE_FILE 0 1) bs true.
Definition example_dir (v : gmap name ino) : node := NDir (mkMeta PRIVATE_DIRECTORY 0 2) [v] [].
Definition example_members : gmap name ino := {[MASTER_FILE := 4%positive; USER_FILE := 5%positive]}.
Definition example_fs : FS :=
  mkFS {[1%positive := example_dir {[ACTIVE_MARKER := 2%positive; example_name := 3%positive]};
         2%positive := example_file (example_name ++ [10]); 3%positive := example_dir example_members;
         4%positive := example_file [1]; 5%positive := example_file [2]]}
    (Some 1%positive) true 6%positive.
(** "Uid:", a tab and four zeros, as [/proc/self/status] has it. *)
Definition example_status : bytes := [85; 105; 100; 58; 9; 48; 9; 48; 9; 48; 9; 48; 10].
Definition example_world (f : list (option nat)) : world :=
  mkWorld example_fs f [] 0 18 (Some example_status) 4096 [1000000] 7.

Lemma example_process f : process 0 (example_world f).
Proof. split; [done|]. exists example_status. split; [done|]. vm_compute. reflexivity. Qed.

Lemma example_settled : settled 0 (Some example_pair) example_fs.
Proof.
  exists 1%positive, (mkMeta PRIVATE_DIRECTORY 0 2), {[ACTIVE_MARKER := 2%positive; example_name := 3%positive]}.
  split_and!; try done.
  - intros n. rewrite lookup_insert_Some, lookup_singleton_Some. intros [[_ [=]]|[_ [_ [=]]]].
  - intros i Hi. cbn [example_fs next] in Hi. cbn [example_fs nodes]. rewrite !lookup_insert_ne by lia. apply lookup_singleton_ne. lia.
  - exists 2%positive, (mkMeta PRIVATE_FILE 0 1), example_name, 3%positive, (mkMeta PRIVATE_DIRECTORY 0 2), example_members.
    split_and!; try done.
    + split_and!; [vm_compute; done|vm_compute; done|cbn; lia].
    + intros n Hn. unfold member_files in Hn. apply list_elem_of_In in Hn.
      destruct Hn as [<-|[<-|[<-|[]]]]; [exists (mkMeta PRIVATE_FILE 0 1); split; [done|reflexivity]..|done].
Qed.

(** With no faults the commit succeeds; every state on the way selects one of the two. *)
Lemma commit_atomic_witness :
  exists w', commit [3; 4] [5] (example_world []) = (Ok (), w') /\
  Forall (stop_safe 0 (fun o => o = Some example_pair \/ o = Some (mkPair [5] [3; 4] None))) (history w') /\
  stop_safe 0 (fun o => o = Some (mkPair [5] [3; 4] None)) (fs w').
Proof.
  assert (fst (commit [3; 4] [5] (example_world [])) = Ok ()) as Hok by (vm_compute; reflexivity).
  destruct (commit_atomic 0 (Some example_pair) [3; 4] [5] (example_world []))
    as (x & w' & Hx & _ & Hh & Hfin);
    [apply example_process|reflexivity|apply example_settled|vm_compute; reflexivity|].
  exists w'. rewrite Hx in Hok. cbn in Hok. subst x. split_and!; [exact Hx|exact Hh|by apply Hfin].
Defined.

(** ** The first commit *)

(** A machine without a store, and what a stop leaves when it loses a store directory
    whose parent was never synchronized. *)
Definition empty_fs : FS := mkFS ∅ None true 1%positive.
Definition lost (s : FS) : FS := mkFS (nodes s) None true (next s).

(** Nothing but the directory itself can be lost. *)
Definition synchronized (n : node) : bool :=
  match n with
  | NFile _ _ clean => clean
  | NDir _ [_] [] => true
  | NDir _ _ _ => false
  | NSymlink => true
  end.

Lemma stop_lost s :
  root_clean s = false -> forallb (fun kn => synchronized (snd kn)) (map_to_list (nodes s)) = true -> stop s (lost s).
Proof.
  intros Hc Hn. split; [|by right]. intros i n Hi. exists n. split; [done|].
  rewrite forallb_forall in Hn. specialize (Hn (i, n)). rewrite <- list_elem_of_In, elem_of_map_to_list in Hn.
  specialize (Hn Hi). destruct n as [m c cl|m [|v []] []|]; try done; cbn in Hn.
  - subst cl. by constructor.
  - constructor; [set_solver|]. intros k. exists v. split; [set_solver|done].
  - constructor.
Qed.

(** [prepare_directory] creates the store directory and does not synchronize the directory
    that holds it: the first commit succeeds, and after a stop that loses the new directory
    [load] finds no pair. This is why [commit_atomic] asks for a directory that is durable. *)
Lemma first_commit_may_be_lost :
  let w0 := mkWorld empty_fs [] [] 0 18 (Some example_status) 4096 [1000000] 7 in
  exists w', commit [3; 4] [5] w0 = (Ok (), w') /\
  exists s', stop (fs w') s' /\ fst (load (restart w' s')) = Err MissingPair.
Proof.
  intros w0. set (run := commit [3; 4] [5] w0). exists (snd run).
  split; [transitivity (fst run, snd run); [by destruct run|]; f_equal; vm_compute; reflexivity|].
  exists (lost (fs (snd run))). split; [apply stop_lost; vm_compute; reflexivity|vm_compute; reflexivity].
Qed.
End CatacombAtomic.
