(* ===== verification/CatacombSession.v ===== *)
(** * Exports, removals and the store

    [t1-daemons/src/catacomb_session.rs], which exports the two templates of a user and
    makes each durable before the coprocessor is told that it was saved;
    [identity_lifecycle.rs], the removal of one identity; and
    [standard_identity_catalog/deletion.rs], the removal of a labelled one.

    A [session] is the transport and the files, with the commands sent so far: each with
    its response and the files when it was sent. It is itself a transport, so the
    workflows run on it unchanged. [secret::wipe] clears local buffers and is left out. *)

From S2P Require Import Prelude Effects Policy Biometric Mesa Commands Control UserWorkflow StandardProtocol IdentityCatalog FileSystem CatacombStore.

Import FileSystem CatacombStore.

Section Session.
Context {T E : Type} `{BiometricTransport T E}.

(** A command, what the transport answered, and the files at that time. *)
Record Sent : Type := mkSent { packet : Commands.CommandPacket; answered : res E bytes; at_files : FS }.

Record session : Type := mkSession { transport : T; files : world; sent : list Sent }.

#[global] Instance session_transport : BiometricTransport session E := fun p s =>
  let (r, t) := execute p (transport s) in
  (r, mkSession t (files s) (sent s ++ [mkSent p r (fs (files s))])).
End Session.
Arguments Sent : clear implicits.
Arguments session : clear implicits.

Module CatacombSession.

Definition MASTER_USER_ID : Z := -1.

Record CatacombBackup : Type := mkBackup { user_size : Z; master_size : Z }.

(** [TransactionPreparation]. *)
Inductive Preparation : Type := Reserve (metadata : option bytes) | AlreadyReserved.

Inductive CatacombSessionError (E : Type) : Type :=
| Transport (error : E)
| CommandE (error : Commands.CommandError)
| CatacombE (error : Catacomb.CatacombError)
| StoreE (error : CatacombStoreError).
Arguments Transport {E} error.
Arguments CommandE {E} error.
Arguments CatacombE {E} error.
Arguments StoreE {E} error.

(** ** The three commands of an export *)

Section Export.
Context {T E : Type} `{BiometricTransport T E}.

Definition query_export_size (user_id : Z) : M T (CatacombSessionError E) Z :=
  do! size_packet := lift (map_err CommandE (Commands.secure_catacomb_size_command user_id)) in
  do! size_response := mapM_err Transport (execute size_packet) in
  lift (map_err CatacombE (Catacomb.parse_secure_catacomb_size size_response)).

Definition export_catacomb (user_id size : Z) : M T (CatacombSessionError E) bytes :=
  do! export_packet := lift (map_err CommandE (Commands.save_secure_catacomb_command user_id size)) in
  do! response := mapM_err Transport (execute export_packet) in
  do! _ := lift (map_err CatacombE (Catacomb.validate_secure_catacomb_export response size)) in
  ret response.

Definition finish_export (user_id : Z) : M T (CatacombSessionError E) () :=
  do! p := lift (map_err CommandE (Commands.finish_save_secure_catacomb_command user_id)) in
  do! response := mapM_err Transport (execute p) in
  lift (map_err CommandE (Commands.validate_empty_response response)).
End Export.

(** ** A transaction a function owns *)

Section Owned.
Context {T E : Type} `{BiometricTransport T E}.

(** Code of the transport, and a method of the transaction. *)
Definition on_transport {F A} (m : M (session T E) F A) : M (session T E * Transaction) F A :=
  fun '(s, t) => let (r, s) := m s in (r, (s, t)).
Definition on_transaction {A} (m : M (world * Transaction) CatacombStoreError A)
    : M (session T E * Transaction) CatacombStoreError A := fun '(s, t) =>
  match m (files s, t) with
  | (r, (w, t)) => (r, (mkSession (transport s) w (sent s), t))
  end.

(** The transaction is dropped when the function that owns it returns. *)
Definition owning {F A} (m : M (session T E * Transaction) F A) (t : Transaction)
    : M (session T E) F A := fun s =>
  match m (s, t) with
  | (r, (s, t)) => (r, mkSession (transport s) (drop_transaction (files s) t) (sent s))
  end.

Abbreviation owned_io A := (M (session T E * Transaction) (CatacombSessionError E) A).
Abbreviation method m := (mapM_err StoreE (on_transaction m)).

(** ** Exporting a pair *)

(** The body of [backup_catacomb_pair_inner_with_reservation]. *)
Definition backup_body (user_id : Policy.BiometricUserId) (preparation : Preparation)
    : owned_io CatacombBackup :=
  do! us := on_transport (query_export_size user_id) in
  do! _ := (match preparation with
            | Reserve metadata =>
                do! _ := method reserve_recovery in
                match metadata with
                | Some metadata => method (write_metadata metadata)
                | None => ret ()
                end
            | AlreadyReserved => ret ()
            end) in
  do! u := on_transport (export_catacomb user_id us) in
  do! _ := method (write_user u) in
  do! _ := on_transport (finish_export user_id) in
  do! ms := on_transport (query_export_size MASTER_USER_ID) in
  do! m := on_transport (export_catacomb MASTER_USER_ID ms) in
  do! _ := method (write_master m) in
  do! _ := on_transport (finish_export MASTER_USER_ID) in
  do! _ := method (promote_checked (Ok ()) true) in
  ret (mkBackup us ms).

Definition backup_catacomb_pair_inner_with_reservation (t : Transaction)
    (user_id : Policy.BiometricUserId) (preparation : Preparation)
    : M (session T E) (CatacombSessionError E) CatacombBackup :=
  owning (backup_body user_id preparation) t.

Definition backup_catacomb_pair_inner (t : Transaction) (user_id : Policy.BiometricUserId)
    (metadata : option bytes) : M (session T E) (CatacombSessionError E) CatacombBackup :=
  backup_catacomb_pair_inner_with_reservation t user_id (Reserve metadata).

Definition backup_catacomb_pair_with_transaction (t : Transaction) (user_id : Policy.BiometricUserId)
    : M (session T E) (CatacombSessionError E) CatacombBackup :=
  backup_catacomb_pair_inner t user_id None.

(** A function of the store that is called with the session's files. *)
Definition on_files {A} (m : store_io A) : M (session T E) (CatacombSessionError E) A := fun s =>
  let (r, w) := m (files s) in (map_err StoreE r, mkSession (transport s) w (sent s)).

Definition backup_catacomb_pair (user_id : Policy.BiometricUserId)
    : M (session T E) (CatacombSessionError E) CatacombBackup :=
  do! t := on_files begin_transaction in
  backup_catacomb_pair_with_transaction t user_id.

Definition decode_identity_metadata (metadata : bytes) : res CatacombStoreError () :=
  match Metadata.decode metadata with
  | Ok _ => Ok ()
  | Err _ => Err InvalidMetadata
  | Panic => Panic
  end.

Definition backup_catacomb_pair_with_transaction_and_metadata (t : Transaction)
    (user_id : Policy.BiometricUserId) (metadata : bytes)
    : M (session T E) (CatacombSessionError E) CatacombBackup :=
  owning (do! _ := lift (map_err StoreE (decode_identity_metadata metadata)) in
          backup_body user_id (Reserve (Some metadata))) t.

Definition reserve_transaction_with_metadata (metadata : bytes) : owned_io () :=
  do! _ := lift (map_err StoreE (decode_identity_metadata metadata)) in
  do! _ := method reserve_recovery in
  method (write_metadata metadata).

Definition backup_catacomb_pair_with_reserved_metadata (t : Transaction)
    (user_id : Policy.BiometricUserId) : M (session T E) (CatacombSessionError E) CatacombBackup :=
  backup_catacomb_pair_inner_with_reservation t user_id AlreadyReserved.
End Owned.
End CatacombSession.

Module IdentityLifecycle.
Import CatacombSession Mesa.

Inductive IdentityRemovalCommandError (E : Type) : Type :=
| CommandTransport (error : E)
| CommandResponse (error : Commands.CommandError).
Arguments CommandTransport {E} error.
Arguments CommandResponse {E} error.

Inductive IdentityRemovalError (E : Type) : Type :=
| Preparation (error : UserWorkflow.UserWorkflowError E)
| TargetMissing
| PreMutationIdentityChange (missing unexpected : Z)
| CommandAmbiguous (error : IdentityRemovalCommandError E)
| Persistence (error : CatacombSessionError E)
| PostCommitVerification (error : UserWorkflow.UserWorkflowError E)
| TargetStillPresent
| CollateralIdentityChange (missing unexpected : Z).
Arguments Preparation {E} error.
Arguments TargetMissing {E}.
Arguments PreMutationIdentityChange {E} missing unexpected.
Arguments CommandAmbiguous {E} error.
Arguments Persistence {E} error.
Arguments PostCommitVerification {E} error.
Arguments TargetStillPresent {E}.
Arguments CollateralIdentityChange {E} missing unexpected.

#[global] Instance Identity_eq_dec : EqDecision Identity.
Proof. solve_decision. Defined.

Definition has_identifier (i : IdentityIdentifier) (x : Identity) : bool :=
  bool_decide (identifier x = i).

Definition verify_pre_mutation_set {E} (actual : list Identity) (expected : list IdentityIdentifier)
    : res (IdentityRemovalError E) () :=
  let missing := len (List.filter (fun i => negb (existsb (has_identifier i) actual)) expected) in
  let unexpected := len (List.filter (fun x => negb (bool_decide (identifier x ∈ expected))) actual) in
  if negb (missing =? 0) || negb (unexpected =? 0) || negb (len expected =? len actual)
  then Err (PreMutationIdentityChange missing unexpected) else Ok ().

(** [Vec::swap_remove]: the last element takes the place. *)
Definition swap_remove {A} (l : list A) (index : nat) : list A :=
  match last l with
  | Some x => take (length l - 1) (<[index := x]> l)
  | None => l
  end.

(** The loop of [verify_identity_delta]. *)
Fixpoint match_expected (unmatched : list Identity) (missing : Z) (expected : list Identity)
    : list Identity * Z :=
  match expected with
  | [] => (unmatched, missing)
  | x :: expected =>
      match list_find (fun actual => actual = x) unmatched with
      | Some (index, _) => match_expected (swap_remove unmatched index) missing expected
      | None => match_expected unmatched (missing + 1) expected
      end
  end.

Definition verify_identity_delta {E} (before after : list Identity) (target : IdentityIdentifier)
    : res (IdentityRemovalError E) () :=
  if existsb (has_identifier target) after then Err TargetStillPresent else
  let '(unmatched, missing) :=
    match_expected after 0 (List.filter (fun x => negb (has_identifier target x)) before) in
  if negb (missing =? 0) || negb (len unmatched =? 0)
  then Err (CollateralIdentityChange missing (len unmatched)) else Ok ().

Section Removal.
Context {T E : Type} `{BiometricTransport T E}.

Abbreviation removal_io A := (M (session T E * Transaction) (IdentityRemovalError E) A).

(** Up to the promotion: [remove_identity_inner] owns the transaction that long. *)
Definition remove_body (user_id : Policy.BiometricUserId) (target_identifier : IdentityIdentifier)
    (standard : option (list IdentityIdentifier * bytes)) (prepared_before : option (list Identity))
    : removal_io (list Identity * CatacombBackup) :=
  do! before :=
    match prepared_before with
    | Some before => ret before
    | None => mapM_err Preparation (on_transport (UserWorkflow.prepare_user user_id))
    end in
  do! target := lift (ok_or (List.find (has_identifier target_identifier) before) TargetMissing) in
  do! preparation :=
    match standard with
    | Some (expected_before, metadata) =>
        do! _ := lift (verify_pre_mutation_set before expected_before) in
        do! _ := mapM_err Persistence (reserve_transaction_with_metadata metadata) in
        ret AlreadyReserved
    | None => ret (Reserve None)
    end in
  do! response := mapM_err (fun e => CommandAmbiguous (CommandTransport e))
                    (on_transport (execute (Commands.remove_identity_command target))) in
  do! _ := lift (map_err (fun e => CommandAmbiguous (CommandResponse e))
                   (Commands.validate_empty_response response)) in
  do! backup := mapM_err Persistence (backup_body user_id preparation) in
  ret (before, backup).

Definition remove_identity_inner (t : Transaction) (user_id : Policy.BiometricUserId)
    (target_identifier : IdentityIdentifier) (standard : option (list IdentityIdentifier * bytes))
    (prepared_before : option (list Identity))
    : M (session T E) (IdentityRemovalError E) CatacombBackup :=
  do! done := owning (remove_body user_id target_identifier standard prepared_before) t in
  do! after := mapM_err PostCommitVerification (UserWorkflow.list_user_identities user_id) in
  do! _ := lift (verify_identity_delta (fst done) after target_identifier) in
  ret (snd done).

Definition remove_identity_with_transaction (t : Transaction) (user_id : Policy.BiometricUserId)
    (target_identifier : IdentityIdentifier) : M (session T E) (IdentityRemovalError E) CatacombBackup :=
  remove_identity_inner t user_id target_identifier None None.

Definition remove_identity_with_transaction_and_metadata (t : Transaction)
    (user_id : Policy.BiometricUserId) (target_identifier : IdentityIdentifier)
    (expected_before : list IdentityIdentifier) (metadata : bytes)
    : M (session T E) (IdentityRemovalError E) CatacombBackup :=
  remove_identity_inner t user_id target_identifier (Some (expected_before, metadata)) None.

Definition remove_prepared_identity_with_transaction_and_metadata (t : Transaction)
    (user_id : Policy.BiometricUserId) (prepared_before : list Identity)
    (target_identifier : IdentityIdentifier) (expected_before : list IdentityIdentifier)
    (metadata : bytes) : M (session T E) (IdentityRemovalError E) CatacombBackup :=
  remove_identity_inner t user_id target_identifier (Some (expected_before, metadata))
    (Some prepared_before).
End Removal.
End IdentityLifecycle.

(** [standard_identity_catalog/deletion.rs]. *)
Module Deletion.
Import CatacombSession IdentityLifecycle.

Inductive StandardIdentityDeletionError (E : Type) : Type :=
| CatalogE (error : Catalog.CatalogError)
| Removal (error : IdentityRemovalError E).
Arguments CatalogE {E} error.
Arguments Removal {E} error.

Section Deletion.
Context {T E : Type} `{BiometricTransport T E}.

(** The next manifest and the identities the catalogue expects. *)
Definition next_manifest (catalog : Catalog.Catalog) (target : StandardProtocol.IdentityId)
    : res (StandardIdentityDeletionError E) bytes :=
  let (removed, next) := Catalog.remove_labeled catalog target in
  let! _ := map_err CatalogE removed in
  map_err CatalogE (Catalog.encode_next_manifest next).
Definition expected_before (catalog : Catalog.Catalog) : list Mesa.IdentityIdentifier :=
  (fun e => StandardProtocol.id_bytes (Metadata.id e)) <$> Catalog.c_identities catalog.

(** A refusal drops the transaction. *)
Definition delete_with (t : Transaction) (user_id : Policy.BiometricUserId)
    (prepared_before : option (list Mesa.Identity)) (catalog : Catalog.Catalog)
    (target : StandardProtocol.IdentityId)
    : M (session T E) (StandardIdentityDeletionError E) CatacombBackup := fun s =>
  match next_manifest catalog target with
  | Ok metadata =>
      mapM_err Removal
        (remove_identity_inner t user_id (StandardProtocol.id_bytes target)
           (Some (expected_before catalog, metadata)) prepared_before) s
  | Err e => owning (lift (Err e)) t s
  | Panic => owning (lift Panic) t s
  end.

Definition delete_labeled_identity_with_transaction (t : Transaction)
    (user_id : Policy.BiometricUserId) (catalog : Catalog.Catalog) (target : StandardProtocol.IdentityId)
    : M (session T E) (StandardIdentityDeletionError E) CatacombBackup :=
  delete_with t user_id None catalog target.

Definition delete_prepared_labeled_identity_with_transaction (t : Transaction)
    (user_id : Policy.BiometricUserId) (prepared_before : list Mesa.Identity)
    (catalog : Catalog.Catalog) (target : StandardProtocol.IdentityId)
    : M (session T E) (StandardIdentityDeletionError E) CatacombBackup :=
  delete_with t user_id (Some prepared_before) catalog target.
End Deletion.
End Deletion.
