(* ===== verification/CatacombBackup.v ===== *)
(** * Exports and removals are durable in order

    The workflows of [CatacombSession.v] over any transport: a template is durable before
    the coprocessor is told that it was saved, the next manifest before an identity is
    removed, and the generation that is selected in the end is the one exported. *)

From S2P Require Import Prelude Effects Policy Biometric Mesa Commands Control UserWorkflow StandardProtocol IdentityCatalog FileSystem CatacombStore CatacombSafety CatacombAtomic CatacombSession.

Import FileSystem CatacombStore CatacombSafety CatacombAtomic CatacombSession.

Module CatacombBackup.

(** ** Runs of a session *)

Section Runs.
Context (u : Z) (H : FS -> Prop).
Context {T E : Type} `{BiometricTransport T E}.
Context (tr0 : T).
Abbreviation log := (list (Sent E)).

(** The answers of a log are those of the transport that began as [tr0]. *)
Definition tracked (l : log) : Prop := forall i e, l !! i = Some e ->
  answered e = response tr0 (packet <$> take i l) (packet e).
Definition tracks (s : session T E) : Prop :=
  transport s = after tr0 (packet <$> sent s) /\ tracked (sent s).

Definition srun {F A} (P : log -> Transaction -> FS -> Prop) (m : M (session T E * Transaction) F A)
    (Q : res F A -> log -> Transaction -> FS -> Prop) : Prop :=
  forall s t, (process u (files s) /\ tracks s) -> Forall H (history (files s)) -> P (sent s) t (fs (files s)) ->
  exists x s' t', m (s, t) = (x, (s', t')) /\ (process u (files s') /\ tracks s') /\ Forall H (history (files s')) /\
  Q x (sent s') t' (fs (files s')).

(** The transport may fail or panic; then [bad] holds. *)
Definition spost {F A} (good : A -> log -> Transaction -> FS -> Prop) (bad : log -> Transaction -> FS -> Prop)
    (x : res F A) (l : log) (t : Transaction) (s : FS) : Prop :=
  match x with Ok a => good a l t s | Err _ | Panic => bad l t s end.

Lemma srun_bind {F A B} P (m : M (session T E * Transaction) F A) (k : A -> M (session T E * Transaction) F B) R Q B0 :
  srun P m (spost R B0) -> (forall a, srun (R a) (k a) (spost Q B0)) -> srun P (bind m k) (spost Q B0).
Proof.
  intros Hm Hk s t Hp Hh HP. destruct (Hm s t Hp Hh HP) as (x & s' & t' & Hx & Hp' & Hh' & HR).
  unfold bind. rewrite Hx. destruct x as [a|e|]; [by apply Hk|by eauto 10..].
Qed.

Lemma srun_err {F G A} P (m : M (session T E * Transaction) F A) (f : F -> G) Q B :
  srun P m (spost Q B) -> srun P (mapM_err f m) (spost Q B).
Proof.
  intros Hm s t Hp Hh HP. destruct (Hm s t Hp Hh HP) as (x & s' & t' & Hx & Hp' & Hh' & HR).
  unfold mapM_err. rewrite Hx. exists (map_err f x), s', t'. by destruct x.
Qed.

Lemma srun_weaken {F A} P P' (m : M (session T E * Transaction) F A) Q Q' :
  srun P' m Q' -> (forall l t s, P l t s -> P' l t s) -> (forall x l t s, Q' x l t s -> Q x l t s) -> srun P m Q.
Proof.
  intros Hm HP HQ s t Hp Hh Hs. destruct (Hm s t Hp Hh (HP _ _ _ Hs)) as (x & s' & t' & ? & ? & ? & ?).
  exists x, s', t'. auto.
Qed.

Lemma srun_lift {F A} (x : res F A) P Q : (forall l t s, P l t s -> Q x l t s) -> srun P (lift x) Q.
Proof. intros HQ s t Hp Hh HP. exists x, s, t. by auto. Qed.

Lemma srun_ret {F A} (a : A) P (Q : res F A -> log -> Transaction -> FS -> Prop) :
  (forall l t s, P l t s -> Q (Ok a) l t s) -> srun P (ret a) Q.
Proof. apply srun_lift. Qed.

Lemma srun_ex {F A X} (P : X -> log -> Transaction -> FS -> Prop) (m : M (session T E * Transaction) F A) Q :
  (forall x, srun (P x) m Q) -> srun (fun l t s => exists x, P x l t s) m Q.
Proof. intros Hm s t Hp Hh (x & Hx). by apply (Hm x). Qed.

Lemma srun_pure {F A} (phi : Prop) P (m : M (session T E * Transaction) F A) Q :
  (phi -> srun P m Q) -> srun (fun l t s => phi /\ P l t s) m Q.
Proof. intros Hm s t Hp Hh (? & ?). by apply Hm. Qed.

Lemma srun_tracked {F A} P (m : M (session T E * Transaction) F A) Q :
  srun (fun l t s => tracked l /\ P l t s) m Q -> srun P m Q.
Proof. intros Hm s t Hp Hh HP. apply Hm; [done..|]. split; [apply Hp|done]. Qed.

(** One more command. *)
Lemma tracks_execute s p x t' :
  tracks s -> execute p (transport s) = (x, t') ->
  tracks (mkSession t' (files s) (sent s ++ [mkSent p x (fs (files s))])).
Proof.
  intros [Ht Hl] Hx. split; cbn [transport sent].
  - rewrite fmap_app. change (packet <$> [mkSent p x (fs (files s))]) with [p].
    rewrite after_snoc, <- Ht. by rewrite Hx.
  - intros i e [Hi|[Hge Hi]]%lookup_app_Some.
    + rewrite take_app_le by (apply lookup_lt_Some in Hi; lia). by apply Hl.
    + apply list_lookup_singleton_Some in Hi as [Hi <-]. rewrite take_app_le, take_ge by lia. cbn [answered packet].
      unfold response. by rewrite <- Ht, Hx.
Qed.

(** A method does not send. *)
Lemma srun_method {A} P (m : M (world * Transaction) CatacombStoreError A) Q B :
  (forall l, run_tx u H (P l) m (post_tx (fun a => Q a l) (B l))) -> srun P (on_transaction m) (spost Q B).
Proof.
  intros Hm s t [Hp Htr] Hh HP. destruct (Hm _ (files s) t Hp Hh HP) as (x & w' & t' & Hx & ? & ? & HQ).
  unfold on_transaction. rewrite Hx. eexists x, _, t'. split; [reflexivity|]. split_and!; [done..|].
  by destruct x.
Qed.

Lemma srun_method_at {A} l0 P (m : M (world * Transaction) CatacombStoreError A) Q B0 B :
  run_tx u H P m (post_tx Q B0) -> (forall t s, B0 t s -> B l0 t s) ->
  srun (fun l t s => l = l0 /\ P t s) (on_transaction m) (spost (fun a l t s => l = l0 /\ Q a t s) B).
Proof.
  intros Hm HB. apply srun_method. intros l w t Hp Hh [-> HP].
  destruct (Hm w t Hp Hh HP) as (x & w' & t' & Hx & ? & ? & HQ). exists x, w', t'. split_and!; [done..|].
  destruct x; cbn in *; auto.
Qed.

Lemma srun_ext {F A} P (m m' : M (session T E * Transaction) F A) Q :
  (forall x, m x = m' x) -> srun P m' Q -> srun P m Q.
Proof. intros He Hm s t. rewrite He. apply Hm. Qed.

(** What a workflow of the transport alone does: it sends, and the files stay. *)
Definition sends {F A} (m : M (session T E) F A) : Prop := forall s,
  (tracks s -> tracks (snd (m s))) /\ files (snd (m s)) = files s /\
  exists es, sent (snd (m s)) = sent s ++ es /\ Forall (fun e => at_files e = fs (files s)) es.

Lemma sends_lift {F A} (x : res F A) : sends (lift x).
Proof. intros s. split_and!; [done..|]. exists []. by rewrite app_nil_r. Qed.

Lemma sends_bind {F A B} (m : M (session T E) F A) (k : A -> M (session T E) F B) :
  sends m -> (forall a, sends (k a)) -> sends (bind m k).
Proof.
  intros Hm Hk s. destruct (Hm s) as (Ht & Hf & es & Hs & He). unfold bind.
  destruct (m s) as [[a|e|] s']; cbn in *; [|by eauto..].
  destruct (Hk a s') as (Ht' & Hf' & es' & -> & He'). rewrite Hf', Hf, Hs. split_and!; [auto|done|].
  exists (es ++ es'). rewrite app_assoc. split; [done|]. rewrite Hf in He'. by apply Forall_app.
Qed.

Lemma sends_err {F G A} (m : M (session T E) F A) (f : F -> G) : sends m -> sends (mapM_err f m).
Proof. intros Hm s. specialize (Hm s). unfold mapM_err. by destruct (m s). Qed.

Lemma sends_execute p : sends (execute p).
Proof.
  intros s. unfold execute, session_transport. destruct (execute p (transport s)) as [x t'] eqn:Hx. cbn.
  split_and!; [intros Ht; by apply tracks_execute|done|]. eexists. split; [done|]. by constructor.
Qed.

Lemma srun_sends {F A} (m : M (session T E) F A) P Q :
  sends m ->
  (forall x l es t s, P l t s -> Forall (fun e => at_files e = s) es -> Q x (l ++ es) t s) ->
  srun P (on_transport m) Q.
Proof.
  intros Hm HQ s t [Hp Htr] Hh HP. destruct (Hm s) as (Ht & Hf & es & Hs & He). unfold on_transport.
  destruct (m s) as [x s']. cbn in *. exists x, s', t. rewrite Hf, Hs. split_and!; auto.
Qed.

(** One command: [c] builds the packet, [f] reads the response. *)
Lemma srun_command {F A} (c : res Commands.CommandError Commands.CommandPacket) (f : bytes -> res F A)
    (m : M (session T E) F A) (g : Commands.CommandError -> F) (h : E -> F) P Q B :
  (forall s, m s = (do! p := lift (map_err g c) in do! r := mapM_err h (execute p) in lift (f r)) s) ->
  (forall l t s, P l t s -> B l t s) ->
  (forall p x l t s, c = Ok p -> P l t s -> B (l ++ [mkSent p x s]) t s) ->
  (forall p b a l t s, c = Ok p -> P l t s -> f b = Ok a -> Q a (l ++ [mkSent p (Ok b) s]) t s) ->
  srun P (on_transport m) (spost Q B).
Proof.
  intros Hm HB0 HB HQ s t Hp Hh HP. unfold on_transport. rewrite Hm. unfold bind, lift, mapM_err.
  destruct c as [p|e|]; cbn [map_err]; 
    [|eexists _, s, t; split; [reflexivity|]; split; [done|]; split; [done|by apply HB0]..].
  unfold execute at 1, session_transport. destruct (execute p (transport s)) as [x tr] eqn:Hx.
  assert (tracks (mkSession tr (files s) (sent s ++ [mkSent p x (fs (files s))]))) as Htr by (apply tracks_execute; [apply Hp|done]).
  destruct Hp as [Hp _].
  destruct x as [b|e|]; cbn [map_err]; eexists _, _, t; (split; [reflexivity|split; [by split|]; split; [done|]]); cbn; [|by apply HB..].
  destruct (f b) as [a|e|] eqn:Hf; cbn; [by apply HQ|by apply HB..].
Qed.
End Runs.

(** ** What is durable *)

Section Durable.
Context (u : Z) (r : ino).
Context (allowed : option CatacombPair -> Prop).
Context (F0 : gmap ino node) (K0 : gmap name (list (option ino))) (Hsafe : safe u allowed F0 K0).
Context (tk : bytes).
Context (Hfree : K0 !! (STAGE ++ tk) = None /\ K0 !! (PAIR ++ tk) = None /\
                 K0 !! (ACTIVE ++ tk ++ TMP) = None /\ K0 !! (RECOVERY ++ tk) = None).

(** After a stop the generation [tk] is reserved and has these members. *)
Definition saved (usr mst md : option bytes) (s : FS) : Prop := forall s', stop s s' ->
  returns u s' (present [RECOVERY ++ tk]) (Ok true) /\
  (forall b, usr = Some b -> returns u s' (read_blob [PAIR ++ tk; USER_FILE]) (Ok b)) /\
  (forall b, mst = Some b -> returns u s' (read_blob [PAIR ++ tk; MASTER_FILE]) (Ok b)) /\
  (forall b, md = Some b -> returns u s' (read_metadata [PAIR ++ tk; IDENTITY_METADATA_FILE]) (Ok (Some b))).

Definition valid_members (C : gmap name bytes) : Prop :=
  (forall n b, C !! n = Some b -> n = USER_FILE \/ n = MASTER_FILE -> validate_blob b = Ok ()) /\
  (forall b, C !! IDENTITY_METADATA_FILE = Some b -> validate_metadata b = Ok ()).

Lemma returns_present s p i n : resolve s p = Ok i -> nodes s !! i = Some n -> returns u s (present p) (Ok true).
Proof.
  intros Hp Hi w Hw Hf Hs. unfold present.
  destruct (stat s i) as [m|e|] eqn:Hst; [|unfold stat in Hst; rewrite Hi in Hst; by destruct n..].
  destruct (returns_sys u s (fun s => let! i := resolve s p in stat s i) (Ok m)
              ltac:(cbv beta; by rewrite Hp) w Hw Hf Hs) as (w' & Hx & ?).
  unfold symlink_metadata. rewrite Hx. by exists w'.
Qed.

Lemma tx_saved C t s :
  tx_known u r F0 K0 tk C t s -> recovery_reserved t = true -> generation_renamed t = true ->
  C <> ∅ -> valid_members C ->
  saved (C !! USER_FILE) (C !! MASTER_FILE) (C !! IDENTITY_METADATA_FILE) s.
Proof.
  intros (x & Hf & Hk) Hres Hren HC (Hvb & Hvm) s' Hst.
  destruct (kn_dir _ _ _ _ _ _ _ Hk) as (v & vs & m & ms & Hd & _ & Hv & _).
  destruct (stop_nodes _ _ Hst r _ Hd) as (n' & Hn' & Hsn). inversion Hsn as [|? ? ? rm v' _ Hv'|]; subst.
  assert (root s' = Some r) as Hr.
  { destruct (stop_root _ _ Hst) as [->|[Hc _]]; [by apply (kn_root _ _ _ _ _ _ _ Hk)|].
    by rewrite (kn_clean _ _ _ _ _ _ _ Hk) in Hc. }
  assert (forall n i, tx_constraints K0 tk t (vd x) (vri x) !! n = Some [Some i] -> v' !! n = Some i) as HKv.
  { intros n i Hx. destruct (Hv' n) as (y & Hin & ->). rewrite Forall_forall in Hv.
    apply list_elem_of_singleton. by apply (Hv y Hin). }
  destruct (names_ne tk) as (_ & Nrg & _).
  assert (v' !! (RECOVERY ++ tk) = Some (vri x)) as Hrc.
  { apply HKv. unfold tx_constraints. rewrite Hres. apply lookup_insert_eq. }
  assert (v' !! (PAIR ++ tk) = Some (vd x)) as Hgn.
  { apply HKv. unfold tx_constraints. rewrite Hres, Hren. rewrite lookup_insert_ne by done. apply lookup_insert_eq. }
  pose proof (kn_W _ _ _ _ _ _ _ Hk) as HW.
  assert (nodes s' !! vd x = Some (NDir (vdm x) [vv x] [])) as Hdir.
  { eapply stop_frozen; [done| |]; [eapply lookup_weaken; [|exact HW]|split; [by eexists|done]].
    rewrite (fc_dir _ _ _ _ _ _ Hf), (fc_synced _ _ _ _ _ _ Hf); done. }
  pose proof (stop_contents u s s' _ _ _ Hst HW (fc_contents _ _ _ _ _ _ Hf)) as Hcon.
  assert (forall n b, C !! n = Some b -> n ∈ member_files -> exists i, resolve s' [PAIR ++ tk; n] = Ok i /\ file_at u s' i b) as Hmem.
  { intros n b Hb Hin. specialize (Hcon n Hin). rewrite Hb in Hcon. unfold resolve. rewrite Hr. cbn [walk].
    rewrite Hn'. cbn [current]. rewrite Hgn, Hdir. cbn [current]. destruct (vv x !! n) as [i|]; [|done].
    exists i. done. }
  split_and!.
  - destruct (fc_reserved _ _ _ _ _ _ Hf Hres) as (m' & _ & Hm'). eapply returns_present.
    + unfold resolve. rewrite Hr. cbn [walk]. rewrite Hn'. cbn [current]. by rewrite Hrc.
    + eapply stop_frozen; [done|by eapply lookup_weaken|done].
  - intros b Hb. destruct (Hmem _ _ Hb ltac:(apply member_files_all)) as (i & ? & ?). eapply returns_blob; [done..|]. by eapply Hvb; [|left].
  - intros b Hb. destruct (Hmem _ _ Hb ltac:(apply member_files_all)) as (i & ? & ?). eapply returns_blob; [done..|]. by eapply Hvb; [|right].
  - intros b Hb. destruct (Hmem _ _ Hb ltac:(apply member_files_all)) as (i & ? & ?). eapply returns_metadata_some; [done..|]. by apply Hvm.
Qed.

(** ** The commands of an export *)

Context {T E : Type} `{Htr : BiometricTransport T E}.
Context (Hmark : marker_text (PAIR ++ tk)).
Context (tr0 : T) (uid : Policy.BiometricUserId) (md : option bytes).

Definition user_answer (es : list (Sent E)) (b : bytes) : Prop := answered <$> es !! 1%nat = Some (Ok b).
Definition master_answer (es : list (Sent E)) (b : bytes) : Prop := answered <$> es !! 4%nat = Some (Ok b).

(** The six commands of an export. *)
Definition backup_commands (us ms : Z) : list (res Commands.CommandError Commands.CommandPacket) :=
  [Commands.secure_catacomb_size_command uid; Commands.save_secure_catacomb_command uid us;
   Commands.finish_save_secure_catacomb_command uid;
   Commands.secure_catacomb_size_command MASTER_USER_ID;
   Commands.save_secure_catacomb_command MASTER_USER_ID ms;
   Commands.finish_save_secure_catacomb_command MASTER_USER_ID].

(** The answer to command [i] of a log announces [size]. *)
Definition announced (es : list (Sent E)) (i : nat) (size : Z) : Prop :=
  exists b, answered <$> es !! i = Some (Ok b) /\ Catacomb.parse_secure_catacomb_size b = Ok size.

(** The commands are a prefix of the six, and ask for the sizes that were announced. *)
Definition shape_ok (us ms : Z) (es : list (Sent E)) : Prop :=
  (fun e => Ok (packet e)) <$> es = take (length es) (backup_commands us ms) /\
  ((1 < length es)%nat -> announced es 0 us) /\ ((4 < length es)%nat -> announced es 3 ms).

(** Moreover, when a finish is sent, what was exported is durable. *)
Definition backup_shape (es : list (Sent E)) : Prop :=
  exists us ms, shape_ok us ms es /\
  (forall e, es !! 2%nat = Some e -> exists usr, user_answer es usr /\ saved (Some usr) None md (at_files e)) /\
  (forall e, es !! 5%nat = Some e -> exists usr mst, user_answer es usr /\ master_answer es mst /\
     saved (Some usr) (Some mst) md (at_files e)).

Definition md_members : gmap name bytes :=
  match md with Some b => {[IDENTITY_METADATA_FILE := b]} | None => ∅ end.

(** The reservation and the manifest are durable. *)
Definition ready (t : Transaction) (s : FS) : Prop :=
  recovery_reserved t = true /\ generation_renamed t = true /\
  (state t = TransactionState.Empty \/ state t = TransactionState.MetadataDurable) /\
  (forall b, md = Some b -> validate_metadata b = Ok ()) /\ tx_known u r F0 K0 tk md_members t s.

(** What a failure leaves. *)
Definition failed (l0 l : list (Sent E)) (t : Transaction) (s : FS) : Prop :=
  droppable u r allowed t s /\ exists es, l = l0 ++ es /\ backup_shape es.

(** The pairs the transport answers with are allowed. *)
Definition admits (l0 : list (Sent E)) : Prop := forall es usr mst,
  tracked tr0 (l0 ++ es) -> backup_shape es -> user_answer es usr -> master_answer es mst ->
  allowed (Some (mkPair mst usr md)).

Definition finished (l0 : list (Sent E)) (b : CatacombBackup) (l : list (Sent E)) (t : Transaction) (s : FS) : Prop :=
  exists es usr mst, l = l0 ++ es /\ length es = 6%nat /\ backup_shape es /\ user_answer es usr /\
  master_answer es mst /\ b = mkBackup (len usr) (len mst) /\ promoted u r (mkPair mst usr md) t s.

Lemma export_valid b size x :
  Catacomb.validate_secure_catacomb_export b size = Ok x -> validate_blob b = Ok () /\ size = len b.
Proof.
  unfold Catacomb.validate_secure_catacomb_export, Catacomb.validate_secure_catacomb_size, validate_blob.
  destruct ((size =? 0) || _) eqn:Hs; [done|].
  destruct (negb (len b =? size)) eqn:Hl; [done|]. intros _.
  apply orb_false_iff in Hs as [H0 H1]. apply negb_false_iff, Z.eqb_eq in Hl. subst size.
  split; [|done]. destruct b; [done|]. by rewrite H1.
Qed.

Abbreviation HS := (stop_safe u allowed).

Lemma srun_query id P Q B :
  (forall l t s, P l t s -> B l t s) ->
  (forall p x l t s, Commands.secure_catacomb_size_command id = Ok p -> P l t s -> B (l ++ [mkSent p x s]) t s) ->
  (forall p b a l t s, Commands.secure_catacomb_size_command id = Ok p -> P l t s ->
     Catacomb.parse_secure_catacomb_size b = Ok a -> Q a (l ++ [mkSent p (Ok b) s]) t s) ->
  srun u HS tr0 P (on_transport (T := T) (E := E) (query_export_size id)) (spost Q B).
Proof.
  intros HB0 HB HQ. eapply srun_command; [intros; reflexivity|done|done|].
  intros p b a l t s Hc HP Hf. apply HQ; [done..|].
  cbv beta in Hf. destruct (Catacomb.parse_secure_catacomb_size b); cbn in Hf; congruence.
Qed.

Lemma srun_export id size P Q B :
  (forall l t s, P l t s -> B l t s) ->
  (forall p x l t s, Commands.save_secure_catacomb_command id size = Ok p -> P l t s -> B (l ++ [mkSent p x s]) t s) ->
  (forall p b l t s, Commands.save_secure_catacomb_command id size = Ok p -> P l t s ->
     validate_blob b = Ok () -> size = len b -> Q b (l ++ [mkSent p (Ok b) s]) t s) ->
  srun u HS tr0 P (on_transport (T := T) (E := E) (export_catacomb id size)) (spost Q B).
Proof.
  intros HB0 HB HQ.
  eapply (srun_command u HS tr0 (Commands.save_secure_catacomb_command id size) (fun b => let! _ := map_err CatacombE (Catacomb.validate_secure_catacomb_export b size) in Ok b) _ CommandE Transport);
    [|done|done|].
  - intros s. unfold export_catacomb, bind, lift. destruct (map_err _ _); [|done..].
    destruct (mapM_err _ _ _) as [[x| |] s']; [|done..].
    by destruct (map_err _ _).
  - intros p b a l t s Hc HP. destruct (Catacomb.validate_secure_catacomb_export b size) as [y| |] eqn:Hv; [|done..].
    intros [= <-]. apply export_valid in Hv as [? ?]. by apply HQ.
Qed.

Lemma srun_finish id P (Q : list (Sent E) -> Transaction -> FS -> Prop) B :
  (forall l t s, P l t s -> B l t s) ->
  (forall p x l t s, Commands.finish_save_secure_catacomb_command id = Ok p -> P l t s -> B (l ++ [mkSent p x s]) t s) ->
  (forall p b l t s, Commands.finish_save_secure_catacomb_command id = Ok p -> P l t s ->
     Q (l ++ [mkSent p (Ok b) s]) t s) ->
  srun u HS tr0 P (on_transport (T := T) (E := E) (finish_export id)) (spost (fun _ => Q) B).
Proof. intros HB0 HB HQ. eapply srun_command; [intros; reflexivity|done|done|]. intros. by apply HQ. Qed.

(** ** The states of the transaction between the commands *)

Definition reserved_with (C : gmap name bytes) (st0 : TransactionState.t) (t : Transaction) (s : FS) : Prop :=
  recovery_reserved t = true /\ generation_renamed t = true /\ state t = st0 /\
  valid_members C /\ tx_known u r F0 K0 tk C t s.
Definition user_done (usr : bytes) : Transaction -> FS -> Prop :=
  reserved_with (<[USER_FILE := usr]> md_members) TransactionState.UserDurable.
Definition both_done (usr mst : bytes) : Transaction -> FS -> Prop :=
  reserved_with (members (mkPair mst usr md)) TransactionState.PairDurable.

Lemma md_lookup : md_members !! USER_FILE = None /\ md_members !! MASTER_FILE = None /\
  md_members !! IDENTITY_METADATA_FILE = md.
Proof. unfold md_members. by destruct md. Qed.

Lemma both_members usr mst :
  <[MASTER_FILE := mst]> (<[USER_FILE := usr]> md_members) = members (mkPair mst usr md).
Proof.
  unfold members, md_members. cbn [pair_metadata master user]. destruct md as [b|]; [|done].
  rewrite <- (insert_empty IDENTITY_METADATA_FILE b), (insert_insert_ne _ USER_FILE IDENTITY_METADATA_FILE),
    (insert_insert_ne _ MASTER_FILE IDENTITY_METADATA_FILE) by done. done.
Qed.

Lemma valid_members_insert C n b :
  n = USER_FILE \/ n = MASTER_FILE -> validate_blob b = Ok () -> valid_members C -> valid_members (<[n := b]> C).
Proof.
  intros Hn Hb [Hv1 Hv2]. split.
  - intros n' b' [[<- <-]|[_ Hl]]%lookup_insert_Some Hn'; [done|by eapply Hv1].
  - intros b' [[-> _]|[_ Hl]]%lookup_insert_Some; [by destruct Hn|by apply Hv2].
Qed.

Lemma ready_valid t s : ready t s -> valid_members md_members.
Proof.
  intros (_ & _ & _ & Hv & _). destruct md_lookup as (Hu & Hm & Hi). split.
  - intros n b Hn [->| ->]; congruence.
  - intros b Hb. apply Hv. congruence.
Qed.

Lemma write_user_ready usr :
  validate_blob usr = Ok () ->
  run_tx u HS ready (write_user usr) (post_tx (fun _ => user_done usr) (droppable u r allowed)).
Proof.
  intros Hb. apply run_tx_fix. intros t0 w t Hp Hh (-> & Hready).
  pose proof (ready_valid _ _ Hready) as Hv. destruct Hready as (Hres & Hren & Hst & _ & Hk).
  destruct (write_user_tx u r allowed F0 K0 Hsafe tk Hfree md_members t0 usr Hst Hb w t0 Hp Hh (conj eq_refl Hk))
    as (x & w' & t' & Hx & Hp' & Hh' & HQ).
  exists x, w', t'. split_and!; [done..|]. destruct x; [|done..]. destruct HQ as [-> Hk'].
  split_and!; try done. apply valid_members_insert; auto.
Qed.

Lemma write_master_ready usr mst :
  validate_blob mst = Ok () ->
  run_tx u HS (user_done usr) (write_master mst) (post_tx (fun _ => both_done usr mst) (droppable u r allowed)).
Proof.
  intros Hb. apply run_tx_fix. intros t0 w t Hp Hh (-> & Hres & Hren & Hst & Hv & Hk).
  destruct (write_master_tx u r allowed F0 K0 Hsafe tk Hfree _ t0 mst Hst Hb w t0 Hp Hh (conj eq_refl Hk))
    as (x & w' & t' & Hx & Hp' & Hh' & HQ).
  exists x, w', t'. split_and!; [done..|]. destruct x; [|done..]. destruct HQ as [-> Hk'].
  unfold both_done. rewrite <- both_members. split_and!; try done. apply valid_members_insert; auto.
Qed.

Lemma promote_ready usr mst :
  allowed (Some (mkPair mst usr md)) ->
  run_tx u HS (both_done usr mst) (promote_checked (Ok ()) true)
    (post_tx (fun _ => promoted u r (mkPair mst usr md)) (droppable u r allowed)).
Proof.
  intros Hal. apply run_tx_fix. intros t0 w t Hp Hh (-> & Hres & Hren & Hst & [Hv1 Hv2] & Hk).
  destruct (members_lookup (mkPair mst usr md)) as (Lm & Lu & Ld).
  eapply (promote_checked_tx u r allowed F0 K0 Hsafe tk Hfree t0 (mkPair mst usr md) true); try done.
  split_and!; [by eapply Hv1; [|right]|by eapply Hv1; [|left]|]. cbn [pair_metadata] in *.
  destruct md; [|done]. by apply Hv2.
Qed.

Lemma done_droppable C st0 t s : reserved_with C st0 t s -> droppable u r allowed t s.
Proof. intros (_ & _ & _ & _ & Hk). by eapply tx_known_droppable. Qed.

Lemma ready_droppable t s : ready t s -> droppable u r allowed t s.
Proof. intros (_ & _ & _ & _ & Hk). by eapply tx_known_droppable. Qed.

Lemma user_done_saved usr t s : user_done usr t s -> saved (Some usr) None md s.
Proof.
  intros (Hres & Hren & _ & Hv & Hk). destruct md_lookup as (Hu & Hm & Hi).
  pose proof (tx_saved _ _ _ Hk Hres Hren ltac:(apply insert_non_empty) Hv) as Hs.
  rewrite lookup_insert_eq, !lookup_insert_ne, Hm, Hi in Hs by done. exact Hs.
Qed.

Lemma both_done_saved usr mst t s : both_done usr mst t s -> saved (Some usr) (Some mst) md s.
Proof.
  intros (Hres & Hren & _ & Hv & Hk). destruct (members_lookup (mkPair mst usr md)) as (Lm & Lu & Ld).
  assert (members (mkPair mst usr md) <> ∅) as Hne by (intros He; by rewrite He in Lm).
  pose proof (tx_saved _ _ _ Hk Hres Hren Hne Hv) as Hs. by rewrite Lm, Lu, Ld in Hs.
Qed.

(** ** The export *)

(** The lists of a log, without the commands. *)
Ltac log_cbn := cbn [length take fmap list_fmap packet app backup_commands].

(** The first three commands, with the template that was exported. *)
Definition user_log (usr : bytes) (es : list (Sent E)) : Prop :=
  length es = 3%nat /\ (forall ms, shape_ok (len usr) ms es) /\ user_answer es usr /\
  forall e, es !! 2%nat = Some e -> saved (Some usr) None md (at_files e).

Lemma user_log_shape usr es tail :
  user_log usr es -> (exists ms, shape_ok (len usr) ms (es ++ tail)) -> (length tail < 3)%nat ->
  backup_shape (es ++ tail).
Proof.
  intros (Hl & _ & Hu & Hs) (ms & Hsh) Ht. exists (len usr), ms. split_and!; [exact Hsh| |].
  - intros e He. exists usr. unfold user_answer in *. rewrite lookup_app_l in He |- * by lia. auto.
  - intros e He%lookup_lt_Some. rewrite length_app in He. lia.
Qed.

Lemma short_shape us es : (length es <= 2)%nat -> shape_ok us 0 es -> backup_shape es.
Proof.
  intros Hl Hsh. exists us, 0. split_and!; [exact Hsh| |]; intros e He%lookup_lt_Some; lia.
Qed.

Lemma shape_one us ms e :
  Commands.secure_catacomb_size_command uid = Ok (packet e) -> shape_ok us ms [e].
Proof. intros Hc. split; [|split; cbn; lia]. log_cbn. by rewrite Hc. Qed.

Lemma user_export_run l0 p1 b1 s1 us :
  Commands.secure_catacomb_size_command uid = Ok p1 -> Catacomb.parse_secure_catacomb_size b1 = Ok us ->
  srun u HS tr0 (fun l t s => l = l0 ++ [mkSent p1 (Ok b1) s1] /\ ready t s)
    (do! usr := on_transport (T := T) (export_catacomb uid us) in
     do! _ := mapM_err StoreE (on_transaction (write_user usr)) in
     do! _ := on_transport (finish_export uid) in
     ret usr)
    (spost (fun usr l t s => us = len usr /\ exists es, l = l0 ++ es /\ user_log usr es /\ user_done usr t s)
       (failed l0)).
Proof.
  intros Hc1 Hb1.
  eapply srun_bind with (R := fun usr l t s => us = len usr /\ validate_blob usr = Ok () /\ exists p2 s2,
    Commands.save_secure_catacomb_command uid us = Ok p2 /\
    l = l0 ++ [mkSent p1 (Ok b1) s1; mkSent p2 (Ok usr) s2] /\ ready t s).
  { apply srun_export.
    - intros l t s [-> Hr]. split; [by apply ready_droppable|]. eexists. split; [done|].
      apply (short_shape us); cbn; [lia|]. by apply shape_one.
    - intros p2 x l t s Hc2 [-> Hr]. split; [by apply ready_droppable|]. eexists. rewrite <- app_assoc. split; [done|].
      apply (short_shape us); cbn; [lia|]. split; [|split; [by exists b1|cbn; lia]]. log_cbn. by rewrite Hc1, Hc2.
    - intros p2 b l t s Hc2 [-> Hr] Hv Hlen. split_and!; [done..|]. exists p2, s. rewrite <- app_assoc. by split_and!. }
  intros usr. apply srun_pure. intros ->. apply srun_pure. intros Hv. apply srun_ex. intros p2. apply srun_ex. intros s2.
  apply srun_pure. intros Hc2.
  set (l2 := [mkSent p1 (Ok b1) s1; mkSent p2 (Ok usr) s2]).
  assert (backup_shape l2) as Hsh2.
  { apply (short_shape (len usr)); cbn; [lia|]. split; [|split; [by exists b1|cbn; lia]]. unfold l2. log_cbn. by rewrite Hc1, Hc2. }
  eapply srun_bind with (R := fun _ l t s => l = l0 ++ l2 /\ user_done usr t s).
  { apply srun_err. eapply srun_method_at; [by apply write_user_ready|]. intros t s Hd. split; [done|]. by exists l2. }
  intros []. eapply srun_bind with (R := fun _ l t s => exists es, l = l0 ++ es /\ user_log usr es /\ user_done usr t s).
  2: { intros []. apply srun_ret. intros l t s (es & ? & ? & ?). split; [done|]. by exists es. }
  assert (forall p x s, Commands.finish_save_secure_catacomb_command uid = Ok p -> saved (Some usr) None md s ->
    user_log usr (l2 ++ [mkSent p x s])) as Hlog.
  { intros p x s Hc3 Hs. split_and!; [done| |done|by intros e [= <-]].
    intros ms. split; [|split; [by exists b1|cbn; lia]]. unfold l2. log_cbn. by rewrite Hc1, Hc2, Hc3. }
  apply srun_finish.
  - intros l t s [-> Hd]. split; [by eapply done_droppable|]. by exists l2.
  - intros p x l t s Hc3 [-> Hd]. split; [by eapply done_droppable|]. eexists. rewrite <- app_assoc. split; [done|].
    rewrite <- (app_nil_r (l2 ++ _)). assert (user_log usr (l2 ++ [mkSent p x s])) as Hl
      by (apply Hlog; [done|by eapply user_done_saved]).
    eapply user_log_shape; [exact Hl| |cbn; lia]. exists 0. rewrite app_nil_r. apply Hl.
  - intros p b l t s Hc3 [-> Hd]. eexists. rewrite <- app_assoc. split_and!; [done| |done].
    apply Hlog; [done|by eapply user_done_saved].
Qed.

Lemma full_shape usr mst es p x s :
  user_log usr (take 3 es) -> length es = 5%nat -> master_answer es mst ->
  shape_ok (len usr) (len mst) (es ++ [mkSent p x s]) -> saved (Some usr) (Some mst) md s ->
  backup_shape (es ++ [mkSent p x s]) /\ user_answer (es ++ [mkSent p x s]) usr /\
  master_answer (es ++ [mkSent p x s]) mst.
Proof.
  intros (_ & _ & Hu & Hs2) Hl Hm Hsh Hs. unfold user_answer, master_answer in *.
  rewrite lookup_take_lt in Hu by lia. rewrite !lookup_app_l by lia. split_and!; [|done|done].
  exists (len usr), (len mst). split_and!; [exact Hsh| |].
  - intros e He. exists usr. unfold user_answer. rewrite lookup_app_l in * by lia. split; [done|].
    apply Hs2. by rewrite lookup_take_lt by lia.
  - intros e He. exists usr, mst. unfold user_answer, master_answer. rewrite !lookup_app_l by lia.
    split_and!; [done|done|]. rewrite lookup_app_r in He by lia. rewrite Hl in He. by injection He as <-.
Qed.

(** The shape of what follows the first three commands. *)
Lemma user_log_tail usr es ms tail :
  user_log usr es ->
  (fun e => Ok (packet e)) <$> tail = take (length tail)
    [Commands.secure_catacomb_size_command MASTER_USER_ID;
     Commands.save_secure_catacomb_command MASTER_USER_ID ms;
     Commands.finish_save_secure_catacomb_command MASTER_USER_ID] ->
  ((1 < length tail)%nat -> announced tail 0 ms) -> shape_ok (len usr) ms (es ++ tail).
Proof.
  intros (Hl & Hsh & _) Ht Ha. specialize (Hsh ms). destruct es as [|e1 [|e2 [|e3 [|]]]]; try done.
  destruct Hsh as (Hsh & Hs1 & _). split_and!.
  - cbn [length take fmap list_fmap packet app backup_commands] in Hsh |- *. injection Hsh as -> -> ->.
    by rewrite Ht.
  - intros _. apply Hs1. cbn. lia.
  - intros Hlt. apply Ha. cbn in Hlt. lia.
Qed.

(** The last finish and the promotion. *)
Lemma master_finish_run l0 usr mst es :
  user_log usr (take 3 es) -> length es = 5%nat -> master_answer es mst -> backup_shape es ->
  (forall p x s, Commands.finish_save_secure_catacomb_command MASTER_USER_ID = Ok p ->
     shape_ok (len usr) (len mst) (es ++ [mkSent p x s])) -> admits l0 ->
  srun u HS tr0 (fun l t s => l = l0 ++ es /\ both_done usr mst t s)
    (do! _ := on_transport (T := T) (finish_export MASTER_USER_ID) in
     do! _ := mapM_err StoreE (on_transaction (promote_checked (Ok ()) true)) in
     ret (mkBackup (len usr) (len mst)))
    (spost (finished l0) (failed l0)).
Proof.
  intros Hlog Hl Hans Hsh Hfin Hal.
  assert (forall p x s t, Commands.finish_save_secure_catacomb_command MASTER_USER_ID = Ok p -> both_done usr mst t s ->
    let es' := es ++ [mkSent p x s] in
    length es' = 6%nat /\ backup_shape es' /\ user_answer es' usr /\ master_answer es' mst) as H6.
  { intros p x s t Hc Hs. split; [by rewrite length_app, Hl|].
    apply full_shape; try done; [by apply Hfin|by eapply both_done_saved]. }
  eapply srun_bind with (R := fun _ l t s => exists es', (length es' = 6%nat /\ backup_shape es' /\
    user_answer es' usr /\ master_answer es' mst) /\ l = l0 ++ es' /\ both_done usr mst t s).
  { apply srun_finish.
    - intros l t s [-> Hd]. split; [by eapply done_droppable|]. by exists es.
    - intros p x l t s Hc [-> Hd]. split; [by eapply done_droppable|]. eexists. rewrite <- app_assoc. split; [done|].
      by apply (H6 p x s t).
    - intros p b l t s Hc [-> Hd]. eexists. rewrite <- app_assoc. split; [by apply (H6 p (Ok b) s t)|done]. }
  intros []. apply srun_ex. intros es'. apply srun_pure. intros (Hl6 & Hsh6 & Hu6 & Hm6).
  apply srun_tracked. eapply srun_weaken with (P' := fun l t s => tracked tr0 (l0 ++ es') /\ l = l0 ++ es' /\ both_done usr mst t s);
    [|by intros l t s (? & -> & ?)|done]. apply srun_pure. intros Htr'.
  eapply srun_bind with (R := fun _ l t s => l = l0 ++ es' /\ promoted u r (mkPair mst usr md) t s).
  { apply srun_err. eapply srun_method_at; [by apply promote_ready, (Hal es')|]. intros t s Hd. split; [done|]. by exists es'. }
  intros []. apply srun_ret. intros l t s [-> Hpr]. exists es', usr, mst. by split_and!.
Qed.

(** The second half, after the user's template. *)
Lemma master_export_run l0 usr es :
  user_log usr es -> admits l0 ->
  srun u HS tr0 (fun l t s => l = l0 ++ es /\ user_done usr t s)
    (do! ms := on_transport (T := T) (query_export_size MASTER_USER_ID) in
     do! m := on_transport (export_catacomb MASTER_USER_ID ms) in
     do! _ := mapM_err StoreE (on_transaction (write_master m)) in
     do! _ := on_transport (finish_export MASTER_USER_ID) in
     do! _ := mapM_err StoreE (on_transaction (promote_checked (Ok ()) true)) in
     ret (mkBackup (len usr) ms))
    (spost (finished l0) (failed l0)).
Proof.
  intros Hlog Hal. pose proof (user_log_tail usr es) as Htail.
  eapply srun_bind with (R := fun ms l t s => exists p4 b4 s4,
    (Commands.secure_catacomb_size_command MASTER_USER_ID = Ok p4 /\ Catacomb.parse_secure_catacomb_size b4 = Ok ms) /\
    l = l0 ++ es ++ [mkSent p4 (Ok b4) s4] /\ user_done usr t s).
  { apply srun_query.
    - intros l t s [-> Hd]. split; [by eapply done_droppable|]. exists (es ++ []). rewrite app_nil_r at 1. split; [done|].
      eapply user_log_shape; [done| |cbn; lia]. exists 0. apply Htail; [done..|cbn; lia].
    - intros p x l t s Hc [-> Hd]. split; [by eapply done_droppable|]. eexists. rewrite <- app_assoc. split; [done|].
      eapply user_log_shape; [done| |cbn; lia]. exists 0. apply Htail; [done| |cbn; lia]. log_cbn. by rewrite Hc.
    - intros p b ms l t s Hc [-> Hd] Hb. exists p, b, s. rewrite <- app_assoc. by split_and!. }
  intros ms. apply srun_ex. intros p4. apply srun_ex. intros b4. apply srun_ex. intros s4. apply srun_pure. intros [Hc4 Hb4].
  eapply srun_bind with (R := fun mst l t s => ms = len mst /\ validate_blob mst = Ok () /\ exists p5 s5,
    Commands.save_secure_catacomb_command MASTER_USER_ID ms = Ok p5 /\
    l = l0 ++ es ++ [mkSent p4 (Ok b4) s4; mkSent p5 (Ok mst) s5] /\ user_done usr t s).
  { apply srun_export.
    - intros l t s [-> Hd]. split; [by eapply done_droppable|]. eexists. split; [done|].
      eapply user_log_shape; [done| |cbn; lia]. exists 0. apply Htail; [done| |cbn; lia]. log_cbn. by rewrite Hc4.
    - intros p x l t s Hc [-> Hd]. split; [by eapply done_droppable|]. eexists. rewrite <- !app_assoc. split; [done|].
      eapply user_log_shape; [done| |cbn; lia]. exists ms. apply Htail; [done| |by exists b4]. log_cbn. by rewrite Hc4, Hc.
    - intros p b l t s Hc [-> Hd] Hv Hlen. split_and!; [done..|]. exists p, s. rewrite <- !app_assoc. by split_and!. }
  intros mst. apply srun_pure. intros ->. apply srun_pure. intros Hv. apply srun_ex. intros p5. apply srun_ex. intros s5.
  apply srun_pure. intros Hc5. set (tail5 := [mkSent p4 (Ok b4) s4; mkSent p5 (Ok mst) s5]).
  assert (backup_shape (es ++ tail5)) as Hsh5.
  { eapply user_log_shape; [done| |cbn; lia]. exists (len mst). apply Htail; [done| |by exists b4]. log_cbn. by rewrite Hc4, Hc5. }
  eapply srun_bind with (R := fun _ l t s => l = l0 ++ (es ++ tail5) /\ both_done usr mst t s).
  { apply srun_err. eapply srun_method_at; [by apply write_master_ready|]. intros t s Hd. split; [done|]. by exists (es ++ tail5). }
  intros []. pose proof Hlog as (Hl3 & _). apply master_finish_run; try done.
  - by rewrite take_app_length' by done.
  - by rewrite length_app, Hl3.
  - unfold master_answer. by rewrite lookup_app_r, Hl3 by lia.
  - intros p x s Hc. rewrite <- app_assoc. apply Htail; [done| |by exists b4]. log_cbn. by rewrite Hc4, Hc5, Hc.
Qed.

(** ** The reservation *)

(** A transaction as [begin_transaction] returns it. *)
Definition fresh (t : Transaction) (s : FS) : Prop :=
  state t = TransactionState.Empty /\ generation_renamed t = false /\ recovery_reserved t = false /\
  tx_known u r F0 K0 tk ∅ t s.

Lemma reserve_ready :
  run_tx u HS fresh
    (do! _ := reserve_recovery in match md with Some b => write_metadata b | None => ret () end)
    (post_tx (fun _ => ready) (droppable u r allowed)).
Proof.
  intros w0 t0 Hp0 Hh0 (Hst & Hren & Hres & Hk0). revert w0 Hp0 Hh0 Hk0.
  assert (run_tx u HS (fun t s => t = t0 /\ tx_known u r F0 K0 tk ∅ t0 s)
    (do! _ := reserve_recovery in match md with Some b => write_metadata b | None => ret () end)
    (post_tx (fun _ => ready) (droppable u r allowed))) as Hrun; [|by intros w0 ? ? ?; apply (Hrun w0 t0)].
  eapply run_tx_seq; [by apply (reserve_tx u r allowed F0 K0 Hsafe tk Hfree)|].
  intros []. set (t1 := set_reserved true (set_renamed t0)). destruct md as [b|] eqn:Hmd.
  - destruct (validate_metadata b) as [[]|e|] eqn:Hv.
    + intros w t Hp Hh [-> Hk].
      destruct (write_metadata_tx u r allowed F0 K0 Hsafe tk Hfree ∅ t1 b Hst eq_refl Hv w t1 Hp Hh (conj eq_refl Hk))
        as (x & w' & t' & Hx & Hp' & Hh' & HQ). exists x, w', t'. split_and!; [done..|].
      destruct x; [|done..]. destruct HQ as [-> Hk']. split_and!; try done; [by right|congruence|].
      unfold md_members. by rewrite Hmd.
    + unfold write_metadata. intros w t Hp Hh [-> Hk]. exists (Err e), w, t1. cbn. rewrite Hst, Hv.
      split_and!; try done. by eapply tx_known_droppable.
    + unfold validate_metadata in Hv. by destruct (_ || _).
  - apply run_tx_lift. intros t s [-> Hk]. split_and!; try done; [by left|congruence|].
    unfold md_members. by rewrite Hmd.
Qed.

Lemma backup_body_eq prep x :
  backup_body (T := T) (E := E) uid prep x =
  (do! us := on_transport (query_export_size uid) in
   do! _ := mapM_err StoreE (on_transaction
     match prep with
     | Reserve md' => do! _ := reserve_recovery in match md' with Some b => write_metadata b | None => ret () end
     | AlreadyReserved => ret ()
     end) in
   do! usr := (do! usr := on_transport (export_catacomb uid us) in
               do! _ := mapM_err StoreE (on_transaction (write_user usr)) in
               do! _ := on_transport (finish_export uid) in
               ret usr) in
   do! ms := on_transport (query_export_size MASTER_USER_ID) in
   do! m := on_transport (export_catacomb MASTER_USER_ID ms) in
   do! _ := mapM_err StoreE (on_transaction (write_master m)) in
   do! _ := on_transport (finish_export MASTER_USER_ID) in
   do! _ := mapM_err StoreE (on_transaction (promote_checked (Ok ()) true)) in
   ret (mkBackup us ms)) x.
Proof.
  unfold backup_body. unfold bind at 1. unfold bind at 11. destruct (on_transport (query_export_size uid) x) as [[us|e|] [s t]]; [|done..].
  assert (forall k k' : () -> M (session T E * Transaction) (CatacombSessionError E) CatacombBackup,
    (forall x, k () x = k' () x) -> forall m m' : M (session T E * Transaction) (CatacombSessionError E) (),
    m (s, t) = m' (s, t) -> bind m k (s, t) = bind m' k' (s, t)) as Hcong.
  { intros k k' Hk m m' Hm. unfold bind. rewrite Hm. by destruct (m' (s, t)) as [[[]|e|] y]. }
  apply Hcong.
  - clear. intros x. unfold bind. destruct (on_transport (export_catacomb uid us) x) as [[usr|e|] y]; [|done..].
    destruct (mapM_err StoreE (on_transaction (write_user usr)) y) as [[[]|e|] z]; [|done..].
    by destruct (on_transport (finish_export uid) z) as [[[]|e|] y'].
  - destruct prep as [md'|]; [|by destruct s]. unfold bind, mapM_err, on_transaction.
    destruct (reserve_recovery (files s, t)) as [[[]|e|] [w' t']]; cbn; [|done..]. by destruct md'.
Qed.

Definition prepared (prep : Preparation) (t : Transaction) (s : FS) : Prop :=
  match prep with Reserve md' => md' = md /\ fresh t s | AlreadyReserved => ready t s end.

Lemma prepared_droppable prep t s : prepared prep t s -> droppable u r allowed t s.
Proof.
  destruct prep; cbn; [|apply ready_droppable]. intros (_ & _ & _ & _ & Hk). by eapply tx_known_droppable.
Qed.

Lemma prepare_run prep :
  run_tx u HS (prepared prep)
    match prep with
    | Reserve md' => do! _ := reserve_recovery in match md' with Some b => write_metadata b | None => ret () end
    | AlreadyReserved => ret ()
    end (post_tx (fun _ => ready) (droppable u r allowed)).
Proof.
  destruct prep as [md'|]; [|by apply run_tx_lift].
  intros w t Hp Hh [-> Hf]. by apply reserve_ready.
Qed.

Lemma backup_body_run l0 prep :
  admits l0 ->
  srun u HS tr0 (fun l t s => l = l0 /\ prepared prep t s) (backup_body (T := T) uid prep)
    (spost (finished l0) (failed l0)).
Proof.
  intros Hal. eapply srun_ext; [apply backup_body_eq|].
  eapply srun_bind with (R := fun us l t s => exists p1 b1 s1,
    (Commands.secure_catacomb_size_command uid = Ok p1 /\ Catacomb.parse_secure_catacomb_size b1 = Ok us) /\
    l = l0 ++ [mkSent p1 (Ok b1) s1] /\ prepared prep t s).
  { apply srun_query.
    - intros l t s [-> Hp]. split; [by eapply prepared_droppable|]. exists []. rewrite app_nil_r. split; [done|].
      apply (short_shape 0); cbn; [lia|]. split; [done|cbn; lia].
    - intros p x l t s Hc [-> Hp]. split; [by eapply prepared_droppable|]. eexists. split; [done|].
      apply (short_shape 0); cbn; [lia|]. by apply shape_one.
    - intros p b us l t s Hc [-> Hp] Hb. by exists p, b, s. }
  intros us. apply srun_ex. intros p1. apply srun_ex. intros b1. apply srun_ex. intros s1. apply srun_pure. intros [Hc1 Hb1].
  eapply srun_bind with (R := fun _ l t s => l = l0 ++ [mkSent p1 (Ok b1) s1] /\ ready t s).
  { apply srun_err. eapply srun_method_at; [apply prepare_run|]. intros t s Hd. split; [done|]. eexists. split; [done|].
    apply (short_shape 0); cbn; [lia|]. by apply shape_one. }
  intros []. eapply srun_bind; [by apply user_export_run|]. intros usr. apply srun_pure. intros ->.
  apply srun_ex. intros es.
  eapply srun_weaken with (P' := fun l t s => user_log usr es /\ l = l0 ++ es /\ user_done usr t s);
    [|by intros l t s (-> & ? & ?)|done].
  apply srun_pure. intros Hlog. by apply master_export_run.
Qed.

(** Dropping the transaction keeps what is selected. *)
Lemma owning_run {F A} (m : M (session T E * Transaction) F A) P G B t0 s :
  srun u HS tr0 P m (spost G B) -> (forall l t s, B l t s -> droppable u r allowed t s) ->
  (forall a l t s, tracked tr0 l -> G a l t s -> exists p, allowed (Some p) /\ promoted u r p t s) ->
  process u (files s) -> tracks tr0 s -> Forall HS (history (files s)) -> P (sent s) t0 (fs (files s)) ->
  exists x s', owning m t0 s = (x, s') /\ process u (files s') /\ tracks tr0 s' /\ Forall HS (history (files s')) /\
  match x with
  | Ok a => exists t1 s1, G a (sent s') t1 s1 /\
            forall p, promoted u r p t1 s1 -> allowed (Some p) -> stop_safe u (fun o => o = Some p) (fs (files s'))
  | _ => exists t1 s1, B (sent s') t1 s1
  end.
Proof.
  intros Hm HB HG Hp Ht Hh HP.
  destruct (Hm s t0 (conj Hp Ht) Hh HP) as (x & s1 & t1 & Hx & (Hp1 & Ht1) & Hh1 & HQ).
  assert (forall F K W N, allows u HS r F K -> known r u F W K N (fs (files s1)) -> tidy K t1 W N ->
    let s' := mkSession (transport s1) (drop_transaction (files s1) t1) (sent s1) in
    owning m t0 s = (x, s') /\ process u (files s') /\ tracks tr0 s' /\ Forall HS (history (files s')) /\
    exists W' N', known r u F W' K N' (fs (files s'))) as Hdrop.
  { intros F1 K W N HA Hk Hty s'. unfold owning. rewrite Hx.
    destruct (run_drop u HS r F1 K HA t1 W N (files s1) Hty Hp1 Hh1 Hk) as (? & ? & W' & N' & Hk').
    split_and!; try done; by exists W', N'. }
  destruct x as [a|e|]; cbn in HQ.
  - destruct (HG _ _ _ _ (proj2 Ht1) HQ) as (p & Hal & Hpr).
    assert (forall q, promoted u r q t1 (fs (files s1)) -> allowed (Some q) ->
      stop_safe u (fun o => o = Some q) (fs (drop_transaction (files s1) t1))) as Hall.
    { intros q Hq Haq. destruct (promoted_drop u r allowed q t1 _ Haq Hq) as (F1 & K & W & N & HA & Hk & Hty & Hfin).
      destruct (Hdrop F1 K W N HA Hk Hty) as (_ & _ & _ & _ & W' & N' & Hk'). by eapply Hfin. }
    destruct (promoted_drop u r allowed p t1 _ Hal Hpr) as (F1 & K & W & N & HA & Hk & Hty & _).
    destruct (Hdrop F1 K W N HA Hk Hty) as (Ho & Hp' & Ht' & Hh' & _).
    eexists _, _. split; [exact Ho|]. split; [done|]. split; [done|]. split; [done|]. by exists t1, (fs (files s1)).
  - destruct (HB _ _ _ HQ) as (F1 & K & W & N & HS1 & Hk & Hty).
    destruct (Hdrop F1 K W N (allows_safe u r allowed F1 K HS1) Hk Hty) as (Ho & Hp' & Ht' & Hh' & _).
    eexists _, _. split; [exact Ho|]. split; [done|]. split; [done|]. split; [done|]. by exists t1, (fs (files s1)).
  - destruct (HB _ _ _ HQ) as (F1 & K & W & N & HS1 & Hk & Hty).
    destruct (Hdrop F1 K W N (allows_safe u r allowed F1 K HS1) Hk Hty) as (Ho & Hp' & Ht' & Hh' & _).
    eexists _, _. split; [exact Ho|]. split; [done|]. split; [done|]. split; [done|]. by exists t1, (fs (files s1)).
Qed.
End Durable.

(** ** From a store at rest *)

Lemma safe_allowed u (a b : option CatacombPair -> Prop) F K : (forall o, a o -> b o) -> safe u a F K -> safe u b F K.
Proof.
  intros Hab (mos & HK & Hm). exists mos. split; [done|]. intros mo Hin. destruct (Hm mo Hin) as (o & ? & ?). eauto.
Qed.

(** A transaction begins. *)
Lemma begin_fresh u (allowed : option CatacombPair -> Prop) old w :
  process u w -> history w = [] -> settled u old (fs w) ->
  resolve (fs w) [PAIR ++ fst (artifact_token w)] = Err NotFound -> allowed old ->
  let tk := fst (artifact_token w) in
  exists r F K x w', safe u allowed F K /\
  (K !! (STAGE ++ tk) = None /\ K !! (PAIR ++ tk) = None /\ K !! (ACTIVE ++ tk ++ TMP) = None /\
   K !! (RECOVERY ++ tk) = None) /\ marker_text (PAIR ++ tk) /\
  begin_transaction w = (x, w') /\ process u w' /\ Forall (stop_safe u allowed) (history w') /\
  match x with Ok t => fresh u r F K tk t (fs w') | Err _ => True | Panic => False end.
Proof.
  intros Hp Hh Hset Hres Hal tk. destruct (settled_known u old (fs w) _ Hset Hres) as (r & F & K & HS & Hk & Hfree).
  assert (safe u allowed F K) as HSa by (eapply safe_allowed; [|exact HS]; by intros o ->).
  destruct (begin_run u r allowed F K HSa tk Hfree _ w Hp ltac:(by rewrite Hh) Hk (lookup_singleton_eq _ _) eq_refl)
    as (x & w' & Hx & Hp' & Hh' & HQ).
  exists r, F, K, x, w'. split; [done|]. split; [done|]. split; [apply token_marker|]. split; [done|].
  split; [done|]. split; [done|]. by destruct x.
Qed.

(** What the transport answers to the export that follows the commands [l0]. *)
Definition exports {T E} `{BiometricTransport T E} (tr : T) (l0 : list (Sent E)) (uid : Z) (usr mst : bytes) : Prop :=
  exists us ms es, tracked tr (l0 ++ es) /\ shape_ok uid us ms es /\ user_answer es usr /\ master_answer es mst.

Section Backup.
Context {T E : Type} `{Htr : BiometricTransport T E}.

(** The store before, and what the export may select. *)
Definition old_or_exported (old : option CatacombPair) (tr : T) (l0 : list (Sent E)) (uid : Z) (md : option bytes)
    (o : option CatacombPair) : Prop :=
  o = old \/ exists usr mst, exports tr l0 uid usr mst /\ o = Some (mkPair mst usr md).

Lemma admits_exported u tk old tr l0 uid md :
  admits u (old_or_exported old tr l0 uid md) tk tr uid md l0.
Proof.
  intros es usr mst Ht (us & ms & Hsh & _) Hu Hm. right. exists usr, mst. split; [|done]. by exists us, ms, es.
Qed.

Lemma backup_run u r F K tk old (uid : Z) md prep t (s : session T E) l0 tr :
  let allowed := old_or_exported old tr l0 uid md in
  safe u allowed F K ->
  (K !! (STAGE ++ tk) = None /\ K !! (PAIR ++ tk) = None /\ K !! (ACTIVE ++ tk ++ TMP) = None /\
   K !! (RECOVERY ++ tk) = None) -> marker_text (PAIR ++ tk) ->
  process u (files s) -> tracks tr s -> Forall (stop_safe u allowed) (history (files s)) -> sent s = l0 ->
  prepared u r F K tk md prep t (fs (files s)) ->
  exists x s' es, backup_catacomb_pair_inner_with_reservation t uid prep s = (x, s') /\
  sent s' = l0 ++ es /\ backup_shape u tk uid md es /\ Forall (stop_safe u allowed) (history (files s')) /\
  forall b, x = Ok b -> exists usr mst, user_answer es usr /\ master_answer es mst /\
    b = mkBackup (len usr) (len mst) /\ stop_safe u (fun o => o = Some (mkPair mst usr md)) (fs (files s')).
Proof.
  intros allowed HS Hfree Hmk Hp Ht Hh Hl Hprep.
  destruct (owning_run u r allowed tr (backup_body uid prep) (fun l t s => l = l0 /\ prepared u r F K tk md prep t s)
    (finished u r tk uid md l0) (failed u r allowed tk uid md l0) t s) as (x & s' & Hx & _ & [_ Ht'] & Hh' & HQ).
  - apply (backup_body_run u r allowed F K HS tk Hfree Hmk). apply admits_exported.
  - by intros l t1 s1 [Hd _].
  - intros a l t1 s1 Htl (es & usr & mst & -> & _ & Hsh & Hu & Hm & _ & Hpr). exists (mkPair mst usr md).
    split; [|done]. by eapply admits_exported.
  - done.
  - done.
  - done.
  - done.
  - destruct x as [a|e|].
    + destruct HQ as (t1 & s1 & (es & usr & mst & Hs & Hl6 & Hsh & Hu & Hm & Ha & Hpr) & Hfin).
      exists (Ok a), s', es. split_and!; try done. intros b [= <-]. exists usr, mst. split_and!; try done.
      apply Hfin; [done|]. destruct Hsh as (us & ms & Hsh & _). right. exists usr, mst. split; [|done].
      exists us, ms, es. by rewrite <- Hs.
    + destruct HQ as (t1 & s1 & _ & es & Hs & Hsh). by exists (Err e), s', es.
    + destruct HQ as (t1 & s1 & _ & es & Hs & Hsh). by exists Panic, s', es.
Qed.

(** C11. An export into a durable store directory is durable in order. The store is at rest
    ([settled]): its directory exists and is synchronized, with its entry in the parent
    directory, and selects [old], or nothing; the name of the new generation is free. Then,
    over any transport and with any calls failing: the commands sent are a prefix of size,
    save and finish for the user and then for the master, each save asking for the size that
    was announced; whenever a finish is sent, the exported template is already durable in a
    reserved generation; every state of the files selects, after a stop, [old] or the pair
    the transport exports; and success means that this pair is selected from then on. (An
    export that creates the store directory itself is outside: the entry of the new
    directory is not synchronized, see [CatacombAtomic.first_commit_may_be_lost].) *)
Theorem backup_durable_order u old (uid : Z) (s : session T E) :
  let w := files s in
  let tk := fst (artifact_token w) in
  process u w -> history w = [] -> sent s = [] -> settled u old (fs w) ->
  resolve (fs w) [PAIR ++ tk] = Err NotFound ->
  exists x s', backup_catacomb_pair uid s = (x, s') /\
  backup_shape u tk uid None (sent s') /\
  Forall (stop_safe u (old_or_exported old (transport s) [] uid None)) (history (files s')) /\
  forall b, x = Ok b -> exists usr mst, user_answer (sent s') usr /\ master_answer (sent s') mst /\
    b = mkBackup (len usr) (len mst) /\ stop_safe u (fun o => o = Some (mkPair mst usr None)) (fs (files s')).
Proof.
  intros w tk Hp Hh Hl Hset Hres.
  destruct (begin_fresh u (old_or_exported old (transport s) [] uid None) old w Hp Hh Hset Hres)
    as (r & F & K & x & w' & HS & Hfree & Hmk & Hx & Hp' & Hh' & HQ); [by left|].
  unfold backup_catacomb_pair, bind, on_files. fold w. rewrite Hx.
  assert (backup_shape u tk uid None (sent s)) as Hsh0.
  { rewrite Hl. apply (short_shape u tk uid None 0); cbn; [lia|]. split; [done|cbn; lia]. }
  destruct x as [t|e|]; [|by eexists _, _|done].
  destruct (backup_run u r F K tk old uid None (Reserve None) t (mkSession (transport s) w' (sent s)) [] (transport s))
    as (x & s' & es & Hb & Hs & Hsh & Hh2 & Hok); try done.
  - split; [by rewrite Hl|]. cbn. rewrite Hl. by intros i e.
  - exists x, s'. rewrite Hs. cbn [app]. cbn [map_err]. by split_and!.
Qed.

(** The pair a transport exports is determined by the transport. *)
Lemma tracked_answer (tr : T) (l0 es : list (Sent E)) i e :
  tracked tr (l0 ++ es) -> es !! i = Some e ->
  answered e = response tr ((packet <$> l0) ++ (packet <$> take i es)) (packet e).
Proof.
  intros Ht Hi. rewrite (Ht (length l0 + i)%nat e).
  - by rewrite take_app_add, fmap_app.
  - by rewrite lookup_app_r, Nat.add_comm, Nat.add_sub by lia.
Qed.

Lemma exports_unique (tr : T) (l0 : list (Sent E)) (uid : Z) usr mst usr' mst' :
  exports tr l0 uid usr mst -> exports tr l0 uid usr' mst' -> usr = usr' /\ mst = mst'.
Proof.
  intros (us & ms & es & Ht & (Hp & Hs1 & Hs2) & Hu & Hm) (us' & ms' & es' & Ht' & (Hp' & Hs1' & Hs2') & Hu' & Hm').
  unfold user_answer, master_answer in *.
  destruct es as [|e1 [|e2 [|e3 [|e4 [|e5 es]]]]]; try done. destruct es' as [|f1 [|f2 [|f3 [|f4 [|f5 es']]]]]; try done.
  cbn [length take fmap list_fmap option_fmap option_map packet app backup_commands lookup list_lookup] in *.
  injection Hp as Q1 Q2 Q3 Q4 Q5 _. injection Hp' as R1 R2 R3 R4 R5 _.
  assert (packet e1 = packet f1) as P1 by congruence. assert (packet e3 = packet f3) as P3 by congruence.
  assert (packet e4 = packet f4) as P4 by congruence.
  pose proof (fun i e => tracked_answer tr l0 _ i e Ht) as A. pose proof (fun i e => tracked_answer tr l0 _ i e Ht') as B.
  pose proof (A 0%nat _ eq_refl) as A1. pose proof (B 0%nat _ eq_refl) as B1. cbn [take fmap list_fmap] in A1, B1.
  rewrite <- P1 in B1. rewrite <- A1 in B1.
  destruct (Hs1 ltac:(lia)) as (b & Hb & Hpb). destruct (Hs1' ltac:(lia)) as (b' & Hb' & Hpb'). cbn in Hb, Hb'.
  assert (us = us') as -> by congruence. assert (packet e2 = packet f2) as P2 by congruence.
  pose proof (A 1%nat _ eq_refl) as A2. pose proof (B 1%nat _ eq_refl) as B2. cbn [take fmap list_fmap] in A2, B2.
  rewrite <- P1, <- P2, <- A2 in B2.
  pose proof (A 3%nat _ eq_refl) as A4. pose proof (B 3%nat _ eq_refl) as B4. cbn [take fmap list_fmap] in A4, B4.
  rewrite <- P1, <- P2, <- P3, <- P4, <- A4 in B4.
  destruct (Hs2 ltac:(lia)) as (c & Hc & Hpc). destruct (Hs2' ltac:(lia)) as (c' & Hc' & Hpc'). cbn in Hc, Hc'.
  assert (ms = ms') as -> by congruence. assert (packet e5 = packet f5) as P5 by congruence.
  pose proof (A 4%nat _ eq_refl) as A5. pose proof (B 4%nat _ eq_refl) as B5. cbn [take fmap list_fmap] in A5, B5.
  rewrite <- P1, <- P2, <- P3, <- P4, <- P5, <- A5 in B5.
  split; congruence.
Qed.
End Backup.

(** A transport that exports three and two bytes. *)
Definition example_session (f : list (option nat)) : session (list (res Z bytes)) Z :=
  mkSession [Ok [3; 0; 0; 0]; Ok [7; 8; 9]; Ok []; Ok [2; 0; 0; 0]; Ok [5; 6]; Ok []] (example_world f) [].

Lemma backup_durable_order_witness :
  exists s', backup_catacomb_pair 501 (example_session []) = (Ok (mkBackup 3 2), s') /\
  length (sent s') = 6%nat /\ backup_shape 0 (fst (artifact_token (example_world []))) 501 None (sent s') /\
  stop_safe 0 (fun o => o = Some (mkPair [5; 6] [7; 8; 9] None)) (fs (files s')).
Proof.
  assert (let r := backup_catacomb_pair 501 (example_session []) in
    fst r = Ok (mkBackup 3 2) /\ length (sent (snd r)) = 6%nat /\
    answered <$> sent (snd r) !! 1%nat = Some (Ok [7; 8; 9]) /\
    answered <$> sent (snd r) !! 4%nat = Some (Ok [5; 6])) as (H1 & H2 & H3 & H4).
  { vm_compute. done. }
  destruct (backup_durable_order 0 (Some example_pair) 501 (example_session []))
    as (x & s' & Hx & Hsh & _ & Hok);
    [apply example_process|reflexivity|reflexivity|apply example_settled|vm_compute; reflexivity|].
  rewrite Hx in H1, H2, H3, H4. cbn in H1, H2, H3, H4. subst x.
  exists s'. split_and!; [exact Hx|exact H2|exact Hsh|].
  destruct (Hok _ eq_refl) as (usr & mst & Hu & Hm & _ & Hs). unfold user_answer, master_answer in *.
  rewrite H3 in Hu. rewrite H4 in Hm. injection Hu as <-. injection Hm as <-. exact Hs.
Defined.
End CatacombBackup.
