(* ===== verification/IdentityRemoval.v ===== *)
(** * Removing one identity

    [identity_lifecycle.rs] and [standard_identity_catalog/deletion.rs]: the live set is
    compared before and after, the next manifest is durable before the coprocessor removes
    anything, and in the end the store, the manifest and the live set agree. *)

From S2P Require Import Prelude Effects Policy Biometric Mesa Commands Control UserWorkflow StandardProtocol IdentityCatalog FileSystem CatacombStore CatacombSafety CatacombAtomic CatacombSession CatacombBackup.

Import FileSystem CatacombStore CatacombSafety CatacombAtomic CatacombSession CatacombBackup IdentityLifecycle Mesa.

Module IdentityRemoval.

(** ** Comparing sets *)

(** The identities other than the target. *)
Definition others (target : IdentityIdentifier) (l : list Identity) : list Identity :=
  List.filter (fun x => negb (has_identifier target x)) l.

Lemma swap_remove_perm {A} (l : list A) i x : l !! i = Some x -> l ≡ₚ x :: swap_remove l i.
Proof.
  intros Hi. destruct (exists_last (l := l)) as (l' & y & ->); [by intros ->|].
  unfold swap_remove. rewrite last_snoc, length_app. cbn [length].
  replace (length l' + 1 - 1)%nat with (length l') by lia.
  destruct (decide (i < length l')%nat) as [Hlt|Hge].
  - rewrite lookup_app_l in Hi by done. rewrite insert_app_l by done.
    rewrite take_app_length' by (by rewrite length_insert).
    rewrite <- (take_drop_middle l' i x Hi) at 1. rewrite insert_take_drop by done.
    rewrite <- !app_assoc. cbn [app]. rewrite <- Permutation_middle. f_equiv.
    rewrite app_assoc, Permutation_app_comm. cbn [app]. rewrite Permutation_app_comm, <- Permutation_middle.
    by rewrite Permutation_app_comm.
  - pose proof (lookup_lt_Some _ _ _ Hi) as Hl. rewrite length_app in Hl. cbn in Hl.
    assert (i = length l') as -> by lia. rewrite lookup_app_r, Nat.sub_diag in Hi by lia. injection Hi as ->.
    rewrite insert_app_r_alt, Nat.sub_diag by lia. cbn [insert list_insert].
    rewrite take_app_length. by rewrite Permutation_app_comm.
Qed.

Lemma match_expected_spec un missing ex un' missing' :
  match_expected un missing ex = (un', missing') ->
  missing <= missing' /\ (missing' = missing -> un ≡ₚ ex ++ un') /\
  (missing' <> missing -> ~ ex ⊆+ un).
Proof.
  revert un missing. induction ex as [|x ex IH]; intros un missing; cbn [match_expected].
  - intros [= -> ->]. split_and!; [lia|done|done].
  - destruct (list_find (fun actual => actual = x) un) as [[i y]|] eqn:Hf.
    + apply list_find_Some in Hf as (Hi & -> & _). intros (H1 & H2 & H3)%IH.
      pose proof (swap_remove_perm _ _ _ Hi) as Hp. split_and!; [done| |].
      * intros Hm. cbn [app]. rewrite Hp. f_equiv. auto.
      * intros Hm Hs. apply H3; [done|]. rewrite Hp in Hs. by apply (submseteq_app_inv_l ex _ [x]).
    + intros (H1 & _ & _)%IH. split_and!; [lia|lia|]. intros _ Hs.
      apply list_find_None in Hf. rewrite Forall_forall in Hf. apply (Hf x); [|done].
      eapply elem_of_submseteq; [|exact Hs]. by left.
Qed.

(** The check after a removal accepts exactly the same set without the target. *)
Lemma verify_delta_iff {E} before after target :
  verify_identity_delta (E := E) before after target = Ok () <-> after ≡ₚ others target before.
Proof.
  unfold verify_identity_delta. fold (others target before).
  destruct (existsb (has_identifier target) after) eqn:Hx.
  { apply existsb_exists in Hx as (x & Hin & Hx). split; [done|]. intros Hp.
    apply list_elem_of_In in Hin. rewrite Hp in Hin. apply list_elem_of_In, filter_In in Hin as [_ Hn].
    by rewrite Hx in Hn. }
  destruct (match_expected after 0 (others target before)) as [un missing] eqn:Hm.
  apply match_expected_spec in Hm as (H0 & H1 & H2).
  destruct (missing =? 0) eqn:E0; cbn [negb orb].
  - apply Z.eqb_eq in E0. specialize (H1 E0). destruct un as [|y un]; cbn.
    + rewrite app_nil_r in H1. done.
    + split; [done|]. intros Hp. rewrite Hp in H1. apply Permutation_length in H1.
      rewrite length_app in H1. cbn in H1. lia.
  - split; [done|]. intros Hp. apply Z.eqb_neq in E0. destruct (H2 E0). by rewrite Hp.
Qed.

Lemma filter_none {A} (f : A -> bool) l : (forall x, x ∈ l -> f x = false) -> List.filter f l = [].
Proof.
  induction l as [|x l IH]; intros Hf; [done|]. cbn. rewrite (Hf x) by (by left). apply IH. intros y Hy. apply Hf. by right.
Qed.

(** The check before a removal accepts exactly the expected set. *)
Lemma verify_before_iff {E} actual expected :
  NoDup expected ->
  verify_pre_mutation_set (E := E) actual expected = Ok () <-> identifier <$> actual ≡ₚ expected.
Proof.
  intros Hn. unfold verify_pre_mutation_set.
  assert (forall i, existsb (has_identifier i) actual = true <-> i ∈ identifier <$> actual) as Hin.
  { intros i. rewrite existsb_exists, list_elem_of_fmap. split.
    - intros (x & Hx%list_elem_of_In & Hb). exists x. split; [|done]. by apply bool_decide_eq_true_1 in Hb.
    - intros (x & -> & Hx%list_elem_of_In). exists x. split; [done|]. by apply bool_decide_eq_true_2. }
  split.
  - destruct (negb _ || negb _ || negb _) eqn:Hc; [done|]. intros _.
    apply orb_false_iff in Hc as [[Hc1 Hc2]%orb_false_iff Hc3]. rewrite negb_false_iff, Z.eqb_eq in *.
    symmetry. apply submseteq_length_Permutation; [|rewrite length_fmap; lia].
    apply NoDup_submseteq; [done|]. intros i Hi. apply Hin.
    destruct (existsb (has_identifier i) actual) eqn:He; [done|]. exfalso.
    assert (i ∈ List.filter (fun i => negb (existsb (has_identifier i) actual)) expected) as Hf.
    { apply list_elem_of_In, filter_In. split; [by apply list_elem_of_In|]. by rewrite He. }
    destruct (List.filter _ _); [by apply not_elem_of_nil in Hf|done].
  - intros Hp. rewrite !filter_none.
    + apply Permutation_length in Hp. rewrite length_fmap in Hp. rewrite Hp. cbn [length]. by rewrite !Z.eqb_refl.
    + intros x Hx. apply negb_false_iff, bool_decide_eq_true_2. rewrite <- Hp. by apply list_elem_of_fmap_2.
    + intros i Hi. apply negb_false_iff, Hin. by rewrite Hp.
Qed.

(** ** Workflows that only send *)

Section Sends.
Context {T E : Type} `{Htr : BiometricTransport T E} (tr0 : T).

Lemma sends_prepare uid : sends (E := E) tr0 (UserWorkflow.prepare_user uid).
Proof.
  unfold UserWorkflow.prepare_user, UserWorkflow.select_user, UserWorkflow.refresh_catacomb_state,
    UserWorkflow.read_catacomb_states, UserWorkflow.read_identities, UserWorkflow.user_execute.
  repeat first [apply sends_lift | apply sends_err | apply sends_execute | apply sends_bind; [|intros ?]].
Qed.

Lemma sends_list uid : sends (E := E) tr0 (UserWorkflow.list_user_identities uid).
Proof.
  unfold UserWorkflow.list_user_identities, UserWorkflow.read_identities, UserWorkflow.user_execute.
  repeat first [apply sends_lift | apply sends_err | apply sends_execute | apply sends_bind; [|intros ?]].
Qed.

Lemma srun_execute u H p P Q B :
  (forall x l t s, P l t s ->
     match x with Ok b => Q b (l ++ [mkSent p x s]) t s | _ => B (l ++ [mkSent p x s]) t s end) ->
  srun (E := E) u H tr0 P (on_transport (execute p)) (spost Q B).
Proof.
  intros HQ s t [Hp Ht] Hh HP. unfold on_transport, execute at 1, session_transport.
  destruct (execute p (transport s)) as [x tr] eqn:Hx.
  eexists x, _, t. split; [reflexivity|]. split; [split; [done|by apply tracks_execute]|]. split; [done|].
  specialize (HQ x _ _ _ HP). by destruct x.
Qed.
End Sends.

(** ** The removal, once the live set is known *)

Section Removal.
Context {T E : Type} `{Htr : BiometricTransport T E}.
Context (u : Z) (r : ino) (allowed : option CatacombPair -> Prop).
Context (F0 : gmap ino node) (K0 : gmap name (list (option ino))) (Hsafe : safe u allowed F0 K0).
Context (tk : bytes).
Context (Hfree : K0 !! (STAGE ++ tk) = None /\ K0 !! (PAIR ++ tk) = None /\
                 K0 !! (ACTIVE ++ tk ++ TMP) = None /\ K0 !! (RECOVERY ++ tk) = None).
Context (Hmark : marker_text (PAIR ++ tk)).
Context (tr0 : T) (uid : Policy.BiometricUserId) (target : IdentityIdentifier).
Context (expected : list IdentityIdentifier) (metadata : bytes).
Abbreviation HS := (stop_safe u allowed).

Definition remove_rest (before : list Identity)
    : M (session T E * Transaction) (IdentityRemovalError E) (list Identity * CatacombBackup) :=
  do! tgt := lift (ok_or (List.find (has_identifier target) before) TargetMissing) in
  do! _ := lift (verify_pre_mutation_set before expected) in
  do! _ := mapM_err Persistence (reserve_transaction_with_metadata metadata) in
  do! response := mapM_err (fun e => CommandAmbiguous (CommandTransport e))
                    (on_transport (execute (Commands.remove_identity_command tgt))) in
  do! _ := lift (map_err (fun e => CommandAmbiguous (CommandResponse e))
                   (Commands.validate_empty_response response)) in
  do! backup := mapM_err Persistence (backup_body uid AlreadyReserved) in
  ret (before, backup).

(** The command that removes [target], sent when the next manifest is durable. *)
Definition removal_sent (e : Sent E) : Prop :=
  exists tgt, packet e = Commands.remove_identity_command tgt /\ identifier tgt = target /\
  saved u tk None None (Some metadata) (at_files e).

Definition removal_failed (l0 l : list (Sent E)) (t : Transaction) (s : FS) : Prop :=
  droppable u r allowed t s /\
  (l = l0 \/ exists e es, l = l0 ++ e :: es /\ removal_sent e /\ backup_shape u tk uid (Some metadata) es).

Definition removal_done (l0 : list (Sent E)) (before : list Identity) (a : list Identity * CatacombBackup)
    (l : list (Sent E)) (t : Transaction) (s : FS) : Prop :=
  fst a = before /\ target ∈ identifier <$> before /\ verify_pre_mutation_set (E := E) before expected = Ok () /\
  exists e es usr mst, l = l0 ++ e :: es /\ removal_sent e /\ backup_shape u tk uid (Some metadata) es /\
  user_answer es usr /\ master_answer es mst /\ snd a = mkBackup (len usr) (len mst) /\
  promoted u r (mkPair mst usr (Some metadata)) t s.

Lemma fresh_droppable t s : fresh u r F0 K0 tk t s -> droppable u r allowed t s.
Proof. intros (_ & _ & _ & Hk). by eapply tx_known_droppable. Qed.

Lemma ready_saved t s : ready u r F0 K0 tk (Some metadata) t s -> saved u tk None None (Some metadata) s.
Proof.
  intros Hr. pose proof (ready_valid u r F0 K0 tk (Some metadata) t s Hr) as Hv.
  destruct Hr as (Hres & Hren & _ & _ & Hk).
  exact (tx_saved u r F0 K0 tk _ t s Hk Hres Hren (insert_non_empty _ _ _) Hv).
Qed.

Lemma reserve_metadata_run l0 :
  srun u HS tr0 (fun l t s => l = l0 /\ fresh u r F0 K0 tk t s) (reserve_transaction_with_metadata (T := T) (E := E) metadata)
    (spost (fun _ l t s => l = l0 /\ ready u r F0 K0 tk (Some metadata) t s)
       (fun l t s => l = l0 /\ droppable u r allowed t s)).
Proof.
  eapply srun_ext with (m' := do! _ := lift (map_err StoreE (decode_identity_metadata metadata)) in
    mapM_err StoreE (on_transaction (do! _ := reserve_recovery in write_metadata metadata))).
  { intros [s t]. unfold reserve_transaction_with_metadata, bind, lift, mapM_err, on_transaction.
    destruct (map_err StoreE _) as [[]|e|]; [|done..].
    by destruct (reserve_recovery (files s, t)) as [[[]|e|] [w' t']]. }
  eapply srun_bind with (R := fun _ l t s => l = l0 /\ fresh u r F0 K0 tk t s).
  { apply srun_lift. intros l t s [-> Hf]. destruct (map_err StoreE _); cbn; [done|..]; split; [done| |done|];
      by apply fresh_droppable. }
  intros []. apply srun_err. eapply srun_method_at; [|by intros t s Hd].
  exact (reserve_ready u r allowed F0 K0 Hsafe tk Hfree (Some metadata)).
Qed.

Lemma remove_rest_run l0 before :
  (forall e, removal_sent e -> admits u allowed tk tr0 uid (Some metadata) (l0 ++ [e])) ->
  srun u HS tr0 (fun l t s => l = l0 /\ fresh u r F0 K0 tk t s) (remove_rest before)
    (spost (removal_done l0 before) (removal_failed l0)).
Proof.
  intros Hal.
  assert (forall A (x : res (IdentityRemovalError E) A),
    srun u HS tr0 (fun l t s => l = l0 /\ fresh u r F0 K0 tk t s) (lift x)
      (spost (fun a l t s => x = Ok a /\ l = l0 /\ fresh u r F0 K0 tk t s) (removal_failed l0))) as Hlift.
  { intros A x. apply srun_lift. intros l t s [-> Hf]. destruct x; cbn; [done|..]; split; try (by left);
      by apply fresh_droppable. }
  eapply srun_bind; [apply Hlift|]. intros tgt. apply srun_pure. intros Htgt.
  assert (tgt ∈ before /\ identifier tgt = target) as [Hin Hid].
  { destruct (List.find (has_identifier target) before) as [x|] eqn:Hf; [|done]. injection Htgt as <-.
    apply List.find_some in Hf as [Hi Hx]. split; [by apply list_elem_of_In|]. by apply bool_decide_eq_true_1 in Hx. }
  eapply srun_bind; [apply Hlift|]. intros []. apply srun_pure. intros Hver.
  eapply srun_bind with (R := fun _ l t s => l = l0 /\ ready u r F0 K0 tk (Some metadata) t s).
  { apply srun_err. eapply srun_weaken; [apply (reserve_metadata_run l0)|done|].
    intros [] l t s HQ; cbn in *; [done|..]; destruct HQ as [-> Hd]; (split; [done|by left]). }
  intros [].
  assert (forall x s t, ready u r F0 K0 tk (Some metadata) t s ->
    removal_sent (mkSent (Commands.remove_identity_command tgt) x s)) as Hsent.
  { intros x s t Hr. exists tgt. split_and!; [done..|]. by eapply ready_saved. }
  assert (forall l e t s, l = l0 ++ [e] -> removal_sent e -> droppable u r allowed t s -> removal_failed l0 l t s) as Hfail.
  { intros l e t s -> He Hd. split; [done|]. right. exists e, []. split_and!; [done..|].
    apply (short_shape u tk uid (Some metadata) 0); cbn; [lia|]. split; [done|cbn; lia]. }
  eapply srun_bind with (R := fun _ l t s => exists e, removal_sent e /\ l = l0 ++ [e] /\ ready u r F0 K0 tk (Some metadata) t s).
  { apply srun_err, srun_execute. intros x l t s [-> Hr]. pose proof (Hsent x s t Hr) as He.
    destruct x; [by eexists|..]; (eapply Hfail; [done..|by eapply ready_droppable]). }
  intros response. apply srun_ex. intros e. apply srun_pure. intros He.
  eapply srun_bind with (R := fun _ l t s => l = l0 ++ [e] /\ ready u r F0 K0 tk (Some metadata) t s).
  { apply srun_lift. intros l t s [-> Hr]. destruct (map_err _ _) as [[]| |]; cbn; [done|..];
      (eapply Hfail; [done..|by eapply ready_droppable]). }
  intros []. eapply srun_bind.
  { apply srun_err. eapply srun_weaken with (P := fun l t s => l = l0 ++ [e] /\ ready u r F0 K0 tk (Some metadata) t s)
      (Q := spost (finished u r tk uid (Some metadata) (l0 ++ [e])) (removal_failed l0)).
    - exact (backup_body_run u r allowed F0 K0 Hsafe tk Hfree Hmark tr0 uid (Some metadata) (l0 ++ [e]) AlreadyReserved (Hal e He)).
    - done.
    - intros [b|x|] l t s HQ; cbn in *; [done|..]; destruct HQ as (Hd & es & -> & Hsh); (split; [done|right]);
        exists e, es; rewrite <- app_assoc; by split_and!. }
  intros b. apply srun_ret. intros l t s (es & usr & mst & -> & _ & Hsh & Hu & Hm & -> & Hpr).
  split; [done|]. split; [rewrite <- Hid; by apply list_elem_of_fmap_2|]. split; [done|].
  exists e, es, usr, mst. rewrite <- app_assoc. by split_and!.
Qed.
End Removal.

(** ** The catalogue, the manifest and the live set *)

Import Deletion.

Lemma expected_nodup c : Catalog.catalog_wf c -> NoDup (expected_before c).
Proof.
  intros (_ & _ & _ & Hn). unfold expected_before. cbn [Metadata.identities] in Hn.
  change (NoDup (StandardProtocol.id_bytes ∘ Metadata.id <$> Catalog.c_identities c)). rewrite list_fmap_compose.
  apply NoDup_fmap_2_strong; [|done].
  intros [] [] _ _. cbn. by intros ->.
Qed.

(** The target is removed from the identifiers the catalogue expects. *)
Lemma expected_removed c target next :
  Catalog.catalog_wf c -> Catalog.remove_labeled c target = (Ok (), next) ->
  Catalog.catalog_wf next /\
  List.filter (fun i => negb (bool_decide (i = StandardProtocol.id_bytes target))) (expected_before c) ≡ₚ expected_before next.
Proof.
  intros Hwf Hrem. pose proof (expected_nodup c Hwf) as Hnd. pose proof (Catalog.remove_labeled_refines c target Hwf) as [Hwf' _].
  rewrite Hrem in Hwf'. split; [done|]. revert Hrem. unfold Catalog.remove_labeled.
  pose proof (Catalog.find_labeled_split target (Catalog.c_identities c)) as Hs.
  destruct (list_find _ _) as [[n e]|]; [|done]. intros [= <-]. destruct Hs as (es1 & f & es2 & Hc & ->).
  unfold expected_before in *. cbn [Catalog.c_identities]. rewrite Hc, delete_middle in *.
  rewrite fmap_app, fmap_cons in Hnd. rewrite !fmap_app, fmap_cons, List.filter_app. cbn [List.filter Metadata.id].
  apply NoDup_app in Hnd as (_ & Hd1 & [Hd2 _]%NoDup_cons).
  rewrite bool_decide_eq_true_2 by done. cbn [negb].
  assert (forall l, StandardProtocol.id_bytes target ∉ l ->
    List.filter (fun i => negb (bool_decide (i = StandardProtocol.id_bytes target))) l = l) as Hid.
  { induction l as [|x l IH]; intros Hx; [done|]. cbn. rewrite bool_decide_eq_false_2 by set_solver. cbn.
    rewrite IH; [done|set_solver]. }
  rewrite !Hid; [done|done|]. intros Hin. apply (Hd1 _ Hin). by left.
Qed.

Lemma identifiers_others target l :
  identifier <$> others target l = List.filter (fun i => negb (bool_decide (i = target))) (identifier <$> l).
Proof.
  induction l as [|x l IH]; [done|]. rewrite fmap_cons. unfold others in *. cbn [List.filter].
  unfold has_identifier at 1. destruct (negb _); [rewrite fmap_cons|]; by rewrite IH.
Qed.

Lemma filter_perm {A} (f : A -> bool) l k : l ≡ₚ k -> List.filter f l ≡ₚ List.filter f k.
Proof.
  induction 1 as [|x l k _ IH|x y l|l k m _ IH1 _ IH2]; cbn; [done| | |by rewrite IH1].
  - by destruct (f x); rewrite ?IH.
  - destruct (f x), (f y); try done. apply Permutation_swap.
Qed.

Section Deletion.
Context {T E : Type} `{Htr : BiometricTransport T E}.

(** The live set a removal begins with. *)
Definition live_before (uid : Policy.BiometricUserId) (prepared_before : option (list Identity)) (s : session T E)
    : res (UserWorkflow.UserWorkflowError E) (list Identity) * session T E :=
  match prepared_before with Some l => (Ok l, s) | None => UserWorkflow.prepare_user uid s end.

Lemma remove_body_eq uid target expected metadata prepared_before (s : session T E) t :
  remove_body uid target (Some (expected, metadata)) prepared_before (s, t) =
  match live_before uid prepared_before s with
  | (Ok before, s1) => remove_rest uid target expected metadata before (s1, t)
  | (Err e, s1) => (Err (IdentityLifecycle.Preparation e), (s1, t))
  | (Panic, s1) => (Panic, (s1, t))
  end.
Proof.
  assert (forall before s1,
    (do! target0 := lift (ok_or (List.find (has_identifier target) before) TargetMissing) in
     do! preparation := (do! _ := lift (verify_pre_mutation_set before expected) in
        do! _ := mapM_err Persistence (reserve_transaction_with_metadata metadata) in ret AlreadyReserved) in
     do! response := mapM_err (fun e => CommandAmbiguous (CommandTransport e))
                    (on_transport (execute (Commands.remove_identity_command target0))) in
     do! _ := lift (map_err (fun e => CommandAmbiguous (CommandResponse e))
                   (Commands.validate_empty_response response)) in
     do! backup := mapM_err Persistence (backup_body uid preparation) in
     ret (before, backup)) (s1, t) = remove_rest (T := T) (E := E) uid target expected metadata before (s1, t)) as Hrest.
  { intros before s1. unfold remove_rest, bind, lift, ret.
    destruct (ok_or _ _) as [tgt|e|]; [|done..]. destruct (verify_pre_mutation_set before expected) as [[]|e|]; [|done..].
    by destruct (mapM_err Persistence (reserve_transaction_with_metadata metadata) (s1, t)) as [[[]|e|] [s2 t2]]. }
  destruct prepared_before as [before|]; [exact (Hrest before s)|].
  unfold remove_body. unfold bind at 1. unfold mapM_err, on_transport at 1. cbn [live_before].
  destruct (UserWorkflow.prepare_user uid s) as [[before|e|] s1]; [exact (Hrest before s1)|done..].
Qed.

(** The store before, or the pair exported right after the command that removes [target]. *)
Definition old_or_removed (old : option CatacombPair) (tr : T) (uid : Z) (target : IdentityIdentifier) (metadata : bytes)
    (o : option CatacombPair) : Prop :=
  o = old \/ exists l e tgt usr mst, packet e = Commands.remove_identity_command tgt /\ identifier tgt = target /\
  exports tr (l ++ [e]) uid usr mst /\ o = Some (mkPair mst usr (Some metadata)).

(** What the log of a removal looks like: commands that read, then the removal and the
    export. *)
Definition removal_log (u : Z) (tk : bytes) (uid : Z) (target : IdentityIdentifier) (metadata : bytes) (s0 : FS)
    (l : list (Sent E)) : Prop :=
  exists pre, Forall (fun e => at_files e = s0) pre /\
  (l = pre \/ exists e es post, l = pre ++ e :: es ++ post /\ removal_sent u tk target metadata e /\
   backup_shape u tk uid (Some metadata) es).

Lemma live_before_sends tr0 uid prepared_before (s : session T E) :
  tracks tr0 s -> sent s = [] -> let s1 := snd (live_before uid prepared_before s) in
  tracks tr0 s1 /\ files s1 = files s /\ Forall (fun e => at_files e = fs (files s)) (sent s1).
Proof.
  intros Ht Hl. destruct prepared_before; cbn; [by rewrite Hl|].
  destruct (sends_prepare tr0 uid s) as (Ht1 & Hf & es & -> & He). rewrite Hl. auto.
Qed.

Lemma admits_removed u tk old tr uid target metadata l e :
  removal_sent u tk target metadata e ->
  admits u (old_or_removed old tr uid target metadata) tk tr uid (Some metadata) (l ++ [e]).
Proof.
  intros (tgt & Hp & Hi & _) es usr mst Ht (us & ms & Hsh & _) Hu Hm. right.
  exists l, e, tgt, usr, mst. split_and!; try done. by exists us, ms, es.
Qed.

Lemma owning_remove u r F K tk old uid target expected metadata prepared_before t (s : session T E) :
  let tr := transport s in
  let allowed := old_or_removed old tr uid target metadata in
  safe u allowed F K ->
  (K !! (STAGE ++ tk) = None /\ K !! (PAIR ++ tk) = None /\ K !! (ACTIVE ++ tk ++ TMP) = None /\
   K !! (RECOVERY ++ tk) = None) -> marker_text (PAIR ++ tk) ->
  process u (files s) -> Forall (stop_safe u allowed) (history (files s)) -> sent s = [] ->
  fresh u r F K tk t (fs (files s)) ->
  exists x s', owning (remove_body uid target (Some (expected, metadata)) prepared_before) t s = (x, s') /\
  tracks tr s' /\ Forall (stop_safe u allowed) (history (files s')) /\
  removal_log u tk uid target metadata (fs (files s)) (sent s') /\
  forall a, x = Ok a -> fst (live_before uid prepared_before s) = Ok (fst a) /\
    target ∈ identifier <$> fst a /\ verify_pre_mutation_set (E := E) (fst a) expected = Ok () /\
    exists pre e es usr mst, sent s' = pre ++ e :: es /\ Forall (fun e => at_files e = fs (files s)) pre /\
    removal_sent u tk target metadata e /\ backup_shape u tk uid (Some metadata) es /\
    user_answer es usr /\ master_answer es mst /\ snd a = mkBackup (len usr) (len mst) /\
    stop_safe u (fun o => o = Some (mkPair mst usr (Some metadata))) (fs (files s')).
Proof.
  intros tr allowed HS Hfree Hmk Hp Hh Hl Hf.
  assert (tracks tr s) as Ht by (split; rewrite Hl; [done|by intros i e]).
  pose proof (live_before_sends tr uid prepared_before s Ht Hl) as (Ht1 & Hfiles & Hpre).
  pose proof (remove_body_eq uid target expected metadata prepared_before s t) as Heq.
  destruct (live_before uid prepared_before s) as [x0 s1]. cbn [snd fst] in *.
  set (m := match x0 with
            | Ok before => remove_rest uid target expected metadata before
            | Err e => lift (Err (IdentityLifecycle.Preparation e))
            | Panic => lift Panic
            end : M (session T E * Transaction) (IdentityRemovalError E) _).
  assert (owning (remove_body uid target (Some (expected, metadata)) prepared_before) t s = owning m t s1) as ->.
  { unfold owning. rewrite Heq. unfold m. by destruct x0. }
  destruct (owning_run u r allowed tr m (fun l t s => l = sent s1 /\ fresh u r F K tk t s)
    (fun a l t s => x0 = Ok (fst a) /\ removal_done u r tk uid target expected metadata (sent s1) (fst a) a l t s)
    (removal_failed u r allowed tk uid target metadata (sent s1)) t s1)
    as (x & s' & Hx & _ & Ht' & Hh' & HQ).
  - unfold m. destruct x0 as [before|e|].
    + eapply srun_weaken; [apply (remove_rest_run u r allowed F K HS tk Hfree Hmk tr uid target expected metadata (sent s1) before)|done|].
      * intros e. apply admits_removed.
      * intros [a|e|] l t1 s2 HQ; cbn in *; [|done|done]. pose proof HQ as (-> & _). done.
    + apply srun_lift. intros l t1 s2 [-> Hfr]. split; [by eapply fresh_droppable|by left].
    + apply srun_lift. intros l t1 s2 [-> Hfr]. split; [by eapply fresh_droppable|by left].
  - by intros l t1 s2 [Hd _].
  - intros a l t1 s2 Htl (_ & _ & _ & _ & e & es & usr & mst & -> & He & Hsh & Hu & Hm & _ & Hpr).
    exists (mkPair mst usr (Some metadata)). split; [|done]. eapply (admits_removed u tk old tr uid target metadata (sent s1) e He); [|done..].
    by rewrite <- app_assoc.
  - by rewrite Hfiles.
  - done.
  - by rewrite Hfiles.
  - by rewrite Hfiles.
  - exists x, s'. split; [done|]. split; [done|]. split; [done|]. destruct x as [a|e|].
    + destruct HQ as (t1 & s2 & (-> & Ha & Htg & Hv & e & es & usr & mst & Hs & He & Hsh & Hu & Hm & Hb & Hpr) & Hfin).
      split.
      { exists (sent s1). split; [done|]. right. exists e, es, []. by rewrite app_nil_r. }
      intros a' [= <-]. split; [done|]. split; [done|]. split; [done|].
      exists (sent s1), e, es, usr, mst. split_and!; try done. apply Hfin; [done|].
      eapply (admits_removed u tk old tr uid target metadata (sent s1) e He); [|done..].
      rewrite <- app_assoc. cbn [app]. rewrite <- Hs. apply Ht'.
    + split; [|done]. destruct HQ as (t1 & s2 & _ & [Hs|(e' & es & Hs & He & Hsh)]); exists (sent s1); split; [done|by left|done|right].
      exists e', es, []. by rewrite app_nil_r.
    + split; [|done]. destruct HQ as (t1 & s2 & _ & [Hs|(e' & es & Hs & He & Hsh)]); exists (sent s1); split; [done|by left|done|right].
      exists e', es, []. by rewrite app_nil_r.
Qed.

(** A removal: up to the promotion, then the live set is read and compared. *)
Lemma remove_inner_run u r F K tk old uid target expected metadata prepared_before t (s : session T E) :
  let tr := transport s in
  let allowed := old_or_removed old tr uid target metadata in
  safe u allowed F K ->
  (K !! (STAGE ++ tk) = None /\ K !! (PAIR ++ tk) = None /\ K !! (ACTIVE ++ tk ++ TMP) = None /\
   K !! (RECOVERY ++ tk) = None) -> marker_text (PAIR ++ tk) ->
  process u (files s) -> Forall (stop_safe u allowed) (history (files s)) -> sent s = [] ->
  fresh u r F K tk t (fs (files s)) ->
  exists x s', remove_identity_inner t uid target (Some (expected, metadata)) prepared_before s = (x, s') /\
  Forall (stop_safe u allowed) (history (files s')) /\
  removal_log u tk uid target metadata (fs (files s)) (sent s') /\
  forall b, x = Ok b -> exists before after s1 usr mst,
    fst (live_before uid prepared_before s) = Ok before /\
    UserWorkflow.list_user_identities uid s1 = (Ok after, s') /\
    target ∈ identifier <$> before /\ verify_pre_mutation_set (E := E) before expected = Ok () /\
    after ≡ₚ others target before /\ b = mkBackup (len usr) (len mst) /\
    stop_safe u (fun o => o = Some (mkPair mst usr (Some metadata))) (fs (files s')).
Proof.
  intros tr allowed HS Hfree Hmk Hp Hh Hl Hf.
  destruct (owning_remove u r F K tk old uid target expected metadata prepared_before t s HS Hfree Hmk Hp Hh Hl Hf)
    as (x & s1 & Hx & Ht1 & Hh1 & Hlog & Hok).
  unfold remove_identity_inner. unfold bind at 1. rewrite Hx.
  destruct x as [a|e|]; [|by exists (Err e), s1|by exists Panic, s1].
  destruct (Hok a eq_refl) as (Hbef & Htg & Hv & pre & e & es & usr & mst & Hs1 & Hpre & He & Hsh & Hu & Hm & Hb & Hsel).
  destruct (sends_list tr uid s1) as (_ & Hfiles & es' & Hsent & _).
  unfold bind, mapM_err, lift, ret. destruct (UserWorkflow.list_user_identities uid s1) as [y s'] eqn:Hy. cbn [snd] in *.
  assert (removal_log u tk uid target metadata (fs (files s)) (sent s')) as Hlog'.
  { exists pre. split; [done|]. right. exists e, es, es'. rewrite Hsent, Hs1, <- app_assoc. cbn [app]. done. }
  assert (Forall (stop_safe u allowed) (history (files s'))) as Hh' by (by rewrite Hfiles).
  destruct y as [after|e'|]; cbn [map_err]; [|by eexists _, s'..].
  destruct (verify_identity_delta (fst a) after target) as [[]|e'|] eqn:Hd; [|by eexists _, s'..].
  exists (Ok (snd a)), s'. split_and!; [done..|]. intros b [= <-].
  exists (fst a), after, s1, usr, mst. apply verify_delta_iff in Hd. rewrite Hfiles. by split_and!.
Qed.

(** A refusal: the transaction is dropped. *)
Lemma refused_run u r F K tk (allowed : option CatacombPair -> Prop) :
  safe u allowed F K ->
  (K !! (STAGE ++ tk) = None /\ K !! (PAIR ++ tk) = None /\ K !! (ACTIVE ++ tk ++ TMP) = None /\
   K !! (RECOVERY ++ tk) = None) ->
  forall t (s : session T E) (x : res (StandardIdentityDeletionError E) CatacombBackup),
  process u (files s) -> Forall (stop_safe u allowed) (history (files s)) -> fresh u r F K tk t (fs (files s)) ->
  is_ok x = false -> exists s', owning (lift x) t s = (x, s') /\
  Forall (stop_safe u allowed) (history (files s')) /\ sent s' = sent s.
Proof.
  intros HS Hfree t s x Hp Hh Hf Hx.
  destruct (fresh_droppable u r allowed F K HS tk Hfree t _ Hf) as (F1 & K1 & W & N & HS1 & Hk & Hty).
  destruct (run_drop u _ r F1 K1 (allows_safe u r allowed F1 K1 HS1) t W N (files s) Hty Hp Hh Hk) as (_ & Hh' & _).
  eexists. by split_and!.
Qed.

(** What a deletion may select: the next manifest is that of the catalogue. *)
Definition deletion_allowed (old : option CatacombPair) (tr : T) (uid : Z) (catalog : Catalog.Catalog)
    (target : StandardProtocol.IdentityId) (o : option CatacombPair) : Prop :=
  o = old \/ exists metadata, next_manifest (E := E) catalog target = Ok metadata /\
  old_or_removed old tr uid (StandardProtocol.id_bytes target) metadata o.

(** What holds when a deletion has succeeded. *)
Definition deleted (u : Z) (uid : Z) (prepared_before : option (list Identity)) (catalog : Catalog.Catalog)
    (target : StandardProtocol.IdentityId) (s s' : session T E) (b : CatacombBackup) : Prop :=
  exists next manifest before after s1 usr mst,
  Catalog.remove_labeled catalog target = (Ok (), next) /\ Catalog.encode_next_manifest next = Ok manifest /\
  Metadata.decode manifest = Ok (Metadata.mkMetadata (Catalog.c_owner next) (Catalog.c_identities next)) /\
  fst (live_before uid prepared_before s) = Ok before /\ identifier <$> before ≡ₚ expected_before catalog /\
  UserWorkflow.list_user_identities uid s1 = (Ok after, s') /\
  after ≡ₚ others (StandardProtocol.id_bytes target) before /\ identifier <$> after ≡ₚ expected_before next /\
  b = mkBackup (len usr) (len mst) /\
  stop_safe u (fun o => o = Some (mkPair mst usr (Some manifest))) (fs (files s')).

Lemma next_manifest_Ok catalog target metadata :
  Catalog.catalog_wf catalog -> next_manifest (E := E) catalog target = Ok metadata ->
  exists next, Catalog.remove_labeled catalog target = (Ok (), next) /\ Catalog.catalog_wf next /\
  Catalog.encode_next_manifest next = Ok metadata /\
  Metadata.decode metadata = Ok (Metadata.mkMetadata (Catalog.c_owner next) (Catalog.c_identities next)).
Proof.
  intros Hwf. unfold next_manifest. destruct (Catalog.remove_labeled catalog target) as [x next] eqn:Hr.
  destruct x as [[]|e|]; cbn [map_err]; [|done..].
  destruct (expected_removed catalog target next Hwf Hr) as [Hwf' _].
  pose proof (Catalog.encode_next_manifest_wf next Hwf') as Henc. rewrite Henc. intros [= <-].
  exists next. split_and!; [done|done|done|]. apply Metadata.decode_complete; [by apply Catalog.manifest_bytes_ok|done].
Qed.

(** C12. A labelled identity is deleted exactly. Over any transport, from a store at rest
    in a durable directory and a catalogue without duplicates, with any calls failing: the command that removes the
    target is sent only when the manifest without it is durable in a reserved generation,
    and the exports that follow are durable in order; every state of the files selects the
    old generation or the one exported after the removal, with that manifest; and success
    means that the live set before was the catalogue's, that after it is the same set
    without the target, and that the selected manifest describes it. *)
Theorem labeled_deletion_exact u old (uid : Z) prepared_before catalog target w0 t (s : session T E) :
  let tk := fst (artifact_token w0) in
  process u w0 -> history w0 = [] -> settled u old (fs w0) -> resolve (fs w0) [PAIR ++ tk] = Err NotFound ->
  begin_transaction w0 = (Ok t, files s) -> sent s = [] -> Catalog.catalog_wf catalog ->
  exists x s', delete_with t uid prepared_before catalog target s = (x, s') /\
  Forall (stop_safe u (deletion_allowed old (transport s) uid catalog target)) (history (files s')) /\
  (sent s' = [] \/ exists metadata, next_manifest (E := E) catalog target = Ok metadata /\
     removal_log u tk uid (StandardProtocol.id_bytes target) metadata (fs (files s)) (sent s')) /\
  forall b, x = Ok b -> deleted u uid prepared_before catalog target s s' b.
Proof.
  intros tk Hp Hh Hset Hres Hbeg Hl Hwf.
  unfold delete_with. destruct (next_manifest (E := E) catalog target) as [metadata|e|] eqn:Hn.
  - destruct (begin_fresh u (old_or_removed old (transport s) uid (StandardProtocol.id_bytes target) metadata) old w0 Hp Hh Hset Hres)
      as (r & F & K & x & w' & HS & Hfree & Hmk & Hx & Hp' & Hh' & HQ); [by left|]. rewrite Hbeg in Hx. injection Hx as <- <-.
    destruct (remove_inner_run u r F K tk old uid (StandardProtocol.id_bytes target) (expected_before catalog) metadata
      prepared_before t s HS Hfree Hmk Hp' Hh' Hl HQ) as (x & s' & Hx & Hh2 & Hlog & Hok).
    unfold mapM_err. rewrite Hx. eexists _, s'. split; [reflexivity|]. split_and!.
    + eapply Forall_impl; [exact Hh2|]. intros f Hf f' Hst. destruct (Hf f' Hst) as (o & Ho & ?). exists o.
      split; [|done]. right. exists metadata. by split.
    + right. exists metadata. by split.
    + intros b Hb. destruct x as [b'|e|]; [|done..]. injection Hb as ->.
      destruct (Hok b eq_refl) as (before & after & s1 & usr & mst & Hbef & Hlist & Htg & Hv & Hafter & Hb & Hsel).
      destruct (next_manifest_Ok catalog target metadata Hwf Hn) as (next & Hrem & Hwf' & Henc & Hdec).
      apply verify_before_iff in Hv; [|by apply expected_nodup].
      exists next, metadata, before, after, s1, usr, mst. split_and!; try done.
      destruct (expected_removed catalog target next Hwf Hrem) as [_ <-].
      rewrite Hafter, identifiers_others. by apply filter_perm.
  - destruct (begin_fresh u (deletion_allowed old (transport s) uid catalog target) old w0 Hp Hh Hset Hres)
      as (r & F & K & x & w' & HS & Hfree & Hmk & Hx & Hp' & Hh' & HQ); [by left|]. rewrite Hbeg in Hx. injection Hx as <- <-.
    destruct (refused_run u r F K tk _ HS Hfree t s (Err e) Hp' Hh' HQ) as (s' & Hx & Hh2 & Hs2); [done|].
    exists (Err e), s'. rewrite Hs2, Hl. split_and!; [done|done|by left|done].
  - destruct (begin_fresh u (deletion_allowed old (transport s) uid catalog target) old w0 Hp Hh Hset Hres)
      as (r & F & K & x & w' & HS & Hfree & Hmk & Hx & Hp' & Hh' & HQ); [by left|]. rewrite Hbeg in Hx. injection Hx as <- <-.
    destruct (refused_run u r F K tk _ HS Hfree t s Panic Hp' Hh' HQ) as (s' & Hx & Hh2 & Hs2); [done|].
    exists Panic, s'. rewrite Hs2, Hl. split_and!; [done|done|by left|done].
Qed.
End Deletion.

(** The catalogue of [Catalog.ex_catalog]; the identity of bytes 2 is removed. *)
Definition example_target : StandardProtocol.IdentityId := StandardProtocol.mkIdentityId (replicate 16 2).
Definition example_live : list Identity := [mkIdentity 501 (replicate 16 1); mkIdentity 501 (replicate 16 2)].
Definition example_begun : res CatacombStoreError Transaction * world := begin_transaction (example_world []).
Definition example_deletion : session (list (res Z bytes)) Z :=
  mkSession [Ok []; Ok [3; 0; 0; 0]; Ok [7; 8; 9]; Ok []; Ok [2; 0; 0; 0]; Ok [5; 6]; Ok [];
             Ok (le_bytes 4 501 ++ replicate 16 1)] (snd example_begun) [].

Lemma labeled_deletion_exact_witness :
  exists t s', example_begun = (Ok t, files example_deletion) /\
  delete_with t 501 (Some example_live) Catalog.ex_catalog example_target example_deletion = (Ok (mkBackup 3 2), s') /\
  deleted 0 501 (Some example_live) Catalog.ex_catalog example_target example_deletion s' (mkBackup 3 2).
Proof.
  assert (exists t, example_begun = (Ok t, files example_deletion) /\
    fst (delete_with t 501 (Some example_live) Catalog.ex_catalog example_target example_deletion) = Ok (mkBackup 3 2)) as (t & Hb & Hok).
  { destruct example_begun as [[t|e|] w] eqn:Hb; [|vm_compute in Hb; discriminate Hb..].
    exists t. split; [unfold example_deletion; cbn [files]; by rewrite Hb|].
    assert (t = match example_begun with (Ok t, _) => t | _ => t end) as -> by (by rewrite Hb).
    clear Hb. vm_compute. reflexivity. }
  destruct (labeled_deletion_exact 0 (Some example_pair) 501 (Some example_live) Catalog.ex_catalog example_target
    (example_world []) t example_deletion) as (x & s' & Hx & _ & _ & Hdone);
    [apply example_process|reflexivity|apply example_settled|vm_compute; reflexivity|exact Hb|reflexivity|apply Catalog.ex_catalog_wf|].
  rewrite Hx in Hok. cbn [fst] in Hok. subst x. exists t, s'. split; [exact Hb|]. split; [exact Hx|]. by apply Hdone.
Defined.
End IdentityRemoval.
