(* ===== verification/CatacombRecovery.v ===== *)
(** * Recovery of a reserved generation

    [recover_with_validator] of [catacomb_store.rs]: from any state of the files a stop can
    leave, with any calls failing, a generation becomes the selected one only if it is
    complete, its reservation is the only one and the validator accepted exactly what it
    holds. *)

From S2P Require Import Prelude Effects Text Biometric IdentityCatalog FileSystem CatacombStore CatacombSafety CatacombAtomic.

Import FileSystem CatacombStore CatacombSafety CatacombAtomic.

Module CatacombRecovery.

(** ** Reads that succeed *)

Section Exact.
Context (u : Z) (H : FS -> Prop).

(** Only reads, and what it returns is true of the files. *)
Definition reads_ok {E A} (m : M world E A) (phi : A -> FS -> Prop) : Prop :=
  reads u H m (fun x s => forall a, x = Ok a -> phi a s).

Lemma ok_bind {E A B} (m : M world E A) (k : A -> M world E B) phi psi :
  reads_ok m phi -> (forall a, reads_ok (k a) (fun b s => phi a s -> psi b s)) ->
  reads_ok (bind m k) psi.
Proof.
  intros Hm Hk. eapply reads_seq; [exact Hm| |done]. intros a. eapply reads_weaken; [apply Hk|].
  cbn. intros x s Hx Ha b Hb. by apply Hx, Ha.
Qed.

Lemma ok_err {E F A} (m : M world E A) (f : E -> F) phi : reads_ok m phi -> reads_ok (mapM_err f m) phi.
Proof.
  intros Hm. eapply reads_weaken; [apply reads_map_err, Hm|]. cbn. intros x s (y & Hy & ->) a Ha.
  destruct y; simplify_eq/=. by apply Hy.
Qed.

Lemma ok_lift {E A} (x : res E A) (phi : A -> FS -> Prop) :
  x <> Panic -> (forall a s, x = Ok a -> phi a s) -> reads_ok (lift x) phi.
Proof. intros Hx Hp P HP. apply run_lift. intros s Hs. split_and!; [done..|]. intros a Ha. by apply Hp. Qed.

Lemma ok_ret {E A} (a : A) (phi : A -> FS -> Prop) : (forall s, phi a s) -> reads_ok (E := E) (ret a) phi.
Proof. intros Hp. apply ok_lift; [done|]. intros b s [= <-]. apply Hp. Qed.

Lemma ok_fail {E A} (e : E) (phi : A -> FS -> Prop) : reads_ok (lift (Err e)) phi.
Proof. by apply ok_lift. Qed.

Lemma ok_sys {A} (f : FS -> res IoError A) (phi : A -> FS -> Prop) :
  (forall s, f s <> Panic) -> (forall s a, f s = Ok a -> phi a s) -> reads_ok (sys (fun s => (f s, s))) phi.
Proof. intros Hn Hp. apply reads_sys; [|done]. intros s. split; [apply Hn|]. intros a Ha. by apply Hp. Qed.

Lemma ok_weaken {E A} (m : M world E A) (phi psi : A -> FS -> Prop) :
  reads_ok m phi -> (forall a s, phi a s -> psi a s) -> reads_ok m psi.
Proof. intros Hm Hp. eapply reads_weaken; [exact Hm|]. cbn. eauto. Qed.

Lemma ok_any {E A} (m : M world E A) : only_reads u H m -> reads_ok m (fun _ _ => True).
Proof. intros Hm. by eapply reads_weaken. Qed.

(** A private file and its contents. *)
Definition holds_file (s : FS) (p : path) (bs : bytes) : Prop :=
  exists i m cl, resolve s p = Ok i /\ nodes s !! i = Some (NFile m bs cl) /\ private_file u m.

(** What is known of a file that passed the checks of its metadata. *)
Definition checked_file (s : FS) (i : ino) (m : Metadata) : Prop :=
  exists fm c cl, nodes s !! i = Some (NFile fm c cl) /\ private_file u fm /\ size m = len c.

Lemma ok_open d p : reads_ok (open_read d p) (fun i s => resolve s p = Ok i).
Proof. eapply reads_weaken; [apply reads_open|done]. Qed.

Lemma ok_metadata i : reads_ok (metadata i) (fun m s => stat s i = Ok m).
Proof. apply ok_sys; [intros; apply stat_np|done]. Qed.

Lemma ok_uid : reads_ok effective_uid (fun i _ => i = u).
Proof. eapply reads_weaken; [apply reads_effective_uid|done]. Qed.

(** Opening the metadata of a file and checking it, before [k]. *)
Lemma ok_file {B} i (k : Metadata -> store_io B) psi :
  (forall m, reads_ok (k m) (fun b s => checked_file s i m -> psi b s)) ->
  reads_ok (do! m := or_unavailable (metadata i) in do! _ := validate_private_file_metadata m in k m) psi.
Proof.
  intros Hk. eapply ok_bind; [apply ok_err, ok_metadata|]. intros m.
  eapply (ok_bind _ _ (fun _ _ => validate_file_identity (is_file m) (mode m) (uid m) (nlink m) u = Ok ())).
  - eapply ok_bind; [apply ok_uid|]. intros e. apply ok_lift.
    + unfold validate_file_identity. by case_match.
    + by intros [] s Hv ->.
  - intros []. eapply ok_weaken; [apply Hk|]. cbn. intros b s Hb Hv Hst. apply Hb.
    unfold stat in Hst. unfold validate_file_identity in Hv.
    destruct (nodes s !! i) as [[fm c cl| |]|] eqn:Hi; simplify_eq/=; [|by rewrite ?orb_true_l in Hv..].
    exists fm, c, cl. split_and!; [done| |done]. unfold private_file.
    destruct (Z.land (m_mode fm) PERMISSIONS =? PRIVATE_FILE) eqn:H1, (m_uid fm =? u) eqn:H2, (m_nlink fm =? 1) eqn:H3;
      cbn in Hv; try done. split_and!; by apply Z.eqb_eq.
Qed.

(** The whole file, once its size is known. *)
Lemma ok_read i m :
  reads_ok (or_unavailable (read_exact i (size m))) (fun bs s => forall p,
    resolve s p = Ok i -> checked_file s i m -> holds_file s p bs /\ len bs = size m).
Proof.
  apply ok_err. apply ok_sys.
  - intros s. unfold content. by repeat case_match.
  - intros s bs Hbs p Hp (fm & c & cl & Hi & Hm & Hsz). unfold content in Hbs. rewrite Hi in Hbs. cbn in Hbs.
    rewrite Hsz, Z.leb_refl, Nat2Z.id, take_ge in Hbs by lia. simplify_eq. split; [|done]. by exists i, fm, cl.
Qed.

Lemma ok_read_one i n : reads_ok (or_unavailable (read_one i n)) (fun _ _ => True).
Proof. apply ok_err, ok_any, reads_read_one. Qed.

Lemma ok_blob p : reads_ok (read_blob p) (fun bs s => holds_file s p bs /\ validate_blob bs = Ok ()).
Proof.
  eapply ok_bind; [apply ok_err, ok_open|]. intros i. apply ok_file. intros m.
  destruct ((size m =? 0) || (Catacomb.MAX_SECURE_CATACOMB_SIZE <? size m)) eqn:Hsz; [apply ok_fail|].
  eapply ok_bind; [apply ok_read|]. intros bs. eapply ok_bind; [apply ok_read_one|]. intros t.
  destruct (t =? 0); [|apply ok_fail]. apply ok_ret. intros s _ Hbs Hm Hp. destruct (Hbs p Hp Hm) as [Hf Hl].
  split; [done|]. rewrite <- Hl in Hsz. apply orb_false_iff in Hsz as [H0 H1].
  destruct bs; [done|]. cbn [validate_blob]. by rewrite H1.
Qed.

Lemma ok_read_metadata p :
  reads_ok (read_metadata p) (fun o s => match o with
    | Some bs => holds_file s p bs /\ validate_metadata bs = Ok ()
    | None => resolve s p = Err NotFound end).
Proof.
  eapply (ok_bind _ _ (fun o s => match o with Some i => resolve s p = Ok i | None => resolve s p = Err NotFound end)).
  - intros P HP w Hp Hh Hs. unfold open_metadata.
    assert (reads u H (open_read false p) (fun x s => match x with
      | Ok i => resolve s p = Ok i | Err NotFound => resolve s p = Err NotFound | _ => True end)) as Ho.
    { apply (reads_sys u H); [|done]. intros s. pose proof (resolve_np s p).
      destruct (resolve s p) as [i|[]|]; try done. split; by repeat case_match. }
    destruct (Ho P HP w Hp Hh Hs) as (x & w' & -> & ? & ? & ? & ? & HR).
    destruct x as [i|[]|]; [..|done]; eexists _, _; (split; [reflexivity|]); split_and!; try done;
      by intros a [= <-].
  - intros [i|]; [|by apply ok_ret]. apply ok_file. intros m.
    destruct (Metadata.MAX_MANIFEST_SIZE <? size m); [apply ok_fail|].
    eapply ok_bind; [apply ok_read|]. intros bs. eapply ok_bind; [apply ok_read_one|]. intros t.
    destruct (negb (t =? 0) || negb (is_ok (validate_metadata bs))) eqn:Hv; [apply ok_fail|].
    apply ok_ret. intros s _ Hbs Hm Hp. destruct (Hbs p Hp Hm) as [Hf _]. split; [done|].
    apply orb_false_iff in Hv as [_ Hv]. unfold validate_metadata in *. by case_match.
Qed.

(** A private directory. *)
Definition holds_dir (s : FS) (p : path) : Prop :=
  exists d dm vs ms, resolve s p = Ok d /\ nodes s !! d = Some (NDir dm vs ms) /\ private_dir u dm.

Lemma ok_directory p : reads_ok (open_checked_directory p) (fun d s => resolve s p = Ok d /\ holds_dir s p).
Proof.
  eapply ok_bind; [apply ok_err, ok_open|]. intros d. eapply ok_bind; [apply ok_err, ok_metadata|]. intros m.
  eapply (ok_bind _ _ (fun _ _ => is_dir m = true /\ Z.land (mode m) PERMISSIONS = PRIVATE_DIRECTORY /\ uid m = u)).
  - unfold validate_directory_metadata.
    destruct (is_dir m) eqn:Hd, (Z.land (mode m) PERMISSIONS =? PRIVATE_DIRECTORY) eqn:Hm;
      cbn [negb orb]; [|apply ok_fail..].
    eapply ok_bind; [apply ok_uid|]. intros e. destruct (uid m =? e) eqn:Hu; cbn [negb]; [|apply ok_fail].
    apply ok_ret. intros s ->. split_and!; [done|by apply Z.eqb_eq..].
  - intros []. apply ok_ret. intros s (Hd & Hm & Hu) Hst Hp. split; [done|]. unfold stat in Hst.
    destruct (nodes s !! d) as [[|dm vs ms|]|] eqn:Hn; simplify_eq/=. by exists d, dm, vs, ms.
Qed.

(** What a generation holds. *)
Record holds_pair (s : FS) (g : name) (q : CatacombPair) : Prop := mkHolds {
  hp_dir : holds_dir s [g];
  hp_master : holds_file s [g; MASTER_FILE] (master q);
  hp_user : holds_file s [g; USER_FILE] (user q);
  hp_metadata : match pair_metadata q with
                | Some md => holds_file s [g; IDENTITY_METADATA_FILE] md
                | None => resolve s [g; IDENTITY_METADATA_FILE] = Err NotFound
                end;
  hp_valid : valid_pair q
}.

Lemma ok_pair g : reads_ok (read_pair [g]) (fun q s => holds_pair s g q).
Proof.
  eapply ok_bind; [apply ok_directory|]. intros d. eapply ok_bind; [apply ok_blob|]. intros m.
  eapply ok_bind; [apply ok_blob|]. intros usr. eapply ok_bind; [apply ok_read_metadata|]. intros md.
  apply ok_ret. intros s Hmd [Hu Hvu] [Hm Hvm] [_ Hd]. split; cbn; try done.
  - destruct md; [apply Hmd|done].
  - split_and!; [done..|]. cbn. destruct md; [apply Hmd|done].
Qed.

Lemma ok_active_generation :
  reads_ok read_active_generation (fun g s => holds_file s [ACTIVE_MARKER] (g ++ [10])).
Proof.
  eapply ok_bind; [apply ok_err, ok_open|]. intros i. apply ok_file. intros m.
  destruct (_ || _); [apply ok_fail|].
  eapply ok_bind; [apply ok_read|]. intros bs. eapply ok_bind; [apply ok_read_one|]. intros t.
  destruct (negb _); [apply ok_fail|].
  eapply (ok_bind _ _ (fun a _ => a = bs)); [apply ok_lift; [unfold ok_or; by case_match|]|].
  { intros a s. unfold ok_or. destruct (Text.from_utf8 bs) as [b|] eqn:Hb; [|done]. intros [= <-].
    by apply Text.from_utf8_Some in Hb as [_ ->]. }
  intros a. eapply (ok_bind _ _ (fun g _ => a = g ++ [10])); [apply ok_lift; [unfold ok_or; by case_match|]|].
  { intros g s. unfold ok_or, strip_suffix. destruct (_ && _) eqn:Hs; [|done]. intros [= <-].
    apply andb_true_iff in Hs as [_ Hs%bool_decide_eq_true]. rewrite <- (take_drop (length a - length [10]) a) at 1.
    by rewrite Hs. }
  intros g. destruct (negb _); [apply ok_fail|]. apply ok_ret. intros s -> -> _ Hbs Hm Hp. by apply Hbs.
Qed.

Lemma ok_active :
  reads_ok read_active (fun o s => match o with Some g => holds_file s [ACTIVE_MARKER] (g ++ [10]) | None => True end).
Proof.
  intros P HP w Hp Hh Hs. destruct (ok_active_generation P HP w Hp Hh Hs) as (x & w' & Hx & ? & ? & ? & ? & Hphi).
  unfold read_active. rewrite Hx. destruct x as [g|e|]; [|destruct e|done]; eexists _, _; (split; [reflexivity|]);
    split_and!; try done; intros o [= <-]; by auto.
Qed.

(** ** Reservations *)

Lemma strip_prefix_Some (p n t : bytes) : strip_prefix p n = Some t <-> n = p ++ t.
Proof.
  unfold strip_prefix. case_bool_decide as Hp; split; intros Ht; simplify_eq.
  - rewrite <- Hp at 1. by rewrite take_drop.
  - by rewrite drop_app_length.
  - by rewrite take_app_length in Hp.
Qed.

Lemma insert_sorted_perm x l : insert_sorted x l ≡ₚ x :: l.
Proof. induction l as [|y l IH]; [done|]. cbn. destruct (bytes_le x y); [done|]. rewrite IH. apply perm_swap. Qed.

Lemma sort_bytes_perm l : sort_bytes l ≡ₚ l.
Proof. induction l as [|x l IH]; [done|]. cbn. by rewrite insert_sorted_perm, IH. Qed.

(** Some entry of the directory reserves [tk]. *)
Definition reserved (s : FS) (tk : bytes) : Prop := exists i, resolve s [RECOVERY ++ tk] = Ok i.

Lemma tokens_cons n names :
  omap (strip_prefix RECOVERY) (n :: names) =
  match strip_prefix RECOVERY n with
  | Some t => t :: omap (strip_prefix RECOVERY) names
  | None => omap (strip_prefix RECOVERY) names
  end.
Proof. done. Qed.

Lemma ok_collect names :
  reads_ok (collect_tokens names)
    (fun ts _ => ts = omap (strip_prefix RECOVERY) names /\ Forall (fun t => is_token t = true) ts).
Proof.
  induction names as [|n names IH]; cbn [collect_tokens]; [by apply ok_ret|].
  eapply (ok_bind _ _ (fun a _ => a = n)); [apply ok_err; by apply ok_sys; [|intros s a [= <-]]|]. intros a.
  eapply (ok_bind _ _ (fun b _ => b = a)).
  { apply ok_lift; [unfold ok_or; by case_match|]. intros b s. unfold ok_or.
    destruct (Text.from_utf8 a) as [c|] eqn:Hc; [|done]. intros [= <-]. by apply Text.from_utf8_Some in Hc as [_ ->]. }
  intros b. destruct (strip_prefix RECOVERY b) as [t|] eqn:Ht.
  - destruct (is_token t) eqn:Htk; cbn [negb]; [|apply ok_fail].
    eapply ok_bind; [apply ok_any; unfold or_unavailable; reading|]. intros m.
    eapply ok_bind; [apply ok_any, reads_validate_file|]. intros [].
    destruct (negb _); [apply ok_fail|]. eapply ok_bind; [exact IH|]. intros ts. apply ok_ret.
    intros s [-> Hts] _ _ -> ->. rewrite tokens_cons, Ht. split; [done|]. by constructor.
  - eapply ok_weaken; [exact IH|]. cbv beta. intros ts s [-> Hts] -> ->. by rewrite tokens_cons, Ht.
Qed.

Lemma ok_tokens :
  reads_ok recovery_tokens
    (fun ts s => Forall (fun t => is_token t = true) ts /\ forall tk, tk ∈ ts <-> reserved s tk).
Proof.
  eapply (ok_bind _ _ (fun names s => forall n, n ∈ names <-> exists i, resolve s [n] = Ok i)).
  - apply ok_err, ok_sys.
    + intros s. pose proof (resolve_np s []). destruct (resolve s []); try done. by repeat case_match.
    + intros s names. unfold resolve. destruct (root s) as [r|]; cbn [walk]; [|done].
      destruct (nodes s !! r) as [[|dm vs ms|]|]; try done. intros [= <-] n. rewrite list_elem_of_fmap. split.
      * intros ([n' i] & -> & Hi%elem_of_map_to_list). cbn. rewrite Hi. by exists i.
      * intros (i & Hi). destruct (current vs !! n) as [j|] eqn:Hj; [|done]. exists (n, j). split; [done|].
        by apply elem_of_map_to_list.
  - intros names. eapply ok_bind; [apply ok_collect|]. intros ts. apply ok_ret.
    intros s [-> Hts] Hn. split; [by rewrite sort_bytes_perm|]. intros tk. rewrite sort_bytes_perm, list_elem_of_omap.
    unfold reserved. rewrite <- Hn. split.
    + intros (n & Hin & ->%strip_prefix_Some). done.
    + intros Hin. exists (RECOVERY ++ tk). split; [done|]. by apply strip_prefix_Some.
Qed.

Lemma ok_quarantine {A} bad (m : store_io A) phi :
  reads_ok m phi -> reads_ok (quarantine bad m) (fun o s => match o with Some a => phi a s | None => True end).
Proof.
  intros Hm P HP w Hp Hh Hs. destruct (Hm P HP w Hp Hh Hs) as (x & w' & Hx & ? & ? & ? & ? & Hphi).
  unfold quarantine. rewrite Hx. destruct x as [a|e|]; [|destruct (bad e)|done]; eexists _, _; (split; [reflexivity|]);
    split_and!; try done; intros o [= <-]; by auto.
Qed.

Lemma ok_present p : reads_ok (present p) (fun _ _ => True).
Proof.
  intros P HP w Hp Hh Hs. unfold present.
  destruct (reads_symlink_metadata u H p P HP w Hp Hh Hs) as (x & w' & -> & ? & ? & ? & ? & _).
  destruct x; [..|done]; eexists _, _; (split; [reflexivity|done]).
Qed.

Lemma effective_uid_err w e : fst (effective_uid w) = Err e -> e = StorageUnavailable.
Proof.
  unfold effective_uid, bind, or_unavailable, mapM_err. destruct (sys _ w) as [[b|e'|] w']; cbn; try congruence.
  unfold status_uid, ok_or. repeat case_match; cbn; intros; simplify_eq; done.
Qed.

(** The directory is reported missing only if it is. *)
Lemma existing_missing :
  reads u H open_existing_directory (fun x s => match x with
    | Ok d => resolve s [] = Ok d | Err MissingPair => resolve s [] = Err NotFound | _ => True end).
Proof.
  unfold open_existing_directory, open_or. eapply reads_seq.
  - apply reads_map_err. apply (reads_sys u H) with (R := fun x s => match x with
      | Ok i => resolve s [] = Ok i | Err NotFound => resolve s [] = Err NotFound | _ => True end); [|done].
    intros s. pose proof (resolve_np s []). destruct (resolve s []) as [i|[]|]; try done. split; by repeat case_match.
  - intros d. eapply (reads_seq u H _ _ (fun x _ => match x with Err MissingPair => False | _ => True end)).
    + eapply reads_weaken; [apply reads_map_err, reads_metadata|]. intros x s (y & _ & ->). by destruct y.
    + intros m. eapply (reads_seq u H _ _ (fun x _ => match x with Err MissingPair => False | _ => True end)).
      * unfold validate_directory_metadata. case_match; [intros P HP; by apply run_lift|].
        eapply (reads_seq u H _ _ (fun x _ => match x with Err MissingPair => False | _ => True end)).
        -- intros P HP w Hp Hh Hs. destruct (reads_uid u H P HP w Hp Hh Hs) as (x & w' & Hx & ? & ? & ? & ? & _).
           exists x, w'. split_and!; try done. destruct x as [|e|]; try done.
           by rewrite (effective_uid_err w e) by (by rewrite Hx).
        -- intros e. case_match; intros P HP; [by apply run_lift|by apply run_ret].
        -- by intros [].
      * intros []. apply reads_ret_eq. intros s _ _ (y & Hy & Hd). by destruct y; simplify_eq/=.
      * by intros [].
    + by intros [].
  - intros e s (y & Hy & He). destruct y as [|[]|]; by simplify_eq/=.
Qed.
End Exact.

(** ** Selecting the reserved generation *)

Section Select.
Context (u : Z) (r : ino) (allowed : option CatacombPair -> Prop).
Context (F : gmap ino node) (K : gmap name (list (option ino))) (tk : bytes).
Context (mo : option ino) (old : option CatacombPair) (q : CatacombPair).

Abbreviation gn := (PAIR ++ tk).
Abbreviation tmp := (ACTIVE ++ tk ++ TMP).
Abbreviation rc := (RECOVERY ++ tk).
Abbreviation H := (stop_safe u allowed).

Context (Hmo : K !! ACTIVE_MARKER = Some [mo]) (Hold : describes u F K mo old).
Context (Hallowed : allowed old) (Hnew : allowed (Some q)).
Context (Htmp : K !! tmp = None) (Hrc : K !! rc = None).
(** The reserved generation is complete and every version of the directory has it. *)
Context (d : ino) (dm : Meta) (gv : gmap name ino).
Context (Hgn : K !! gn = Some [Some d]) (Hd : F !! d = Some (NDir dm [gv] [])) (Hdm : private_dir u dm).
Context (Hcon : contents u F gv (members q)) (Hvalid : valid_pair q) (Hmark : marker_text gn).

Lemma select_safe : safe u allowed F K.
Proof. exists [mo]. split; [done|]. intros mo' ->%list_elem_of_singleton. by exists old. Qed.

(** A marker that names it selects it. *)
Lemma marker_describes F' K' i m :
  F ⊆ F' -> F' !! i = Some (NFile m (gn ++ [10]) true) -> private_file u m -> K' !! gn = Some [Some d] ->
  describes u F' K' (Some i) (Some q).
Proof.
  intros HF Hi Hm HK. exists gn, m, d, dm, gv. split_and!; try done; [by eapply lookup_weaken|].
  by eapply contents_mono.
Qed.

(** The marker that names it already. *)
Lemma marker_current N s :
  known r u F ∅ K N s -> holds_file u s [ACTIVE_MARKER] (gn ++ [10]) -> safe u (fun o => o = Some q) F K.
Proof.
  intros Hk (i & m & cl & Hi & Hf & _).
  destruct (kn_dir _ _ _ _ _ _ _ Hk) as (v & vs & rm & ms & Hr & _ & Hv & _).
  unfold resolve in Hi. rewrite (kn_root _ _ _ _ _ _ _ Hk) in Hi. cbn [walk] in Hi. rewrite Hr in Hi. cbn [current] in Hi.
  destruct (v !! ACTIVE_MARKER) as [j|] eqn:Hj; [|done]. injection Hi as ->.
  assert (mo = Some i) as ->.
  { inversion Hv as [|? ? Hw _]; subst. specialize (Hw _ _ Hmo). rewrite Hj in Hw.
    by apply list_elem_of_singleton in Hw. }
  exists [Some i]. split; [done|]. intros mo' ->%list_elem_of_singleton. exists (Some q). split; [done|].
  destruct old as [p|]; [|done]. destruct Hold as (g & m' & d' & dm' & v' & H1 & H2 & H3 & H4 & H5 & H6 & H7 & H8).
  pose proof (lookup_weaken _ _ _ _ H1 (kn_F _ _ _ _ _ _ _ Hk)) as H1'. rewrite Hf in H1'.
  injection H1' as -> Hg ->. rewrite <- Hg in H1. by eapply marker_describes.
Qed.

(** What a finished selection leaves. *)
Definition selected (s : FS) : Prop :=
  exists F' K' W' N', safe u (fun o => o = Some q) F' K' /\ K' !! rc = None /\ known r u F' W' K' N' s.

Lemma safe_selected F' K' : safe u (fun o => o = Some q) F' K' -> safe u allowed F' K'.
Proof.
  intros (mos & ? & Hs). exists mos. split; [done|]. intros mo' Hin. destruct (Hs mo' Hin) as (o & -> & ?). by exists (Some q).
Qed.

Lemma replace_run W N i m :
  private_file u m -> N !! tmp = Some (Some i) -> W !! i = Some (NFile m (gn ++ [10]) true) ->
  run u H (known r u F W K N)
    (do! _ := replace_marker tmp in mapM_err (fun _ => PromotionDurabilityUnknown) (sync_all r))
    (post (fun _ => selected) (fun _ => True)).
Proof.
  intros Hm HN HW. destruct (names_ne tk) as (_ & Nrg & _ & _ & Ntg & _ & _ & Nag & Nar & Nat).
  eapply run_weaken with (P' := fun s => F ##ₘ W /\ known r u F W K N s);
    [|intros s Hk; split; [by apply Hk|done]|intros x s Hx; exact Hx].
  apply run_pure. intros Hdis.
  assert (F ⊆ F ∪ W) as HF1 by apply map_union_subseteq_l.
  assert ((F ∪ W) !! i = Some (NFile m (gn ++ [10]) true)) as Hi.
  { eapply lookup_weaken; [exact HW|]. by apply map_union_subseteq_r. }
  set (K' := <[ACTIVE_MARKER := [Some i; mo]]> K). set (K2 := <[ACTIVE_MARKER := [Some i]]> K).
  assert (safe u allowed (F ∪ W) K') as HS'.
  { exists [Some i; mo]. split; [apply lookup_insert_eq|].
    intros mo' [->|[->|[]%elem_of_nil]%elem_of_cons]%elem_of_cons.
    - exists (Some q). split; [done|]. eapply marker_describes; [done..|]. unfold K'. by rewrite lookup_insert_ne.
    - exists old. split; [done|]. eapply describes_mono; [done| |exact Hold]. intros g x Hg Hne. unfold K'.
      by rewrite lookup_insert_ne. }
  assert (safe u (fun o => o = Some q) (F ∪ W) K2) as HS2.
  { exists [Some i]. split; [apply lookup_insert_eq|]. intros mo' ->%list_elem_of_singleton. exists (Some q).
    split; [done|]. eapply marker_describes; [done..|]. unfold K2. by rewrite lookup_insert_ne. }
  eapply run_seq with (R := fun _ => known r u (F ∪ W) ∅ K' (<[ACTIVE_MARKER := Some i]> (<[tmp := None]> N)))
    (B1 := fun _ => True); [| |done].
  - intros w Hp Hh Hs. unfold replace_marker.
    destruct (run_replace_marker u r allowed F tk W K N i [mo]) with (w := w) as (x & w' & Hx & Hp' & Hh' & HQ); try done.
    { apply allows_safe, select_safe. } { by apply allows_safe. }
    rewrite Hx. destruct x as [[]|e|]; cbn in HQ; [by eexists _, _| |done].
    destruct (run_remove_file u H r F K (allows_safe _ _ _ _ _ select_safe) W N tmp Htmp w' Hp' Hh' HQ)
      as (y & w2 & -> & ? & ? & _). by eexists _, _.
  - intros []. eapply run_post; [apply run_err; apply (run_sync_root u H r (F ∪ W) K') with (K' := K2)| |done].
    + by apply allows_safe.
    + intros s Hk. eapply allows_safe; [by apply safe_selected|exact Hk].
    + intros n xs [[<- <-]|[Hn Hx]]%lookup_insert_Some.
      * left. exists (Some i). split; [apply lookup_insert_eq|set_solver].
      * right. exists xs. split; [|done]. unfold K'. by rewrite lookup_insert_ne.
    + intros [] s Hk. eexists _, _, _, _. split_and!; [exact HS2| |exact Hk]. unfold K2. by rewrite lookup_insert_ne.
Qed.

Lemma select_run N :
  run u H (known r u F ∅ K N) (select_generation r tk) (post (fun _ => selected) (fun _ => True)).
Proof.
  pose proof (allows_safe u r allowed _ _ select_safe) as HA. unfold select_generation.
  eapply run_seq; [eapply run_reads; [apply ok_active|apply HA]| |done]. intros active.
  case_bool_decide as Hact.
  - apply run_ret. intros s [Hk Hm]. specialize (Hm _ eq_refl). subst active. cbn in Hm.
    exists F, K, ∅, N. split_and!; [by eapply marker_current|done|done].
  - eapply run_seq; [eapply run_weaken; [apply (run_remove_file u H r F K HA ∅ N tmp Htmp)|by intros s [Hs _]|
      intros x s Hx; exact Hx]| |done].
    intros []. apply run_changed. intros W' N' _ _.
    eapply run_seq; [apply (run_marker u H r F K HA W' N' tmp gn Htmp)| |done].
    intros []. run_intro. eapply replace_run; [done|apply lookup_insert_eq|apply lookup_insert_eq].
Qed.

Lemma finish_run :
  run u H selected (do! _ := remove_private_file [rc] in or_unavailable (sync_all r))
    (post (fun _ => stop_safe u (fun o => o = Some q)) (fun _ => True)).
Proof.
  intros w Hp Hh (F' & K' & W' & N' & HS & Hr & Hk). revert w Hp Hh Hk.
  assert (run u H (known r u F' W' K' N') (do! _ := remove_private_file [rc] in or_unavailable (sync_all r))
    (post (fun _ => stop_safe u (fun o => o = Some q)) (fun _ => True))) as Hrun; [|exact Hrun].
  assert (allows u H r F' K') as HA by (by apply allows_safe, safe_selected).
  eapply run_seq; [apply (run_remove_file u H r F' K' HA W' N' rc Hr)| |done].
  intros []. apply run_changed. intros W2 N2 _ _.
  eapply run_post; [apply run_err; apply (run_sync_root u H r F' K' HA W2 N2 K'); [apply HA|]| |done].
  - intros n xs Hx. right. by exists xs.
  - intros [] s Hk. by eapply safe_stop.
Qed.
End Select.

(** ** The states a stop leaves *)

(** Every node is as the disk has it. *)
Definition clean_node (n : node) : Prop :=
  match n with
  | NFile _ _ clean => clean = true
  | NDir _ vs ms => (exists v, vs = [v]) /\ ms = []
  | NSymlink => True
  end.

(** The files at the next start: a store that selects [old], with anything else in it.
    The tokens of its reservations fit a marker, as those of [artifact_token] do. *)
Record rested (u : Z) (old : option CatacombPair) (s : FS) : Prop := mkRested {
  rs_settled : settled u old s;
  rs_clean : forall i n, nodes s !! i = Some n -> clean_node n;
  rs_tokens : forall tk, reserved s tk -> (length tk <= 122)%nat
}.

Lemma rested_contents u s r rm v g q :
  root s = Some r -> nodes s !! r = Some (NDir rm [v] []) -> (forall i n, nodes s !! i = Some n -> clean_node n) ->
  holds_pair u s g q -> exists d dm gv, v !! g = Some d /\ nodes s !! d = Some (NDir dm [gv] []) /\
  private_dir u dm /\ contents u (nodes s) gv (members q).
Proof.
  intros Hr Hn Hclean [Hd Hm Hu Hmd Hv]. destruct Hd as (d & dm & vs & ms & Hd & Hdn & Hdm).
  assert (forall n, resolve s [n] = match v !! n with Some i => Ok i | None => Err NotFound end) as Hres.
  { intros n. unfold resolve. rewrite Hr. cbn [walk]. rewrite Hn. cbn [current]. by destruct (v !! n). }
  rewrite Hres in Hd. destruct (v !! g) as [d'|] eqn:Hg; [|done]. injection Hd as ->.
  destruct (Hclean _ _ Hdn) as [[gv ->] ->]. exists d, dm, gv. split_and!; try done.
  assert (forall n, resolve s [g; n] = match gv !! n with Some i => Ok i | None => Err NotFound end) as Hres2.
  { intros n. unfold resolve. rewrite Hr. cbn [walk]. rewrite Hn. cbn [current]. rewrite Hg, Hdn. cbn [current].
    by destruct (gv !! n). }
  assert (forall n bs, holds_file u s [g; n] bs -> exists i, gv !! n = Some i /\
    exists m, private_file u m /\ nodes s !! i = Some (NFile m bs true)) as Hfile.
  { intros n bs (i & m & cl & Hi & Hf & Hp). rewrite Hres2 in Hi. destruct (gv !! n) as [j|]; [|done].
    injection Hi as ->. exists i. split; [done|]. exists m. split; [done|]. by rewrite <- (Hclean _ _ Hf). }
  destruct (members_lookup q) as (Lm & Lu & Ld). intros n Hin. apply list_elem_of_In in Hin.
  destruct Hin as [<-|[<-|[<-|[]]]].
  - destruct (Hfile _ _ Hm) as (i & -> & Hf). by rewrite Lm.
  - destruct (Hfile _ _ Hu) as (i & -> & Hf). by rewrite Lu.
  - rewrite Ld. destruct (pair_metadata q) as [md|].
    + by destruct (Hfile _ _ Hmd) as (i & -> & Hf).
    + rewrite Hres2 in Hmd. by destruct (gv !! IDENTITY_METADATA_FILE).
Qed.

(** A token is ASCII, so a marker can hold it. *)
Lemma split_dash_hex s : Forall (fun f => forallb is_ascii_hexdigit f = true) (split_dash s) ->
  Forall (fun b => 0 <= b <= 127) s.
Proof.
  induction s as [|b s IH]; [done|]. cbn [split_dash]. destruct (b =? 45) eqn:Hb.
  - intros Hf. inversion Hf; subst. constructor; [lia|by apply IH].
  - destruct (split_dash s) as [|f fs]; intros [Hx Hfs]%Forall_cons; cbn in Hx;
      apply andb_true_iff in Hx as [Hx Hf]; (constructor; [unfold is_ascii_hexdigit, Text.in_range in Hx; lia|]); apply IH; by constructor.
Qed.

Lemma token_text tk : is_token tk = true -> (length tk <= 122)%nat -> marker_text (PAIR ++ tk).
Proof.
  intros Ht Hl. split_and!.
  - unfold is_generation_name. by rewrite (proj2 (strip_prefix_Some PAIR (PAIR ++ tk) tk) eq_refl).
  - unfold is_token in Ht. rewrite !andb_true_iff in Ht. destruct Ht as [[Hf Hd] _].
    apply Text.ascii_valid. rewrite !Forall_app. split_and!; [apply (bool_decide_unpack _); vm_compute; exact I| |
      apply (bool_decide_unpack _); vm_compute; exact I].
    apply split_dash_hex. rewrite <- (take_drop 3 (split_dash tk)). destruct (drop 3 (split_dash tk)); [|done].
    rewrite app_nil_r. apply Forall_forall. intros f Hin%list_elem_of_In. rewrite forallb_forall in Hf.
    specialize (Hf f Hin). by destruct f.
  - rewrite length_app. change (length PAIR) with 5%nat. lia.
Qed.

Section Recover.
Context (u : Z) (old : option CatacombPair) (s0 : FS) (Hrest : rested u old s0).
Context {V E : Type} (validator : CatacombPair -> M V E bool) (v0 : V).

(** The only reservation is that of a complete generation, which the validator accepts. *)
Definition accepted (q : CatacombPair) : Prop :=
  exists tk, (forall tk', reserved s0 tk' <-> tk' = tk) /\ holds_pair u s0 (PAIR ++ tk) q /\
  fst (validator q v0) = Ok true.

Definition old_or_accepted (o : option CatacombPair) : Prop := o = old \/ exists q, o = Some q /\ accepted q.

Abbreviation H := (stop_safe u old_or_accepted).

(** What the outcomes mean. *)
Definition outcome (x : res (CatacombRecoveryError E) RecoveryOutcome.t) (s : FS) : Prop :=
  match x with
  | Ok RecoveryOutcome.Promoted => exists q, accepted q /\ stop_safe u (fun o => o = Some q) s
  | Ok RecoveryOutcome.Clean => s = s0 /\ forall tk, ~ reserved s0 tk
  | Ok RecoveryOutcome.Quarantined | Err (Validator _) => s = s0
  | Err (Store _) => True
  | Panic => exists q, fst (validator q v0) = Panic
  end.

Definition ends (r : res (CatacombRecoveryError E) RecoveryOutcome.t * (world * V)) : Prop :=
  exists x w v, r = (x, (w, v)) /\ Forall H (history w) /\ outcome x (fs w).

Lemma rested_safe : H s0.
Proof.
  destruct (settled_opened u old s0 (rs_settled _ _ _ Hrest)) as (r & rm & v & mo & K & _ & _ & _ & Hk & Hmo & Hd & HK).
  eapply (safe_stop u r old_or_accepted (delete r (nodes s0)) ∅ K ∅).
  - exists [mo]. split; [done|]. intros mo' ->%list_elem_of_singleton. exists old. split; [by left|done].
  - apply Hk; [intros n xs Hx; by apply HK|done].
Qed.

(** Reads leave the files alone. *)
Lemma rested_reads {A} (m : store_io A) phi :
  reads_ok u H m phi -> run u H (fun s => s = s0) m (post (fun a s => phi a s0 /\ s = s0) (fun s => s = s0)).
Proof.
  intros Hm. eapply run_post; [eapply run_reads; [exact Hm|]| |done].
  - intros s ->. apply rested_safe.
  - intros a s [-> Ha]. auto.
Qed.

Lemma store_step {A} (m : store_io A) (k : A -> M (world * V) (CatacombRecoveryError E) RecoveryOutcome.t) P Q w v :
  run u H P m (post Q (fun _ => True)) -> process u w -> Forall H (history w) -> P (fs w) ->
  (forall a w', process u w' -> Forall H (history w') -> Q a (fs w') -> ends (k a (w', v))) ->
  ends (bind (from_store m) k (w, v)).
Proof.
  intros Hm Hp Hh HP Hk. destruct (Hm w Hp Hh HP) as (x & w' & Hx & Hp' & Hh' & HQ).
  unfold bind, from_store. rewrite Hx. destruct x as [a|e|]; cbn; [by apply Hk|by exists (Err (Store e)), w', v|done].
Qed.

Lemma read_step {A} (m : store_io A) (k : A -> M (world * V) (CatacombRecoveryError E) RecoveryOutcome.t) phi w v :
  reads_ok u H m phi -> process u w -> Forall H (history w) -> fs w = s0 ->
  (forall a w', process u w' -> Forall H (history w') -> fs w' = s0 -> phi a s0 -> ends (k a (w', v))) ->
  ends (bind (from_store m) k (w, v)).
Proof.
  intros Hm Hp Hh Hs Hk. eapply store_step; [eapply run_post; [by apply rested_reads|intros a s Ha; exact Ha|done]|done..|].
  intros a w' Hp' Hh' [Ha Hs']. by apply Hk.
Qed.

Lemma quarantined w v : Forall H (history w) -> fs w = s0 -> ends (ret RecoveryOutcome.Quarantined (w, v)).
Proof. intros Hh Hs. by exists (Ok RecoveryOutcome.Quarantined), w, v. Qed.

(** The knowledge with which the reserved generation is selected. *)
Lemma rested_known r tk q :
  resolve s0 [] = Ok r -> is_token tk = true -> reserved s0 tk -> holds_pair u s0 (PAIR ++ tk) q ->
  exists F K mo d dm gv, known r u F ∅ K ∅ s0 /\ K !! ACTIVE_MARKER = Some [mo] /\ describes u F K mo old /\
  K !! (ACTIVE ++ tk ++ TMP) = None /\ K !! (RECOVERY ++ tk) = None /\ K !! (PAIR ++ tk) = Some [Some d] /\
  F !! d = Some (NDir dm [gv] []) /\ private_dir u dm /\ contents u F gv (members q) /\ valid_pair q /\
  marker_text (PAIR ++ tk).
Proof.
  intros Hr Ht Hres Hq.
  destruct (settled_opened u old s0 (rs_settled _ _ _ Hrest)) as (r' & rm & v & mo & K & Hr' & Hn & Hself & Hk & Hmo & Hd & HK).
  unfold resolve in Hr. rewrite Hr' in Hr. cbn [walk] in Hr. injection Hr as ->.
  destruct (rested_contents u s0 r rm v (PAIR ++ tk) q Hr' Hn (rs_clean _ _ _ Hrest) Hq)
    as (d & dm & gv & Hg & Hdn & Hdm & Hcon).
  destruct (names_ne tk) as (_ & N1 & _ & _ & N2 & _ & _ & N3 & N4 & N5).
  set (K' := <[PAIR ++ tk := [Some d]]> K).
  assert (forall n, n <> ACTIVE_MARKER -> n <> PAIR ++ tk -> is_generation_name n = false -> K' !! n = None) as Hnone.
  { intros n H1 H2 H3. unfold K'. rewrite lookup_insert_ne by done. destruct (K !! n) as [xs|] eqn:Hx; [|done].
    destruct (HK n xs Hx) as [_ [->|(? & _)]]; [done|congruence]. }
  assert (d <> r) as Hdr by (intros ->; by apply (Hself (PAIR ++ tk))).
  exists (delete r (nodes s0)), K', mo, d, dm, gv. split_and!; try done.
  - apply Hk; [|done]. intros n xs [[<- <-]|[_ Hx]]%lookup_insert_Some; [rewrite Hg; set_solver|by apply HK].
  - unfold K'. by rewrite lookup_insert_ne.
  - eapply describes_mono; [done| |exact Hd]. intros g x Hx Hne. unfold K'.
    destruct (decide (g = PAIR ++ tk)) as [->|]; [|by rewrite lookup_insert_ne]. rewrite lookup_insert_eq.
    destruct (HK _ _ Hx) as [_ [?|(_ & Hxs & _)]]; [done|]. congruence.
  - apply Hnone; [done..|]. by apply not_true_is_false; intros Hx%generation_prefix.
  - apply Hnone; [done..|]. by apply not_true_is_false; intros Hx%generation_prefix.
  - unfold K'. apply lookup_insert_eq.
  - by rewrite lookup_delete_ne.
  - eapply contents_delete; [done|]. intros i m bs Hi ->. congruence.
  - apply Hq.
  - apply token_text; [done|]. by apply (rs_tokens _ _ _ Hrest).
Qed.

Lemma token_ends r tk w :
  resolve s0 [] = Ok r -> is_token tk = true -> (forall tk', reserved s0 tk' <-> tk' = tk) ->
  process u w -> Forall H (history w) -> fs w = s0 -> ends (recover_token validator r tk (w, v0)).
Proof.
  intros Hr Ht Hres Hp Hh Hs. unfold recover_token.
  eapply read_step; [apply ok_present|done..|]. intros stage_exists w1 Hp1 Hh1 Hs1 _.
  eapply read_step; [apply ok_present|done..|]. intros generation_exists w2 Hp2 Hh2 Hs2 _.
  destruct (stage_exists || negb generation_exists); [by apply quarantined|].
  eapply read_step; [apply ok_quarantine, ok_pair|done..|]. intros [q|] w3 Hp3 Hh3 Hs3 Hq; [|by apply quarantined].
  unfold bind at 1, from_validator at 1. destruct (validator q v0) as [[[]|e|] v1] eqn:Hv; cbn [map_err negb].
  2: by apply quarantined.
  2: by exists (Err (Validator e)), w3, v1.
  2: { exists Panic, w3, v1. split_and!; [done..|]. exists q. by rewrite Hv. }
  assert (accepted q) as Hacc by (exists tk; rewrite Hv; by split_and!).
  assert (reserved s0 tk) as Hrt by (by apply Hres).
  destruct (rested_known r tk q Hr Ht Hrt Hq) as (F & K & mo & d & dm & gv & Hk & Hmo & Hold & Ktm & Krc & Kgn & Hd & Hdm & Hc & Hvp & Hmt).
  assert (old_or_accepted (Some q)) as Hal by (right; by exists q).
  eapply store_step; [eapply (select_run u r old_or_accepted F K tk mo old q); try done; by left|done..|by rewrite Hs3|].
  intros [] w4 Hp4 Hh4 Hsel.
  destruct (finish_run u r old_or_accepted tk q Hal w4 Hp4 Hh4 Hsel) as (x & w5 & Hx & _ & Hh5 & HQ).
  unfold bind in Hx. unfold bind, from_store, ret. 
  destruct (remove_private_file [RECOVERY ++ tk] w4) as [[[]|e|] w6];
    [|injection Hx as <- <-; by exists (Err (Store e)), w6, v1|by injection Hx as <- <-].
  cbn. rewrite Hx. destruct x as [[]|e|]; cbn; [|by exists (Err (Store e)), w5, v1|done].
  exists (Ok RecoveryOutcome.Promoted), w5, v1. split_and!; [done..|]. by exists q.
Qed.
End Recover.

(** C14. Recovery is safe. From any files a stop can leave, with any calls failing at any
    point, every state of the files that [recover_with_validator] passes through is such
    that after a stop [load] answers with the generation selected before, or with one
    that is complete, is the only one reserved and was accepted by the validator as it is
    stored. [Promoted] means that such a generation is selected durably, [Clean] that
    nothing is reserved; in the other outcomes but failed calls nothing was changed. *)
Theorem recovery_selects_validated {V E} u old (validator : CatacombPair -> M V E bool) w v :
  process u w -> history w = [] -> rested u old (fs w) ->
  exists x w' v', recover_with_validator validator (w, v) = (x, (w', v')) /\
  Forall (stop_safe u (old_or_accepted u old (fs w) validator v)) (history w') /\
  outcome u (fs w) validator v x (fs w').
Proof.
  intros Hp Hh Hrest. set (H := stop_safe u (old_or_accepted u old (fs w) validator v)).
  change (ends u old (fs w) validator v (recover_with_validator validator (w, v))).
  assert (Forall H (history w)) as Hh0 by (by rewrite Hh).
  destruct (settled_opened u old (fs w) (rs_settled _ _ _ Hrest)) as (r & rm & e & mo & K & Hr & Hn & _).
  assert (resolve (fs w) [] = Ok r) as Hroot by (unfold resolve; by rewrite Hr).
  assert (H (fs w)) as Hsafe0 by (by apply rested_safe).
  destruct (existing_missing u H (fun s => s = fs w)) with (w := w) as (x & w1 & Hx & Hp1 & Hh1 & Hs1 & Hnp & HR);
    [by intros s ->|done..|].
  unfold recover_with_validator. rewrite Hx. rewrite Hs1 in HR.
  destruct x as [d|e'|]; [|destruct e'; try (by eexists _, _, _); by rewrite Hroot in HR|done].
  rewrite Hroot in HR. injection HR as <-.
  eapply (store_step u old (fs w) validator v _ _ (fun s => s = fs w) (fun _ s => s = fs w)); [|done..|].
  { apply run_err. apply run_sys.
    - intros s ->. rewrite Hn. cbn [current fst snd].
      assert (set_node (fs w) r (NDir rm [e] []) = fs w) as ->; [|done].
      unfold set_node. rewrite insert_id by done. by destruct (fs w).
    - by intros s ->. }
  intros [] w2 Hp2 Hh2 Hs2.
  eapply read_step; [done|apply ok_quarantine, ok_tokens|done..|].
  intros [ts|] w3 Hp3 Hh3 Hs3 Hts; [|by apply quarantined]. destruct Hts as [Htok Hts].
  destruct ts as [|tk [|tk2 ts]]; [| |by apply quarantined].
  - exists (Ok RecoveryOutcome.Clean), w3, v. split_and!; [done..|]. split; [done|]. intros tk Htk%Hts. set_solver.
  - eapply token_ends; [done|done|by inversion Htok| |done..]. intros tk'. rewrite <- Hts. set_solver.
Qed.

(** The store of [example_fs] with a complete reserved generation beside the selected one. *)
Definition example_token : bytes := [49; 45; 50; 45; 51].
Definition example_entries : gmap name ino :=
  {[ACTIVE_MARKER := 2%positive; example_name := 3%positive;
    PAIR ++ example_token := 6%positive; RECOVERY ++ example_token := 9%positive]}.
Definition pending_fs : FS :=
  mkFS {[1%positive := example_dir example_entries;
         2%positive := example_file (example_name ++ [10]); 3%positive := example_dir example_members;
         4%positive := example_file [1]; 5%positive := example_file [2];
         6%positive := example_dir {[MASTER_FILE := 7%positive; USER_FILE := 8%positive]};
         7%positive := example_file [3]; 8%positive := example_file [4]; 9%positive := example_file []]}
    (Some 1%positive) true 10%positive.
Definition pending_world : world := mkWorld pending_fs [] [] 0 18 (Some example_status) 4096 [1000000] 7.
Definition pending_pair : CatacombPair := mkPair [3] [4] None.

(** A validator that counts its calls and takes this pair only. *)
Definition example_validator (q : CatacombPair) : M nat Z bool := fun n =>
  (Ok (bool_decide (master q = [3]) && bool_decide (user q = [4])), S n).

Lemma pending_rested : rested 0 (Some example_pair) pending_fs.
Proof.
  split.
  - exists 1%positive, (mkMeta PRIVATE_DIRECTORY 0 2), example_entries. split_and!; try done.
    + intros n. unfold example_entries. rewrite !lookup_insert_Some, lookup_singleton_Some.
      intros [[_ [=]]|[_ [[_ [=]]|[_ [[_ [=]]|[_ [_ [=]]]]]]]].
    + intros i Hi. cbn [pending_fs next] in Hi. cbn [pending_fs nodes]. rewrite !lookup_insert_ne by lia. apply lookup_singleton_ne. lia.
    + exists 2%positive, (mkMeta PRIVATE_FILE 0 1), example_name, 3%positive, (mkMeta PRIVATE_DIRECTORY 0 2), example_members.
      split_and!; try done.
      * split_and!; [vm_compute; done|vm_compute; done|cbn; lia].
      * intros n Hn. apply list_elem_of_In in Hn.
        destruct Hn as [<-|[<-|[<-|[]]]]; [exists (mkMeta PRIVATE_FILE 0 1); split; [done|reflexivity]..|done].
  - intros i n Hn. unfold pending_fs in Hn. cbn [nodes] in Hn. revert i n Hn.
    change (map_Forall (fun _ => clean_node) (nodes pending_fs)). unfold pending_fs. cbn [nodes].
    repeat apply map_Forall_insert_2; try apply map_Forall_singleton; first [done|split; [by eexists|done]].
  - intros tk (i & Hi). unfold resolve in Hi. cbn [pending_fs root] in Hi.
    change (match example_entries !! (RECOVERY ++ tk) with Some i => Ok i | None => Err NotFound end = Ok i) in Hi.
    destruct (example_entries !! (RECOVERY ++ tk)) as [j|] eqn:Hj; [|done].
    unfold example_entries in Hj. rewrite !lookup_insert_Some, lookup_singleton_Some in Hj.
    destruct Hj as [[Hj _]|[_ [[Hj _]|[_ [[Hj _]|[_ [Hj _]]]]]]]; [done..|].
    apply (inj (app RECOVERY)) in Hj. subst tk. cbn. lia.
Qed.

(** With no faults the reserved generation is selected; the validator was asked once. *)
Lemma recovery_selects_validated_witness :
  exists w', recover_with_validator example_validator (pending_world, 0%nat) = (Ok RecoveryOutcome.Promoted, (w', 1%nat)) /\
  exists q, accepted 0 pending_fs example_validator 0%nat q /\ stop_safe 0 (fun o => o = Some q) (fs w').
Proof.
  assert (fst (recover_with_validator example_validator (pending_world, 0%nat)) = Ok RecoveryOutcome.Promoted /\
          snd (snd (recover_with_validator example_validator (pending_world, 0%nat))) = 1%nat) as [Hok Hn]
    by (vm_compute; done).
  destruct (recovery_selects_validated 0 (Some example_pair) example_validator pending_world 0%nat)
    as (x & w' & v' & Hx & _ & Hout); [|done|apply pending_rested|].
  { split; [done|]. exists example_status. split; [done|]. vm_compute. reflexivity. }
  rewrite Hx in Hok, Hn. cbn in Hok, Hn. subst x v'. exists w'. split; [exact Hx|exact Hout].
Defined.
End CatacombRecovery.
