(* ===== verification/CatacombRestore.v ===== *)
(** * Restoring a pair

    [t1-daemons/src/catacomb_restore.rs]: the master template is loaded and checked before
    the user's, and a reserved generation is accepted only when the sensor takes it. The
    functions that use the store work on the files and the transport; [secret::wipe] clears
    local buffers and is left out. *)

From S2P Require Import Prelude Effects Policy Biometric Mesa Commands Control MatchWorkflow FileSystem CatacombStore CatacombSession.

Import FileSystem CatacombStore.

Module CatacombRestore.
Import Policy Biometric Commands Mesa.

Definition MASTER_USER_ID : Z := -1.
Definition MASTER_STATE_USER_ID : Z := umax 32.
Definition MASTER_LOADED : Z := 1.
Definition USER_SECURELY_LOADED : Z := 3.
Definition CATACOMB_CORRUPTED : Z := 0x80.

Record RestoredCatacomb : Type := mkRestored { identities : list Identity; already_loaded : bool }.

Module CatacombRestoreStage.
Inductive t : Type :=
| LiveIdentities | SelectMaster | RefreshBeforeRestore | LoadMaster | ValidateMaster
| LoadUser | ValidateUser | RestoredIdentities | LockState.
End CatacombRestoreStage.

Inductive CatacombRestoreError (E : Type) : Type :=
| Transport (stage : CatacombRestoreStage.t) (error : E)
| StoreE (error : CatacombStoreError)
| CalibrationE (error : Control.ControlError E)
| CommandE (error : CommandError)
| ResponseE (error : ResponseError)
| CatacombE (error : Catacomb.CatacombError)
| MesaE (error : MesaError)
| LiveIdentityForAnotherUser
| MasterNotLoaded (state : option Z)
| UserNotSecurelyLoaded (state : option Z)
| NoEnrolledFingerprints
| RestoredIdentityForAnotherUser
| CorruptedCatacomb.
Arguments Transport {E} stage error.
Arguments StoreE {E} error.
Arguments CalibrationE {E} error.
Arguments CommandE {E} error.
Arguments ResponseE {E} error.
Arguments CatacombE {E} error.
Arguments MesaE {E} error.
Arguments LiveIdentityForAnotherUser {E}.
Arguments MasterNotLoaded {E} state.
Arguments UserNotSecurelyLoaded {E} state.
Arguments NoEnrolledFingerprints {E}.
Arguments RestoredIdentityForAnotherUser {E}.
Arguments CorruptedCatacomb {E}.

(** ** Commands *)

Section Commands.
Context {T E : Type} `{BiometricTransport T E}.

(** The module's own [execute]. *)
Definition restore_execute (packet : CommandPacket) (stage : CatacombRestoreStage.t)
    : M T (CatacombRestoreError E) bytes := mapM_err (Transport stage) (execute packet).

Definition execute_empty (packet : CommandPacket) (stage : CatacombRestoreStage.t)
    : M T (CatacombRestoreError E) () :=
  do! response := restore_execute packet stage in
  lift (map_err CommandE (validate_empty_response response)).

Definition read_catacomb_states (stage : CatacombRestoreStage.t)
    : M T (CatacombRestoreError E) (list Catacomb.CatacombStateEntry) :=
  do! daemon_response := restore_execute daemon_info_command stage in
  do! daemon := lift (map_err ResponseE (parse_daemon_info daemon_response)) in
  do! p := lift (map_err CommandE (catacomb_states_command (component_count daemon))) in
  do! response := restore_execute p stage in
  lift (map_err CatacombE (Catacomb.parse_catacomb_states response (component_count daemon))).

(** The closure of [read_identities]. *)
Definition parsed_identities (response : bytes) : res (CatacombRestoreError E) (list Identity) :=
  let! _ := map_err CommandE (validate_identity_list_response response) in
  map_err MesaE (MatchWorkflow.collect parse_identity (chunks IDENTITY_V1_SIZE response)).

Definition read_identities (user_id : BiometricUserId) (stage : CatacombRestoreStage.t)
    : M T (CatacombRestoreError E) (list Identity) :=
  do! response := restore_execute (identities_command user_id) stage in
  lift (parsed_identities response).

(** [i32::try_from(user_id)], and every identity is the user's. *)
Definition ensure_identity_user (ids : list Identity) (user_id : BiometricUserId) : bool :=
  (user_id <=? 2 ^ 31 - 1) && negb (existsb (fun i => negb (id_user_id i =? user_id)) ids).

Definition state_for (states : list Catacomb.CatacombStateEntry) (user_id : Z) : option Z :=
  Catacomb.cse_state <$> List.find (fun entry => Catacomb.cse_user_id entry =? user_id) (rev states).

(** [is_none_or] of the tests of a state. *)
Definition master_loaded (state : option Z) : bool :=
  match state with Some s => negb (Z.land s MASTER_LOADED =? 0) | None => false end.
Definition user_loaded (state : option Z) : bool :=
  match state with Some s => Z.land s USER_SECURELY_LOADED =? USER_SECURELY_LOADED | None => false end.

(** The live short circuit of [restore_pair]. *)
Definition live_identities (user_id : BiometricUserId) (allow_live_short_circuit : bool)
    : M T (CatacombRestoreError E) (option RestoredCatacomb) :=
  if allow_live_short_circuit then
    do! existing := read_identities user_id CatacombRestoreStage.LiveIdentities in
    match existing with
    | [] => ret None
    | _ => if negb (ensure_identity_user existing user_id) then lift (Err LiveIdentityForAnotherUser)
           else ret (Some (mkRestored existing true))
    end
  else ret None.

(** The rest of [restore_pair]. *)
Definition load_pair (found : CatacombPair) (user_id : BiometricUserId) (allow_empty_identities : bool)
    : M T (CatacombRestoreError E) RestoredCatacomb :=
  do! select := lift (map_err CommandE (set_active_user_command MASTER_USER_ID)) in
  do! _ := execute_empty select CatacombRestoreStage.SelectMaster in
  do! _ := read_catacomb_states CatacombRestoreStage.RefreshBeforeRestore in
  do! load_master := lift (map_err CommandE (load_secure_catacomb_command (master found))) in
  do! _ := execute_empty load_master CatacombRestoreStage.LoadMaster in
  do! master_states := read_catacomb_states CatacombRestoreStage.ValidateMaster in
  let master_state := state_for master_states MASTER_STATE_USER_ID in
  if negb (master_loaded master_state) then lift (Err (MasterNotLoaded master_state)) else
  do! load_user := lift (map_err CommandE (load_secure_catacomb_command (user found))) in
  do! _ := execute_empty load_user CatacombRestoreStage.LoadUser in
  do! user_states := read_catacomb_states CatacombRestoreStage.ValidateUser in
  let user_state := state_for user_states user_id in
  if negb (user_loaded user_state) then lift (Err (UserNotSecurelyLoaded user_state)) else
  do! ids := read_identities user_id CatacombRestoreStage.RestoredIdentities in
  if match ids with [] => negb allow_empty_identities | _ => false end
  then lift (Err NoEnrolledFingerprints) else
  if negb (ensure_identity_user ids user_id) then lift (Err RestoredIdentityForAnotherUser) else
  do! lock_response := restore_execute (sks_lock_state_command user_id) CatacombRestoreStage.LockState in
  do! lock := lift (map_err CommandE (parse_sks_lock_state lock_response)) in
  if negb (Z.land lock CATACOMB_CORRUPTED =? 0) then lift (Err CorruptedCatacomb) else
  ret (mkRestored ids false).

Definition restore_pair (found : CatacombPair) (user_id : BiometricUserId)
    (allow_live_short_circuit allow_empty_identities : bool)
    : M T (CatacombRestoreError E) RestoredCatacomb :=
  do! live := live_identities user_id allow_live_short_circuit in
  match live with
  | Some restored => ret restored
  | None => load_pair found user_id allow_empty_identities
  end.

(** The errors that reject a candidate. *)
Definition rejects (e : CatacombRestoreError E) : bool :=
  match e with
  | MasterNotLoaded _ | UserNotSecurelyLoaded _ | NoEnrolledFingerprints
  | RestoredIdentityForAnotherUser | CorruptedCatacomb => true
  | _ => false
  end.

Definition validate_recovery_candidate (user_id : BiometricUserId) (fdr_record : bytes)
    (found : CatacombPair) : M T (CatacombRestoreError E) bool :=
  do! _ := mapM_err CalibrationE (Control.ensure_fdr_calibration_loaded fdr_record) in
  fun t =>
    match restore_pair found user_id false false t with
    | (Ok _, t) => (Ok true, t)
    | (Err e, t) => if rejects e then (Ok false, t) else (Err e, t)
    | (Panic, t) => (Panic, t)
    end.

End Commands.

(** ** With the store *)

(** A transport beside the files of the store. *)
Class HasFiles (X : Type) : Type := { files_of : X -> world; set_files : world -> X -> X }.
#[global] Instance pair_files T : HasFiles (world * T) :=
  {| files_of := fst; set_files w x := (w, snd x) |}.
#[global] Instance session_files T E : HasFiles (session T E) :=
  {| files_of := files; set_files w s := mkSession (transport s) w (sent s) |}.

#[global] Instance pair_transport {T E} `{BiometricTransport T E} : BiometricTransport (world * T) E :=
  fun p '(w, t) => let (r, t) := execute p t in (r, (w, t)).

Section Store.
Context {X E : Type} `{BiometricTransport X E} `{HasFiles X}.

Definition on_store_of {A} (m : store_io A) : M X CatacombStoreError A := fun x =>
  let (r, w) := m (files_of x) in (r, set_files w x).

Definition restore_catacomb_pair (user_id : BiometricUserId)
    : M X (CatacombRestoreError E) RestoredCatacomb :=
  do! found := mapM_err StoreE (on_store_of load) in
  restore_pair found user_id true false.

Definition restore_catacomb_pair_for_enrollment (user_id : BiometricUserId)
    : M X (CatacombRestoreError E) RestoredCatacomb :=
  do! found := mapM_err StoreE (on_store_of load) in
  restore_pair found user_id true true.
End Store.

(** The validator has the transport, the store its files. *)
Definition recover_ambiguous_pair {T E} `{BiometricTransport T E} (user_id : BiometricUserId) (fdr_record : bytes)
    : M (world * T) (CatacombRecoveryError (CatacombRestoreError E)) RecoveryOutcome.t :=
  recover_with_validator (validate_recovery_candidate user_id fdr_record).

(** ** What a restore sends *)

Section Log.
Context {T E : Type} `{BiometricTransport T E}.
Context (found : CatacombPair) (uid : BiometricUserId).

(** The commands of a restore, for the component counts the daemon reports. *)
Definition restore_commands (n1 n2 n3 : Z) : list (res CommandError CommandPacket) :=
  [set_active_user_command MASTER_USER_ID; Ok daemon_info_command; catacomb_states_command n1;
   load_secure_catacomb_command (master found); Ok daemon_info_command; catacomb_states_command n2;
   load_secure_catacomb_command (user found); Ok daemon_info_command; catacomb_states_command n3;
   Ok (identities_command uid); Ok (sks_lock_state_command uid)].

(** The answer to the states command at [i] of the log shows the component loaded. *)
Definition loaded_at (t : T) (pre log : list CommandPacket) (i : nat) (n component : Z)
    (test : option Z -> bool) : Prop :=
  exists p bs states, log !! i = Some p /\ response t (pre ++ take i log) p = Ok bs /\
  Catacomb.parse_catacomb_states bs n = Ok states /\ test (state_for states component) = true.

(** The commands so far are a prefix, and the user's template follows a loaded master. *)
Definition loading (t : T) (pre log : list CommandPacket) (n1 n2 n3 : Z) : Prop :=
  Ok <$> log = take (length log) (restore_commands n1 n2 n3) /\
  ((6 < length log)%nat -> loaded_at t pre log 5 n2 MASTER_STATE_USER_ID master_loaded) /\
  ((9 < length log)%nat -> loaded_at t pre log 8 n3 uid user_loaded).

(** What a restored identity list is. *)
Definition own_identities (t : T) (ps : list CommandPacket) (ids : list Identity) : Prop :=
  exists bs, response t ps (identities_command uid) = Ok bs /\ parsed_identities (E := E) bs = Ok ids /\
  Forall (fun i => id_user_id i = uid) ids.

Definition load_log (allow_empty : bool) (t : T) (pre : list CommandPacket)
    (r : res (CatacombRestoreError E) RestoredCatacomb) (qs : list CommandPacket) : Prop :=
  exists n1 n2 n3 log, qs = pre ++ log /\ loading t pre log n1 n2 n3 /\
  forall x, r = Ok x -> already_loaded x = false /\ length log = 11%nat /\
    own_identities t (pre ++ take 9 log) (identities x) /\ (identities x = [] -> allow_empty = true) /\
    exists bs lock, response t (pre ++ take 10 log) (sks_lock_state_command uid) = Ok bs /\
    parse_sks_lock_state bs = Ok lock /\ Z.land lock CATACOMB_CORRUPTED = 0.

Lemma empty_runs packet stage t ps Q :
  (forall r, is_ok r = false -> Q r (ps ++ [packet])) ->
  (response t ps packet = Ok [] -> Q (Ok ()) (ps ++ [packet])) -> runs t ps (execute_empty packet stage) Q.
Proof.
  intros HB HQ. unfold execute_empty, restore_execute. do 3 run_step.
  destruct (response t ps packet) as [bs|e|]; cbn [map_err]; [|by apply HB..]. run_step.
  destruct bs; [by apply HQ|by apply HB].
Qed.

Lemma states_runs stage t ps Q :
  (forall r, is_ok r = false -> Q r (ps ++ [daemon_info_command])) ->
  (forall r n p, is_ok r = false -> catacomb_states_command n = Ok p -> Q r (ps ++ [daemon_info_command; p])) ->
  (forall n p bs states, catacomb_states_command n = Ok p ->
     response t (ps ++ [daemon_info_command]) p = Ok bs ->
     Catacomb.parse_catacomb_states bs n = Ok states -> Q (Ok states) (ps ++ [daemon_info_command; p])) ->
  runs t ps (read_catacomb_states stage) Q.
Proof.
  intros HB1 HB2 HQ. unfold read_catacomb_states, restore_execute. do 3 run_step.
  destruct (response t ps daemon_info_command) as [ibs|e|]; cbn [map_err]; [|by apply HB1..]. do 2 run_step.
  destruct (parse_daemon_info ibs) as [info|e|]; cbn [map_err]; [|by apply HB1..]. do 2 run_step.
  destruct (catacomb_states_command (component_count info)) as [p|e|] eqn:Hp; cbn [map_err]; [|by apply HB1..].
  do 3 run_step. rewrite <- app_assoc. cbn [app].
  destruct (response t (ps ++ [daemon_info_command]) p) as [bs|e|] eqn:Hr; cbn [map_err]; [|by eapply HB2..]. run_step.
  destruct (Catacomb.parse_catacomb_states bs (component_count info)) as [states|e|] eqn:Hs; cbn [map_err];
    [by eapply HQ|by eapply HB2..].
Qed.

Lemma ensure_own ids : ensure_identity_user ids uid = true -> Forall (fun i => id_user_id i = uid) ids.
Proof.
  intros [_ Hx]%andb_true_iff. apply negb_true_iff, existsb_false in Hx. eapply Forall_impl; [exact Hx|].
  cbn. intros i Hn. by apply negb_false_iff, Z.eqb_eq in Hn.
Qed.

Lemma load_fail allow_empty t pre r log n1 n2 n3 :
  is_ok r = false -> loading t pre log n1 n2 n3 -> load_log allow_empty t pre r (pre ++ log).
Proof. intros Hr Hl. exists n1, n2, n3, log. split_and!; try done. intros x ->. done. Qed.

(** The equations in the context give the packets of a prefix. *)
Ltac prefix_log := first [done|cbn [length]; lia|cbn [length take fmap list_fmap restore_commands]; congruence].

(** The last two commands. *)
Definition last_commands : list (res CommandError CommandPacket) :=
  [Ok (identities_command uid); Ok (sks_lock_state_command uid)].

Lemma finish_runs allow_empty t pre log n1 n2 n3 :
  length log = 9%nat -> loading t pre log n1 n2 n3 -> loaded_at t pre log 8 n3 uid user_loaded ->
  runs t (pre ++ log)
    (do! ids := read_identities uid CatacombRestoreStage.RestoredIdentities in
     if match ids with [] => negb allow_empty | _ => false end
     then lift (Err NoEnrolledFingerprints) else
     if negb (ensure_identity_user ids uid) then lift (Err RestoredIdentityForAnotherUser) else
     do! lock_response := restore_execute (sks_lock_state_command uid) CatacombRestoreStage.LockState in
     do! lock := lift (map_err CommandE (parse_sks_lock_state lock_response)) in
     if negb (Z.land lock CATACOMB_CORRUPTED =? 0) then lift (Err CorruptedCatacomb) else
     ret (mkRestored ids false))
    (load_log allow_empty t pre).
Proof.
  intros Hl (Hp & Hm & _) Hu.
  assert (forall tail, (length tail <= 2)%nat ->
    Ok <$> tail = take (length tail) last_commands ->
    loading t pre (log ++ tail) n1 n2 n3) as Htail.
  { intros tail Ht Heq. destruct Hm as (p & bs & st & H1 & H2 & H3 & H4); [lia|].
    destruct Hu as (p' & bs' & st' & U1 & U2 & U3 & U4). split_and!.
    - rewrite fmap_app, Hp, Heq, length_app, Hl.
      destruct tail as [|a [|b [|]]]; [done..|cbn in Ht; lia].
    - intros _. exists p, bs, st. rewrite lookup_app_l, take_app_le by lia. done.
    - intros _. exists p', bs', st'. rewrite lookup_app_l, take_app_le by lia. done. }
  assert (forall r tail, is_ok r = false -> (length tail <= 2)%nat ->
    Ok <$> tail = take (length tail) last_commands ->
    load_log allow_empty t pre r ((pre ++ log) ++ tail)) as Hfail.
  { intros r tail Hr Ht Heq. rewrite <- app_assoc. eapply load_fail; [done|]. by apply Htail. }
  assert (take 9 log = log) as Ht9 by (by rewrite take_ge by lia).
  unfold read_identities, restore_execute. do 4 run_step.
  destruct (response t (pre ++ log) (identities_command uid)) as [bs|e|] eqn:Hbs; cbn [map_err];
    [|apply Hfail; [done|cbn; lia|done]..]. run_step.
  destruct (parsed_identities bs) as [ids|e|] eqn:Hids; [|apply Hfail; [done|cbn; lia|done]..].
  destruct (match ids with [] => _ | _ => _ end) eqn:Hempty; [run_step; apply Hfail; [done|cbn; lia|done]|].
  destruct (ensure_identity_user ids uid) eqn:Hown; cbn [negb]; [|run_step; apply Hfail; [done|cbn; lia|done]].
  do 3 run_step. rewrite <- (app_assoc (pre ++ log)). cbn [app].
  destruct (response t ((pre ++ log) ++ [identities_command uid]) (sks_lock_state_command uid)) as [lbs|e|] eqn:Hlbs;
    cbn [map_err]; [|apply Hfail; [done|cbn; lia|done]..].
  do 2 run_step. destruct (parse_sks_lock_state lbs) as [lock|e|] eqn:Hlock; cbn [map_err];
    [|apply Hfail; [done|cbn; lia|done]..].
  destruct (Z.land lock CATACOMB_CORRUPTED =? 0) eqn:Hcor; cbn [negb]; run_step; [|apply Hfail; [done|cbn; lia|done]].
  exists n1, n2, n3, (log ++ [identities_command uid; sks_lock_state_command uid]).
  split; [by rewrite app_assoc|]. split; [by apply Htail|].
  intros x [= <-]. cbn [already_loaded identities]. split_and!; [done|by rewrite length_app, Hl| | |].
  - rewrite take_app_le, Ht9 by lia. exists bs. split_and!; [done..|by apply ensure_own].
  - intros ->. by apply negb_false_iff in Hempty.
  - exists lbs, lock. rewrite take_app_ge by lia. rewrite Hl. cbn [take Nat.sub]. rewrite app_assoc.
    split_and!; [done..|]. by apply Z.eqb_eq.
Qed.

(** The user's template, once the master is loaded. *)
Lemma user_runs allow_empty t pre sel p1 lm p2 n1 n2 bs2 states2 :
  set_active_user_command MASTER_USER_ID = Ok sel -> catacomb_states_command n1 = Ok p1 ->
  load_secure_catacomb_command (master found) = Ok lm -> catacomb_states_command n2 = Ok p2 ->
  let log6 := [sel; daemon_info_command; p1; lm; daemon_info_command; p2] in
  response t (pre ++ take 5 log6) p2 = Ok bs2 -> Catacomb.parse_catacomb_states bs2 n2 = Ok states2 ->
  master_loaded (state_for states2 MASTER_STATE_USER_ID) = true ->
  runs t (pre ++ log6)
    (do! load_user := lift (map_err CommandE (load_secure_catacomb_command (user found))) in
     do! _ := execute_empty load_user CatacombRestoreStage.LoadUser in
     do! user_states := read_catacomb_states CatacombRestoreStage.ValidateUser in
     let user_state := state_for user_states uid in
     if negb (user_loaded user_state) then lift (Err (UserNotSecurelyLoaded user_state)) else
     do! ids := read_identities uid CatacombRestoreStage.RestoredIdentities in
     if match ids with [] => negb allow_empty | _ => false end
     then lift (Err NoEnrolledFingerprints) else
     if negb (ensure_identity_user ids uid) then lift (Err RestoredIdentityForAnotherUser) else
     do! lock_response := restore_execute (sks_lock_state_command uid) CatacombRestoreStage.LockState in
     do! lock := lift (map_err CommandE (parse_sks_lock_state lock_response)) in
     if negb (Z.land lock CATACOMB_CORRUPTED =? 0) then lift (Err CorruptedCatacomb) else
     ret (mkRestored ids false))
    (load_log allow_empty t pre).
Proof.
  intros Hsel Hp1 Hlm Hp2 log6 Hbs Hst Hml.
  assert (forall tail, loaded_at t pre (log6 ++ tail) 5 n2 MASTER_STATE_USER_ID master_loaded) as Hm.
  { intros tail. by exists p2, bs2, states2. }
  assert (forall tail n3, (length tail <= 3)%nat ->
    Ok <$> tail = take (length tail) [load_secure_catacomb_command (user found); Ok daemon_info_command; catacomb_states_command n3] ->
    loading t pre (log6 ++ tail) n1 n2 n3) as Htail.
  { intros tail n3 Ht Heq. split_and!; [|by intros _|rewrite length_app; cbn; lia]. rewrite fmap_app, Heq, length_app.
    destruct tail as [|a [|b [|c [|]]]]; cbn [length take fmap list_fmap app restore_commands log6 Nat.add]; try congruence.
    cbn in Ht. lia. }
  assert (forall r tail n3, is_ok r = false -> (length tail <= 3)%nat ->
    Ok <$> tail = take (length tail) [load_secure_catacomb_command (user found); Ok daemon_info_command; catacomb_states_command n3] ->
    load_log allow_empty t pre r ((pre ++ log6) ++ tail)) as Hfail.
  { intros r tail n3 Hr Ht Heq. rewrite <- app_assoc. eapply load_fail; [done|]. by apply Htail. }
  do 2 run_step. destruct (load_secure_catacomb_command (user found)) as [lu|e|] eqn:Hlu; cbn [map_err];
    [|rewrite <- (app_nil_r (pre ++ log6)); apply (Hfail _ [] 0); [done|cbn; lia|done]..].
  run_step. apply empty_runs; [intros r Hr; destruct r; [done|apply (Hfail _ [lu] 0); prefix_log..]|]. intros _.
  run_step. apply states_runs; rewrite <- ?(app_assoc (pre ++ log6)); cbn [app].
  - intros r Hr. destruct r; [done|apply (Hfail _ [lu; daemon_info_command] 0); prefix_log..].
  - intros r n p Hr Hp. rewrite <- ?(app_assoc (pre ++ log6)). cbn [app].
    destruct r; [done|apply (Hfail _ [lu; daemon_info_command; p] n); prefix_log..].
  - intros n3 p3 bs3 states3 Hp3 Hbs3 Hst3. rewrite <- ?(app_assoc (pre ++ log6)) in *. cbn [app] in *.
    assert (Ok <$> [lu; daemon_info_command; p3] = take 3 [Ok lu; Ok daemon_info_command; catacomb_states_command n3]) as Heq
      by (cbn [take fmap list_fmap]; congruence).
    destruct (user_loaded (state_for states3 uid)) eqn:Hul; cbn [negb];
      [|run_step; apply (Hfail _ [lu; daemon_info_command; p3] n3); [done|cbn; lia|exact Heq]].
    rewrite <- (app_assoc pre). apply (finish_runs allow_empty t pre _ n1 n2 n3); [done|by apply Htail|].
    exists p3, bs3, states3. split_and!; try done. by rewrite <- app_assoc in Hbs3.
Qed.

Lemma load_runs allow_empty t pre : runs t pre (load_pair found uid allow_empty) (load_log allow_empty t pre).
Proof.
  assert (forall r tail n1 n2, is_ok r = false -> (length tail <= 6)%nat ->
    Ok <$> tail = take (length tail) (restore_commands n1 n2 0) -> load_log allow_empty t pre r (pre ++ tail)) as Hfail.
  { intros r tail n1 n2 Hr Ht Heq. apply (load_fail _ _ _ _ _ n1 n2 0); [done|]. split_and!; [exact Heq|lia..]. }
  unfold load_pair. do 2 run_step. destruct (set_active_user_command MASTER_USER_ID) as [sel|e|] eqn:Hsel; cbn [map_err];
    [|rewrite <- (app_nil_r pre) at 2; apply (Hfail _ [] 0 0); prefix_log..].
  run_step. apply empty_runs.
  { intros r Hr. destruct r; [done|apply (Hfail _ [sel] 0 0); prefix_log..]. }
  intros _. run_step. apply states_runs; rewrite <- ?(app_assoc pre); cbn [app].
  { intros r Hr. destruct r; [done|apply (Hfail _ [sel; daemon_info_command] 0 0); prefix_log..]. }
  { intros r n p Hr Hp. rewrite <- ?(app_assoc pre). cbn [app].
    destruct r; [done|apply (Hfail _ [sel; daemon_info_command; p] n 0); prefix_log..]. }
  intros n1 p1 bs1 states1 Hp1 _ _. rewrite <- ?(app_assoc pre). cbn [app].
  do 2 run_step. destruct (load_secure_catacomb_command (master found)) as [lm|e|] eqn:Hlm; cbn [map_err];
    [|apply (Hfail _ [sel; daemon_info_command; p1] n1 0); prefix_log..].
  run_step. apply empty_runs; rewrite <- ?(app_assoc pre); cbn [app].
  { intros r Hr. destruct r; [done|apply (Hfail _ [sel; daemon_info_command; p1; lm] n1 0); prefix_log..]. }
  intros _. run_step. apply states_runs; rewrite <- ?(app_assoc pre); cbn [app].
  { intros r Hr. destruct r; [done|apply (Hfail _ [sel; daemon_info_command; p1; lm; daemon_info_command] n1 0); prefix_log..]. }
  { intros r n p Hr Hp. rewrite <- ?(app_assoc pre). cbn [app].
    destruct r; [done|apply (Hfail _ [sel; daemon_info_command; p1; lm; daemon_info_command; p] n1 n); prefix_log..]. }
  intros n2 p2 bs2 states2 Hp2 Hbs2 Hst2. rewrite <- ?(app_assoc pre) in *. cbn [app] in *.
  destruct (master_loaded (state_for states2 MASTER_STATE_USER_ID)) eqn:Hml; cbn [negb].
  - by eapply user_runs.
  - run_step. apply (Hfail _ [sel; daemon_info_command; p1; lm; daemon_info_command; p2] n1 n2); prefix_log.
Qed.

(** What a restore sends and what it returns. *)
Definition restore_log (allow_live allow_empty : bool) (t : T) (pre : list CommandPacket)
    (r : res (CatacombRestoreError E) RestoredCatacomb) (qs : list CommandPacket) : Prop :=
  let query := identities_command uid in
  if allow_live then
    (qs = pre ++ [query] /\ forall x, r = Ok x ->
       already_loaded x = true /\ identities x <> [] /\ own_identities t pre (identities x)) \/
    (own_identities t pre [] /\ load_log allow_empty t (pre ++ [query]) r qs)
  else load_log allow_empty t pre r qs.

Lemma restore_runs allow_live allow_empty t pre :
  runs t pre (restore_pair found uid allow_live allow_empty) (restore_log allow_live allow_empty t pre).
Proof.
  unfold restore_pair, live_identities, restore_log. run_step.
  destruct allow_live; [|run_step; apply load_runs].
  unfold read_identities, restore_execute. do 4 run_step.
  destruct (response t pre (identities_command uid)) as [bs|e|] eqn:Hbs; cbn [map_err]; [|by left..].
  run_step. destruct (parsed_identities bs) as [ids|e|] eqn:Hids; [|by left..].
  destruct ids as [|i ids].
  - run_step. eapply runs_mono; [apply load_runs|]. intros r0 qs Hq. right. split; [|done]. by exists bs.
  - destruct (ensure_identity_user (i :: ids) uid) eqn:Hown; cbn [negb]; run_step; [run_step|]; left; [|done].
    split; [done|]. intros x [= <-]. split_and!; [done..|]. exists bs. split_and!; [done..|]. by apply ensure_own.
Qed.

(** C15. A restore is either the live short circuit or a full load. The short circuit, when
    it is allowed, is one identity query: it loads nothing and checks no template state and
    no lock state, and it succeeds, marked as already loaded, only if the sensor already
    lists identities and all of them are the user's. A full load, which follows such a query
    only if that listed none, sends a prefix of one fixed sequence of commands: the user's
    template follows an answer that shows the master loaded, and the identities are read
    after an answer that shows the user's template securely loaded. A full load succeeds,
    not marked as already loaded, only with the whole sequence sent, every restored identity
    the user's, at least one unless none is allowed, and a lock state that is not corrupted. *)
Theorem restore_master_first allow_live allow_empty (t : T) r t' :
  restore_pair found uid allow_live allow_empty t = (r, t') ->
  exists qs, t' = after t qs /\ restore_log allow_live allow_empty t [] r qs.
Proof. apply runs_start, restore_runs. Qed.
End Log.

(** A sensor that has no template and takes the pair. *)
Definition ex_info : bytes := [2; 0; 0; 0] ++ replicate 18 0 ++ [1].
Definition ex_states (master_state user_state : Z) : bytes :=
  [255; 255; 255; 255] ++ le_bytes 4 master_state ++ le_bytes 4 501 ++ le_bytes 4 user_state.
Definition ex_script : list (res Z bytes) :=
  [Ok []; Ok []; Ok ex_info; Ok (ex_states 0 0); Ok []; Ok ex_info; Ok (ex_states 1 0);
   Ok []; Ok ex_info; Ok (ex_states 1 3); Ok (le_bytes 4 501 ++ replicate 16 7); Ok [0; 0; 0; 0]].
Definition ex_pair : CatacombPair := mkPair [5; 6] [7; 8; 9] None.
Definition ex_restored : RestoredCatacomb := mkRestored [mkIdentity 501 (replicate 16 7)] false.

Lemma restore_master_first_witness :
  exists qs, fst (restore_pair (E := Z) ex_pair 501 true false ex_script) = Ok ex_restored /\
    restore_log (E := Z) ex_pair 501 true false ex_script [] (Ok ex_restored) qs.
Proof.
  assert (restore_pair (E := Z) ex_pair 501 true false ex_script = (Ok ex_restored, [])) as Hrun
    by (vm_compute; reflexivity).
  destruct (restore_master_first (E := Z) ex_pair 501 true false ex_script _ _ Hrun) as (qs & _ & Hlog).
  exists qs. split; [|exact Hlog]. by rewrite Hrun.
Defined.
End CatacombRestore.
