(* ===== verification/AuthOperation.v ===== *)
(** * The inner authentication operation

    [t1-daemons/src/auth_operation.rs]: calibration, the credential, the preflight of the
    durable pair, the user's policy, the restore, and only then the match. A store is a
    path, so [durable_pair] says whether one is given. The callbacks around the match are
    functions on the caller's state. [secret::wipe] clears local buffers and is left out. *)

From S2P Require Import Prelude Effects Policy Biometric Mesa Commands Control MatchWorkflow UserWorkflow PolicyWorkflow FileSystem CatacombStore CatacombSafety CatacombAtomic CatacombSession CatacombRestore.

Import FileSystem CatacombStore.

Module AuthOperation.
Import Policy Biometric Commands Mesa MatchWorkflow PolicyWorkflow CatacombRestore.

Inductive AuthenticationOperationError (TE WE EE : Type) : Type :=
| Calibration (error : Control.ControlError TE)
| MissingCredential
| Credential (error : PolicyError)
| StoreFailed (error : CatacombStoreError)
| PolicyFailed (error : PolicyWorkflowError TE WE)
| Restore (error : CatacombRestoreError TE)
| User (error : UserWorkflow.UserWorkflowError TE)
| Match (error : MatchWorkflowError TE EE).
Arguments Calibration {TE WE EE} error.
Arguments MissingCredential {TE WE EE}.
Arguments Credential {TE WE EE} error.
Arguments StoreFailed {TE WE EE} error.
Arguments PolicyFailed {TE WE EE} error.
Arguments Restore {TE WE EE} error.
Arguments User {TE WE EE} error.
Arguments Match {TE WE EE} error.

Record PreparedAuthenticationUser : Type := mkPrepared {
  prepared_identities : list Identity;
  restored_in_this_lease : bool
}.

Section Operation.
Context {X TE : Type} `{BiometricTransport X TE} `{HasFiles X}.
Context {R WE : Type} `{UserPolicyRetryRuntime R TE WE}.
Context {V EE : Type} `{MatchEventSource V EE}.
Abbreviation Error := (AuthenticationOperationError TE WE EE).

(** Code of the machine, beside the retry runtime. *)
Definition on_machine {F A} (m : M X F A) : M (X * R) F A :=
  fun '(x, rt) => let (r, x) := m x in (r, (x, rt)).

Definition require_credential (credential_set : option bytes) : res Error bytes :=
  let! credential_set := ok_or credential_set MissingCredential in
  if negb (len credential_set =? ACM_CONTEXT_EXTERNAL_FORM_SIZE)
  then Err (Credential (InvalidCredentialLength (len credential_set))) else Ok credential_set.

Definition restore_user_after_calibration (user_id : BiometricUserId) (durable_pair : bool)
    (credential_set : option bytes) : M (X * R) Error PreparedAuthenticationUser :=
  if durable_pair then
    do! credential_set := lift (require_credential credential_set) in
    do! _ := mapM_err StoreFailed (on_machine (on_store_of load)) in
    do! _ := mapM_err PolicyFailed (reassert_user_policy user_id (Some credential_set)) in
    do! restored := mapM_err Restore (on_machine (restore_catacomb_pair user_id)) in
    ret (mkPrepared (identities restored) (negb (already_loaded restored)))
  else
    do! ids := mapM_err User (on_machine (UserWorkflow.prepare_user user_id)) in
    ret (mkPrepared ids false).

Definition restore_user_for_enrollment_after_calibration (user_id : BiometricUserId)
    (durable_pair : bool) (credential_set : option bytes) : M (X * R) Error (list Identity) :=
  if durable_pair then
    do! credential_set := lift (require_credential credential_set) in
    do! _ := mapM_err StoreFailed (on_machine (on_store_of load)) in
    do! _ := mapM_err PolicyFailed (reassert_user_policy user_id (Some credential_set)) in
    do! restored := mapM_err Restore (on_machine (restore_catacomb_pair_for_enrollment user_id)) in
    ret (identities restored)
  else mapM_err User (on_machine (UserWorkflow.prepare_user user_id)).

(** [identity.user_id().to_le_bytes()] and its identifier, of each identity. *)
Definition encoded_identities (ids : list Identity) : bytes :=
  concat ((fun i => i32_bytes (id_user_id i) ++ identifier i) <$> ids).

Definition match_prepared_identities (fuel : nat) (user_id : BiometricUserId) (ids : list Identity)
    : MW (X * V) (MatchWorkflowError TE EE) IdentityMatchOutcome.t := fun '(x, events) =>
  match match_fingerprint_identified fuel x events user_id (encoded_identities ids) with
  | None => None
  | Some (r, x, events) => Some (r, (x, events))
  end.

Definition legacy_outcome (outcome : IdentityMatchOutcome.t) : MatchOutcome.t :=
  match outcome with
  | IdentityMatchOutcome.Matched _ => MatchOutcome.Matched
  | IdentityMatchOutcome.NoMatch => MatchOutcome.NoMatch
  | IdentityMatchOutcome.Cancelled => MatchOutcome.Cancelled
  | IdentityMatchOutcome.TimedOut => MatchOutcome.TimedOut
  end.

(** ** The whole operation *)

(** The machine, the retry runtime, the events and the caller's state. *)
Context {C : Type}.
Abbreviation op := (X * R * V * C)%type.

Definition on_runtime_part {F A} (m : M (X * R) F A) : MW op F A := fun '(x, rt, ev, c) =>
  let '(r, (x, rt)) := m (x, rt) in Some (r, (x, rt, ev, c)).
Definition on_event_part {F A} (m : MW (X * V) F A) : MW op F A := fun '(x, rt, ev, c) =>
  match m (x, ev) with
  | None => None
  | Some (r, (x, ev)) => Some (r, (x, rt, ev, c))
  end.
Definition on_caller {F} (f : C -> C) : MW op F () := fun '(x, rt, ev, c) =>
  Some (Ok (), (x, rt, ev, f c)).

Definition identify_user_after_calibration (fuel : nat) (user_id : BiometricUserId)
    (durable_pair : bool) (credential_set : option bytes) (before_match : C -> C)
    (after_match : IdentityMatchOutcome.t -> C -> C) : MW op Error IdentityMatchOutcome.t :=
  wait! prepared := on_runtime_part (restore_user_after_calibration user_id durable_pair credential_set) in
  wait! _ := on_caller before_match in
  wait! outcome := mapW_err Match
    (on_event_part (match_prepared_identities fuel user_id (prepared_identities prepared))) in
  wait! _ := on_caller (after_match outcome) in
  now (ret outcome).

Definition authenticate_user_after_calibration (fuel : nat) (user_id : BiometricUserId)
    (durable_pair : bool) (credential_set : option bytes) (before_match : C -> C)
    (after_match : MatchOutcome.t -> C -> C) : MW op Error MatchOutcome.t :=
  wait! outcome := identify_user_after_calibration fuel user_id durable_pair credential_set before_match
                     (fun outcome => after_match (legacy_outcome outcome)) in
  now (ret (legacy_outcome outcome)).

Definition authenticate_user (fuel : nat) (fdr_calibration : bytes) (user_id : BiometricUserId)
    (durable_pair : bool) (credential_set : option bytes) : MW op Error MatchOutcome.t :=
  wait! _ := on_runtime_part (mapM_err Calibration
    (on_machine (Control.ensure_fdr_calibration_loaded fdr_calibration))) in
  authenticate_user_after_calibration fuel user_id durable_pair credential_set (fun c => c) (fun _ c => c).
End Operation.

(** ** The identities that are matched *)

Section Encoding.
Context {TE EE : Type}.

(** What [parse_identity] returns. *)
Definition identity_wf (i : Identity) : Prop :=
  0 <= id_user_id i < 2 ^ 31 /\ length (identifier i) = 16%nat /\ identifier i <> replicate 16 0.

Lemma encoded_length i : identity_wf i -> length (i32_bytes (id_user_id i) ++ identifier i) = IDENTITY_V1_SIZE.
Proof. intros (_ & Hl & _). rewrite length_app, Hl. unfold i32_bytes. by rewrite length_le_bytes. Qed.

Lemma parse_encoded i : identity_wf i -> parse_identity (i32_bytes (id_user_id i) ++ identifier i) = Ok i.
Proof.
  intros Hi. pose proof (encoded_length i Hi) as Hlen. destruct Hi as (Hu & Hl & Hz). unfold parse_identity.
  rewrite Hlen. cbn [negb Nat.eqb IDENTITY_V1_SIZE]. unfold read_i32.
  assert (length (i32_bytes (id_user_id i)) = 4%nat) as H4 by apply length_le_bytes.
  rewrite read_le_ok by (rewrite Hlen; unfold IDENTITY_V1_SIZE; lia). rewrite drop_0, take_app_length' by done.
  assert (cast_signed 32 (le_val (i32_bytes (id_user_id i))) = id_user_id i) as ->.
  { unfold i32_bytes. rewrite le_val_bytes by (unfold is_u; pose proof (Z.mod_pos_bound (id_user_id i) (2 ^ 32)); lia).
    by rewrite cast_signed_mod by lia. }
  replace (id_user_id i <? 0) with false by lia.
  rewrite slice_app_skip by lia. rewrite H4. cbn [Nat.leb IDENTITY_V1_SIZE Nat.sub]. rewrite slice_all by done.
  rewrite bool_decide_eq_false_2 by done. by destruct i.
Qed.

Lemma collect_encoded ids : Forall identity_wf ids ->
  collect parse_identity ((fun i => i32_bytes (id_user_id i) ++ identifier i) <$> ids) = Ok ids.
Proof. induction 1 as [|i ids Hi _ IH]; [done|]. rewrite fmap_cons. cbn [collect]. by rewrite parse_encoded, IH. Qed.

Lemma encoded_chunks ids : Forall identity_wf ids ->
  length (encoded_identities ids) = (length ids * IDENTITY_V1_SIZE)%nat /\
  chunks_all IDENTITY_V1_SIZE (encoded_identities ids) = (fun i => i32_bytes (id_user_id i) ++ identifier i) <$> ids.
Proof.
  intros Hids. unfold encoded_identities.
  assert (Forall (fun c => length c = IDENTITY_V1_SIZE) ((fun i => i32_bytes (id_user_id i) ++ identifier i) <$> ids)) as Hl.
  { apply Forall_fmap. eapply Forall_impl; [exact Hids|]. apply encoded_length. }
  pose proof (length_concat_fixed _ _ Hl) as Hlen. rewrite length_fmap in Hlen. split; [done|].
  rewrite chunks_all_exact; [|done|rewrite Hlen; by rewrite Nat.Div0.mod_mul]. apply chunks_concat; [unfold IDENTITY_V1_SIZE; lia|done].
Qed.

(** What a sensor listed for the user passes the checks of the match. *)
Lemma checked_encoded uid ids :
  0 <= uid < 2 ^ 31 -> ids <> [] -> (length ids <= MAX_IDENTITIES)%nat -> Forall identity_wf ids ->
  Forall (fun i => id_user_id i = uid) ids ->
  checked_identities (TE := TE) (EE := EE) uid (encoded_identities ids) = Ok ids.
Proof.
  intros Hu Hne Hmax Hwf Hown. destruct (encoded_chunks ids Hwf) as [Hlen Hch].
  unfold checked_identities, validate_identity_list_response. rewrite Hlen, Nat.Div0.mod_mul. cbn [negb Nat.eqb].
  replace (IDENTITY_LIST_CAPACITY <? length ids * IDENTITY_V1_SIZE)%nat with false
    by (symmetry; apply Nat.ltb_ge; unfold IDENTITY_LIST_CAPACITY; by apply Nat.mul_le_mono_r).
  destruct (encoded_identities ids) as [|b bs]; [destruct ids; cbn in Hlen; done|].
  rewrite Hch, collect_encoded by done. cbn [map_err].
  rewrite (proj2 (existsb_false _ ids)); [done|]. eapply Forall_impl; [exact Hown|].
  cbn. intros i ->. unfold cast_signed. replace (uid <? _) with true by lia. by rewrite Z.eqb_refl.
Qed.

Lemma collect_parsed records ids :
  collect parse_identity records = Ok ids -> length ids = length records /\
  Forall (fun i => 0 <= id_user_id i /\ length (identifier i) = 16%nat /\ identifier i <> replicate 16 0) ids.
Proof.
  revert ids. induction records as [|d records IH]; cbn [collect]; intros ids Hc; [by simplify_eq|].
  destruct (parse_identity d) as [i| |] eqn:Hi; [|done..].
  destruct (collect parse_identity records) as [is_| |]; [|done..]. injection Hc as <-.
  destruct (IH _ eq_refl) as [Hl Hf]. cbn. split; [by rewrite Hl|]. constructor; [|done].
  unfold parse_identity in Hi. destruct (negb _) eqn:Hlen; [done|].
  destruct (read_i32 d 0) as [v| |]; [|done..]. destruct (v <? 0) eqn:Hv; [done|].
  destruct (slice d 4 IDENTITY_V1_SIZE) as [x| |] eqn:Hx; [|done..]. case_bool_decide as Hz; [done|]. injection Hi as <-.
  apply slice_length in Hx. cbn. split_and!; [lia|done|done].
Qed.

(** The identities of a response are well formed and not too many. *)
Lemma parsed_wf uid bs ids :
  parsed_identities (E := TE) bs = Ok ids -> Forall (fun i => id_user_id i = uid) ids -> uid < 2 ^ 31 ->
  Forall identity_wf ids /\ (length ids <= MAX_IDENTITIES)%nat.
Proof.
  unfold parsed_identities, validate_identity_list_response. intros Hp Hown Hu.
  destruct (negb (length bs mod IDENTITY_V1_SIZE =? 0)%nat) eqn:Hm; [done|].
  destruct (IDENTITY_LIST_CAPACITY <? length bs)%nat eqn:Hc; [done|]. cbn [map_err] in Hp.
  destruct (collect parse_identity _) as [x| |] eqn:Hx; [|done..]. cbn in Hp. injection Hp as ->.
  apply collect_parsed in Hx as [Hl Hf]. split.
  - eapply Forall_impl; [apply Forall_and; exact (conj Hf Hown)|]. cbn. intros i ((H0 & H16 & Hz) & Hi).
    split_and!; [done|lia|done|done].
  - rewrite Hl. unfold chunks. rewrite length_chunks_k. apply Nat.ltb_ge in Hc. unfold IDENTITY_LIST_CAPACITY in Hc.
    apply Nat.Div0.div_le_upper_bound. lia.
Qed.
End Encoding.

(** ** How far an operation comes *)

Section Guard.
Context {X TE : Type} `{BiometricTransport X TE} `{HasFiles X}.
Context {R WE : Type} `{UserPolicyRetryRuntime R TE WE}.
Context {V EE : Type} `{MatchEventSource V EE}.
Context {C : Type}.
Abbreviation Error := (AuthenticationOperationError TE WE EE).

(** The policy is read and written again as it is requested. *)
Definition reassert_log (user_id : Z) (credential_set : option bytes) (t : X) (rt : R)
    (r : res (PolicyWorkflowError TE WE) UserProtectedConfiguration)
    (qs : list CommandPacket) (es : list Duration) : Prop :=
  match user_id_new user_id with
  | Ok user =>
      let read := user_configuration_command user in
      (qs = [read] /\ es = [] /\ is_ok r = false) \/
      exists bs before qs', response t [] read = Ok bs /\ parse_user_configuration bs = Ok before /\
        qs = read :: qs' /\ apply_log user (requested_values before) credential_set (after t [read]) rt r qs' es
  | _ => qs = [] /\ es = [] /\ is_ok r = false
  end.

Lemma reassert_runs user_id credential_set (t : X) (rt : R) r t' rt' :
  reassert_user_policy user_id credential_set (t, rt) = (r, (t', rt')) ->
  exists qs es, t' = after t qs /\ rt' = waited rt es /\ reassert_log user_id credential_set t rt r qs es.
Proof.
  apply runs2_start. unfold reassert_user_policy, validate_user, reassert_log. apply runs2_bind, runs2_lift.
  destruct (user_id_new user_id) as [user|e|]; cbn [map_err]; [|by split_and!..]. cbv zeta.
  apply runs2_bind, runs2_transport. unfold read_user, policy_execute. do 3 run_step. cbn [app].
  destruct (response t [] _) as [bs|e|] eqn:Hr; cbn [map_err]; [|by left; split_and!..].
  run_step. destruct (parse_user_configuration bs) as [before|e|] eqn:Hb; cbn [map_err]; [|by left; split_and!..].
  eapply runs2_mono; [apply runs2_shift, apply_user_policy_runs|]. cbn beta.
  intros r0 qs es (qs' & -> & Hl). right. exists bs, before, qs'. by split_and!.
Qed.

(** The state of an operation with a durable pair when it stops, and whether the match ran
    and with which identities. *)
Inductive reached (user_id : BiometricUserId) (credential_set : option bytes) (x0 : X) (rt0 : R)
    : X -> R -> option (list Identity) -> Prop :=
| AtCredential :
    reached user_id credential_set x0 rt0 x0 rt0 None
| AtPreflight w :
    reached user_id credential_set x0 rt0 (set_files w x0) rt0 None
| AtPolicy credential found w r qs es :
    credential_set = Some credential -> len credential = ACM_CONTEXT_EXTERNAL_FORM_SIZE ->
    load (files_of x0) = (Ok found, w) ->
    reassert_log user_id credential_set (set_files w x0) rt0 r qs es -> is_ok r = false ->
    reached user_id credential_set x0 rt0 (after (set_files w x0) qs) (waited rt0 es) None
| AtRestore credential found w c qs es w2 restore_qs :
    credential_set = Some credential -> len credential = ACM_CONTEXT_EXTERNAL_FORM_SIZE ->
    load (files_of x0) = (Ok found, w) ->
    reassert_log user_id credential_set (set_files w x0) rt0 (Ok c) qs es ->
    let x1 := after (set_files w x0) qs in
    (restore_qs = [] \/ exists found2 r, load (files_of x1) = (Ok found2, w2) /\ is_ok r = false /\
       restore_log found2 user_id true false (set_files w2 x1) [] r restore_qs) ->
    reached user_id credential_set x0 rt0 (after (set_files w2 x1) restore_qs) (waited rt0 es) None
| AtMatch credential found w c qs es found2 w2 restored restore_qs :
    credential_set = Some credential -> len credential = ACM_CONTEXT_EXTERNAL_FORM_SIZE ->
    load (files_of x0) = (Ok found, w) ->
    reassert_log user_id credential_set (set_files w x0) rt0 (Ok c) qs es ->
    let x1 := after (set_files w x0) qs in
    load (files_of x1) = (Ok found2, w2) ->
    restore_log found2 user_id true false (set_files w2 x1) [] (Ok restored) restore_qs ->
    reached user_id credential_set x0 rt0
      (after (after (set_files w2 x1) restore_qs) [start_match_command user_id; cancel_operation_command])
      (waited rt0 es) (Some (identities restored)).

(** A restored list is what the sensor listed for the user, and not empty. *)
Lemma restored_own found uid (t : X) restored qs :
  restore_log found uid true false t [] (Ok restored) qs ->
  identities restored <> [] /\ Forall (fun i => id_user_id i = uid) (identities restored) /\
  exists bs, parsed_identities (E := TE) bs = Ok (identities restored).
Proof.
  intros [[_ Hl]|[_ (n1 & n2 & n3 & log & _ & _ & Hl)]].
  - destruct (Hl _ eq_refl) as (_ & Hne & bs & _ & Hp & Hown). eauto.
  - destruct (Hl _ eq_refl) as (_ & _ & (bs & _ & Hp & Hown) & He & _). split_and!; [|done|by eauto].
    intros Hn. by specialize (He Hn).
Qed.

Lemma match_restored fuel uid ids (x : X) (ev : V) r x' ev' bs :
  0 <= uid < 2 ^ 31 -> ids <> [] -> Forall (fun i => id_user_id i = uid) ids ->
  parsed_identities (E := TE) bs = Ok ids ->
  match_prepared_identities fuel uid ids (x, ev) = Some (r, (x', ev')) -> no_panic r ->
  x' = after x [start_match_command uid; cancel_operation_command] /\
  forall id, r = Ok (IdentityMatchOutcome.Matched id) -> exists ev1 event i, i ∈ ids /\ identifier i = id /\
    next_event ev1 = (Ok (MatchEvent.Callback event), ev') /\ names_match event uid i.
Proof.
  intros Hu Hne Hown Hp Hm Hnp. destruct (parsed_wf uid bs ids Hp Hown ltac:(lia)) as [Hwf Hmax].
  pose proof (checked_encoded (TE := TE) (EE := EE) uid ids Hu Hne Hmax Hwf Hown) as Hchk.
  unfold match_prepared_identities in Hm.
  destruct (match_fingerprint_identified fuel x ev uid (encoded_identities ids)) as [[[r1 x1] ev1]|] eqn:Hmi; [|done].
  injection Hm as -> -> ->. split.
  - pose proof (match_cancels fuel x ev uid (encoded_identities ids) r x' ev' Hmi Hnp) as Hc. by rewrite Hchk in Hc.
  - intros id ->. apply match_identified_iff in Hmi as (ids' & Hc & _ & Hw & _). rewrite Hchk in Hc. injection Hc as <-.
    apply wait_for_outcome_iff in Hw as (n & s2 & _ & _ & Hd). apply wait_step_matched in Hd as (event & i & Hev & Hin & Hi & Hnm).
    exists s2, event, i. split_and!; try done. unfold cast_signed in Hnm.
    by replace (uid <? _) with true in Hnm by lia.
Qed.

(** The restore succeeded. *)
Definition restored_at (user_id : BiometricUserId) (credential_set : option bytes) (x0 : X) (rt0 : R)
    (x : X) (rt : R) (ids : list Identity) : Prop :=
  exists credential found w c qs es found2 w2 restored restore_qs,
  credential_set = Some credential /\ len credential = ACM_CONTEXT_EXTERNAL_FORM_SIZE /\
  load (files_of x0) = (Ok found, w) /\
  reassert_log user_id credential_set (set_files w x0) rt0 (Ok c) qs es /\
  let x1 := after (set_files w x0) qs in
  load (files_of x1) = (Ok found2, w2) /\
  restore_log found2 user_id true false (set_files w2 x1) [] (Ok restored) restore_qs /\
  x = after (set_files w2 x1) restore_qs /\ rt = waited rt0 es /\ ids = identities restored.

Lemma restore_reached user_id credential_set (x0 : X) (rt0 : R) r x rt :
  restore_user_after_calibration (EE := EE) user_id true credential_set (x0, rt0) = (r, (x, rt)) ->
  match r with
  | Ok prepared => restored_at user_id credential_set x0 rt0 x rt (prepared_identities prepared)
  | _ => reached user_id credential_set x0 rt0 x rt None
  end.
Proof.
  unfold restore_user_after_calibration, bind at 1, lift, require_credential.
  destruct credential_set as [credential|]; [|intros [= <- <- <-]; apply AtCredential]. cbn [ok_or].
  destruct (negb (len credential =? ACM_CONTEXT_EXTERNAL_FORM_SIZE)) eqn:Hlen; [intros [= <- <- <-]; apply AtCredential|].
  apply negb_false_iff, Z.eqb_eq in Hlen.
  unfold bind at 1, mapM_err at 1, on_machine at 1, on_store_of. destruct (load (files_of x0)) as [[found|e|] w] eqn:Hload;
    [|intros [= <- <- <-]; apply AtPreflight..]. cbn [map_err].
  unfold bind at 1, mapM_err at 1.
  destruct (reassert_user_policy user_id (Some credential) (set_files w x0, rt0)) as [rp [x1 rt1]] eqn:Hpol.
  apply reassert_runs in Hpol as (qs & es & -> & -> & Hpol).
  destruct rp as [c|e|]; cbn [map_err]; [|intros [= <- <- <-]; by eapply AtPolicy..].
  unfold bind at 1, mapM_err at 1, on_machine, restore_catacomb_pair, bind at 1, mapM_err at 1, on_store_of at 1.
  destruct (load (files_of (after (set_files w x0) qs))) as [[found2|e|] w2] eqn:Hload2; cbn [map_err].
  2-3: intros [= <- <- <-]; eapply (AtRestore _ _ _ _ credential found w c qs es w2 []); try done; by left.
  destruct (restore_pair found2 user_id true false (set_files w2 (after (set_files w x0) qs))) as [rr x2] eqn:Hrest.
  destruct (runs_start _ _ _ _ _ (restore_runs found2 user_id true false _ []) Hrest) as (restore_qs & -> & Hlog).
  destruct rr as [restored|e|]; cbn [map_err].
  - intros [= <- <- <-]. exists credential, found, w, c, qs, es, found2, w2, restored, restore_qs. cbn [prepared_identities].
    by split_and!.
  - intros [= <- <- <-]. eapply (AtRestore _ _ _ _ credential found w c qs es w2 restore_qs); try done. right. by exists found2, (Err e).
  - intros [= <- <- <-]. eapply (AtRestore _ _ _ _ credential found w c qs es w2 restore_qs); try done. right. by exists found2, Panic.
Qed.

(** C16. Nothing is matched before the durable pair is in place. An identification with a
    durable pair sends no command unless the credential has the right length and the pair
    can be loaded, restores the pair only after the policy was written as it was read, and
    starts a match only after the restore succeeded, on identities that the sensor lists
    for that user; the match is always cancelled. The callbacks run around the match only,
    and an identity that is reported as matched is one of those restored and was named by
    the sensor. *)
Theorem authentication_guarded fuel n user_id credential_set before_match after_match x rt ev (c : C) r x' rt' ev' c' :
  user_id_new n = Ok user_id ->
  identify_user_after_calibration fuel user_id true credential_set before_match after_match (x, rt, ev, c)
    = Some (r, (x', rt', ev', c')) -> no_panic r ->
  exists matched : option (list Identity), reached user_id credential_set x rt x' rt' matched /\
  match matched with
  | None => is_ok r = false /\ ev' = ev /\ c' = c
  | Some ids =>
      c' = match r with Ok o => after_match o (before_match c) | _ => before_match c end /\
      Forall (fun i => id_user_id i = user_id) ids /\
      forall id, r = Ok (IdentityMatchOutcome.Matched id) -> exists ev1 event i, i ∈ ids /\ identifier i = id /\
        next_event ev1 = (Ok (MatchEvent.Callback event), ev') /\ names_match event user_id i
  end.
Proof.
  intros Hid Hrun Hnp.
  assert (0 <= user_id < 2 ^ 31) as Hu.
  { unfold user_id_new, try_from_u, is_ub in Hid. destruct ((0 <=? n) && (n <? 2 ^ 32)) eqn:Hn; [|done]. cbn in Hid.
    destruct (_ <? n) eqn:Hm; [done|]. injection Hid as <-. lia. }
  unfold identify_user_after_calibration, bindW at 1, on_runtime_part in Hrun.
  destruct (restore_user_after_calibration user_id true credential_set (x, rt)) as [rp [x1 rt1]] eqn:Hres.
  apply restore_reached in Hres. destruct rp as [prepared|e|].
  2-3: injection Hrun as <- <- <- <- <-; exists None; by split_and!.
  unfold bindW at 1, on_caller at 1 in Hrun. unfold bindW at 1, mapW_err, on_event_part in Hrun.
  destruct (match_prepared_identities fuel user_id (prepared_identities prepared) (x1, ev)) as [[rm [x2 ev2]]|] eqn:Hm; [|done].
  destruct Hres as (credential & found & w & cfg & qs & es & found2 & w2 & restored & restore_qs & Hc & Hl & Hload & Hpol & Hload2 & Hlog & -> & -> & Hids).
  destruct (restored_own _ _ _ _ _ Hlog) as (Hne & Hown & bs & Hbs). rewrite Hids in Hm.
  assert (no_panic rm) as Hnm by (intros ->; apply Hnp; by injection Hrun as <-).
  destruct (match_restored fuel user_id _ _ ev rm x2 ev2 bs Hu Hne Hown Hbs Hm Hnm) as [-> Hmatched].
  exists (Some (identities restored)).
  destruct rm as [o|e|]; [|injection Hrun as <- <- <- <- <-|done]; [unfold bindW, on_caller, now, ret in Hrun; injection Hrun as <- <- <- <- <-|];
    (split; [by eapply AtMatch|]); split_and!; try done.
  intros id [= ->]. by apply Hmatched.
Qed.
End Guard.

(** ** A concrete authentication *)

#[local] Existing Instance MatchWorkflow.scripted_events.

(** The sensor has the template of the pair: the policy is read, written and read back,
    the live identity is listed, and the match is started and cancelled. *)
Definition ex_machine : world * list (res Z bytes) :=
  (CatacombAtomic.example_world [],
   [Ok (PolicyWorkflow.ex_user 1); Ok []; Ok (PolicyWorkflow.ex_user 1); Ok MatchWorkflow.ex_identities; Ok []; Ok []]).

(** The caller counts: one before the match, two after it. *)
Definition ex_run :=
  identify_user_after_calibration (WE := Z) 5 501 true (Some (replicate 16 9)) S (fun _ c => S (S c))
    (ex_machine, [], MatchWorkflow.ex_events, 0%nat).

Lemma authentication_guarded_witness :
  exists x' rt' ids, ex_run = Some (Ok (IdentityMatchOutcome.Matched MatchWorkflow.ex_identifier), (x', rt', [], 3%nat)) /\
  reached (WE := Z) 501 (Some (replicate 16 9)) ex_machine [] x' rt' (Some ids) /\
  Forall (fun i => id_user_id i = 501) ids.
Proof.
  destruct ex_run as [[r [[[x' rt'] ev'] c']]|] eqn:Hrun.
  2: { exfalso. assert (match ex_run with Some _ => true | None => false end = true) as Hx by (vm_compute; reflexivity).
       by rewrite Hrun in Hx. }
  assert (match ex_run with Some (r, (_, _, ev', c')) => (r, ev', c') | None => (Panic, [], O) end =
    (Ok (IdentityMatchOutcome.Matched MatchWorkflow.ex_identifier), [], 3%nat)) as Hx by (vm_compute; reflexivity).
  rewrite Hrun in Hx. injection Hx as -> -> ->.
  destruct (authentication_guarded 5 501 501 (Some (replicate 16 9)) S (fun _ c => S (S c)) ex_machine []
    MatchWorkflow.ex_events 0%nat _ _ _ _ _ eq_refl Hrun) as ([ids|] & Hr & Hm); [done| |].
  - exists x', rt', ids. split; [done|]. split; [exact Hr|apply Hm].
  - destruct Hm as [Hm _]. done.
Defined.
End AuthOperation.
