(* ===== verification/Enrollment.v ===== *)
(** * Durable enrollment

    [t1-daemons/src/enrollment_transaction.rs] and
    [enrollment_transaction/standard_enrollment.rs]: the preparation of an enrollment, and
    the enrollment inside it up to the check of the identities after the commit. The
    functions own the transaction, so it is dropped where they return early. Callbacks are
    functions on the caller's state; the duplicate check also has the transport and the
    events. *)

From S2P Require Import Prelude Effects Policy Biometric Mesa Commands Control MatchWorkflow EnrollWorkflow UserWorkflow PolicyWorkflow StandardProtocol IdentityCatalog FileSystem CatacombStore CatacombSession CatacombRestore AuthOperation.

Import FileSystem CatacombStore.

Module Enrollment.
Import Policy Biometric Commands Mesa PolicyWorkflow CatacombSession CatacombRestore AuthOperation.

Definition SECURELY_LOADED_STATE_BITS : Z := 3.

Inductive EnrollmentPreparationError (TE : Type) : Type :=
| Recovery (error : CatacombRecoveryError (CatacombRestoreError TE))
| RecoveryBlocked
| StorageReservation (error : CatacombStoreError)
| PreparationCalibration (error : Control.ControlError TE).
Arguments Recovery {TE} error.
Arguments RecoveryBlocked {TE}.
Arguments StorageReservation {TE} error.
Arguments PreparationCalibration {TE} error.

Inductive EnrollmentTransactionError (TE WE EE : Type) : Type :=
| User (error : UserWorkflow.UserWorkflowError TE)
| CatacombNotSecurelyLoaded
| IdentityCapacityReached
| SystemPolicy (error : PolicyWorkflowError TE Empty_set)
| UserPolicy (error : PolicyWorkflowError TE WE)
| EnrollmentFailed (error : EnrollWorkflow.EnrollmentError TE EE)
| EnrollmentTimedOut
| EnrollmentCancelled
| Persistence (error : CatacombSessionError TE)
| PostCommitIdentityVerification (error : UserWorkflow.UserWorkflowError TE)
| IdentityMissingAfterCommit.
Arguments User {TE WE EE} error.
Arguments CatacombNotSecurelyLoaded {TE WE EE}.
Arguments IdentityCapacityReached {TE WE EE}.
Arguments SystemPolicy {TE WE EE} error.
Arguments UserPolicy {TE WE EE} error.
Arguments EnrollmentFailed {TE WE EE} error.
Arguments EnrollmentTimedOut {TE WE EE}.
Arguments EnrollmentCancelled {TE WE EE}.
Arguments Persistence {TE WE EE} error.
Arguments PostCommitIdentityVerification {TE WE EE} error.
Arguments IdentityMissingAfterCommit {TE WE EE}.

Record EnrollmentTransactionSuccess : Type := mkEnrolled {
  enrolled_identity : IdentityIdentifier;
  enrolled_catacombs : CatacombBackup
}.

Definition catacomb_is_secure (states : list Catacomb.CatacombStateEntry) (user_id : BiometricUserId) : bool :=
  existsb (fun entry => (Catacomb.cse_user_id entry =? user_id) &&
    (Z.land (Catacomb.cse_state entry) SECURELY_LOADED_STATE_BITS =? SECURELY_LOADED_STATE_BITS)) states.

(** A step after which the transaction is dropped when it fails. *)
Definition or_drop {T F A} (t : Transaction) (m : M T F A) : M (world * T) F A := fun '(w, x) =>
  match m x with
  | (Ok a, x) => (Ok a, (w, x))
  | (r, x) => (r, (drop_transaction w t, x))
  end.

Definition prepare_enrollment_transaction {T TE} `{BiometricTransport T TE} (user_id : BiometricUserId)
    (fdr_record : bytes) : M (world * T) (EnrollmentPreparationError TE) Transaction :=
  do! outcome := mapM_err Recovery (recover_ambiguous_pair user_id fdr_record) in
  match outcome with
  | RecoveryOutcome.Quarantined => lift (Err RecoveryBlocked)
  | RecoveryOutcome.Clean | RecoveryOutcome.Promoted =>
      do! t := mapM_err StorageReservation (on_store_of begin_transaction) in
      do! _ := or_drop t (mapM_err PreparationCalibration (Control.ensure_fdr_calibration_loaded fdr_record)) in
      ret t
  end.

(** The secure state, or that of an empty user bound again; in both transactions. *)
Definition secure_user {T TE F} `{BiometricTransport T TE} (user_error : UserWorkflow.UserWorkflowError TE -> F)
    (not_loaded : F) (user_id : BiometricUserId) : M T F (list Identity) :=
  do! ids := mapM_err user_error (UserWorkflow.prepare_user user_id) in
  do! states := mapM_err user_error UserWorkflow.read_catacomb_states in
  do! found :=
    (if negb (catacomb_is_secure states user_id) then
       do! ids := mapM_err user_error (UserWorkflow.rebind_empty_user user_id) in
       do! states := mapM_err user_error UserWorkflow.read_catacomb_states in
       ret (ids, states)
     else ret (ids, states)) in
  if negb (catacomb_is_secure (snd found) user_id) then lift (Err not_loaded) else ret (fst found).

Section Enrollment.
Context {T TE : Type} `{BiometricTransport T TE}.
Context {R WE : Type} `{UserPolicyRetryRuntime R TE WE}.
Context {V EE : Type} `{EnrollWorkflow.EnrollmentEventSource V EE}.
Context {C : Type}.
Abbreviation op := (session T TE * R * V * C)%type.

(** The enrollment workflow, with a callback on a state beside the caller's. *)
Definition on_enrollment {P} (fuel : nat) (user_id : Z) (credential_set : option bytes)
    (callback : option (Z -> P * C -> P * C)) (p0 : P)
    : MW op (EnrollWorkflow.EnrollmentError TE EE) EnrollWorkflow.EnrollmentOutcome.t := fun '(s, rt, ev, c) =>
  match EnrollWorkflow.run_enrollment fuel s ev user_id credential_set callback (p0, c) with
  | None => None
  | Some (r, s, ev, (_, c)) => Some (r, (s, rt, ev, c))
  end.

(** [mesa_completed()]. *)
Definition on_caller_get {F A} (f : C -> A * C) : MW op F A := fun '(s, rt, ev, c) =>
  let (a, c) := f c in Some (Ok a, (s, rt, ev, c)).

(** Up to the export: the transaction is not touched. *)
Definition enroll_reserved (fuel : nat) (user_id : BiometricUserId) (credential : bytes)
    (progress : option (Z -> C -> C)) (before_start : C -> C) (mesa_completed : C -> bool * C)
    : MW op (EnrollmentTransactionError TE WE EE) IdentityIdentifier :=
  wait! ids := on_runtime_part (on_machine (secure_user User CatacombNotSecurelyLoaded user_id)) in
  if StandardProtocol.MAX_OWNER_IDENTITIES <=? len ids then now (lift (Err IdentityCapacityReached)) else
  wait! _ := on_runtime_part (mapM_err SystemPolicy
    (on_machine (enable_system_touch_id TouchIdFeatures (Some credential)))) in
  wait! _ := on_runtime_part (mapM_err UserPolicy (enable_user_touch_id user_id (Some credential))) in
  wait! _ := on_caller before_start in
  wait! outcome := mapW_err EnrollmentFailed (on_enrollment fuel user_id (Some credential)
    ((fun f v '(p, c) => (p, f v c)) <$> progress) tt) in
  match outcome with
  | EnrollWorkflow.EnrollmentOutcome.TimedOut => now (lift (Err EnrollmentTimedOut))
  | EnrollWorkflow.EnrollmentOutcome.Completed id =>
      wait! completed := on_caller_get mesa_completed in
      if negb completed then now (lift (Err EnrollmentCancelled)) else now (ret id)
  end.

(** The transaction, once nothing of it is owned: its drop. *)
Definition dropping (t : Transaction) (s : session T TE) : session T TE :=
  mkSession (transport s) (drop_transaction (files s) t) (sent s).

(** A function that owns the transaction until [commit] takes it. *)
Definition owning_until {F A B} (t : Transaction) (m : MW op F A) (commit : A -> M (session T TE) F B)
    : MW op F B := fun st =>
  match m st with
  | None => None
  | Some (Ok a, (s, rt, ev, c)) => let (r, s) := commit a s in Some (r, (s, rt, ev, c))
  | Some (Err e, (s, rt, ev, c)) => Some (Err e, (dropping t s, rt, ev, c))
  | Some (Panic, (s, rt, ev, c)) => Some (Panic, (dropping t s, rt, ev, c))
  end.

Definition run_reserved_enrollment (fuel : nat) (t : Transaction) (user_id : BiometricUserId)
    (credential : bytes) (progress : option (Z -> C -> C)) (before_start : C -> C)
    (mesa_completed : C -> bool * C)
    : MW op (EnrollmentTransactionError TE WE EE) EnrollmentTransactionSuccess :=
  owning_until t (enroll_reserved fuel user_id credential progress before_start mesa_completed) (fun id =>
    do! catacombs := mapM_err Persistence (backup_catacomb_pair_with_transaction t user_id) in
    do! committed := mapM_err PostCommitIdentityVerification (UserWorkflow.list_user_identities user_id) in
    if negb (existsb (fun candidate => bool_decide (identifier candidate = id)) committed)
    then lift (Err IdentityMissingAfterCommit)
    else ret (mkEnrolled id catacombs)).
End Enrollment.
End Enrollment.

Module StandardEnrollment.
Import Policy Biometric Commands Mesa PolicyWorkflow CatacombSession CatacombRestore AuthOperation Enrollment.

Definition RAW_PROGRESS_MIN : Z := 0x64.
Definition RAW_PROGRESS_MAX : Z := 0x163.
Definition STANDARD_PROGRESS_TOTAL : Z := 100.

Record PreparedStandardEnrollment : Type := mkPreparedStandard {
  transaction : Transaction;
  committed_metadata : option Metadata.IdentityMetadata;
  active_pair : bool
}.

Inductive StandardEnrollmentPreparationError (TE : Type) : Type :=
| PreparationRecovery (error : CatacombRecoveryError (CatacombRestoreError TE))
| PreparationBlocked
| PreparationStore (error : CatacombStoreError)
| PreparationMetadata (error : Metadata.MetadataError)
| StandardCalibration (error : Control.ControlError TE).
Arguments PreparationRecovery {TE} error.
Arguments PreparationBlocked {TE}.
Arguments PreparationStore {TE} error.
Arguments PreparationMetadata {TE} error.
Arguments StandardCalibration {TE} error.

(** [pair.metadata().map(decode_metadata).transpose()] of a loaded pair, or no pair. *)
Definition committed_pair {TE} (loaded : res CatacombStoreError CatacombPair)
    : res (StandardEnrollmentPreparationError TE) (option Metadata.IdentityMetadata * bool) :=
  match loaded with
  | Ok found =>
      match pair_metadata found with
      | None => Ok (None, true)
      | Some encoded => let! m := map_err PreparationMetadata (Metadata.decode encoded) in Ok (Some m, true)
      end
  | Err MissingPair => Ok (None, false)
  | Err e => Err (PreparationStore e)
  | Panic => Panic
  end.

Definition loaded_pair {X F} `{HasFiles X} : M X F (res CatacombStoreError CatacombPair) := fun x =>
  let (r, x) := on_store_of load x in (Ok r, x).

Definition prepare_standard_enrollment {T TE} `{BiometricTransport T TE} (user_id : BiometricUserId)
    (fdr_record : bytes) : M (world * T) (StandardEnrollmentPreparationError TE) PreparedStandardEnrollment :=
  do! outcome := mapM_err PreparationRecovery (recover_ambiguous_pair user_id fdr_record) in
  match outcome with
  | RecoveryOutcome.Quarantined => lift (Err PreparationBlocked)
  | RecoveryOutcome.Clean | RecoveryOutcome.Promoted =>
      do! loaded := loaded_pair in
      do! committed := lift (committed_pair loaded) in
      do! t := mapM_err PreparationStore (on_store_of begin_transaction) in
      do! _ := or_drop t (mapM_err StandardCalibration (Control.ensure_fdr_calibration_loaded fdr_record)) in
      ret (mkPreparedStandard t (fst committed) (snd committed))
  end.

Record StandardEnrollmentSuccess : Type := mkStandardEnrolled {
  standard_identity : StandardProtocol.IdentityId;
  standard_catacombs : CatacombBackup
}.

Inductive StandardEnrollmentError (TE WE EE : Type) : Type :=
| RestoreFailed (error : AuthenticationOperationError TE WE EE)
| StandardUser (error : UserWorkflow.UserWorkflowError TE)
| StandardNotSecurelyLoaded
| StandardCapacityReached
| CatalogE (error : Catalog.CatalogError)
| DuplicateCheck (error : MatchWorkflow.MatchWorkflowError TE EE)
| DuplicateIdentity
| InvalidIdentity
| StandardSystemPolicy (error : PolicyWorkflowError TE Empty_set)
| StandardUserPolicy (error : PolicyWorkflowError TE WE)
| StandardEnrollmentFailed (error : EnrollWorkflow.EnrollmentError TE EE)
| StandardTimedOut
| StandardCancelled
| StandardPersistence (error : CatacombSessionError TE)
| StandardVerification (error : UserWorkflow.UserWorkflowError TE)
| PostCommitIdentitySetChanged.
Arguments RestoreFailed {TE WE EE} error.
Arguments StandardUser {TE WE EE} error.
Arguments StandardNotSecurelyLoaded {TE WE EE}.
Arguments StandardCapacityReached {TE WE EE}.
Arguments CatalogE {TE WE EE} error.
Arguments DuplicateCheck {TE WE EE} error.
Arguments DuplicateIdentity {TE WE EE}.
Arguments InvalidIdentity {TE WE EE}.
Arguments StandardSystemPolicy {TE WE EE} error.
Arguments StandardUserPolicy {TE WE EE} error.
Arguments StandardEnrollmentFailed {TE WE EE} error.
Arguments StandardTimedOut {TE WE EE}.
Arguments StandardCancelled {TE WE EE}.
Arguments StandardPersistence {TE WE EE} error.
Arguments StandardVerification {TE WE EE} error.
Arguments PostCommitIdentitySetChanged {TE WE EE}.

Definition same_identity_set (expected actual : list StandardProtocol.IdentityId) : bool :=
  (len expected =? len actual) &&
  forallb (fun i => len (List.filter (fun candidate => bool_decide (candidate = i)) actual) =? 1) expected.

(** [StandardProgressNormalizer::normalize], with the last value it let through. *)
Definition normalize (last : option Z) (raw : Z) : option StandardProtocol.EnrollProgress * option Z :=
  if (raw <? RAW_PROGRESS_MIN) || (RAW_PROGRESS_MAX <? raw) then (None, last) else
  let range := RAW_PROGRESS_MAX - RAW_PROGRESS_MIN in
  let completed := (raw - RAW_PROGRESS_MIN) * STANDARD_PROGRESS_TOTAL / range in
  if umax 8 <? completed then (None, last) else
  if (completed =? 0) || bool_decide (last = Some completed) then (None, last) else
  (match StandardProtocol.progress_new completed STANDARD_PROGRESS_TOTAL with
   | Ok p => Some p
   | _ => None
   end, Some completed).

(** [report_progress], on the normalizer and the caller's state. *)
Definition report_progress {C} (progress : option (StandardProtocol.EnrollProgress -> C -> C)) (raw : Z)
    (st : option Z * C) : option Z * C :=
  let '(last, c) := st in
  let '(normalized, last) := normalize last raw in
  (last, match normalized, progress with Some p, Some f => f p c | _, _ => c end).

Section Standard.
Context {T TE : Type} `{BiometricTransport T TE}.
Context {R WE : Type} `{UserPolicyRetryRuntime R TE WE}.
Context {V EE : Type} `{EnrollWorkflow.EnrollmentEventSource V EE}.
Context {C : Type}.
Abbreviation op := (session T TE * R * V * C)%type.
Abbreviation Error := (StandardEnrollmentError TE WE EE).

Definition identity_ids (ids : list Identity) : res Error (list StandardProtocol.IdentityId) :=
  MatchWorkflow.collect (fun i => map_err (fun _ => InvalidIdentity) (StandardProtocol.identity_new (identifier i))) ids.

Definition prepare_standard_enrollment_user (user_id : BiometricUserId) (active_pair : bool) (credential : bytes)
    : M (session T TE * R) Error (list Identity) :=
  if active_pair then
    mapM_err RestoreFailed (restore_user_for_enrollment_after_calibration user_id true (Some credential))
  else on_machine (secure_user StandardUser StandardNotSecurelyLoaded user_id).

(** What the outcome of the duplicate check lets through. *)
Definition unmatched (outcome : MatchWorkflow.IdentityMatchOutcome.t) : res Error () :=
  match outcome with
  | MatchWorkflow.IdentityMatchOutcome.Matched _ => Err DuplicateIdentity
  | MatchWorkflow.IdentityMatchOutcome.NoMatch => Ok ()
  | MatchWorkflow.IdentityMatchOutcome.Cancelled => Err StandardCancelled
  | MatchWorkflow.IdentityMatchOutcome.TimedOut => Err StandardTimedOut
  end.

(** The duplicate check has the transport, the events and what it captures. *)
Definition on_check {F A} (m : MW (session T TE * V * C) F A) : MW op F A := fun '(s, rt, ev, c) =>
  match m (s, ev, c) with
  | None => None
  | Some (r, (s, ev, c)) => Some (r, (s, rt, ev, c))
  end.

(** Up to the export: the identities before, the new one, and the next manifest. *)
Definition enroll_standard (fuel : nat) (user_id : BiometricUserId) (owner : StandardProtocol.Username)
    (finger : StandardProtocol.FingerLabel.t) (committed_metadata : option Metadata.IdentityMetadata)
    (active_pair : bool) (credential : bytes) (progress : option (StandardProtocol.EnrollProgress -> C -> C))
    (duplicate_check : BiometricUserId -> list Identity ->
       MW (session T TE * V * C) (MatchWorkflow.MatchWorkflowError TE EE) MatchWorkflow.IdentityMatchOutcome.t)
    (before_start : C -> C) (mesa_completed : C -> bool * C)
    : MW op Error (list StandardProtocol.IdentityId * StandardProtocol.IdentityId * bytes) :=
  wait! ids := on_runtime_part (prepare_standard_enrollment_user user_id active_pair credential) in
  if StandardProtocol.MAX_OWNER_IDENTITIES <=? len ids then now (lift (Err StandardCapacityReached)) else
  wait! before := now (lift (identity_ids ids)) in
  wait! catalog := now (lift (map_err CatalogE (Catalog.reconcile committed_metadata owner before))) in
  wait! _ := on_runtime_part (mapM_err StandardSystemPolicy
    (on_machine (enable_system_touch_id TouchIdFeatures (Some credential)))) in
  wait! _ := on_runtime_part (mapM_err StandardUserPolicy (enable_user_touch_id user_id (Some credential))) in
  wait! _ := on_caller before_start in
  wait! _ := (if negb (len ids =? 0) then
                wait! outcome := mapW_err DuplicateCheck (on_check (duplicate_check user_id ids)) in
                now (lift (unmatched outcome))
              else now (ret ())) in
  wait! outcome := mapW_err StandardEnrollmentFailed
    (on_enrollment fuel user_id (Some credential) (Some (report_progress progress)) None) in
  match outcome with
  | EnrollWorkflow.EnrollmentOutcome.TimedOut => now (lift (Err StandardTimedOut))
  | EnrollWorkflow.EnrollmentOutcome.Completed id =>
      wait! completed := on_caller_get mesa_completed in
      if negb completed then now (lift (Err StandardCancelled)) else
      wait! new := now (lift (map_err (fun _ => InvalidIdentity) (StandardProtocol.identity_new id))) in
      let '(added, catalog) := Catalog.add_labeled catalog new finger in
      wait! _ := now (lift (map_err CatalogE added)) in
      wait! manifest := now (lift (map_err CatalogE (Catalog.encode_next_manifest catalog))) in
      now (ret (before, new, manifest))
  end.

(** The export, and the identity set after it. *)
Definition commit_standard (t : Transaction) (user_id : BiometricUserId)
    (enrolled : list StandardProtocol.IdentityId * StandardProtocol.IdentityId * bytes)
    : M (session T TE) Error StandardEnrollmentSuccess :=
  let '(before, new, manifest) := enrolled in
  let expected := before ++ [new] in
  do! catacombs := mapM_err StandardPersistence
    (backup_catacomb_pair_with_transaction_and_metadata t user_id manifest) in
  do! committed := mapM_err StandardVerification (UserWorkflow.list_user_identities user_id) in
  do! committed := lift (identity_ids committed) in
  if negb (same_identity_set expected committed) || negb (bool_decide (new ∈ committed))
  then lift (Err PostCommitIdentitySetChanged)
  else ret (mkStandardEnrolled new catacombs).

Definition run_reserved_standard_enrollment (fuel : nat) (t : Transaction) (user_id : BiometricUserId)
    (owner : StandardProtocol.Username) (finger : StandardProtocol.FingerLabel.t)
    (committed_metadata : option Metadata.IdentityMetadata) (active_pair : bool) (credential : bytes)
    (progress : option (StandardProtocol.EnrollProgress -> C -> C))
    (duplicate_check : BiometricUserId -> list Identity ->
       MW (session T TE * V * C) (MatchWorkflow.MatchWorkflowError TE EE) MatchWorkflow.IdentityMatchOutcome.t)
    (before_start : C -> C) (mesa_completed : C -> bool * C) : MW op Error StandardEnrollmentSuccess :=
  owning_until t (enroll_standard fuel user_id owner finger committed_metadata active_pair credential progress
                    duplicate_check before_start mesa_completed) (commit_standard t user_id).
End Standard.
End StandardEnrollment.
