(* ===== verification/EnrollmentSafety.v ===== *)
(** * Enrollment is durable and exact

    [Enrollment.v] over any transport: until the export an enrollment leaves the store as it
    was, the manifest that is selected in the end is the reconciled one with the new
    identity, and the live set has exactly that identity more. *)

From S2P Require Import Prelude Effects Policy Biometric Mesa Commands Control MatchWorkflow EnrollWorkflow UserWorkflow PolicyWorkflow StandardProtocol IdentityCatalog FileSystem CatacombStore CatacombSafety CatacombAtomic CatacombSession CatacombBackup IdentityRemoval CatacombRestore AuthOperation Enrollment.

Import FileSystem CatacombStore CatacombSafety CatacombAtomic CatacombSession CatacombBackup.

Module EnrollmentSafety.

(** ** Code that leaves the store as it is *)

Section Quiet.
Context (u : Z) (H : FS -> Prop).
Context {T E : Type} `{Htr : BiometricTransport T E} (tr : T).

(** The store is only read, and every command is answered by the transport. *)
Definition keeps (s s' : session T E) : Prop :=
  process u (files s) -> Forall H (history (files s)) -> H (fs (files s)) -> tracks tr s ->
  process u (files s') /\ Forall H (history (files s')) /\ fs (files s') = fs (files s) /\ tracks tr s' /\
  exists es, sent s' = sent s ++ es.

#[global] Instance keeps_preorder : PreOrder keeps.
Proof.
  split.
  - intros s Hp Hh Hf Ht. split_and!; try done. exists []. by rewrite app_nil_r.
  - intros s1 s2 s3 H12 H23 Hp Hh Hf Ht. destruct (H12 Hp Hh Hf Ht) as (Hp2 & Hh2 & Hf2 & Ht2 & es & He).
    rewrite <- Hf2 in Hf. destruct (H23 Hp2 Hh2 Hf Ht2) as (Hp3 & Hh3 & Hf3 & Ht3 & es' & He').
    split_and!; try done; [congruence|]. exists (es ++ es'). by rewrite He', He, app_assoc.
Qed.

Lemma keeps_sends {F A} (m : M (session T E) F A) s : sends tr m -> keeps s (snd (m s)).
Proof.
  intros Hm Hp Hh Hf Ht. destruct (Hm s) as (Ht' & -> & es & He & _). split_and!; try done; [auto|]. by exists es.
Qed.

Lemma keeps_after s qs : keeps s (after s qs).
Proof.
  induction qs as [|q qs IH] using rev_ind; [done|]. rewrite after_snoc. etrans; [exact IH|].
  apply keeps_sends, sends_execute.
Qed.

(** Code of the session, beside any other state. *)
Definition quiet {S F A} (part : S -> session T E) (m : MW S F A) : Prop :=
  forall x r x', m x = Some (r, x') -> keeps (part x) (part x').

Lemma quiet_bind {S F A B} part (m : MW S F A) (k : A -> MW S F B) :
  quiet part m -> (forall a, quiet part (k a)) -> quiet part (bindW m k).
Proof.
  intros Hm Hk x r x'. unfold bindW. destruct (m x) as [[[a|e|] x1]|] eqn:Hx; intros Hr; simplify_eq.
  - etrans; [by eapply Hm|by eapply Hk].
  - by eapply Hm.
  - by eapply Hm.
Qed.

Lemma quiet_lift {S F A} part (r : res F A) : quiet part (now (S := S) (lift r)).
Proof. intros x r' x' Hx. unfold now, lift in Hx. by simplify_eq. Qed.

Lemma quiet_now_bind {S F A B} part (m : M S F A) (k : A -> M S F B) :
  quiet part (now m) -> (forall a, quiet part (now (k a))) -> quiet part (now (bind m k)).
Proof.
  intros Hm Hk x r x'. unfold now, bind. specialize (Hm x). unfold now in Hm.
  destruct (m x) as [[a|e|] x1]; intros Hr; simplify_eq; [|by eapply Hm..].
  etrans; [by eapply Hm|eapply (Hk a x1); unfold now; by rewrite Hr].
Qed.

Lemma quiet_err {S F G A} part (f : F -> G) (m : MW S F A) : quiet part m -> quiet part (mapW_err f m).
Proof.
  intros Hm x r x'. unfold mapW_err. destruct (m x) as [[r1 x1]|] eqn:Hx; intros Hr; simplify_eq. by eapply Hm.
Qed.

Lemma quiet_now_err {S F G A} part (f : F -> G) (m : M S F A) :
  quiet part (now m) -> quiet part (now (mapM_err f m)).
Proof.
  intros Hm x r x'. unfold now, mapM_err. specialize (Hm x). unfold now in Hm. destruct (m x) as [r1 x1].
  intros Hr. simplify_eq. by eapply Hm.
Qed.

Lemma quiet_sends {F A} (m : M (session T E) F A) : sends tr m -> quiet (fun s => s) (now m).
Proof. intros Hm s r s' [= Hx]. pose proof (keeps_sends m s Hm) as Hk. by rewrite Hx in Hk. Qed.

Lemma quiet_runs {F A} (m : M (session T E) F A) :
  (forall s, exists Q, runs s [] m Q) -> quiet (fun s => s) (now m).
Proof.
  intros Hm s r s' [= Hx]. destruct (Hm s) as (Q & qs & Hq & _). change (after s []) with s in Hq.
  rewrite Hx in Hq. cbn in Hq. subst s'. apply keeps_after.
Qed.

Lemma quiet_store {A} (m : store_io A) : only_reads u H m -> quiet (fun s => s) (now (CatacombRestore.on_store_of m)).
Proof.
  intros Hm s r s' [= Hx] Hp Hh Hf Ht.
  destruct (Hm (fun f => f = fs (files s) /\ H f) ltac:(by intros f []) (files s) Hp Hh (conj eq_refl Hf))
    as (x & w & Hw & Hp' & Hh' & (Hfs & _) & _).
  unfold CatacombRestore.on_store_of in Hx. cbn [CatacombRestore.files_of CatacombRestore.session_files] in Hx.
  rewrite Hw in Hx. injection Hx as <- <-. cbn. split_and!; try done. exists []. by rewrite app_nil_r.
Qed.
End Quiet.

(** Commands in a row. *)
Ltac sending :=
  repeat first [apply sends_lift | apply sends_err | apply sends_execute | apply sends_bind; [|intros ?] | case_match].

(** ** The workflows of an enrollment *)

Section Workflows.
Context (u : Z) (H : FS -> Prop).
Context {T TE : Type} `{Htr : BiometricTransport T TE} (tr : T).
Context {R WE : Type} `{Hrt : PolicyWorkflow.UserPolicyRetryRuntime R TE WE}.
Context {V EE : Type} `{Hev : EnrollWorkflow.EnrollmentEventSource V EE}.
Context {C : Type}.
Abbreviation quiet_session m := (quiet u H tr (fun s : session T TE => s) (now m)).
Abbreviation quiet_machine m := (quiet u H tr (fst : session T TE * R -> session T TE) (now m)).
Definition session_of (st : session T TE * R * V * C) : session T TE := st.1.1.1.
Abbreviation quiet_op m := (quiet u H tr session_of m).

Lemma machine_session {F A} (m : M (session T TE) F A) : quiet_session m -> quiet_machine (AuthOperation.on_machine m).
Proof.
  intros Hm [s rt] r [s' rt']. unfold now, AuthOperation.on_machine. specialize (Hm s). unfold now in Hm.
  destruct (m s) as [r1 s1]. intros Hr. simplify_eq. by eapply Hm.
Qed.

Lemma machine_transport {A} (m : M (session T TE) _ A) :
  quiet_session m -> quiet_machine (PolicyWorkflow.on_transport (TE := TE) (WE := WE) m).
Proof. apply machine_session. Qed.

Lemma op_machine {F A} (m : M (session T TE * R) F A) :
  quiet_machine m -> quiet_op (AuthOperation.on_runtime_part (V := V) (C := C) m).
Proof.
  intros Hm [[[s rt] ev] c] r [[[s' rt'] ev'] c']. unfold AuthOperation.on_runtime_part.
  specialize (Hm (s, rt)). unfold now in Hm. destruct (m (s, rt)) as [r1 [s1 rt1]]. intros [= <- <- <- <- <-].
  by apply (Hm r1 (s1, rt1)).
Qed.

Lemma op_caller {F} f : quiet_op (AuthOperation.on_caller (F := F) f).
Proof. intros [[[s rt] ev] c] r [[[s' rt'] ev'] c'] Hx. unfold AuthOperation.on_caller in Hx. by simplify_eq. Qed.

Lemma op_caller_get {F A} (f : C -> A * C) :
  quiet_op (Enrollment.on_caller_get (R := R) (V := V) (T := T) (TE := TE) (F := F) f).
Proof.
  intros [[[s rt] ev] c] r [[[s' rt'] ev'] c'] Hx. unfold Enrollment.on_caller_get in Hx.
  destruct (f c). by simplify_eq.
Qed.

Lemma op_now {F A} (r : res F A) : quiet_op (now (lift r)).
Proof. apply quiet_lift. Qed.

(** *** The user *)

Lemma sends_secure {F} (f : UserWorkflow.UserWorkflowError TE -> F) e uid :
  sends (E := TE) tr (Enrollment.secure_user f e uid).
Proof.
  unfold Enrollment.secure_user, UserWorkflow.prepare_user, UserWorkflow.rebind_empty_user, UserWorkflow.prepare_user,
    UserWorkflow.select_user, UserWorkflow.refresh_catacomb_state, UserWorkflow.read_catacomb_states,
    UserWorkflow.read_identities, UserWorkflow.user_execute. sending.
Qed.

Lemma sends_system target credential : sends (E := TE) tr (PolicyWorkflow.enable_system_touch_id target credential).
Proof.
  unfold PolicyWorkflow.enable_system_touch_id, PolicyWorkflow.read_system, PolicyWorkflow.policy_execute. sending.
Qed.

Lemma sends_read_user user stage : sends (E := TE) tr (PolicyWorkflow.read_user (WE := WE) user stage).
Proof. unfold PolicyWorkflow.read_user, PolicyWorkflow.policy_execute. sending. Qed.

Lemma quiet_write_loop fuel update retry : quiet_machine (PolicyWorkflow.write_loop (WE := WE) fuel update retry).
Proof.
  revert retry. induction fuel as [|fuel IH]; intros retry; cbn [PolicyWorkflow.write_loop]; [apply quiet_lift|].
  apply quiet_now_bind.
  - intros [s rt] r [s' rt']. unfold now, PolicyWorkflow.observed.
    pose proof (keeps_sends u H tr (execute update) s (sends_execute tr update)) as Hk.
    destruct (execute update s) as [[b|e|] s1]; cbn in Hk; [|case_match|]; intros Hr; by simplify_eq.
  - intros o. case_match. case_match; try apply quiet_lift. apply quiet_now_bind; [|intros; apply IH].
    intros [s rt] r [s' rt']. unfold now, PolicyWorkflow.on_runtime. destruct (mapM_err _ _ rt). intros Hr. by simplify_eq.
Qed.

Lemma quiet_apply user requested credential :
  quiet_machine (PolicyWorkflow.apply_user_policy (WE := WE) user requested credential).
Proof.
  unfold PolicyWorkflow.apply_user_policy. apply quiet_now_bind; [apply quiet_lift|intros update].
  apply quiet_now_bind; [apply quiet_write_loop|intros b].
  apply quiet_now_bind; [apply machine_transport, quiet_sends, sends_read_user|intros after].
  apply quiet_now_bind; intros; apply quiet_lift.
Qed.

Lemma quiet_enable uid credential : quiet_machine (PolicyWorkflow.enable_user_touch_id (WE := WE) uid credential).
Proof.
  unfold PolicyWorkflow.enable_user_touch_id. apply quiet_now_bind; [apply quiet_lift|intros user].
  apply quiet_now_bind; [apply machine_transport, quiet_sends, sends_read_user|intros before].
  apply quiet_now_bind; [apply quiet_lift|]. intros [requested|]; [apply quiet_apply|apply quiet_lift].
Qed.

Lemma quiet_reassert uid credential : quiet_machine (PolicyWorkflow.reassert_user_policy (WE := WE) uid credential).
Proof.
  unfold PolicyWorkflow.reassert_user_policy. apply quiet_now_bind; [apply quiet_lift|intros user].
  apply quiet_now_bind; [apply machine_transport, quiet_sends, sends_read_user|intros before]. apply quiet_apply.
Qed.

Lemma quiet_restore_user uid durable credential :
  quiet_machine (AuthOperation.restore_user_for_enrollment_after_calibration (WE := WE) (EE := EE) uid durable credential).
Proof.
  unfold AuthOperation.restore_user_for_enrollment_after_calibration. destruct durable.
  - apply quiet_now_bind; [apply quiet_lift|intros cred].
    apply quiet_now_bind; [apply quiet_now_err, machine_session, quiet_store, reads_load|intros _].
    apply quiet_now_bind; [apply quiet_now_err, quiet_reassert|intros _].
    apply quiet_now_bind; [|intros; apply quiet_lift].
    apply quiet_now_err, machine_session. unfold CatacombRestore.restore_catacomb_pair_for_enrollment.
    apply quiet_now_bind; [apply quiet_now_err, quiet_store, reads_load|intros found].
    apply quiet_runs. intros s. eexists. apply CatacombRestore.restore_runs.
  - apply quiet_now_err, machine_session, quiet_sends. apply IdentityRemoval.sends_prepare.
Qed.

(** *** The enrollment itself *)

Lemma sends_verify user id : sends (E := TE) tr (EnrollWorkflow.verify_fresh_identity (EE := EE) user id).
Proof. unfold EnrollWorkflow.verify_fresh_identity, EnrollWorkflow.stage_execute. sending. Qed.

Lemma sends_continue : sends (E := TE) tr (EnrollWorkflow.continue_enrollment (EE := EE)).
Proof. unfold EnrollWorkflow.continue_enrollment, EnrollWorkflow.stage_execute. sending. Qed.

Lemma sends_conclude result : sends (E := TE) tr (EnrollWorkflow.conclude (EE := EE) result).
Proof.
  unfold EnrollWorkflow.conclude, EnrollWorkflow.cancel_required, EnrollWorkflow.stage_execute.
  assert (sends (E := TE) tr (EnrollWorkflow.cancel_best_effort (TE := TE) (EE := EE))) as Hc.
  { intros s. pose proof (sends_execute (E := TE) tr Commands.cancel_operation_command s) as Hs.
    unfold EnrollWorkflow.cancel_best_effort. by destruct (execute _ s) as [[| |] ?]. }
  sending; done.
Qed.

Lemma keeps_wait {P} fuel callback user (s s' : session T TE) (ev ev' : V) (p p' : P) r :
  EnrollWorkflow.wait_for_completion fuel callback user s ev p = Some (r, s', ev', p') -> keeps u H tr s s'.
Proof.
  revert s ev p. induction fuel as [|fuel IH]; intros s ev p; cbn [EnrollWorkflow.wait_for_completion]; [done|].
  destruct (EnrollWorkflow.completion_step callback user s ev p) as [[[x s1] ev1] p1] eqn:Hs.
  assert (keeps u H tr s s1) as Hk.
  { unfold EnrollWorkflow.completion_step in Hs.
    pose proof (keeps_sends u H tr _ s sends_continue) as Hcont.
    assert (forall i, keeps u H tr s (snd (EnrollWorkflow.verify_fresh_identity (EE := EE) user i s))) as Hver
      by (intros i; apply keeps_sends, sends_verify).
    repeat case_match; simplify_eq; try done;
      match goal with Hx : EnrollWorkflow.verify_fresh_identity _ ?i _ = _ |- _ => specialize (Hver i); by rewrite Hx in Hver end. }
  destruct x as [x|]; intros Hx; [by simplify_eq|]. etrans; [exact Hk|by eapply IH].
Qed.

Lemma quiet_enrollment {P} fuel uid credential callback (p0 : P) :
  quiet_op (Enrollment.on_enrollment (EE := EE) fuel uid credential callback p0).
Proof.
  intros [[[s rt] ev] c] r [[[s' rt'] ev'] c']. unfold Enrollment.on_enrollment, session_of. cbn [fst].
  destruct (EnrollWorkflow.run_enrollment fuel s ev uid credential callback (p0, c)) as [[[[x s1] ev1] [p1 c1]]|] eqn:Hr; [|done].
  intros [= <- <- <- <- <-]. unfold EnrollWorkflow.run_enrollment in Hr.
  destruct (EnrollWorkflow.enrollment_start uid credential) as [[user start]|e|]; [|by simplify_eq..].
  assert (sends (E := TE) tr (do! response := EnrollWorkflow.stage_execute (EE := EE) start EnrollWorkflow.EnrollmentStage.Start in
    lift (EnrollWorkflow.validate_response EnrollWorkflow.EnrollmentStage.Start response))) as Hst
    by (unfold EnrollWorkflow.stage_execute; sending).
  pose proof (keeps_sends u H tr _ s Hst) as Hk. destruct (bind _ _ s) as [y s2]. cbn in Hk.
  assert (forall result, keeps u H tr s2 (snd (EnrollWorkflow.conclude (EE := EE) result s2))) as Hcon
    by (intros; apply keeps_sends, sends_conclude).
  destruct y as [[]|e|]; [|specialize (Hcon (Err e)); destruct (EnrollWorkflow.conclude _ s2); simplify_eq; by etrans|by simplify_eq].
  destruct (EnrollWorkflow.wait_for_completion fuel callback user s2 ev (p0, c)) as [[[[result s3] ev3] p3]|] eqn:Hw; [|done].
  apply keeps_wait in Hw. pose proof (keeps_sends u H tr _ s3 (sends_conclude result)) as Hc.
  destruct (EnrollWorkflow.conclude result s3) as [r' s4]. simplify_eq. etrans; [exact Hk|]. by etrans.
Qed.

Lemma quiet_check {F A} (m : MW (session T TE * V * C) F A) :
  (forall s ev c r s' ev' c', m (s, ev, c) = Some (r, (s', ev', c')) -> exists qs, s' = after s qs) ->
  quiet_op (StandardEnrollment.on_check (R := R) m).
Proof.
  intros Hm [[[s rt] ev] c] r [[[s' rt'] ev'] c']. unfold StandardEnrollment.on_check.
  destruct (m (s, ev, c)) as [[r1 [[s1 ev1] c1]]|] eqn:Hx; [|done]. intros [= <- <- <- <- <-].
  apply Hm in Hx as (qs & ->). apply keeps_after.
Qed.

Lemma quiet_prepare uid active credential :
  quiet_machine (StandardEnrollment.prepare_standard_enrollment_user (WE := WE) (EE := EE) uid active credential).
Proof.
  unfold StandardEnrollment.prepare_standard_enrollment_user. destruct active.
  - apply quiet_now_err, quiet_restore_user.
  - apply machine_session, quiet_sends, sends_secure.
Qed.

(** An enrollment leaves the store as it is until the export. *)
Lemma quiet_standard fuel uid owner finger md active credential progress check before_start completed :
  (forall ids s ev c r s' ev' c', check uid ids (s, ev, c) = Some (r, (s', ev', c')) -> exists qs, s' = after s qs) ->
  quiet_op (StandardEnrollment.enroll_standard (WE := WE) (EE := EE) fuel uid owner finger md active credential
              progress check before_start completed).
Proof.
  intros Hcheck. unfold StandardEnrollment.enroll_standard.
  apply quiet_bind; [apply op_machine, quiet_prepare|intros ids].
  destruct (_ <=? _); [apply op_now|]. do 2 (apply quiet_bind; [apply op_now|intros ?]).
  apply quiet_bind; [apply op_machine, quiet_now_err, machine_session, quiet_sends, sends_system|intros _].
  apply quiet_bind; [apply op_machine, quiet_now_err, quiet_enable|intros _].
  apply quiet_bind; [apply op_caller|intros _].
  apply quiet_bind; [destruct (negb _); [|apply op_now]|intros _].
  { apply quiet_bind; [apply quiet_err, quiet_check, Hcheck|intros o; apply op_now]. }
  apply quiet_bind; [apply quiet_err, quiet_enrollment|intros [id|]; [|apply op_now]].
  apply quiet_bind; [apply op_caller_get|intros b]. destruct (negb b); [apply op_now|].
  apply quiet_bind; [apply op_now|intros new]. destruct (Catalog.add_labeled _ new finger) as [added next].
  do 2 (apply quiet_bind; [apply op_now|intros ?]). apply op_now.
Qed.
End Workflows.

(** ** What an enrollment exports *)

Lemma bindW_Ok {S E A B} (m : MW S E A) (k : A -> MW S E B) s b s' :
  bindW m k s = Some (Ok b, s') -> exists a s1, m s = Some (Ok a, s1) /\ k a s1 = Some (Ok b, s').
Proof. unfold bindW. destruct (m s) as [[[a|e|] s1]|]; intros Hx; simplify_eq. eauto. Qed.

Lemma mapW_Ok {S E F A} (f : E -> F) (m : MW S E A) s a s' :
  mapW_err f m s = Some (Ok a, s') -> m s = Some (Ok a, s').
Proof. unfold mapW_err. destruct (m s) as [[[x|e|] s1]|]; cbn; intros Hx; by simplify_eq. Qed.

Lemma nowW_Ok {S E A} (r : res E A) (s : S) a s' : now (lift r) s = Some (Ok a, s') -> r = Ok a /\ s' = s.
Proof. unfold now, lift. intros Hx. by simplify_eq. Qed.

(** The catalogue of the identities [before], with the identity [new]. *)
Definition extends (md : option Metadata.IdentityMetadata) (owner : StandardProtocol.Username)
    (finger : StandardProtocol.FingerLabel.t) (before : list StandardProtocol.IdentityId)
    (new : StandardProtocol.IdentityId) (manifest : bytes) : Prop :=
  exists catalog next, Catalog.reconcile md owner before = Ok catalog /\
  Catalog.add_labeled catalog new finger = (Ok (), next) /\ Catalog.encode_next_manifest next = Ok manifest /\
  Metadata.id <$> Catalog.c_identities next ≡ₚ before ++ [new] /\ NoDup (before ++ [new]).

Lemma extends_intro md owner finger before new manifest catalog next :
  Catalog.reconcile md owner before = Ok catalog -> Catalog.add_labeled catalog new finger = (Ok (), next) ->
  Catalog.encode_next_manifest next = Ok manifest -> extends md owner finger before new manifest.
Proof.
  intros Hr Ha He. exists catalog, next. apply Catalog.reconcile_Ok in Hr as Hr'. destruct Hr' as (_ & Hn & _ & Hm).
  assert (Metadata.id <$> Catalog.c_identities catalog ≡ₚ before) as Hp.
  { destruct md as [m|]; [by destruct Hm as (_ & -> & ?)|]. rewrite Hm, <- list_fmap_compose.
    by rewrite list_fmap_id. }
  pose proof Ha as Ha'. unfold Catalog.add_labeled in Ha'. destruct (_ <=? _); [done|].
  destruct (existsb _ _) eqn:Hx; [done|]. injection Ha' as <-. cbn [Catalog.c_identities] in *.
  rewrite fmap_app, Hp. split_and!; try done.
  apply NoDup_app. split_and!; [done| |apply NoDup_singleton]. intros i Hi Hin. apply list_elem_of_singleton in Hin as ->.
  rewrite <- Hp in Hi. apply Catalog.existsb_entry in Hi. congruence.
Qed.

(** The check after the commit accepts only the expected set. *)
Lemma same_set_perm expected actual :
  NoDup expected -> StandardEnrollment.same_identity_set expected actual = true -> actual ≡ₚ expected.
Proof.
  intros Hn Hs. unfold StandardEnrollment.same_identity_set in Hs. apply andb_true_iff in Hs as [Hl Hf].
  symmetry. apply submseteq_length_Permutation; [|lia]. apply NoDup_submseteq; [done|]. intros i Hi.
  rewrite forallb_forall in Hf. apply list_elem_of_In, Hf in Hi.
  destruct (List.filter _ actual) as [|j l] eqn:He; [done|].
  assert (In j (List.filter (fun candidate => bool_decide (candidate = i)) actual)) as Hj by (rewrite He; by left).
  apply filter_In in Hj as [Hj ->%bool_decide_eq_true_1]. by apply list_elem_of_In.
Qed.
Section Enrolled.
Context {T TE : Type} `{Htr : BiometricTransport T TE}.
Context {R WE : Type} `{Hrt : PolicyWorkflow.UserPolicyRetryRuntime R TE WE}.
Context {V EE : Type} `{Hev : EnrollWorkflow.EnrollmentEventSource V EE}.
Context {C : Type}.
Abbreviation check_fn := (Policy.BiometricUserId -> list Mesa.Identity ->
  MW (session T TE * V * C) (MatchWorkflow.MatchWorkflowError TE EE) MatchWorkflow.IdentityMatchOutcome.t).

(** What an enrollment has found out before it exports. *)
Definition found_new (uid : Z) owner finger md active credential (check : check_fn) (s : session T TE) (rt : R)
    (before : list StandardProtocol.IdentityId) (new : StandardProtocol.IdentityId) (manifest : bytes) : Prop :=
  exists ids, fst (StandardEnrollment.prepare_standard_enrollment_user (WE := WE) (EE := EE) uid active credential (s, rt)) = Ok ids /\
  StandardEnrollment.identity_ids (TE := TE) (WE := WE) (EE := EE) ids = Ok before /\
  len ids < StandardProtocol.MAX_OWNER_IDENTITIES /\ extends md owner finger before new manifest /\
  (before <> [] -> exists st st', check uid ids st = Some (Ok MatchWorkflow.IdentityMatchOutcome.NoMatch, st')).

Lemma standard_found fuel uid owner finger md active credential progress check before_start completed
    (s : session T TE) (rt : R) (ev : V) (c : C) before new manifest st' :
  StandardEnrollment.enroll_standard (WE := WE) (EE := EE) fuel uid owner finger md active credential
    progress check before_start completed (s, rt, ev, c) = Some (Ok (before, new, manifest), st') ->
  found_new uid owner finger md active credential check s rt before new manifest.
Proof.
  unfold StandardEnrollment.enroll_standard. intros Hx.
  apply bindW_Ok in Hx as (ids & st1 & Hprep & Hx). destruct (_ <=? _) eqn:Hcap; [done|].
  apply bindW_Ok in Hx as (ids' & st2 & [Hids ->]%nowW_Ok & Hx).
  apply bindW_Ok in Hx as (catalog & st3 & [Hrec%map_err_Ok ->]%nowW_Ok & Hx).
  apply bindW_Ok in Hx as (_ & st4 & _ & Hx). apply bindW_Ok in Hx as (_ & st5 & _ & Hx).
  apply bindW_Ok in Hx as (_ & st6 & _ & Hx). apply bindW_Ok in Hx as ([] & st7 & Hdup & Hx).
  apply bindW_Ok in Hx as ([id|] & st8 & _ & Hx); [|done].
  apply bindW_Ok in Hx as (b & st9 & _ & Hx). destruct (negb b); [done|].
  apply bindW_Ok in Hx as (new' & st10 & [_ ->]%nowW_Ok & Hx).
  destruct (Catalog.add_labeled catalog new' finger) as [added next] eqn:Hadd.
  apply bindW_Ok in Hx as ([] & st11 & [Hok%map_err_Ok ->]%nowW_Ok & Hx). subst added.
  apply bindW_Ok in Hx as (m & st12 & [Henc%map_err_Ok ->]%nowW_Ok & Hx).
  unfold now, ret in Hx. injection Hx as <- <- <- <-.
  exists ids. split_and!; [|done|lia|by eapply extends_intro|].
  - unfold AuthOperation.on_runtime_part in Hprep.
    destruct (StandardEnrollment.prepare_standard_enrollment_user uid active credential (s, rt)) as [r [s1 rt1]].
    by injection Hprep as -> _.
  - intros Hne. destruct ids as [|i ids]; [by injection Hids as <-|]. cbn [negb len length] in Hdup.
    replace (len (i :: ids) =? 0) with false in Hdup by (cbn [length]; lia). cbn [negb] in Hdup.
    apply bindW_Ok in Hdup as (o & st & Ho%mapW_Ok & [Hun _]%nowW_Ok).
    destruct o; try discriminate Hun. destruct st6 as [[[s6 rt6] ev6] c6]. unfold StandardEnrollment.on_check in Ho.
    destruct (check uid (i :: ids) (s6, ev6, c6)) as [[r [[s7 ev7] c7]]|] eqn:Hc; [|done].
    injection Ho as -> _. by eauto.
Qed.

Abbreviation free K tk := (K !! (STAGE ++ tk) = None /\ K !! (PAIR ++ tk) = None /\
  K !! (ACTIVE ++ tk ++ TMP) = None /\ K !! (RECOVERY ++ tk) = None).

(** A refusal drops the transaction; [old] stays selected. *)
Lemma dropped_run u r F K tk old t (s : session T TE) :
  safe u (fun o => o = old) F K -> free K tk -> process u (files s) ->
  Forall (stop_safe u (fun o => o = old)) (history (files s)) -> fresh u r F K tk t (fs (files s)) ->
  Forall (stop_safe u (fun o => o = old)) (history (files (Enrollment.dropping t s))).
Proof.
  intros HS Hfree Hp Hh Hf.
  destruct (IdentityRemoval.fresh_droppable u r _ F K HS tk Hfree t _ Hf) as (F1 & K1 & W & N & HS1 & Hk & Hty).
  by destruct (run_drop u _ r F1 K1 (allows_safe u r _ F1 K1 HS1) t W N (files s) Hty Hp Hh Hk) as (_ & Hh' & _).
Qed.

(** The commit of [new], with what is selected and what is live after it. *)
Definition committed (u : Z) (uid : Z) (before : list StandardProtocol.IdentityId) (new : StandardProtocol.IdentityId)
    (manifest : bytes) (es : list (Sent TE)) (s' : session T TE) (ok : StandardEnrollment.StandardEnrollmentSuccess) : Prop :=
  exists usr mst live after s2, user_answer es usr /\ master_answer es mst /\
  ok = StandardEnrollment.mkStandardEnrolled new (mkBackup (len usr) (len mst)) /\
  stop_safe u (fun o => o = Some (mkPair mst usr (Some manifest))) (fs (files s')) /\
  UserWorkflow.list_user_identities uid s2 = (Ok live, s') /\
  StandardEnrollment.identity_ids (TE := TE) (WE := WE) (EE := EE) live = Ok after /\ after ≡ₚ before ++ [new].

(** The end of an enrollment: nothing was exported, or the export is durable in order. *)
Definition ended (u : Z) (tk : bytes) (old : option CatacombPair) (tr : T) (uid : Z) before new manifest (l0 : list (Sent TE))
    (x : res (StandardEnrollment.StandardEnrollmentError TE WE EE) StandardEnrollment.StandardEnrollmentSuccess)
    (s' : session T TE) : Prop :=
  Forall (stop_safe u (old_or_exported old tr l0 uid (Some manifest))) (history (files s')) /\
  exists es rest, sent s' = l0 ++ es ++ rest /\ backup_shape u tk uid (Some manifest) es /\
  forall ok, x = Ok ok -> committed u uid before new manifest es s' ok.

Lemma stop_allowed u (a b : option CatacombPair -> Prop) s : (forall o, a o -> b o) -> stop_safe u a s -> stop_safe u b s.
Proof. intros Hab Ha s' Hs. destruct (Ha s' Hs) as (o & ? & ?). eauto. Qed.

Lemma commit_ended u r F K tk old (uid : Z) t before new manifest (s : session T TE) tr x s' :
  safe u (fun o => o = old) F K -> free K tk -> marker_text (PAIR ++ tk) ->
  process u (files s) -> tracks tr s -> Forall (stop_safe u (fun o => o = old)) (history (files s)) ->
  fresh u r F K tk t (fs (files s)) -> NoDup (before ++ [new]) ->
  StandardEnrollment.commit_standard (WE := WE) (EE := EE) t uid (before, new, manifest) s = (x, s') ->
  ended u tk old tr uid before new manifest (sent s) x s'.
Proof.
  intros HS Hfree Hmk Hp Ht Hh Hf Hn. unfold StandardEnrollment.commit_standard. unfold bind at 1, mapM_err at 1.
  set (allowed := old_or_exported old tr (sent s) uid (Some manifest)).
  assert (forall o, o = old -> allowed o) as Hal by (intros o ->; by left).
  assert (Forall (stop_safe u allowed) (history (files s))) as Hh'.
  { eapply Forall_impl; [exact Hh|]. intros f. by apply stop_allowed. }
  assert (exists y s1 es, backup_catacomb_pair_with_transaction_and_metadata t uid manifest s = (y, s1) /\
    sent s1 = sent s ++ es /\ backup_shape u tk uid (Some manifest) es /\ Forall (stop_safe u allowed) (history (files s1)) /\
    forall b, y = Ok b -> exists usr mst, user_answer es usr /\ master_answer es mst /\ b = mkBackup (len usr) (len mst) /\
      stop_safe u (fun o => o = Some (mkPair mst usr (Some manifest))) (fs (files s1))) as (y & s1 & es & -> & Hs & Hsh & Hh1 & Hok).
  { unfold backup_catacomb_pair_with_transaction_and_metadata.
    assert (forall e : res (CatacombSessionError TE) CatacombBackup, exists es : list (Sent TE),
      sent (Enrollment.dropping t s) = sent s ++ es /\ backup_shape u tk uid (Some manifest) es /\
      Forall (stop_safe u allowed) (history (files (Enrollment.dropping t s)))) as Hdrop.
    { intros _. exists []. cbn [Enrollment.dropping sent]. rewrite app_nil_r. split_and!; [done| |].
      - apply (short_shape u tk uid (Some manifest) 0); cbn; [lia|]. split; [done|cbn; lia].
      - eapply Forall_impl; [by eapply dropped_run|]. intros f. by apply stop_allowed. }
    destruct (decode_identity_metadata manifest) as [[]|e|].
    - destruct (backup_run u r F K tk old uid (Some manifest) (Reserve (Some manifest)) t s (sent s) tr)
        as (y & s1 & es & Hb & ?); try done; [exact (safe_allowed u _ _ F K Hal HS)|].
      exists y, s1, es. by split.
    - destruct (Hdrop (Err (StoreE e))) as (es & ? & ? & ?). by eexists _, (Enrollment.dropping t s), es.
    - destruct (Hdrop Panic) as (es & ? & ? & ?). by eexists _, (Enrollment.dropping t s), es. }
  unfold ended. fold allowed.
  destruct y as [b|e|]; cbn [map_err]; [|intros [= <- <-]; (split; [done|]); exists es, []; rewrite app_nil_r; by split_and!..].
  destruct (Hok b eq_refl) as (usr & mst & Hu & Hm & Hb & Hsel).
  destruct (IdentityRemoval.sends_list tr uid s1) as (_ & Hfiles & es' & Hsent & _).
  unfold bind, mapM_err, lift, ret. destruct (UserWorkflow.list_user_identities uid s1) as [z s2] eqn:Hz. cbn [snd] in *.
  assert (sent s2 = sent s ++ es ++ es') as Hs2 by (rewrite Hsent, Hs; by rewrite app_assoc).
  assert (Forall (stop_safe u allowed) (history (files s2))) as Hh2 by (by rewrite Hfiles).
  destruct z as [live|e|]; cbn [map_err]; [|intros [= <- <-]; (split; [done|]); by exists es, es'..].
  destruct (StandardEnrollment.identity_ids live) as [after|e|] eqn:Hids; [|intros [= <- <-]; (split; [done|]); by exists es, es'..].
  destruct (_ || _) eqn:Hset; intros [= <- <-]; (split; [done|]); exists es, es'; split_and!; try done.
  intros ok [= <-]. apply orb_false_iff in Hset as [Hset%negb_false_iff _].
  apply same_set_perm in Hset; [|done]. exists usr, mst, live, after, s1. rewrite Hfiles. split_and!; try done.
  by rewrite Hb.
Qed.

(** C13. A standard enrollment is durable and exact. Over any transport, any sources of
    events and any callbacks, from a store at rest in a durable directory and with any calls failing: unless every
    step before the export succeeded, every state of the files selects the old generation
    only. Otherwise the next manifest is the committed one reconciled with the live
    identities, fewer than the limit, with the new identity, which was not among them, under
    its label; the duplicate check of a user with identities found no match; the export is
    durable in order and every state selects the old generation or the exported pair with
    that manifest; and success means that this pair is selected from then on and that the
    live set is the one before with exactly the new identity more. *)
Theorem standard_enrollment_exact u old fuel (uid : Z) owner finger md active credential progress (check : check_fn)
    before_start completed w0 t (s : session T TE) (rt : R) (ev : V) (c : C) x s' rt' ev' c' :
  let tk := fst (artifact_token w0) in
  process u w0 -> history w0 = [] -> settled u old (fs w0) -> resolve (fs w0) [PAIR ++ tk] = Err NotFound ->
  begin_transaction w0 = (Ok t, files s) -> sent s = [] ->
  (forall ids s ev c r s' ev' c', check uid ids (s, ev, c) = Some (r, (s', ev', c')) -> exists qs, s' = after s qs) ->
  StandardEnrollment.run_reserved_standard_enrollment (WE := WE) (EE := EE) fuel t uid owner finger md active credential
    progress check before_start completed (s, rt, ev, c) = Some (x, (s', rt', ev', c')) ->
  is_ok x = false /\ Forall (stop_safe u (fun o => o = old)) (history (files s')) \/
  exists before new manifest l0, found_new uid owner finger md active credential check s rt before new manifest /\
  ended u tk old (transport s) uid before new manifest l0 x s'.
Proof.
  intros tk Hp Hh Hset Hres Hbeg Hl Hcheck.
  destruct (begin_fresh u (fun o => o = old) old w0 Hp Hh Hset Hres eq_refl)
    as (r & F & K & y & w' & HS & Hfree & Hmk & Hx & Hp' & Hh' & Hf). rewrite Hbeg in Hx. injection Hx as <- <-.
  assert (stop_safe u (fun o => o = old) (fs (files s))) as Hnow.
  { destruct (IdentityRemoval.fresh_droppable u r _ F K HS tk Hfree t _ Hf) as (F1 & K1 & W & N & HS1 & Hk & _).
    exact (allows_safe u r _ F1 K1 HS1 W N _ Hk). }
  assert (tracks (transport s) s) as Ht by (split; rewrite Hl; [done|by intros i e]).
  unfold StandardEnrollment.run_reserved_standard_enrollment, Enrollment.owning_until.
  destruct (StandardEnrollment.enroll_standard _ _ _ _ _ _ _ _ _ _ _ _) as [[y [[[s1 rt1] ev1] c1]]|] eqn:He; [|done].
  destruct (quiet_standard u (stop_safe u (fun o => o = old)) (transport s) fuel uid owner finger md active credential
    progress check before_start completed Hcheck _ _ _ He Hp' Hh' Hnow Ht) as (Hp1 & Hh1 & Hf1 & Ht1 & l0 & Hs1).
  unfold session_of in *. cbn [fst] in *. rewrite <- Hf1 in Hf.
  destruct y as [[[before new] manifest]|e|].
  - destruct (StandardEnrollment.commit_standard t uid (before, new, manifest) s1) as [z s2] eqn:Hc.
    intros [= <- <- <- <- <-]. right. exists before, new, manifest, (sent s1).
    apply standard_found in He as He'. split; [done|]. destruct He' as (ids & _ & _ & _ & (? & ? & _ & _ & _ & _ & Hn) & _).
    by eapply commit_ended.
  - intros [= <- <- <- <- <-]. left. split; [done|]. by eapply dropped_run.
  - intros [= <- <- <- <- <-]. left. split; [done|]. by eapply dropped_run.
Qed.
End Enrolled.

(** ** A concrete enrollment *)

#[local] Existing Instance EnrollWorkflow.scripted_events.

(** A check that cancels what runs and finds nothing. *)
Definition example_check : Policy.BiometricUserId -> list Mesa.Identity ->
    MW (session (list (res Z bytes)) Z * list EnrollWorkflow.EnrollmentEvent.t * list Z)
      (MatchWorkflow.MatchWorkflowError Z Z) MatchWorkflow.IdentityMatchOutcome.t := fun _ _ '(s, ev, c) =>
  Some (Ok MatchWorkflow.IdentityMatchOutcome.NoMatch, (snd (execute Commands.cancel_operation_command s), ev, c)).

Definition example_record (b : Z) : bytes := le_bytes 4 501 ++ replicate 16 b.

(** The user of [example_pair] has the identity of bytes 1 and enrolls that of bytes 7. *)
Definition example_enrollment : session (list (res Z bytes)) Z :=
  mkSession
    [Ok (PolicyWorkflow.ex_user 1); Ok []; Ok (PolicyWorkflow.ex_user 1); Ok (example_record 1);
     Ok (concat (i32_bytes <$> [0; 0; 0; 1; 1; 1; 1])); Ok (PolicyWorkflow.ex_user 1); Ok [];
     Ok []; Ok []; Ok (example_record 1 ++ example_record 7);
     Ok [3; 0; 0; 0]; Ok [7; 8; 9]; Ok []; Ok [2; 0; 0; 0]; Ok [5; 6]; Ok [];
     Ok (example_record 7 ++ example_record 1)] (snd IdentityRemoval.example_begun) [].

Definition example_run (t : Transaction) :=
  StandardEnrollment.run_reserved_standard_enrollment (WE := Z) (EE := Z) 5 t 501 Metadata.ex_owner
    StandardProtocol.FingerLabel.RightIndex None true (replicate 16 9)
    (Some (fun p c => c ++ [StandardProtocol.completed_stage p])) example_check (fun c => c) (fun c => (true, c))
    (example_enrollment, [], EnrollWorkflow.ex_events, []).

Definition example_new : StandardProtocol.IdentityId := StandardProtocol.mkIdentityId (replicate 16 7).
Definition example_enrolled : StandardEnrollment.StandardEnrollmentSuccess :=
  StandardEnrollment.mkStandardEnrolled example_new (mkBackup 3 2).

Lemma standard_enrollment_exact_witness :
  exists t s' rt' before manifest es, IdentityRemoval.example_begun = (Ok t, files example_enrollment) /\
  example_run t = Some (Ok example_enrolled, (s', rt', [], [4])) /\
  extends None Metadata.ex_owner StandardProtocol.FingerLabel.RightIndex before example_new manifest /\
  committed (WE := Z) (EE := Z) 0 501 before example_new manifest es s' example_enrolled.
Proof.
  assert (exists t, IdentityRemoval.example_begun = (Ok t, files example_enrollment) /\
    match example_run t with Some (r, (_, _, ev, c)) => Some (r, ev, c) | None => None end =
      Some (Ok example_enrolled, [], [4])) as (t & Hb & Hok).
  { destruct IdentityRemoval.example_begun as [[t|e|] w] eqn:Hb; [|vm_compute in Hb; discriminate Hb..].
    exists t. split; [unfold example_enrollment; cbn [files]; by rewrite Hb|].
    assert (t = match IdentityRemoval.example_begun with (Ok t, _) => t | _ => t end) as -> by (by rewrite Hb).
    clear Hb. vm_compute. reflexivity. }
  destruct (example_run t) as [[r [[[s' rt'] ev'] c']]|] eqn:Hrun; [|done]. injection Hok as -> -> ->.
  destruct (standard_enrollment_exact 0 (Some example_pair) 5 501 Metadata.ex_owner
    StandardProtocol.FingerLabel.RightIndex None true (replicate 16 9)
    (Some (fun p c => c ++ [StandardProtocol.completed_stage p])) example_check (fun c => c) (fun c => (true, c))
    (example_world []) t example_enrollment [] EnrollWorkflow.ex_events [] (Ok example_enrolled) s' rt' [] [4])
    as [[Hn _]|(before & new & manifest & l0 & (ids & _ & _ & _ & Hext & _) & _ & es & rest & _ & _ & Hcom)];
    [apply example_process|reflexivity|apply example_settled|vm_compute; reflexivity|exact Hb|reflexivity
    | |exact Hrun|done|].
  - intros ids s ev c r s1 ev1 c1 Hc. injection Hc as _ <- _ _. by exists [Commands.cancel_operation_command].
  - specialize (Hcom _ eq_refl). assert (new = example_new) as -> by (by destruct Hcom as (? & ? & ? & ? & ? & _ & _ & [= <- _ _] & _)).
    exists t, s', rt', before, manifest, es. by split_and!.
Defined.
End EnrollmentSafety.
