(* ===== verification/OverlayRecord.v ===== *)
(** * The cosmetic overlay record

    [t1-daemons/src/overlay.rs] publishes a small JSON record and
    [t1-touchbar/src/overlay_state.rs] reads it. [Producer] has the text that is written and
    the parser that finds the owner of a record; [Consumer] the JSON parser, the schema and
    the liveness test. The files themselves are not modelled here. Strings are their bytes;
    the text that is parsed is valid UTF-8 and every slice ends next to an ASCII byte. *)

From S2P Require Import Prelude Text CatacombStore.
From Stdlib Require Strings.String.

Import Strings.String.StringSyntax.

(** ** Words of the record *)

Module Words.
Import Text.
Open Scope string_scope.
Definition enrollment_text : bytes := str "enrollment".
Definition authenticate_text : bytes := str "authenticate".
Definition approve_text : bytes := str "approve".
Definition retry_text : bytes := str "retry".
Definition success_text : bytes := str "success".
Definition version_text : bytes := str "version".
Definition pid_text : bytes := str "pid".
Definition state_text : bytes := str "state".
Definition progress_text : bytes := str "progress".
Definition true_text : bytes := str "true".
Definition false_text : bytes := str "false".
Definition null_text : bytes := str "null".
Close Scope string_scope.
End Words.
Import Words.
Abbreviation decimal_k := Text.decimal_k.
Abbreviation to_string := Text.to_string.

Module Producer.
Import Text.

Module OverlayState.
Inductive t : Type := Enrollment | Authenticate | Approve | Retry | Success.
End OverlayState.

#[global] Instance OverlayState_eq_dec : EqDecision OverlayState.t.
Proof. solve_decision. Defined.

Definition as_str (s : OverlayState.t) : bytes :=
  match s with
  | OverlayState.Enrollment => enrollment_text
  | OverlayState.Authenticate => authenticate_text
  | OverlayState.Approve => approve_text
  | OverlayState.Retry => retry_text
  | OverlayState.Success => success_text
  end.

Definition MESA_ENROLLMENT_PROGRESS_MIN : Z := 0x64.
Definition MESA_ENROLLMENT_PROGRESS_MAX : Z := 0x163.

Definition enrollment_percent (input : Z) : option Z :=
  if (MESA_ENROLLMENT_PROGRESS_MIN <=? input) && (input <=? MESA_ENROLLMENT_PROGRESS_MAX)
  then Some ((input - MESA_ENROLLMENT_PROGRESS_MIN) * 100 / 255) else None.

(** [u8::try_from(percent).unwrap_or(100)]. *)
Definition percent_u8 (percent : Z) : Z := default 100 (try_from_u 8 percent).

(** A key of the record in quotes, and its colon. *)
Definition key (name : bytes) : bytes := [34] ++ name ++ [34; 58].

(** The payload of [replace_state]. *)
Definition payload (pid : Z) (state : OverlayState.t) (progress : option Z) : bytes :=
  match progress with
  | Some p =>
      if p <=? 100 then
        [123] ++ key version_text ++ [50] ++ [44] ++ key pid_text ++ to_string pid ++ [44] ++
        key state_text ++ [34] ++ as_str state ++ [34; 44] ++ key progress_text ++ to_string p ++ [125; 10]
      else
        [123] ++ key version_text ++ [49] ++ [44] ++ key pid_text ++ to_string pid ++ [44] ++
        key state_text ++ [34] ++ as_str state ++ [34; 125; 10]
  | None =>
      [123] ++ key version_text ++ [49] ++ [44] ++ key pid_text ++ to_string pid ++ [44] ++
      key state_text ++ [34] ++ as_str state ++ [34; 125; 10]
  end.

(** *** What a session publishes *)

(** The record a session in [state] starts with, and those of its updates: the state and
    the progress that [replace_state] is given. *)
Definition start_record (initial_state : OverlayState.t) : OverlayState.t * option Z :=
  (initial_state, if bool_decide (initial_state = OverlayState.Enrollment) then Some 0 else None).
Definition try_again : OverlayState.t * option Z := (OverlayState.Retry, None).
Definition success : OverlayState.t * option Z := (OverlayState.Success, None).
Definition update_progress (input : Z) : option (OverlayState.t * option Z) :=
  match enrollment_percent input with
  | Some percent => Some (OverlayState.Enrollment, Some (percent_u8 percent))
  | None => None
  end.
Definition update_standard_progress (completed total : Z) : option (OverlayState.t * option Z) :=
  if (completed =? 0) || (total =? 0) || (total <? completed) then None
  else Some (OverlayState.Enrollment, Some (percent_u8 (completed * 100 / total))).

(** *** Finding the owner of a record *)

(** [char::is_whitespace]. *)
Definition is_whitespace (c : Z) : bool :=
  in_range 9 13 c || (c =? 0x20) || (c =? 0x85) || (c =? 0xA0) || (c =? 0x1680) || in_range 0x2000 0x200A c ||
  (c =? 0x2028) || (c =? 0x2029) || (c =? 0x202F) || (c =? 0x205F) || (c =? 0x3000).

Fixpoint trim_start (cs : list Z) : list Z :=
  match cs with
  | c :: cs' => if is_whitespace c then trim_start cs' else cs
  | [] => []
  end.
Definition trim (cs : list Z) : list Z := rev (trim_start (rev (trim_start cs))).

Definition strip_prefix_char (c : Z) (cs : list Z) : option (list Z) :=
  match cs with x :: cs => if x =? c then Some cs else None | [] => None end.
Definition strip_suffix_char (c : Z) (cs : list Z) : option (list Z) :=
  match strip_prefix_char c (rev cs) with Some cs => Some (rev cs) | None => None end.

(** [str::split] at a character. *)
Fixpoint split_at (c : Z) (part cs : list Z) : list (list Z) :=
  match cs with
  | [] => [part]
  | x :: cs => if x =? c then part :: split_at c [] cs else split_at c (part ++ [x]) cs
  end.
Definition split (c : Z) (cs : list Z) : list (list Z) := split_at c [] cs.

(** [str::split_once]. *)
Fixpoint split_once_at (c : Z) (part cs : list Z) : option (list Z * list Z) :=
  match cs with
  | [] => None
  | x :: cs => if x =? c then Some (part, cs) else split_once_at c (part ++ [x]) cs
  end.
Definition split_once (c : Z) (cs : list Z) : option (list Z * list Z) := split_once_at c [] cs.

(** The loop of [parse_owner_pid]: [None] is its early return. *)
Fixpoint owner_loop (pid : option Z) (members : list (list Z)) : option (option Z) :=
  match members with
  | [] => Some pid
  | member :: members =>
      match split_once 58 member with
      | None => owner_loop pid members
      | Some (k, value) =>
          if bool_decide (trim k = [34] ++ pid_text ++ [34]) then
            match pid with
            | Some _ => None
            | None =>
                owner_loop (match CatacombStore.parse_u32 (trim value) with
                            | Some pid => if 0 <? pid then Some pid else None
                            | None => None
                            end) members
            end
          else owner_loop pid members
      end
  end.

(** The text as its characters. *)
Definition parse_owner_pid (value : list Z) : option Z :=
  match strip_prefix_char 123 (trim value) with
  | None => None
  | Some body =>
      match strip_suffix_char 125 body with
      | None => None
      | Some body => default None (owner_loop None (split 44 body))
      end
  end.

(** [read_owner_pid], of the bytes of the file. *)
Definition owner_pid (file : bytes) : option (option Z) :=
  if utf8_valid file then Some (parse_owner_pid (chars file)) else None.
End Producer.

Module Consumer.
Import Text.
Export Producer(OverlayState_eq_dec).
Module OverlayState := Producer.OverlayState.

Definition MAX_RECORD_BYTES : Z := 1024.
Definition VERSION_FIELD : bytes := version_text.
Definition PID_FIELD : bytes := pid_text.
Definition STATE_FIELD : bytes := state_text.
Definition PROGRESS_FIELD : bytes := progress_text.
Definition V1_FIELD_COUNT : Z := 3.
Definition V2_FIELD_COUNT : Z := 4.

(** [OverlayState::parse]. *)
Definition parse_state (value : bytes) : option OverlayState.t :=
  if bool_decide (value = enrollment_text) then Some OverlayState.Enrollment
  else if bool_decide (value = authenticate_text) then Some OverlayState.Authenticate
  else if bool_decide (value = approve_text) then Some OverlayState.Approve
  else if bool_decide (value = retry_text) then Some OverlayState.Retry
  else if bool_decide (value = success_text) then Some OverlayState.Success
  else None.

Record CosmeticOverlay : Type := mkOverlay {
  producer_pid : Z; overlay_state : OverlayState.t; enrollment_progress : option Z
}.

Inductive DecodedValue : Type := Integer (v : Z) | String (s : bytes) | Other.
Record DecodedField : Type := mkField { name : bytes; value : DecodedValue }.

Inductive NoOverlayDiagnostic : Type :=
| UnsafeFileType | RecordTooLarge | ReadFailed | MissingFinalNewline | MalformedJson
| IncorrectFieldCount | UnknownField | DuplicateField | InvalidFieldType | UnsupportedVersion
| InvalidPid | UnknownState | DeadProducer.

(** [OverlayValidation], and [OverlayObservation] without [Missing], as a result. *)
Abbreviation validation := (res NoOverlayDiagnostic CosmeticOverlay).

(** *** The schema *)

(** The four variables of the loop over the fields. *)
Record Slots : Type := mkSlots {
  version : option DecodedValue; pid : option DecodedValue;
  state : option DecodedValue; progress : option DecodedValue
}.

Definition slot (s : Slots) (f : DecodedField) : res NoOverlayDiagnostic Slots :=
  if bool_decide (name f = VERSION_FIELD) then
    match version s with None => Ok (mkSlots (Some (value f)) (pid s) (state s) (progress s)) | Some _ => Err DuplicateField end
  else if bool_decide (name f = PID_FIELD) then
    match pid s with None => Ok (mkSlots (version s) (Some (value f)) (state s) (progress s)) | Some _ => Err DuplicateField end
  else if bool_decide (name f = STATE_FIELD) then
    match state s with None => Ok (mkSlots (version s) (pid s) (Some (value f)) (progress s)) | Some _ => Err DuplicateField end
  else if bool_decide (name f = PROGRESS_FIELD) then
    match progress s with None => Ok (mkSlots (version s) (pid s) (state s) (Some (value f))) | Some _ => Err DuplicateField end
  else Err UnknownField.

(** The progress of a version 2 record. *)
Definition checked_progress (p : option DecodedValue) : res NoOverlayDiagnostic (option Z) :=
  match p with
  | Some (Integer p) =>
      match try_from_u 8 p with
      | Some p => if 100 <? p then Err InvalidFieldType else Ok (Some p)
      | None => Err InvalidFieldType
      end
  | _ => Err InvalidFieldType
  end.

Definition record_progress (count : Z) (v : Z) (st : OverlayState.t) (p : option DecodedValue)
    : res NoOverlayDiagnostic (option Z) :=
  if (v =? 1) && (count =? V1_FIELD_COUNT) && bool_decide (p = None) then Ok None
  else if (v =? 2) && (count =? V2_FIELD_COUNT) && bool_decide (st = OverlayState.Enrollment)
  then checked_progress p
  else if (v =? 1) || (v =? 2) then Err IncorrectFieldCount
  else Err UnsupportedVersion.

(** Everything before the liveness test. *)
Definition schema (fields : list DecodedField) : validation :=
  if negb ((len fields =? V1_FIELD_COUNT) || (len fields =? V2_FIELD_COUNT)) then Err IncorrectFieldCount else
  let! s := foldM slot (mkSlots None None None None) fields in
  match version s, pid s, state s with
  | Some v, Some p, Some st =>
      match v with
      | Integer v =>
          match p with
          | Integer p =>
              if (p <=? 0) || (2 ^ 31 - 1 <? p) then Err InvalidPid else
              match st with
              | String st =>
                  match parse_state st with
                  | None => Err UnknownState
                  | Some st =>
                      let! enrollment_progress := record_progress (len fields) v st (progress s) in
                      Ok (mkOverlay p st enrollment_progress)
                  end
              | _ => Err InvalidFieldType
              end
          | _ => Err InvalidFieldType
          end
      | _ => Err InvalidFieldType
      end
  | _, _, _ => Err IncorrectFieldCount
  end.

(** The trait [ProcessLiveness]. *)
Definition validate_overlay_record {L} (fields : list DecodedField) (is_live : Z -> L -> bool * L) (l : L)
    : validation * L :=
  match schema fields with
  | Ok o =>
      let (live, l) := is_live (producer_pid o) l in
      (if live then Ok o else Err DeadProducer, l)
  | r => (r, l)
  end.

(** *** The JSON parser

    The parser is its remaining input; [None] is [Err(())]. *)

Definition consume (expected : Z) (r : bytes) : bool * bytes :=
  match r with b :: r' => if b =? expected then (true, r') else (false, r) | [] => (false, r) end.

Definition byte (expected : Z) (r : bytes) : option bytes :=
  let (found, r) := consume expected r in if found then Some r else None.

Fixpoint whitespace (r : bytes) : bytes :=
  match r with
  | b :: r' => if (b =? 32) || (b =? 9) || (b =? 13) || (b =? 10) then whitespace r' else r
  | [] => []
  end.

(** After the first quote: the text and what follows the second. *)
Fixpoint string_loop (text r : bytes) : option (bytes * bytes) :=
  match r with
  | [] => None
  | b :: r =>
      if b =? 34 then Some (text, r)
      else if (b =? 92) || in_range 0 0x1f b then None
      else string_loop (text ++ [b]) r
  end.
Definition string (r : bytes) : option (bytes * bytes) := byte 34 r ≫= string_loop [].

Definition is_digit (b : Z) : bool := in_range 48 57 b.
Definition peek_digit (r : bytes) : bool := match r with b :: _ => is_digit b | [] => false end.
Fixpoint skip_digits (r : bytes) : bytes :=
  match r with b :: r' => if is_digit b then skip_digits r' else r | [] => [] end.
Definition digits (r : bytes) : option bytes := if peek_digit r then Some (skip_digits r) else None.

(** [str::parse::<i128>] of an optional sign and digits. *)
Definition decimal_value (ds : bytes) : Z := fold_left (fun v d => v * 10 + (d - 48)) ds 0.
Definition parse_i128 (text : bytes) : option Z :=
  let v := match text with
           | d :: ds => if d =? 45 then - decimal_value ds else decimal_value text
           | [] => 0
           end in
  if (- 2 ^ 127 <=? v) && (v <? 2 ^ 127) then Some v else None.

(** The exponent, if there is one. *)
Definition exponent (r : bytes) : option (bool * bytes) :=
  match r with
  | b :: r' =>
      if (b =? 101) || (b =? 69) then
        let r' := match r' with c :: r'' => if (c =? 43) || (c =? 45) then r'' else r' | [] => r' end in
        match digits r' with Some r' => Some (true, r') | None => None end
      else Some (false, r)
  | [] => Some (false, r)
  end.

Definition number (start : bytes) : option (DecodedValue * bytes) :=
  let r := snd (consume 45 start) in
  let (zero, r0) := consume 48 r in
  match (if zero then (if peek_digit r0 then None else Some r0) else digits r) with
  | None => None
  | Some r =>
      let (fraction, r1) := consume 46 r in
      match (if fraction then digits r1 else Some r) with
      | None => None
      | Some r =>
          match exponent r with
          | None => None
          | Some (scaled, r) =>
              if fraction || scaled then Some (Other, r)
              else match parse_i128 (take (length start - length r) start) with
                   | Some v => Some (Integer v, r)
                   | None => None
                   end
          end
      end
  end.

Definition literal (expected r : bytes) : option bytes :=
  if bool_decide (take (length expected) r = expected) then Some (drop (length expected) r) else None.
Definition other (r : option bytes) : option (DecodedValue * bytes) :=
  match r with Some r => Some (Other, r) | None => None end.

Definition json_value (r : bytes) : option (DecodedValue * bytes) :=
  match r with
  | b :: _ =>
      if b =? 34 then match string r with Some (s, r) => Some (String s, r) | None => None end
      else if (b =? 45) || is_digit b then number r
      else if b =? 116 then other (literal true_text r)
      else if b =? 102 then other (literal false_text r)
      else if b =? 110 then other (literal null_text r)
      else None
  | [] => None
  end.

Definition finish (r : bytes) : option () := match whitespace r with [] => Some () | _ => None end.

(** One name and its value. *)
Definition field (r : bytes) : option (DecodedField * bytes) :=
  match string (whitespace r) with
  | None => None
  | Some (name, r) =>
      match byte 58 (whitespace r) with
      | None => None
      | Some r =>
          match json_value (whitespace r) with
          | Some (value, r) => Some (mkField name value, r)
          | None => None
          end
      end
  end.

(** The loop of [parse]; a turn reads at least one byte. *)
Fixpoint parse_loop (fuel : nat) (fields : list DecodedField) (r : bytes) : res () (list DecodedField) :=
  match fuel with
  | O => Panic
  | S fuel =>
      match field r with
      | None => Err ()
      | Some (f, r) =>
          let (closed, r) := consume 125 (whitespace r) in
          if closed then match finish r with Some _ => Ok (fields ++ [f]) | None => Err () end
          else match byte 44 r with
               | Some r => parse_loop fuel (fields ++ [f]) r
               | None => Err ()
               end
      end
  end.

(** [JsonRecordParser::parse]. *)
Definition parse (input : bytes) : res () (list DecodedField) :=
  match byte 123 (whitespace input) with
  | None => Err ()
  | Some r =>
      let (closed, r) := consume 125 (whitespace r) in
      if closed then match finish r with Some _ => Ok [] | None => Err () end
      else parse_loop (S (length input)) [] r
  end.

Definition parse_overlay_bytes {L} (bs : bytes) (is_live : Z -> L -> bool * L) (l : L) : validation * L :=
  if negb (bool_decide (last bs = Some 10)) then (Err MissingFinalNewline, l)
  else if negb (utf8_valid bs) then (Err MalformedJson, l)
  else match parse bs with
       | Ok fields => validate_overlay_record fields is_live l
       | Err _ => (Err MalformedJson, l)
       | Panic => (Panic, l)
       end.

(** [OverlayWatcher::take_latest], with the observations that are queued. *)
Definition take_latest {A} (queued : list A) : option A * list A := (last queued, []).
End Consumer.

(** ** Reading what was written *)

Import Text.

Definition digit (b : Z) : Prop := 48 <= b <= 57.

Lemma decimal_digits k v : 0 <= v -> Forall digit (decimal_k k v).
Proof.
  revert v. induction k as [|k IH]; intros v Hv; cbn [decimal_k]; [done|]. destruct (v <? 10) eqn:Hs.
  - repeat constructor; lia.
  - apply Forall_app. pose proof (Z.mod_pos_bound v 10). split; [apply IH; apply Z.div_pos; lia|]. repeat constructor; lia.
Qed.

Lemma decimal_value_snoc ds d : Consumer.decimal_value (ds ++ [d]) = Consumer.decimal_value ds * 10 + (d - 48).
Proof. unfold Consumer.decimal_value. by rewrite fold_left_app. Qed.

Lemma decimal_value_k k v : 0 <= v < 10 ^ Z.of_nat k -> Consumer.decimal_value (decimal_k k v) = v.
Proof.
  revert v. induction k as [|k IH]; intros v Hv; cbn [decimal_k]; [cbn in Hv; cbn; lia|].
  rewrite Nat2Z.inj_succ, Z.pow_succ_r in Hv by lia.
  destruct (v <? 10) eqn:Hs; [cbn; lia|]. rewrite decimal_value_snoc, IH.
  - pose proof (Z.div_mod v 10). lia.
  - split; [apply Z.div_pos; lia|]. apply Z.div_lt_upper_bound; lia.
Qed.

(** A number starts with a digit that is not zero, unless it is zero. *)
Lemma decimal_head k v : 0 <= v < 10 ^ Z.of_nat (S k) ->
  exists d ds, decimal_k (S k) v = d :: ds /\ digit d /\ Forall digit ds /\ (d = 48 -> ds = []).
Proof.
  revert v. induction k as [|k IH]; intros v Hv.
  - cbn [decimal_k]. replace (v <? 10) with true by (cbn in Hv; lia). exists (48 + v), []. unfold digit.
    split_and!; try done; cbn in Hv; lia.
  - cbn [decimal_k]. destruct (v <? 10) eqn:Hs; [exists (48 + v), []; unfold digit; split_and!; try done; lia|].
    rewrite Nat2Z.inj_succ, Z.pow_succ_r in Hv by lia.
    destruct (IH (v / 10)) as (d & ds & Hd & Hdig & Hds & Hz).
    { split; [apply Z.div_pos; lia|]. apply Z.div_lt_upper_bound; lia. }
    cbn [decimal_k] in Hd. rewrite Hd. exists d, (ds ++ [48 + v mod 10]).
    pose proof (Z.mod_pos_bound v 10). split_and!; [done|done|apply Forall_app; split; [done|repeat constructor; lia]|].
    intros ->. specialize (Hz eq_refl). subst ds. exfalso.
    destruct (v / 10 <? 10) eqn:Hs2.
    + injection Hd as Hd. assert (1 <= v / 10) by (apply Z.div_le_lower_bound; lia). lia.
    + destruct (decimal_k k (v / 10 / 10)) as [|? []] eqn:Hk; cbn in Hd; [|done..].
      destruct k; cbn [decimal_k] in Hk;
        [assert (v / 10 < 10) by (apply Z.div_lt_upper_bound; change (Z.of_nat 1) with 1 in Hv; lia); lia|]. destruct (v / 10 / 10 <? 10); [done|]. by apply app_nil in Hk as [_ ?].
Qed.

Lemma is_digit_iff b : Consumer.is_digit b = true <-> digit b.
Proof. unfold Consumer.is_digit, in_range, digit. lia. Qed.

Lemma skip_app ds r : Forall digit ds -> Consumer.peek_digit r = false -> Consumer.skip_digits (ds ++ r) = r.
Proof.
  intros Hd Hr. induction Hd as [|d ds Hx _ IH]; cbn [app Consumer.skip_digits].
  - destruct r as [|b r]; [done|]. cbn in *. by rewrite Hr.
  - by rewrite (proj2 (is_digit_iff d) Hx).
Qed.

(** What may follow a number: nothing that continues it. *)
Definition stops (r : bytes) : Prop :=
  match r with b :: _ => ~ digit b /\ b <> 46 /\ b <> 101 /\ b <> 69 | [] => True end.

Lemma stops_peek r : stops r -> Consumer.peek_digit r = false /\ Consumer.consume 46 r = (false, r) /\
  Consumer.exponent r = Some (false, r).
Proof.
  destruct r as [|b r]; [done|]. cbn. intros (Hd & H1 & H2 & H3). split_and!.
  - apply not_true_iff_false. by rewrite is_digit_iff.
  - by replace (b =? 46) with false by lia.
  - by replace ((b =? 101) || (b =? 69)) with false by lia.
Qed.

Lemma number_read v r : 0 <= v < 10 ^ 20 -> stops r ->
  Consumer.number (to_string v ++ r) = Some (Consumer.Integer v, r).
Proof.
  intros Hv Hr. destruct (stops_peek r Hr) as (Hp & H46 & Hex). unfold to_string.
  assert (Consumer.parse_i128 (decimal_k 20 v) = Some v) as Hval.
  { pose proof (decimal_value_k 20 v Hv) as Hd. destruct (decimal_head 19 v Hv) as (d & ds & He & Hdig & _).
    rewrite He in Hd |- *. unfold Consumer.parse_i128.
    unfold digit in Hdig. replace (d =? 45) with false by lia. cbv zeta. rewrite Hd.
    replace ((- 2 ^ 127 <=? v) && (v <? 2 ^ 127)) with true by lia. done. }
  destruct (decimal_head 19 v Hv) as (d & ds & He & Hdig & Hds & Hz). rewrite He in Hval |- *. clear He Hv.
  unfold Consumer.number. cbn [app Consumer.consume snd]. unfold digit in Hdig.
  replace (d =? 45) with false by lia. cbn [snd Consumer.consume].
  assert (take (length (d :: ds ++ r) - length r) (d :: ds ++ r) = d :: ds) as Htake.
  { change (d :: ds ++ r) with ((d :: ds) ++ r). rewrite length_app, Nat.add_sub. apply take_app_length. }
  destruct (d =? 48) eqn:H0.
  - rewrite (Hz ltac:(lia)) in *. cbn [app] in *. rewrite Hp, H46, Hex. cbn [orb]. by rewrite Htake, Hval.
  - unfold Consumer.digits. cbn [Consumer.peek_digit Consumer.skip_digits].
    rewrite (proj2 (is_digit_iff d)) by done. rewrite skip_app by done. rewrite H46, Hex. cbn [orb]. by rewrite Htake, Hval.
Qed.

(** Text without quotes, escapes or control characters. *)
Definition plain (b : Z) : Prop := 0x20 <= b <= 127 /\ b <> 34 /\ b <> 92.

#[global] Instance plain_dec b : Decision (plain b).
Proof. unfold plain. apply _. Defined.

Lemma string_loop_read acc text r : Forall plain text ->
  Consumer.string_loop acc (text ++ 34 :: r) = Some (acc ++ text, r).
Proof.
  intros Ht. revert acc. induction Ht as [|b text Hb _ IH]; intros acc; cbn [app Consumer.string_loop].
  - by rewrite app_nil_r.
  - unfold plain in Hb. replace (b =? 34) with false by lia.
    replace ((b =? 92) || in_range 0 31 b) with false by (unfold in_range; lia). by rewrite IH, <- app_assoc.
Qed.

Lemma string_read text r : Forall plain text -> Consumer.string (34 :: text ++ 34 :: r) = Some (text, r).
Proof. intros Ht. unfold Consumer.string. cbn. by rewrite string_loop_read. Qed.

Lemma key_app n r : Producer.key n ++ r = 34 :: n ++ 34 :: 58 :: r.
Proof. unfold Producer.key. cbn. by rewrite <- app_assoc. Qed.

Lemma field_integer n v r : Forall plain n -> 0 <= v < 10 ^ 20 -> stops r ->
  Consumer.field (Producer.key n ++ to_string v ++ r) = Some (Consumer.mkField n (Consumer.Integer v), r).
Proof.
  intros Hn Hv Hr. rewrite key_app. unfold Consumer.field. cbn [Consumer.whitespace Z.eqb Pos.eqb orb].
  rewrite string_read by done. cbn [Consumer.whitespace Consumer.byte Consumer.consume Z.eqb Pos.eqb orb].
  pose proof (number_read v r Hv Hr) as Hnum. unfold to_string in *.
  destruct (decimal_head 19 v Hv) as (d & ds & He & Hdig & _). rewrite He in Hnum |- *. unfold digit in Hdig.
  cbn [app Consumer.whitespace Consumer.json_value] in *.
  replace ((d =? 32) || (d =? 9) || (d =? 13) || (d =? 10)) with false by lia.
  cbn [Consumer.json_value]. replace (d =? 34) with false by lia. replace (d =? 45) with false by lia.
  rewrite (proj2 (is_digit_iff d)) by done. cbn [orb]. by rewrite Hnum.
Qed.

Lemma field_string n text r : Forall plain n -> Forall plain text ->
  Consumer.field (Producer.key n ++ 34 :: text ++ 34 :: r) = Some (Consumer.mkField n (Consumer.String text), r).
Proof.
  intros Hn Ht. rewrite key_app. unfold Consumer.field. cbn [Consumer.whitespace Z.eqb Pos.eqb orb].
  rewrite string_read by done. cbn [Consumer.whitespace Consumer.byte Consumer.consume Z.eqb Pos.eqb orb Consumer.json_value].
  by rewrite string_read.
Qed.

(** ** Every record that is published is read back *)

Lemma words_plain : Forall (Forall plain)
  [version_text; pid_text; state_text; progress_text; enrollment_text; authenticate_text; approve_text; retry_text;
   success_text].
Proof. apply (bool_decide_unpack _). vm_compute. exact I. Qed.

Lemma as_str_plain st : Forall plain (Producer.as_str st).
Proof.
  pose proof words_plain as Hw. rewrite !Forall_cons in Hw. destruct st; cbn [Producer.as_str]; tauto.
Qed.

Lemma parse_as_str st : Consumer.parse_state (Producer.as_str st) = Some st.
Proof. by destruct st. Qed.

(** The fields of a record of [replace_state]. *)
Definition published_fields (pid : Z) (st : Producer.OverlayState.t) (progress : option Z) : list Consumer.DecodedField :=
  match progress with
  | Some p =>
      [Consumer.mkField version_text (Consumer.Integer 2); Consumer.mkField pid_text (Consumer.Integer pid);
       Consumer.mkField state_text (Consumer.String (Producer.as_str st));
       Consumer.mkField progress_text (Consumer.Integer p)]
  | None =>
      [Consumer.mkField version_text (Consumer.Integer 1); Consumer.mkField pid_text (Consumer.Integer pid);
       Consumer.mkField state_text (Consumer.String (Producer.as_str st))]
  end.

(** [progress.filter(|progress| *progress <= 100)]. *)
Definition shown (progress : option Z) : option Z :=
  match progress with Some p => if p <=? 100 then Some p else None | None => None end.

Lemma stops_comma r : stops (44 :: r) /\ stops (125 :: r).
Proof. unfold stops, digit. lia. Qed.

(** One turn of the loop over the members. *)
Lemma loop_next fuel fields r f r' : Consumer.field r = Some (f, 44 :: r') ->
  Consumer.parse_loop (S fuel) fields r = Consumer.parse_loop fuel (fields ++ [f]) r'.
Proof. intros Hf. cbn [Consumer.parse_loop]. by rewrite Hf. Qed.
Lemma loop_last fuel fields r f : Consumer.field r = Some (f, [125; 10]) ->
  Consumer.parse_loop (S fuel) fields r = Ok (fields ++ [f]).
Proof. intros Hf. cbn [Consumer.parse_loop]. by rewrite Hf. Qed.

(** The members up to the state. *)
Definition members_text (ver pid : Z) (st : Producer.OverlayState.t) (r : bytes) : bytes :=
  Producer.key version_text ++ [48 + ver] ++ [44] ++ Producer.key pid_text ++ to_string pid ++ [44] ++
  Producer.key state_text ++ [34] ++ Producer.as_str st ++ [34] ++ r.

Lemma loop_members fuel ver pid st r : 0 <= ver < 10 -> 0 <= pid < 2 ^ 32 ->
  Consumer.parse_loop (S (S fuel)) [] (members_text ver pid st r) =
  Consumer.parse_loop fuel
    [Consumer.mkField version_text (Consumer.Integer ver); Consumer.mkField pid_text (Consumer.Integer pid)]
    (Producer.key state_text ++ 34 :: Producer.as_str st ++ 34 :: r).
Proof.
  intros Hver Hpid. pose proof words_plain as Hw. rewrite !Forall_cons in Hw. destruct Hw as (Hv & Hi & _).
  unfold members_text.
  replace [48 + ver] with (to_string ver) by (unfold to_string; cbn; by replace (ver <? 10) with true by lia).
  erewrite loop_next; [|apply field_integer; [done|lia|apply stops_comma]].
  erewrite loop_next; [|apply field_integer; [done|lia|apply stops_comma]]. done.
Qed.

Lemma payload_eq pid st progress : Producer.payload pid st progress =
  match shown progress with
  | Some p => 123 :: members_text 2 pid st (44 :: Producer.key progress_text ++ to_string p ++ [125; 10])
  | None => 123 :: members_text 1 pid st [125; 10]
  end.
Proof.
  unfold Producer.payload, shown, members_text. destruct progress as [p|]; [destruct (p <=? 100)|]; cbn [app];
    rewrite <- ?app_assoc; cbn [app]; by rewrite <- ?app_assoc.
Qed.

Lemma length_key n r : (2 < length (Producer.key n ++ r))%nat.
Proof. rewrite key_app. cbn [length]. rewrite length_app. cbn [length]. lia. Qed.

Lemma parse_members ver pid st r f : 0 <= ver < 10 -> 0 <= pid < 2 ^ 32 ->
  (forall fuel, Consumer.parse_loop (S (S fuel))
    [Consumer.mkField version_text (Consumer.Integer ver); Consumer.mkField pid_text (Consumer.Integer pid)]
    (Producer.key state_text ++ 34 :: Producer.as_str st ++ 34 :: r) = Ok f) ->
  Consumer.parse (123 :: members_text ver pid st r) = Ok f.
Proof.
  intros Hver Hpid Hf. unfold Consumer.parse.
  cbn [Consumer.whitespace Consumer.byte Consumer.consume Z.eqb Pos.eqb orb].
  assert (Consumer.consume 125 (Consumer.whitespace (members_text ver pid st r)) = (false, members_text ver pid st r)) as ->
    by (unfold members_text; by rewrite key_app).
  pose proof (length_key version_text ([48 + ver] ++ [44] ++ Producer.key pid_text ++ to_string pid ++ [44] ++
    Producer.key state_text ++ [34] ++ Producer.as_str st ++ [34] ++ r)) as Hl.
  change (length (123 :: members_text ver pid st r)) with (S (length (members_text ver pid st r))).
  unfold members_text at 1. destruct (length _) as [|[|[|n]]]; [lia..|]. rewrite loop_members by done. apply Hf.
Qed.

Lemma parse_payload pid st progress : 0 <= pid < 2 ^ 32 -> (forall p, progress = Some p -> is_u 8 p) ->
  Consumer.parse (Producer.payload pid st progress) = Ok (published_fields pid st (shown progress)).
Proof.
  intros Hpid Hp. pose proof words_plain as Hw. rewrite !Forall_cons in Hw. destruct Hw as (Hv & Hi & Hs & Hpr & _).
  pose proof (as_str_plain st) as Hst. rewrite payload_eq.
  destruct (shown progress) as [p|] eqn:Hsh; apply parse_members; try lia; intros fuel.
  - erewrite loop_next; [|by apply field_string]. erewrite loop_last; [done|].
    apply field_integer; [done| |apply stops_comma]. destruct progress as [q|]; [|done]. cbn in Hsh.
    destruct (q <=? 100); [|done]. injection Hsh as ->. specialize (Hp p eq_refl). unfold is_u in Hp. lia.
  - erewrite loop_last; [done|]. by apply field_string.
Qed.

(** ** The schema, exactly *)

Section Schema.
Import Consumer.

Definition slot_field (n : bytes) (v : option DecodedValue) : list DecodedField :=
  match v with Some v => [mkField n v] | None => [] end.
Definition slot_list (s : Slots) : list DecodedField :=
  slot_field VERSION_FIELD (version s) ++ slot_field PID_FIELD (pid s) ++ slot_field STATE_FIELD (state s) ++
  slot_field PROGRESS_FIELD (progress s).

Lemma slot_perm s f s' : slot s f = Ok s' -> slot_list s' ≡ₚ slot_list s ++ [f].
Proof.
  intros Hs. unfold slot in Hs. destruct s as [v p st pr], f as [n x]. cbn in Hs. unfold slot_list.
  repeat case_bool_decide; subst; try done; repeat case_match; simplify_eq; cbn; solve_Permutation.
Qed.

Lemma fold_perm s fields s' : foldM slot s fields = Ok s' -> slot_list s' ≡ₚ slot_list s ++ fields.
Proof.
  revert s. induction fields as [|f fields IH]; intros s; cbn [foldM]; [intros [= ->]; by rewrite app_nil_r|].
  destruct (slot s f) as [s1| |] eqn:Hs; [|done..]. intros ->%IH. rewrite (slot_perm s f s1 Hs).
  by rewrite <- app_assoc.
Qed.

Lemma slot_swap s x y s' : name x <> name y ->
  (let! s := slot s x in slot s y) = Ok s' -> (let! s := slot s y in slot s x) = Ok s'.
Proof.
  intros Hne. destruct s as [v p st pr], x as [nx vx], y as [ny vy]. unfold slot. cbn [name value version pid state progress] in *.
  repeat case_bool_decide; subst; cbn; try done; repeat case_match; intros; simplify_eq; cbn in *; try done; simplify_eq; done.
Qed.

Lemma fold_permuted s l l' s' : l ≡ₚ l' -> NoDup (name <$> l) -> foldM slot s l = Ok s' -> foldM slot s l' = Ok s'.
Proof.
  intros Hp. revert s. induction Hp as [|x l l' Hp IH|x y l|l1 l2 l3 H12 IH1 H23 IH2]; intros s Hn; [done| | |].
  - cbn [foldM]. rewrite fmap_cons, NoDup_cons in Hn. destruct Hn. destruct (slot s x); [|done..]. by apply IH.
  - rewrite !fmap_cons, !NoDup_cons in Hn. destruct Hn as (Hyx & _). intros Hf.
    assert (foldM slot s (y :: x :: l) = let! s1 := (let! s := slot s y in slot s x) in foldM slot s1 l) as Hy
      by (cbn [foldM]; by destruct (slot s y)).
    assert (foldM slot s (x :: y :: l) = let! s1 := (let! s := slot s x in slot s y) in foldM slot s1 l) as Hx
      by (cbn [foldM]; by destruct (slot s x)).
    rewrite Hy in Hf. rewrite Hx. destruct (let! s := slot s y in slot s x) as [s1| |] eqn:H1; [|done..].
    apply slot_swap in H1; [by rewrite H1|]. intros He. apply Hyx. rewrite He. by left.
  - intros Hf. apply IH2; [by rewrite <- H12|]. by apply IH1.
Qed.

Definition overlay_wf (o : CosmeticOverlay) : Prop :=
  1 <= producer_pid o <= 2 ^ 31 - 1 /\
  match enrollment_progress o with Some p => 0 <= p <= 100 /\ overlay_state o = OverlayState.Enrollment | None => True end.

Definition record_fields (o : CosmeticOverlay) : list DecodedField :=
  published_fields (producer_pid o) (overlay_state o) (enrollment_progress o).

Lemma parse_state_iff text st : parse_state text = Some st <-> text = Producer.as_str st.
Proof.
  split; [|intros ->; apply parse_as_str]. unfold parse_state. repeat case_bool_decide; intros; by simplify_eq.
Qed.

Lemma record_names o : NoDup (name <$> record_fields o).
Proof. unfold record_fields, published_fields. destruct (enrollment_progress o); apply (bool_decide_unpack _); vm_compute; exact I. Qed.

Lemma record_slots o : foldM slot (mkSlots None None None None) (record_fields o) =
  Ok (mkSlots (Some (Integer (match enrollment_progress o with Some _ => 2 | None => 1 end)))
        (Some (Integer (producer_pid o))) (Some (String (Producer.as_str (overlay_state o)))) (Integer <$> enrollment_progress o)).
Proof. unfold record_fields, published_fields. by destruct (enrollment_progress o). Qed.

Lemma schema_iff fields o : schema fields = Ok o <-> overlay_wf o /\ fields ≡ₚ record_fields o.
Proof.
  split.
  - unfold schema. destruct (negb _) eqn:Hlen; [done|]. intros Hs.
    destruct (foldM slot _ fields) as [[v p st pr]| |] eqn:Hf; [|done..]. apply fold_perm in Hf. cbn in Hs, Hf.
    destruct v as [[v| |]|]; try done; destruct p as [[p| |]|]; try done; try (by destruct st);
      destruct st as [[|st|]|]; try done; (destruct (_ || _) eqn:Hpid in Hs; [done|]); try done.
    destruct (parse_state st) as [st'|] eqn:Hst; [|done]. apply parse_state_iff in Hst as ->.
    destruct (record_progress _ v st' pr) as [pg| |] eqn:Hpg; [|done..]. injection Hs as <-.
    b2p. unfold record_progress in Hpg. unfold overlay_wf, record_fields. cbn.
    destruct (_ && _ && _) eqn:H1 in Hpg.
    + injection Hpg as <-. b2p. subst. split; [split; [lia|done]|]. by rewrite <- Hf.
    + destruct (_ && _ && _) eqn:H2 in Hpg; [|by destruct (_ || _)]. b2p.
      destruct pr as [[q| |]|]; try done. cbn in Hpg. destruct (try_from_u 8 q) as [q'|] eqn:Hq; [|done].
      apply try_from_u_Some in Hq as [Hq ->]. destruct (100 <? q) eqn:H100; [done|]. injection Hpg as <-. subst.
      unfold is_u in Hq. split; [split; [lia|]; split; [lia|done]|]. by rewrite <- Hf.
  - intros [[Hpid Hpg] Hp]. symmetry in Hp.
    assert (foldM slot (mkSlots None None None None) fields = _) as Hf
      by exact (fold_permuted _ _ _ _ Hp (record_names o) (record_slots o)).
    unfold schema. rewrite Hf. apply Permutation_length in Hp. rewrite <- Hp. clear Hf Hp. cbn [version pid state progress].
    destruct o as [p st [q|]]; cbn in *.
    + replace ((p <=? 0) || (2 ^ 31 - 1 <? p)) with false by lia. rewrite parse_as_str. destruct Hpg as [Hq ->]. cbn.
      rewrite (proj2 (try_from_u_Some 8 q q)) by (split; [unfold is_u; lia|done]).
      by replace (100 <? q) with false by lia.
    + replace ((p <=? 0) || (2 ^ 31 - 1 <? p)) with false by lia. by rewrite parse_as_str.
Qed.

Lemma schema_total fields : schema fields <> Panic.
Proof.
  unfold schema. destruct (negb _); [done|].
  assert (no_panic (foldM slot (mkSlots None None None None) fields)) as Hf.
  { apply (foldM_no_panic (fun _ => True)); try done. intros s f _ _. unfold slot, no_panic. by repeat case_match. }
  destruct (foldM _ _ _) as [s| |]; [|done|done].
  unfold record_progress, checked_progress. by repeat case_match.
Qed.
End Schema.

(** ** The text of a record *)

Definition ascii (b : Z) : Prop := 0 <= b <= 127.

Lemma chars_ascii l : Forall ascii l -> chars l = l.
Proof.
  induction 1 as [|b l Hb _ IH]; [done|]. cbn [chars]. unfold ascii in Hb. replace (b <? 0x80) with true by lia. by rewrite IH.
Qed.

(** Neither a space, nor a comma or a colon, nor a brace. *)
Definition inert (b : Z) : Prop := 33 <= b <= 127 /\ b <> 44 /\ b <> 58 /\ b <> 123 /\ b <> 125.

#[global] Instance inert_dec b : Decision (inert b).
Proof. unfold inert. apply _. Defined.

Lemma words_inert : Forall (Forall inert)
  [version_text; pid_text; state_text; progress_text; enrollment_text; authenticate_text; approve_text; retry_text;
   success_text].
Proof. apply (bool_decide_unpack _). vm_compute. exact I. Qed.

Lemma to_string_inert v : 0 <= v -> Forall inert (to_string v).
Proof.
  intros Hv. eapply Forall_impl; [by apply decimal_digits|]. unfold digit, inert. intros b. lia.
Qed.

Lemma as_str_inert st : Forall inert (Producer.as_str st).
Proof. pose proof words_inert as Hw. rewrite !Forall_cons in Hw. destruct st; cbn [Producer.as_str]; tauto. Qed.

(** A member: its key in quotes, a colon and its value. *)
Definition quoted (n : bytes) : bytes := [34] ++ n ++ [34].
Definition member (n v : bytes) : bytes := quoted n ++ [58] ++ v.

Definition record_members (pid : Z) (st : Producer.OverlayState.t) (progress : option Z) : list (bytes * bytes) :=
  match progress with
  | Some p => [(version_text, [50]); (pid_text, to_string pid); (state_text, quoted (Producer.as_str st));
               (progress_text, to_string p)]
  | None => [(version_text, [49]); (pid_text, to_string pid); (state_text, quoted (Producer.as_str st))]
  end.

(** Members with commas between them. *)
Fixpoint joined (ms : list (bytes * bytes)) : bytes :=
  match ms with
  | [] => []
  | [(n, v)] => member n v
  | (n, v) :: ms => member n v ++ [44] ++ joined ms
  end.

Lemma payload_joined pid st progress :
  Producer.payload pid st progress = [123] ++ joined (record_members pid st (shown progress)) ++ [125; 10].
Proof.
  rewrite payload_eq. unfold members_text, Producer.key, record_members, quoted.
  destruct (shown progress); cbn [joined member app]; unfold member, quoted; cbn [app];
    repeat (rewrite <- ?app_assoc; cbn [app]); reflexivity.
Qed.

Definition member_ok (m : bytes * bytes) : Prop := Forall inert m.1 /\ Forall inert m.2 /\ m.2 <> [].

Lemma members_ok pid st progress : 0 <= pid < 10 ^ 20 -> (forall p, progress = Some p -> 0 <= p < 10 ^ 20) ->
  Forall member_ok (record_members pid st progress).
Proof.
  intros Hpid Hp. pose proof words_inert as Hw. rewrite !Forall_cons in Hw. destruct Hw as (Hv & Hi & Hs & Hpr & _).
  assert (forall v, 0 <= v < 10 ^ 20 -> Forall inert (to_string v) /\ to_string v <> []) as Hnum.
  { intros v Hv'. split; [apply to_string_inert; lia|]. unfold to_string.
    destruct (decimal_head 19 v Hv') as (d & ds & -> & _). done. }
  assert (Forall inert (quoted (Producer.as_str st))) as Hq.
  { unfold quoted. repeat (apply Forall_app; split); try apply as_str_inert; repeat constructor; unfold inert; lia. }
  assert (forall b, b = 49 \/ b = 50 -> Forall inert [b]) as H1 by (intros b Hb; repeat constructor; unfold inert; lia).
  unfold record_members.
  destruct progress as [p|]; rewrite !Forall_cons; split_and!; try apply Forall_nil; unfold member_ok; cbn [fst snd];
    try done; try (by apply H1; auto); try (by apply Hnum; auto); try (split; [done|]); try (by apply Hnum; auto); try (split; [auto|done]).
Qed.

(** *** Finding the owner *)

Import Producer.

Lemma inert_trim l : Forall inert l -> trim l = l.
Proof.
  intros Hl. assert (forall l, Forall inert l -> trim_start l = l) as Hs.
  { intros k Hk. destruct Hk as [|b k Hb _]; [done|]. cbn [trim_start]. unfold inert in Hb.
    replace (is_whitespace b) with false; [done|]. unfold is_whitespace, in_range. lia. }
  unfold trim. rewrite (Hs l Hl), Hs by (by apply Forall_rev). apply rev_involutive.
Qed.

Lemma split_inert part l r : Forall (fun b => b <> 44) l -> split_at 44 part (l ++ 44 :: r) = (part ++ l) :: split 44 r.
Proof.
  intros Hl. revert part. induction Hl as [|b l Hb _ IH]; intros part; cbn [app split_at].
  - by rewrite app_nil_r.
  - replace (b =? 44) with false by lia. by rewrite IH, <- app_assoc.
Qed.
Lemma split_last part l : Forall (fun b => b <> 44) l -> split_at 44 part l = [part ++ l].
Proof.
  intros Hl. revert part. induction Hl as [|b l Hb _ IH]; intros part; cbn [split_at]; [by rewrite app_nil_r|].
  replace (b =? 44) with false by lia. by rewrite IH, <- app_assoc.
Qed.

Lemma once_inert part l r : Forall inert l -> split_once_at 58 part (l ++ 58 :: r) = Some (part ++ l, r).
Proof.
  intros Hl. revert part. induction Hl as [|b l Hb _ IH]; intros part; cbn [app split_once_at]; [by rewrite app_nil_r|].
  unfold inert in Hb. replace (b =? 58) with false by lia. by rewrite IH, <- app_assoc.
Qed.

Lemma quoted_inert n : Forall inert n -> Forall inert (quoted n).
Proof. intros Hn. unfold quoted. repeat (apply Forall_app; split); try done; repeat constructor; unfold inert; lia. Qed.

Lemma member_no_comma m : member_ok m -> Forall (fun b => b <> 44) (member m.1 m.2).
Proof.
  intros (H1 & H2 & _). unfold member. apply Forall_app. split; [|apply Forall_app; split].
  - eapply Forall_impl; [by apply quoted_inert|]. unfold inert. lia.
  - repeat constructor. lia.
  - eapply Forall_impl; [exact H2|]. unfold inert. lia.
Qed.

Lemma split_joined m ms : Forall member_ok (m :: ms) -> split 44 (joined (m :: ms)) = (fun m => member m.1 m.2) <$> m :: ms.
Proof.
  revert m. induction ms as [|m' ms IH]; intros [n v] Hok; rewrite Forall_cons in Hok; destruct Hok as [Hm Hms].
  - cbn [joined]. unfold split. by rewrite split_last by (by apply (member_no_comma (n, v))).
  - change (joined ((n, v) :: m' :: ms)) with (member n v ++ [44] ++ joined (m' :: ms)). unfold split. cbn [app].
    rewrite split_inert by (by apply (member_no_comma (n, v))). rewrite IH by done. done.
Qed.

(** The owner of a record is the number of its one member [pid]. *)
Lemma owner_members found ms : Forall member_ok ms ->
  owner_loop found ((fun m => member m.1 m.2) <$> ms) =
  foldr (fun m k found => if bool_decide (quoted m.1 = quoted pid_text)
           then match found with
                | Some _ => None
                | None => k (match CatacombStore.parse_u32 m.2 with
                             | Some v => if 0 <? v then Some v else None
                             | None => None
                             end)
                end
           else k found) Some ms found.
Proof.
  intros Hms. revert found. induction Hms as [|[n v] ms (Hn & Hv & _) _ IH]; intros found; [done|].
  rewrite fmap_cons. cbn [owner_loop foldr fst snd]. unfold split_once, member.
  change (quoted n ++ [58] ++ v) with (quoted n ++ 58 :: v).
  rewrite once_inert by (by apply quoted_inert). cbn [app]. rewrite !inert_trim by (try apply quoted_inert; done).
  change (34 :: pid_text ++ [34]) with (quoted pid_text).
  case_bool_decide; [|apply IH]. destruct found; [done|]. apply IH.
Qed.

Lemma u32_digits v0 ds : Forall digit ds -> 0 <= v0 -> fold_left (fun v d => v * 10 + (d - 48)) ds v0 <= umax 32 ->
  CatacombStore.digits_value v0 ds = Some (fold_left (fun v d => v * 10 + (d - 48)) ds v0).
Proof.
  intros Hd. revert v0. induction Hd as [|d ds Hx Hds IH]; intros v0 H0; cbn [fold_left CatacombStore.digits_value]; [done|].
  intros Hle. unfold digit in Hx. replace (in_range 48 57 d) with true by (unfold in_range; lia).
  assert (v0 * 10 + (d - 48) <= fold_left (fun v d => v * 10 + (d - 48)) ds (v0 * 10 + (d - 48))) as Hmono.
  { clear IH Hle. assert (0 <= v0 * 10 + (d - 48)) as Hs by lia. revert Hs. generalize (v0 * 10 + (d - 48)).
    induction Hds as [|e ds He _ IH2]; intros v Hv; cbn [fold_left]; [lia|]. unfold digit in He.
    specialize (IH2 (v * 10 + (e - 48)) ltac:(lia)). lia. }
  replace (v0 * 10 + (d - 48) <=? umax 32) with true by lia. apply IH; [lia|done].
Qed.

Lemma parse_u32_string v : 0 <= v < 2 ^ 32 -> CatacombStore.parse_u32 (to_string v) = Some v.
Proof.
  intros Hv. assert (0 <= v < 10 ^ Z.of_nat 20) as Hv' by lia. unfold to_string.
  pose proof (decimal_value_k 20 v Hv') as Hd. destruct (decimal_head 19 v Hv') as (d & ds & He & Hdig & Hds & _).
  rewrite He in Hd |- *. unfold Consumer.decimal_value in Hd.
  assert (CatacombStore.digits_value 0 (d :: ds) = Some v) as Hval.
  { rewrite u32_digits; [by rewrite Hd|by constructor|lia|rewrite Hd; unfold umax; lia]. }
  unfold digit in Hdig. unfold CatacombStore.parse_u32.
  destruct d as [|q|q]; try done. repeat (destruct q as [q|q|]; try done; try lia).
Qed.

Lemma owner_payload pid st progress : 1 <= pid < 2 ^ 32 -> (forall p, progress = Some p -> is_u 8 p) ->
  Forall ascii (payload pid st progress) /\ owner_pid (payload pid st progress) = Some (Some pid).
Proof.
  intros Hpid Hp.
  assert (Forall member_ok (record_members pid st (shown progress))) as Hok.
  { apply members_ok; [lia|]. intros p Hs. destruct progress as [q|]; [|done]. cbn in Hs. destruct (q <=? 100); [|done].
    injection Hs as ->. specialize (Hp p eq_refl). unfold is_u in Hp. lia. }
  rewrite payload_joined.
  assert (forall ms, Forall member_ok ms -> Forall (fun b => 33 <= b <= 127) (joined ms)) as Hj.
  { assert (forall n v, member_ok (n, v) -> Forall (fun b => 33 <= b <= 127) (member n v)) as Hm.
    { intros n v (Hn & Hv & _). unfold member. apply Forall_app. split; [|apply Forall_app; split].
      - eapply Forall_impl; [by apply quoted_inert|]. unfold inert. lia.
      - repeat constructor; lia.
      - eapply Forall_impl; [exact Hv|]. unfold inert. lia. }
    induction 1 as [|[n v] ms Hm1 _ IH]; [constructor|]. cbn [joined]. destruct ms; [by apply Hm|].
    apply Forall_app. split; [by apply Hm|]. apply Forall_app. split; [repeat constructor; lia|done]. }
  specialize (Hj _ Hok).
  assert (Forall ascii ([123] ++ joined (record_members pid st (shown progress)) ++ [125; 10])) as Hasc.
  { repeat (apply Forall_app; split); [repeat constructor; unfold ascii; lia| |repeat constructor; unfold ascii; lia].
    eapply Forall_impl; [exact Hj|]. unfold ascii. lia. }
  split; [done|]. unfold owner_pid. rewrite ascii_valid by done. rewrite chars_ascii by done. f_equal.
  unfold parse_owner_pid, trim. cbn [app trim_start]. replace (is_whitespace 123) with false by done.
  set (body := joined _) in *. cbn [rev]. rewrite rev_app_distr. cbn [rev app trim_start].
  replace (is_whitespace 10) with true by done. replace (is_whitespace 125) with false by done.
  cbn [rev]. rewrite rev_app_distr, rev_involutive. cbn [rev app strip_prefix_char Z.eqb Pos.eqb].
  unfold strip_suffix_char. rewrite rev_app_distr. cbn [rev app strip_prefix_char Z.eqb Pos.eqb]. rewrite rev_involutive.
  subst body.
  assert (exists m ms, record_members pid st (shown progress) = m :: ms) as (m & ms & Hms)
    by (unfold record_members; destruct (shown progress); eauto).
  rewrite Hms in Hok |- *. rewrite split_joined, owner_members by done. rewrite <- Hms.
  unfold record_members. destruct (shown progress); cbn [foldr fst snd];
    rewrite parse_u32_string by lia; replace (0 <? pid) with true by lia; vm_compute; reflexivity.
Qed.

(** ** The parser ends *)

Section Total.
Import Consumer.

Lemma whitespace_le r : (length (whitespace r) <= length r)%nat.
Proof. induction r as [|b r IH]; cbn; [done|]. destruct (_ || _); cbn; lia. Qed.

Lemma consume_le b r : (length (snd (consume b r)) <= length r)%nat.
Proof. destruct r as [|x r]; cbn; [done|]. destruct (x =? b); cbn; lia. Qed.

Lemma byte_lt b r r' : byte b r = Some r' -> (length r' < length r)%nat.
Proof. unfold byte, consume. destruct r as [|x r]; [done|]. destruct (x =? b); [|done]. intros [= ->]. cbn. lia. Qed.

Lemma string_loop_lt acc r text r' : string_loop acc r = Some (text, r') -> (length r' < length r)%nat.
Proof.
  revert acc. induction r as [|b r IH]; intros acc; cbn [string_loop]; [done|].
  destruct (b =? 34); [intros [= _ ->]; cbn; lia|]. destruct (_ || _); [done|]. intros Hs%IH. cbn. lia.
Qed.

Lemma string_lt r text r' : string r = Some (text, r') -> (length r' < length r)%nat.
Proof.
  unfold string. destruct (byte 34 r) as [r1|] eqn:Hb; [|done]. cbn. intros Hs%string_loop_lt. apply byte_lt in Hb. lia.
Qed.

Lemma skip_le r : (length (skip_digits r) <= length r)%nat.
Proof. induction r as [|b r IH]; cbn; [done|]. destruct (is_digit b); cbn; lia. Qed.

Lemma digits_le r r' : digits r = Some r' -> (length r' <= length r)%nat.
Proof. unfold digits. destruct (peek_digit r); [|done]. intros [= <-]. apply skip_le. Qed.

Lemma exponent_le r b r' : exponent r = Some (b, r') -> (length r' <= length r)%nat.
Proof.
  unfold exponent. destruct r as [|x r]; [by intros [= _ <-]|]. destruct (_ || _); [|by intros [= _ <-]].
  destruct (digits _) as [r1|] eqn:Hd; [|done]. intros [= _ <-]. apply digits_le in Hd.
  destruct r as [|y r]; [cbn in *; lia|]. destruct (_ || _); cbn [length] in *; lia.
Qed.

Lemma number_le r v r' : number r = Some (v, r') -> (length r' <= length r)%nat.
Proof.
  unfold number. pose proof (consume_le 45 r) as H1. set (r1 := snd (consume 45 r)) in *.
  pose proof (consume_le 48 r1) as H2. destruct (consume 48 r1) as [zero r2]. cbn in H2.
  destruct (if zero then _ else _) as [r3|] eqn:H3; [|done].
  assert (length r3 <= length r)%nat as Hr3.
  { destruct zero; [|apply digits_le in H3; lia]. destruct (peek_digit r2); [done|]. injection H3 as ->. lia. }
  pose proof (consume_le 46 r3) as H4. destruct (consume 46 r3) as [fraction r4]. cbn in H4.
  destruct (if fraction then _ else _) as [r5|] eqn:H5; [|done].
  assert (length r5 <= length r)%nat as Hr5 by (destruct fraction; [apply digits_le in H5; lia|injection H5 as ->; lia]).
  destruct (exponent r5) as [[scaled r6]|] eqn:H6; [|done]. apply exponent_le in H6.
  destruct (fraction || scaled); [intros [= _ <-]; lia|]. destruct (parse_i128 _); [|done]. intros [= _ <-]. lia.
Qed.

Lemma value_le r v r' : json_value r = Some (v, r') -> (length r' <= length r)%nat.
Proof.
  assert (forall e, other (literal e r) = Some (v, r') -> (length r' <= length r)%nat) as Hlit.
  { intros e. unfold literal. case_bool_decide; [|done]. cbn. intros [= _ <-]. rewrite length_drop. lia. }
  unfold json_value. destruct r as [|b r]; [done|].
  destruct (b =? 34). { destruct (string (b :: r)) as [[x r1]|] eqn:Hs; [|done]. intros [= _ <-]. apply string_lt in Hs. lia. }
  destruct (_ || _); [apply number_le|]. destruct (b =? 116); [apply Hlit|]. destruct (b =? 102); [apply Hlit|].
  destruct (b =? 110); [apply Hlit|done].
Qed.

Lemma field_lt r f r' : field r = Some (f, r') -> (length r' < length r)%nat.
Proof.
  unfold field. pose proof (whitespace_le r) as H0. destruct (string (whitespace r)) as [[n r1]|] eqn:H1; [|done]. apply string_lt in H1.
  pose proof (whitespace_le r1) as H2. destruct (byte 58 (whitespace r1)) as [r2|] eqn:H3; [|done]. apply byte_lt in H3.
  pose proof (whitespace_le r2) as H4. destruct (json_value (whitespace r2)) as [[v r3]|] eqn:H5; [|done].
  intros [= _ <-]. apply value_le in H5. lia.
Qed.

Lemma parse_loop_total fuel fields r : (length r < fuel)%nat -> parse_loop fuel fields r <> Panic.
Proof.
  revert fields r. induction fuel as [|fuel IH]; intros fields r Hl; [lia|]. cbn [parse_loop].
  destruct (field r) as [[f r1]|] eqn:Hf; [|done]. apply field_lt in Hf.
  pose proof (whitespace_le r1) as Hw. pose proof (consume_le 125 (whitespace r1)) as Hc.
  destruct (consume 125 (whitespace r1)) as [closed r2]. cbn in Hc. destruct closed; [by destruct (finish r2)|].
  destruct (byte 44 r2) as [r3|] eqn:Hb; [|done]. apply byte_lt in Hb. apply IH. lia.
Qed.

Lemma parse_total bs : parse bs <> Panic.
Proof.
  unfold parse. pose proof (whitespace_le bs) as Hw. destruct (byte 123 (whitespace bs)) as [r|] eqn:Hb; [|done].
  apply byte_lt in Hb. pose proof (whitespace_le r) as Hw2. pose proof (consume_le 125 (whitespace r)) as Hc.
  destruct (consume 125 (whitespace r)) as [closed r2]. cbn in Hc. destruct closed; [by destruct (finish r2)|].
  apply parse_loop_total. lia.
Qed.
End Total.

(** ** Theorems *)

Section Theorems.
Context {L : Type} (is_live : Z -> L -> bool * L).

(** The state and progress a session gives to [replace_state]. *)
Inductive publishes : Producer.OverlayState.t * option Z -> Prop :=
| publishes_start initial : publishes (start_record initial)
| publishes_retry : publishes try_again
| publishes_success : publishes success
| publishes_progress input r : update_progress input = Some r -> publishes r
| publishes_standard completed total r :
    is_u 8 completed -> is_u 8 total -> update_standard_progress completed total = Some r -> publishes r.

Lemma percent_range v : 0 <= v <= 100 -> percent_u8 v = v.
Proof. intros Hv. unfold percent_u8. rewrite (proj2 (try_from_u_Some 8 v v)); [done|]. unfold is_u. lia. Qed.

Lemma publishes_ok st pr : publishes (st, pr) ->
  (forall p, pr = Some p -> 0 <= p <= 100 /\ st = Producer.OverlayState.Enrollment) /\ shown pr = pr.
Proof.
  intros Hp. assert (forall p, pr = Some p -> 0 <= p <= 100 /\ st = Producer.OverlayState.Enrollment) as Hr.
  { intros p ->. remember (st, Some p) as r eqn:Hi. destruct Hp as [i| | |input r Hu|c t r Hc Ht Hu]; try done; subst.
    - unfold start_record in Hi. case_bool_decide; [|done]. injection Hi as <- <-. split; [lia|done].
    - unfold update_progress, enrollment_percent, MESA_ENROLLMENT_PROGRESS_MIN, MESA_ENROLLMENT_PROGRESS_MAX in Hu.
      destruct (_ && _) eqn:Hb; [|done]. b2p. injection Hu as <- <-.
      assert (0 <= (input - 100) * 100 / 255 <= 100); [|by rewrite percent_range].
      split; [apply Z.div_pos; lia|apply Z.div_le_upper_bound; lia].
    - unfold update_standard_progress in Hu. destruct (_ || _) eqn:Hb; [done|]. b2p. injection Hu as <- <-. unfold is_u in *.
      assert (0 <= c * 100 / t <= 100); [|by rewrite percent_range].
      split; [apply Z.div_pos; lia|apply Z.div_le_upper_bound; lia]. }
  split; [done|]. destruct pr as [p|]; [|done]. cbn. destruct (Hr p eq_refl) as [Hb _]. by replace (p <=? 100) with true by lia.
Qed.

(** Whatever a biometric session publishes for the Touch Bar is read back exactly: the
    record names the session's process as its owner, and the reader shows the published
    state and progress while that process lives and nothing once it is gone. *)
Theorem overlay_published_read pid st pr l :
  1 <= pid <= 2 ^ 31 - 1 -> publishes (st, pr) ->
  let text := payload pid st pr in
  owner_pid text = Some (Some pid) /\
  Consumer.parse_overlay_bytes text is_live l =
    (if fst (is_live pid l) then Ok (Consumer.mkOverlay pid st pr) else Err Consumer.DeadProducer, snd (is_live pid l)).
Proof.
  intros Hpid Hpub text. destruct (publishes_ok st pr Hpub) as [Hpr Hsh].
  assert (forall p, pr = Some p -> is_u 8 p) as H8 by (intros p Hp; destruct (Hpr p Hp); unfold is_u; lia).
  destruct (owner_payload pid st pr ltac:(lia) H8) as [Hasc Hown]. split; [done|].
  unfold Consumer.parse_overlay_bytes.
  assert (last text = Some 10) as -> by (subst text; rewrite payload_joined, !last_app; done).
  rewrite bool_decide_eq_true_2 by done. subst text. rewrite ascii_valid by done. cbn [negb].
  rewrite parse_payload by (try lia; done). rewrite Hsh. unfold Consumer.validate_overlay_record.
  rewrite (proj2 (schema_iff _ (Consumer.mkOverlay pid st pr))).
  - cbn. by destruct (is_live pid l) as [[] l'].
  - split; [|done]. split; cbn; [lia|]. destruct pr as [p|]; [|done]. by apply Hpr.
Qed.

(** The reader ends on every text, and accepts exactly the JSON objects, with a final
    newline, whose members are in some order those of the schema: version 1, a process and a
    state, or version 2 with progress up to one hundred for an enrollment, and only while
    the process lives. *)
Theorem overlay_accepted_iff bs l o l' :
  fst (Consumer.parse_overlay_bytes bs is_live l) <> Panic /\
  (Consumer.parse_overlay_bytes bs is_live l = (Ok o, l') <->
   last bs = Some 10 /\ utf8_valid bs = true /\ overlay_wf o /\
   is_live (Consumer.producer_pid o) l = (true, l') /\
   exists fields, Consumer.parse bs = Ok fields /\ fields ≡ₚ record_fields o).
Proof.
  unfold Consumer.parse_overlay_bytes, Consumer.validate_overlay_record.
  destruct (decide (last bs = Some 10)) as [Hl|Hl].
  2:{ rewrite bool_decide_eq_false_2 by done. split; [done|]. split; [done|]. by intros [? _]. }
  rewrite bool_decide_eq_true_2 by done. cbn [negb]. destruct (utf8_valid bs); cbn [negb].
  2:{ split; [done|]. split; [done|]. by intros (_ & ? & _). }
  pose proof (parse_total bs) as Ht. destruct (Consumer.parse bs) as [fields|e|] eqn:Hp; [|split; [done|]; split; [done|]; by intros (_ & _ & _ & _ & ? & ? & _)|done].
  destruct (Consumer.schema fields) as [o'|e|] eqn:Hs.
  - apply schema_iff in Hs as [Hwf Hf]. destruct (is_live (Consumer.producer_pid o') l) as [live l1] eqn:Hlive. split; [by destruct live|]. split.
    + destruct live; [|done]. intros [= <- <-]. split_and!; try done. by exists fields.
    + intros (_ & _ & Hwf' & Hl' & fs' & [= <-] & Hf'). assert (Consumer.schema fields = Ok o) as H1 by (by apply schema_iff).
      assert (Consumer.schema fields = Ok o') as H2 by (by apply schema_iff). rewrite H1 in H2. injection H2 as ->.
      rewrite Hl' in Hlive. by injection Hlive as <- <-.
  - split; [done|]. split; [done|]. intros (_ & _ & Hwf' & _ & fs' & [= <-] & Hf').
    assert (Consumer.schema fields = Ok o) as H1 by (by apply schema_iff). congruence.
  - by destruct (schema_total fields).
Qed.
End Theorems.

Definition example_live (pid : Z) (calls : Z) : bool * Z := (pid =? 4242, calls + 1).

Lemma overlay_published_read_witness :
  publishes (Producer.OverlayState.Enrollment, Some 40) /\
  Consumer.parse_overlay_bytes (payload 4242 Producer.OverlayState.Enrollment (Some 40)) example_live 0 =
    (Ok (Consumer.mkOverlay 4242 Producer.OverlayState.Enrollment (Some 40)), 1).
Proof.
  assert (publishes (Producer.OverlayState.Enrollment, Some 40)) as Hp
    by (apply (publishes_standard 2 5); [done|done|reflexivity]).
  split; [exact Hp|].
  apply (overlay_published_read example_live 4242 Producer.OverlayState.Enrollment (Some 40) 0); [lia|exact Hp].
Defined.
