(* ===== verification/Gesture.v ===== *)
(** * Gestures of the Touch Bar

    [t1-touchbar/src/gesture.rs]: the engine that turns frames of contacts into gestures. A
    [BTreeMap] is an association list with increasing keys. The floating-point operations
    the code uses are a parameter: what is proved holds whatever they compute. *)

From S2P Require Import Prelude.
From Stdlib Require Import Sorted.

(** ** Maps with ordered keys *)

Module BTree.
Section BTree.
Context {A : Type}.
Abbreviation tree := (list (Z * A)).

Definition keys (t : tree) : list Z := t.*1.
Definition ordered (t : tree) : Prop := StronglySorted Z.lt (keys t).

Fixpoint get (k : Z) (t : tree) : option A :=
  match t with [] => None | (j, a) :: t => if j =? k then Some a else get k t end.

(** [BTreeMap::insert]. *)
Fixpoint insert (k : Z) (a : A) (t : tree) : tree :=
  match t with
  | [] => [(k, a)]
  | (j, b) :: t' => if k <? j then (k, a) :: t else if k =? j then (k, a) :: t' else (j, b) :: insert k a t'
  end.

(** [BTreeMap::remove]. *)
Definition remove (k : Z) (t : tree) : tree := List.filter (fun e => negb (fst e =? k)) t.

(** A value replaced through [get_mut]. *)
Definition set (k : Z) (a : A) (t : tree) : tree := (fun e => if fst e =? k then (k, a) else e) <$> t.

Lemma get_None k t : get k t = None <-> k ∉ keys t.
Proof.
  induction t as [|[j a] t IH]; cbn; [split; [intros _; apply not_elem_of_nil|done]|].
  rewrite not_elem_of_cons. destruct (j =? k) eqn:Hj; [split; [done|]; lia|]. rewrite IH. split; [|tauto]. split; [lia|done].
Qed.

Lemma get_insert k a t i : get i (insert k a t) = if i =? k then Some a else get i t.
Proof.
  induction t as [|[j b] t IH]; cbn [insert get]; [rewrite (Z.eqb_sym i); by destruct (k =? i)|].
  destruct (k <? j) eqn:H1; cbn [get]; [rewrite (Z.eqb_sym i); by destruct (k =? i)|].
  destruct (k =? j) eqn:H2; cbn [get].
  - assert (k = j) as -> by lia. rewrite (Z.eqb_sym i). by destruct (j =? i).
  - destruct (j =? i) eqn:H3; [|done]. by replace (i =? k) with false by lia.
Qed.

Lemma get_remove k t i : get i (remove k t) = if i =? k then None else get i t.
Proof.
  induction t as [|[j b] t IH]; cbn; [by destruct (i =? k)|]. fold (remove k t). destruct (j =? k) eqn:H1; cbn.
  - rewrite IH. destruct (i =? k) eqn:H2; [done|]. by replace (j =? i) with false by lia.
  - rewrite IH. destruct (j =? i) eqn:H3; [|done]. by replace (i =? k) with false by lia.
Qed.

Lemma get_set k a t i : k ∈ keys t -> get i (set k a t) = if i =? k then Some a else get i t.
Proof.
  intros Hk. destruct (i =? k) eqn:Hi.
  - assert (i = k) as -> by lia. clear Hi. induction t as [|[j b] t IH]; [by apply not_elem_of_nil in Hk|].
    cbn. destruct (j =? k) eqn:Hj; cbn; [by rewrite Z.eqb_refl|]. rewrite Hj. apply IH. cbn in Hk.
    apply elem_of_cons in Hk as [->|Hk]; [lia|done].
  - clear Hk. induction t as [|[j b] t IH]; [done|]. cbn. destruct (j =? k) eqn:Hj; cbn.
    + replace (k =? i) with false by lia. replace (j =? i) with false by lia. apply IH.
    + destruct (j =? i); [done|apply IH].
Qed.

Lemma keys_insert k a t i : i ∈ keys (insert k a t) <-> i = k \/ i ∈ keys t.
Proof.
  pose proof (get_insert k a t i) as Hg. pose proof (get_None i (insert k a t)) as H1. pose proof (get_None i t) as H2.
  destruct (i =? k) eqn:Hi.
  - split; [left; lia|]. intros _. destruct (decide (i ∈ keys (insert k a t))) as [|Hn]; [done|].
    apply H1 in Hn. congruence.
  - rewrite Hg in H1. assert (i <> k) by lia.
    destruct (decide (i ∈ keys (insert k a t))), (decide (i ∈ keys t)); tauto.
Qed.

Lemma keys_remove k t : keys (remove k t) = List.filter (fun i => negb (i =? k)) (keys t).
Proof. induction t as [|[j b] t IH]; [done|]. cbn. destruct (j =? k); cbn; [done|]. by f_equal. Qed.

Lemma keys_set k a t : keys (set k a t) = keys t.
Proof. induction t as [|[j b] t IH]; [done|]. cbn. destruct (j =? k) eqn:Hj; cbn; f_equal; try done. lia. Qed.

Lemma ordered_insert k a t : ordered t -> ordered (insert k a t).
Proof.
  unfold ordered. induction t as [|[j b] t IH]; cbn; intros Ht; [repeat constructor|].
  apply StronglySorted_inv in Ht as [Ht Hj]. destruct (k <? j) eqn:H1; [|destruct (k =? j) eqn:H2].
  - cbn. constructor; [by constructor|]. constructor; [lia|]. eapply Forall_impl; [exact Hj|]. cbn. lia.
  - cbn. assert (k = j) as -> by lia. by constructor.
  - cbn. constructor; [by apply IH|]. apply Forall_forall. intros i [->|Hi]%keys_insert; [lia|].
    rewrite Forall_forall in Hj. by apply Hj.
Qed.

Lemma ordered_remove k t : ordered t -> ordered (remove k t).
Proof.
  unfold ordered. rewrite keys_remove. generalize (keys t). intros l. induction 1 as [|i l Hl IH Hi]; [constructor|].
  cbn. destruct (i =? k); cbn; [done|]. constructor; [done|]. apply Forall_forall. intros j Hj.
  apply list_elem_of_In, filter_In in Hj as [Hj _]. rewrite Forall_forall in Hi. by apply Hi, list_elem_of_In.
Qed.

Lemma ordered_nodup t : ordered t -> NoDup (keys t).
Proof.
  unfold ordered. generalize (keys t). intros l. induction 1 as [|i l Hl IH Hi]; constructor; [|done].
  intros Hin. rewrite Forall_forall in Hi. specialize (Hi i Hin). lia.
Qed.
End BTree.
End BTree.

(** ** Floating point *)

(** What the engine uses of [f64]. *)
Class F64 (F : Type) : Type := {
  is_finite : F -> bool;
  is_negative : F -> bool;
  sub : F -> F -> F;
  hypot : F -> F -> F;
  ge : F -> F -> bool
}.

Module Gesture.
Section Engine.
Context {F : Type} `{F64 F}.

Record DisplayContact : Type := mkContact { id : Z; x : F; y : F }.

Inductive GestureError : Type :=
| InvalidDragDistance | InvalidContactCapacity | InvalidContactCoordinate
| TooManyContacts | DuplicateContact | TimestampRegressed.

Definition contact_new (id : Z) (x y : F) : res GestureError DisplayContact :=
  if negb (is_finite x) || negb (is_finite y) || is_negative x || is_negative y
  then Err InvalidContactCoordinate else Ok (mkContact id x y).

Record GestureSettings : Type := mkSettings { drag_distance : F; hold_after : Duration; max_contacts : Z }.

Definition settings_new (drag_distance : F) (hold_after : Duration) (max_contacts : Z)
    : res GestureError GestureSettings :=
  if negb (is_finite drag_distance) || is_negative drag_distance then Err InvalidDragDistance
  else if max_contacts =? 0 then Err InvalidContactCapacity
  else Ok (mkSettings drag_distance hold_after max_contacts).

Inductive Gesture : Type :=
| Press (c : DisplayContact)
| Move (from to : DisplayContact)
| DragStart (c : DisplayContact)
| Drag (from to : DisplayContact)
| Hold (c : DisplayContact)
| Release (c : DisplayContact)
| Tap (c : DisplayContact).

Record ActiveContact : Type := mkActive {
  start : DisplayContact; current : DisplayContact; started_at : Duration; dragging : bool; held : bool
}.

Record GestureEngine : Type := mkEngine {
  settings : GestureSettings;
  active : list (Z * ActiveContact);
  last_timestamp : option Duration
}.

Definition engine_new (settings : GestureSettings) : GestureEngine := mkEngine settings [] None.
Definition is_idle (e : GestureEngine) : bool := bool_decide (length (active e) = 0%nat).
Definition contact_count (e : GestureEngine) : Z := len (active e).
Definition with_active (e : GestureEngine) (a : list (Z * ActiveContact)) : GestureEngine :=
  mkEngine (settings e) a (last_timestamp e).
Definition cancel_all (e : GestureEngine) : GestureEngine := with_active e [].

(** *** One contact *)

(** [release]: what it pushes and the contacts after it. *)
Definition release (contact : Z) (a : list (Z * ActiveContact)) : list Gesture * list (Z * ActiveContact) :=
  match BTree.get contact a with
  | None => ([], a)
  | Some c =>
      (Release (current c) :: (if negb (dragging c) && negb (held c) then [Tap (current c)] else []),
       BTree.remove contact a)
  end.

Definition update_or_press (s : GestureSettings) (timestamp : Duration) (contact : DisplayContact)
    (a : list (Z * ActiveContact)) : list Gesture * list (Z * ActiveContact) :=
  match BTree.get (id contact) a with
  | None => ([Press contact], BTree.insert (id contact) (mkActive contact contact timestamp false false) a)
  | Some c =>
      let previous := current c in
      let distance := hypot (sub (x contact) (x (start c))) (sub (y contact) (y (start c))) in
      if negb (dragging c) && ge distance (drag_distance s) then
        ([DragStart (start c); Drag previous contact],
         BTree.set (id contact) (mkActive (start c) contact (started_at c) true (held c)) a)
      else
        ([if dragging c then Drag previous contact else Move previous contact],
         BTree.set (id contact) (mkActive (start c) contact (started_at c) (dragging c) (held c)) a)
  end.

(** *** Loops *)

Fixpoint release_each (ids : list Z) (a : list (Z * ActiveContact)) : list Gesture * list (Z * ActiveContact) :=
  match ids with
  | [] => ([], a)
  | i :: ids =>
      let (g, a) := release i a in
      let (gs, a) := release_each ids a in (g ++ gs, a)
  end.

Fixpoint update_each (s : GestureSettings) (timestamp : Duration) (contacts : list DisplayContact)
    (a : list (Z * ActiveContact)) : list Gesture * list (Z * ActiveContact) :=
  match contacts with
  | [] => ([], a)
  | c :: contacts =>
      let (g, a) := update_or_press s timestamp c a in
      let (gs, a) := update_each s timestamp contacts a in (g ++ gs, a)
  end.

(** [emit_holds], over the values in order. *)
Fixpoint emit_holds (s : GestureSettings) (timestamp : Duration) (a : list (Z * ActiveContact))
    : list Gesture * list (Z * ActiveContact) :=
  match a with
  | [] => ([], [])
  | (i, c) :: a =>
      let (gs, a) := emit_holds s timestamp a in
      if negb (held c) && negb (dragging c) && (hold_after s <=? saturating_sub timestamp (started_at c))
      then (Hold (current c) :: gs, (i, mkActive (start c) (current c) (started_at c) (dragging c) true) :: a)
      else (gs, (i, c) :: a)
  end.

(** *** Frames *)

Fixpoint order_contacts (ordered : list (Z * DisplayContact)) (contacts : list DisplayContact)
    : res GestureError (list (Z * DisplayContact)) :=
  match contacts with
  | [] => Ok ordered
  | c :: contacts =>
      match BTree.get (id c) ordered with
      | Some _ => Err DuplicateContact
      | None => order_contacts (BTree.insert (id c) c ordered) contacts
      end
  end.

Definition validate_frame (e : GestureEngine) (contacts : list DisplayContact)
    : res GestureError (list (Z * DisplayContact)) :=
  if max_contacts (settings e) <? len contacts then Err TooManyContacts else order_contacts [] contacts.

Definition accept_timestamp (e : GestureEngine) (timestamp : Duration) : res GestureError GestureEngine :=
  match last_timestamp e with
  | Some previous =>
      if timestamp <? previous then Err TimestampRegressed
      else Ok (mkEngine (settings e) (active e) (Some timestamp))
  | None => Ok (mkEngine (settings e) (active e) (Some timestamp))
  end.

Definition ingest_frame (e : GestureEngine) (timestamp : Duration) (contacts : list DisplayContact)
    : res GestureError (list Gesture) * GestureEngine :=
  match (let! ordered := validate_frame e contacts in
         let! e := accept_timestamp e timestamp in Ok (ordered, e)) with
  | Ok (ordered, e) =>
      let disappeared := List.filter (fun i => bool_decide (BTree.get i ordered = None)) (BTree.keys (active e)) in
      let (g1, a) := release_each disappeared (active e) in
      let (g2, a) := update_each (settings e) timestamp ordered.*2 a in
      let (g3, a) := emit_holds (settings e) timestamp a in
      (Ok (g1 ++ g2 ++ g3), with_active e a)
  | Err err => (Err err, e)
  | Panic => (Panic, e)
  end.

Definition tick (e : GestureEngine) (timestamp : Duration) : res GestureError (list Gesture) * GestureEngine :=
  match accept_timestamp e timestamp with
  | Ok e => let (g, a) := emit_holds (settings e) timestamp (active e) in (Ok g, with_active e a)
  | Err err => (Err err, e)
  | Panic => (Panic, e)
  end.

Definition release_all (e : GestureEngine) (timestamp : Duration) : res GestureError (list Gesture) * GestureEngine :=
  match accept_timestamp e timestamp with
  | Ok e => let (g, a) := release_each (BTree.keys (active e)) (active e) in (Ok g, with_active e a)
  | Err err => (Err err, e)
  | Panic => (Panic, e)
  end.
End Engine.

(** ** The life of one contact *)

Section Lifecycle.
Context {F : Type} `{F64 F}.
Abbreviation contact := (DisplayContact (F := F)).
Abbreviation gesture := (Gesture (F := F)).
Abbreviation life := (option (ActiveContact (F := F))).
Abbreviation actives := (list (Z * ActiveContact (F := F))).
Abbreviation settings_of := (GestureSettings (F := F)).

Definition gesture_id (g : gesture) : Z :=
  match g with
  | Press c | DragStart c | Hold c | Release c | Tap c => id c
  | Move _ c | Drag _ c => id c
  end.

(** The contact has moved far enough to drag. *)
Definition far (s : settings_of) (a : ActiveContact (F := F)) (c : contact) : bool :=
  ge (hypot (sub (x c) (x (start a))) (sub (y c) (y (start a)))) (drag_distance s).

(** What one contact can do at a time: [None] is a contact that is not there. *)
Inductive step (s : settings_of) (t : Duration) : life -> list gesture -> life -> Prop :=
| step_press c : step s t None [Press c] (Some (mkActive c c t false false))
| step_move a c :
    dragging a = false -> far s a c = false -> id c = id (current a) ->
    step s t (Some a) [Move (current a) c] (Some (mkActive (start a) c (started_at a) false (held a)))
| step_start a c :
    dragging a = false -> far s a c = true -> id c = id (current a) ->
    step s t (Some a) [DragStart (start a); Drag (current a) c]
      (Some (mkActive (start a) c (started_at a) true (held a)))
| step_drag a c :
    dragging a = true -> id c = id (current a) ->
    step s t (Some a) [Drag (current a) c] (Some (mkActive (start a) c (started_at a) true (held a)))
| step_hold a :
    dragging a = false -> held a = false -> hold_after s <= saturating_sub t (started_at a) ->
    step s t (Some a) [Hold (current a)] (Some (mkActive (start a) (current a) (started_at a) false true))
| step_tap a : dragging a = false -> held a = false -> step s t (Some a) [Release (current a); Tap (current a)] None
| step_release a : dragging a = true \/ held a = true -> step s t (Some a) [Release (current a)] None.

Inductive steps (s : settings_of) (t : Duration) : life -> list gesture -> life -> Prop :=
| steps_nil p : steps s t p [] p
| steps_cons p g q gs r : step s t p g q -> steps s t q gs r -> steps s t p (g ++ gs) r.

(** What the engine says: gestures at a time, or that all contacts are dropped. *)
Inductive entry : Type := Emitted (t : Duration) (gs : list gesture) | Cancelled.

Inductive lived (s : settings_of) : life -> list entry -> life -> Prop :=
| lived_nil p : lived s p [] p
| lived_emitted p t gs q l r : steps s t p gs q -> lived s q l r -> lived s p (Emitted t gs :: l) r
| lived_cancelled p l r : lived s None l r -> lived s p (Cancelled :: l) r.

(** The part of one contact. *)
Definition only (i : Z) (gs : list gesture) : list gesture := List.filter (fun g => gesture_id g =? i) gs.
Definition only_entry (i : Z) (e : entry) : entry :=
  match e with Emitted t gs => Emitted t (only i gs) | Cancelled => Cancelled end.

Lemma steps_one s t p g q : step s t p g q -> steps s t p g q.
Proof. intros Hs. rewrite <- (app_nil_r g). eapply steps_cons; [done|constructor]. Qed.

Lemma steps_app s t p gs q gs' r : steps s t p gs q -> steps s t q gs' r -> steps s t p (gs ++ gs') r.
Proof. induction 1 as [|p g q gs r' Hs _ IH]; intros Hr; [done|]. rewrite <- app_assoc. eapply steps_cons; [done|auto]. Qed.

Lemma only_app i gs gs' : only i (gs ++ gs') = only i gs ++ only i gs'.
Proof. apply List.filter_app. Qed.

Lemma only_all i gs : Forall (fun g => gesture_id g = i) gs -> only i gs = gs.
Proof. induction 1 as [|g gs Hg _ IH]; [done|]. cbn. rewrite Hg, Z.eqb_refl. by f_equal. Qed.

Lemma only_none i j gs : i <> j -> Forall (fun g => gesture_id g = j) gs -> only i gs = [].
Proof. intros Hij. induction 1 as [|g gs Hg _ IH]; [done|]. cbn. by replace (gesture_id g =? i) with false by lia. Qed.

(** Every contact is filed under its identifier. *)
Definition filed (a : actives) : Prop :=
  BTree.ordered a /\ forall i c, BTree.get i a = Some c -> id (start c) = i /\ id (current c) = i.

Definition moves (s : settings_of) (t : Duration) (a : actives) (gs : list gesture)
    (a' : actives) : Prop :=
  filed a' /\ forall i, steps s t (BTree.get i a) (only i gs) (BTree.get i a').

Lemma moves_refl s t (a : actives) : filed a -> moves s t a [] a.
Proof. intros Ha. split; [done|]. intros i. constructor. Qed.

Lemma moves_app s t (a : actives) gs b gs' c : moves s t a gs b -> moves s t b gs' c -> moves s t a (gs ++ gs') c.
Proof. intros [_ H1] [Hc H2]. split; [done|]. intros i. rewrite only_app. by eapply steps_app. Qed.

(** A change of one contact. *)
Lemma moves_one s t (a : actives) gs a' i : filed a' -> Forall (fun g => gesture_id g = i) gs ->
  step s t (BTree.get i a) gs (BTree.get i a') -> (forall j, j <> i -> BTree.get j a' = BTree.get j a) -> moves s t a gs a'.
Proof.
  intros Hf Hg Hs Hj. split; [done|]. intros j. destruct (decide (j = i)) as [->|Hne].
  - rewrite only_all by done. by apply steps_one.
  - rewrite (only_none j i) by done. rewrite Hj by done. constructor.
Qed.

Lemma release_moves s t i (a : actives) : filed a -> let (gs, a') := release i a in moves s t a gs a' /\ BTree.keys a' = List.filter (fun j => negb (j =? i)) (BTree.keys a).
Proof.
  intros Ha. unfold release. destruct (BTree.get i a) as [c|] eqn:Hg.
  - destruct (proj2 Ha i c Hg) as [_ Hid]. split; [|apply BTree.keys_remove]. eapply (moves_one _ _ _ _ _ i).
    + split; [apply BTree.ordered_remove, Ha|]. intros j d. rewrite BTree.get_remove. destruct (j =? i); [done|]. apply Ha.
    + constructor; [done|]. destruct (negb (dragging c) && negb (held c)); repeat constructor; done.
    + rewrite BTree.get_remove, Z.eqb_refl, Hg. destruct (dragging c) eqn:Hd, (held c) eqn:Hh; cbn; constructor; auto.
    + intros j Hj. rewrite BTree.get_remove. by replace (j =? i) with false by lia.
  - split; [by apply moves_refl|]. apply BTree.get_None in Hg. symmetry.
    induction (BTree.keys a) as [|j l IH]; [done|]. cbn. apply not_elem_of_cons in Hg as [Hne Hg].
    replace (j =? i) with false by lia. cbn. by rewrite IH.
Qed.

Lemma filed_set (c : contact) b (a : actives) : filed a -> id c = id (current b) -> id (start b) = id c -> filed (BTree.set (id c) b a).
Proof.
  intros Ha Hc Hs. destruct (decide (id c ∈ BTree.keys a)) as [Hin|Hout].
  - split; [unfold BTree.ordered; rewrite BTree.keys_set; apply Ha|]. intros j d. rewrite BTree.get_set by done.
    destruct (j =? id c) eqn:Hj; [|apply Ha]. intros [= <-]. split; lia.
  - replace (BTree.set (id c) b a) with a; [done|]. symmetry. unfold BTree.set, BTree.keys in *. clear Ha.
    induction a as [|[j d] a IH]; [done|]. cbn in *. apply not_elem_of_cons in Hout as [Hne Hout].
    replace (j =? id c) with false by lia. f_equal. by apply IH.
Qed.

Lemma update_moves s t (c : contact) (a : actives) : filed a -> let (gs, a') := update_or_press s t c a in moves s t a gs a' /\
  (forall j, j ∈ BTree.keys a' <-> j = id c \/ j ∈ BTree.keys a) /\
  (forall j, option_map current (BTree.get j a') = if j =? id c then Some c else option_map current (BTree.get j a)).
Proof.
  intros Ha. unfold update_or_press. destruct (BTree.get (id c) a) as [b|] eqn:Hg.
  - destruct (proj2 Ha _ b Hg) as [Hs Hb].
    assert (id c ∈ BTree.keys a) as Hin.
    { destruct (decide (id c ∈ BTree.keys a)) as [|Hn]; [done|]. apply BTree.get_None in Hn. congruence. }
    assert (forall b' gs, id (start b') = id c -> current b' = c -> Forall (fun g => gesture_id g = id c) gs ->
      step s t (Some b) gs (Some b') -> moves s t a gs (BTree.set (id c) b' a) /\
      (forall j, j ∈ BTree.keys (BTree.set (id c) b' a) <-> j = id c \/ j ∈ BTree.keys a) /\
      (forall j, option_map current (BTree.get j (BTree.set (id c) b' a)) = if j =? id c then Some c else option_map current (BTree.get j a))) as Hone.
    { intros b' gs Hs' Hc' Hgs Hst. split_and!.
      - eapply (moves_one _ _ _ _ _ (id c)); [apply filed_set; [done|by rewrite Hc'|done]|done| |].
        + by rewrite BTree.get_set, Z.eqb_refl, Hg.
        + intros j Hj. rewrite BTree.get_set by done. by replace (j =? id c) with false by lia.
      - intros j. rewrite BTree.keys_set. split; [tauto|]. by intros [->|?].
      - intros j. rewrite BTree.get_set by done. destruct (j =? id c); [cbn; by rewrite Hc'|done]. }
    destruct (negb (dragging b) && _) eqn:Hfar.
    + apply andb_true_iff in Hfar as [Hd%negb_true_iff Hfar]. apply Hone; [done..| |]; [repeat constructor; done|].
      apply step_start; [done..|]. lia.
    + destruct (dragging b) eqn:Hd; (apply Hone; [done|done|by repeat constructor|]).
      { apply step_drag; [done|lia]. }
      apply step_move; [done|by apply andb_false_iff in Hfar as [?|?]|lia].
  - split_and!.
    + eapply (moves_one _ _ _ _ _ (id c)).
      * split; [apply BTree.ordered_insert, Ha|]. intros j d. rewrite BTree.get_insert. destruct (j =? id c) eqn:Hj; [|apply Ha].
        intros [= <-]. cbn. lia.
      * by repeat constructor.
      * rewrite Hg, BTree.get_insert, Z.eqb_refl. constructor.
      * intros j Hj. rewrite BTree.get_insert. by replace (j =? id c) with false by lia.
    + intros j. apply BTree.keys_insert.
    + intros j. rewrite BTree.get_insert. by destruct (j =? id c).
Qed.

(** *** Loops over contacts *)

Lemma release_each_moves s t ids (a : actives) : filed a -> let (gs, a') := release_each ids a in
  moves s t a gs a' /\ forall j, j ∈ BTree.keys a' <-> j ∈ BTree.keys a /\ j ∉ ids.
Proof.
  revert a. induction ids as [|i ids IH]; intros a Ha; cbn [release_each].
  - split; [by apply moves_refl|]. intros j. pose proof (not_elem_of_nil (A := Z) j). tauto.
  - pose proof (release_moves s t i a Ha) as Hr. destruct (release i a) as [g b]. destruct Hr as [Hm Hk].
    specialize (IH b (proj1 Hm)). destruct (release_each ids b) as [gs a']. destruct IH as [Hm' Hk'].
    split; [by eapply moves_app|]. intros j. rewrite Hk', Hk, (list_elem_of_In (List.filter _ _)), filter_In, <- list_elem_of_In, not_elem_of_cons.
    rewrite negb_true_iff, Z.eqb_neq. tauto.
Qed.

Definition frame_filed (fr : list (Z * contact)) : Prop :=
  BTree.ordered fr /\ forall i c, (i, c) ∈ fr -> id c = i.

Lemma frame_get (fr : list (Z * contact)) i c : frame_filed fr -> BTree.get i fr = Some c <-> (i, c) ∈ fr.
Proof.
  intros [Ho _]. apply BTree.ordered_nodup in Ho. induction fr as [|[j d] fr IH]; cbn.
  - split; [done|]. intros Hin. by apply not_elem_of_nil in Hin.
  - rewrite elem_of_cons. cbn in Ho. apply NoDup_cons in Ho as [Hj Ho]. specialize (IH Ho). destruct (j =? i) eqn:Hji.
    + assert (j = i) as -> by lia. split; [intros [= ->]; by left|]. intros [[= ->]|Hin]; [done|].
      destruct Hj. apply list_elem_of_fmap. by exists (i, c).
    + rewrite IH. split; [by right|]. intros [[= -> _]|?]; [lia|done].
Qed.

Lemma update_each_moves s t (fr : list (Z * contact)) (a : actives) : filed a -> frame_filed fr ->
  let (gs, a') := update_each s t fr.*2 a in
  moves s t a gs a' /\ (forall j, j ∈ BTree.keys a' <-> j ∈ BTree.keys fr \/ j ∈ BTree.keys a) /\
  forall j, option_map current (BTree.get j a') =
    match BTree.get j fr with Some c => Some c | None => option_map current (BTree.get j a) end.
Proof.
  revert a. induction fr as [|[i c] fr IH]; intros a Ha [Hord Hids]; cbn [fmap list_fmap snd update_each].
  - split; [by apply moves_refl|]. split; [|done]. intros j. cbn. pose proof (not_elem_of_nil (A := Z) j). tauto.
  - assert (id c = i) as Hi by (apply (Hids i); by left).
    apply StronglySorted_inv in Hord as [Hord Hlt].
    assert (frame_filed fr) as Hfr by (split; [done|]; intros; apply Hids; by right).
    pose proof (update_moves s t c a Ha) as Hu. destruct (update_or_press s t c a) as [g b]. destruct Hu as (Hm & Hk & Hc).
    specialize (IH b (proj1 Hm) Hfr). destruct (update_each s t fr.*2 b) as [gs a']. destruct IH as (Hm' & Hk' & Hc').
    split; [by eapply moves_app|]. split.
    + intros j. rewrite Hk', Hk. cbn. rewrite elem_of_cons, Hi. tauto.
    + intros j. rewrite Hc', Hc. cbn. rewrite Hi, (Z.eqb_sym i j). destruct (j =? i) eqn:Hj; [|by destruct (BTree.get j fr)].
      assert (BTree.get j fr = None) as ->; [|done]. apply BTree.get_None. intros Hin. rewrite Forall_forall in Hlt.
      specialize (Hlt j Hin). cbn in Hlt. lia.
Qed.

(** The contact holds as soon as it may. *)
Definition hold_done (s : settings_of) (t : Duration) (c : ActiveContact (F := F)) : Prop :=
  dragging c = false -> hold_after s <= saturating_sub t (started_at c) -> held c = true.

Lemma emit_holds_moves s t (a : actives) : filed a -> let (gs, a') := emit_holds s t a in
  moves s t a gs a' /\ BTree.keys a' = BTree.keys a /\ Forall (fun g => gesture_id g ∈ BTree.keys a) gs /\
  (forall j, option_map current (BTree.get j a') = option_map current (BTree.get j a)) /\
  forall j c, BTree.get j a' = Some c -> hold_done s t c.
Proof.
  induction a as [|[i c] a IH]; intros Ha; cbn [emit_holds].
  { split; [by apply moves_refl|]. by split_and!. }
  destruct Ha as [Hord Hid]. apply StronglySorted_inv in Hord as Hord'. destruct Hord' as [Hord' Hlt].
  assert (i ∉ BTree.keys a) as Hni by (intros Hin; rewrite Forall_forall in Hlt; specialize (Hlt i Hin); cbn in Hlt; lia).
  assert (filed a) as Ha.
  { split; [done|]. intros j d Hg. apply Hid. cbn. destruct (i =? j) eqn:Hij; [|done]. assert (i = j) as -> by lia.
    apply BTree.get_None in Hni. congruence. }
  destruct (Hid i c ltac:(cbn; by rewrite Z.eqb_refl)) as [Hs Hc].
  specialize (IH Ha). destruct (emit_holds s t a) as [gs a']. destruct IH as ([[Hord2 Hid2] Hst] & Hk & Hgs & Hcur & Hdone).
  assert (only i gs = []) as Honly.
  { clear -Hgs Hni. induction Hgs as [|g gs Hg _ IH]; [done|]. cbn. replace (gesture_id g =? i) with false; [done|].
    symmetry. apply Z.eqb_neq. by intros <-. }
  assert (forall c' g, id (start c') = i -> id (current c') = i -> current c' = current c ->
    (g = [] /\ c' = c \/ step s t (Some c) g (Some c')) -> Forall (fun g => gesture_id g = i) g -> hold_done s t c' ->
    moves s t ((i, c) :: a) (g ++ gs) ((i, c') :: a') /\ BTree.keys ((i, c') :: a') = BTree.keys ((i, c) :: a) /\
    Forall (fun g => gesture_id g ∈ BTree.keys ((i, c) :: a)) (g ++ gs) /\
    (forall j, option_map current (BTree.get j ((i, c') :: a')) = option_map current (BTree.get j ((i, c) :: a))) /\
    forall j d, BTree.get j ((i, c') :: a') = Some d -> hold_done s t d) as Hone.
  { intros c' g Hs' Hc' Hcc Hstep Hg Hd. split_and!.
    - split.
      + split; [unfold BTree.ordered; change (BTree.keys ((i, c') :: a')) with (i :: BTree.keys a'); rewrite Hk; exact Hord|].
        intros j d. cbn. destruct (i =? j) eqn:Hij; [|apply Hid2].
        intros [= <-]. lia.
      + intros j. rewrite only_app. cbn [BTree.get]. destruct (i =? j) eqn:Hij.
        * assert (i = j) as <- by lia. rewrite Honly, app_nil_r, only_all by done.
          destruct Hstep as [[-> ->]|Hstep]; [constructor|by apply steps_one].
        * rewrite (only_none j i) by (try lia; done). apply Hst.
    - change (BTree.keys ((i, c') :: a')) with (i :: BTree.keys a'). by rewrite Hk.
    - apply Forall_app. split; (eapply Forall_impl; [eassumption|]); cbn; intros y Hy; rewrite elem_of_cons; [left|by right]. done.
    - intros j. cbn. destruct (i =? j); [cbn; by rewrite Hcc|apply Hcur].
    - intros j d. cbn. destruct (i =? j); [by intros [= <-]|apply Hdone]. }
  destruct (negb (held c) && negb (dragging c) && _) eqn:Hb.
  - apply andb_true_iff in Hb as [[Hh%negb_true_iff Hd%negb_true_iff]%andb_true_iff Ht%Z.leb_le].
    apply (Hone (mkActive (start c) (current c) (started_at c) (dragging c) true) [Hold (current c)]); cbn; try done.
    + right. rewrite Hd. by apply step_hold.
    + by constructor.
  - apply (Hone c []); try done; [by left|]. intros Hd Ht. destruct (held c); [done|]. rewrite Hd in Hb. cbn in Hb. lia.
Qed.

(** *** Frames *)

Lemma order_contacts_Ok contacts ordered fr : frame_filed ordered ->
  order_contacts ordered contacts = Ok fr ->
  frame_filed fr /\ (forall i c, (i, c) ∈ fr <-> (i, c) ∈ ordered \/ c ∈ contacts /\ id c = i) /\
  length fr = (length ordered + length contacts)%nat.
Proof.
  revert ordered. induction contacts as [|c contacts IH]; intros ordered Hf; cbn [order_contacts].
  - intros [= <-]. split; [done|]. split; [|cbn; lia]. intros i c. pose proof (not_elem_of_nil (A := contact) c). tauto.
  - destruct (BTree.get (id c) ordered) as [d|] eqn:Hg; [done|]. intros Hr.
    assert (forall i d, (i, d) ∈ BTree.insert (id c) c ordered <-> (i, d) ∈ ordered \/ d = c /\ id c = i) as Hin.
    { intros i d. apply BTree.get_None in Hg. clear -Hg. induction ordered as [|[j b] l IH]; cbn.
      - rewrite list_elem_of_singleton. split; [intros [= -> ->]; by right|]. intros [Hx|[-> <-]]; [by apply not_elem_of_nil in Hx|done].
      - cbn in Hg. apply not_elem_of_cons in Hg as [Hne Hg]. specialize (IH Hg). destruct (id c <? j).
        + rewrite !elem_of_cons. split; [intros [[= -> ->]|?]; [by right|by left]|]. intros [?|[-> <-]]; [by right|by left].
        + replace (id c =? j) with false by lia. rewrite !elem_of_cons, IH. tauto. }
    assert (length (BTree.insert (id c) c ordered) = S (length ordered)) as Hlen.
    { apply BTree.get_None in Hg. clear -Hg. induction ordered as [|[j b] l IH]; cbn; [done|]. cbn in Hg.
      apply not_elem_of_cons in Hg as [Hne Hg]. destruct (id c <? j); [done|]. replace (id c =? j) with false by lia. cbn. by rewrite IH. }
    apply IH in Hr as (Hfr & Hmem & Hl).
    + split; [done|]. split; [|cbn [length]; lia]. intros i d. rewrite Hmem, Hin, elem_of_cons.
      split; [intros [[?|[-> <-]]|[? ?]]; tauto|]. intros [?|[[->|?] ?]]; tauto.
    + split; [apply BTree.ordered_insert, Hf|]. intros i d [Hi|[-> <-]]%Hin; [by apply Hf|done].
Qed.

Lemma order_contacts_total (contacts : list contact) ordered : order_contacts ordered contacts <> Panic.
Proof. revert ordered. induction contacts as [|c contacts IH]; intros ordered; cbn; [done|]. by destruct (BTree.get _ _). Qed.

Abbreviation engine := (GestureEngine (F := F)).

Definition engine_wf (e : engine) : Prop := filed (active e) /\ contact_count e <= max_contacts (settings e).

(** The position of contact [i] in a frame. *)
Definition shown_at (contacts : list contact) (i : Z) (c : contact) : Prop := c ∈ contacts /\ id c = i.

(** What an accepted frame does. *)
Record framed (e : engine) (t : Duration) (contacts : list contact) (gs : list gesture) (e' : engine) : Prop := {
  framed_moves : moves (settings e) t (active e) gs (active e');
  framed_count : len contacts <= max_contacts (settings e);
  framed_time : forall t0, last_timestamp e = Some t0 -> t0 <= t;
  framed_kept : settings e' = settings e /\ last_timestamp e' = Some t;
  framed_shown : forall i c, option_map current (BTree.get i (active e')) = Some c <-> shown_at contacts i c;
  framed_holds : forall i c, BTree.get i (active e') = Some c -> hold_done (settings e) t c
}.

Lemma accept_Ok (e e1 : engine) t : accept_timestamp e t = Ok e1 ->
  e1 = mkEngine (settings e) (active e) (Some t) /\ forall t0, last_timestamp e = Some t0 -> t0 <= t.
Proof.
  unfold accept_timestamp. destruct (last_timestamp e) as [t1|]; [destruct (t <? t1) eqn:Ht; [done|]|];
    intros [= <-]; (split; [done|]); intros t0 [= ->]; lia.
Qed.

Lemma ingest_framed (e : engine) t contacts gs e' : engine_wf e -> ingest_frame e t contacts = (Ok gs, e') ->
  framed e t contacts gs e' /\ engine_wf e'.
Proof.
  intros [Hfil _]. unfold ingest_frame, validate_frame. destruct (_ <? _) eqn:Hmax; [done|]. apply Z.ltb_ge in Hmax.
  destruct (order_contacts [] contacts) as [fr| |] eqn:Hord; [|done..].
  destruct (accept_timestamp e t) as [e1| |] eqn:Hacc; [|done..].
  apply accept_Ok in Hacc as [-> Htime]. cbn [active settings last_timestamp].
  apply order_contacts_Ok in Hord as (Hfr & Hmem & Hlen);
    [|split; [constructor|]; intros ? ? Hin; by apply not_elem_of_nil in Hin].
  pose proof (release_each_moves (settings e) t (List.filter (fun i => bool_decide (BTree.get i fr = None)) (BTree.keys (active e)))
    (active e) Hfil) as H1. destruct (release_each _ _) as [g1 a1]. destruct H1 as [Hm1 Hk1].
  pose proof (update_each_moves (settings e) t fr a1 (proj1 Hm1) Hfr) as H2.
  destruct (update_each _ _ _ _) as [g2 a2]. destruct H2 as (Hm2 & Hk2 & Hc2).
  pose proof (emit_holds_moves (settings e) t a2 (proj1 Hm2)) as H3.
  destruct (emit_holds _ _ _) as [g3 a3]. destruct H3 as (Hm3 & Hk3 & _ & Hc3 & Hd3). intros [= <- <-].
  assert (forall j, j ∈ BTree.keys a1 -> BTree.get j fr <> None) as Hgone.
  { intros j [Hj Hn]%Hk1 Hget. apply Hn, list_elem_of_In, filter_In. rewrite bool_decide_eq_true_2 by done.
    split; [by apply list_elem_of_In|done]. }
  assert (moves (settings e) t (active e) (g1 ++ g2 ++ g3) a3) as Hm by (eapply moves_app; [done|]; by eapply moves_app).
  assert (forall i, option_map current (BTree.get i a3) = BTree.get i fr) as Hcur.
  { intros i. rewrite Hc3, Hc2. destruct (BTree.get i fr) as [c|] eqn:Hg; [done|].
    destruct (BTree.get i a1) as [c|] eqn:Hg1; [|done]. exfalso. apply (Hgone i); [|done].
    destruct (decide (i ∈ BTree.keys a1)) as [|Hn]; [done|]. apply BTree.get_None in Hn. congruence. }
  split; [split; cbn; try done|].
  - intros i c. rewrite Hcur, frame_get by done. rewrite Hmem. unfold shown_at. split; [|by right].
    intros [Hin|?]; [by apply not_elem_of_nil in Hin|done].
  - split; [apply Hm|]. unfold contact_count. cbn [active settings with_active].
    assert (length a3 <= length fr)%nat; [|cbn in Hlen; lia].
    rewrite <- (length_fmap fst a3), <- (length_fmap fst fr). apply submseteq_length, NoDup_submseteq.
    + apply BTree.ordered_nodup, Hm3.
    + intros i Hi. change (a3.*1) with (BTree.keys a3) in Hi. rewrite Hk3, Hk2 in Hi. destruct Hi as [|Hi]; [done|].
      apply Hgone in Hi. destruct (decide (i ∈ BTree.keys fr)) as [|Hn]; [done|]. by apply BTree.get_None in Hn.
Qed.

Lemma ingest_refused (e : engine) t contacts err e' : ingest_frame e t contacts = (Err err, e') -> e' = e.
Proof.
  unfold ingest_frame, validate_frame. destruct (_ <? _); [by intros [= _ <-]|].
  destruct (order_contacts [] contacts) as [fr| |]; [|by intros [= _ <-]|done].
  destruct (accept_timestamp e t) as [e1| |]; [|by intros [= _ <-]|done].
  destruct (release_each _ _), (update_each _ _ _ _), (emit_holds _ _ _). done.
Qed.

Lemma ingest_total (e : engine) t contacts e' : ingest_frame e t contacts <> (Panic, e').
Proof.
  unfold ingest_frame, validate_frame. destruct (_ <? _); [done|].
  pose proof (order_contacts_total contacts []). destruct (order_contacts [] contacts); [|done|done].
  unfold accept_timestamp. destruct (last_timestamp e) as [t0|]; [destruct (t <? t0); [done|]|];
    destruct (release_each _ _), (update_each _ _ _ _), (emit_holds _ _ _); done.
Qed.

(** *** Histories *)

Inductive op : Type := Frame (t : Duration) (contacts : list contact) | Tick (t : Duration) | ReleaseAll (t : Duration) | CancelAll.

(** What an accepted operation says; a rejected one says nothing. *)
Definition said (t : Duration) (r : res GestureError (list gesture)) : list entry :=
  match r with Ok gs => [Emitted t gs] | _ => [] end.

Definition apply_op (e : engine) (o : op) : list entry * engine :=
  match o with
  | Frame t contacts => let (r, e) := ingest_frame e t contacts in (said t r, e)
  | Tick t => let (r, e) := tick e t in (said t r, e)
  | ReleaseAll t => let (r, e) := release_all e t in (said t r, e)
  | CancelAll => ([Cancelled], cancel_all e)
  end.

Fixpoint run_ops (e : engine) (ops : list op) : list entry * engine :=
  match ops with
  | [] => ([], e)
  | o :: ops => let (l, e) := apply_op e o in let (l', e) := run_ops e ops in (l ++ l', e)
  end.

Definition entry_time (e : entry) : list Duration := match e with Emitted t _ => [t] | Cancelled => [] end.

(** A piece of a history: every contact lives on, and time goes forward. *)
Definition piece (e : engine) (l : list entry) (e' : engine) : Prop :=
  engine_wf e' /\ settings e' = settings e /\
  (forall i, lived (settings e) (BTree.get i (active e)) (only_entry i <$> l) (BTree.get i (active e'))) /\
  StronglySorted Z.le (concat (entry_time <$> l)) /\
  (forall t0, last_timestamp e = Some t0 -> Forall (Z.le t0) (concat (entry_time <$> l)) /\
     exists t1, last_timestamp e' = Some t1 /\ t0 <= t1) /\
  (forall t, t ∈ concat (entry_time <$> l) -> exists t1, last_timestamp e' = Some t1 /\ t <= t1).

Lemma piece_silent (e : engine) : engine_wf e -> piece e [] e.
Proof.
  intros Hwf. split_and!; try done; [intros; constructor|constructor| |].
  - intros t0 Ht. split; [constructor|]. exists t0. split; [done|lia].
  - intros t Ht. by apply not_elem_of_nil in Ht.
Qed.

Lemma piece_said (e : engine) t gs e' : engine_wf e' -> settings e' = settings e -> last_timestamp e' = Some t ->
  (forall t0, last_timestamp e = Some t0 -> t0 <= t) ->
  (forall i, steps (settings e) t (BTree.get i (active e)) (only i gs) (BTree.get i (active e'))) -> piece e [Emitted t gs] e'.
Proof.
  intros Hwf Hs Ht Hle Hst. split_and!; try done.
  - intros i. cbn. eapply lived_emitted; [apply Hst|constructor].
  - cbn. repeat constructor.
  - intros t0 H0. apply Hle in H0. split; [cbn; by repeat constructor|eauto].
  - intros t0. cbn. rewrite list_elem_of_singleton. intros ->. exists t. split; [done|lia].
Qed.

Lemma lived_app s p l q l' r : lived s p l q -> lived s q l' r -> lived s p (l ++ l') r.
Proof. induction 1; intros Hr; [done|..]; cbn; econstructor; eauto. Qed.

Lemma sorted_app_le (l l' : list Z) : StronglySorted Z.le l -> StronglySorted Z.le l' ->
  (forall t, t ∈ l -> Forall (Z.le t) l') -> StronglySorted Z.le (l ++ l').
Proof.
  intros Hl Hl' Hc. induction Hl as [|t l Hl IH Ht]; [done|]. cbn. constructor.
  - apply IH. intros; apply Hc; by right.
  - apply Forall_app. split; [done|]. apply Hc. by left.
Qed.

Lemma piece_app (e : engine) l e1 l' e2 : piece e l e1 -> piece e1 l' e2 -> piece e (l ++ l') e2.
Proof.
  intros (_ & Hs & Hl & Ho & Hb & Ht) (Hwf & Hs' & Hl' & Ho' & Hb' & Ht'). rewrite Hs in *.
  unfold piece. rewrite !fmap_app, !concat_app. split_and!; try done.
  - intros i. rewrite fmap_app. eapply lived_app; [apply Hl|]. apply Hl'.
  - apply sorted_app_le; [done..|]. intros t (t1 & H1 & Hle)%Ht. destruct (Hb' t1 H1) as [Hf _].
    eapply Forall_impl; [exact Hf|]. cbn. lia.
  - intros t0 H0. destruct (Hb t0 H0) as (Hf & t1 & H1 & Hle). destruct (Hb' t1 H1) as (Hf' & t2 & H2 & Hle').
    split; [|exists t2; split; [done|lia]]. apply Forall_app. split; [done|]. eapply Forall_impl; [exact Hf'|]. cbn. lia.
  - intros t. rewrite elem_of_app. intros [(t1 & H1 & Hle)%Ht|Hin%Ht']; [|done]. destruct (Hb' t1 H1) as (_ & t2 & H2 & Hle').
    exists t2. split; [done|lia].
Qed.

Lemma emit_entries s t (a : actives) gs a' : filed a -> emit_holds s t a = (gs, a') ->
  moves s t a gs a' /\ length a' = length a.
Proof.
  intros Ha He. pose proof (emit_holds_moves s t a Ha) as Hm. rewrite He in Hm. destruct Hm as (Hm & Hk & _). split; [done|].
  apply (f_equal length) in Hk. unfold BTree.keys in Hk. by rewrite !length_fmap in Hk.
Qed.

Lemma apply_piece (e : engine) o l e' : 0 <= max_contacts (settings e) -> engine_wf e -> apply_op e o = (l, e') -> piece e l e'.
Proof.
  intros Hmax Hwf. destruct o as [t contacts|t|t|]; cbn [apply_op].
  - destruct (ingest_frame e t contacts) as [[gs|err|] e1] eqn:Hi; intros [= <- <-]; cbn [said].
    + destruct (ingest_framed e t contacts gs e1 Hwf Hi) as [[[_ Hm] _ Ht [Hs Hl] _ _] Hwf']. by apply piece_said.
    + apply ingest_refused in Hi as ->. by apply piece_silent.
    + by apply ingest_total in Hi.
  - unfold tick. destruct (accept_timestamp e t) as [e1|err|] eqn:Ha; [|intros [= <- <-]; by apply piece_silent|].
    + apply accept_Ok in Ha as [-> Ht]. cbn [settings active]. destruct (emit_holds (settings e) t (active e)) as [gs a] eqn:He.
      intros [= <- <-]. apply emit_entries in He as [[Hf Hm] Hlen]; [|apply Hwf]. apply piece_said; try done.
      split; [done|]. unfold contact_count. cbn. rewrite Hlen. apply Hwf.
    + unfold accept_timestamp in Ha. destruct (last_timestamp e) as [t0|]; [by destruct (t <? t0)|done].
  - unfold release_all. destruct (accept_timestamp e t) as [e1|err|] eqn:Ha; [|intros [= <- <-]; by apply piece_silent|].
    + apply accept_Ok in Ha as [-> Ht]. cbn [settings active].
      pose proof (release_each_moves (settings e) t (BTree.keys (active e)) (active e) (proj1 Hwf)) as Hr.
      destruct (release_each _ _) as [gs a]. destruct Hr as [[Hf Hm] Hk]. intros [= <- <-]. apply piece_said; try done.
      split; [done|]. unfold contact_count. cbn. destruct a as [|[i c] a]; [cbn; lia|]. exfalso.
      destruct (proj1 (Hk i)) as [? Hn]; [by left|done].
    + unfold accept_timestamp in Ha. destruct (last_timestamp e) as [t0|]; [by destruct (t <? t0)|done].
  - intros [= <- <-]. split_and!; try done.
    + split; [split; [constructor|done]|]. cbn. done.
    + intros i. cbn. apply lived_cancelled. constructor.
    + constructor.
    + intros t0 Ht. split; [constructor|]. exists t0. split; [done|lia].
    + intros t Ht. by apply not_elem_of_nil in Ht.
Qed.

Lemma run_piece ops (e : engine) l e' : 0 <= max_contacts (settings e) -> engine_wf e -> run_ops e ops = (l, e') -> piece e l e'.
Proof.
  revert e l. induction ops as [|o ops IH]; intros e l Hmax Hwf; cbn [run_ops]; [intros [= <- <-]; by apply piece_silent|].
  destruct (apply_op e o) as [l1 e1] eqn:Ho. destruct (run_ops e1 ops) as [l2 e2] eqn:Hr. intros [= <- <-].
  apply apply_piece in Ho; [|done..]. eapply piece_app; [done|]. destruct Ho as (Hwf1 & Hs & _).
  apply IH; [by rewrite Hs|done|done].
Qed.

(** C21. In every history of frames, ticks, releases and cancellations, and whatever the
    floating-point operations compute, each contact lives the same life: a press; moves
    until it first goes beyond the drag distance, then drags, each from the position
    before; at most one hold, only while it has not dragged and not before its time; one
    release, with a tap exactly if it neither dragged nor held. The engine never has more
    contacts than allowed, rejected frames say nothing, and time does not go back. *)
Theorem contact_lifecycle (s : settings_of) ops l e :
  0 <= max_contacts s -> run_ops (engine_new s) ops = (l, e) ->
  (forall i, lived s None (only_entry i <$> l) (BTree.get i (active e))) /\
  contact_count e <= max_contacts s /\ StronglySorted Z.le (concat (entry_time <$> l)).
Proof.
  intros Hmax Hr. apply run_piece in Hr as ((_ & Hc) & Hs & Hl & Ho & _); [|done|].
  - cbn in Hs, Hl. rewrite Hs in Hc. by split_and!.
  - split; [split; [constructor|done]|]. done.
Qed.

(** C22. A frame is taken as a whole. A rejected frame, with too many contacts, a repeated
    identifier or an earlier time, leaves the engine as it was. After an accepted one the
    active contacts are exactly those of the frame, where the frame shows them, each has
    taken its steps, and every contact that is due to hold has held. *)
Theorem frame_exact (e : engine) t contacts r e' :
  engine_wf e -> ingest_frame e t contacts = (r, e') ->
  match r with
  | Ok gs => framed e t contacts gs e' /\ engine_wf e'
  | Err _ => e' = e
  | Panic => False
  end.
Proof.
  intros Hwf Hi. destruct r as [gs|err|]; [by eapply ingest_framed|by eapply ingest_refused|by apply ingest_total in Hi].
Qed.
End Lifecycle.

(** ** A concrete history, with integers for coordinates *)

#[local] Instance integers : F64 Z :=
  {| is_finite _ := true; is_negative x := x <? 0; sub a b := a - b; hypot a b := Z.sqrt (a * a + b * b); ge a b := b <=? a |}.

Definition ex_settings : GestureSettings (F := Z) := mkSettings 10 500 2.
Definition ex_at (i px : Z) : DisplayContact (F := Z) := mkContact i px 3.
Definition ex_ops : list (op (F := Z)) :=
  [Frame 0 [ex_at 7 20; ex_at 4 90]; Frame 100 [ex_at 4 95; ex_at 7 60]; Tick 600; Frame 50 []; ReleaseAll 700].
Definition ex_log : list (entry (F := Z)) :=
  [Emitted 0 [Press (ex_at 4 90); Press (ex_at 7 20)];
   Emitted 100 [Move (ex_at 4 90) (ex_at 4 95); DragStart (ex_at 7 20); Drag (ex_at 7 20) (ex_at 7 60)];
   Emitted 600 [Hold (ex_at 4 95)];
   Emitted 700 [Release (ex_at 4 95); Release (ex_at 7 60)]].

Lemma contact_lifecycle_witness :
  run_ops (engine_new ex_settings) ex_ops = (ex_log, mkEngine ex_settings [] (Some 700)) /\
  lived ex_settings None (only_entry 7 <$> ex_log) None.
Proof.
  assert (run_ops (engine_new ex_settings) ex_ops = (ex_log, mkEngine ex_settings [] (Some 700))) as Hr by (vm_compute; reflexivity).
  split; [exact Hr|].
  exact (proj1 (contact_lifecycle ex_settings ex_ops ex_log (mkEngine ex_settings [] (Some 700)) ltac:(vm_compute; discriminate) Hr) 7).
Defined.

Lemma frame_exact_witness :
  exists gs e', ingest_frame (engine_new ex_settings) 0 [ex_at 7 20; ex_at 4 90] = (Ok gs, e') /\
  framed (engine_new ex_settings) 0 [ex_at 7 20; ex_at 4 90] gs e'.
Proof.
  assert (fst (ingest_frame (engine_new ex_settings) 0 [ex_at 7 20; ex_at 4 90]) = Ok [Press (ex_at 4 90); Press (ex_at 7 20)])
    as Hr by (vm_compute; reflexivity).
  destruct (ingest_frame (engine_new ex_settings) 0 [ex_at 7 20; ex_at 4 90]) as [r e'] eqn:Hi. cbn [fst] in Hr.
  remember [Press (ex_at 4 90); Press (ex_at 7 20)] as gs eqn:Hgs. clear Hgs. subst r.
  exists gs, e'. split; [reflexivity|].
  apply (frame_exact (engine_new ex_settings) 0 [ex_at 7 20; ex_at 4 90] (Ok gs) e'); [|exact Hi].
  split; [split; [constructor|done]|]. vm_compute. discriminate.
Defined.
End Gesture.
