(* ===== verification/XartStore.v ===== *)
(** * The xART record store

    [t1-daemons/src/xart_store.rs]: one opaque anti-replay record in a private directory,
    replaced through a temporary file. A store is its directory, which is the root of
    [FileSystem.v], and the volume it answers with; its methods are functions on the files.

    The theorems say what a fetch answers after the machine stops at any point of a save. *)

From S2P Require Import Prelude Effects Text FileSystem CatacombStore CatacombSafety CatacombAtomic.
From Stdlib Require Strings.String.

Import FileSystem Strings.String.StringSyntax.

Module XartStore.

Definition XART_MAX_PAYLOAD_SIZE : Z := 0x3fef.

Open Scope string_scope.
Definition RECORD_FILE_NAME : name := Text.str "record.xart".
Definition TEMPORARY_PREFIX : bytes := Text.str ".record.".
Definition TEMPORARY_SUFFIX : bytes := Text.str ".tmp".
Close Scope string_scope.

Inductive XartStoreError : Type :=
| InvalidWireBlob | StorageUnavailable | UnsafeStorage | InvalidStoredBlob.

Record FetchedXart : Type := mkFetched {
  wire_blob : bytes;
  volume_id : bytes;
  volume_external : bool
}.

Record XartStore : Type := mkStore {
  store_volume_id : bytes;
  store_volume_external : bool
}.

Abbreviation xart_io A := (M world XartStoreError A).

(** [.map_err(|_| XartStoreError::StorageUnavailable)]. *)
Definition or_unavailable {A} (m : M world IoError A) : xart_io A := mapM_err (fun _ => StorageUnavailable) m.

(** ** The checks *)

(** The subtraction is checked; it cannot fail once four bytes are there. *)
Definition validate_wire_blob (wire_blob : bytes) : res XartStoreError bytes :=
  if (length wire_blob <? 4)%nat then Err InvalidWireBlob else
  let! declared_size := read_le wire_blob 0 4 in
  if (declared_size =? 0) || (XART_MAX_PAYLOAD_SIZE <? declared_size) || negb (len wire_blob - 4 =? declared_size)
  then Err InvalidWireBlob
  else slice_from wire_blob 4.

(** [fs::read_to_string] of [/proc/self/status] and the second number of its line [Uid:],
    as the other stores read it. *)
Definition effective_uid : xart_io Z := fun w =>
  (do! status := or_unavailable (sys (fun s => (ok_or (proc_status w) OtherError, s))) in
   lift (map_err (fun _ => StorageUnavailable) (CatacombStore.status_uid status))) w.

Definition validate_record_metadata (m : Metadata) : xart_io () :=
  if negb (is_file m) || negb (Z.land (mode m) CatacombStore.PERMISSIONS =? CatacombStore.PRIVATE_FILE)
  then lift (Err UnsafeStorage)
  else
    do! expected := effective_uid in
    if negb (uid m =? expected) then lift (Err UnsafeStorage) else ret ().

Definition validate_directory_identity (m : Metadata) : xart_io () :=
  if negb (is_dir m) then lift (Err UnsafeStorage)
  else
    do! expected := effective_uid in
    if negb (uid m =? expected) then lift (Err UnsafeStorage) else ret ().

(** ** The methods *)

Section Store.
Context (store : XartStore).

Definition fetched (payload : bytes) : res XartStoreError FetchedXart :=
  let! payload_length := ok_or (try_from_u 32 (len payload)) InvalidStoredBlob in
  Ok (mkFetched (le_bytes 4 payload_length ++ payload) (store_volume_id store) (store_volume_external store)).

(** The part of [fetch] that has opened the record. *)
Definition read_record (file : ino) : xart_io FetchedXart :=
  do! m := or_unavailable (metadata file) in
  do! _ := validate_record_metadata m in
  if (size m =? 0) || (XART_MAX_PAYLOAD_SIZE <? size m) then lift (Err InvalidStoredBlob) else
  do! payload := mapM_err (fun _ => InvalidStoredBlob) (read_exact file (size m)) in
  do! trailing := or_unavailable (read_one file (size m)) in
  if negb (trailing =? 0) then lift (Err InvalidStoredBlob) else lift (fetched payload).

Definition fetch : xart_io FetchedXart := fun w =>
  match open_read false [RECORD_FILE_NAME] w with
  | (Ok file, w) => read_record file w
  | (Err NotFound, w) => (fetched [], w)
  | (Err _, w) => (Err StorageUnavailable, w)
  | (Panic, w) => (Panic, w)
  end.

Definition prepare_directory : xart_io ino :=
  do! _ := or_unavailable (mkdir_root 511) in
  do! directory := mapM_err (fun _ => UnsafeStorage) (open_read true []) in
  do! m := or_unavailable (metadata directory) in
  do! _ := validate_directory_identity m in
  do! _ := or_unavailable (set_permissions directory CatacombStore.PRIVATE_DIRECTORY) in
  do! secured := or_unavailable (metadata directory) in
  if negb (Z.land (mode secured) CatacombStore.PERMISSIONS =? CatacombStore.PRIVATE_DIRECTORY)
  then lift (Err UnsafeStorage) else ret directory.

(** [TEMPORARY_FILE_SEQUENCE.fetch_add(1)] and the name made of it. *)
Definition temporary_name (w : world) : name * world :=
  (TEMPORARY_PREFIX ++ Text.to_string (pid w) ++ [46] ++ Text.to_string (sequence w) ++ TEMPORARY_SUFFIX,
   mkWorld (fs w) (faults w) (history w) (euid w) (umask w) (proc_status w) (pid w) (clock w)
     ((sequence w + 1) mod 2 ^ 64)).

(** The loop [for _ in 0..64]: a name that exists is passed over. *)
Fixpoint create_loop (attempts : nat) : xart_io (ino * name) := fun w =>
  match attempts with
  | O => (Err StorageUnavailable, w)
  | S attempts =>
      let (path, w) := temporary_name w in
      match create_new [path] CatacombStore.PRIVATE_FILE w with
      | (Ok file, w) => (Ok (file, path), w)
      | (Err AlreadyExists, w) => create_loop attempts w
      | (Err _, w) => (Err StorageUnavailable, w)
      | (Panic, w) => (Panic, w)
      end
  end.
Definition create_temporary_file : xart_io (ino * name) := create_loop 64.

(** The closure of [save]. *)
Definition write_record (directory temporary : ino) (temporary_path : name) (payload : bytes) : xart_io () :=
  do! _ := or_unavailable (set_permissions temporary CatacombStore.PRIVATE_FILE) in
  do! _ := or_unavailable (write_all temporary payload) in
  do! _ := or_unavailable (sync_all temporary) in
  do! _ := or_unavailable (rename temporary_path RECORD_FILE_NAME) in
  or_unavailable (sync_all directory).

Definition save (wire_blob : bytes) : xart_io () :=
  do! payload := lift (validate_wire_blob wire_blob) in
  do! directory := prepare_directory in
  do! t := create_temporary_file in
  fun w =>
    match write_record directory (fst t) (snd t) payload w with
    | (Ok a, w) => (Ok a, w)
    | (Err e, w) => (Err e, snd (remove_file [snd t] w))
    | (Panic, w) => (Panic, w)
    end.

End Store.

(** ** Wire blobs *)

(** A payload that can be stored, and a payload as it is sent. *)
Definition payload_ok (p : bytes) : Prop := p <> [] /\ len p <= XART_MAX_PAYLOAD_SIZE.
Definition wire (p : bytes) : bytes := le_bytes 4 (len p) ++ p.

Lemma length_wire p : length (wire p) = (4 + length p)%nat.
Proof. unfold wire. by rewrite length_app. Qed.

Lemma validate_wire_blob_spec blob :
  bytes_ok blob ->
  match validate_wire_blob blob with
  | Ok p => payload_ok p /\ blob = wire p
  | Err e => e = InvalidWireBlob /\ forall p, payload_ok p -> blob <> wire p
  | Panic => False
  end.
Proof.
  intros Hb. unfold validate_wire_blob. destruct (length blob <? 4)%nat eqn:H4; b2p.
  { split; [done|]. intros p _ ->. rewrite length_wire in H4. lia. }
  rewrite read_le_ok, drop_0 by lia. set (n := le_val (take 4 blob)).
  assert (le_bytes 4 n = take 4 blob) as Hn.
  { apply le_bytes_val_n; [rewrite length_take; lia|]. by apply Forall_take. }
  destruct ((n =? 0) || _ || _) eqn:Hc.
  - split; [done|]. intros p [Hp Hl] ->. rewrite length_wire in Hc. unfold n, wire in Hc.
    rewrite take_app_length' in Hc by done. unfold XART_MAX_PAYLOAD_SIZE in *.
    rewrite le_val_bytes in Hc by (unfold is_u; lia). destruct p; [done|]. cbn [length] in *. lia.
  - rewrite slice_from_ok by lia. assert (n = len blob - 4) as Hl by lia.
    assert (len (drop 4 blob) = n) as Hd by (rewrite length_drop; lia). split.
    + split; [intros H0; rewrite H0 in Hd; cbn in Hd; lia|lia].
    + unfold wire. by rewrite Hd, Hn, take_drop.
Qed.

(** ** What a fetch answers *)

Import CatacombSafety.

Section Fetch.
Context (u : Z) (store : XartStore).

Definition holding (b : bytes) : FetchedXart := mkFetched b (store_volume_id store) (store_volume_external store).

Lemma fetched_payload p : len p <= XART_MAX_PAYLOAD_SIZE -> fetched store p = Ok (holding (wire p)).
Proof.
  unfold XART_MAX_PAYLOAD_SIZE. intros Hl. unfold fetched, try_from_u.
  assert (is_ub 32 (len p) = true) as -> by (unfold is_ub; lia). done.
Qed.

(** The record: its node and its payload. *)
Definition describes (F : gmap ino node) (x : option ino) (o : option bytes) : Prop :=
  match x, o with
  | None, None => True
  | Some i, Some p => exists m, F !! i = Some (NFile m p true) /\ private_file u m /\ payload_ok p
  | _, _ => False
  end.

Definition wire_of (o : option bytes) : bytes := wire (default [] o).

Lemma returns_xart_uid s : returns u s effective_uid (Ok u).
Proof.
  intros w Hp Hf Hs. destruct (returns_uid u s w Hp Hf Hs) as (w' & Hw & Hrest). exists w'. split; [|done].
  unfold effective_uid, CatacombStore.effective_uid, bind, or_unavailable, CatacombStore.or_unavailable, mapM_err, lift in *.
  destruct (sys _ w) as [[st|e|] w1]; cbn in *; [|done..]. injection Hw as -> <-. done.
Qed.

Lemma returns_fetch s r rm v o :
  root s = Some r -> nodes s !! r = Some (NDir rm [v] []) -> describes (nodes s) (v !! RECORD_FILE_NAME) o ->
  returns u s (fetch store) (Ok (holding (wire_of o))).
Proof.
  intros Hr Hn Hd w Hp Hf Hs. unfold fetch.
  assert (resolve s [RECORD_FILE_NAME] = match v !! RECORD_FILE_NAME with Some i => Ok i | None => Err NotFound end) as Hres.
  { unfold resolve. rewrite Hr. cbn [walk]. rewrite Hn. cbn [current]. by destruct (v !! _). }
  destruct (v !! RECORD_FILE_NAME) as [i|], o as [p|]; try done.
  - destruct Hd as (m & Hi & Hm & Hne & Hl).
    assert (file_at u s i p) as Hat by (by exists m).
    destruct (returns_read_file u s i p Hat) as [Hr1 Hr2].
    destruct (returns_open_file u s _ i m p Hres Hi w Hp Hf Hs) as (w1 & -> & Hp1 & Hf1 & Hs1).
    cut (returns u s (read_record store i) (Ok (holding (wire_of (Some p))))); [by intros Hk; apply Hk|].
    eapply returns_bind; [apply (returns_err u s _ _ (Ok _)); by apply returns_stat_file|].
    destruct Hm as (Hmode & Hu & _). eapply returns_bind.
    { unfold validate_record_metadata. cbn [is_file mode uid negb orb]. rewrite Hmode, Z.eqb_refl. cbn [negb].
      eapply returns_bind; [apply returns_xart_uid|]. rewrite Hu, Z.eqb_refl. apply returns_ret. }
    cbn [size]. replace (_ || _) with false by (destruct p; [done|]; cbn [length] in *; lia).
    eapply returns_bind; [by apply (returns_err u s _ _ (Ok p))|].
    eapply returns_bind; [by apply (returns_err u s _ _ (Ok 0))|]. cbn [Z.eqb negb].
    rewrite fetched_payload by done. apply returns_lift.
  - destruct (returns_open_missing u s false _ Hres w Hp Hf Hs) as (w1 & -> & ?).
    exists w1. by rewrite fetched_payload.
Qed.

(** After a stop, a fetch answers with one of the [allowed] blobs. *)
Definition stop_safe (allowed : bytes -> Prop) (s : FS) : Prop :=
  forall s', stop s s' -> exists b, allowed b /\ returns u s' (fetch store) (Ok (holding b)).

(** Whatever the record is after a stop, it is an [allowed] one. *)
Definition safe (allowed : bytes -> Prop) (F : gmap ino node) (K : gmap name (list (option ino))) : Prop :=
  exists xs, K !! RECORD_FILE_NAME = Some xs /\
  forall x, x ∈ xs -> exists o, allowed (wire_of o) /\ describes F x o.

Lemma xart_safe_stop allowed r F W K N s :
  safe allowed F K -> known r u F W K N s -> stop_safe allowed s.
Proof.
  intros (xs & HK & Hxs) Hs s' Hst.
  destruct (kn_dir _ _ _ _ _ _ _ Hs) as (v & vs & m & ms & Hd & Hpm & Hv & _).
  destruct (stop_nodes _ _ Hst r _ Hd) as (n' & Hn' & Hsn). inversion Hsn as [|? ? ? rm v' Hm' Hv'|]; subst.
  assert (root s' = Some r) as Hr.
  { destruct (stop_root _ _ Hst) as [->|[Hc _]]; [by apply (kn_root _ _ _ _ _ _ _ Hs)|].
    by rewrite (kn_clean _ _ _ _ _ _ _ Hs) in Hc. }
  assert (v' !! RECORD_FILE_NAME ∈ xs) as HKv.
  { destruct (Hv' RECORD_FILE_NAME) as (x & Hin & ->). rewrite Forall_forall in Hv. by apply (Hv x Hin). }
  destruct (Hxs _ HKv) as (o & Ho & Hdesc). exists (wire_of o). split; [done|].
  eapply returns_fetch; [done..|]. destruct (v' !! RECORD_FILE_NAME) as [i|], o as [p|]; try done.
  destruct Hdesc as (fm & Hi & Hrest). exists fm. split; [|done].
  eapply CatacombAtomic.stop_frozen; [done| |done]. eapply lookup_weaken; [exact Hi|]. by apply (kn_F _ _ _ _ _ _ _ Hs).
Qed.

End Fetch.

(** ** Saving *)

Section Save.
Context (u : Z) (store : XartStore) (allowed : bytes -> Prop) (r : ino).
Abbreviation H := (stop_safe u store allowed).

Lemma xart_allows_safe F K : safe u allowed F K -> allows u H r F K.
Proof. intros Hs W N s. by apply xart_safe_stop. Qed.

Lemma reads_xart_uid : only_reads u H effective_uid.
Proof.
  intros P HP w Hp Hh Hs.
  destruct (reads_effective_uid u H P HP w Hp Hh Hs) as (x & w' & Hw & Hp' & Hh' & Hs' & Hx & _).
  unfold effective_uid, CatacombStore.effective_uid, bind, or_unavailable, CatacombStore.or_unavailable, mapM_err, lift in *.
  destruct (sys _ w) as [[st|e|] w1]; cbn in *.
  - eexists _, w1. split; [reflexivity|]. injection Hw as <- <-. split_and!; try done.
    pose proof (status_uid_np st). by destruct (CatacombStore.status_uid st).
  - eexists _, w1. split; [reflexivity|]. by injection Hw as <- <-.
  - by injection Hw as <- <-.
Qed.

Lemma reads_directory_identity m : only_reads u H (validate_directory_identity m).
Proof.
  unfold validate_directory_identity. destruct (negb (is_dir m)); [by apply reads_pure|].
  apply only_reads_bind; [apply reads_xart_uid|]. intros x. destruct (negb _); [by apply reads_pure|apply reads_ret].
Qed.

Section Known.
Context (F : gmap ino node) (K : gmap name (list (option ino))) (HF : allows u H r F K).
Abbreviation st W N := (known r u F W K N).

Lemma run_only_reads {E A} W N (m : M world E A) :
  only_reads u H m -> run u H (st W N) m (post (fun _ => st W N) (st W N)).
Proof.
  intros Hm. eapply run_post; [eapply run_reads; [exact Hm|apply HF]|by intros a s [Hs _]|done].
Qed.

Lemma run_xart_prepare W N :
  run u H (st W N) prepare_directory (post (fun d s => d = r /\ st W N s) (st W N)).
Proof.
  unfold prepare_directory. eapply run_seq; [apply run_err; by eapply run_mkdir_root| |done]. intros [].
  eapply run_seq with (R := fun d s => d = r /\ st W N s); [| |done].
  { eapply run_weaken; [apply run_err; eapply run_reads; [apply reads_open|apply HF]|done|].
    intros [d|e|] s; cbn; [|done|done]. intros [Hs Hd]. split; [|done].
    specialize (Hd d eq_refl). rewrite (known_resolve _ _ _ _ _ _ _ Hs) in Hd. congruence. }
  intros d. apply run_pure. intros ->.
  eapply run_seq; [apply run_err, run_only_reads, reads_metadata| |done]. intros m.
  eapply run_seq; [apply run_only_reads, reads_directory_identity| |done]. intros [].
  eapply run_seq; [apply run_err; by eapply run_chmod_dir| |done]. intros [].
  eapply run_seq; [apply run_err, run_only_reads, reads_metadata| |done]. intros m'.
  destruct (negb _); [by apply run_lift|by apply run_ret].
Qed.

(** A temporary name is none that is constrained. *)
Definition temporary (n : name) : Prop := exists k, n = 46 :: k.

Lemma run_create_loop attempts W N :
  (forall n, temporary n -> K !! n = None) ->
  run u H (st W N) (create_loop attempts)
    (post (fun t s => exists m', m_uid m' = u /\ m_nlink m' = 1 /\ temporary (snd t) /\ W !! fst t = None /\
             F !! fst t = None /\ st (<[fst t := NFile m' [] false]> W) (<[snd t := Some (fst t)]> N) s) (st W N)).
Proof.
  intros HK. induction attempts as [|attempts IH]; intros w Hp Hh Hs; cbn [create_loop].
  { eexists _, w. split; [reflexivity|]. done. }
  unfold temporary_name. set (n := TEMPORARY_PREFIX ++ _). set (w1 := mkWorld _ _ _ _ _ _ _ _ _).
  assert (temporary n) as Ht by (eexists; reflexivity).
  destruct (run_create_new u H r F K HF W N n CatacombStore.PRIVATE_FILE (HK n Ht) w1) as (x & w2 & -> & Hp2 & Hh2 & HQ);
    [exact Hp|exact Hh|exact Hs|].
  destruct x as [i|[| |]|]; cbn in HQ.
  - eexists _, w2. split; [reflexivity|]. split_and!; [done..|]. cbn.
    destruct HQ as (m' & Hu & Hnl & HW & HFi & _ & Hk). by exists m'.
  - eexists _, w2. split; [reflexivity|]. done.
  - by apply IH.
  - eexists _, w2. split; [reflexivity|]. done.
  - done.
Qed.

(** What a save that fails leaves. *)
Definition residue (n : name) (s : FS) : Prop :=
  exists F K W N, safe u allowed F K /\ K !! n = None /\ known r u F W K N s.

(** What a save that succeeds leaves. *)
Definition replaced (p : bytes) (s : FS) : Prop :=
  exists F K W N, safe u (fun b => b = wire p) F K /\ known r u F W K N s.

Lemma run_write_record i n m x0 p N :
  safe u allowed F K -> K !! RECORD_FILE_NAME = Some [x0] -> temporary n -> K !! n = None ->
  N !! n = Some (Some i) -> F !! i = None -> m_uid m = u -> m_nlink m = 1 -> payload_ok p -> allowed (wire p) ->
  run u H (st {[i := NFile m [] false]} N) (write_record r i n p) (post (fun _ => replaced p) (residue n)).
Proof.
  intros HS HK Ht Hn HN HFi Hu Hl Hp Hal. set (m' := mkMeta CatacombStore.PRIVATE_FILE u 1).
  assert (n <> RECORD_FILE_NAME) as Hne by (destruct Ht as [k ->]; done).
  assert (forall W N s, st W N s -> residue n s) as Hres by (intros W' N' s Hs; by exists F, K, W', N').
  set (W1 := {[i := NFile m' p true]} : gmap ino node).
  set (K1 := <[RECORD_FILE_NAME := [Some i; x0]]> K). set (K2 := <[RECORD_FILE_NAME := [Some i]]> K).
  assert (forall b : bytes -> Prop, b (wire p) -> exists o, b (wire_of o) /\ describes u (F ∪ W1) (Some i) o) as Hnew.
  { intros b Hb. exists (Some p). split; [done|]. exists m'. split_and!; [|done|apply Hp..].
    rewrite lookup_union_r by done. apply lookup_singleton_eq. }
  assert (safe u allowed (F ∪ W1) K1) as HS1.
  { destruct HS as (xs & Hxs & Hd). rewrite HK in Hxs. injection Hxs as <-. exists [Some i; x0].
    split; [apply lookup_insert_eq|]. intros x [-> | ->%list_elem_of_singleton]%elem_of_cons; [by apply Hnew|].
    destruct (Hd x0) as (o & Ho & Hdo); [set_solver|]. exists o. split; [done|].
    destruct x0 as [j|], o as [q|]; try done. destruct Hdo as (fm & Hj & ?). exists fm. split; [|done].
    by apply lookup_union_Some_l. }
  assert (forall b : bytes -> Prop, b (wire p) -> safe u b (F ∪ W1) K2) as HS2.
  { intros b Hb. exists [Some i]. split; [apply lookup_insert_eq|]. intros x ->%list_elem_of_singleton. by apply Hnew. }
  unfold write_record.
  eapply run_seq; [apply run_err; eapply run_chmod; [exact HF|apply lookup_singleton_eq]| |apply Hres].
  intros []. cbn [chmod_node]. rewrite Hu, Hl, insert_singleton_eq. fold m'.
  eapply run_seq; [apply run_err; eapply run_write; [exact HF|apply lookup_singleton_eq]| |].
  2: { intros s [c Hs]. by eapply Hres. }
  intros []. rewrite insert_singleton_eq. cbn [app].
  eapply run_seq; [apply run_err; eapply run_sync_file; [exact HF|apply lookup_singleton_eq]| |apply Hres].
  intros []. rewrite insert_singleton_eq. fold W1.
  eapply run_seq; [apply run_err, (run_replace u H r F K HF W1 N n RECORD_FILE_NAME i [x0] Hn HK HN)| |apply Hres].
  { intros W' N' s. by eapply xart_safe_stop. }
  intros []. fold K1. eapply run_post.
  - apply run_err. eapply (run_sync_root u H r (F ∪ W1) K1 (xart_allows_safe _ _ HS1) ∅ _ K2).
    + intros s. eapply xart_safe_stop. by apply HS2.
    + intros k xs' [[<- <-]|[Hk Hx]]%lookup_insert_Some.
      * left. exists (Some i). split; [apply lookup_insert_eq|set_solver].
      * right. exists xs'. split; [|done]. unfold K1. by rewrite lookup_insert_ne.
  - intros [] s Hs. eexists _, K2, _, _. split; [|exact Hs]. by apply HS2.
  - intros s Hs. eexists _, K1, _, _. split_and!; [exact HS1| |exact Hs]. unfold K1. by rewrite lookup_insert_ne.
Qed.
End Known.

Lemma remove_residue n w :
  process u w -> Forall H (history w) -> residue n (fs w) ->
  process u (snd (remove_file [n] w)) /\ Forall H (history (snd (remove_file [n] w))).
Proof.
  intros Hp Hh (F & K & W & N & HS & HK & Hs).
  destruct (run_unlink u H r F K (xart_allows_safe F K HS) W N n (fun n => negb (is_dir_node n)) HK w Hp Hh Hs)
    as (x & w' & Hr & ? & ? & _). unfold remove_file. by rewrite Hr.
Qed.

Lemma run_save F x0 p w blob :
  process u w -> Forall H (history w) -> validate_wire_blob blob = Ok p -> payload_ok p -> allowed (wire p) ->
  safe u allowed F {[RECORD_FILE_NAME := [x0]]} ->
  known r u F ∅ {[RECORD_FILE_NAME := [x0]]} ∅ (fs w) ->
  exists x w', save blob w = (x, w') /\ x <> Panic /\ Forall H (history w') /\ (x = Ok () -> replaced p (fs w')).
Proof.
  intros Hp Hh Hv Hpo Hal HS Hk. set (K := {[RECORD_FILE_NAME := [x0]]} : gmap name (list (option ino))) in *.
  assert (forall n, temporary n -> K !! n = None) as HK by (intros n [k ->]; by apply lookup_singleton_ne).
  pose proof (xart_allows_safe F K HS) as HF.
  unfold save. unfold bind at 1, lift. rewrite Hv. unfold bind at 1.
  destruct (run_xart_prepare F K HF ∅ ∅ w Hp Hh Hk) as (x1 & w1 & -> & Hp1 & Hh1 & HQ1).
  destruct x1 as [d|e|]; cbn in HQ1; [|by exists (Err e), w1|done]. destruct HQ1 as [-> Hk1]. unfold bind at 1.
  destruct (run_create_loop F K HF 64 ∅ ∅ HK w1 Hp1 Hh1 Hk1) as (x2 & w2 & E2 & Hp2 & Hh2 & HQ2).
  unfold create_temporary_file. rewrite E2.
  destruct x2 as [[i n]|e|]; cbn in HQ2; [|by exists (Err e), w2|done].
  destruct HQ2 as (m & Hu & Hl & Ht & _ & HFi & Hk2). cbn [fst snd].
  destruct (run_write_record F K HF i n m x0 p (<[n := Some i]> ∅)) with (w := w2)
    as (x3 & w3 & -> & Hp3 & Hh3 & HQ3); try done; [by apply HK|apply lookup_insert_eq|].
  destruct x3 as [[]|e|]; cbn in HQ3; [by exists (Ok ()), w3| |done].
  exists (Err e), (snd (remove_file [n] w3)). split_and!; [done|done| |done].
  by apply remove_residue.
Qed.
End Save.

(** ** Any files and any faults

    The methods do not panic, whatever they find, and files hold bytes. *)

Section Total.

Definition node_ok (n : node) : Prop := match n with NFile _ c _ => bytes_ok c | _ => True end.
Definition files_ok (s : FS) : Prop := forall i n, nodes s !! i = Some n -> node_ok n.

Definition keeps {E A} (m : M world E A) : Prop :=
  forall w, files_ok (fs w) -> fst (m w) <> Panic /\ files_ok (fs (snd (m w))).

Lemma keeps_ret {E A} (a : A) : keeps (E := E) (ret a).
Proof. by intros w Hw. Qed.

Lemma keeps_lift {E A} (r : res E A) : r <> Panic -> keeps (lift r).
Proof. by intros Hr w Hw. Qed.

Lemma keeps_bind {E A B} (m : M world E A) (k : A -> M world E B) :
  keeps m -> (forall a, keeps (k a)) -> keeps (bind m k).
Proof.
  intros Hm Hk w Hw. destruct (Hm w Hw) as [Hn Hs]. unfold bind. destruct (m w) as [[a|e|] w']; cbn in *; [|done..].
  by apply Hk.
Qed.

Lemma keeps_err {E F A} (f : E -> F) (m : M world E A) : keeps m -> keeps (mapM_err f m).
Proof.
  intros Hm w Hw. destruct (Hm w Hw) as [Hn Hs]. unfold mapM_err. destruct (m w) as [[a|e|] w']; by cbn in *.
Qed.

Lemma keeps_at {E A} (m : world -> M world E A) : (forall w, keeps (m w)) -> keeps (fun w => m w w).
Proof. intros Hm w. by apply Hm. Qed.

Lemma keeps_sys {A} (op : FS -> res IoError A * FS) :
  (forall s, files_ok s -> fst (op s) <> Panic /\ files_ok (snd (op s))) -> keeps (sys op).
Proof.
  intros Ho w Hw. specialize (Ho (fs w) Hw). unfold sys.
  destruct (faults w) as [|[n|] rest]; [|done|]; destruct (op (fs w)) as [r s]; done.
Qed.

Lemma keeps_read {A} (f : FS -> res IoError A) : (forall s, f s <> Panic) -> keeps (sys (fun s => (f s, s))).
Proof. intros Hf. apply keeps_sys. intros s Hs. split; [apply Hf|done]. Qed.

Lemma files_set_node s i n : files_ok s -> node_ok n -> files_ok (set_node s i n).
Proof. intros Hs Hn j n' Hj. cbn [set_node add_node nodes] in Hj. apply lookup_insert_Some in Hj as [[_ <-]|[_ Hj]]; [done|]. by apply (Hs j). Qed.

Lemma files_set_entries s d f : files_ok s -> files_ok (set_entries s d f).
Proof. intros Hs. unfold set_entries. repeat case_match; try done. by apply files_set_node. Qed.

Lemma files_add_node s n : files_ok s -> node_ok n -> files_ok (add_node s n).
Proof. intros Hs Hn j n' Hj. cbn [set_node add_node nodes] in Hj. apply lookup_insert_Some in Hj as [[_ <-]|[_ Hj]]; [done|]. by apply (Hs j). Qed.

Lemma keeps_open d p : keeps (open_read d p).
Proof.
  apply keeps_read. intros s. pose proof (resolve_np s p). destruct (resolve s p); [|done|done]. by repeat case_match.
Qed.

Lemma keeps_metadata i : keeps (metadata i).
Proof. apply keeps_read. intros s. apply stat_np. Qed.

Lemma keeps_mkdir_root m : keeps (mkdir_root m).
Proof.
  apply (keeps_at (fun w => sys (fun s => match root s with
                | Some _ => (Ok (), s)
                | None =>
                    let n := NDir (mkMeta (masked w m) (euid w) 2) [∅] [] in
                    let s' := add_node s n in
                    (Ok (), mkFS (nodes s') (Some (next s)) false (next s'))
                end))).
  intros w. apply keeps_sys. intros s Hs. destruct (root s); [done|]. split; [done|].
  by apply (files_add_node s (NDir (mkMeta (masked w m) (euid w) 2) [∅] [])).
Qed.

Lemma keeps_set_permissions i m : keeps (set_permissions i m).
Proof.
  apply keeps_sys. intros s Hs. unfold chmod. destruct (nodes s !! i) as [n|] eqn:Hn; [|done]. split; [done|].
  apply files_set_node; [done|]. specialize (Hs i n Hn). by destruct n.
Qed.

Lemma keeps_create_new n m : keeps (create_new [n] m).
Proof.
  apply (keeps_at (fun w => sys (create [n] (NFile (mkMeta (masked w m) (euid w) 1) [] false)))). intros w.
  apply keeps_sys. intros s Hs. unfold create, parent. cbn [rev app]. pose proof (resolve_np s []).
  destruct (resolve s []) as [d|e|]; cbn; [|done|done].
  repeat case_match; try done. split; [done|]. apply files_set_entries, files_add_node; [done|constructor].
Qed.

Lemma keeps_write_all i bs : bytes_ok bs -> keeps (write_all i bs).
Proof.
  intros Hb w Hw. assert (forall bs', bytes_ok bs' -> files_ok (append (fs w) i bs')) as Ha.
  { intros bs' Hb'. unfold append. destruct (nodes (fs w) !! i) as [[m c cl| |]|] eqn:Hn; try done.
    apply files_set_node; [done|]. apply bytes_ok_app. split; [by apply (Hw i _ Hn)|done]. }
  unfold write_all. destruct (faults w) as [|[n|] rest]; (split; [done|]); cbn; apply Ha; [done|by apply Forall_take|done].
Qed.

Lemma keeps_sync_all i : keeps (sync_all i).
Proof.
  apply keeps_sys. intros s Hs. destruct (nodes s !! i) as [[m c cl|m vs ms|]|] eqn:Hn; try done;
    (split; [done|]); apply files_set_node; [done|by apply (Hs i _ Hn)|done|done].
Qed.

Lemma keeps_rename a b : keeps (rename a b).
Proof.
  apply keeps_sys. intros s Hs. pose proof (resolve_np s []). pose proof (resolve_np s [a]).
  destruct (resolve s []); [|done|done]. destruct (resolve s [a]); [|done|done].
  cbv zeta. destruct (match resolve s [b] with Ok _ => _ | _ => _ end); [|done]. split; [done|]. by apply files_set_entries.
Qed.

Lemma keeps_remove_file n : keeps (remove_file [n]).
Proof.
  apply keeps_sys. intros s Hs. unfold parent. cbn [rev app]. pose proof (resolve_np s []). pose proof (resolve_np s [n]).
  destruct (resolve s []); cbn; [|by destruct (resolve s [n])|done]. destruct (resolve s [n]); [|done|done].
  destruct (negb _); [|done]. split; [done|]. by apply files_set_entries.
Qed.

Lemma keeps_uid : keeps effective_uid.
Proof.
  apply (keeps_at (fun w => do! status := or_unavailable (sys (fun s => (ok_or (proc_status w) OtherError, s))) in
    lift (map_err (fun _ => StorageUnavailable) (CatacombStore.status_uid status)))). intros w.
  apply keeps_bind; [apply keeps_err, keeps_read; intros s; by destruct (proc_status w)|]. intros status.
  apply keeps_lift. pose proof (status_uid_np status). by destruct (CatacombStore.status_uid status).
Qed.

#[local] Hint Resolve keeps_ret keeps_open keeps_metadata keeps_mkdir_root keeps_set_permissions keeps_create_new
  keeps_sync_all keeps_rename keeps_remove_file keeps_uid keeps_err : core.

Lemma keeps_owner (m : Metadata) :
  keeps (do! expected := effective_uid in
         if negb (uid m =? expected) then lift (Err UnsafeStorage) else ret ()).
Proof. apply keeps_bind; [done|]. intros x. destruct (negb _); [by apply keeps_lift|done]. Qed.

Lemma keeps_prepare : keeps prepare_directory.
Proof.
  unfold prepare_directory, or_unavailable. apply keeps_bind; [auto|]. intros []. apply keeps_bind; [auto|]. intros d.
  apply keeps_bind; [auto|]. intros m. apply keeps_bind.
  { unfold validate_directory_identity. destruct (negb _); [by apply keeps_lift|apply keeps_owner]. }
  intros []. apply keeps_bind; [auto|]. intros []. apply keeps_bind; [auto|]. intros m'.
  destruct (negb _); [by apply keeps_lift|done].
Qed.

Lemma keeps_create_loop attempts : keeps (create_loop attempts).
Proof.
  induction attempts as [|attempts IH]; intros w Hw; [done|]. cbn [create_loop]. unfold temporary_name.
  set (w1 := mkWorld _ _ _ _ _ _ _ _ _). set (n := TEMPORARY_PREFIX ++ _).
  destruct (keeps_create_new n CatacombStore.PRIVATE_FILE w1 Hw) as [Hn Hs].
  destruct (create_new [n] CatacombStore.PRIVATE_FILE w1) as [[i|[| |]|] w2]; try done. by apply IH.
Qed.

Lemma keeps_save blob : bytes_ok blob -> keeps (save blob).
Proof.
  intros Hb. pose proof (validate_wire_blob_spec blob Hb) as Hv. unfold save.
  destruct (validate_wire_blob blob) as [p|e|]; [|by intros w Hw|done].
  assert (bytes_ok p) as Hp by (destruct Hv as [_ ->]; apply bytes_ok_app in Hb; apply Hb).
  match goal with |- keeps (bind _ ?k) => change (keeps (k p)) end. cbv beta. apply keeps_bind; [apply keeps_prepare|]. intros d. apply keeps_bind; [apply keeps_create_loop|]. intros [i n] w Hw.
  assert (keeps (write_record d i n p)) as Hk.
  { unfold write_record, or_unavailable. repeat (apply keeps_bind; [auto using keeps_write_all|intros []]). auto. }
  destruct (Hk w Hw) as [Hn Hs]. cbn [fst snd]. destruct (write_record d i n p w) as [[[]|e|] w']; [done| |done].
  split; [done|]. cbn in Hs. by apply keeps_remove_file.
Qed.

(** What a fetch answers is bytes, no more than a record and its length. *)
Lemma fetch_bytes store w :
  files_ok (fs w) ->
  match fetch store w with
  | (Ok f, w') => f = holding store (wire_blob f) /\ bytes_ok (wire_blob f) /\ len (wire_blob f) <= XART_MAX_PAYLOAD_SIZE + 4 /\
                  files_ok (fs w')
  | (Err _, w') => files_ok (fs w')
  | (Panic, _) => False
  end.
Proof.
  intros Hw. unfold fetch. destruct (keeps_open false [RECORD_FILE_NAME] w Hw) as [Hn Hs].
  destruct (open_read false [RECORD_FILE_NAME] w) as [[i|[| |]|] w1]; cbn in *; try done.
  2: { split_and!; [done| |done|done]. change (bytes_ok [0; 0; 0; 0]); repeat constructor; unfold is_u; lia. }
  unfold read_record, bind at 1, or_unavailable, mapM_err.
  destruct (keeps_metadata i w1 Hs) as [Hn1 Hs1]. destruct (metadata i w1) as [[m|e|] w2]; cbn in *; try done.
  unfold bind at 1. assert (keeps (validate_record_metadata m)) as Hk.
  { unfold validate_record_metadata. destruct (_ || _); [by apply keeps_lift|apply keeps_owner]. }
  destruct (Hk w2 Hs1) as [Hn2 Hs2]. destruct (validate_record_metadata m w2) as [[[]|e|] w3]; cbn in *; try done.
  destruct (_ || _) eqn:Hsz; [done|]. unfold bind at 1, mapM_err, read_exact.
  assert (forall bs w4, read_exact i (size m) w3 = (Ok bs, w4) -> bytes_ok bs /\ len bs <= Z.max 0 (size m)) as Hbs.
  { intros bs w4. unfold read_exact, sys. destruct (faults w3) as [|[n|] rest]; [|done|];
      (destruct (content (fs w3) i) as [c|e|] eqn:Hc; cbn; [|done..]; destruct (_ <=? _) eqn:Hle; [|done]);
      unfold content in Hc; destruct (nodes (fs w3) !! i) as [[]|] eqn:Hi; simplify_eq; intros [= <- <-];
      (split; [apply Forall_take; by apply (Hs2 i _ Hi)|rewrite length_take; lia]). }
  assert (keeps (read_exact i (size m)) /\ keeps (read_one i (size m))) as [Hkr Hko].
  { split; apply keeps_read; intros s; unfold content; by repeat case_match. }
  destruct (Hkr w3 Hs2) as [Hn3 Hs3]. fold (read_exact i (size m)).
  destruct (read_exact i (size m) w3) as [[bs|e|] w4] eqn:Hr; cbn in *; try done.
  destruct (Hbs bs w4 eq_refl) as [Hbo Hbl]. unfold bind at 1.
  destruct (Hko w4 Hs3) as [Hn4 Hs4]. destruct (read_one i (size m) w4) as [[t|e|] w5]; cbn in *; try done.
  destruct (negb _); [done|]. unfold XART_MAX_PAYLOAD_SIZE in *. unfold lift. rewrite fetched_payload by (unfold XART_MAX_PAYLOAD_SIZE; lia). cbn [holding wire_blob].
  split_and!; [done| |rewrite length_wire; lia|done]. apply bytes_ok_app. split; [apply le_bytes_ok|done].
Qed.
End Total.

(** ** A store at rest *)

(** The store directory exists and is durable, its entry in its parent included, and [o]
    is the payload of the record. *)
Definition settled (u : Z) (o : option bytes) (s : FS) : Prop :=
  exists r rm v, root s = Some r /\ root_clean s = true /\ nodes s !! r = Some (NDir rm [v] []) /\ private_dir u rm /\
  (forall i, (next s <= i)%positive -> nodes s !! i = None) /\ describes u (nodes s) (v !! RECORD_FILE_NAME) o.

Lemma xart_settled_known u o s :
  settled u o s -> exists r F x0, (forall allowed : bytes -> Prop, allowed (wire_of o) -> safe u allowed F {[RECORD_FILE_NAME := [x0]]}) /\
  known r u F ∅ {[RECORD_FILE_NAME := [x0]]} ∅ s.
Proof.
  intros (r & rm & v & Hr & Hc & Hn & Hrm & Hnx & Hd). exists r, (delete r (nodes s)), (v !! RECORD_FILE_NAME). split.
  - intros allowed Hal. exists [v !! RECORD_FILE_NAME]. split; [apply lookup_singleton_eq|].
    intros x ->%list_elem_of_singleton. exists o. split; [done|].
    destruct (v !! RECORD_FILE_NAME) as [i|], o as [p|]; try done. destruct Hd as (m & Hi & Hrest). exists m.
    split; [|done]. rewrite lookup_delete_ne by congruence. done.
  - split; try done.
    + exists v, [], rm, []. split_and!; [done|by apply Forall_singleton| |done].
      constructor; [|constructor]. intros n xs [<- <-]%lookup_singleton_Some. set_solver.
    + apply delete_subseteq.
    + apply map_empty_subseteq.
    + apply map_disjoint_empty_r.
    + split; [apply lookup_delete_eq|done].
Qed.

Lemma save_atomic u store old blob w :
  process u w -> history w = [] -> settled u old (fs w) -> bytes_ok blob ->
  exists x w', save blob w = (x, w') /\ x <> Panic /\
  Forall (stop_safe u store (fun b => b = wire_of old \/ b = blob)) (history w') /\
  (x = Ok () -> stop_safe u store (fun b => b = blob) (fs w')) /\
  ((forall p, payload_ok p -> blob <> wire p) -> x = Err InvalidWireBlob /\ w' = w).
Proof.
  intros Hp Hh Hset Hb. pose proof (validate_wire_blob_spec blob Hb) as Hv.
  destruct (validate_wire_blob blob) as [p|e|] eqn:Ev; [| |done].
  - destruct Hv as [Hpo ->]. destruct (xart_settled_known u old (fs w) Hset) as (r & F & x0 & HS & Hk).
    destruct (run_save u store (fun b => b = wire_of old \/ b = wire p) r F x0 p w (wire p))
      as (x & w' & Hx & Hnp & Hh' & HQ); try done; [by rewrite Hh|by right|by apply HS; left|].
    exists x, w'. split_and!; try done.
    + intros Hok. destruct (HQ Hok) as (F' & K' & W' & N' & HS' & Hk'). by eapply xart_safe_stop.
    + intros Hno. by destruct (Hno p Hpo).
  - destruct Hv as [-> _]. exists (Err InvalidWireBlob), w. unfold save, bind, lift. rewrite Ev, Hh. done.
Qed.

(** A save of an xART record is atomic and durable. From a store at rest, with any
    system calls failing at any point, every state of the files that a save passes through
    is such that after a stop of the machine [fetch] answers with the old record or with the
    blob to be saved, byte for byte; when the save succeeds, [fetch] answers with that blob
    after any later stop; and a blob that is not a length and a payload within the limits is
    refused without a system call. *)
Theorem xart_save_atomic u store old blob w :
  process u w -> history w = [] -> settled u old (fs w) -> bytes_ok blob ->
  exists x w', save blob w = (x, w') /\ x <> Panic /\
  Forall (stop_safe u store (fun b => b = wire_of old \/ b = blob)) (history w') /\
  (x = Ok () -> stop_safe u store (fun b => b = blob) (fs w')) /\
  ((forall p, payload_ok p -> blob <> wire p) -> x = Err InvalidWireBlob /\ w' = w).
Proof. apply save_atomic. Qed.

(** A store of user 0 that holds the payload [9]. *)
Definition example_store : XartStore := mkStore (replicate 16 34) false.
Definition example_fs : FS :=
  mkFS {[1%positive := CatacombAtomic.example_dir {[RECORD_FILE_NAME := 2%positive]};
         2%positive := CatacombAtomic.example_file [9]]} (Some 1%positive) true 3%positive.
Definition example_world (s : FS) : world :=
  mkWorld s [] [] 0 18 (Some CatacombAtomic.example_status) 4096 [] 7.

Lemma xart_example_process s : process 0 (example_world s).
Proof. split; [done|]. exists CatacombAtomic.example_status. split; [done|]. vm_compute. reflexivity. Qed.

Lemma xart_example_settled : settled 0 (Some [9]) example_fs.
Proof.
  exists 1%positive, (mkMeta CatacombStore.PRIVATE_DIRECTORY 0 2), {[RECORD_FILE_NAME := 2%positive]}.
  split_and!; try done.
  - intros i Hi. change (3 <= i)%positive in Hi. cbn [example_fs nodes].
    rewrite lookup_insert_ne by lia. apply lookup_singleton_ne. lia.
  - exists (mkMeta CatacombStore.PRIVATE_FILE 0 1). done.
Qed.

(** With no faults the save succeeds. *)
Lemma xart_save_atomic_witness :
  exists w', save [2; 0; 0; 0; 7; 8] (example_world example_fs) = (Ok (), w') /\
  Forall (stop_safe 0 example_store (fun b => b = [1; 0; 0; 0; 9] \/ b = [2; 0; 0; 0; 7; 8])) (history w') /\
  stop_safe 0 example_store (fun b => b = [2; 0; 0; 0; 7; 8]) (fs w').
Proof.
  assert (fst (save [2; 0; 0; 0; 7; 8] (example_world example_fs)) = Ok ()) as Hok by (vm_compute; reflexivity).
  destruct (xart_save_atomic 0 example_store (Some [9]) [2; 0; 0; 0; 7; 8] (example_world example_fs))
    as (x & w' & Hx & _ & Hh & Hfin & _).
  - apply xart_example_process.
  - reflexivity.
  - apply xart_example_settled.
  - repeat constructor; unfold is_u; lia.
  - exists w'. rewrite Hx in Hok. cbn in Hok. subst x. split_and!; [exact Hx|exact Hh|by apply Hfin].
Defined.

(** The first save creates the directory of the store and does not synchronize the
    directory that holds it: the save succeeds, and after a stop that loses the new
    directory a fetch answers with the empty record. *)
Lemma first_save_may_be_lost :
  exists w', save [1; 0; 0; 0; 7] (example_world CatacombAtomic.empty_fs) = (Ok (), w') /\
  exists s', stop (fs w') s' /\
  fst (fetch example_store (restart w' s')) = Ok (holding example_store [0; 0; 0; 0]).
Proof.
  set (run := save [1; 0; 0; 0; 7] (example_world CatacombAtomic.empty_fs)).
  exists (snd run). split; [transitivity (fst run, snd run); [by destruct run|]; f_equal; vm_compute; reflexivity|]. exists (CatacombAtomic.lost (fs (snd run))). split.
  - apply CatacombAtomic.stop_lost; vm_compute; reflexivity.
  - vm_compute; reflexivity.
Qed.

End XartStore.
