(* ===== verification/XartService.v ===== *)
(** * The xART service

    The service that keeps the coprocessor's anti-replay record: the device lifecycle and
    the admission of a peer ([t1-daemons/src/xart_service.rs], module [XartLifecycle]), the
    requests ([xart_protocol.rs], [XartProtocol]) and a session over a byte stream
    ([xart_session.rs], [XartSession]), on the store of [XartStore.v]. *)

From S2P Require Import Prelude Effects Text Framing Plist PlistLimits Hello Transport Session Xart FileSystem CatacombSafety XartStore.
From Stdlib Require Strings.String.

Import FileSystem Strings.String.StringSyntax.

(** ** The device and its peer *)

Module XartLifecycle.

Definition APPLE_VENDOR_ID : Z := 0x05ac.
Definition APPLE_T1_PRODUCT_ID : Z := 0x8600.
Definition APPLE_T1_NCM_CONTROL_INTERFACE : Z := 4.
Open Scope string_scope.
Definition APPLE_T1_NCM_DRIVER : bytes := Text.str "apple_t1_ncm".
Close Scope string_scope.

(** An [Ipv6Addr] is its eight segments. *)
Definition BRIDGEOS_XART_PEER : list Z := [0xfe80; 0; 0; 0; 0xaede; 0x48ff; 0xfe33; 0x4455].

Record InterfaceDescriptor : Type := mkDescriptor {
  interface_index : Z;
  driver : bytes;
  usb_vendor_id : Z;
  usb_product_id : Z;
  usb_interface_number : Z
}.

Inductive InterfaceValidationError : Type :=
| MissingInterfaceIndex | WrongDriver | WrongUsbDevice | WrongUsbInterface.

(** [ValidatedInterface]: an index that is not zero. *)
Definition validate_interface (descriptor : InterfaceDescriptor) : res InterfaceValidationError Z :=
  if interface_index descriptor =? 0 then Err MissingInterfaceIndex
  else if negb (bool_decide (driver descriptor = APPLE_T1_NCM_DRIVER)) then Err WrongDriver
  else if negb (usb_vendor_id descriptor =? APPLE_VENDOR_ID) || negb (usb_product_id descriptor =? APPLE_T1_PRODUCT_ID)
  then Err WrongUsbDevice
  else if negb (usb_interface_number descriptor =? APPLE_T1_NCM_CONTROL_INTERFACE) then Err WrongUsbInterface
  else Ok (interface_index descriptor).

(** [std::net::SocketAddr], as far as the code looks at it. *)
Inductive SocketAddr : Type :=
| V4
| V6 (ip : list Z) (scope_id : Z).

(** [Ipv6Addr::is_unicast_link_local]. *)
Definition is_unicast_link_local (ip : list Z) : bool :=
  match ip with s :: _ => Z.land s 0xffc0 =? 0xfe80 | [] => false end.

Record PeerObservation : Type := mkObservation {
  listener_interface_index : Z;
  peer : SocketAddr
}.

Record DeviceLease : Type := mkLease { lease_interface_index : Z; lease_generation : Z }.

#[global] Instance DeviceLease_eq_dec : EqDecision DeviceLease.
Proof. solve_decision. Defined.

Inductive ActivationError : Type :=
| InvalidInterface (error : InterfaceValidationError)
| DeviceAlreadyActive
| GenerationExhausted.

Inductive PeerAdmissionError : Type :=
| DeviceNotActive | ListenerOnWrongInterface | PeerIsNotIpv6 | PeerIsNotLinkLocal | PeerOnWrongInterface
| UnexpectedPeer.

Record ActiveDevice : Type := mkActive {
  interface : Z;
  expected_peer : list Z;
  generation : Z
}.

Record XartServiceLifecycle : Type := mkLifecycle {
  active : option ActiveDevice;
  next_generation : Z
}.

(** [Default]. *)
Definition lifecycle_default : XartServiceLifecycle := mkLifecycle None 0.

Definition device_added (descriptor : InterfaceDescriptor) : M XartServiceLifecycle ActivationError DeviceLease := fun l =>
  match validate_interface descriptor with
  | Ok index =>
      match active l with
      | Some _ => (Err DeviceAlreadyActive, l)
      | None =>
          match checked_add 64 (next_generation l) 1 with
          | None => (Err GenerationExhausted, l)
          | Some generation =>
              (Ok (mkLease index generation), mkLifecycle (Some (mkActive index BRIDGEOS_XART_PEER generation)) generation)
          end
      end
  | Err e => (Err (InvalidInterface e), l)
  | Panic => (Panic, l)
  end.

(** The test both methods below make. *)
Definition is_current (lease : DeviceLease) (a : ActiveDevice) : bool :=
  (interface a =? lease_interface_index lease) && (generation a =? lease_generation lease).

Definition device_removed (lease : DeviceLease) (l : XartServiceLifecycle) : bool * XartServiceLifecycle :=
  let matches := match active l with Some a => is_current lease a | None => false end in
  (matches, if matches then mkLifecycle None (next_generation l) else l).

(** The private method that tests a peer. *)
Definition admit_peer (l : XartServiceLifecycle) (lease : DeviceLease) (observation : PeerObservation)
    : res PeerAdmissionError () :=
  match active l with
  | Some a =>
      if negb (is_current lease a) then Err DeviceNotActive
      else if negb (listener_interface_index observation =? interface a) then Err ListenerOnWrongInterface
      else
        match peer observation with
        | V4 => Err PeerIsNotIpv6
        | V6 ip scope_id =>
            if negb (is_unicast_link_local ip) then Err PeerIsNotLinkLocal
            else if negb (scope_id =? 0) && negb (scope_id =? interface a) then Err PeerOnWrongInterface
            else if negb (bool_decide (ip = expected_peer a)) then Err UnexpectedPeer
            else Ok ()
        end
  | None => Err DeviceNotActive
  end.

(** The callback passes the state of its caller. *)
Definition with_admitted_peer {S E T} (l : XartServiceLifecycle) (lease : DeviceLease) (observation : PeerObservation)
    (protocol : M S E T) (f : PeerAdmissionError -> E) : M S E T :=
  do! _ := lift (map_err f (admit_peer l lease observation)) in protocol.

(** *** The contract

    A machine that knows the current lease and the leases it has granted. *)

Inductive event : Type :=
| Added (descriptor : InterfaceDescriptor)
| Removed (lease : DeviceLease).

Inductive answer : Type :=
| Granted (lease : DeviceLease)
| Refused (error : ActivationError)
| Stopped (stopped : bool).

Definition apply_event (l : XartServiceLifecycle) (e : event) : option answer * XartServiceLifecycle :=
  match e with
  | Added d =>
      match device_added d l with
      | (Ok lease, l) => (Some (Granted lease), l)
      | (Err e, l) => (Some (Refused e), l)
      | (Panic, l) => (None, l)
      end
  | Removed lease => let (b, l) := device_removed lease l in (Some (Stopped b), l)
  end.

Record contract : Type := mkContract { current : option DeviceLease; granted : list DeviceLease }.

(** What the machine answers: a lease is new, it is granted to the T1 interface only and
    while there is no current one, and only the current lease can be removed. *)
Inductive contract_step : contract -> event -> answer -> contract -> Prop :=
| grants d index g c :
    validate_interface d = Ok index -> current c = None -> g <= umax 64 ->
    Forall (fun x => lease_generation x < g) (granted c) ->
    contract_step c (Added d) (Granted (mkLease index g)) (mkContract (Some (mkLease index g)) (mkLease index g :: granted c))
| refuses_interface d e c : validate_interface d = Err e -> contract_step c (Added d) (Refused (InvalidInterface e)) c
| refuses_second d index lease c :
    validate_interface d = Ok index -> current c = Some lease -> contract_step c (Added d) (Refused DeviceAlreadyActive) c
| exhausted d index c :
    validate_interface d = Ok index -> current c = None -> Exists (fun x => lease_generation x = umax 64) (granted c) ->
    contract_step c (Added d) (Refused GenerationExhausted) c
| stops lease c : current c = Some lease -> contract_step c (Removed lease) (Stopped true) (mkContract None (granted c))
| ignores lease c : current c <> Some lease -> contract_step c (Removed lease) (Stopped false) c.

(** A history of events, and one of the contract with the same answers. *)
Inductive history : XartServiceLifecycle -> contract -> Prop :=
| history_start : history lifecycle_default (mkContract None [])
| history_next l c e a l' c' :
    history l c -> apply_event l e = (Some a, l') -> contract_step c e a c' -> history l' c'.

Record agrees (l : XartServiceLifecycle) (c : contract) : Prop := mkAgrees {
  ag_current : current c = (fun a => mkLease (interface a) (generation a)) <$> active l;
  ag_granted : forall lease, current c = Some lease -> lease ∈ granted c /\ lease_interface_index lease <> 0;
  ag_peer : forall a, active l = Some a -> expected_peer a = BRIDGEOS_XART_PEER;
  ag_next : 0 <= next_generation l <= umax 64;
  ag_fresh : Forall (fun x => lease_generation x <= next_generation l) (granted c);
  ag_last : next_generation l = 0 \/ Exists (fun x => lease_generation x = next_generation l) (granted c);
  ag_distinct : NoDup (lease_generation <$> granted c)
}.

Lemma agrees_default : agrees lifecycle_default (mkContract None []).
Proof. split; cbn; try done; try constructor; done. Qed.

Lemma is_current_spec lease a : is_current lease a = true <-> mkLease (interface a) (generation a) = lease.
Proof.
  unfold is_current. rewrite andb_true_iff, !Z.eqb_eq. destruct lease as [i g]. cbn. split; [by intros [-> ->]|].
  by intros [= -> ->].
Qed.

Lemma validate_index d index : validate_interface d = Ok index -> index <> 0.
Proof. unfold validate_interface. repeat case_match; try done. intros [= <-]. lia. Qed.

Lemma apply_agrees l c e : agrees l c -> exists a l' c', apply_event l e = (Some a, l') /\ contract_step c e a c' /\ agrees l' c'.
Proof.
  intros Ha. pose proof Ha as [Hc Hg Hp Hn Hf Hl Hd]. destruct e as [d|lease]; cbn.
  - unfold device_added. destruct (validate_interface d) as [index|e|] eqn:Hv.
    3: { unfold validate_interface in Hv. by repeat case_match. }
    2: { exists (Refused (InvalidInterface e)), l, c. split_and!; [done|by constructor|done]. }
    destruct (active l) as [a|] eqn:Hact.
    { exists (Refused DeviceAlreadyActive), l, c. split_and!; [done|by econstructor|done]. }
    unfold checked_add. destruct (_ <=? _) eqn:Hmax; b2p.
    + set (g := next_generation l + 1) in *.
      exists (Granted (mkLease index g)), (mkLifecycle (Some (mkActive index BRIDGEOS_XART_PEER g)) g),
        (mkContract (Some (mkLease index g)) (mkLease index g :: granted c)).
      split_and!; [done| |].
      * constructor; [done|done|done|]. eapply Forall_impl; [exact Hf|]. cbn. intros x Hx. lia.
      * split; cbn; try done.
        -- intros x [= <-]. split; [apply elem_of_cons; by left|]. by apply (validate_index d).
        -- by intros a [= <-].
        -- lia.
        -- constructor; [cbn; lia|]. eapply Forall_impl; [exact Hf|]. cbn. intros x Hx. lia.
        -- right. by constructor.
        -- constructor; [|done]. intros (x & Hx & Hin)%list_elem_of_fmap. rewrite Forall_forall in Hf.
           specialize (Hf x Hin). cbn in *. lia.
    + exists (Refused GenerationExhausted), l, c. split_and!; [done| |done]. econstructor; [done|done|].
      destruct Hl as [H0|He]; [unfold umax in *; lia|]. eapply Exists_impl; [exact He|]. cbn. intros x ->. lia.
  - unfold device_removed. destruct (active l) as [a|] eqn:Hact; cbn in Hc.
    + destruct (is_current lease a) eqn:Hcur.
      * apply is_current_spec in Hcur. exists (Stopped true), (mkLifecycle None (next_generation l)), (mkContract None (granted c)).
        split_and!; [done|constructor; congruence|]. by split; cbn.
      * exists (Stopped false), l, c. split_and!; [done| |done]. constructor. rewrite Hc. intros [= Hx].
        apply is_current_spec in Hx. congruence.
    + exists (Stopped false), l, c. split_and!; [done| |done]. constructor. by rewrite Hc.
Qed.

Lemma history_agrees l c : history l c -> agrees l c.
Proof.
  induction 1 as [|l c e a l' c' _ IH He Hs]; [apply agrees_default|].
  destruct (apply_agrees l c e IH) as (a2 & l2 & c2 & He2 & Hs2 & Ha2). rewrite He in He2. injection He2 as <- <-.
  enough (c2 = c') by congruence. inversion Hs; inversion Hs2; subst; simplify_eq; congruence.
Qed.

(** The endpoint of the T1 on the interface [index]. *)
Definition bridgeos_peer (index : Z) (observation : PeerObservation) : Prop :=
  listener_interface_index observation = index /\
  exists scope_id, peer observation = V6 BRIDGEOS_XART_PEER scope_id /\ (scope_id = 0 \/ scope_id = index).

Lemma admit_iff l c lease observation :
  agrees l c ->
  (admit_peer l lease observation = Ok () <-> current c = Some lease /\ bridgeos_peer (lease_interface_index lease) observation) /\
  admit_peer l lease observation <> Panic.
Proof.
  intros [Hc _ Hp _ _ _ _]. unfold admit_peer, bridgeos_peer. destruct (active l) as [a|]; cbn in Hc.
  2: { split; [|done]. split; [done|]. intros [Hx _]. congruence. }
  rewrite (Hp a eq_refl). destruct (is_current lease a) eqn:Hcur; cbn [negb].
  2: { split; [|done]. split; [done|]. intros [Hx _]. assert (is_current lease a = true) by (apply is_current_spec; congruence). congruence. }
  apply is_current_spec in Hcur as <-. rewrite Hc. cbn [lease_interface_index].
  destruct (listener_interface_index observation =? interface a) eqn:Hi; b2p; cbn [negb].
  2: { split; [|done]. split; [done|]. by intros (_ & ? & _). }
  destruct (peer observation) as [|ip scope]; [split; [|done]; split; [done|]; by intros (_ & _ & s & [=] & _)|].
  destruct (is_unicast_link_local ip) eqn:Hll; cbn [negb].
  2: { split; [|done]. split; [done|]. intros (_ & _ & s & [= -> ->] & _). done. }
  destruct (negb (scope =? 0) && negb (scope =? interface a)) eqn:Hsc.
  { split; [|done]. split; [done|]. intros (_ & _ & s & [= -> ->] & Hs). lia. }
  case_bool_decide as Hip; cbn [negb].
  - split; [|done]. split; [|done]. intros _. split_and!; [done|done|]. exists scope. subst ip. split; [done|lia].
  - split; [|done]. split; [done|]. intros (_ & _ & s & [= -> ->] & _). done.
Qed.

(** C20. The device lifecycle keeps its contract. In every history of device events, the
    events are answered as the contract says: a lease is granted for the T1 network function
    only and while no device is active, its generation was never granted before, and only
    the current lease can be removed, so that a late removal stops no replacement. A peer is
    admitted exactly with the current lease, on a listener bound to the interface of that
    lease, from the one link-local address of the coprocessor with no other scope. *)
Theorem lifecycle_keeps_contract l c e :
  history l c ->
  (exists a l' c', apply_event l e = (Some a, l') /\ contract_step c e a c' /\ history l' c') /\
  NoDup (lease_generation <$> granted c) /\
  forall lease observation,
    admit_peer l lease observation = Ok () <-> current c = Some lease /\ bridgeos_peer (lease_interface_index lease) observation.
Proof.
  intros Hh. pose proof (history_agrees l c Hh) as Ha. split_and!.
  - destruct (apply_agrees l c e Ha) as (a & l' & c' & He & Hs & _). exists a, l', c'. split_and!; [done|done|].
    by eapply history_next.
  - apply Ha.
  - intros lease observation. by apply (admit_iff l c).
Qed.

(** A device that comes, goes and comes back under the same index: the old lease stops
    nothing. *)
Definition example_device : InterfaceDescriptor := mkDescriptor 7 APPLE_T1_NCM_DRIVER APPLE_VENDOR_ID APPLE_T1_PRODUCT_ID 4.

Lemma lifecycle_keeps_contract_witness :
  exists l c, history l c /\ current c = Some (mkLease 7 2) /\
  apply_event l (Removed (mkLease 7 1)) = (Some (Stopped false), l) /\
  admit_peer l (mkLease 7 2) (mkObservation 7 (V6 BRIDGEOS_XART_PEER 0)) = Ok ().
Proof.
  destruct (lifecycle_keeps_contract _ _ (Added example_device) history_start) as [(a1 & l1 & c1 & E1 & S1 & Hist1) _].
  vm_compute in E1. injection E1 as <- <-. inversion S1; subst; clear S1.
  destruct (lifecycle_keeps_contract _ _ (Removed (mkLease 7 1)) Hist1) as [(a2 & l2 & c2 & E2 & S2 & Hist2) _].
  vm_compute in E2. injection E2 as <- <-. inversion S2; subst; clear S2.
  destruct (lifecycle_keeps_contract _ _ (Added example_device) Hist2) as [(a3 & l3 & c3 & E3 & S3 & Hist3) _].
  vm_compute in E3. injection E3 as <- <-. inversion S3; subst; clear S3.
  eexists _, _. split; [exact Hist3|]. split_and!; reflexivity.
Defined.

End XartLifecycle.

(** ** Requests *)

Module XartProtocol.
Import Plist XartStore.

Definition PROTOCOL_VERSION : Z := 1.
Definition FETCH_COMMAND : Z := 100.
Definition SAVE_COMMAND : Z := 150.

Open Scope string_scope.
Definition VERSION_KEY : bytes := Text.str "xart-msg.version".
Definition COMMAND_KEY : bytes := Text.str "xart-msg.command".
Definition SUCCESS_KEY : bytes := Text.str "xart-msg.success".
Definition ERROR_KEY : bytes := Text.str "xart-msg.error".
Definition XART_KEY : bytes := Text.str "xart-msg.xart".
Definition VOLUME_UUID_KEY : bytes := Text.str "xart-msg.volume-uuid".
Definition VOLUME_EXTERNAL_KEY : bytes := Text.str "xart-msg.volume-external?".
Definition UINT64_WRAPPER_KEY : bytes := Text.str "__com.apple.BridgeXPC.uint64".
Definition UUID_WRAPPER_KEY : bytes := Text.str "__com.apple.BridgeXPC.UUID".

(** The messages of the failures. *)
Definition not_a_dictionary : bytes := Text.str "request is not a dictionary".
Definition bad_version : bytes := Text.str "invalid or missing protocol version".
Definition unsupported_command : bytes := Text.str "unsupported command".
Definition invalid_xart : bytes := Text.str "save request contained an invalid xART".
Definition unavailable : bytes := Text.str "xART storage is unavailable".
Definition unsafe : bytes := Text.str "xART storage is unsafe".
Definition invalid_stored : bytes := Text.str "stored xART is invalid".
Close Scope string_scope.

Abbreviation dictionary := (list (bytes * Value.t)).

(** [BTreeMap::from]. *)
Definition btree_from (kvs : dictionary) : dictionary :=
  fold_left (fun m kv => fst (btree_insert (fst kv) (snd kv) m)) kvs [].

Definition bridgexpc_uint64 (value : Z) : Value.t :=
  Value.Dictionary (btree_from [(UINT64_WRAPPER_KEY, Value.Integer value)]).
Definition bridgexpc_uuid (value : bytes) : Value.t :=
  Value.Dictionary (btree_from [(UUID_WRAPPER_KEY, Value.Data value)]).

Definition decode_uint64 (value : Value.t) : option Z :=
  match value with
  | Value.Integer value => try_from_u 64 value
  | Value.Dictionary wrapper =>
      if len wrapper =? 1 then
        match Xart.get UINT64_WRAPPER_KEY wrapper with
        | Some (Value.Integer value) => try_from_u 64 value
        | _ => None
        end
      else None
  | _ => None
  end.

Definition failure (message : bytes) : dictionary :=
  btree_from [(VERSION_KEY, bridgexpc_uint64 PROTOCOL_VERSION); (SUCCESS_KEY, Value.Boolean false);
              (ERROR_KEY, Value.String message)].

Definition storage_failure (error : XartStoreError) : dictionary :=
  failure match error with
          | InvalidWireBlob => invalid_xart
          | StorageUnavailable => unavailable
          | UnsafeStorage => unsafe
          | InvalidStoredBlob => invalid_stored
          end.

Section Requests.
Context {E : Type} (store : XartStore).

(** A store error is answered, not returned. *)
Definition fetch : M world E dictionary := fun w =>
  match XartStore.fetch store w with
  | (Ok fetched, w) =>
      (Ok (btree_from [(VERSION_KEY, bridgexpc_uint64 PROTOCOL_VERSION); (SUCCESS_KEY, Value.Boolean true);
                       (XART_KEY, Value.Data (wire_blob fetched)); (VOLUME_UUID_KEY, bridgexpc_uuid (volume_id fetched));
                       (VOLUME_EXTERNAL_KEY, Value.Boolean (volume_external fetched))]), w)
  | (Err error, w) => (Ok (storage_failure error), w)
  | (Panic, w) => (Panic, w)
  end.

Definition save (value : option Value.t) : M world E dictionary := fun w =>
  match value with
  | Some (Value.Data wire_blob) =>
      match XartStore.save wire_blob w with
      | (Ok _, w) =>
          (Ok (btree_from [(VERSION_KEY, bridgexpc_uint64 PROTOCOL_VERSION); (SUCCESS_KEY, Value.Boolean true)]), w)
      | (Err error, w) => (Ok (storage_failure error), w)
      | (Panic, w) => (Panic, w)
      end
  | _ => (Ok (failure invalid_xart), w)
  end.

Definition number_at (key : bytes) (request : dictionary) : option Z := Xart.get key request ≫= decode_uint64.

Definition handle_request (request : Value.t) : M world E dictionary :=
  match request with
  | Value.Dictionary request =>
      if negb (bool_decide (number_at VERSION_KEY request = Some PROTOCOL_VERSION)) then ret (failure bad_version)
      else
        match number_at COMMAND_KEY request with
        | Some command =>
            if command =? FETCH_COMMAND then fetch
            else if command =? SAVE_COMMAND then save (Xart.get XART_KEY request)
            else ret (failure unsupported_command)
        | None => ret (failure unsupported_command)
        end
  | _ => ret (failure not_a_dictionary)
  end.
End Requests.

(** *** Answers can be sent *)

Section Answers.

Definition answer_ok (d : dictionary) : Prop :=
  value_wf (Value.Dictionary d) /\ PlistLimits.surely_fits (Value.Dictionary d) = true.

(** Decides the facts about the fixed keys and words. *)
Lemma text_ok l : forallb (is_ub 8) l && Text.utf8_valid l = true -> text_wf l.
Proof.
  intros [H1 H2]%andb_true_iff. split; [|exact H2]. apply Forall_forall. intros b Hb.
  rewrite forallb_forall in H1. apply is_ub_spec, H1. by apply list_elem_of_In.
Qed.

Lemma get_wf key (kvs : dictionary) v :
  fold_right (fun kv P => text_wf (fst kv) /\ value_wf (snd kv) /\ P) True kvs -> Xart.get key kvs = Some v -> value_wf v.
Proof.
  induction kvs as [|[k x] kvs IH]; [done|]. cbn [fold_right fst snd]. intros (_ & Hx & Hrest).
  unfold Xart.get. cbn [List.find fst]. case_bool_decide; [by intros [= <-]|]. by apply IH.
Qed.

Lemma limits_intro v :
  PlistLimits.integers_ok v = true -> (height v <=? MAX_DEPTH)%nat = true -> (size v <=? 100)%nat = true ->
  Z.of_nat (PlistLimits.raw_bytes v) <= 100000 -> PlistLimits.surely_fits v = true.
Proof.
  intros Hi Hh Hs Hr. unfold PlistLimits.surely_fits, MAX_OBJECTS, MAX_PLIST_SIZE. apply Nat.leb_le in Hs.
  rewrite Hi, Hh. cbn [andb]. lia.
Qed.

(** The facts about a dictionary with fixed keys; the numbers are left to [lia]. *)
Ltac fixed_length :=
  repeat match goal with
    |- context [length ?k] => is_const k; let n := eval vm_compute in (length k) in change (length k) with n
  end.
Ltac answer :=
  split;
  [ cbn [value_wf fold_right fst snd];
    split_and!; try exact I; try assumption; try (apply text_ok; first [assumption|vm_compute; reflexivity]);
    repeat constructor
  | apply limits_intro; [reflexivity|reflexivity|reflexivity|];
    cbn [PlistLimits.raw_bytes fold_right fst snd]; fixed_length ].

Lemma failure_entries message :
  failure message = [(ERROR_KEY, Value.String message); (SUCCESS_KEY, Value.Boolean false);
                     (VERSION_KEY, Value.Dictionary [(UINT64_WRAPPER_KEY, Value.Integer 1)])].
Proof. reflexivity. Qed.

Lemma failure_ok message :
  forallb (is_ub 8) message && Text.utf8_valid message = true -> (length message <= 64)%nat -> answer_ok (failure message).
Proof. intros Hm Hl. rewrite failure_entries. answer. lia. Qed.

Definition saved_answer : dictionary :=
  btree_from [(VERSION_KEY, bridgexpc_uint64 PROTOCOL_VERSION); (SUCCESS_KEY, Value.Boolean true)].

Definition fetched_answer (blob volume : bytes) (external : bool) : dictionary :=
  btree_from [(VERSION_KEY, bridgexpc_uint64 PROTOCOL_VERSION); (SUCCESS_KEY, Value.Boolean true);
              (XART_KEY, Value.Data blob); (VOLUME_UUID_KEY, bridgexpc_uuid volume);
              (VOLUME_EXTERNAL_KEY, Value.Boolean external)].

Lemma fetched_entries blob volume external :
  fetched_answer blob volume external =
  [(SUCCESS_KEY, Value.Boolean true); (VERSION_KEY, Value.Dictionary [(UINT64_WRAPPER_KEY, Value.Integer 1)]);
   (VOLUME_EXTERNAL_KEY, Value.Boolean external); (VOLUME_UUID_KEY, Value.Dictionary [(UUID_WRAPPER_KEY, Value.Data volume)]);
   (XART_KEY, Value.Data blob)].
Proof. reflexivity. Qed.

Lemma saved_ok : answer_ok saved_answer.
Proof.
  change saved_answer with [(SUCCESS_KEY, Value.Boolean true);
    (VERSION_KEY, Value.Dictionary [(UINT64_WRAPPER_KEY, Value.Integer 1)])]. answer. lia.
Qed.

Lemma fetched_ok blob volume external :
  bytes_ok blob -> len blob <= XART_MAX_PAYLOAD_SIZE + 4 -> bytes_ok volume -> length volume = 16%nat ->
  answer_ok (fetched_answer blob volume external).
Proof. unfold XART_MAX_PAYLOAD_SIZE. intros Hb Hl Hv Hvl. rewrite fetched_entries. answer. lia. Qed.

Lemma storage_failure_ok e : answer_ok (storage_failure e).
Proof. destruct e; (apply failure_ok; [|apply Nat.leb_le]; vm_compute; reflexivity). Qed.

(** The store of a service answers with the identifier of one volume. *)
Definition store_ok (store : XartStore) : Prop :=
  bytes_ok (store_volume_id store) /\ length (store_volume_id store) = 16%nat.

(** Every request is answered, whatever the files are and whatever fails. *)
Lemma handle_request_ok {E} store request w :
  store_ok store -> files_ok (fs w) -> value_wf request ->
  exists d w', handle_request (E := E) store request w = (Ok d, w') /\ answer_ok d /\ files_ok (fs w').
Proof.
  intros [Hv Hvl] Hw Hwf.
  assert (forall m, forallb (is_ub 8) m && Text.utf8_valid m = true -> (length m <=? 64)%nat = true ->
    exists d w', ret (S := world) (E := E) (failure m) w = (Ok d, w') /\ answer_ok d /\ files_ok (fs w')) as Hfail.
  { intros m Hm Hl. apply Nat.leb_le in Hl. exists (failure m), w. split_and!; [done|by apply failure_ok|done]. }
  unfold handle_request. destruct request as [| | | | | |request]; try (apply Hfail; vm_compute; reflexivity).
  destruct (negb _); [apply Hfail; vm_compute; reflexivity|].
  destruct (number_at COMMAND_KEY request) as [command|]; [|apply Hfail; vm_compute; reflexivity].
  destruct (command =? FETCH_COMMAND).
  { pose proof (fetch_bytes store w Hw) as Hf. unfold fetch. destruct (XartStore.fetch store w) as [[f|e|] w1]; [| |done].
    - destruct Hf as (Hf & Hb & Hl & Hs). rewrite Hf. eexists _, w1. split; [reflexivity|]. split; [|done].
      by apply fetched_ok.
    - eexists _, w1. split; [reflexivity|]. split; [apply storage_failure_ok|done]. }
  destruct (command =? SAVE_COMMAND); [|apply Hfail; vm_compute; reflexivity].
  unfold save. destruct (Xart.get XART_KEY request) as [[| | |blob| | |]|] eqn:Hg; try (apply Hfail; vm_compute; reflexivity).
  assert (bytes_ok blob) as Hb by (apply (get_wf XART_KEY request (Value.Data blob)); [apply Hwf|done]).
  destruct (keeps_save blob Hb w Hw) as [Hn Hs]. destruct (XartStore.save blob w) as [[[]|e|] w1]; [| |done]; cbn in Hs.
  - eexists _, w1. split; [reflexivity|]. split; [apply saved_ok|done].
  - eexists _, w1. split; [reflexivity|]. split; [apply storage_failure_ok|done].
Qed.
End Answers.

(** *** What is saved is fetched *)

Import CatacombSafety.

Section Records.
Context (u : Z) (store : XartStore) {E : Type}.

(** A request of version 1 with that command. *)
Definition asks (command : Z) (request : dictionary) : Prop :=
  number_at VERSION_KEY request = Some PROTOCOL_VERSION /\ number_at COMMAND_KEY request = Some command.

(** After a stop, a fetch request is answered with one of the [allowed] records. *)
Definition fetch_answers (request : dictionary) (allowed : bytes -> Prop) (s : FS) : Prop :=
  forall s', stop s s' -> exists b, allowed b /\
  returns u s' (handle_request (E := E) store (Value.Dictionary request))
    (Ok (fetched_answer b (store_volume_id store) (store_volume_external store))).

Lemma handle_fetch request :
  asks FETCH_COMMAND request -> handle_request (E := E) store (Value.Dictionary request) = fetch store.
Proof. intros [Hv Hc]. unfold handle_request. by rewrite Hv, Hc, bool_decide_eq_true_2. Qed.

Lemma handle_save request :
  asks SAVE_COMMAND request ->
  handle_request (E := E) store (Value.Dictionary request) = save (Xart.get XART_KEY request).
Proof. intros [Hv Hc]. unfold handle_request. by rewrite Hv, Hc, bool_decide_eq_true_2. Qed.

Lemma stop_safe_answers request allowed s :
  asks FETCH_COMMAND request -> stop_safe u store allowed s -> fetch_answers request allowed s.
Proof.
  intros Ha Hs s' Hst. destruct (Hs s' Hst) as (b & Hb & Hr). exists b. split; [done|]. rewrite (handle_fetch _ Ha).
  intros w Hp Hf Hw. destruct (Hr w Hp Hf Hw) as (w' & Hw' & Hrest). exists w'. split; [|done].
  unfold fetch. by rewrite Hw'.
Qed.

(** C18. What the peer saves into a durable store directory is what it fetches. The store is
    at rest ([settled]): its directory exists and is synchronized, with its entry in the
    parent directory (the first save creates the directory without synchronizing the parent
    and can be lost, [XartStore.first_save_may_be_lost]). With any system calls
    failing at any point of a save request, every state of the files on the way is such that
    after a stop of the machine a fetch request is answered with the record before or with
    the one that was sent, byte for byte; and once the save was answered with success, a fetch
    request after any later stop is answered with the record that was sent. *)
Theorem saved_is_fetched old blob save_request fetch_request w :
  process u w -> FileSystem.history w = [] -> settled u old (fs w) -> bytes_ok blob ->
  asks SAVE_COMMAND save_request -> Xart.get XART_KEY save_request = Some (Value.Data blob) ->
  asks FETCH_COMMAND fetch_request ->
  exists d w', handle_request (E := E) store (Value.Dictionary save_request) w = (Ok d, w') /\
  Forall (fetch_answers fetch_request (fun b => b = wire_of old \/ b = blob)) (FileSystem.history w') /\
  (Xart.get SUCCESS_KEY d = Some (Value.Boolean true) -> fetch_answers fetch_request (fun b => b = blob) (fs w')).
Proof.
  intros Hp Hh Hset Hb Hsave Hx Hfetch. rewrite (handle_save _ Hsave), Hx. unfold save.
  destruct (save_atomic u store old blob w Hp Hh Hset Hb) as (x & w' & -> & Hn & Hh' & Hok & _).
  assert (Forall (fetch_answers fetch_request (fun b => b = wire_of old \/ b = blob)) (FileSystem.history w')) as Hall.
  { eapply Forall_impl; [exact Hh'|]. intros s. by apply stop_safe_answers. }
  destruct x as [[]|e|]; [| |done].
  - eexists _, w'. split; [reflexivity|]. split; [done|]. intros _. apply stop_safe_answers; [done|by apply Hok].
  - eexists _, w'. split; [reflexivity|]. split; [done|]. by destruct e.
Qed.
End Records.

(** The requests of a peer. *)
Definition example_request (command : Z) (entries : dictionary) : dictionary :=
  btree_from ([(VERSION_KEY, bridgexpc_uint64 1); (COMMAND_KEY, bridgexpc_uint64 command)] ++ entries).

Lemma saved_is_fetched_witness :
  exists d w', handle_request (E := ()) example_store (Value.Dictionary (example_request SAVE_COMMAND [(XART_KEY, Value.Data [2; 0; 0; 0; 7; 8])]))
      (example_world example_fs) = (Ok d, w') /\ Xart.get SUCCESS_KEY d = Some (Value.Boolean true) /\
  fetch_answers 0 example_store (E := ()) (example_request FETCH_COMMAND []) (fun b => b = [2; 0; 0; 0; 7; 8]) (fs w').
Proof.
  destruct (saved_is_fetched 0 example_store (E := ()) (Some [9]) [2; 0; 0; 0; 7; 8]
    (example_request SAVE_COMMAND [(XART_KEY, Value.Data [2; 0; 0; 0; 7; 8])]) (example_request FETCH_COMMAND []) (example_world example_fs))
    as (d & w' & Hx & _ & Hok).
  - apply xart_example_process.
  - reflexivity.
  - apply xart_example_settled.
  - repeat constructor; unfold is_u; lia.
  - split; vm_compute; reflexivity.
  - vm_compute; reflexivity.
  - split; vm_compute; reflexivity.
  - assert (Xart.get SUCCESS_KEY d = Some (Value.Boolean true)) as Hs.
    { replace d with saved_answer; [reflexivity|].
      assert (fst (handle_request (E := ()) example_store (Value.Dictionary (example_request SAVE_COMMAND [(XART_KEY, Value.Data [2; 0; 0; 0; 7; 8])]))
        (example_world example_fs)) = Ok saved_answer) as Hf by (vm_compute; reflexivity).
      rewrite Hx in Hf. cbn [fst] in Hf. by injection Hf as ->. }
    exists d, w'. split_and!; [exact Hx|exact Hs|by apply Hok].
Defined.
End XartProtocol.

(** ** A session *)

Module XartSession.
Import Framing Plist Transport XartLifecycle XartStore XartProtocol.

Open Scope string_scope.
Definition PROCESS_NAME : bytes := Text.str "xartstorageremoted".
Close Scope string_scope.

Inductive XartSessionError : Type :=
| ConnectionConfiguration (error : IoError.t)
| TransportE (error : TransportError)
| ExpectedPeerHello
| HelloE (error : Hello.HelloError)
| BinaryPlist (error : Plist.Error).

Inductive XartConnectionError : Type :=
| PeerMetadataUnavailable
| PeerAdmission (error : PeerAdmissionError)
| Session (error : XartSessionError).

(** The files and the stream. *)
Abbreviation connection := (world * Stream)%type.

Definition on_stream {E F A} (f : E -> F) (m : M Stream E A) : M connection F A := fun c =>
  let (r, s) := m (snd c) in (map_err f r, (fst c, s)).
Definition on_files {E A} (m : M world E A) : M connection E A := fun c =>
  let (r, w) := m (fst c) in (r, (w, snd c)).

(** [Frame::new] with the error of the transport. *)
Definition new_frame (message_type : Z) (body : bytes) : res XartSessionError Frame :=
  map_err (fun e => TransportE (FrameE e)) (frame_new message_type body).

Section Serve.
Context `{Allocator} (store : XartStore).

(** The loop. Every frame takes bytes of the stream, so that their number is fuel
    enough. *)
Fixpoint serve_loop (fuel : nat) : M connection XartSessionError () := fun c =>
  match fuel with
  | O => (Panic, c)
  | S fuel =>
      match receive_frame (snd c) with
      | (Ok frame, s) =>
          (if negb (message_type frame =? FRAME_BINARY_PLIST) then serve_loop fuel
           else
             do! request := lift (map_err BinaryPlist (decode (body frame))) in
             do! response := on_files (handle_request store request) in
             do! body := lift (map_err BinaryPlist (encode (Value.Dictionary response))) in
             do! response := lift (new_frame FRAME_BINARY_PLIST body) in
             do! _ := on_stream TransportE (send_frame response) in
             serve_loop fuel) (fst c, s)
      | (Err ConnectionClosed, s) => (Ok (), (fst c, s))
      | (Err error, s) => (Err (TransportE error), (fst c, s))
      | (Panic, s) => (Panic, (fst c, s))
      end
  end.

Definition serve_connection : M connection XartSessionError () :=
  do! hello_body := lift (map_err HelloE (Hello.encode_hello PROCESS_NAME)) in
  do! server_hello := lift (new_frame FRAME_HELLO hello_body) in
  do! _ := on_stream TransportE (send_frame server_hello) in
  do! peer_hello := on_stream TransportE receive_frame in
  if negb (message_type peer_hello =? FRAME_HELLO) then lift (Err ExpectedPeerHello)
  else
    do! _ := lift (map_err HelloE (Hello.validate_peer_hello (body peer_hello))) in
    fun c => serve_loop (S (length (fst (delivers (snd c))))) c.

(** An accepted socket: what the kernel answers for it, and its bytes. *)
Record TcpStream : Type := mkTcp {
  peer_addr : option SocketAddr;
  set_read_timeout : option IoError.t;
  set_write_timeout : option IoError.t
}.

Definition configured (failed : option IoError.t) : res XartSessionError () :=
  match failed with Some e => Err (ConnectionConfiguration e) | None => Ok () end.

Definition serve_admitted_tcp_connection (stream : TcpStream) (lifecycle : XartServiceLifecycle) (lease : DeviceLease)
    (listener_interface_index : Z) : M connection XartConnectionError () :=
  match peer_addr stream with
  | None => lift (Err PeerMetadataUnavailable)
  | Some peer =>
      with_admitted_peer lifecycle lease (mkObservation listener_interface_index peer)
        (mapM_err Session
          (do! _ := lift (configured (set_read_timeout stream)) in
           do! _ := lift (configured (set_write_timeout stream)) in
           serve_connection))
        PeerAdmission
  end.
End Serve.

(** *** The session as seen from the frames *)

(** The results of the writes to come. *)
Abbreviation writes := (list (option (nat * IoError.t))).

(** The session after the handshake, on a stream that offers the frames [fs] and then the
    error [e] and whose writes come to [ws], from the files [w]: the result, the responses
    that went out whole, the part of one that did not, and the files. A frame that is no
    property list is passed over, one that cannot be decoded ends the session, and every
    other gets one response, which decodes to the answer; a response that cannot be written
    ends the session with the write's error; and when the frames end, the session ends well
    if the connection was closed between frames and with the stream's error otherwise. *)
Inductive answered (store : XartStore)
    : list Frame -> TransportError -> writes -> world -> res XartSessionError () -> list Frame -> bytes -> world -> Prop :=
| answered_closed ws w : answered store [] ConnectionClosed ws w (Ok ()) [] [] w
| answered_failed e ws w :
    e <> ConnectionClosed -> answered store [] e ws w (Err (TransportE e)) [] [] w
| answered_skip f fs e ws w r out cut w' :
    message_type f <> FRAME_BINARY_PLIST -> answered store fs e ws w r out cut w' ->
    answered store (f :: fs) e ws w r out cut w'
| answered_bad f fs e ws w e' :
    message_type f = FRAME_BINARY_PLIST -> decode (body f) = Err e' ->
    answered store (f :: fs) e ws w (Err (BinaryPlist e')) [] [] w
| answered_reply f fs e ws w request d w1 bs ws1 r out cut w' :
    message_type f = FRAME_BINARY_PLIST -> decode (body f) = Ok request ->
    handle_request (E := XartSessionError) store request w = (Ok d, w1) -> decode bs = Ok (Value.Dictionary d) ->
    let response := mkFrame FRAME_BINARY_PLIST bs in
    put response ws = (Ok (), frame_bytes response, ws1) ->
    answered store fs e ws1 w1 r out cut w' -> answered store (f :: fs) e ws w r (response :: out) cut w'
| answered_unsent f fs e ws w request d w1 bs e' cut ws1 :
    message_type f = FRAME_BINARY_PLIST -> decode (body f) = Ok request ->
    handle_request (E := XartSessionError) store request w = (Ok d, w1) -> decode bs = Ok (Value.Dictionary d) ->
    let response := mkFrame FRAME_BINARY_PLIST bs in
    put response ws = (Err e', cut, ws1) -> cut `prefix_of` frame_bytes response ->
    answered store (f :: fs) e ws w (Err (TransportE e')) [] cut w1.

Section Theorems.
Context `{Allocator} (store : XartStore) (Hstore : store_ok store).

Lemma answer_encodes d :
  answer_ok d -> exists bs, encode (Value.Dictionary d) = Ok bs /\ decode bs = Ok (Value.Dictionary d) /\
  len bs <= MAX_FRAME_BODY_LEN.
Proof.
  intros [Hwf Hl]. destruct (PlistLimits.encode_total _ Hwf Hl) as [bs Hbs]. exists bs. split_and!; [done| |].
  - by apply encode_decode.
  - destruct (encode_layout _ _ Hbs) as (_ & _ & _ & _ & _ & Hlen). exact Hlen.
Qed.

Lemma new_frame_ok ty bs : len bs <= MAX_FRAME_BODY_LEN -> new_frame ty bs = Ok (mkFrame ty bs).
Proof.
  intros Hl. unfold new_frame, frame_new, header_new, validate_body_len. by replace (_ <? _) with false by lia.
Qed.

(** Sending leaves what is offered, and adds to what went out. *)
Lemma on_stream_send f w s :
  len (body f) <= MAX_FRAME_BODY_LEN ->
  on_stream TransportE (send_frame f) (w, s) =
    let '(r, out, ws) := put f (write_results s) in
    (map_err TransportE r, (w, mkStream (incoming s) ws (outgoing s ++ out))).
Proof.
  intros Hl. unfold on_stream. cbn [snd]. rewrite send_frame_put by done. by destruct (put f (write_results s)) as [[]].
Qed.

Lemma serve_loop_answered fs e : forall fuel w s r c',
  offers s fs e -> (length (fst (delivers s)) < fuel)%nat -> files_ok (FileSystem.fs w) ->
  serve_loop store fuel (w, s) = (r, c') ->
  exists out cut, answered store fs e (write_results s) w r out cut (fst c') /\
  outgoing (snd c') = outgoing s ++ concat (frame_bytes <$> out) ++ cut /\ r <> Panic.
Proof.
  induction fs as [|f fs IH]; intros fuel w s r c' Hc Hf Hw Hr; (destruct fuel as [|fuel]; [lia|]); cbn [serve_loop fst snd] in Hr.
  - destruct (receive_failed _ _ Hc) as (t & Ht & Hws & Ho). rewrite Ht in Hr. exists [], [].
    destruct e; injection Hr as <- <-; cbn; rewrite app_nil_r; (split_and!; [by constructor|done|done]).
  - destruct (receive_offered _ _ _ _ Hc) as (t & Ht & Hct & [Hws Ho] & Hlt). rewrite Ht in Hr.
    pose proof (offers_sendable _ _ _ Hc) as [[[_ Hbo] _] _]%Forall_cons. rewrite <- Hws.
    destruct (message_type f =? FRAME_BINARY_PLIST) eqn:Hty; cbn [negb] in Hr; b2p.
    2: { destruct (IH fuel w t r c' Hct ltac:(lia) Hw Hr) as (out & cut & Ha & Hout & Hn). exists out, cut. rewrite <- Ho.
         split_and!; [by constructor|done|done]. }
    destruct (decode_any (body f) Hbo) as [Hnp Hwf]. unfold bind at 1, lift in Hr.
    destruct (decode (body f)) as [request|e'|] eqn:Hdec; cbn [map_err] in Hr; [| |done].
    2: { injection Hr as <- <-. exists [], []. split_and!; [by constructor|cbn; by rewrite app_nil_r, Ho|done]. }
    destruct (handle_request_ok (E := XartSessionError) store request w Hstore Hw) as (d & w1 & Hh & Had & Hw1);
      [by apply (Hwf request)|].
    unfold bind at 1, on_files in Hr. cbn [fst snd] in Hr. rewrite Hh in Hr.
    destruct (answer_encodes d Had) as (bs & Hbs & Hdbs & Hl). unfold bind at 1 in Hr. rewrite Hbs in Hr. cbn [map_err] in Hr.
    unfold bind at 1 in Hr. rewrite new_frame_ok in Hr by done. unfold bind at 1 in Hr. rewrite on_stream_send in Hr by done.
    destruct (put_cases (mkFrame FRAME_BINARY_PLIST bs) (write_results t)) as [(ws & Hput)|(e' & cut & ws & Hput & Hcut)];
      rewrite Hput in Hr; cbn [map_err] in Hr.
    2: { injection Hr as <- <-. exists [], cut. split_and!; [by econstructor|cbn; by rewrite Ho|done]. }
    apply (IH fuel) in Hr as (out & cut & Ha & Hout & Hn); [|by apply offers_written|unfold delivers in *; cbn; lia|done].
    exists (mkFrame FRAME_BINARY_PLIST bs :: out), cut. split_and!; [by econstructor| |done].
    rewrite Hout. cbn [outgoing fmap list_fmap concat]. rewrite Ho, <- !app_assoc. done.
Qed.

(** The HELLO of the service; a peer accepts it. *)
Definition server_hello : Frame :=
  mkFrame FRAME_HELLO match Hello.encode_hello PROCESS_NAME with Ok bs => bs | _ => [] end.

Lemma server_hello_sent : exists bs,
  Hello.encode_hello PROCESS_NAME = Ok bs /\ server_hello = mkFrame FRAME_HELLO bs /\ len bs <= MAX_FRAME_BODY_LEN.
Proof.
  unfold server_hello. assert (Hello.good PROCESS_NAME) as Hg by (apply text_ok; vm_compute; reflexivity).
  destruct (Hello.encode_hello PROCESS_NAME) as [bs|e|] eqn:He; [|exfalso; vm_compute in He; discriminate He..].
  exists bs. split_and!; [done|done|]. pose proof (Hello.encode_hello_bound _ _ Hg He). unfold MAX_FRAME_BODY_LEN. lia.
Qed.

(** A whole session: what the service sends after its HELLO. The first frame must be the
    peer's HELLO. *)
Inductive session_outcome
    : list Frame -> TransportError -> writes -> world -> res XartSessionError () -> list Frame -> bytes -> world -> Prop :=
| session_closed e ws w : session_outcome [] e ws w (Err (TransportE e)) [] [] w
| session_no_hello f fs e ws w :
    message_type f <> FRAME_HELLO -> session_outcome (f :: fs) e ws w (Err ExpectedPeerHello) [] [] w
| session_bad_hello f fs e ws w e' :
    message_type f = FRAME_HELLO -> Hello.validate_peer_hello (body f) = Err e' ->
    session_outcome (f :: fs) e ws w (Err (HelloE e')) [] [] w
| session_served f fs e ws w r out cut w' :
    message_type f = FRAME_HELLO -> Hello.validate_peer_hello (body f) = Ok () -> answered store fs e ws w r out cut w' ->
    session_outcome (f :: fs) e ws w r out cut w'.

(** A session of one request, with every write taken. *)
Lemma one_request f g w r out cut w' request d :
  message_type f = FRAME_HELLO -> Hello.validate_peer_hello (body f) = Ok () ->
  message_type g = FRAME_BINARY_PLIST -> decode (body g) = Ok request ->
  fst (handle_request (E := XartSessionError) store request w) = Ok d ->
  session_outcome [f; g] ConnectionClosed [] w r out cut w' ->
  r = Ok () /\ cut = [] /\ exists bs, out = [mkFrame FRAME_BINARY_PLIST bs] /\ decode bs = Ok (Value.Dictionary d).
Proof.
  intros Hf Hv Hg Hq Hd Hs. inversion Hs as [| | |? ? ? ? ? ? ? ? ? _ _ Ha]; subst; [congruence..|].
  inversion Ha as [| | | |? ? ? ? ? ? ? ? bs ? ? ? ? ? _ Hb Hh1 Hbs ? Hput Ha2|? ? ? ? ? ? ? ? ? ? ? ? _ _ _ _ ? Hput _]; subst;
    [congruence..| |by rewrite put_completes in Hput].
  rewrite Hq in Hb. injection Hb as <-. rewrite Hh1 in Hd. cbn [fst] in Hd. injection Hd as ->.
  inversion Ha2; subst; [|done]. split; [done|]. split; [done|]. by exists bs.
Qed.

(** The session, with the write of the service's own HELLO. *)
Lemma serve_connection_outcome w s fs e r c' :
  offers s fs e -> files_ok (FileSystem.fs w) -> serve_connection store (w, s) = (r, c') ->
  r <> Panic /\
  ((exists ws out cut, put server_hello (write_results s) = (Ok (), frame_bytes server_hello, ws) /\
      session_outcome fs e ws w r out cut (fst c') /\
      outgoing (snd c') = outgoing s ++ frame_bytes server_hello ++ concat (frame_bytes <$> out) ++ cut) \/
   (exists e' cut ws, put server_hello (write_results s) = (Err e', cut, ws) /\ cut `prefix_of` frame_bytes server_hello /\
      r = Err (TransportE e') /\ c' = (w, mkStream (incoming s) ws (outgoing s ++ cut)))).
Proof.
  intros Hc Hw Hr. destruct server_hello_sent as (hb & He & Hsh & Hl). unfold serve_connection, bind at 1 2, lift in Hr.
  rewrite He in Hr. cbn [map_err] in Hr. rewrite new_frame_ok in Hr by done. rewrite <- Hsh in Hr.
  unfold bind at 1 in Hr. rewrite on_stream_send in Hr by (rewrite Hsh; done).
  destruct (put_cases server_hello (write_results s)) as [(ws & Hput)|(e' & cut & ws & Hput & Hcut)];
    rewrite Hput in Hr; cbn [map_err] in Hr.
  2: { injection Hr as <- <-. split; [done|]. right. by exists e', cut, ws. }
  enough (exists out cut, r <> Panic /\ session_outcome fs e ws w r out cut (fst c') /\
    outgoing (snd c') = (outgoing s ++ frame_bytes server_hello) ++ concat (frame_bytes <$> out) ++ cut) as (out & cut & Hn & Hs & Ho).
  { split; [done|]. left. exists ws, out, cut. split_and!; [done|done|]. by rewrite Ho, <- app_assoc. }
  set (t := mkStream (incoming s) ws (outgoing s ++ frame_bytes server_hello)) in *.
  assert (offers t fs e) as Hct by done. unfold bind at 1, on_stream in Hr. cbn [fst snd] in Hr.
  change (outgoing s ++ frame_bytes server_hello) with (outgoing t). clear Hc. destruct fs as [|f fs].
  - destruct (receive_failed _ _ Hct) as (t2 & Ht2 & _ & Ho2). rewrite Ht2 in Hr. cbn [map_err] in Hr. injection Hr as <- <-.
    exists [], []. split_and!; [done|constructor|cbn; by rewrite app_nil_r, Ho2].
  - destruct (receive_offered _ _ _ _ Hct) as (t2 & Ht2 & Hc2 & [Hws Ho2] & Hlt). rewrite Ht2 in Hr. cbn [map_err] in Hr.
    pose proof (offers_sendable _ _ _ Hct) as [[[_ Hbo] _] _]%Forall_cons.
    destruct (message_type f =? FRAME_HELLO) eqn:Hty; b2p; cbn [negb] in Hr.
    2: { injection Hr as <- <-. exists [], []. split_and!; [done|by constructor|cbn; by rewrite app_nil_r, Ho2]. }
    unfold bind in Hr. pose proof (Hello.validate_total (body f) Hbo) as Hnp.
    destruct (Hello.validate_peer_hello (body f)) as [[]|e'|] eqn:Hv; cbn [map_err] in Hr; [| |done].
    2: { injection Hr as <- <-. exists [], []. split_and!; [done|by constructor|cbn; by rewrite app_nil_r, Ho2]. }
    apply (serve_loop_answered fs e) in Hr as (out & cut & Ha & Hout & Hn); [|done|cbn [snd]; lia|done].
    rewrite Hws in Ha. exists out, cut. split_and!; [done|by apply session_served|]. by rewrite Hout, Ho2.
Qed.

(** C19. An accepted connection is served only to the coprocessor, and answered frame by
    frame, over any stream. In any history of device events, a connection whose peer is not
    the T1's own endpoint on the interface of the current lease is refused before anything is
    read, written or stored; so is one whose timeouts cannot be set. For the admitted peer
    the stream, of any bytes in any pieces, offers some whole frames and then an error (the
    end of the connection between frames, an end inside a frame, a failed read, bytes that
    are no frame, a body that cannot be allocated), and its writes succeed or fail as they
    will. The service sends its HELLO; if that fails the session ends with the write's error
    and nothing is read. Then it requires the peer's HELLO and does what the frames say one
    by one: each request is handled on the files that the one before left and gets exactly
    one response, which the peer decodes to the answer; a response that cannot be written
    ends the session with the write's error after a part of it; an undecodable request ends
    it too; and after the last frame the session ends, well if the connection was closed
    between frames and otherwise with the stream's error. So the session always ends,
    without a panic, whatever the stream, the files and the failures are. *)
Theorem xart_connection_served tcp l c lease index w s r c' :
  XartLifecycle.history l c -> bytes_ok (fst (delivers s)) -> files_ok (FileSystem.fs w) ->
  serve_admitted_tcp_connection store tcp l lease index (w, s) = (r, c') ->
  r <> Panic /\ exists fs e, offers s fs e /\
  ((exists p, peer_addr tcp = Some p /\ current c = Some lease /\
      bridgeos_peer (lease_interface_index lease) (mkObservation index p) /\
      set_read_timeout tcp = None /\ set_write_timeout tcp = None /\
      ((exists r0 ws out cut, r = map_err Session r0 /\
          put server_hello (write_results s) = (Ok (), frame_bytes server_hello, ws) /\
          session_outcome fs e ws w r0 out cut (fst c') /\
          outgoing (snd c') = outgoing s ++ frame_bytes server_hello ++ concat (frame_bytes <$> out) ++ cut) \/
       (exists e' cut ws, r = Err (Session (TransportE e')) /\
          put server_hello (write_results s) = (Err e', cut, ws) /\ cut `prefix_of` frame_bytes server_hello /\
          c' = (w, mkStream (incoming s) ws (outgoing s ++ cut))))) \/
   (exists e', r = Err e' /\ c' = (w, s) /\
      match e' with
      | PeerMetadataUnavailable => peer_addr tcp = None
      | PeerAdmission _ => forall p, peer_addr tcp = Some p ->
          ~ (current c = Some lease /\ bridgeos_peer (lease_interface_index lease) (mkObservation index p))
      | Session e' => exists i, e' = ConnectionConfiguration i /\ (set_read_timeout tcp = Some i \/ set_write_timeout tcp = Some i)
      end)).
Proof.
  intros Hh Hb Hw Hr. destruct (offers_total s Hb) as (fs & e & Hc).
  enough (r <> Panic /\ _) as [Hn Hx] by (split; [exact Hn|]; exists fs, e; split; [exact Hc|exact Hx]).
  unfold serve_admitted_tcp_connection in Hr.
  destruct (peer_addr tcp) as [p|] eqn:Hp; [|injection Hr as <- <-; split; [done|right]; by exists PeerMetadataUnavailable].
  destruct (admit_iff l c lease (mkObservation index p) (history_agrees l c Hh)) as [Hiff Hnp].
  unfold with_admitted_peer, bind at 1, lift in Hr.
  destruct (admit_peer l lease (mkObservation index p)) as [[]|e'|]; cbn [map_err] in Hr; [| |done].
  2: { injection Hr as <- <-. split; [done|]. right. exists (PeerAdmission e'). split_and!; [done|done|].
       intros p' [= <-] Hx. apply Hiff in Hx. done. }
  destruct (proj1 Hiff eq_refl) as [Hcur Hpeer]. unfold mapM_err, bind, configured in Hr.
  destruct (set_read_timeout tcp) as [i|] eqn:H1.
  { injection Hr as <- <-. split; [done|]. right. eexists. split_and!; [reflexivity|done|]. exists i. by split; [|left]. }
  destruct (set_write_timeout tcp) as [i|] eqn:H2.
  { injection Hr as <- <-. split; [done|]. right. eexists. split_and!; [reflexivity|done|]. exists i. by split; [|right]. }
  destruct (serve_connection store (w, s)) as [r0 c0] eqn:Hs. injection Hr as <- <-.
  destruct (serve_connection_outcome w s fs e r0 c0 Hc Hw Hs) as (Hn & Hor).
  split; [by destruct r0|]. left. exists p. split_and!; [done..|].
  destruct Hor as [(ws & out & cut & Hput & Ho & Hout)|(e' & cut & ws & Hput & Hcut & -> & ->)].
  - left. exists r0, ws, out, cut. done.
  - right. exists e', cut, ws. done.
Qed.
End Theorems.

(** A peer that fetches the record and leaves. *)
Definition example_lifecycle : XartServiceLifecycle := snd (device_added example_device lifecycle_default).
Definition example_fetch : Frame :=
  mkFrame FRAME_BINARY_PLIST match encode (Value.Dictionary (example_request FETCH_COMMAND [])) with Ok bs => bs | _ => [] end.
Definition example_frames : list Frame := [Session.ex_hello; example_fetch].
Definition example_tcp : TcpStream := mkTcp (Some (V6 BRIDGEOS_XART_PEER 7)) None None.

Lemma xart_connection_served_witness :
  exists w' s' bs, serve_admitted_tcp_connection example_store example_tcp example_lifecycle (mkLease 7 1) 7
      (example_world example_fs, Session.stream_of example_frames) = (Ok (), (w', s')) /\
  decode bs = Ok (Value.Dictionary (fetched_answer [1; 0; 0; 0; 9] (replicate 16 34) false)) /\
  outgoing s' = frame_bytes server_hello ++ frame_bytes (mkFrame FRAME_BINARY_PLIST bs).
Proof.
  assert (XartLifecycle.history example_lifecycle (mkContract (Some (mkLease 7 1)) [mkLease 7 1])) as Hh.
  { eapply (history_next _ _ (Added example_device)); [apply history_start|vm_compute; reflexivity|].
    constructor; [vm_compute; reflexivity|done|vm_compute; done|constructor]. }
  destruct (serve_admitted_tcp_connection example_store example_tcp example_lifecycle (mkLease 7 1) 7
      (example_world example_fs, Session.stream_of example_frames)) as [r [w' s']] eqn:Hr.
  assert (Session.carries (Session.stream_of example_frames) example_frames) as Hcar.
  { split; [apply (bool_decide_unpack _); vm_compute; exact I|]. split; [vm_compute; reflexivity|reflexivity]. }
  destruct (Session.carries_offers Session.unlimited_reserves _ _ Hcar) as [Hoff Hws].
  destruct (xart_connection_served example_store
    ltac:(split; [repeat constructor; unfold is_u; lia|reflexivity]) example_tcp example_lifecycle _ (mkLease 7 1) 7
    (example_world example_fs) (Session.stream_of example_frames) r (w', s') Hh (proj1 Hoff)) as [_ (fs & e & Hoff' & [Hok|Hbad])].
  - intros i n Hi. unfold example_world, example_fs in Hi. cbn [FileSystem.fs FileSystem.nodes] in Hi.
    apply lookup_insert_Some in Hi as [[_ <-]|[_ [_ <-]%lookup_singleton_Some]]; [done|]. repeat constructor; unfold is_u; lia.
  - exact Hr.
  - destruct (reads_unique _ _ _ _ _ _ (proj2 Hoff) (proj2 Hoff')) as [-> ->].
    destruct Hok as (p & _ & _ & _ & _ & _ & [(r0 & ws & out & cut & -> & Hput & Hs & Hout)|(e' & cut & ws & _ & Hput & _)]);
      rewrite Hws, put_completes in Hput; [|discriminate Hput]. injection Hput as <-.
    assert (fst (handle_request (E := XartSessionError) example_store (Value.Dictionary (example_request FETCH_COMMAND []))
      (example_world example_fs)) = Ok (fetched_answer [1; 0; 0; 0; 9] (replicate 16 34) false)) as Hd by (vm_compute; reflexivity).
    assert (decode (body example_fetch) = Ok (Value.Dictionary (example_request FETCH_COMMAND []))) as Hq by (vm_compute; reflexivity).
    assert (Hello.validate_peer_hello (body Session.ex_hello) = Ok ()) as Hv by (vm_compute; reflexivity).
    destruct (one_request example_store Session.ex_hello example_fetch _ _ _ _ _ _ _ eq_refl Hv eq_refl Hq Hd Hs)
      as (-> & -> & bs & -> & Hbs).
    exists w', s', bs. split_and!; [reflexivity|exact Hbs|].
    cbn [snd] in Hout. rewrite Hout. cbn [fmap list_fmap concat]. by rewrite !app_nil_r.
  - exfalso. destruct Hbad as (e' & -> & _).
    assert (fst (serve_admitted_tcp_connection example_store example_tcp example_lifecycle (mkLease 7 1) 7
      (example_world example_fs, Session.stream_of example_frames)) = Ok ()) as Hx by (vm_compute; reflexivity).
    rewrite Hr in Hx. discriminate Hx.
Defined.
End XartSession.
