(* ===== verification/TouchBarService.v ===== *)
(** * The Touch Bar service loop

    [t1-touchbar-hw/src/service.rs]: one client at a time is admitted, sends requests,
    registers frame buffers, and gets answers, releases and input frames, over the wire
    messages, the frame registry and the input state of the other files.

    The operating system below it, [t1-platform], is the class [Platform]: each call takes
    the state of the outside and returns its result and the state after it, so that every
    behaviour of the devices is an instance. Calls that the outside can see are also noted
    in a [log], which the program never reads; the contract speaks about it. *)

From S2P Require Import Prelude Effects FrameState Digitizer Packet Wire.
From Stdlib Require Floats.

(** ** The outside *)

Module Outside.

Inductive BrightnessKind : Type := Display | Keyboard.
Inductive BrightnessStep : Type := StepDown | StepUp.
Record BrightnessSetting : Type := mkSetting { set_kind : BrightnessKind; device_name : bytes; set_value : Z }.

Inductive TouchBarKey : Type :=
| Escape | F1 | F2 | F3 | F4 | F5 | F6 | F7 | F8 | F9 | F10 | F11 | F12.

(** [SeqPacketClient::send]: done, not now ([WouldBlock] and [Interrupted]), or failed. *)
Inductive SendResult : Type := SendOk | SendLater | SendFailed.
(** [receive_at_most_one_fd]. *)
Inductive ReceiveResult (Fd : Type) : Type :=
| ReceivePacket (packet : bytes) (descriptor : option Fd)
| ReceiveLater
| ReceiveFailed.
Arguments ReceivePacket {Fd}.
Arguments ReceiveLater {Fd}.
Arguments ReceiveFailed {Fd}.

(** [Result<CancelTouchIdOutcome, CancelTouchIdError>]. *)
Inductive CancelResult : Type := Delivered | Denied | CancelFailed.
Inductive DigitizerRead : Type := Report (payload : bytes) | DigitizerIdle.
Inductive FnRead : Type := Edges (pressed : list bool) | Resync | FnIdle.
Record ReadyInputs : Type := mkReady { ready_digitizer : bool; ready_function : bool }.
Record ClientInterest : Type := mkInterest { readable : bool; writable : bool }.

(** The geometry of the display. *)
Record Geometry : Type := mkGeometry { geo_width : Z; geo_height : Z; geo_stride : Z; geo_byte_length : Z }.

(** What the service calls. A [bool] is [is_ok]; [None] is [Err]. [Mem] is a mapped frame. *)
Class Platform (P Fd Mem : Type) : Type := {
  activation : P -> bool * P;
  adopt : P -> bool * P;
  display_open : P -> option Geometry * P;
  digitizer_open : P -> bool * P;
  function_open : P -> bool * P;
  keyboard_create : P -> bool * P;
  brightness_discover : P -> P;
  session_new : P -> bool * P;
  instant_now : P -> Duration * P;
  session_refresh : P -> bool * P;
  session_admit : Z -> P -> bool * P;
  session_release : P -> P;
  session_set_brightness : BrightnessKind -> bytes -> Z -> P -> bool * P;
  available : BrightnessKind -> P -> bool;
  setting : BrightnessKind -> Z -> P -> option BrightnessSetting * P;
  step_setting : BrightnessKind -> BrightnessStep -> P -> option BrightnessSetting * P;
  disable : BrightnessKind -> P -> P;
  tap : TouchBarKey -> P -> bool * P;
  release_all : P -> bool * P;
  touchid_cancel_ffi_cancel : P -> Z * P;
  frame_accept : Fd -> Z -> P -> option Mem * P;
  copy_into : Mem -> P -> bool * P;
  present_rectangles : list FrameState.DamageRectangle -> P -> bool * P;
  send : Fd -> bytes -> P -> SendResult * P;
  receive : Fd -> P -> ReceiveResult Fd * P;
  listener_ready : P -> option bool * P;
  accept : P -> option Fd * P;
  peer_user : Fd -> P -> option Z * P;
  peer_in_group : Fd -> P -> bool * P;
  wait_events : option (Fd * ClientInterest) -> P -> option ReadyInputs * P;
  digitizer_read : P -> option DigitizerRead * P;
  function_read : P -> option FnRead * P;
  function_pressed : P -> option bool * P
}.

(** What is noted. *)
Inductive effect {Fd Mem : Type} : Type :=
| PeerIs (fd : Fd) (user : option Z)
| InGroup (fd : Fd) (ok : bool)
| SessionAdmitted (user : Z) (ok : bool)
| Connected (fd : Fd)
| SessionChecked (ok : bool)
| Received (fd : Fd) (packet : bytes) (has_descriptor : bool) (request : Wire.Envelope Wire.ClientMessage.t)
| Mapped (mem : option Mem)
| Tapped (key : TouchBarKey) (ok : bool)
| KeysReleased (ok : bool)
| BrightnessSet (kind : BrightnessKind) (setting : BrightnessSetting) (ok : bool)
| TouchIdCancelled (outcome : CancelResult)
| Sent (fd : Fd) (packet : bytes)
| Shown (mem : Mem) (damage : list FrameState.DamageRectangle) (ok : bool)
| Disconnected
| SessionReleased.
Arguments effect : clear implicits.

End Outside.

Module TouchBarService.
Import Outside Wire.

Definition INPUT_WAIT_MS : Z := 10.
Definition SESSION_REVALIDATE_INTERVAL : Duration := from_millis 50.
Definition BRIGHTNESS_ACTION_INTERVAL : Duration := from_millis 20.
Definition MAX_INPUT_DRAIN : nat := 32.
Definition BASE_SERVICE_FEATURES : FeatureBits.t :=
  Z.lor FeatureBits.INITIAL_SERVICE FeatureBits.TOUCH_ID_CANCELLATION.

(** [ServiceError], without the causes of a display failure. *)
Inductive ServiceError : Type := Activation | Listener | DisplayError | Input | KeyboardError | Session | GeometryError.

(** ** Pure parts *)

Definition platform_key (key : KeyCode.t) : TouchBarKey :=
  match key with
  | KeyCode.Escape => Escape | KeyCode.F1 => F1 | KeyCode.F2 => F2 | KeyCode.F3 => F3 | KeyCode.F4 => F4
  | KeyCode.F5 => F5 | KeyCode.F6 => F6 | KeyCode.F7 => F7 | KeyCode.F8 => F8 | KeyCode.F9 => F9
  | KeyCode.F10 => F10 | KeyCode.F11 => F11 | KeyCode.F12 => F12
  end.

Definition frame_error_code (error : FrameState.FrameStateError) : ErrorCode.t :=
  match error with
  | FrameState.TooManyBuffers => ErrorCode.ResourceLimit
  | FrameState.UnknownBuffer => ErrorCode.UnknownBuffer
  | FrameState.BufferInFlight => ErrorCode.BufferBusy
  | _ => ErrorCode.InvalidBuffer
  end.

Definition cancellation_response (result : CancelResult) : ServiceMessage.t :=
  match result with
  | Delivered => ServiceMessage.Ack
  | Denied => ServiceMessage.Error ErrorCode.ActionDenied
  | CancelFailed => ServiceMessage.Error ErrorCode.IoFailure
  end.

Definition ancillary (has_descriptor : bool) : AncillaryMetadata :=
  mkAncillary (if has_descriptor then 1 else 0) false false.

Definition client_interest (has_control has_input : bool) : ClientInterest :=
  mkInterest (negb has_control) (has_control || has_input).

(** [value.round().clamp(0.0, maximum) as u32] on the value that the float stands for:
    rounding, clamping and the cast are exact there, halves go away from zero, and a NaN is
    cast to zero. *)
Definition rounded_coordinate (value : Digitizer.float) (maximum : Z) : Z :=
  match FloatOps.Prim2SF value with
  | SpecFloat.S754_nan | SpecFloat.S754_zero _ => 0
  | SpecFloat.S754_infinity negative => if negative then 0 else maximum
  | SpecFloat.S754_finite true _ _ => 0
  | SpecFloat.S754_finite false m e =>
      Z.min maximum
        (if 0 <=? e then Z.pos m * 2 ^ e else (2 * Z.pos m + 2 ^ (- e)) / 2 ^ (- e + 1))
  end.

Definition normalize_input (frame : Digitizer.InputFrame) (dimensions : Digitizer.DisplayDimensions) : WireInputFrame :=
  let max_x := Digitizer.width dimensions - 1 in
  let max_y := Digitizer.height dimensions - 1 in
  mkInputFrame (Z.min (Digitizer.timestamp frame) (umax 64)) (Digitizer.frame_fn_pressed frame)
    ((fun contact =>
        mkInputContact (Digitizer.dc_id contact) (Digitizer.dc_tip contact) (Digitizer.dc_in_range contact)
          (rounded_coordinate (Digitizer.dc_x contact) max_x) (rounded_coordinate (Digitizer.dc_y contact) max_y))
     <$> Digitizer.frame_contacts frame).

Definition frame_setup (g : Geometry) : res ServiceError (Digitizer.DisplayDimensions * FrameState.FrameLayout) :=
  let! layout := map_err (fun _ => GeometryError) (FrameState.layout_new (geo_width g) (geo_height g)) in
  if negb (geo_stride g =? FrameState.stride layout) || negb (geo_byte_length g =? FrameState.byte_length layout)
  then Err GeometryError
  else
    let! dimensions := map_err (fun _ => GeometryError)
      (Digitizer.dims_new (FrameState.width layout) (FrameState.height layout)) in
    Ok (dimensions, layout).

Section Service.
Context {P Fd Mem : Type} `{!Platform P Fd Mem}.

(** The outside and the log. *)
Record Env : Type := mkEnv { outside : P; log : list (effect Fd Mem) }.

Definition io (A : Type) : Type := Env -> A * Env.

Definition call {A} (op : P -> A * P) : io A := fun e =>
  let (a, p) := op (outside e) in (a, mkEnv p (log e)).
Definition call_noted {A} (op : P -> A * P) (f : A -> effect Fd Mem) : io A := fun e =>
  let (a, p) := op (outside e) in (a, mkEnv p (log e ++ [f a])).
Definition note (x : effect Fd Mem) (e : Env) : Env := mkEnv (outside e) (log e ++ [x]).

(** ** Brightness *)

Record HardwareActions : Type := mkActions { display_last : option Duration; keyboard_last : option Duration }.

Definition features (p : P) : FeatureBits.t :=
  let bits := BASE_SERVICE_FEATURES in
  let bits := if available Display p then Z.lor bits FeatureBits.DISPLAY_BRIGHTNESS else bits in
  if available Keyboard p then Z.lor bits FeatureBits.KEYBOARD_BACKLIGHT else bits.

Definition last_of (kind : BrightnessKind) (a : HardwareActions) : option Duration :=
  match kind with Display => display_last a | Keyboard => keyboard_last a end.
Definition set_last (kind : BrightnessKind) (now : Duration) (a : HardwareActions) : HardwareActions :=
  match kind with
  | Display => mkActions (Some now) (keyboard_last a)
  | Keyboard => mkActions (display_last a) (Some now)
  end.

Definition too_soon (now : Duration) (last : option Duration) : bool :=
  match last with Some previous => saturating_sub now previous <? BRIGHTNESS_ACTION_INTERVAL | None => false end.

(** The common part of the two methods; [find] is [setting] or [step_setting]. *)
Definition change_brightness (kind : BrightnessKind) (find : P -> option BrightnessSetting * P)
    (a : HardwareActions) : io (ServiceMessage.t * HardwareActions) := fun e =>
  if negb (available kind (outside e)) then ((ServiceMessage.Error ErrorCode.UnsupportedFeature, a), e)
  else
    let (now, e) := call instant_now e in
    if too_soon now (last_of kind a) then ((ServiceMessage.Error ErrorCode.ResourceLimit, a), e)
    else
      let a := set_last kind now a in
      let (found, e) := call find e in
      match found with
      | None => ((ServiceMessage.Error ErrorCode.IoFailure, a), e)
      | Some setting =>
          let (ok, e) := call_noted (session_set_brightness (set_kind setting) (device_name setting) (set_value setting))
                           (BrightnessSet kind setting) e in
          if ok then ((ServiceMessage.Ack, a), e)
          else ((ServiceMessage.Error ErrorCode.IoFailure, a), mkEnv (disable kind (outside e)) (log e))
      end.

Definition set_brightness (kind : BrightnessKind) (percentage : Z) := change_brightness kind (setting kind percentage).
Definition step_brightness (kind : BrightnessKind) (direction : StepDirection) :=
  change_brightness kind (step_setting kind match direction with Down => StepDown | Up => StepUp end).

(** ** The connection *)

Inductive AfterSend : Type :=
| NoAction
| Establish (minor : Z)
| Present (buffer_id frame_id : Z) (damage : list FrameState.DamageRectangle)
| Release (buffer_id frame_id : Z) (close_after : bool)
| Close.

Record PendingPacket : Type := mkPending { packet : bytes; after_send : AfterSend }.

Record Connection : Type := mkConnection {
  descriptor : Fd;
  established : bool;
  negotiated_minor : option Z;
  frames : FrameState.FrameState Z Z;
  buffers : list (Z * Mem);
  control : option PendingPacket;
  input : option bytes;
  needs_full_present : bool
}.

Context (dimensions : Digitizer.DisplayDimensions) (layout : FrameState.FrameLayout).

Definition connection_new (fd : Fd) : Connection :=
  mkConnection fd false None (FrameState.new layout) [] None None true.

Definition with_control (p : option PendingPacket) (c : Connection) : Connection :=
  mkConnection (descriptor c) (established c) (negotiated_minor c) (frames c) (buffers c) p (input c) (needs_full_present c).
Definition with_input (i : option bytes) (c : Connection) : Connection :=
  mkConnection (descriptor c) (established c) (negotiated_minor c) (frames c) (buffers c) (control c) i (needs_full_present c).
Definition with_frames (f : FrameState.FrameState Z Z) (c : Connection) : Connection :=
  mkConnection (descriptor c) (established c) (negotiated_minor c) f (buffers c) (control c) (input c) (needs_full_present c).
Definition with_buffers (b : list (Z * Mem)) (c : Connection) : Connection :=
  mkConnection (descriptor c) (established c) (negotiated_minor c) (frames c) b (control c) (input c) (needs_full_present c).

Definition phase_dimensions (c : Connection) : option Digitizer.DisplayDimensions :=
  if established c then Some dimensions else None.

(** What the requests change: the connection, the brightness limits and the outside. *)
Record Desk : Type := mkDesk { conn : Connection; actions : HardwareActions; env : Env }.

Abbreviation step A := (M Desk () A).

Definition on_conn (f : Connection -> Connection) : step () := fun s => (Ok (), mkDesk (f (conn s)) (actions s) (env s)).
Definition on_env {A} (m : io A) : step A := fun s => let (a, e) := m (env s) in (Ok a, mkDesk (conn s) (actions s) e).

Definition queue_control (request_id : Z) (message : ServiceMessage.t) (dims : option Digitizer.DisplayDimensions)
    (after : AfterSend) : step () :=
  do! bs := lift (map_err (fun _ => ()) (encode_service (mkEnvelope request_id message) dims)) in
  on_conn (with_control (Some (mkPending bs after))).

Definition queue_error (request_id : Z) (code : ErrorCode.t) : step () := fun s =>
  queue_control request_id (ServiceMessage.Error code) (phase_dimensions (conn s)) NoAction s.

Definition queue_input (frame : Digitizer.InputFrame) (c : Connection) : res () Connection :=
  if negb (established c) then Ok c
  else
    match encode_service (mkEnvelope 0 (ServiceMessage.InputFrame (normalize_input frame dimensions))) (Some dimensions) with
    | Ok bs => Ok (with_input (Some bs) c)
    | Err _ => Ok c
    | Panic => Panic
    end.

(** ** Requests *)

(** [touchid_cancel.rs]: the code of the native call, and its meaning. *)
Definition decode_result (result : Z) : CancelResult :=
  if result =? 0 then Delivered else if result =? 1 then Denied else CancelFailed.

Definition cancel_touch_id (p : P) : CancelResult * P :=
  let (result, p) := touchid_cancel_ffi_cancel p in (decode_result result, p).

Definition queue_hello (request_id : Z) (required : FeatureBits.t) (client_minor : Z) : step () := fun s =>
  if negb (FeatureBits.contains (features (outside (env s))) required)
  then queue_control request_id (ServiceMessage.Error ErrorCode.UnsupportedFeature) None Close s
  else
    let minor := Z.min client_minor PROTOCOL_MINOR in
    queue_control request_id
      (ServiceMessage.HelloAck (mkHelloAck minor (Digitizer.width dimensions) (Digitizer.height dimensions) Xrgb8888 3))
      None (Establish minor) s.

Definition queue_buffer_registration (request_id : Z) (buffer : RegisterBuffer) (fd : Fd) : step () :=
  do! mapped := on_env (call_noted (frame_accept fd (FrameState.byte_length layout)) Mapped) in
  match mapped with
  | None => queue_error request_id ErrorCode.InvalidBuffer
  | Some frame => fun s =>
      let metadata := FrameState.mkMetadata (stride buffer) (byte_length buffer) in
      match FrameState.register_buffer (frames (conn s)) (reg_buffer_id buffer) metadata with
      | (Ok _, f) =>
          (do! _ := on_conn (fun c => with_buffers (buffers c ++ [(reg_buffer_id buffer, frame)]) (with_frames f c)) in
           queue_control request_id ServiceMessage.Ack (Some dimensions) NoAction) s
      | (Err error, f) => (do! _ := on_conn (with_frames f) in queue_error request_id (frame_error_code error)) s
      | (Panic, _) => (Panic, s)
      end
  end.

Definition queue_frame_submission (request_id : Z) (frame : SubmitFrame) : step () := fun s =>
  match FrameState.submit_frame (frames (conn s)) (sub_buffer_id frame) (sub_frame_id frame) (damage frame) with
  | (Ok submission, f) =>
      (do! _ := on_conn (with_frames f) in
       queue_control request_id ServiceMessage.Ack (Some dimensions)
         (Present (FrameState.vs_buffer_id submission) (FrameState.vs_frame_id submission) (FrameState.vs_damage submission))) s
  | (Err error, f) => (do! _ := on_conn (with_frames f) in queue_error request_id (frame_error_code error)) s
  | (Panic, _) => (Panic, s)
  end.

(** The loop over the keys: a failed tap ends it. *)
Fixpoint tap_keys (request_id : Z) (keys : list KeyCode.t) : step () :=
  match keys with
  | [] => queue_control request_id ServiceMessage.Ack (Some dimensions) NoAction
  | key :: keys =>
      do! ok := on_env (call_noted (tap (platform_key key)) (Tapped (platform_key key))) in
      if ok then tap_keys request_id keys
      else
        do! released := on_env (call_noted release_all KeysReleased) in
        if released then queue_error request_id ErrorCode.IoFailure else lift (Err ())
  end.

Definition on_actions {A} (m : HardwareActions -> io (A * HardwareActions)) : step A := fun s =>
  let '((a, acts), e) := m (actions s) (env s) in (Ok a, mkDesk (conn s) acts e).

Definition queue_brightness (request_id : Z) (kind : BrightnessKind) (percentage : Z) : step () :=
  do! message := on_actions (set_brightness kind percentage) in
  queue_control request_id message (Some dimensions) NoAction.

Definition queue_brightness_step (request_id : Z) (kind : BrightnessKind) (direction : StepDirection) : step () := fun s =>
  if default 0 (negotiated_minor (conn s)) <? 1 then queue_error request_id ErrorCode.Unsupported s
  else
    (do! message := on_actions (step_brightness kind direction) in
     queue_control request_id message (Some dimensions) NoAction) s.

Definition queue_cancellation (request_id : Z) : step () :=
  do! result := on_env (call_noted cancel_touch_id TouchIdCancelled) in
  queue_control request_id (cancellation_response result) (Some dimensions) NoAction.

Definition handle_request (envelope : Envelope ClientMessage.t) (fd : option Fd) : step () :=
  let id := request_id envelope in
  match message envelope with
  | ClientMessage.Hello hello => queue_hello id (required_features hello) (hello_minor hello)
  | ClientMessage.RegisterBuffer buffer =>
      match fd with
      | Some fd => queue_buffer_registration id buffer fd
      | None => lift (Err ())
      end
  | ClientMessage.SubmitFrame frame => queue_frame_submission id frame
  | ClientMessage.TapKeys keys => tap_keys id keys
  | ClientMessage.CancelTouchId => queue_cancellation id
  | ClientMessage.SetDisplayBrightness percentage => queue_brightness id Display percentage
  | ClientMessage.SetKeyboardBacklight percentage => queue_brightness id Keyboard percentage
  | ClientMessage.StepDisplayBrightness direction => queue_brightness_step id Display direction
  | ClientMessage.StepKeyboardBacklight direction => queue_brightness_step id Keyboard direction
  | ClientMessage.Unknown _ => queue_error id ErrorCode.Unsupported
  end.

Definition receive_request : step () := fun s =>
  match on_env (call (receive (descriptor (conn s)))) s with
  | (Ok (ReceivePacket bs fd), s) =>
      match decode_client bs (ancillary (is_some fd)) (phase_dimensions (conn s)) with
      | Ok envelope =>
          handle_request envelope fd (mkDesk (conn s) (actions s) (note (Received (descriptor (conn s)) bs (is_some fd) envelope) (env s)))
      | Err _ => (Err (), s)
      | Panic => (Panic, s)
      end
  | (Ok ReceiveLater, s) => (Ok (), s)
  | (Ok ReceiveFailed, s) | (Err _, s) => (Err (), s)
  | (Panic, s) => (Panic, s)
  end.

(** ** Sending *)

Definition expand_first_present_damage (full : bool) (damage : list FrameState.DamageRectangle)
    : list FrameState.DamageRectangle :=
  if full then [FrameState.mkRect 0 0 (Digitizer.width dimensions) (Digitizer.height dimensions)] else damage.

(** The array of sixty-four rectangles, filled from the damage, and the slice of it. *)
Definition native_damage (damage : list FrameState.DamageRectangle) : res () (list FrameState.DamageRectangle) :=
  let native := take 64 damage ++ replicate (64 - length damage) (FrameState.mkRect 0 0 0 0) in
  slice native 0 (length damage).

(** Copying the frame and presenting it: the outcome is noted. *)
Definition show (mem : Mem) (damage : list FrameState.DamageRectangle) : step bool := fun s =>
  match call (copy_into mem) (env s) with
  | (false, e) => (Ok false, mkDesk (conn s) (actions s) (note (Shown mem damage false) e))
  | (true, e) =>
      match native_damage damage with
      | Ok native =>
          let (ok, e) := call_noted (present_rectangles native) (Shown mem native) e in
          (Ok ok, mkDesk (conn s) (actions s) e)
      | Err u => (Err u, mkDesk (conn s) (actions s) e)
      | Panic => (Panic, mkDesk (conn s) (actions s) e)
      end
  end.

Definition find_buffer (buffer_id : Z) (bs : list (Z * Mem)) : option Mem :=
  snd <$> List.find (fun b => fst b =? buffer_id) bs.

Definition apply_after_send (action : AfterSend) : step () :=
  match action with
  | NoAction => ret ()
  | Establish minor =>
      on_conn (fun c => mkConnection (descriptor c) true (Some minor) (frames c) (buffers c) (control c) (input c)
                          (needs_full_present c))
  | Close => lift (Err ())
  | Present buffer_id frame_id damage => fun s =>
      let damage := expand_first_present_damage (needs_full_present (conn s)) damage in
      let c := mkConnection (descriptor (conn s)) (established (conn s)) (negotiated_minor (conn s)) (frames (conn s))
                 (buffers (conn s)) (control (conn s)) (input (conn s)) false in
      (do! presented :=
         match find_buffer buffer_id (buffers c) with Some mem => show mem damage | None => ret false end in
       queue_control 0 (ServiceMessage.FrameReleased (mkReleased buffer_id frame_id)) (Some dimensions)
         (Release buffer_id frame_id (negb presented))) (mkDesk c (actions s) (env s))
  | Release buffer_id frame_id close_after => fun s =>
      match FrameState.release_frame (frames (conn s)) buffer_id frame_id with
      | (Ok _, f) => (do! _ := on_conn (with_frames f) in if close_after then lift (Err ()) else ret ()) s
      | (Err _, f) => (do! _ := on_conn (with_frames f) in lift (Err ())) s
      | (Panic, _) => (Panic, s)
      end
  end.

Definition send_packet (bs : bytes) : step SendResult := fun s =>
  match call (send (descriptor (conn s)) bs) (env s) with
  | (SendOk, e) => (Ok SendOk, mkDesk (conn s) (actions s) (note (Sent (descriptor (conn s)) bs) e))
  | (r, e) => (Ok r, mkDesk (conn s) (actions s) e)
  end.

(** The second half of [flush_connection]. *)
Definition flush_input : step () := fun s =>
  match control (conn s), input (conn s) with
  | None, Some bs =>
      (do! _ := on_conn (with_input None) in
       do! sent := send_packet bs in
       match sent with
       | SendOk => ret ()
       | SendLater => on_conn (with_input (Some bs))
       | SendFailed => lift (Err ())
       end) s
  | _, _ => (Ok (), s)
  end.

Definition flush_connection : step () := fun s =>
  match control (conn s) with
  | Some pending =>
      (do! _ := on_conn (with_control None) in
       do! sent := send_packet (packet pending) in
       match sent with
       | SendOk => do! _ := apply_after_send (after_send pending) in flush_input
       | SendLater => on_conn (with_control (Some pending))
       | SendFailed => lift (Err ())
       end) s
  | None => flush_input s
  end.

(** ** The loop *)

Record Service : Type := mkService {
  connection : option Connection;
  hardware_actions : HardwareActions;
  input_state : Digitizer.InputState;
  last_session_check : Duration;
  origin : Duration;
  world : Env
}.

Abbreviation loop A := (M Service ServiceError A).

Definition with_connection (c : option Connection) (s : Service) : Service :=
  mkService c (hardware_actions s) (input_state s) (last_session_check s) (origin s) (world s).
Definition with_world (e : Env) (s : Service) : Service :=
  mkService (connection s) (hardware_actions s) (input_state s) (last_session_check s) (origin s) e.
Definition with_state (i : Digitizer.InputState) (s : Service) : Service :=
  mkService (connection s) (hardware_actions s) i (last_session_check s) (origin s) (world s).
Definition with_check (t : Duration) (s : Service) : Service :=
  mkService (connection s) (hardware_actions s) (input_state s) t (origin s) (world s).

Definition on_world {A} (m : io A) : loop A := fun s => let (a, e) := m (world s) in (Ok a, with_world e s).

(** [Instant::elapsed]. *)
Definition elapsed (since : Duration) : io Duration := fun e =>
  let (now, e) := call instant_now e in (saturating_sub now since, e).

Definition disconnect (c : Connection) : Connection :=
  mkConnection (descriptor c) (established c) (negotiated_minor c) (FrameState.disconnect (frames c)) [] None None
    (needs_full_present c).

(** The connection that was taken is disconnected and dropped. *)
Definition revoke : loop () := fun s =>
  let e := match connection s with Some c => let _ := disconnect c in note Disconnected (world s) | None => world s end in
  let (released, e) := call_noted release_all KeysReleased e in
  let e := note SessionReleased (mkEnv (session_release (outside e)) (log e)) in
  let (t, e) := elapsed (origin s) e in
  let (_, i) := Digitizer.touch_idle (input_state s) t in
  let s := with_state i (with_world e (with_connection None s)) in
  if released then (Ok (), s) else (Err KeyboardError, s).

(** [admit]; the name is taken. *)
Definition admit_client (fd : Fd) : io bool := fun e =>
  let (credentials, e) := call_noted (peer_user fd) (PeerIs fd) e in
  match credentials with
  | None => (false, e)
  | Some user_id =>
      if user_id =? 0 then (false, e)
      else
        let (member, e) := call_noted (peer_in_group fd) (InGroup fd) e in
        if member then call_noted (session_admit user_id) (SessionAdmitted user_id) e else (false, e)
  end.

Definition on_desk (m : step ()) (c : Connection) : M Service () () := fun s =>
  let (r, d) := m (mkDesk c (hardware_actions s) (world s)) in
  (r, mkService (Some (conn d)) (actions d) (input_state s) (last_session_check s) (origin s) (env d)).

(** [if f(active).is_err() { revoke()?; }]. *)
Definition or_revoke (m : step ()) (c : Connection) : loop () := fun s =>
  match on_desk m c s with
  | (Ok _, s) => (Ok (), s)
  | (Err _, s) => revoke s
  | (Panic, s) => (Panic, s)
  end.

Definition recheck_session : loop () := fun s =>
  match connection s with
  | None => (Ok (), s)
  | Some _ =>
      let (t, e) := elapsed (last_session_check s) (world s) in
      if t <? SESSION_REVALIDATE_INTERVAL then (Ok (), with_world e s)
      else
        let (now, e) := call instant_now e in
        let (retained, e) := call_noted session_refresh SessionChecked e in
        let s := with_check now (with_world e s) in
        if retained then (Ok (), s) else revoke s
  end.

Definition flush_active : loop () := fun s =>
  match connection s with Some c => or_revoke flush_connection c s | None => (Ok (), s) end.

Definition receive_active : loop () := fun s =>
  match connection s with
  | Some c => match control c with None => or_revoke receive_request c s | Some _ => (Ok (), s) end
  | None => (Ok (), s)
  end.

Definition accept_client : loop () := fun s =>
  match connection s with
  | Some _ => (Ok (), s)
  | None =>
      let (ready, e) := call listener_ready (world s) in
      match ready with
      | None => (Err Listener, with_world e s)
      | Some false => (Ok (), with_world e s)
      | Some true =>
          let (accepted, e) := call accept e in
          match accepted with
          | None => (Ok (), with_world e s)
          | Some fd =>
              let (admitted, e) := admit_client fd e in
              if admitted then
                let (now, e) := call instant_now (note (Connected fd) e) in
                (Ok (), with_check now (with_connection (Some (connection_new fd)) (with_world e s)))
              else (Ok (), with_world e s)
          end
      end
  end.

Definition wait_for_service_events : loop ReadyInputs := fun s =>
  let client := (fun c => (descriptor c, client_interest (is_some (control c)) (is_some (input c)))) <$> connection s in
  let (ready, e) := call (wait_events client) (world s) in
  match ready with
  | Some inputs => (Ok inputs, with_world e s)
  | None => (Err Input, with_world e s)
  end.

(** [if let Some(active) = connection.as_mut() { active.queue_input(&frame) }]. *)
Definition offer (frame : Digitizer.InputFrame) : loop () := fun s =>
  match connection s with
  | None => (Ok (), s)
  | Some c =>
      match queue_input frame c with
      | Ok c => (Ok (), with_connection (Some c) s)
      | Err _ => (Ok (), s)
      | Panic => (Panic, s)
      end
  end.

Definition ingest (report : Digitizer.DigitizerReport) : loop () := fun s =>
  let (t, e) := elapsed (origin s) (world s) in
  let (frame, i) := Digitizer.ingest_touch (input_state s) t report in
  offer frame (with_state i (with_world e s)).

Definition set_fn (pressed : bool) : loop () := fun s =>
  let (t, e) := elapsed (origin s) (world s) in
  let (frame, i) := Digitizer.set_fn_pressed (input_state s) t pressed in
  let s := with_state i (with_world e s) in
  match frame with Some frame => offer frame s | None => (Ok (), s) end.

Fixpoint drain_digitizer (fuel : nat) : loop () :=
  match fuel with
  | O => ret ()
  | S fuel =>
      do! read := on_world (call digitizer_read) in
      match read with
      | None => lift (Err Input)
      | Some DigitizerIdle => ret ()
      | Some (Report payload) =>
          do! report := lift (map_err (fun _ => Input) (Digitizer.parse_digitizer_payload payload)) in
          do! _ := ingest report in
          drain_digitizer fuel
      end
  end.

Fixpoint set_edges (edges : list bool) : loop () :=
  match edges with
  | [] => ret ()
  | pressed :: edges => do! _ := set_fn pressed in set_edges edges
  end.

Definition read_function : loop () :=
  do! read := on_world (call function_read) in
  match read with
  | None => lift (Err Input)
  | Some (Edges edges) => set_edges edges
  | Some Resync =>
      do! pressed := on_world (call function_pressed) in
      match pressed with None => lift (Err Input) | Some pressed => set_fn pressed end
  | Some FnIdle => ret ()
  end.

Definition process_input (ready : ReadyInputs) : loop () :=
  do! _ := (if ready_digitizer ready then drain_digitizer MAX_INPUT_DRAIN else ret ()) in
  if ready_function ready then read_function else ret ().

(** The body of the loop, and so many rounds of it. *)
Definition iteration : loop () :=
  do! _ := recheck_session in
  do! _ := flush_active in
  do! _ := receive_active in
  do! _ := accept_client in
  do! ready := wait_for_service_events in
  process_input ready.

Fixpoint run_loop (rounds : nat) : loop () :=
  match rounds with
  | O => ret ()
  | S rounds => do! _ := iteration in run_loop rounds
  end.
End Service.

(** [run], until its loop begins. *)
Section Run.
Context {P Fd Mem : Type} `{!Platform P Fd Mem}.

Abbreviation setup A := (M P ServiceError A).

Definition require (op : P -> bool * P) (error : ServiceError) : setup () := fun p =>
  let (ok, p) := op p in if ok then (Ok (), p) else (Err error, p).
Definition obtain {A} (op : P -> option A * P) (error : ServiceError) : setup A := fun p =>
  let (a, p) := op p in (ok_or a error, p).

Definition start : setup (Digitizer.DisplayDimensions * FrameState.FrameLayout * Service (P := P) (Fd := Fd) (Mem := Mem)) :=
  do! _ := require activation Activation in
  do! _ := require adopt Listener in
  do! geometry := obtain display_open DisplayError in
  do! (dimensions, layout) := lift (frame_setup geometry) in
  do! _ := require digitizer_open Input in
  do! _ := require function_open Input in
  do! initial_fn := obtain function_pressed Input in
  do! _ := require keyboard_create KeyboardError in
  do! _ := (fun p => (Ok (), brightness_discover p)) in
  do! _ := require session_new Session in
  fun p =>
    let (origin, p) := instant_now p in
    (Ok (dimensions, layout,
         mkService None (mkActions None None) (Digitizer.input_new dimensions initial_fn) origin origin (mkEnv p [])), p).

(** [run] on the outside [p], stopped after so many rounds: how it stands and what was noted. *)
Definition run (rounds : nat) (p : P) : res ServiceError () * list (effect Fd Mem) :=
  match start p with
  | (Ok (dimensions, layout, s), _) =>
      let (r, s) := run_loop dimensions layout rounds s in (r, log (world s))
  | (Err error, _) => (Err error, [])
  | (Panic, _) => (Panic, [])
  end.
End Run.
End TouchBarService.
