(* ===== verification/TouchBarContract.v ===== *)
(** * What the Touch Bar service promises

    The contract of [TouchBarService.v] as a step relation on what the client and the
    hardware can see: who is let in, which hardware a request may touch, the one answer it
    gets, when a frame is shown and given back, and what ends a connection. Every run of
    the service is a run of the contract, and none panics. *)

From S2P Require Import Prelude Effects FrameState Digitizer Packet Wire TouchBarService.

Module TouchBarContract.
Import Outside Wire TouchBarService.

Section Contract.
Context {Fd Mem : Type} (dimensions : Digitizer.DisplayDimensions) (layout : FrameState.FrameLayout).
Abbreviation event := (effect Fd Mem).

(** A client: its negotiated version once it has said hello, its buffers with the frame
    each one holds, and whether nothing of it has been shown yet. *)
Record view : Type := mkView {
  v_fd : Fd;
  v_minor : option Z;
  v_bufs : gmap Z (Mem * option Z);
  v_fresh : bool
}.

Definition with_minor (n : Z) (v : view) : view := mkView (v_fd v) (Some n) (v_bufs v) (v_fresh v).
Definition with_bufs (b : gmap Z (Mem * option Z)) (v : view) : view := mkView (v_fd v) (v_minor v) b (v_fresh v).
Definition shown (v : view) : view := mkView (v_fd v) (v_minor v) (v_bufs v) false.

Definition registry (v : view) : gmap Z (option Z) := snd <$> v_bufs v.
Definition held (f : option Z) (b : Z) (v : view) : view := with_bufs (alter (fun x => (fst x, f)) b (v_bufs v)) v.
Definition v_dims (v : view) : option Digitizer.DisplayDimensions := if is_some (v_minor v) then Some dimensions else None.

Inductive phase : Type :=
| Idle
| Handling (id : Z) (request : ClientMessage.t) (touched : list event)
| Showing (buffer frame : Z) (damage : list FrameState.DamageRectangle)
| Releasing (buffer frame : Z) (ok : bool)
| Leaving.

Inductive door : Type := Closed | Peer (fd : Fd) (user : Z) | Member (fd : Fd) (user : Z) | Welcome (fd : Fd).

Inductive cstate : Type :=
| Door (d : door)
| Client (v : view) (ph : phase)
| Gone
| KeysUp (ok : bool)
| Stopped.

Definition taps (ks : list KeyCode.t) : list event := (fun k => Tapped (platform_key k) true) <$> ks.

(** The brightness a request changes; steps need minor version one. *)
Definition steps (v : view) : bool := 1 <=? default 0 (v_minor v).
Definition brightness_of (v : view) (m : ClientMessage.t) : option BrightnessKind :=
  match m with
  | ClientMessage.SetDisplayBrightness _ => Some Display
  | ClientMessage.SetKeyboardBacklight _ => Some Keyboard
  | ClientMessage.StepDisplayBrightness _ => if steps v then Some Display else None
  | ClientMessage.StepKeyboardBacklight _ => if steps v then Some Keyboard else None
  | _ => None
  end.

Definition not_understood (v : view) (m : ClientMessage.t) : bool :=
  match m with
  | ClientMessage.StepDisplayBrightness _ | ClientMessage.StepKeyboardBacklight _ => negb (steps v)
  | ClientMessage.Unknown _ => true
  | _ => false
  end.

(** What the hardware sees of a request, at any time of its handling. *)
Inductive touches (v : view) : ClientMessage.t -> list event -> Prop :=
| touches_map r mem : touches v (ClientMessage.RegisterBuffer r) [Mapped mem]
| touches_taps ks keys : ks `prefix_of` keys -> touches v (ClientMessage.TapKeys keys) (taps ks)
| touches_failed ks k keys :
    ks ++ [k] `prefix_of` keys ->
    touches v (ClientMessage.TapKeys keys) (taps ks ++ [Tapped (platform_key k) false])
| touches_released ks k keys ok :
    ks ++ [k] `prefix_of` keys ->
    touches v (ClientMessage.TapKeys keys) ((taps ks ++ [Tapped (platform_key k) false]) ++ [KeysReleased ok])
| touches_cancel r : touches v ClientMessage.CancelTouchId [TouchIdCancelled r]
| touches_brightness m kind setting ok :
    brightness_of v m = Some kind -> touches v m [BrightnessSet kind setting ok].

Definition metadata (r : RegisterBuffer) : FrameState.VerifiedBufferMetadata :=
  FrameState.mkMetadata (stride r) (byte_length r).

(** The answer to a request, given what the hardware saw, and the client after it. *)
Inductive reply (v : view) : ClientMessage.t -> list event -> ServiceMessage.t -> view -> phase -> Prop :=
| reply_hello h minor :
    minor = Z.min (hello_minor h) PROTOCOL_MINOR ->
    FeatureBits.contains FeatureBits.ASSIGNED (required_features h) = true ->
    reply v (ClientMessage.Hello h) []
      (ServiceMessage.HelloAck
         (mkHelloAck minor (Digitizer.width dimensions) (Digitizer.height dimensions) Xrgb8888 3))
      (with_minor minor v) Idle
| reply_hello_refused h :
    FeatureBits.contains BASE_SERVICE_FEATURES (required_features h) = false ->
    reply v (ClientMessage.Hello h) [] (ServiceMessage.Error ErrorCode.UnsupportedFeature) v Leaving
| reply_unmapped r :
    reply v (ClientMessage.RegisterBuffer r) [Mapped None] (ServiceMessage.Error ErrorCode.InvalidBuffer) v Idle
| reply_registered r mem reg :
    FrameState.spec_step layout (registry v) (FrameState.Register (reg_buffer_id r) (metadata r)) =
      (FrameState.ORegister (Ok ()), reg) ->
    reply v (ClientMessage.RegisterBuffer r) [Mapped (Some mem)] ServiceMessage.Ack
      (with_bufs (<[reg_buffer_id r := (mem, None)]> (v_bufs v)) v) Idle
| reply_not_registered r mem e reg :
    FrameState.spec_step layout (registry v) (FrameState.Register (reg_buffer_id r) (metadata r)) =
      (FrameState.ORegister (Err e), reg) ->
    reply v (ClientMessage.RegisterBuffer r) [Mapped (Some mem)] (ServiceMessage.Error (frame_error_code e)) v Idle
| reply_submitted f sub reg :
    FrameState.spec_step layout (registry v) (FrameState.Submit (sub_buffer_id f) (sub_frame_id f) (damage f)) =
      (FrameState.OSubmit (Ok sub), reg) ->
    reply v (ClientMessage.SubmitFrame f) [] ServiceMessage.Ack
      (held (Some (sub_frame_id f)) (sub_buffer_id f) v)
      (Showing (sub_buffer_id f) (sub_frame_id f) (FrameState.vs_damage sub))
| reply_not_submitted f e reg :
    FrameState.spec_step layout (registry v) (FrameState.Submit (sub_buffer_id f) (sub_frame_id f) (damage f)) =
      (FrameState.OSubmit (Err e), reg) ->
    reply v (ClientMessage.SubmitFrame f) [] (ServiceMessage.Error (frame_error_code e)) v Idle
| reply_tapped keys : reply v (ClientMessage.TapKeys keys) (taps keys) ServiceMessage.Ack v Idle
| reply_tap_failed ks k keys :
    ks ++ [k] `prefix_of` keys ->
    reply v (ClientMessage.TapKeys keys) ((taps ks ++ [Tapped (platform_key k) false]) ++ [KeysReleased true])
      (ServiceMessage.Error ErrorCode.IoFailure) v Idle
| reply_cancel r :
    reply v ClientMessage.CancelTouchId [TouchIdCancelled r] (cancellation_response r) v Idle
| reply_brightness m kind setting ok :
    brightness_of v m = Some kind ->
    reply v m [BrightnessSet kind setting ok]
      (if ok then ServiceMessage.Ack else ServiceMessage.Error ErrorCode.IoFailure) v Idle
| reply_not_set m kind code :
    brightness_of v m = Some kind ->
    code ∈ [ErrorCode.UnsupportedFeature; ErrorCode.ResourceLimit; ErrorCode.IoFailure] ->
    reply v m [] (ServiceMessage.Error code) v Idle
| reply_unsupported m :
    not_understood v m = true -> reply v m [] (ServiceMessage.Error ErrorCode.Unsupported) v Idle.

Definition view_new (fd : Fd) : view := mkView fd None ∅ true.

Definition whole_panel : FrameState.DamageRectangle :=
  FrameState.mkRect 0 0 (Digitizer.width dimensions) (Digitizer.height dimensions).

Inductive cstep : cstate -> event -> cstate -> Prop :=
| c_peer d fd u :
    cstep (Door d) (PeerIs fd u)
      (Door match u with Some u => if u =? 0 then Closed else Peer fd u | None => Closed end)
| c_group fd u ok : cstep (Door (Peer fd u)) (InGroup fd ok) (Door (if ok then Member fd u else Closed))
| c_session fd u ok : cstep (Door (Member fd u)) (SessionAdmitted u ok) (Door (if ok then Welcome fd else Closed))
| c_connect fd : cstep (Door (Welcome fd)) (Connected fd) (Client (view_new fd) Idle)
| c_check v ph ok : cstep (Client v ph) (SessionChecked ok) (Client v (if ok then ph else Leaving))
| c_receive v bs has request :
    decode_client bs (ancillary has) (v_dims v) = Ok request ->
    cstep (Client v Idle) (Received (v_fd v) bs has request) (Client v (Handling (request_id request) (message request) []))
| c_touch v id m touched x :
    touches v m (touched ++ [x]) ->
    cstep (Client v (Handling id m touched)) x (Client v (Handling id m (touched ++ [x])))
| c_answer v id m touched msg v' ph' bs :
    reply v m touched msg v' ph' ->
    encode_service (mkEnvelope id msg) (v_dims v) = Ok bs ->
    cstep (Client v (Handling id m touched)) (Sent (v_fd v) bs) (Client v' ph')
| c_show v b f d mem ok :
    v_bufs v !! b = Some (mem, Some f) ->
    cstep (Client v (Showing b f d)) (Shown mem (if v_fresh v then [whole_panel] else d) ok)
      (Client (shown v) (Releasing b f ok))
| c_release v b f ok bs :
    encode_service (mkEnvelope 0 (ServiceMessage.FrameReleased (mkReleased b f))) (Some dimensions) = Ok bs ->
    cstep (Client v (Releasing b f ok)) (Sent (v_fd v) bs) (Client (held None b v) (if ok then Idle else Leaving))
| c_input v frame bs :
    is_some (v_minor v) = true ->
    encode_service (mkEnvelope 0 (ServiceMessage.InputFrame frame)) (Some dimensions) = Ok bs ->
    cstep (Client v Idle) (Sent (v_fd v) bs) (Client v Idle)
| c_disconnect v ph : cstep (Client v ph) Disconnected Gone
| c_keys ok : cstep Gone (KeysReleased ok) (KeysUp ok)
| c_end ok : cstep (KeysUp ok) SessionReleased (if ok then Door Closed else Stopped).

(** The runs of the contract. *)
Inductive ran : list event -> cstate -> Prop :=
| ran_nil : ran [] (Door Closed)
| ran_snoc l c x c' : ran l c -> cstep c x c' -> ran (l ++ [x]) c'.
End Contract.
Arguments view : clear implicits.
Arguments phase : clear implicits.
Arguments cstate : clear implicits.
#[global] Hint Constructors cstep reply touches : core.

(** ** The service against the contract *)

(** Requests tell the phase: a hello exactly before the connection is established. *)
Definition is_hello (m : ClientMessage.t) : bool := match m with ClientMessage.Hello _ => true | _ => false end.

Lemma decoded_phase bs anc dims e :
  decode_client bs anc dims = Ok e -> is_some dims = negb (is_hello (message e)).
Proof.
  unfold decode_client. intros H. step_ok H. step_ok H.
  destruct (MessageType.from_wire _) as [mt|]; [|inv_ok H; by destruct (is_some dims)].
  inv_ok H. cbn. unfold validate_phase in *.
  repeat match goal with H : decode_client_message ?mt _ _ = Ok _ |- _ => destruct mt; cbn in *; inv_ok H end;
    by destruct (is_some dims).
Qed.

Lemma validate_damage_short l d nd :
  FrameState.validate_damage l d = Ok nd -> (length nd <= 64)%nat.
Proof.
  unfold FrameState.validate_damage, FrameState.MAX_DAMAGE_RECTANGLES. intros H. inv_ok H; b2p; cbn; lia.
Qed.

Lemma contains_mono a b r : Z.land a b = a -> FeatureBits.contains a r = true -> FeatureBits.contains b r = true.
Proof.
  unfold FeatureBits.contains. intros Hab H%Z.eqb_eq. apply Z.eqb_eq.
  rewrite <- H at 1. by rewrite Z.land_assoc, (Z.land_comm b a), Hab.
Qed.

Lemma features_bounds {P Fd Mem} `{!Platform P Fd Mem} p :
  Z.land BASE_SERVICE_FEATURES (features p) = BASE_SERVICE_FEATURES /\
  Z.land (features p) FeatureBits.ASSIGNED = features p.
Proof. unfold features. destruct (available Display p), (available Keyboard p); done. Qed.

Lemma native_damage_same d : (length d <= 64)%nat -> native_damage d = Ok d.
Proof.
  intros H. unfold native_damage. rewrite take_ge by lia. rewrite slice_ok by lens.
  rewrite drop_0, Nat.sub_0_r, take_app_le, take_ge by lia. done.
Qed.

Lemma find_buffer_map {Mem} k (bs : list (Z * Mem)) : find_buffer k bs = (list_to_map bs : gmap Z Mem) !! k.
Proof.
  unfold find_buffer. induction bs as [|[i m] bs IH]; cbn; [done|].
  destruct (i =? k) eqn:E; b2p.
  - subst. by rewrite lookup_insert_eq.
  - by rewrite lookup_insert_ne.
Qed.

Lemma find_buffer_push {Mem} k (m : Mem) bs :
  (list_to_map bs : gmap Z Mem) !! k = None ->
  (list_to_map (bs ++ [(k, m)]) : gmap Z Mem) = <[k := m]> (list_to_map bs).
Proof.
  intros H. rewrite list_to_map_app. cbn. by rewrite insert_empty, <- insert_union_singleton_r.
Qed.

(** The registry of the contract, operation by operation. *)
Lemma spec_register l (m : gmap Z (option Z)) k md o m' :
  FrameState.spec_step l m (FrameState.Register k md) = (o, m') ->
  (o = FrameState.ORegister (Ok ()) /\ m !! k = None /\ m' = <[k := None]> m) \/
  (exists e, o = FrameState.ORegister (Err e) /\ m' = m).
Proof.
  cbn. intros H. repeat case_match; simplify_eq; eauto. left. split_and!; try done.
  destruct (m !! k) eqn:E; [|done]. by rewrite bool_decide_eq_true_2 in * by eauto.
Qed.

Lemma spec_submit l (m : gmap Z (option Z)) k f d o m' :
  FrameState.spec_step l m (FrameState.Submit k f d) = (o, m') ->
  (exists nd, o = FrameState.OSubmit (Ok (FrameState.mkSubmission k f nd)) /\ (length nd <= 64)%nat /\
     m !! k = Some None /\ m' = <[k := Some f]> m) \/
  (exists e, o = FrameState.OSubmit (Err e) /\ m' = m).
Proof.
  cbn. intros H. destruct (m !! k) as [[g|]|] eqn:E; simplify_eq; eauto.
  pose proof (FrameState.validate_damage_no_panic l d).
  destruct (FrameState.validate_damage l d) as [nd|e|] eqn:V; simplify_eq; eauto.
  left. exists nd. split_and!; try done. by eapply validate_damage_short.
Qed.

Lemma fst_alter {Mem} (f : option Z) k (b : gmap Z (Mem * option Z)) :
  fst <$> alter (fun x => (fst x, f)) k b = (fst <$> b : gmap Z Mem).
Proof.
  apply map_eq. intros i. rewrite !lookup_fmap. destruct (decide (i = k)) as [->|Hn].
  - rewrite lookup_alter_eq. by destruct (b !! k).
  - by rewrite lookup_alter_ne.
Qed.

Lemma snd_alter {Mem} (f : option Z) k (b : gmap Z (Mem * option Z)) :
  is_Some (b !! k) -> snd <$> alter (fun x => (fst x, f)) k b = <[k := f]> (snd <$> b : gmap Z (option Z)).
Proof.
  intros [x Hx]. apply map_eq. intros i. rewrite !lookup_fmap. destruct (decide (i = k)) as [->|Hn].
  - by rewrite lookup_alter_eq, lookup_insert_eq, Hx.
  - by rewrite lookup_alter_ne, lookup_insert_ne, lookup_fmap.
Qed.

Section Link.
Context {P Fd Mem : Type} `{!Platform P Fd Mem}.
Context (dimensions : Digitizer.DisplayDimensions) (layout : FrameState.FrameLayout).
Implicit Types (v : view Fd Mem) (ph : phase Fd Mem) (c : Connection (Fd := Fd) (Mem := Mem)) (s : Desk (P := P) (Fd := Fd) (Mem := Mem)).
Abbreviation run_of e := (ran dimensions layout (log (P := P) e)).

(** The tables of a connection are the buffers of its client, the rest of it the rest. *)
Definition tables c (b : gmap Z (Mem * option Z)) : Prop :=
  FrameState.wf (frames c) /\ FrameState.layout (frames c) = layout /\
  FrameState.abs (frames c) = snd <$> b /\ list_to_map (buffers c) = fst <$> b.

Definition kernel c v : Prop :=
  descriptor c = v_fd v /\ negotiated_minor c = v_minor v /\ established c = is_some (v_minor v) /\
  needs_full_present c = v_fresh v.

(** What a packet in waiting will do to the client. *)
Definition after (a : AfterSend) v v' ph : Prop :=
  match a with
  | NoAction => v_minor v' = v_minor v /\ ph = Idle
  | Establish n => v_minor v' = Some n /\ ph = Idle
  | Present b f d =>
      v_minor v' = v_minor v /\ ph = Showing b f d /\ (length d <= 64)%nat /\
      exists mem, v_bufs v' !! b = Some (mem, Some f)
  | Release _ _ _ => False
  | Close => ph = Leaving
  end.

Inductive owed c v : phase Fd Mem -> PendingPacket -> Prop :=
| owed_answer id m touched msg v' ph' a bs :
    reply dimensions layout v m touched msg v' ph' ->
    encode_service (mkEnvelope id msg) (v_dims dimensions v) = Ok bs ->
    kernel c v -> tables c (v_bufs v') -> after a v v' ph' ->
    owed c v (Handling id m touched) (mkPending bs a)
| owed_release b f ok mem bs :
    encode_service (mkEnvelope 0 (ServiceMessage.FrameReleased (mkReleased b f))) (Some dimensions) = Ok bs ->
    kernel c v -> tables c (v_bufs v) -> v_bufs v !! b = Some (mem, Some f) ->
    owed c v (Releasing b f ok) (mkPending bs (Release b f (negb ok))).

Definition input_ok c : Prop :=
  forall bs, input c = Some bs ->
  established c = true /\
  exists frame, encode_service (mkEnvelope 0 (ServiceMessage.InputFrame frame)) (Some dimensions) = Ok bs.

Definition linked c v ph : Prop :=
  input_ok c /\
  match control c with
  | None => ph = Idle /\ kernel c v /\ tables c (v_bufs v)
  | Some p => owed c v ph p
  end.

(** A handler leaves a client with the contract kept, or an error after which it is. *)
Definition served (rs : res () () * Desk) : Prop :=
  match rs with
  | (Ok _, s) => exists v ph, run_of (env s) (Client v ph) /\ linked (conn s) v ph
  | (Err _, s) => exists v ph, run_of (env s) (Client v ph)
  | (Panic, _) => False
  end.

Definition busy s v id m touched : Prop :=
  run_of (env s) (Client v (Handling id m touched)) /\ input_ok (conn s) /\ kernel (conn s) v.

Lemma encode_service_np e dims : encode_service e dims <> Panic.
Proof. apply (wire_no_panic [] (ancillary false) dims (mkEnvelope 0 ClientMessage.CancelTouchId) e). Qed.

Lemma decode_client_np bs anc dims : decode_client bs anc dims <> Panic.
Proof. apply (wire_no_panic bs anc dims (mkEnvelope 0 ClientMessage.CancelTouchId) (mkEnvelope 0 ServiceMessage.Ack)). Qed.

Lemma queue_control_served s v id m touched msg v' ph' dims a :
  busy s v id m touched -> reply dimensions layout v m touched msg v' ph' ->
  dims = v_dims dimensions v -> tables (conn s) (v_bufs v') -> after a v v' ph' ->
  served (queue_control id msg dims a s).
Proof.
  intros (Hrun & Hin & Hk) Hr -> Ht Ha. unfold queue_control, bind, lift, on_conn. cbn.
  pose proof (encode_service_np (mkEnvelope id msg) (v_dims dimensions v)).
  destruct (encode_service _ _) as [bs|err|] eqn:He; cbn; [|eauto|done].
  exists v, (Handling id m touched). split; [done|]. split; [done|]. cbn. by econstructor.
Qed.

(** An answer that changes nothing. *)
Lemma queue_plain s v id m touched msg dims :
  busy s v id m touched -> reply dimensions layout v m touched msg v Idle ->
  dims = v_dims dimensions v -> tables (conn s) (v_bufs v) ->
  served (queue_control id msg dims NoAction s).
Proof. intros. by eapply queue_control_served. Qed.

Lemma queue_error_served s v id m touched code :
  busy s v id m touched -> reply dimensions layout v m touched (ServiceMessage.Error code) v Idle ->
  tables (conn s) (v_bufs v) -> served (queue_error dimensions id code s).
Proof.
  intros Hb Hr Ht. unfold queue_error. eapply queue_plain; [done..| |done].
  destruct Hb as (_ & _ & (_ & _ & He & _)). unfold phase_dimensions, v_dims. by rewrite He.
Qed.

Lemma busy_touch {A} s v id m touched (op : P -> A * P) f a s' :
  busy s v id m touched -> on_env (call_noted op f) s = (Ok a, s') -> touches v m (touched ++ [f a]) ->
  busy s' v id m (touched ++ [f a]) /\ conn s' = conn s.
Proof.
  unfold busy, on_env, call_noted. destruct (op (outside (env s))) as [b p]. intros (Hrun & Hi & Hk) [= <- <-] Ht.
  cbn. split_and!; try done. eapply ran_snoc; [done|]. by constructor.
Qed.

(** ** The tables *)

Lemma tables_step c b o :
  tables c b ->
  FrameState.wf (FrameState.step (frames c) o).2 /\ FrameState.layout (FrameState.step (frames c) o).2 = layout /\
  ((FrameState.step (frames c) o).1, FrameState.abs (FrameState.step (frames c) o).2) =
    FrameState.spec_step layout (snd <$> b) o.
Proof. intros (Hwf & Hl & Ha & _). rewrite <- Hl, <- Ha. by apply FrameState.step_refines. Qed.

(** The frames of [f] with the registry unchanged. *)
Lemma tables_same c b f :
  tables c b -> FrameState.wf f -> FrameState.layout f = layout -> FrameState.abs f = snd <$> b ->
  tables (with_frames f c) b.
Proof. intros (_ & _ & _ & Hb) ???. by split_and!. Qed.

Lemma tables_registered c b f k mem :
  tables c b -> FrameState.wf f -> FrameState.layout f = layout ->
  FrameState.abs f = <[k := None]> (snd <$> b) -> (snd <$> b : gmap Z (option Z)) !! k = None ->
  tables (with_buffers (buffers c ++ [(k, mem)]) (with_frames f c)) (<[k := (mem, None)]> b).
Proof.
  intros (_ & _ & _ & Hb) Hwf Hl Ha Hk. rewrite lookup_fmap, fmap_None in Hk. split_and!; cbn; try done.
  - by rewrite Ha, fmap_insert.
  - rewrite find_buffer_push, Hb, fmap_insert; [done|]. by rewrite Hb, lookup_fmap, Hk.
Qed.

Lemma tables_held c b f k g :
  tables c b -> FrameState.wf f -> FrameState.layout f = layout ->
  FrameState.abs f = <[k := g]> (snd <$> b) -> is_Some (b !! k) ->
  tables (with_frames f c) (alter (fun x => (fst x, g)) k b).
Proof.
  intros (_ & _ & _ & Hb) Hwf Hl Ha Hk. split_and!; cbn; try done.
  - by rewrite snd_alter.
  - by rewrite fst_alter.
Qed.

(** ** Requests *)

Lemma busy_frames s v id m touched (g : Connection -> Connection) :
  busy s v id m touched -> (forall c, kernel c v -> kernel (g c) v) -> (forall c, input_ok c -> input_ok (g c)) ->
  busy (mkDesk (g (conn s)) (actions s) (env s)) v id m touched.
Proof. intros (? & ? & ?) ??. unfold busy. cbn. auto. Qed.

Lemma registration_served s v id r fd :
  busy s v id (ClientMessage.RegisterBuffer r) [] -> tables (conn s) (v_bufs v) -> is_some (v_minor v) = true ->
  served (queue_buffer_registration dimensions layout id r fd s).
Proof.
  intros Hb Ht He. unfold queue_buffer_registration, bind at 1.
  assert (Hd : v_dims dimensions v = Some dimensions) by (unfold v_dims; by rewrite He).
  destruct (on_env _ s) as [[mapped| |] s'] eqn:E; [|by unfold on_env in E; case_match..].
  eapply busy_touch in E as [Hb' Hc]; [|done|cbn; auto]. rewrite <- Hc in Ht. cbn in Hb'. clear Hb.
  destruct mapped as [mem|]; [|eapply queue_error_served; eauto].
  pose proof (tables_step _ _ (FrameState.Register (reg_buffer_id r) (metadata r)) Ht) as (Hwf & Hl & Hs).
  cbn [FrameState.step] in *. unfold metadata in *.
  destruct (FrameState.register_buffer _ _ _) as [res f] eqn:Er. cbn [fst snd] in *. symmetry in Hs.
  destruct (spec_register _ _ _ _ _ _ Hs) as [(Ho & Hk & Hm)|(e & Ho & Hm)]; simplify_eq Ho; intros ->.
  - unfold bind, on_conn. cbv beta iota zeta. eapply queue_control_served.
    + by eapply busy_frames with (g := fun c => with_buffers (buffers c ++ [(reg_buffer_id r, mem)]) (with_frames f c)).
    + by eapply reply_registered.
    + done.
    + cbn. by apply tables_registered.
    + done.
  - unfold bind, on_conn. cbv beta iota zeta. eapply queue_error_served.
    + by eapply busy_frames with (g := with_frames f).
    + by eapply reply_not_registered.
    + cbn. by apply tables_same.
Qed.

Lemma submission_served s v id f :
  busy s v id (ClientMessage.SubmitFrame f) [] -> tables (conn s) (v_bufs v) -> is_some (v_minor v) = true ->
  served (queue_frame_submission dimensions id f s).
Proof.
  intros Hb Ht He. unfold queue_frame_submission.
  assert (Hd : v_dims dimensions v = Some dimensions) by (unfold v_dims; by rewrite He).
  pose proof (tables_step _ _ (FrameState.Submit (sub_buffer_id f) (sub_frame_id f) (damage f)) Ht) as (Hwf & Hl & Hs).
  cbn [FrameState.step] in *.
  destruct (FrameState.submit_frame _ _ _ _) as [res g] eqn:Er. cbn [fst snd] in *. symmetry in Hs.
  destruct (spec_submit _ _ _ _ _ _ _ Hs) as [(nd & Ho & Hn & Hk & Hm)|(e & Ho & Hm)]; simplify_eq Ho; intros ->.
  - rewrite lookup_fmap in Hk. destruct (v_bufs v !! sub_buffer_id f) as [[mem x]|] eqn:Hv; [|done]. cbn in Hk.
    unfold bind, on_conn. cbv beta iota zeta. eapply queue_control_served.
    + by eapply busy_frames with (g := with_frames g).
    + by eapply reply_submitted.
    + done.
    + cbn. apply tables_held; eauto.
    + cbn. split_and!; try done. exists mem. by rewrite lookup_alter_eq, Hv.
  - unfold bind, on_conn. cbv beta iota zeta. eapply queue_error_served.
    + by eapply busy_frames with (g := with_frames g).
    + by eapply reply_not_submitted.
    + cbn. by apply tables_same.
Qed.

Lemma taps_snoc ks k : taps (Fd := Fd) (Mem := Mem) (ks ++ [k]) = taps ks ++ [Tapped (platform_key k) true].
Proof. unfold taps. by rewrite fmap_app. Qed.

Lemma tap_keys_served keys : forall s v id ks,
  busy s v id (ClientMessage.TapKeys (ks ++ keys)) (taps ks) -> tables (conn s) (v_bufs v) ->
  is_some (v_minor v) = true -> served (tap_keys dimensions id keys s).
Proof.
  induction keys as [|k keys IH]; intros s v id ks Hb Ht He.
  { rewrite app_nil_r in Hb. cbn [tap_keys]. eapply queue_plain; eauto. unfold v_dims. by rewrite He. }
  cbn [tap_keys]. unfold bind at 1.
  assert (Hp : ks ++ [k] `prefix_of` ks ++ k :: keys) by (exists keys; by rewrite <- app_assoc).
  destruct (on_env _ s) as [[ok| |] s1] eqn:E; [|by unfold on_env in E; case_match..].
  eapply busy_touch in E as [Hb1 Hc]; [|done|destruct ok; [rewrite <- taps_snoc|]; eauto].
  rewrite <- Hc in Ht. clear Hb. destruct ok.
  { rewrite <- taps_snoc in Hb1. apply (IH _ v _ (ks ++ [k])); [|done..]. by rewrite <- app_assoc. }
  unfold bind at 1. destruct (on_env _ s1) as [[ok| |] s2] eqn:E; [|by unfold on_env in E; case_match..].
  eapply busy_touch in E as [Hb2 Hc2]; [|done|eauto]. rewrite <- Hc2 in Ht.
  destruct ok; [eapply queue_error_served; eauto|].
  cbn. destruct Hb2 as (Hrun & _). eauto.
Qed.

Lemma brightness_served s v id m kind find :
  busy s v id m [] -> tables (conn s) (v_bufs v) -> is_some (v_minor v) = true -> brightness_of v m = Some kind ->
  served ((do! message := on_actions (change_brightness kind find) in
           queue_control id message (Some dimensions) NoAction) s).
Proof.
  intros (Hrun & Hin & Hk) Ht He Hm. unfold bind, on_actions, change_brightness.
  assert (Hd : Some dimensions = v_dims dimensions v) by (unfold v_dims; by rewrite He).
  destruct (negb _); cbv beta iota zeta.
  { eapply queue_plain; [done|eapply reply_not_set; eauto; set_solver|done..]. }
  unfold call, call_noted. destruct (instant_now _) as [now p]. destruct (too_soon now _).
  { eapply queue_plain; [done|eapply reply_not_set; eauto; set_solver|done..]. }
  cbn [outside log]. destruct (find p) as [[found|] p1]; cbn [outside log].
  2: { eapply queue_plain; [done|eapply reply_not_set; eauto; set_solver|done..]. }
  destruct (session_set_brightness _ _ _ p1) as [ok p2]. cbn [outside log].
  assert (Hrun' : ran dimensions layout (log (env s) ++ [BrightnessSet kind found ok])
                    (Client v (Handling id m ([] ++ [BrightnessSet kind found ok]))))
    by (eapply ran_snoc; [done|]; constructor; by constructor).
  destruct ok; (eapply queue_plain; [done|by eapply (reply_brightness _ _ v m kind)|done..]).
Qed.

Lemma brightness_step_served s v id m kind direction :
  busy s v id m [] -> tables (conn s) (v_bufs v) -> is_some (v_minor v) = true ->
  brightness_of v m = (if steps v then Some kind else None) -> not_understood v m = negb (steps v) ->
  served (queue_brightness_step dimensions id kind direction s).
Proof.
  intros Hb Ht He Hm Hu. unfold queue_brightness_step. destruct Hb as (Hrun & Hin & Hk). unfold steps in *.
  replace (negotiated_minor (conn s)) with (v_minor v) by (symmetry; apply Hk).
  rewrite Z.ltb_antisym. destruct (1 <=? _) eqn:H1; cbn [negb] in *.
  - eapply brightness_served; eauto. by split_and!.
  - eapply queue_error_served; [by split_and!|by apply reply_unsupported|done].
Qed.

Lemma hello_served s v id h :
  busy s v id (ClientMessage.Hello h) [] -> tables (conn s) (v_bufs v) -> v_minor v = None ->
  served (queue_hello dimensions id (required_features h) (hello_minor h) s).
Proof.
  intros Hb Ht Hn. unfold queue_hello. destruct (features_bounds (outside (env s))) as [Hlo Hhi].
  assert (Hd : None = v_dims dimensions v) by (unfold v_dims; by rewrite Hn).
  destruct (FeatureBits.contains (features _) _) eqn:Hf; cbn [negb].
  - eapply queue_control_served; [done| |done| |].
    + apply reply_hello; [done|]. by eapply contains_mono.
    + done.
    + done.
  - eapply queue_control_served; [done| |done|done|done]. apply reply_hello_refused.
    destruct (FeatureBits.contains BASE_SERVICE_FEATURES _) eqn:H; [|done].
    rewrite (contains_mono _ _ _ Hlo H) in Hf. done.
Qed.

Lemma handle_served s v e fd :
  busy s v (request_id e) (message e) [] -> tables (conn s) (v_bufs v) ->
  is_some (v_minor v) = negb (is_hello (message e)) -> served (handle_request dimensions layout e fd s).
Proof.
  intros Hb Ht He. assert (Herr : served (Err (), s)) by (destruct Hb as (? & _); cbn; eauto).
  unfold handle_request. destruct (message e) as [h|r|f|keys|p|p| |d|d|u] eqn:Hm; cbn in He.
  all: try (eapply brightness_served; eauto; done).
  all: try (eapply brightness_step_served; eauto; done).
  - eapply hello_served; eauto. by destruct (v_minor v).
  - destruct fd; [|done]. by eapply registration_served.
  - by eapply submission_served.
  - by eapply (tap_keys_served keys s v _ []).
  - unfold queue_cancellation, bind.
    destruct (on_env _ s) as [[r| |] s1] eqn:E; [|by unfold on_env in E; case_match..].
    eapply busy_touch in E as [Hb1 Hc]; [|done|cbn; auto]. rewrite <- Hc in Ht.
    eapply queue_plain; [done|cbn; auto| |done]. unfold v_dims. by rewrite He.
  - eapply queue_error_served; [done|by apply reply_unsupported|done].
Qed.

Lemma receive_served s v :
  run_of (env s) (Client v Idle) -> linked (conn s) v Idle -> control (conn s) = None ->
  served (receive_request dimensions layout s).
Proof.
  intros Hrun (Hin & Hl) Hc. rewrite Hc in Hl. destruct Hl as (_ & Hk & Ht).
  unfold receive_request, on_env, call.
  destruct (receive _ _) as [[bs fd| |] p]; cbn -[decode_client].
  2: { exists v, Idle. split; [done|]. split; [done|]. by rewrite Hc. }
  2: by eauto.
  assert (Hd : phase_dimensions dimensions (conn s) = v_dims dimensions v).
  { unfold phase_dimensions, v_dims. destruct Hk as (_ & _ & -> & _). done. }
  rewrite Hd. pose proof (decode_client_np bs (ancillary (is_some fd)) (v_dims dimensions v)).
  destruct (decode_client _ _ _) as [e| |] eqn:E; [|cbn; eauto|done].
  eapply handle_served; [|done|].
  - split_and!; [|done..]. cbn. eapply ran_snoc; [done|]. replace (descriptor (conn s)) with (v_fd v) by (symmetry; apply Hk).
    by constructor.
  - rewrite <- (decoded_phase _ _ _ _ E). unfold v_dims. by destruct (is_some (v_minor v)).
Qed.

(** ** Sending *)

Lemma reply_keeps v m touched msg v' ph' :
  reply dimensions layout v m touched msg v' ph' -> v_fd v' = v_fd v /\ v_fresh v' = v_fresh v.
Proof. by destruct 1. Qed.

Lemma served_bind (m k : M Desk () ()) s :
  served (m s) ->
  (forall s' v ph, run_of (env s') (Client v ph) -> linked (conn s') v ph -> served (k s')) ->
  served ((do! _ := m in k) s).
Proof.
  intros Hm Hk. unfold bind. destruct (m s) as [[u|e|] s']; cbn in Hm; [|done..].
  destruct Hm as (v & ph & Hr & Hl). eauto.
Qed.

Lemma flush_input_served s v ph :
  run_of (env s) (Client v ph) -> linked (conn s) v ph -> served (flush_input s).
Proof.
  intros Hrun Hl. pose proof Hl as [Hin Hc]. unfold flush_input.
  destruct (control (conn s)) eqn:Hctl; [cbn; eauto|]. destruct Hc as (-> & Hk & Ht).
  destruct (input (conn s)) as [bs|] eqn:Hi; [|cbn; eauto].
  destruct (Hin bs Hi) as (He & frame & Hf). unfold bind, on_conn, send_packet, call. cbn.
  destruct (send _ _ _) as [[] p]; cbn.
  - exists v, Idle. split; [|split; [done|]; cbn; by rewrite Hctl].
    eapply ran_snoc; [done|]. destruct Hk as (-> & _ & He' & _). eapply c_input; [|done]. by rewrite <- He'.
  - exists v, Idle. split; [done|]. split; [|cbn; by rewrite Hctl]. intros bs' [= <-]. cbn. eauto.
  - eauto.
Qed.

(** Showing a frame and waiting to release it. *)
Lemma present_served s v b f d :
  run_of (env s) (Client v (Showing b f d)) -> control (conn s) = None -> input_ok (conn s) ->
  kernel (conn s) v -> tables (conn s) (v_bufs v) -> (length d <= 64)%nat ->
  (exists mem, v_bufs v !! b = Some (mem, Some f)) ->
  served (apply_after_send dimensions (Present b f d) s).
Proof.
  intros Hrun Hc Hin Hk Ht Hlen [mem Hmem]. unfold apply_after_send. cbn [buffers].
  assert (Hfind : find_buffer b (buffers (conn s)) = Some mem).
  { destruct Ht as (_ & _ & _ & Hb). by rewrite find_buffer_map, Hb, lookup_fmap, Hmem. }
  set (shown_d := expand_first_present_damage dimensions (needs_full_present (conn s)) d).
  assert (Hd : shown_d = (if v_fresh v then [whole_panel dimensions] else d)).
  { unfold shown_d, expand_first_present_damage. destruct Hk as (_ & _ & _ & ->). done. }
  assert (Hn : native_damage shown_d = Ok shown_d).
  { apply native_damage_same. rewrite Hd. destruct (v_fresh v); cbn; lia. }
  assert (Hstep : forall ok, ran dimensions layout (log (env s) ++ [Shown mem shown_d ok])
                     (Client (shown v) (Releasing b f ok))).
  { intros ok. eapply ran_snoc; [done|]. rewrite Hd. by constructor. }
  rewrite Hfind. unfold bind at 1, show, call.
  assert (Hq : forall ok p a,
    served (queue_control 0 (ServiceMessage.FrameReleased (mkReleased b f)) (Some dimensions) (Release b f (negb ok))
      (mkDesk (mkConnection (descriptor (conn s)) (established (conn s)) (negotiated_minor (conn s)) (frames (conn s))
                 (buffers (conn s)) (control (conn s)) (input (conn s)) false) a
         (mkEnv p (log (env s) ++ [Shown mem shown_d ok]))))).
  { intros ok p a. unfold queue_control, bind, lift, on_conn. cbn -[encode_service].
    pose proof (encode_service_np (mkEnvelope 0 (ServiceMessage.FrameReleased (mkReleased b f))) (Some dimensions)).
    destruct (encode_service _ _) as [bs|err|] eqn:He; cbn; [|eauto|done].
    exists (shown v), (Releasing b f ok). split; [done|]. split; [done|].
    destruct Hk as (? & ? & ? & ?). by eapply owed_release. }
  cbn [env conn actions outside log]. destruct (copy_into mem _) as [[] p]; [|apply (Hq false)].
  rewrite Hn. unfold call_noted. cbn [outside log]. destruct (present_rectangles _ p) as [ok p']. apply Hq.
Qed.

Lemma release_served s v b f (ok : bool) mem :
  run_of (env s) (Client (held None b v) (if ok then Idle else Leaving)) -> control (conn s) = None ->
  input_ok (conn s) -> kernel (conn s) v -> tables (conn s) (v_bufs v) -> v_bufs v !! b = Some (mem, Some f) ->
  served (apply_after_send dimensions (Release b f (negb ok)) s).
Proof.
  intros Hrun Hc Hin Hk Ht Hmem. unfold apply_after_send.
  pose proof (tables_step _ _ (FrameState.Release b f) Ht) as (Hwf & Hl & Hs). cbn [FrameState.step] in *.
  destruct (FrameState.release_frame _ _ _) as [res g]. cbn [fst snd] in *.
  cbn in Hs. rewrite lookup_fmap, Hmem in Hs. cbn in Hs. rewrite bool_decide_eq_true_2 in Hs by done.
  injection Hs as -> Ha. unfold bind, on_conn. destruct ok; cbn; [|eauto].
  exists (held None b v), Idle. split; [done|]. split; [done|]. cbn. rewrite Hc. split; [done|]. split; [done|].
  apply tables_held; eauto.
Qed.

Lemma after_served s v v' ph' a :
  run_of (env s) (Client v' ph') -> control (conn s) = None -> input_ok (conn s) -> kernel (conn s) v ->
  v_fd v' = v_fd v -> v_fresh v' = v_fresh v -> tables (conn s) (v_bufs v') -> after a v v' ph' ->
  served (apply_after_send dimensions a s).
Proof.
  intros Hrun Hc Hin Hk Hfd Hfr Ht Ha. destruct a as [|n|b f d|b f cl|]; cbn in Ha; [..|done|].
  - destruct Ha as (Hm & ->). cbn. exists v', Idle. split; [done|]. split; [done|]. rewrite Hc.
    destruct Hk as (? & ? & ? & ?). split; [done|]. split; [|done]. split_and!; congruence.
  - destruct Ha as (Hm & ->). cbn. exists v', Idle. split; [done|].
    destruct Hk as (? & ? & ? & ?). split.
    + intros bs H'. destruct (Hin bs H') as (_ & He). by split.
    + cbn. rewrite Hc. split; [done|]. split; [|done]. split_and!; cbn; rewrite ?Hm; first [done|congruence].
  - destruct Ha as (Hm & -> & Hl & Hmem). eapply present_served; eauto.
    destruct Hk as (? & ? & ? & ?). split_and!; congruence.
  - cbn. eauto.
Qed.

Lemma flush_served s v ph :
  run_of (env s) (Client v ph) -> linked (conn s) v ph -> served (flush_connection dimensions s).
Proof.
  intros Hrun Hl. unfold flush_connection. destruct (control (conn s)) as [pending|] eqn:Hc.
  2: by eapply flush_input_served.
  pose proof Hl as [Hin Ho]. rewrite Hc in Ho. unfold bind at 1, on_conn at 1, bind at 1, send_packet, call.
  cbn [conn env actions].
  destruct (send _ _ _) as [[] p].
  - apply served_bind; [|intros; by eapply flush_input_served].
    destruct Ho as [id m touched msg v' ph' a bs Hr He Hk Ht Ha|b f ok mem bs He Hk Ht Hmem]; cbn [after_send packet].
    + destruct (reply_keeps _ _ _ _ _ _ Hr). eapply (after_served _ v v' ph'); try done. cbn.
      eapply ran_snoc; [done|]. destruct Hk as (-> & _). by econstructor.
    + eapply release_served; try done. cbn. eapply ran_snoc; [done|]. destruct Hk as (-> & _). by econstructor.
  - cbn. exists v, ph. split; [done|]. split; [done|]. cbn. destruct Ho; by econstructor.
  - cbn. eauto.
Qed.

(** ** The loop *)
Implicit Types (t : Service (P := P) (Fd := Fd) (Mem := Mem)).

Definition stands t : Prop :=
  match connection t with
  | None => exists d, run_of (world t) (Door d)
  | Some c => exists v ph, run_of (world t) (Client v ph) /\ linked c v ph
  end.

Definition kept {A} (rt : res ServiceError A * Service) : Prop :=
  match rt with
  | (Ok _, t) => stands t
  | (Err _, t) => exists st, run_of (world t) st
  | (Panic, _) => False
  end.

Lemma stands_ran t : stands t -> exists st, run_of (world t) st.
Proof. unfold stands. case_match; naive_solver. Qed.

Lemma kept_bind {A B} (m : M Service ServiceError A) (k : A -> M Service ServiceError B) t :
  kept (m t) -> (forall a t', stands t' -> kept (k a t')) -> kept (bind m k t).
Proof. intros Hm Hk. unfold bind. destruct (m t) as [[a|e|] t']; cbn in Hm; [eauto|done..]. Qed.

(** Calls that are not noted, and state the contract does not see. *)
Lemma stands_same t t' :
  connection t' = connection t -> log (world t') = log (world t) -> stands t -> stands t'.
Proof. unfold stands. by intros -> ->. Qed.

Lemma stands_call {A} t (op : P -> A * P) : stands t -> kept (on_world (call op) t).
Proof. unfold on_world, call. destruct (op _). by apply stands_same. Qed.

Lemma kept_err {A} t e : stands t -> kept (Err e : res ServiceError A, t).
Proof. apply stands_ran. Qed.

Lemma revoke_kept t c v ph :
  connection t = Some c -> run_of (world t) (Client v ph) -> kept (revoke t).
Proof.
  intros Hc Hrun. unfold revoke, elapsed, call_noted, call. rewrite Hc.
  cbn [note outside log]. destruct (release_all _) as [ok p]. cbn [outside log].
  assert (H : ran dimensions layout (((log (world t) ++ [Disconnected]) ++ [KeysReleased ok]) ++ [SessionReleased])
                (if ok then Door Closed else Stopped)).
  { eapply ran_snoc; [eapply ran_snoc; [eapply ran_snoc; [done|]|]|]; constructor. }
  destruct (instant_now _) as [now p']. destruct (Digitizer.touch_idle _ _) as [fr i].
  destruct ok; cbn; unfold stands; cbn; eauto.
Qed.

Lemma or_revoke_kept m c t :
  served (m (mkDesk c (hardware_actions t) (world t))) -> kept (or_revoke m c t).
Proof.
  unfold or_revoke, on_desk. destruct (m _) as [[u|e|] d]; cbn; [done| |done].
  intros (v & ph & Hrun). by eapply revoke_kept.
Qed.

Lemma recheck_kept t : stands t -> kept (recheck_session t).
Proof.
  intros Hs. unfold recheck_session. destruct (connection t) as [c|] eqn:Hc; [|done].
  unfold elapsed, call, call_noted. destruct (instant_now _) as [now p]. cbn [outside log].
  destruct (_ <? _); [by eapply stands_same|].
  destruct (instant_now p) as [now' p']. destruct (session_refresh _) as [ok p'']. cbn [outside log].
  unfold stands in Hs. rewrite Hc in Hs. destruct Hs as (v & ph & Hrun & Hl).
  assert (Hrun' : ran dimensions layout (log (world t) ++ [SessionChecked ok]) (Client v (if ok then ph else Leaving)))
    by (eapply ran_snoc; [done|constructor]).
  destruct ok; [|by eapply revoke_kept]. cbn. unfold stands. cbn. rewrite Hc. eauto.
Qed.

Lemma flush_active_kept t : stands t -> kept (flush_active dimensions t).
Proof.
  intros Hs. unfold flush_active. destruct (connection t) as [c|] eqn:Hc; [|done].
  unfold stands in Hs. rewrite Hc in Hs. destruct Hs as (v & ph & Hrun & Hl).
  apply or_revoke_kept. by eapply flush_served.
Qed.

Lemma receive_active_kept t : stands t -> kept (receive_active dimensions layout t).
Proof.
  intros Hs. unfold receive_active. destruct (connection t) as [c|] eqn:Hc; [|done].
  destruct (control c) eqn:Hctl; [done|].
  unfold stands in Hs. rewrite Hc in Hs. destruct Hs as (v & ph & Hrun & Hl).
  assert (ph = Idle) as -> by (destruct Hl as [_ Hl]; rewrite Hctl in Hl; apply Hl).
  apply or_revoke_kept. by eapply receive_served.
Qed.

(** Whoever is admitted has passed every test. *)
Lemma admit_ran e d fd ok e' :
  run_of e (Door d) -> admit_client fd e = (ok, e') ->
  exists d', run_of e' (Door d') /\ (ok = true -> d' = Welcome fd).
Proof.
  intros Hrun. unfold admit_client, call_noted. destruct (peer_user fd _) as [[u|] p].
  2: { intros [= <- <-]. exists Closed. split; [|done]. eapply ran_snoc; [done|]. apply (c_peer _ _ d fd None). }
  pose proof (ran_snoc _ _ _ _ _ _ Hrun (c_peer _ _ d fd (Some u))) as H1.
  destruct (u =? 0) eqn:Hu; [intros [= <- <-]; eexists; split; [exact H1|done]|].
  cbn [outside log] in *. rewrite Hu in H1. destruct (peer_in_group fd p) as [member p1].
  pose proof (ran_snoc _ _ _ _ _ _ H1 (c_group _ _ fd u member)) as H2.
  destruct member; [|intros [= <- <-]; eexists; split; [exact H2|done]]. cbn [outside log].
  destruct (session_admit u p1) as [ok2 p2]. intros [= <- <-].
  pose proof (ran_snoc _ _ _ _ _ _ H2 (c_session _ _ fd u ok2)) as H3.
  eexists. split; [exact H3|]. by intros ->.
Qed.

Lemma new_linked fd : linked (connection_new layout fd) (view_new fd) Idle.
Proof.
  split; [done|]. split; [done|]. split; [done|]. cbn. unfold tables. rewrite !fmap_empty.
  split; [apply FrameState.wf_new|done].
Qed.

Lemma accept_kept t : stands t -> kept (accept_client layout t).
Proof.
  intros Hs. unfold accept_client. destruct (connection t) as [c|] eqn:Hc; [done|].
  unfold call. destruct (listener_ready _) as [[[]|] p]; cbn [outside log].
  2: by eapply stands_same.
  2: by eapply kept_err, stands_same.
  destruct (accept p) as [[fd|] p1]; [|by eapply stands_same].
  unfold stands in Hs. rewrite Hc in Hs. destruct Hs as [d Hrun].
  destruct (admit_client fd _) as [ok e] eqn:Ha.
  eapply (admit_ran (mkEnv p1 (log (world t)))) in Ha as (d' & Hrun' & Hw); [|done].
  destruct ok; [|unfold kept, stands; cbn; rewrite Hc; eauto].
  destruct (instant_now _) as [now p2]. cbn. unfold stands. cbn.
  exists (view_new fd), Idle. split; [|apply new_linked].
  eapply ran_snoc; [done|]. rewrite Hw by done. constructor.
Qed.

Lemma wait_kept t : stands t -> kept (wait_for_service_events t).
Proof.
  intros Hs. unfold wait_for_service_events, call. destruct (wait_events _ _) as [[i|] p].
  - by eapply stands_same.
  - by eapply kept_err, stands_same.
Qed.

Lemma linked_input c v ph bs :
  linked c v ph -> input_ok (with_input bs c) -> linked (with_input bs c) v ph.
Proof.
  intros [_ H] Hin. split; [done|]. cbn. destruct (control c); [|done]. destruct H; by econstructor.
Qed.

Lemma offer_kept frame t : stands t -> kept (offer dimensions frame t).
Proof.
  intros Hs. unfold offer. destruct (connection t) as [c|] eqn:Hc; [|done].
  unfold queue_input. destruct (established c) eqn:He; cbn [negb].
  2: { by eapply (stands_same t). }
  set (msg := mkEnvelope 0 _). pose proof (encode_service_np msg (Some dimensions)).
  destruct (encode_service msg _) as [bs|e|] eqn:E; [|by eapply (stands_same t)|done].
  unfold kept, stands in *. rewrite Hc in Hs. destruct Hs as (v & ph & Hrun & Hl). cbn.
  exists v, ph. split; [done|]. apply linked_input; [done|]. intros bs' [= <-]. split; [done|]. by eexists.
Qed.

Lemma ingest_kept r t : stands t -> kept (ingest dimensions r t).
Proof.
  intros Hs. unfold ingest, elapsed, call. destruct (instant_now _) as [now p].
  cbn [outside log]. destruct (Digitizer.ingest_touch _ _ _). apply offer_kept. by eapply stands_same.
Qed.

Lemma set_fn_kept b t : stands t -> kept (set_fn dimensions b t).
Proof.
  intros Hs. unfold set_fn, elapsed, call. destruct (instant_now _) as [now p].
  cbn [outside log]. destruct (Digitizer.set_fn_pressed _ _ _) as [[f|] i].
  - apply offer_kept. by eapply stands_same.
  - by eapply stands_same.
Qed.

Lemma drain_kept n t : stands t -> kept (drain_digitizer dimensions n t).
Proof.
  revert t. induction n as [|n IH]; intros t Hs; cbn [drain_digitizer]; [done|].
  apply kept_bind; [by apply stands_call|]. intros [[payload|]|] t1 H1; [|done|by apply kept_err].
  apply kept_bind.
  - unfold lift. pose proof (Digitizer.parse_digitizer_no_panic payload) as Hnp. unfold no_panic in Hnp.
    destruct (Digitizer.parse_digitizer_payload _); [done|by apply kept_err|done].
  - intros r t2 H2. apply kept_bind; [by apply ingest_kept|]. intros [] t3 H3. by apply IH.
Qed.

Lemma set_edges_kept edges t : stands t -> kept (set_edges dimensions edges t).
Proof.
  revert t. induction edges as [|b edges IH]; intros t Hs; cbn [set_edges]; [done|].
  apply kept_bind; [by apply set_fn_kept|]. intros [] t1 H1. by apply IH.
Qed.

Lemma process_kept ready t : stands t -> kept (process_input dimensions ready t).
Proof.
  intros Hs. unfold process_input. apply kept_bind; [destruct (ready_digitizer _); [by apply drain_kept|done]|].
  intros [] t1 H1. destruct (ready_function _); [|done]. unfold read_function.
  apply kept_bind; [by apply stands_call|]. intros [[edges| |]|] t2 H2.
  - by apply set_edges_kept.
  - apply kept_bind; [by apply stands_call|]. intros [b|] t3 H3; [by apply set_fn_kept|by apply kept_err].
  - done.
  - by apply kept_err.
Qed.

Lemma run_loop_kept n t : stands t -> kept (run_loop dimensions layout n t).
Proof.
  revert t. induction n as [|n IH]; intros t Hs; cbn [run_loop]; [done|].
  apply kept_bind; [|intros [] t1 H1; by apply IH]. unfold iteration.
  apply kept_bind; [by apply recheck_kept|]. intros [] t1 H1.
  apply kept_bind; [by apply flush_active_kept|]. intros [] t2 H2.
  apply kept_bind; [by apply receive_active_kept|]. intros [] t3 H3.
  apply kept_bind; [by apply accept_kept|]. intros [] t4 H4.
  apply kept_bind; [by apply wait_kept|]. intros ready t5 H5. by apply process_kept.
Qed.
End Link.

(** ** A whole run *)

Section Whole.
Context {P Fd Mem : Type} `{!Platform P Fd Mem}.

Lemma frame_setup_no_panic g : no_panic (frame_setup g).
Proof.
  unfold frame_setup, FrameState.layout_new, Digitizer.dims_new. apply no_panic_bind.
  - apply no_panic_map_err. repeat no_panic_step.
  - intros l _. destruct (_ || _); [apply no_panic_Err|]. apply no_panic_bind; [|intros; apply no_panic_Ok].
    apply no_panic_map_err. repeat no_panic_step.
Qed.

Lemma start_no_panic (p : P) : (start (Fd := Fd) (Mem := Mem) p).1 <> Panic.
Proof.
  unfold start, bind, require, obtain, lift.
  repeat match goal with
  | |- context [frame_setup ?g] =>
      let H := fresh in pose proof (frame_setup_no_panic g) as H; unfold no_panic in H;
      destruct (frame_setup g) as [[? ?]| |]; cbn; [|done|done]
  | |- context [match ?op ?p with (a, b) => _ end] => destruct (op p) as [[] ?]; cbn; try done
  end.
Qed.

Lemma start_stands (p : P) d l t p' :
  start (Fd := Fd) (Mem := Mem) p = (Ok (d, l, t), p') -> stands d l t.
Proof.
  intros H. unfold start in H. inv_run H.
  destruct (instant_now _) as [now q]. simplify_eq. exists Closed. constructor.
Qed.

(** C9. Whatever the devices, the session manager and the client do, the Touch Bar service
    keeps its contract and never panics. A run of [run] sees the outside only through the
    platform calls, and the record of them is a run of the contract: a client is served only
    after its credentials, its group and its session were accepted, and it is not root; each
    packet that decodes in the present phase is one request, only the hardware this request
    names is touched, in its order, and the request gets exactly one answer, the one the
    registry of buffers and the outcome of the hardware call for; a submitted frame is shown
    once, from the buffer that holds it, the first one over the whole panel, and is then
    released; input frames are sent only between requests of an established client; a client
    whose session is no longer valid gets nothing more; and when a client goes, the keys are
    released and then the session, before anyone else is let in. *)
Theorem service_keeps_protocol rounds (p : P) :
  (run (Fd := Fd) (Mem := Mem) rounds p).1 <> Panic /\
  match (start (Fd := Fd) (Mem := Mem) p).1 with
  | Ok (dimensions, layout, _) =>
      exists st, ran dimensions layout (run (Fd := Fd) (Mem := Mem) rounds p).2 st
  | _ => (run (Fd := Fd) (Mem := Mem) rounds p).2 = []
  end.
Proof.
  unfold run. pose proof (start_no_panic p) as Hnp. pose proof (start_stands p) as Hst.
  destruct (start p) as [[[[d l] t]| |] p']; cbn [fst snd] in *; [|done|done].
  pose proof (run_loop_kept d l rounds t (Hst _ _ _ _ eq_refl)) as Hk.
  destruct (run_loop d l rounds t) as [[u|e|] t']; cbn [fst snd kept] in *; [|done|done].
  split; [done|]. by apply stands_ran.
Qed.
End Whole.

(** ** A session

    A client of user 1000 says hello, registers a buffer of a 10 by 5 panel, submits a frame in
    it, taps two keys, and hangs up; the next one is let in; every device works. *)

Definition ex_dims : Digitizer.DisplayDimensions := Digitizer.mkDims 10 5.
Definition ex_packet (id : Z) (m : ClientMessage.t) (dims : option Digitizer.DisplayDimensions) : bytes :=
  match encode_client (mkEnvelope id m) dims with Ok bs => bs | _ => [] end.

Definition ex_requests : list (bytes * option Z) :=
  [(ex_packet 1 (ClientMessage.Hello (mkHello 1 7)) None, None);
   (ex_packet 2 (ClientMessage.RegisterBuffer (mkRegister 4 40 200)) (Some ex_dims), Some 9);
   (ex_packet 3 (ClientMessage.SubmitFrame (mkSubmit 4 77 [])) (Some ex_dims), None);
   (ex_packet 4 (ClientMessage.TapKeys [KeyCode.Escape; KeyCode.F1]) (Some ex_dims), None)].

#[local] Instance ex_platform : Platform (list (bytes * option Z)) Z Z := {|
  activation := fun p => (true, p);
  adopt := fun p => (true, p);
  display_open := fun p => (Some (mkGeometry 10 5 40 200), p);
  digitizer_open := fun p => (true, p);
  function_open := fun p => (true, p);
  keyboard_create := fun p => (true, p);
  brightness_discover := fun p => p;
  session_new := fun p => (true, p);
  instant_now := fun p => (0, p);
  session_refresh := fun p => (true, p);
  session_admit := fun _ p => (true, p);
  session_release := fun p => p;
  session_set_brightness := fun _ _ _ p => (true, p);
  available := fun _ _ => false;
  setting := fun _ _ p => (None, p);
  step_setting := fun _ _ p => (None, p);
  disable := fun _ p => p;
  tap := fun _ p => (true, p);
  release_all := fun p => (true, p);
  touchid_cancel_ffi_cancel := fun p => (0, p);
  frame_accept := fun fd _ p => (Some (fd + 100), p);
  copy_into := fun _ p => (true, p);
  present_rectangles := fun _ p => (true, p);
  send := fun _ _ p => (SendOk, p);
  receive := fun _ p =>
    match p with [] => (ReceiveFailed, []) | (bs, fd) :: p => (ReceivePacket bs fd, p) end;
  listener_ready := fun p => (Some true, p);
  accept := fun p => (Some 5, p);
  peer_user := fun _ p => (Some 1000, p);
  peer_in_group := fun _ p => (true, p);
  wait_events := fun _ p => (Some (mkReady false false), p);
  digitizer_read := fun p => (Some DigitizerIdle, p);
  function_read := fun p => (Some FnIdle, p);
  function_pressed := fun p => (Some false, p)
|}.

(** The effects, with the packets left out. *)
Definition ex_what (x : effect Z Z) : option (effect Z Z) :=
  match x with Sent _ _ | Received _ _ _ _ => None | x => Some x end.

Lemma ex_session :
  ex_what <$> (run 7 ex_requests).2 =
  [Some (PeerIs 5 (Some 1000)); Some (InGroup 5 true); Some (SessionAdmitted 1000 true); Some (Connected 5);
   None; None; None; Some (Mapped (Some 109)); None; None; None;
   Some (Shown 109 [FrameState.mkRect 0 0 10 5] true); None; None;
   Some (Tapped Escape true); Some (Tapped F1 true); None;
   Some Disconnected; Some (KeysReleased true); Some SessionReleased;
   Some (PeerIs 5 (Some 1000)); Some (InGroup 5 true); Some (SessionAdmitted 1000 true); Some (Connected 5)].
Proof. vm_compute. reflexivity. Qed.
End TouchBarContract.
