(* ===== verification/StandardConnection.v ===== *)
(** * Connections of the standard fingerprint protocol

    [t1-daemons/src/standard_connection.rs] and [nss_account.rs]: the state of one local
    connection, whose requests run on the scheduler shared with direct authentication. The
    account database is a parameter, the native lookup of [nss_account_ffi.rs]. *)

From S2P Require Import Prelude AuthProtocol StandardProtocol StandardAuthority AuthSession Scheduler.

Module StandardConnection.
Import AuthProtocol(PeerMetadata, AccessPolicy).
Import StandardProtocol(Username, EnrollProgress, Capabilities).
Import StandardAuthority(ResolvedStandardAccount).
Import AuthSession(Memory, ActiveStandardOperation, StandardCompletion).
Import Scheduler(BrokerServiceScheduler, ScheduledStandardOperation).
Module Client := StandardProtocol.ClientMessage.
Module Server := StandardProtocol.ServerMessage.
Module Outcome := StandardProtocol.TerminalOutcome.
Module Operation := StandardAuthority.Operation.

(** ** Accounts *)

Inductive NssAccountError : Type :=
| InvalidInput | LookupFailed | NotFound | NonCanonical | Root | Unrepresentable | InvalidResult | NativeBoundary.

Definition STATUS_OK : Z := 0.
Definition STATUS_INVALID_INPUT : Z := 1.
Definition STATUS_LOOKUP_FAILED : Z := 2.
Definition STATUS_NOT_FOUND : Z := 3.
Definition STATUS_NON_CANONICAL : Z := 4.
Definition STATUS_ROOT : Z := 5.
Definition STATUS_UNREPRESENTABLE : Z := 6.
Definition STATUS_INVALID_RESULT : Z := 7.

Definition error_from_status (status : Z) : NssAccountError :=
  if status =? STATUS_INVALID_INPUT then InvalidInput
  else if status =? STATUS_LOOKUP_FAILED then LookupFailed
  else if status =? STATUS_NOT_FOUND then NotFound
  else if status =? STATUS_NON_CANONICAL then NonCanonical
  else if status =? STATUS_ROOT then Root
  else if status =? STATUS_UNREPRESENTABLE then Unrepresentable
  else if status =? STATUS_INVALID_RESULT then InvalidResult
  else NativeBoundary.

(** [CString::new] refuses a NUL byte. *)
Definition resolve_with (lookup : bytes -> Z * Z) (username : Username) : res NssAccountError ResolvedStandardAccount :=
  if existsb (Z.eqb 0) (StandardProtocol.as_str username) then Err InvalidInput
  else
    let (status, user_id) := lookup (StandardProtocol.as_str username) in
    if negb (status =? STATUS_OK) then Err (error_from_status status)
    else
      map_err (fun error =>
        match error with
        | StandardAuthority.NonCanonicalAccount => NonCanonical
        | StandardAuthority.RootTarget => Root
        end) (StandardAuthority.account_new username username user_id).

(** ** Connections *)

Inductive StandardConnectionError : Type :=
| NonLocalPeer | InvalidCapabilities | NoActiveOperation | ForeignWorker | InvalidProgress.

Record StandardConnectionConfig : Type := mkConfig { capabilities : Capabilities }.

Definition config_new (enroll_stages : Z) : res StandardConnectionError StandardConnectionConfig :=
  let operations :=
    fold_left StandardProtocol.CapabilitySet.bitor
      [StandardProtocol.CapabilitySet.ENROLL; StandardProtocol.CapabilitySet.VERIFY;
       StandardProtocol.CapabilitySet.IDENTIFY; StandardProtocol.CapabilitySet.DELETE;
       StandardProtocol.CapabilitySet.CANCEL] StandardProtocol.CapabilitySet.LIST in
  let! c := map_err (fun _ => InvalidCapabilities)
    (StandardProtocol.capabilities_new operations enroll_stages StandardProtocol.MAX_IDENTITIES) in
  Ok (mkConfig c).

Record StandardConnection : Type := mkConnection {
  peer : PeerMetadata;
  config : StandardConnectionConfig;
  opened : bool;
  active : option ScheduledStandardOperation
}.

Definition connection_new (peer : PeerMetadata) (config : StandardConnectionConfig)
    : res StandardConnectionError StandardConnection :=
  if negb (bool_decide (AuthProtocol.address_family peer = AuthProtocol.Local)) then Err NonLocalPeer
  else Ok (mkConnection peer config false None).

Record StandardWorkerJob : Type := mkJob { job_operation : ActiveStandardOperation; job_deadline : Duration }.
Record StandardReply : Type := mkReply { message : Server.t; packet : bytes }.

Inductive StandardConnectionDispatch : Type :=
| Reply (reply : StandardReply)
| Start (job : StandardWorkerJob)
| CancellationPending
| Terminate.

(** [ActiveStandardOperation::clone_for_worker]: the event and the slot are shared. *)
Definition clone_for_worker (a : ActiveStandardOperation) : ActiveStandardOperation :=
  AuthSession.mkActiveStd (StandardAuthority.clone_for_worker (AuthSession.std_operation a))
    (AuthSession.std_event a) (AuthSession.std_slot a).

Definition completion (job : StandardWorkerJob) (result : Server.t) : StandardCompletion :=
  AuthSession.std_completion_new (job_operation job) result.

Definition belongs_to (job : StandardWorkerJob) (scheduled : ScheduledStandardOperation) : bool :=
  AuthSession.std_belongs_to (completion job (Server.Terminal Outcome.Error)) (Scheduler.std_op scheduled).

(** [StandardReply::new]; the fixed answer must encode. *)
Definition reply_new (m : Server.t) : res False StandardReply :=
  match StandardProtocol.encode_server m with
  | Ok packet => Ok (mkReply m packet)
  | Err _ =>
      let m := Server.Terminal Outcome.Error in
      match StandardProtocol.encode_server m with Ok packet => Ok (mkReply m packet) | _ => Panic end
  | Panic => Panic
  end.

Definition reply (m : Server.t) : res False StandardConnectionDispatch :=
  let! r := reply_new m in Ok (Reply r).

Definition resolve_operation (resolve : Username -> res NssAccountError ResolvedStandardAccount) (m : Client.t)
    : res NssAccountError Operation.t :=
  match m with
  | Client.ListIdentities => Ok Operation.ListIdentities
  | Client.Enroll username finger => let! account := resolve username in Ok (Operation.Enroll account finger)
  | Client.Verify username identity => let! account := resolve username in Ok (Operation.Verify account identity)
  | Client.Identify username => let! account := resolve username in Ok (Operation.Identify account)
  | Client.DeleteIdentity username identity =>
      let! account := resolve username in Ok (Operation.DeleteIdentity account identity)
  | Client.GetCapabilities | Client.Open | Client.Cancel => Panic
  end.

(** The result, the connection, the service and the shared memory. *)
Definition after (A : Type) : Type := res False A * StandardConnection * BrokerServiceScheduler * Memory.

Definition is_cancel (m : Client.t) : bool := match m with Client.Cancel => true | _ => false end.

(** The last two arms: a request for an operation. *)
Definition dispatch_operation (resolve : Username -> res NssAccountError ResolvedStandardAccount)
    (c : StandardConnection) (s : BrokerServiceScheduler) (m : Memory) (recorded_owner : option AccessPolicy)
    (request : Client.t) (now : Duration) : after StandardConnectionDispatch :=
  let error := reply (Server.Terminal Outcome.Error) in
  if negb (opened c) then (error, c, s, m)
  else
    match resolve_operation resolve request with
    | Err _ => (error, c, s, m)
    | Panic => (Panic, c, s, m)
    | Ok operation =>
        match Scheduler.dispatch_standard s m (peer c) recorded_owner operation now with
        | (Scheduler.ScheduledStandardDispatch.Reply r, s, m) => (reply r, c, s, m)
        | (Scheduler.ScheduledStandardDispatch.Start h, s, m) =>
            (Ok (Start (mkJob (clone_for_worker (Scheduler.std_op h)) (Scheduler.ss_deadline h))),
             mkConnection (peer c) (config c) (opened c) (Some h), s, m)
        | (Scheduler.ScheduledStandardDispatch.Terminate, s, m) => (Ok Terminate, c, s, m)
        end
    end.

Definition dispatch_packet_with (resolve : Username -> res NssAccountError ResolvedStandardAccount)
    (c : StandardConnection) (s : BrokerServiceScheduler) (m : Memory) (recorded_owner : option AccessPolicy)
    (packet : bytes) (now : Duration) : after StandardConnectionDispatch :=
  let error := reply (Server.Terminal Outcome.Error) in
  match StandardProtocol.decode_client packet with
  | Err _ => (error, c, s, m)
  | Panic => (Panic, c, s, m)
  | Ok request =>
      match active c with
      | Some h =>
          if is_cancel request
          then let '(_, s, m) := Scheduler.cancel_standard s m h in (Ok CancellationPending, c, s, m)
          else (reply (Server.Terminal Outcome.Busy), c, s, m)
      | None =>
          match request with
          | Client.GetCapabilities => (reply (Server.Capabilities (capabilities (config c))), c, s, m)
          | Client.Open => (reply Server.Opened, mkConnection (peer c) (config c) true (active c), s, m)
          | Client.Cancel => (error, c, s, m)
          | _ => dispatch_operation resolve c s m recorded_owner request now
          end
      end
  end.

Definition dispatch_packet (lookup : bytes -> Z * Z) := dispatch_packet_with (resolve_with lookup).

Definition worker_progress (c : StandardConnection) (worker : StandardWorkerJob) (progress : EnrollProgress)
    : res StandardConnectionError StandardReply :=
  let! scheduled := ok_or (active c) NoActiveOperation in
  if negb (belongs_to worker scheduled) then Err ForeignWorker
  else if negb (Operation.is_enroll (StandardAuthority.operation (AuthSession.std_operation (job_operation worker))))
  then Err InvalidProgress
  else match reply_new (Server.EnrollProgress progress) with Ok r => Ok r | _ => Panic end.

Definition take_active (c : StandardConnection) : StandardConnection :=
  mkConnection (peer c) (config c) (opened c) None.

Definition finish_worker (c : StandardConnection) (s : BrokerServiceScheduler) (m : Memory) (k : StandardCompletion)
    (now : Duration) : after StandardConnectionDispatch :=
  match active c with
  | None => (Ok Terminate, c, s, m)
  | Some h =>
      let c := take_active c in
      if negb (AuthSession.std_belongs_to k (Scheduler.std_op h))
      then let (_, s) := Scheduler.standard_worker_lost s h in (Ok Terminate, c, s, m)
      else
        let '(r, s, m) := Scheduler.finish_standard s m h k now in
        (reply r, c, s, m)
  end.

Definition client_disconnected (c : StandardConnection) (s : BrokerServiceScheduler) (m : Memory)
    : bool * BrokerServiceScheduler * Memory :=
  match active c with None => (false, s, m) | Some h => Scheduler.standard_client_disconnected s m h end.

Definition deadline_expired (c : StandardConnection) (s : BrokerServiceScheduler) (m : Memory)
    : bool * BrokerServiceScheduler * Memory :=
  match active c with None => (false, s, m) | Some h => Scheduler.standard_deadline_expired s m h end.

Definition is_active_in (c : StandardConnection) (s : BrokerServiceScheduler) : bool :=
  match active c with None => false | Some h => Scheduler.owns_standard s h end.

Definition worker_lost (c : StandardConnection) (s : BrokerServiceScheduler) (m : Memory)
    : after StandardConnectionDispatch :=
  match active c with
  | None => (Ok Terminate, c, s, m)
  | Some h => let (_, s) := Scheduler.standard_worker_lost s h in (Ok Terminate, take_active c, s, m)
  end.

(** ** Many connections on one service

    The other callers of the service, the direct authentication among them, may do anything. *)

Import Scheduler(world, mkWorld, svc, mem, out, issued, IAuth, IStd, in_sync, goes).

Record site : Type := mkSite { shared : world; conns : list StandardConnection }.

(** A worker is named by the handle it was started with. *)
Inductive deed : Type :=
| Accept (p : PeerMetadata)
| Packet (i : nat) (owner : option AccessPolicy) (bs : bytes) (now : Duration)
| Progress (i n : nat) (p : EnrollProgress)
| Finished (i n : nat) (result : Server.t) (now : Duration)
| Gone (i : nat)
| Expired (i : nat)
| Lost (i : nat)
| Other (e : Scheduler.event).

Inductive sight : Type :=
| Accepted
| Answered (r : StandardReply)
| Started (h : ScheduledStandardOperation) (job : StandardWorkerJob)
| Pending
| Ended
| Refused (e : StandardConnectionError)
| Acknowledged (b : bool)
| Nothing
| Panicked.

Section Site.
Context (lookup : bytes -> Z * Z) (cfg : StandardConnectionConfig).

(** The site after an event of the [i]th connection; a job is issued as its handle. *)
Definition seen (st : site) (i : nat) (r : after StandardConnectionDispatch) : sight * site :=
  let '(d, c, s, m) := r in
  let to (hs : list issued) := mkSite (mkWorld s m (out (shared st) ++ hs)) (<[i := c]> (conns st)) in
  match d with
  | Ok (Reply r) => (Answered r, to [])
  | Ok (Start job) =>
      match active c with Some h => (Started h job, to [IStd h]) | None => (Panicked, to []) end
  | Ok CancellationPending => (Pending, to [])
  | Ok Terminate => (Ended, to [])
  | _ => (Panicked, to [])
  end.

Definition acknowledged (st : site) (r : bool * BrokerServiceScheduler * Memory) : sight * site :=
  let '(b, s, m) := r in (Acknowledged b, mkSite (mkWorld s m (out (shared st))) (conns st)).

(** The worker of an issued standard handle. *)
Definition job_of (st : site) (n : nat) : option StandardWorkerJob :=
  match out (shared st) !! n with
  | Some (IStd h) => Some (mkJob (clone_for_worker (Scheduler.std_op h)) (Scheduler.ss_deadline h))
  | _ => None
  end.

Definition site_step (st : site) (e : deed) : sight * site :=
  let s := svc (shared st) in
  let m := mem (shared st) in
  match e with
  | Accept p =>
      match connection_new p cfg with
      | Ok c => (Accepted, mkSite (shared st) (conns st ++ [c]))
      | Err e => (Refused e, st)
      | Panic => (Panicked, st)
      end
  | Packet i owner bs now =>
      match conns st !! i with
      | Some c => seen st i (dispatch_packet lookup c s m owner bs now)
      | None => (Nothing, st)
      end
  | Progress i n p =>
      match conns st !! i, job_of st n with
      | Some c, Some job =>
          match worker_progress c job p with
          | Ok r => (Answered r, st)
          | Err e => (Refused e, st)
          | Panic => (Panicked, st)
          end
      | _, _ => (Nothing, st)
      end
  | Finished i n result now =>
      match conns st !! i, job_of st n with
      | Some c, Some job => seen st i (finish_worker c s m (completion job result) now)
      | _, _ => (Nothing, st)
      end
  | Gone i =>
      match conns st !! i with Some c => acknowledged st (client_disconnected c s m) | None => (Nothing, st) end
  | Expired i =>
      match conns st !! i with Some c => acknowledged st (deadline_expired c s m) | None => (Nothing, st) end
  | Lost i =>
      match conns st !! i with Some c => seen st i (worker_lost c s m) | None => (Nothing, st) end
  | Other e => (Nothing, mkSite (snd (Scheduler.service_step (shared st) e)) (conns st))
  end.

(** ** The contract of a connection *)

Inductive phase : Type :=
| Shut
| Ready
| Working (request : Client.t) (h : ScheduledStandardOperation).

(** An answer is the message meant, or [Error] for one that has no packet. *)
Definition says (r : StandardReply) (m : Server.t) : Prop :=
  StandardProtocol.encode_server (message r) = Ok (packet r) /\
  (message r = m \/
   message r = Server.Terminal Outcome.Error /\ forall bs, StandardProtocol.encode_server m <> Ok bs).

(** The operation that a request asks for, of the account that the lookup found. *)
Definition asks (request : Client.t) (op : Operation.t) : Prop :=
  match request, op with
  | Client.ListIdentities, Operation.ListIdentities => True
  | Client.Enroll u f, Operation.Enroll a f' => f = f' /\ resolve_with lookup u = Ok a
  | Client.Verify u i, Operation.Verify a i' => i = i' /\ resolve_with lookup u = Ok a
  | Client.Identify u, Operation.Identify a => resolve_with lookup u = Ok a
  | Client.DeleteIdentity u i, Operation.DeleteIdentity a i' => i = i' /\ resolve_with lookup u = Ok a
  | _, _ => False
  end.

Definition operation_of (h : ScheduledStandardOperation) : Operation.t :=
  StandardAuthority.operation (AuthSession.std_operation (Scheduler.std_op h)).

(** The worker's flag, and whether the worker still listens to it. *)
Definition flagged (w : world) (h : ScheduledStandardOperation) : bool :=
  AuthSession.std_is_cancelled (mem w) (Scheduler.std_op h).
Definition cancellable (w : world) (h : ScheduledStandardOperation) : Prop :=
  Scheduler.owns_standard (svc w) h = true /\
  AuthSession.registered (mem w) (AuthSession.std_slot (Scheduler.std_op h))
    (AuthSession.std_handle (Scheduler.std_op h)).

Definition is_operation (m : Client.t) : bool :=
  match m with Client.GetCapabilities | Client.Open | Client.Cancel => false | _ => true end.

(** The jobs that belong to an operation. *)
Definition is_worker (w : world) (n : nat) (h : ScheduledStandardOperation) : Prop :=
  exists h', out w !! n = Some (IStd h') /\
  AuthSession.std_handle (Scheduler.std_op h') = AuthSession.std_handle (Scheduler.std_op h).

Definition enrolls (w : world) (n : nat) (h : ScheduledStandardOperation) : Prop :=
  exists h', out w !! n = Some (IStd h') /\
  AuthSession.std_handle (Scheduler.std_op h') = AuthSession.std_handle (Scheduler.std_op h) /\
  Operation.is_enroll (operation_of h') = true.

Inductive packet_step (w : world) : phase -> option Client.t -> sight -> world -> phase -> Prop :=
| p_garbled ph r : says r (Server.Terminal Outcome.Error) -> packet_step w ph None (Answered r) w ph
| p_cancel rq h w' :
    (cancellable w h -> flagged w' h = true) ->
    packet_step w (Working rq h) (Some Client.Cancel) Pending w' (Working rq h)
| p_busy rq h m r :
    m <> Client.Cancel -> says r (Server.Terminal Outcome.Busy) ->
    packet_step w (Working rq h) (Some m) (Answered r) w (Working rq h)
| p_capabilities ph r :
    ph = Shut \/ ph = Ready -> says r (Server.Capabilities (capabilities cfg)) ->
    packet_step w ph (Some Client.GetCapabilities) (Answered r) w ph
| p_open ph r :
    ph = Shut \/ ph = Ready -> says r Server.Opened -> packet_step w ph (Some Client.Open) (Answered r) w Ready
| p_nothing ph r :
    ph = Shut \/ ph = Ready -> says r (Server.Terminal Outcome.Error) ->
    packet_step w ph (Some Client.Cancel) (Answered r) w ph
| p_shut m r :
    is_operation m = true -> says r (Server.Terminal Outcome.Error) ->
    packet_step w Shut (Some m) (Answered r) w Shut
| p_refused m r o w' :
    is_operation m = true -> says r (Server.Terminal o) ->
    o ∈ [Outcome.Error; Outcome.SecondOwner; Outcome.Busy] ->
    packet_step w Ready (Some m) (Answered r) w' Ready
| p_dead m w' :
    is_operation m = true -> Scheduler.poisoned (Scheduler.workers (svc w')) = true ->
    packet_step w Ready (Some m) Ended w' Ready
| p_start m h w' :
    is_operation m = true -> asks m (operation_of h) -> out w' = out w ++ [IStd h] ->
    Scheduler.owns_standard (svc w') h = true ->
    packet_step w Ready (Some m) (Started h (mkJob (clone_for_worker (Scheduler.std_op h)) (Scheduler.ss_deadline h)))
      w' (Working m h).

(** What a worker's end is answered with. *)
Definition verdict_of (w : world) (h : ScheduledStandardOperation) (result answer : Server.t) : Prop :=
  answer = Server.Terminal Outcome.Error \/
  (flagged w h = true /\ answer = Server.Terminal Outcome.Cancelled) \/
  (flagged w h = false /\ answer = result /\
   Scheduler.owns_standard (svc w) h = true /\
   StandardAuthority.result_is_compatible (AuthSession.std_operation (Scheduler.std_op h)) result = true).

(** A worker that is lost takes the service with it. *)
Definition loses (w w' : world) (h : ScheduledStandardOperation) : Prop :=
  Scheduler.owns_standard (svc w) h = true -> Scheduler.poisoned (Scheduler.workers (svc w')) = true.

(** An event of no connection, or of no worker. *)
Definition nobody (w : world) (phs : list phase) (e : deed) : Prop :=
  match e with
  | Packet i _ _ _ | Gone i | Expired i | Lost i => phs !! i = None
  | Progress i n _ | Finished i n _ _ => phs !! i = None \/ forall h, out w !! n <> Some (IStd h)
  | Accept _ | Other _ => False
  end.

Inductive cstep (w : world) : list phase -> deed -> sight -> world -> list phase -> Prop :=
| c_accept phs p : AuthProtocol.address_family p = AuthProtocol.Local -> cstep w phs (Accept p) Accepted w (phs ++ [Shut])
| c_not_local phs p :
    AuthProtocol.address_family p <> AuthProtocol.Local -> cstep w phs (Accept p) (Refused NonLocalPeer) w phs
| c_nobody phs e : nobody w phs e -> cstep w phs e Nothing w phs
| c_packet phs i owner bs now m o w' ph ph' :
    phs !! i = Some ph ->
    (forall x, m = Some x <-> StandardProtocol.decode_client bs = Ok x) ->
    packet_step w ph m o w' ph' -> cstep w phs (Packet i owner bs now) o w' (<[i := ph']> phs)
| c_progress phs i n p rq h r :
    phs !! i = Some (Working rq h) -> enrolls w n h -> says r (Server.EnrollProgress p) ->
    cstep w phs (Progress i n p) (Answered r) w phs
| c_no_progress phs i n p e :
    (forall rq h, phs !! i = Some (Working rq h) -> ~ enrolls w n h) -> cstep w phs (Progress i n p) (Refused e) w phs
| c_finished phs i n result now rq h r answer w' :
    phs !! i = Some (Working rq h) -> is_worker w n h -> verdict_of w h result answer -> says r answer ->
    cstep w phs (Finished i n result now) (Answered r) w' (<[i := Ready]> phs)
| c_foreign phs i n result now rq h w' :
    phs !! i = Some (Working rq h) -> ~ is_worker w n h -> loses w w' h ->
    cstep w phs (Finished i n result now) Ended w' (<[i := Ready]> phs)
| c_no_worker phs i n result now ph :
    phs !! i = Some ph -> ph = Shut \/ ph = Ready -> cstep w phs (Finished i n result now) Ended w phs
| c_gone phs i ph e b w' :
    e = Gone i \/ e = Expired i -> phs !! i = Some ph ->
    (forall rq h, ph = Working rq h -> b = true -> flagged w' h = true) ->
    ((forall rq h, ph <> Working rq h) -> b = false) ->
    cstep w phs e (Acknowledged b) w' phs
| c_lost phs i rq h w' :
    phs !! i = Some (Working rq h) -> loses w w' h -> cstep w phs (Lost i) Ended w' (<[i := Ready]> phs)
| c_not_lost phs i ph :
    phs !! i = Some ph -> ph = Shut \/ ph = Ready -> cstep w phs (Lost i) Ended w phs
| c_other phs e w' : cstep w phs (Other e) Nothing w' phs.

(** The runs of the contract, and of the site. *)
Inductive contract_run : world -> list phase -> list deed -> list sight -> world -> list phase -> Prop :=
| run_nil w phs : contract_run w phs [] [] w phs
| run_cons w phs e o w1 phs1 es os w2 phs2 :
    cstep w phs e o w1 phs1 -> contract_run w1 phs1 es os w2 phs2 -> contract_run w phs (e :: es) (o :: os) w2 phs2.

Fixpoint site_run (st : site) (es : list deed) : list sight * site :=
  match es with
  | [] => ([], st)
  | e :: es => let (o, st) := site_step st e in let (os, st) := site_run st es in (o :: os, st)
  end.

(** ** The connections keep it *)

Definition conn_ok (w : world) (c : StandardConnection) (ph : phase) : Prop :=
  config c = cfg /\
  match ph with
  | Shut => opened c = false /\ active c = None
  | Ready => opened c = true /\ active c = None
  | Working rq h => opened c = true /\ active c = Some h /\ IStd h ∈ out w
  end.

Definition linked (st : site) (phs : list phase) : Prop :=
  (exists cur, in_sync (shared st) cur) /\ Forall2 (conn_ok (shared st)) (conns st) phs.

Lemma conn_ok_mono w w' c ph : out w `prefix_of` out w' -> conn_ok w c ph -> conn_ok w' c ph.
Proof.
  intros [l Hl] [Hc H]. split; [done|]. destruct ph; [done|done|]. rewrite Hl, elem_of_app. naive_solver.
Qed.

Lemma linked_goes st phs w cur w' cur' :
  linked st phs -> shared st = w -> goes w cur w' cur' -> linked (mkSite w' (conns st)) phs.
Proof.
  intros [_ HF] <- (Hs & Hp & _). split; [by eexists|]. cbn. eapply Forall2_impl; [done|].
  intros c ph. by apply conn_ok_mono.
Qed.

Lemma linked_conn st phs w cur w' cur' i c ph :
  linked st phs -> shared st = w -> goes w cur w' cur' -> conn_ok w' c ph ->
  linked (mkSite w' (<[i := c]> (conns st))) (<[i := ph]> phs).
Proof.
  intros Hl Hw Hg Hc. destruct (linked_goes _ _ _ _ _ _ Hl Hw Hg) as [Hs HF]. split; [done|]. cbn in *.
  by apply Forall2_insert.
Qed.

Lemma linked_lookup st phs i c :
  linked st phs -> conns st !! i = Some c -> exists ph, phs !! i = Some ph /\ conn_ok (shared st) c ph.
Proof. intros [_ HF] Hi. by eapply Forall2_lookup_l in HF. Qed.

Lemma linked_none st phs i : linked st phs -> conns st !! i = None -> phs !! i = None.
Proof.
  intros [_ HF] Hi. apply lookup_ge_None. rewrite <- (Forall2_length _ _ _ HF). by apply lookup_ge_None.
Qed.

(** A name is within the bound of its constructor. *)
Definition named (m : Server.t) : Prop :=
  match m with Server.IdentityList (Some u) _ => StandardProtocol.username_wf u | _ => True end.

Lemma encode_server_np m : named m -> no_panic (StandardProtocol.encode_server m).
Proof.
  intros Hn. unfold StandardProtocol.encode_server, StandardProtocol.encode_packet. apply no_panic_bind.
  - destruct m as [c| |[u|] ids|p|o]; try apply no_panic_Ok.
    all: apply no_panic_bind; [apply StandardProtocol.validate_identity_list_np|intros _ _].
    all: apply no_panic_bind; [apply no_panic_ok_or|intros ? _].
    + rewrite StandardProtocol.encode_username_ok by done. apply no_panic_Ok.
    + apply no_panic_Ok.
  - intros [t payload] _. repeat no_panic_step.
Qed.

Lemma reply_new_says m : named m -> exists r, reply_new m = Ok r /\ says r m.
Proof.
  intros Hn. unfold reply_new. pose proof (encode_server_np m Hn) as Hnp. unfold no_panic in Hnp.
  destruct (StandardProtocol.encode_server m) as [bs|e|] eqn:E; [|eexists; split; [reflexivity|]|done].
  - eexists. split; [done|]. split; [done|]. by left.
  - split; [done|]. right. split; [done|]. intros bs. by rewrite E.
Qed.

Lemma reply_says m : named m -> exists r, reply m = Ok (Reply r) /\ says r m.
Proof. intros Hn. unfold reply. destruct (reply_new_says m Hn) as (r & -> & Hr). by exists r. Qed.

(** ** The calls of a connection *)

Lemma session_dispatch_detail c m peer owner op d c' m' :
  AuthSession.dispatch_standard c m peer owner op = (d, c', m') ->
  match d with
  | AuthSession.StandardSessionDecision.Reply r =>
      exists o, r = Server.Terminal o /\ o ∈ [Outcome.Error; Outcome.SecondOwner; Outcome.Busy]
  | AuthSession.StandardSessionDecision.Start a => StandardAuthority.operation (AuthSession.std_operation a) = op
  end.
Proof.
  unfold AuthSession.dispatch_standard, StandardAuthority.dispatch_standard, StandardAuthority.standard_reply. intros H.
  destruct (StandardAuthority.authorize _ _ _) as [[[target auth] nominee]|].
  2: { simplify_eq/=. eexists. split; [done|]. set_solver. }
  destruct (StandardAuthority.wrong_owner _ _).
  { simplify_eq/=. eexists. split; [done|]. destruct (Operation.is_enroll op); set_solver. }
  unfold AuthProtocol.start_token in H.
  destruct (AuthProtocol.active _) as [x|].
  { simplify_eq/=. eexists. split; [done|]. set_solver. }
  destruct (AuthProtocol.next_token (AuthSession.state c) =? 0).
  { simplify_eq/=. eexists. split; [done|]. set_solver. }
  unfold AuthSession.install_standard_decision in H.
  destruct (AuthSession.new_event m) as [ev m1]. destruct (AuthSession.install _ _ _ _) as [[] m2]; [by simplify_eq/=|].
  unfold StandardAuthority.finish_standard, AuthProtocol.finish_token in H. cbn in H. rewrite Z.eqb_refl in H. cbn in H.
  simplify_eq. eexists. split; [done|]. set_solver.
Qed.

Lemma dispatch_detail s m peer owner op now d s' m' :
  Scheduler.dispatch_standard s m peer owner op now = (d, s', m') ->
  match d with
  | Scheduler.ScheduledStandardDispatch.Reply r =>
      exists o, r = Server.Terminal o /\ o ∈ [Outcome.Error; Outcome.SecondOwner; Outcome.Busy]
  | Scheduler.ScheduledStandardDispatch.Start h => operation_of h = op /\ Scheduler.owns_standard s' h = true
  | Scheduler.ScheduledStandardDispatch.Terminate => Scheduler.poisoned (Scheduler.workers s') = true
  end.
Proof.
  unfold Scheduler.dispatch_standard. destruct (Scheduler.poisoned _) eqn:Hp; [by intros [= <- <- <-]|].
  destruct (AuthSession.dispatch_standard _ _ _ _ _) as [[dec c] m1] eqn:Hd.
  pose proof (session_dispatch_detail _ _ _ _ _ _ _ _ Hd) as Hdet.
  unfold Scheduler.schedule_standard. destruct dec as [r|a]; [by intros [= <- <- <-]|]. cbn [Scheduler.workers].
  destruct (Scheduler.admit_with_timeout _ _ _) as [adm k] eqn:Hk.
  pose proof (Scheduler.admit_spec _ _ _ _ _ Hk) as Hadm.
  destruct (AuthSession.abandon_standard _ _ _) as [[r2 c2] m2]. destruct adm as [l dl| |]; intros [= <- <- <-]; [|done|done].
  split; [done|]. unfold Scheduler.owns_standard, Scheduler.worker_owns. cbn.
  destruct Hadm as (_ & _ & _ & _ & -> & _). cbn. by rewrite bool_decide_eq_true_2, Z.eqb_refl.
Qed.

Lemma std_index w h : IStd h ∈ out w -> exists n, out w !! n = Some (IStd h).
Proof. apply list_elem_of_lookup. Qed.

Lemma owned w cur h :
  in_sync w cur -> IStd h ∈ out w -> Scheduler.owns_standard (svc w) h = true ->
  cur = Some (IStd h) /\ AuthSession.std_slot (Scheduler.std_op h) = AuthSession.cancellation (Scheduler.coordinator (svc w)).
Proof.
  intros Hs Hi Ho.
  by destruct (Scheduler.owns_cases _ _ _ (Scheduler.owns_standard (svc w) h) Hs Hi eq_refl) as [(_ & -> & ?)|(Ho' & _)];
    [|congruence].
Qed.

(** A cancellation reaches the worker that listens. *)
Lemma cancel_reaches w cur h b s' m' :
  in_sync w cur -> IStd h ∈ out w -> Scheduler.cancel_standard (svc w) (mem w) h = (b, s', m') ->
  goes w cur (mkWorld s' m' (out w)) cur /\ (cancellable w h -> flagged (mkWorld s' m' (out w)) h = true).
Proof.
  intros Hs Hi H. destruct (std_index _ _ Hi) as [n Hn]. split.
  { eapply (Scheduler.cancel_step w cur (Scheduler.ECancelStandard n) n (IStd h) (Scheduler.OAck b)); [done|by right; right|done|].
    unfold Scheduler.service_step. by rewrite Hn, H. }
  intros [Ho [Hlock Hreg]]. destruct (owned _ _ _ Hs Hi Ho) as [-> Hslot].
  unfold Scheduler.cancel_standard, AuthSession.cancel_standard in H. rewrite Ho in H. cbn [negb] in H.
  rewrite bool_decide_eq_true_2 in H by done. cbn [negb] in H.
  destruct (AuthSession.in_step_broker _ _ _ _ (Scheduler.sync_step _ _ Hs)) as (last & (Hb & _) & _). cbn in Hb.
  unfold StandardAuthority.cancel_standard, AuthProtocol.cancel_token in H.
  destruct (AuthProtocol.active _) as [a|]; cbn in Hb; [|done]. injection Hb as Ht Hc.
  rewrite <- Ht, Z.eqb_refl in H. cbn [negb] in H. rewrite Hslot in Hlock, Hreg.
  unfold AuthSession.deliver in H. rewrite Hlock, Hreg in H. cbn in H. rewrite Z.eqb_refl in H. cbn in H.
  simplify_eq. unfold flagged, AuthSession.std_is_cancelled. cbn.
  rewrite AuthSession.load_store. by rewrite bool_decide_eq_true_2.
Qed.

Lemma disconnected_goes w cur h b s' m' :
  in_sync w cur -> IStd h ∈ out w -> Scheduler.standard_client_disconnected (svc w) (mem w) h = (b, s', m') ->
  goes w cur (mkWorld s' m' (out w)) cur /\ (b = true -> flagged (mkWorld s' m' (out w)) h = true).
Proof.
  intros Hs Hi H. destruct (std_index _ _ Hi) as [n Hn].
  destruct (Scheduler.cancel_step w cur (Scheduler.EDisconnected n) n (IStd h) (Scheduler.OAck b)
              (mkWorld s' m' (out w))) as (Hg & _ & Hl & _); [done|by left|done| |].
  { unfold Scheduler.service_step. by rewrite Hn, H. }
  split; [done|]. intros ->. by apply Hl.
Qed.

Lemma lost_goes w cur h b s' :
  in_sync w cur -> IStd h ∈ out w -> Scheduler.standard_worker_lost (svc w) h = (b, s') ->
  (exists cur', goes w cur (mkWorld s' (mem w) (out w)) cur') /\ loses w (mkWorld s' (mem w) (out w)) h.
Proof.
  intros Hs Hi H. destruct (std_index _ _ Hi) as [n Hn]. split.
  { destruct (Scheduler.step_goes w cur (Scheduler.EWorkerLost n) Hs) as [cur' Hg].
    unfold Scheduler.service_step in Hg. rewrite Hn, H in Hg. by exists cur'. }
  intros Ho. unfold Scheduler.standard_worker_lost in H. rewrite Ho in H. cbn [negb] in H.
  unfold Scheduler.owns_standard in Ho. apply andb_true_iff in Ho as [_ Ho]. unfold Scheduler.worker_owns in Ho.
  unfold Scheduler.scheduler_worker_lost in H. destruct (Scheduler.active _); [|done]. rewrite Ho in H. cbn in H.
  by simplify_eq.
Qed.

(** ** One event *)

Lemma seen_reply st i m r c s mm :
  reply m = Ok (Reply r) ->
  seen st i (reply m, c, s, mm) = (Answered r, mkSite (mkWorld s mm (out (shared st))) (<[i := c]> (conns st))).
Proof. intros Hr. unfold seen. by rewrite Hr, app_nil_r. Qed.

(** The world as it was. *)
Lemma linked_same st phs i c ph :
  linked st phs -> conn_ok (shared st) c ph ->
  linked (mkSite (mkWorld (svc (shared st)) (mem (shared st)) (out (shared st))) (<[i := c]> (conns st))) (<[i := ph]> phs).
Proof.
  intros Hl Hc. pose proof Hl as [[cur Hs] _]. rewrite Scheduler.world_eta.
  eapply linked_conn; [done|done|by apply Scheduler.goes_refl|done].
Qed.

Lemma answered_same st phs i e m c ph :
  linked st phs -> named m -> conn_ok (shared st) c ph ->
  (forall r, says r m -> cstep (shared st) phs e (Answered r) (shared st) (<[i := ph]> phs)) ->
  forall o st', seen st i (reply m, c, svc (shared st), mem (shared st)) = (o, st') ->
  exists phs', cstep (shared st) phs e o (shared st') phs' /\ linked st' phs'.
Proof.
  intros Hl Hn Hc Hstep o st' H. destruct (reply_says m Hn) as (r & Hr & Hsay).
  rewrite (seen_reply _ _ _ _ _ _ _ Hr) in H. injection H as <- <-. exists (<[i := ph]> phs).
  split; [|by apply linked_same]. cbn [shared]. rewrite Scheduler.world_eta. by apply Hstep.
Qed.

Lemma resolve_asks m op : resolve_operation (resolve_with lookup) m = Ok op -> asks m op.
Proof. destruct m; cbn; intros H; inv_ok H; cbn; auto. Qed.

Lemma account_np u : no_panic (resolve_with lookup u).
Proof.
  unfold resolve_with. destruct (existsb _ _); [apply no_panic_Err|]. destruct (lookup _) as [status uid].
  destruct (negb _); [apply no_panic_Err|]. apply no_panic_map_err. unfold StandardAuthority.account_new. repeat no_panic_step.
Qed.

Lemma resolve_operation_np m : is_operation m = true -> no_panic (resolve_operation (resolve_with lookup) m).
Proof.
  destruct m; cbn; intros H; try done; try apply no_panic_Ok;
    (apply no_panic_bind; [apply account_np|intros; apply no_panic_Ok]).
Qed.

(** A request for an operation on an open connection. *)
Lemma operation_step st phs i c rq owner bs now o st' :
  linked st phs -> conns st !! i = Some c -> phs !! i = Some Ready -> conn_ok (shared st) c Ready ->
  StandardProtocol.decode_client bs = Ok rq -> is_operation rq = true ->
  seen st i (dispatch_operation (resolve_with lookup) c (svc (shared st)) (mem (shared st)) owner rq now) = (o, st') ->
  exists phs', cstep (shared st) phs (Packet i owner bs now) o (shared st') phs' /\ linked st' phs'.
Proof.
  intros Hl Hi Hph Hc Hdec Hop H. pose proof Hl as [[cur Hs] _]. unfold dispatch_operation in H.
  assert (Hm : forall x, Some rq = Some x <-> StandardProtocol.decode_client bs = Ok x) by (intros x; rewrite Hdec; naive_solver).
  replace (negb (opened c)) with false in H by (destruct Hc as (_ & -> & _); done).
  pose proof (resolve_operation_np rq Hop) as Hnp. unfold no_panic in Hnp.
  destruct (resolve_operation _ rq) as [op|e|] eqn:Hres; [| |done].
  2: { eapply answered_same in H; [done|done|done|done|]. intros r Hr.
       eapply c_packet; [done|done|]. eapply p_refused; [done|done|set_solver]. }
  destruct (Scheduler.dispatch_standard_goes _ _ (peer c) owner op now Hs) as [cur' Hg].
  destruct (Scheduler.dispatch_standard _ _ _ _ _ _) as [[d s'] m'] eqn:Hd.
  pose proof (dispatch_detail _ _ _ _ _ _ _ _ _ Hd) as Hdet. cbn [Scheduler.std_dispatched] in Hg.
  destruct d as [r|h|]; cbn [snd] in Hg.
  - destruct Hdet as (oc & -> & Hin). destruct (reply_says (Server.Terminal oc) I) as (r & Hr & Hsay).
    rewrite (seen_reply _ _ _ _ _ _ _ Hr) in H. injection H as <- <-.
    exists (<[i := Ready]> phs). split; [by eapply c_packet, p_refused|by eapply linked_conn].
  - destruct Hdet as [Hop' Hown]. cbn in H. injection H as <- <-.
    exists (<[i := Working rq h]> phs). split.
    + eapply c_packet; [done|done|]. apply p_start; [done|rewrite Hop'; by apply resolve_asks|done|done].
    + eapply linked_conn; [done|done|done|]. destruct Hc as (Hcfg & Ho & _). split; [done|]. cbn.
      split_and!; [done|done|]. apply elem_of_app. right. by apply list_elem_of_singleton.
  - cbn in H. rewrite app_nil_r in H. injection H as <- <-. exists (<[i := Ready]> phs).
    split; [by eapply c_packet, p_dead|by eapply linked_conn].
Qed.

Lemma idle_phase w c ph : conn_ok w c ph -> active c = None -> (ph = Shut /\ opened c = false) \/ (ph = Ready /\ opened c = true).
Proof. intros [_ H] Ha. destruct ph; [left|right|]; naive_solver. Qed.

Lemma busy_phase w c ph h : conn_ok w c ph -> active c = Some h -> exists rq, ph = Working rq h /\ IStd h ∈ out w.
Proof. intros [_ H] Ha. destruct ph as [| |rq h']; [naive_solver..|]. exists rq. naive_solver. Qed.

Lemma packet_ok st phs i c owner bs now o st' :
  linked st phs -> conns st !! i = Some c ->
  seen st i (dispatch_packet lookup c (svc (shared st)) (mem (shared st)) owner bs now) = (o, st') ->
  exists phs', cstep (shared st) phs (Packet i owner bs now) o (shared st') phs' /\ linked st' phs'.
Proof.
  intros Hl Hi H. destruct (linked_lookup _ _ _ _ Hl Hi) as (ph & Hph & Hc).
  unfold dispatch_packet, dispatch_packet_with in H.
  destruct (StandardProtocol.std_decode_no_panic bs) as [Hnp _]. unfold no_panic in Hnp.
  destruct (StandardProtocol.decode_client bs) as [rq|e|] eqn:Hdec; [| |done].
  2: { eapply answered_same in H; [done|done|done|done|]. intros r Hr.
       eapply c_packet; [done| |by apply p_garbled]. intros x. rewrite Hdec. naive_solver. }
  assert (Hm : forall x, Some rq = Some x <-> StandardProtocol.decode_client bs = Ok x) by (intros x; rewrite Hdec; naive_solver).
  assert (Hstep : forall r ph', packet_step (shared st) ph (Some rq) (Answered r) (shared st) ph' ->
    cstep (shared st) phs (Packet i owner bs now) (Answered r) (shared st) (<[i := ph']> phs)).
  { intros r ph' Hp. by eapply c_packet. }
  destruct (active c) as [h|] eqn:Ha.
  - destruct (busy_phase _ _ _ _ Hc Ha) as (rq0 & -> & Hin). destruct (is_cancel rq) eqn:Hcan.
    + destruct rq; try done. pose proof Hl as [[cur Hs] _].
      destruct (Scheduler.cancel_standard _ _ _) as [[b s'] m'] eqn:Hcs.
      destruct (cancel_reaches _ _ _ _ _ _ Hs Hin Hcs) as [Hg Hf]. cbn in H. rewrite app_nil_r in H. injection H as <- <-.
      exists (<[i := Working rq0 h]> phs). split; [by eapply c_packet, p_cancel|by eapply linked_conn].
    + eapply answered_same in H; [done|done|done|done|]. intros r Hr. apply Hstep, p_busy; [|done]. by intros ->.
  - pose proof (idle_phase _ _ _ Hc Ha) as Hidle.
    assert (Hquiet : ph = Shut \/ ph = Ready) by naive_solver.
    destruct (is_operation rq) eqn:Hop.
    + assert (H' : seen st i (dispatch_operation (resolve_with lookup) c (svc (shared st)) (mem (shared st)) owner rq now) =
                   (o, st')) by (by destruct rq).
      clear H. destruct Hidle as [[-> Ho]|[-> Ho]]; [|by eapply operation_step].
      unfold dispatch_operation in H'. rewrite Ho in H'. cbn [negb] in H'.
      eapply answered_same in H'; [done|done|done|done|]. intros r Hr. by apply Hstep, p_shut.
    + destruct rq; try done.
      * eapply answered_same in H; [done|done|done|done|]. intros r Hr. apply Hstep, p_capabilities; [done|].
        destruct Hc as [<- _]. done.
      * eapply (answered_same _ _ _ _ _ _ Ready) in H; [done|done|done| |].
        -- split; [apply Hc|]. cbn. done.
        -- intros r Hr. by apply Hstep, p_open.
      * eapply answered_same in H; [done|done|done|done|]. intros r Hr. by apply Hstep, p_nothing.
Qed.

(** Whose worker it is. *)
Lemma belongs_iff w cur n h h' d result :
  in_sync w cur -> out w !! n = Some (IStd h') -> IStd h ∈ out w ->
  AuthSession.std_belongs_to (completion (mkJob (clone_for_worker (Scheduler.std_op h')) d) result) (Scheduler.std_op h) = true
  <-> AuthSession.std_handle (Scheduler.std_op h') = AuthSession.std_handle (Scheduler.std_op h).
Proof.
  intros Hs Hn Hi. pose proof (Scheduler.sync_out _ _ Hs) as Ho.
  pose proof (proj1 (Forall_forall _ _) Ho _ Hi) as (_ & Hslot & _).
  pose proof (proj1 (Forall_forall _ _) Ho _ (list_elem_of_lookup_2 _ _ _ Hn)) as (_ & Hslot' & _). cbn in Hslot, Hslot'.
  unfold AuthSession.std_belongs_to, AuthSession.std_handle. cbn.
  rewrite !andb_true_iff, Z.eqb_eq, !bool_decide_eq_true, Hslot, Hslot'. split; [intros [[-> ->] _]|intros [= -> ->]]; done.
Qed.

Lemma finished_ok st phs i c n h' result now o st' :
  linked st phs -> named result -> conns st !! i = Some c -> out (shared st) !! n = Some (IStd h') ->
  seen st i (finish_worker c (svc (shared st)) (mem (shared st))
    (completion (mkJob (clone_for_worker (Scheduler.std_op h')) (Scheduler.ss_deadline h')) result) now) = (o, st') ->
  exists phs', cstep (shared st) phs (Finished i n result now) o (shared st') phs' /\ linked st' phs'.
Proof.
  intros Hl Hnamed Hi Hn H. destruct (linked_lookup _ _ _ _ Hl Hi) as (ph & Hph & Hc). pose proof Hl as [[cur Hs] _].
  unfold finish_worker in H. destruct (active c) as [h|] eqn:Ha.
  2: { cbn in H. rewrite app_nil_r in H. injection H as <- <-. exists phs. split.
       - cbn [shared]. rewrite Scheduler.world_eta. eapply c_no_worker; [done|].
         destruct (idle_phase _ _ _ Hc Ha) as [[? _]|[? _]]; auto.
       - rewrite <- (list_insert_id phs i ph) by done. by apply linked_same. }
  destruct (busy_phase _ _ _ _ Hc Ha) as (rq & -> & Hin).
  assert (Htake : forall w', conn_ok w' (take_active c) Ready) by (intros w'; split; [apply Hc|split; [apply Hc|done]]).
  set (k := completion _ result) in H. pose proof (belongs_iff _ _ _ h h' (Scheduler.ss_deadline h') result Hs Hn Hin) as Hb.
  fold k in Hb. destruct (AuthSession.std_belongs_to k (Scheduler.std_op h)) eqn:Hbel; cbn [negb] in H.
  - assert (Hwk : is_worker (shared st) n h) by (exists h'; split; [done|by apply Hb]).
    destruct (Scheduler.finish_standard _ _ _ _ _) as [[r s'] m'] eqn:Hf.
    assert (exists cur', goes (shared st) cur (mkWorld s' m' (out (shared st))) cur' /\ verdict_of (shared st) h result r /\ named r)
      as (cur' & Hg & Hv & Hnr).
    { destruct (Scheduler.service_finish_standard_spec _ _ _ _ _ _ _ _ Hs Hin Hf)
        as [(-> & -> & -> & _)|(_ & -> & _ & -> & _ & Hg)].
      - exists cur. split; [rewrite Scheduler.world_eta; by apply Scheduler.goes_refl|]. split; [by left|done].
      - exists None. split; [done|]. unfold AuthSession.std_verdict, verdict_of, flagged.
        destruct (AuthSession.std_is_cancelled _ _); [split; [by auto|done]|].
        destruct (StandardAuthority.result_is_compatible _ _) eqn:Hcomp; [|split; [by auto|done]].
        assert (Ho : Scheduler.owns_standard (svc (shared st)) h = true)
          by (by apply (Scheduler.guard_owns _ _ (IStd h) Hs Hin)).
        destruct result; cbn in *; (split; [by auto 10|done]). }
    destruct (reply_says r Hnr) as (rep & Hrep & Hsay). rewrite (seen_reply _ _ _ _ _ _ _ Hrep) in H. injection H as <- <-.
    exists (<[i := Ready]> phs). split; [by eapply c_finished|by eapply linked_conn].
  - destruct (Scheduler.standard_worker_lost _ _) as [b s'] eqn:Hw.
    destruct (lost_goes _ _ _ _ _ Hs Hin Hw) as [[cur' Hg] Hloses]. cbn in H. rewrite app_nil_r in H. injection H as <- <-.
    exists (<[i := Ready]> phs). split; [|by eapply linked_conn]. eapply c_foreign; [done| |done].
    intros (h2 & Hn2 & He). rewrite Hn in Hn2. injection Hn2 as <-. by apply Hb in He.
Qed.

Lemma gone_ok st phs i c e o st' :
  linked st phs -> e = Gone i \/ e = Expired i -> conns st !! i = Some c ->
  acknowledged st (client_disconnected c (svc (shared st)) (mem (shared st))) = (o, st') ->
  exists phs', cstep (shared st) phs e o (shared st') phs' /\ linked st' phs'.
Proof.
  intros Hl He Hi H. destruct (linked_lookup _ _ _ _ Hl Hi) as (ph & Hph & Hc). pose proof Hl as [[cur Hs] _].
  unfold client_disconnected in H. exists phs. destruct (active c) as [h|] eqn:Ha.
  - destruct (busy_phase _ _ _ _ Hc Ha) as (rq & -> & Hin).
    destruct (Scheduler.standard_client_disconnected _ _ _) as [[b s'] m'] eqn:Hd.
    destruct (disconnected_goes _ _ _ _ _ _ Hs Hin Hd) as [Hg Hf]. injection H as <- <-.
    split; [|by eapply linked_goes]. eapply c_gone; [done|done| |].
    + intros rq' h2 [= <- <-]. done.
    + intros Hno. by destruct (Hno rq h).
  - injection H as <- <-. rewrite Scheduler.world_eta. split; [|by destruct st].
    eapply c_gone; [done|done| |done]. by destruct (idle_phase _ _ _ Hc Ha) as [[-> _]|[-> _]].
Qed.

Lemma lost_ok st phs i c o st' :
  linked st phs -> conns st !! i = Some c ->
  seen st i (worker_lost c (svc (shared st)) (mem (shared st))) = (o, st') ->
  exists phs', cstep (shared st) phs (Lost i) o (shared st') phs' /\ linked st' phs'.
Proof.
  intros Hl Hi H. destruct (linked_lookup _ _ _ _ Hl Hi) as (ph & Hph & Hc). pose proof Hl as [[cur Hs] _].
  unfold worker_lost in H. destruct (active c) as [h|] eqn:Ha.
  - destruct (busy_phase _ _ _ _ Hc Ha) as (rq & -> & Hin).
    destruct (Scheduler.standard_worker_lost _ _) as [b s'] eqn:Hw.
    destruct (lost_goes _ _ _ _ _ Hs Hin Hw) as [[cur' Hg] Hloses]. cbn in H. rewrite app_nil_r in H. injection H as <- <-.
    exists (<[i := Ready]> phs). split; [by eapply c_lost|]. eapply linked_conn; [done|done|done|].
    split; [apply Hc|split; [apply Hc|done]].
  - cbn in H. rewrite app_nil_r in H. injection H as <- <-. exists phs. split.
    + cbn [shared]. rewrite Scheduler.world_eta. eapply c_not_lost; [done|].
      destruct (idle_phase _ _ _ Hc Ha) as [[? _]|[? _]]; auto.
    + rewrite <- (list_insert_id phs i ph) by done. by apply linked_same.
Qed.

Lemma progress_ok st phs i c n h' p o st' :
  linked st phs -> conns st !! i = Some c -> out (shared st) !! n = Some (IStd h') ->
  match worker_progress c (mkJob (clone_for_worker (Scheduler.std_op h')) (Scheduler.ss_deadline h')) p with
  | Ok r => (Answered r, st)
  | Err e => (Refused e, st)
  | Panic => (Panicked, st)
  end = (o, st') ->
  cstep (shared st) phs (Progress i n p) o (shared st') phs /\ st' = st.
Proof.
  intros Hl Hi Hn H. destruct (linked_lookup _ _ _ _ Hl Hi) as (ph & Hph & Hc). pose proof Hl as [[cur Hs] _].
  unfold worker_progress in H. destruct (active c) as [h|] eqn:Ha; cbn [ok_or] in H.
  2: { injection H as <- <-. split; [|done]. apply c_no_progress. intros rq h Hw. rewrite Hph in Hw.
       destruct (idle_phase _ _ _ Hc Ha) as [[-> _]|[-> _]]; done. }
  destruct (busy_phase _ _ _ _ Hc Ha) as (rq & -> & Hin). unfold belongs_to in H.
  pose proof (belongs_iff _ _ _ h h' (Scheduler.ss_deadline h') (Server.Terminal Outcome.Error) Hs Hn Hin) as Hb.
  assert (Hno : ~ enrolls (shared st) n h -> forall e, (Refused e, st) = (o, st') ->
    cstep (shared st) phs (Progress i n p) o (shared st') phs /\ st' = st).
  { intros Hne e [= <- <-]. split; [|done]. apply c_no_progress. intros rq' h2 Hw. rewrite Hph in Hw. by injection Hw as <- <-. }
  destruct (AuthSession.std_belongs_to _ _); cbn [negb] in H.
  2: { eapply Hno; [|exact H]. intros (h2 & Hn2 & He & _). rewrite Hn in Hn2. injection Hn2 as <-. by apply Hb in He. }
  destruct (Operation.is_enroll _) eqn:Hen; cbn [negb] in H.
  2: { eapply Hno; [|exact H]. intros (h2 & Hn2 & He & Hen2). rewrite Hn in Hn2. injection Hn2 as <-. cbn in Hen. unfold operation_of in Hen2. congruence. }
  destruct (reply_new_says (Server.EnrollProgress p) I) as (r & Hr & Hsay). rewrite Hr in H. injection H as <- <-.
  split; [|done]. eapply c_progress; [done| |done]. exists h'. split; [done|]. split; [by apply Hb|done].
Qed.

Definition typed (e : deed) : Prop := match e with Finished _ _ r _ => named r | _ => True end.

Lemma site_step_ok st phs e o st' :
  linked st phs -> typed e -> site_step st e = (o, st') ->
  exists phs', cstep (shared st) phs e o (shared st') phs' /\ linked st' phs'.
Proof.
  intros Hl Ht H. unfold site_step in H.
  assert (Hno : nobody (shared st) phs e -> (Nothing, st) = (o, st') ->
    exists phs', cstep (shared st) phs e o (shared st') phs' /\ linked st' phs').
  { intros Hn [= <- <-]. exists phs. split; [by apply c_nobody|done]. }
  assert (Hjob : forall n, job_of st n = None -> forall h, out (shared st) !! n <> Some (IStd h)).
  { intros n Hj h Hn. unfold job_of in Hj. by rewrite Hn in Hj. }
  destruct e as [p|i owner bs now|i n p|i n result now|i|i|i|e].
  - unfold connection_new in H. destruct (bool_decide _) eqn:Hloc; cbn in H.
    + apply bool_decide_eq_true in Hloc. injection H as <- <-. exists (phs ++ [Shut]). split; [by apply c_accept|].
      destruct Hl as [Hs HF]. split; [done|]. cbn. apply Forall2_app; [done|]. by repeat constructor.
    + apply bool_decide_eq_false in Hloc. injection H as <- <-. exists phs. split; [by apply c_not_local|done].
  - destruct (conns st !! i) as [c|] eqn:Hi; [by eapply packet_ok|]. apply Hno; [by eapply linked_none|done].
  - destruct (conns st !! i) as [c|] eqn:Hi; [|apply Hno; [left; by eapply linked_none|done]].
    destruct (job_of st n) as [job|] eqn:Hj; [|apply Hno; [right; by apply Hjob|done]].
    unfold job_of in Hj. destruct (out (shared st) !! n) as [[|h']|] eqn:Hn; [done| |done]. injection Hj as <-.
    destruct (progress_ok _ _ _ _ _ _ _ _ _ Hl Hi Hn H) as [Hstep ->]. eauto.
  - destruct (conns st !! i) as [c|] eqn:Hi; [|apply Hno; [left; by eapply linked_none|done]].
    destruct (job_of st n) as [job|] eqn:Hj; [|apply Hno; [right; by apply Hjob|done]].
    unfold job_of in Hj. destruct (out (shared st) !! n) as [[|h']|] eqn:Hn; [done| |done]. injection Hj as <-.
    by eapply finished_ok.
  - destruct (conns st !! i) as [c|] eqn:Hi; [|apply Hno; [by eapply linked_none|done]].
    eapply gone_ok; [done|by left|done|exact H].
  - destruct (conns st !! i) as [c|] eqn:Hi; [|apply Hno; [by eapply linked_none|done]].
    eapply gone_ok; [done|by right|done|exact H].
  - destruct (conns st !! i) as [c|] eqn:Hi; [by eapply lost_ok|]. apply Hno; [by eapply linked_none|done].
  - injection H as <- <-. exists phs. split; [apply c_other|]. pose proof Hl as [[cur Hs] _].
    destruct (Scheduler.step_goes _ _ e Hs) as [cur' Hg]. by eapply linked_goes.
Qed.

Lemma site_run_ok es : forall st phs,
  linked st phs -> Forall typed es ->
  exists phs', contract_run (shared st) phs es (site_run st es).1 (shared (site_run st es).2) phs' /\
    linked (site_run st es).2 phs'.
Proof.
  induction es as [|e es IH]; intros st phs Hl Ht; cbn [site_run].
  { exists phs. split; [constructor|done]. }
  inversion_clear Ht. destruct (site_step st e) as [o st1] eqn:He.
  destruct (site_step_ok _ _ _ _ _ Hl ltac:(done) He) as (phs1 & Hstep & Hl1).
  destruct (IH st1 phs1 Hl1 ltac:(done)) as (phs2 & Hrun & Hl2). destruct (site_run st1 es) as [os st2].
  exists phs2. split; [by econstructor|done].
Qed.

(** C8. Any number of standard fingerprint connections on one broker service, whatever the
    direct requests and other callers of that service do meanwhile, each keep its contract,
    and nothing panics: only local peers connect; before [Open] no operation starts; an
    operation that starts is the one its request names, for the account the system resolves
    its user name to, is the only one in progress, and gets exactly one terminal answer, on
    the connection that asked; until then every other request is answered [Busy]; a
    [Cancel] reaches the worker as long as it listens; the answer is the worker's own result
    only if that worker belongs to the operation, was not cancelled, and its result suits
    the operation, and otherwise [Cancelled] or [Error]; and a worker that is lost or answers
    for another poisons the service. *)
Theorem connections_keep_contract m now idle s m0 es :
  Scheduler.service_new m now idle = (Ok s, m0) -> Forall typed es ->
  let st := mkSite (mkWorld s m0 []) [] in
  exists phs, contract_run (shared st) [] es (site_run st es).1 (shared (site_run st es).2) phs.
Proof.
  intros Hn Ht st. destruct (site_run_ok es st []) as (phs & Hrun & _); [|done|by exists phs].
  split; [|constructor]. exists None. by apply (Scheduler.new_in_sync _ _ _ _ _ Hn).
Qed.
End Site.

(** Root lists the identities of a machine without any; a second connection finds it busy. *)
Definition ex_root : PeerMetadata := AuthProtocol.mkPeer AuthProtocol.Local 0 0.
Definition ex_request (m : Client.t) : bytes :=
  match StandardProtocol.encode_client m with Ok bs => bs | _ => [] end.
Definition ex_config : StandardConnectionConfig := mkConfig (StandardProtocol.mkCapabilities 63 10 5).
Definition ex_ask (i : nat) (m : Client.t) : deed := Packet i (Some AuthProtocol.ex_policy) (ex_request m) 0.
Definition ex_deeds : list deed :=
  [Accept ex_root; Accept ex_root; ex_ask 0 Client.ListIdentities; ex_ask 0 Client.Open; ex_ask 1 Client.Open;
   ex_ask 0 Client.ListIdentities; ex_ask 1 Client.ListIdentities; ex_ask 0 Client.ListIdentities;
   Finished 0 0 (Server.IdentityList None []) 0; ex_ask 1 Client.ListIdentities; ex_ask 1 Client.Cancel;
   Finished 1 1 (Server.IdentityList None []) 0].

Definition ex_said (o : sight) : option Server.t := match o with Answered r => Some (message r) | _ => None end.

Lemma connections_keep_contract_witness :
  ex_said <$> (site_run (fun _ => (0, 1000)) ex_config (mkSite Scheduler.ex_start []) ex_deeds).1 =
    [None; None; Some (Server.Terminal Outcome.Error); Some Server.Opened; Some Server.Opened;
     None; Some (Server.Terminal Outcome.Busy); Some (Server.Terminal Outcome.Busy);
     Some (Server.IdentityList None []); None; None; Some (Server.Terminal Outcome.Cancelled)] /\
  exists phs, contract_run (fun _ => (0, 1000)) ex_config Scheduler.ex_start [] ex_deeds
    (site_run (fun _ => (0, 1000)) ex_config (mkSite Scheduler.ex_start []) ex_deeds).1
    (shared (site_run (fun _ => (0, 1000)) ex_config (mkSite Scheduler.ex_start []) ex_deeds).2) phs.
Proof.
  split; [vm_compute; reflexivity|].
  apply (connections_keep_contract (fun _ => (0, 1000)) ex_config Scheduler.ex_memory 0 (from_secs 60)
           Scheduler.ex_service (mem Scheduler.ex_start) ex_deeds Scheduler.ex_new).
  by repeat constructor.
Defined.
End StandardConnection.
