(* ===== verification/KeybagRelay.v ===== *)
(** * The keybag relay and the handoff around an operation

    [t1-daemons/src/keybag_relay.rs] controls the relay service through [systemctl], and
    [auth_lifecycle.rs] and [enrollment_lifecycle.rs] stop it for an operation and start it
    again. The commands are run by any instance of [CommandRunner]; the process runner is
    modelled over the process calls of the system, class [Processes]. *)

From S2P Require Import Prelude Effects Text.

(** ** Controlling the relay *)

Module KeybagRelay.

Import Strings.String.StringSyntax.
Open Scope string_scope.
Definition SYSTEMCTL : bytes := Text.str "/usr/bin/systemctl".
Definition RELAY_UNIT : bytes := Text.str "t1bridge-keybag.service".
Definition IS_ACTIVE_ARGS : list bytes := [Text.str "is-active"; RELAY_UNIT].
Definition START_ARGS : list bytes := [Text.str "start"; RELAY_UNIT].
Definition STOP_ARGS : list bytes := [Text.str "stop"; RELAY_UNIT].
Definition ROOT_DIRECTORY : bytes := Text.str "/".
Definition ACTIVE : bytes := Text.str "active" ++ [10%Z].
Definition INACTIVE : bytes := Text.str "inactive" ++ [10%Z].
Definition FAILED : bytes := Text.str "failed" ++ [10%Z].
Close Scope string_scope.
Open Scope Z_scope.

Definition WAIT_SLICE : Duration := from_millis 10.
Definition MAX_STATE_OUTPUT : Z := 64.

Inductive KeybagRelayError : Type :=
| InvalidTimeout | ControlUnavailable | ControlWaitFailed | ControlTimedOut | ControlCleanupFailed
| UnexpectedExit | UnknownState | VerificationFailed.

Inductive ServiceState : Type := Active | Inactive | Failed.
Inductive ServiceAction : Type := Query | Start | Stop.
Inductive StdioPolicy : Type := Null | Capture.

#[global] Instance ServiceState_eq_dec : EqDecision ServiceState.
Proof. solve_decision. Defined.
#[global] Instance StdioPolicy_eq_dec : EqDecision StdioPolicy.
Proof. solve_decision. Defined.

Record CommandInvocation : Type := mkInvocation {
  program : bytes;
  args : list bytes;
  working_directory : bytes;
  clear_environment : bool;
  stdin : StdioPolicy;
  stdout : StdioPolicy;
  stderr : StdioPolicy
}.

Inductive CommandExit : Type := Code (code : Z) | Signaled.
Record CommandResult : Type := mkResult { exit : CommandExit; output : bytes }.

Definition success (e : CommandExit) : bool := match e with Code code => code =? 0 | Signaled => false end.

Definition invocation (a : ServiceAction) : CommandInvocation :=
  mkInvocation SYSTEMCTL
    match a with Query => IS_ACTIVE_ARGS | Start => START_ARGS | Stop => STOP_ARGS end
    ROOT_DIRECTORY true Null match a with Query => Capture | Start | Stop => Null end Null.

Definition expected_state (a : ServiceAction) : ServiceState :=
  match a with Start => Active | Stop | Query => Inactive end.

(** The trait, with the clock that the deadline is read from. *)
Class CommandRunner (R : Type) : Type := {
  instant_now : R -> Duration * R;
  run : CommandInvocation -> Duration -> R -> res KeybagRelayError CommandResult * R
}.

Section Control.
Context {R : Type} `{!CommandRunner R}.

Record RelayControl : Type := mkControl { runner : R; timeout : Duration }.

Abbreviation control A := (M RelayControl KeybagRelayError A).

Definition control_new (runner : R) (timeout : Duration) : res KeybagRelayError RelayControl :=
  if timeout =? 0 then Err InvalidTimeout else Ok (mkControl runner timeout).

Definition deadline : control Duration := fun c =>
  let (now, r) := instant_now (runner c) in
  (ok_or (duration_checked_add now (timeout c)) InvalidTimeout, mkControl r (timeout c)).

(** [self.runner.run(...)]. *)
Definition run_command (i : CommandInvocation) (d : Duration) : control CommandResult := fun c =>
  let (r, runner) := run i d (runner c) in (r, mkControl runner (timeout c)).

Definition parse_state (r : CommandResult) : res KeybagRelayError ServiceState :=
  match exit r with
  | Code code =>
      if (code =? 0) && bool_decide (output r = ACTIVE) then Ok Active
      else if (code =? 3) && bool_decide (output r = INACTIVE) then Ok Inactive
      else if (code =? 3) && bool_decide (output r = FAILED) then Ok Failed
      else Err UnknownState
  | Signaled => Err UnknownState
  end.

Definition query (d : Duration) : control ServiceState :=
  do! result := run_command (invocation Query) d in
  lift (parse_state result).

Definition is_active : control bool :=
  do! d := deadline in
  do! state := query d in
  ret (bool_decide (state = Active)).

Definition transition (action : ServiceAction) : control () :=
  do! d := deadline in
  do! result := run_command (invocation action) d in
  do! state := query d in
  if negb (success (exit result)) then lift (Err UnexpectedExit)
  else if negb (bool_decide (state = expected_state action)) then lift (Err VerificationFailed)
  else ret ().

Definition stop : control () := transition Stop.
Definition start : control () := transition Start.
End Control.
Arguments RelayControl : clear implicits.

(** ** Running a command as a process *)

(** The calls on the one child of a run. [None] is an error; the exit status is its code. *)
Class Processes (P : Type) : Type := {
  clock : P -> Duration * P;
  sleep : Duration -> P -> P;
  spawn : CommandInvocation -> P -> bool * P;
  try_wait : P -> option (option (option Z)) * P;
  kill : P -> bool * P;
  wait : P -> bool * P;
  read_stdout : Z -> P -> option bytes * P;
  has_stdout : P -> bool
}.

Section Process.
Context {P : Type} `{!Processes P}.

Definition command_exit (status : option Z) : CommandExit :=
  match status with Some code => Code code | None => Signaled end.

Definition terminate_and_reap (p : P) : res KeybagRelayError () * P :=
  let (killed, p) := kill p in
  let reap (p : P) := let (ok, p) := wait p in (if ok then Ok () else Err ControlCleanupFailed, p) in
  if killed then reap p
  else
    match try_wait p with
    | (None, p) => (Err ControlCleanupFailed, p)
    | (Some None, p) => (Err ControlCleanupFailed, p)
    | (Some (Some _), p) => reap p
    end.

(** [None]: still waiting after so many rounds. *)
Fixpoint wait_bounded (rounds : nat) (d : Duration) (p : P) : option (res KeybagRelayError CommandExit * P) :=
  match rounds with
  | O => None
  | S rounds =>
      match try_wait p with
      | (None, p) => Some (Err ControlWaitFailed, p)
      | (Some (Some status), p) => Some (Ok (command_exit status), p)
      | (Some None, p) =>
          let (now, p) := clock p in
          if d <=? now then
            let (r, p) := terminate_and_reap p in
            Some (match r with Ok _ => Err ControlTimedOut | Err e => Err e | Panic => Panic end, p)
          else wait_bounded rounds d (sleep (Z.min (saturating_sub d now) WAIT_SLICE) p)
      end
  end.

Definition read_captured_stdout (policy : StdioPolicy) (p : P) : res KeybagRelayError bytes * P :=
  if bool_decide (policy = Null) then (Ok [], p)
  else if negb (has_stdout p) then (Err ControlWaitFailed, p)
  else
    match read_stdout (MAX_STATE_OUTPUT + 1) p with
    | (None, p) => (Err ControlWaitFailed, p)
    | (Some output, p) => (if MAX_STATE_OUTPUT <? len output then Err UnknownState else Ok output, p)
    end.

(** [ProcessCommandRunner::run]. *)
Definition process_run (rounds : nat) (i : CommandInvocation) (d : Duration) (p : P)
    : option (res KeybagRelayError CommandResult * P) :=
  let (now, p) := clock p in
  if d <=? now then Some (Err ControlTimedOut, p)
  else
    match spawn i p with
    | (false, p) => Some (Err ControlUnavailable, p)
    | (true, p) =>
        match wait_bounded rounds d p with
        | None => None
        | Some (Ok exit, p) =>
            let (r, p) := read_captured_stdout (stdout i) p in
            Some (let! output := r in Ok (mkResult exit output), p)
        | Some (Err e, p) => Some (Err e, p)
        | Some (Panic, p) => Some (Panic, p)
        end
    end.

(** A clock that a sleep moves on by what was asked for, and that nothing moves back. *)
Class ClockMoves : Prop := {
  now_clock : forall p, fst (clock (snd (clock p))) >= fst (clock p);
  now_sleep : forall d p, fst (clock (sleep d p)) >= fst (clock p) + d;
  now_spawn : forall i p, fst (clock (snd (spawn i p))) >= fst (clock p);
  now_try_wait : forall p, fst (clock (snd (try_wait p))) >= fst (clock p)
}.

(** So many rounds take at least the time until the deadline. *)
Definition enough (rounds : nat) (d now : Duration) : Prop :=
  (1 <= rounds)%nat /\ d - now <= (Z.of_nat rounds - 1) * WAIT_SLICE.

Lemma wait_returns `{!ClockMoves} d : forall rounds p,
  enough rounds d (fst (clock p)) -> is_Some (wait_bounded rounds d p).
Proof.
  induction rounds as [|rounds IH]; intros p [H1 Hn]; [lia|]. cbn [wait_bounded].
  pose proof (now_try_wait p) as Ht. destruct (try_wait p) as [[[status|]|] p1]; [eauto| |eauto]. cbn in Ht.
  pose proof (now_clock p1) as Hc. destruct (clock p1) as [now p2] eqn:E. cbn in Hc, Ht.
  destruct (d <=? now) eqn:Hd; b2p; [destruct (terminate_and_reap p2); eauto|].
  apply IH. pose proof (now_sleep (Z.min (saturating_sub d now) WAIT_SLICE) p2) as Hs.
  unfold enough, saturating_sub, WAIT_SLICE, from_millis in *. lia.
Qed.

(** A command returns by its deadline, give or take one round. *)
Theorem process_run_returns `{!ClockMoves} rounds i d p :
  enough rounds d (fst (clock p)) -> is_Some (process_run rounds i d p).
Proof.
  intros [H1 Hn]. unfold process_run. pose proof (now_clock p) as Hc. destruct (clock p) as [now p1]. cbn in Hc, Hn.
  destruct (d <=? now); [eauto|]. pose proof (now_spawn i p1) as Hs. destruct (spawn i p1) as [[] p2]; [|eauto]. cbn in Hs.
  destruct (wait_returns d rounds p2) as [[[exit|e|] p3] ->]; [split; [done|lia]| |eauto..].
  destruct (read_captured_stdout _ p3) as [r p4]. eauto.
Qed.
End Process.
End KeybagRelay.

(** ** The handoff *)

Module Handoff.
Import KeybagRelay.

(** [AuthenticationRelayRuntime] and [EnrollmentRelayRuntime]. *)
Class RelayRuntime (T E : Type) : Type := {
  relay_is_active : M T E bool;
  stop_relay : M T E ();
  start_relay : M T E ()
}.

#[global] Instance control_runtime {R} `{!CommandRunner R} : RelayRuntime (RelayControl R) KeybagRelayError := {|
  relay_is_active := is_active;
  stop_relay := stop;
  start_relay := start
|}.

Module AuthenticationLifecycle.
Inductive Stage : Type := RelayHealth | RelayStop | RelayRecovery.
Inductive Error {RuntimeError OperationError : Type} : Type :=
| RelayInactive
| Runtime (stage : Stage) (error : RuntimeError)
| Operation (error : OperationError).
Arguments Error : clear implicits.
End AuthenticationLifecycle.

Module EnrollmentLifecycle.
Inductive Stage : Type := RelayHealth | RelayStop | ExclusiveSepAndAcm | LeaseCleanup | RelayRecovery.
Inductive Error {RuntimeError OperationError : Type} : Type :=
| RelayInactive
| Runtime (stage : Stage) (error : RuntimeError)
| InvalidCredential
| Operation (error : OperationError).
Arguments Error : clear implicits.
End EnrollmentLifecycle.
Module Auth := AuthenticationLifecycle.
Module Enroll := EnrollmentLifecycle.

Section Handoff.
Context {T E OE A : Type} `{!RelayRuntime T E}.

(** [catch_unwind] keeps a panic as the outcome of its closure, [resume_unwind] is that panic. *)
Definition with_authentication_relay_handoff (operation : M T OE A) : M T (Auth.Error E OE) A := fun t =>
  match relay_is_active t with
  | (Err e, t) => (Err (Auth.Runtime Auth.RelayHealth e), t)
  | (Panic, t) => (Panic, t)
  | (Ok false, t) => (Err Auth.RelayInactive, t)
  | (Ok true, t) =>
      let (primary, t) :=
        match stop_relay t with
        | (Ok _, t) => mapM_err Auth.Operation operation t
        | (Err e, t) => (Err (Auth.Runtime Auth.RelayStop e), t)
        | (Panic, t) => (Panic, t)
        end in
      match start_relay t with
      | (Panic, t) => (Panic, t)
      | (Err e, t) => (Err (Auth.Runtime Auth.RelayRecovery e), t)
      | (Ok _, t) => (primary, t)
      end
  end.

Definition with_enrollment_relay_handoff (operation : M T OE A) : M T (Enroll.Error E OE) A := fun t =>
  match relay_is_active t with
  | (Err e, t) => (Err (Enroll.Runtime Enroll.RelayHealth e), t)
  | (Panic, t) => (Panic, t)
  | (Ok false, t) => (Err Enroll.RelayInactive, t)
  | (Ok true, t) =>
      let (primary, t) :=
        match stop_relay t with
        | (Ok _, t) => mapM_err Enroll.Operation operation t
        | (Err e, t) => (Err (Enroll.Runtime Enroll.RelayStop e), t)
        | (Panic, t) => (Panic, t)
        end in
      match start_relay t with
      | (Panic, t) => (Panic, t)
      | (Err e, t) => (Err (Enroll.Runtime Enroll.RelayRecovery e), t)
      | (Ok _, t) => (primary, t)
      end
  end.
End Handoff.

(** A runner that notes its commands and how they ended. *)
Record Noted (R : Type) : Type := mkNoted {
  inner : R;
  calls : list (CommandInvocation * res KeybagRelayError CommandResult)
}.
Arguments mkNoted {R}.
Arguments inner {R}.
Arguments calls {R}.

#[global] Instance noted_runner {R} `{!CommandRunner R} : CommandRunner (Noted R) := {|
  instant_now := fun n => let (now, r) := instant_now (inner n) in (now, mkNoted r (calls n));
  run := fun i d n => let (o, r) := run i d (inner n) in (o, mkNoted r (calls n ++ [(i, o)]))
|}.

Section Restored.
Context {R : Type} `{!CommandRunner R}.
Implicit Types c : RelayControl (Noted R).

Definition said c := calls (runner c).

(** The last two commands asked for a state, with success, and saw it. *)
Definition ends_in (a : ServiceAction) c : Prop :=
  exists l done seen,
    said c = l ++ [(invocation a, Ok done); (invocation Query, Ok seen)] /\
    success (exit done) = true /\ parse_state seen = Ok (expected_state a).

(** One question about the state was asked, and answered with [s]. *)
Definition saw (s : ServiceState) c c' : Prop :=
  exists seen, said c' = said c ++ [(invocation Query, Ok seen)] /\ parse_state seen = Ok s.

(** At most these commands were given, in this order. *)
Definition gave (cmds : list CommandInvocation) c c' : Prop :=
  exists l, said c' = said c ++ l /\ fst <$> l `prefix_of` cmds.

Lemma deadline_said c : said (deadline c).2 = said c.
Proof. unfold deadline. cbn. by destruct (instant_now (inner (runner c))). Qed.

Lemma run_command_said i d c : said (run_command i d c).2 = said c ++ [(i, (run_command i d c).1)].
Proof. unfold run_command. cbn. by destruct (run i d (inner (runner c))). Qed.

Lemma deadline_run c r c1 : deadline c = (r, c1) -> said c1 = said c.
Proof. intros H. pose proof (deadline_said c) as Hs. by rewrite H in Hs. Qed.

Lemma run_command_run i d c r c1 : run_command i d c = (r, c1) -> said c1 = said c ++ [(i, r)].
Proof. intros H. pose proof (run_command_said i d c) as Hs. by rewrite H in Hs. Qed.

(** The question about the relay's health. *)
Lemma is_active_asks c r c1 :
  is_active c = (r, c1) ->
  gave [invocation Query] c c1 /\
  (r = Ok true -> saw Active c c1) /\ (r = Ok false -> exists s, s <> Active /\ saw s c c1).
Proof.
  unfold is_active, query, bind. destruct (deadline c) as [d c2] eqn:Hd. apply deadline_run in Hd.
  assert (gave [invocation Query] c c2) as H0
    by (exists []; split; [by rewrite app_nil_r|apply prefix_nil]).
  destruct d as [d|e|]; [|by intros [= <- <-]..].
  destruct (run_command _ _ c2) as [o c3] eqn:Hr. apply run_command_run in Hr.
  assert (gave [invocation Query] c c3) as H1 by (exists [(invocation Query, o)]; by rewrite Hr, Hd).
  destruct o as [result|e|]; [|by intros [= <- <-]..]. cbn.
  destruct (parse_state result) as [s|e|] eqn:Hs; intros [= <- <-]; (split; [done|]); [|done..].
  split; intros [= Hb]; [apply bool_decide_eq_true in Hb as ->|apply bool_decide_eq_false in Hb; exists s; split; [done|]];
    exists result; by rewrite Hr, Hd.
Qed.

(** A transition gives its command and asks for the state, and nothing else. *)
Lemma transition_gives a c r c' : transition a c = (r, c') -> gave [invocation a; invocation Query] c c'.
Proof.
  unfold transition, query, bind. destruct (deadline c) as [d c1] eqn:Hd. apply deadline_run in Hd.
  destruct d as [d|e|];
    [|intros [= <- <-]; exists []; split; [by rewrite app_nil_r|apply prefix_nil]..].
  destruct (run_command (invocation a) _ c1) as [o c2] eqn:Ho. apply run_command_run in Ho.
  destruct o as [result|e|];
    [|intros [= <- <-]; eexists [_]; (split; [by rewrite Ho, Hd|]); by eexists [_]..].
  destruct (run_command (invocation Query) _ c2) as [q c3] eqn:Hq. apply run_command_run in Hq.
  assert (gave [invocation a; invocation Query] c c3) as H.
  { eexists [_; _]. split; [by rewrite Hq, Ho, Hd, <- app_assoc|done]. }
  destruct q as [seen|e|]; cbn; [|by intros [= <- <-]..].
  destruct (parse_state seen); [|by intros [= <- <-]..]. repeat case_match; by intros [= <- <-].
Qed.

(** A transition that succeeds has seen the state it asked for. *)
Lemma transition_ends a c c' : transition a c = (Ok (), c') -> ends_in a c'.
Proof.
  intros H. unfold transition, query in H. apply bind_Ok in H as (d & c1 & Hd & H).
  apply bind_Ok in H as (result & c2 & Hr & H). apply bind_Ok in H as (state & c3 & Hq & H).
  apply bind_Ok in Hq as (seen & c4 & Hs & Hp). apply lift_Ok in Hp as [Hp ->].
  apply deadline_run in Hd. apply run_command_run in Hr, Hs.
  destruct (success (exit result)) eqn:Hsucc; cbn [negb] in H; [|done].
  destruct (bool_decide _) eqn:Hst; cbn [negb] in H; [|done]. apply bool_decide_eq_true in Hst as ->.
  injection H as <-. exists (said c), result, seen. split; [|done]. by rewrite Hs, Hr, Hd, <- app_assoc.
Qed.

Context {OE A : Type} (operation : M (RelayControl (Noted R)) OE A).

(** How a handoff fails, whatever it is around. *)
Inductive failure : Type :=
| FInactive | FHealth (e : KeybagRelayError) | FStop (e : KeybagRelayError)
| FRecovery (e : KeybagRelayError) | FOperation (e : OE).

Definition auth_failure (f : failure) : Auth.Error KeybagRelayError OE :=
  match f with
  | FInactive => Auth.RelayInactive
  | FHealth e => Auth.Runtime Auth.RelayHealth e
  | FStop e => Auth.Runtime Auth.RelayStop e
  | FRecovery e => Auth.Runtime Auth.RelayRecovery e
  | FOperation e => Auth.Operation e
  end.
Definition enroll_failure (f : failure) : Enroll.Error KeybagRelayError OE :=
  match f with
  | FInactive => Enroll.RelayInactive
  | FHealth e => Enroll.Runtime Enroll.RelayHealth e
  | FStop e => Enroll.Runtime Enroll.RelayStop e
  | FRecovery e => Enroll.Runtime Enroll.RelayRecovery e
  | FOperation e => Enroll.Operation e
  end.

(** What happens between the stop, which left [c2], and the start, which begins in [c3]:
    the operation, if the stop succeeded, and nothing otherwise. *)
Definition between (stopped : res KeybagRelayError ()) c2 (primary : res failure A) c3 : Prop :=
  match stopped with
  | Ok _ => ends_in Stop c2 /\ exists o, operation c2 = (o, c3) /\ primary = map_err FOperation o
  | Err e => c3 = c2 /\ primary = Err (FStop e)
  | Panic => c3 = c2 /\ primary = Panic
  end.

(** A handoff that began in [c]. *)
Inductive handoff c : res failure A -> RelayControl (Noted R) -> Prop :=
| handoff_untouched r c' :
    gave [invocation Query] c c' ->
    match r with
    | Err FInactive => exists s, s <> Active /\ saw s c c'
    | Err (FHealth e) => is_active c = (Err e, c')
    | Panic => is_active c = (Panic, c')
    | _ => False
    end ->
    handoff c r c'
| handoff_done c1 stopped c2 primary c3 started r c' :
    is_active c = (Ok true, c1) -> saw Active c c1 ->
    stop c1 = (stopped, c2) -> gave [invocation Stop; invocation Query] c1 c2 ->
    between stopped c2 primary c3 ->
    start c3 = (started, c') -> gave [invocation Start; invocation Query] c3 c' ->
    match started with
    | Ok _ => ends_in Start c' /\ r = primary
    | Err e => r = Err (FRecovery e)
    | Panic => r = Panic
    end ->
    handoff c r c'.

(** Every handoff that got past the question ends with the start. *)
Lemma handed_over c c1 (stopped : res KeybagRelayError ()) c2 primary c3 started c4 r :
  is_active c = (Ok true, c1) -> stop c1 = (stopped, c2) ->
  match stopped with
  | Ok _ => exists o, operation c2 = (o, c3) /\ primary = map_err FOperation o
  | Err e => c3 = c2 /\ primary = Err (FStop e)
  | Panic => c3 = c2 /\ primary = Panic
  end ->
  start c3 = (started, c4) ->
  r = match started with Ok _ => primary | Err e => Err (FRecovery e) | Panic => Panic end ->
  handoff c r c4.
Proof.
  intros Ha Hst Hmid Hs ->. pose proof (proj1 (proj2 (is_active_asks _ _ _ Ha)) eq_refl) as Hsaw.
  eapply handoff_done; [done..|by eapply transition_gives| |done|by eapply transition_gives|].
  - destruct stopped as [[]|e|]; [|exact Hmid..]. split; [by eapply transition_ends|exact Hmid].
  - destruct started as [[]|e|]; [|done..]. split; [by eapply transition_ends|done].
Qed.

(** C17. Whatever the service manager and the operation do, the keybag relay is handed over
    and handed back, around an authentication as around an enrollment. First one question
    about the relay's state is asked, and unless it was answered that the relay is active
    nothing else is done: an inactive or failed relay, or a question that failed, ends the
    handoff with that error and without a stop, the operation or a start. Otherwise, from
    there, the stop is tried; the operation runs exactly if that succeeded, from the state
    the stop left, in which the relay was just seen inactive; and then, from the state the
    operation or the failed stop left, also when it panicked, a start is tried, as the last
    thing done. The result is that of the operation, or the failure of the stop, if the
    start succeeded, when the relay was just seen active; otherwise it is the start's. *)
Theorem relay_handed_back c :
  exists r c', handoff c r c' /\
    with_authentication_relay_handoff operation c = (map_err auth_failure r, c') /\
    with_enrollment_relay_handoff operation c = (map_err enroll_failure r, c').
Proof.
  unfold with_authentication_relay_handoff, with_enrollment_relay_handoff.
  cbn [relay_is_active stop_relay start_relay control_runtime].
  destruct (is_active c) as [h c1] eqn:Ha. destruct (is_active_asks _ _ _ Ha) as (Hg & _ & Hno).
  destruct h as [[]|e|].
  - destruct (stop c1) as [stopped c2] eqn:Hst. unfold mapM_err.
    set (mid := match stopped with
      | Ok _ => (map_err FOperation (operation c2).1, (operation c2).2)
      | Err e => (Err (FStop e), c2) | Panic => (Panic, c2) end).
    destruct (start mid.2) as [started c4] eqn:Hs.
    exists (match started with Ok _ => mid.1 | Err e => Err (FRecovery e) | Panic => Panic end), c4.
    split; [eapply handed_over; [done..| |exact Hs|done]; unfold mid|];
      destruct stopped as [[]|e|]; subst mid; cbn [fst snd] in *; try done.
    + exists (operation c2).1. split; [apply surjective_pairing|done].
    + destruct (operation c2) as [o c3]. cbn [fst snd] in *. rewrite Hs.
      destruct started, o; done.
    + rewrite Hs. by destruct started.
    + rewrite Hs. by destruct started.
  - exists (Err FInactive), c1. split; [|done]. apply handoff_untouched; [done|]. by apply Hno.
  - exists (Err (FHealth e)), c1. split; [|done]. by apply handoff_untouched.
  - exists Panic, c1. split; [|done]. by apply handoff_untouched.
Qed.
End Restored.
End Handoff.
